(* ===== verification/_CoqProject ===== *)
-Q . S2P
Prelude.v
Proc.v
Keyset.v
GoText.v
Json.v
GoTime.v
GoDuration.v
Sha.v
WalletRepo.v
Wallet.v
WalletInv.v
WalletSafe.v
WalletSystem.v
WalletProps.v
CreditOutbox.v
CreditMsg.v
CreditMsgProps.v
Errand.v
Settings.v
ErrandState.v
ErrandJson.v
ErrandInv.v
ErrandProps.v
ErrandStore.v
Fence.v
OpsRepo.v
StoreInv.v
StoreSafe.v
StoreSystem.v
ErrandLists.v
StoreHistory.v
ReminderRows.v
StoreErrors.v
StoreProps.v
ErrandHttp.v
ErrandActions.v
ErrandForms.v
ErrandReads.v
Review.v
AdminReads.v
SettingsStore.v
HttpSystem.v
HttpLogic.v
HttpForms.v
HttpReads.v
HttpProps.v
ReviewProps.v
AdminProps.v
SettingsProps.v
Scheduler.v
SchedulerProps.v
RemindersProps.v
Resilience.v
OrderOutbox.v
OutboxAdmin.v
OutboxAdminProps.v
DeliveryProps.v
Saga.v
OrderCredit.v
ResultProps.v
ReconcilerProps.v
ResultWire.v
Deletion.v
FenceWire.v
DeleteWork.v
DeletionLogic.v
DeletionSystem.v
DeletionEffect.v
DeletionSafe.v
DeletionInv.v
DeletionProps.v
SupplierTypes.v
Catalogue.v
CatalogueHttp.v
Seed.v
CatalogueInv.v
CatalogueRun.v
CatalogueProps.v
