(* ===== verification/Prelude.v ===== *)
(** * Friend on Campus: verification of the credit economy, the errand saga and the supplier catalogue

    Friend on Campus lets students post errands for a reward in credits.
    Three Go services share the work.  [order-service] keeps the errands and
    their state machine, [credit-service] keeps wallets and holds the reward,
    [supplier-service] keeps the shops errands are fetched from.  An errand is
    a saga: order-service writes each transition together with the messages it
    causes into an outbox, its dispatcher publishes them over RabbitMQ,
    credit-service executes each command once and queues a result, and
    order-service applies the result.  A supplier is deleted under a fence:
    supplier-service asks order-service to block new errands before it
    soft-deletes the supplier.

    This library translates that code and proves what makes it correct.  Every
    definition that models code keeps its source's name where possible; file
    names below are relative to [src/].

    ** Conventions

    - A Go call that returns a value or an error is a [res]; a statement or
      transaction is in the state and error monad [M], whose errors carry no
      database because the transaction is rolled back ([Prelude]).
    - A table is a [gmap] from its key; [UPDATE ... WHERE] and [SELECT] are
      functions with the guards of the SQL text ([queries/*.sql]); CHECK,
      UNIQUE and foreign-key constraints of the migrations are errors.
    - Integers are [Z] with their width written out ([wrap64], [in_int64],
      int32 checks); times are nanoseconds since the epoch; strings are byte
      strings, with UTF-8 decoding where the code ranges over runes ([GoText]);
      JSON documents are trees decoded as [encoding/json] does ([Json]).
    - What is not in the repository is a parameter with its documented
      behaviour as a class: how PostgreSQL reads and writes [uuid] and
      [timestamptz] ([Postgres], [PostgresOk], [UuidText]), how it orders and
      folds text ([Collation], [PgText]), Unicode's tables and URLs
      ([GoTables]), AES-GCM and base64 ([Cipher]), the identity provider, random
      jitter.  Witnesses instantiate them.
    - Concurrency is interleaving: every history of committed transactions, of
      deliveries, or of single calls is a path of an inductive step relation,
      and invariants are proved by induction on it.

    ** Files

    Shared: [Prelude] (the monad, sums, table scans, tactics), [Proc] (programs
    over calls), [Keyset] (keyset pagination of an ordered table), [GoText],
    [Json], [GoTime] (RFC 3339 times), [GoDuration] (printing and parsing of
    durations), [Sha] (SHA-1 and SHA-256).

    credit-service:
    - [WalletRepo], [Wallet]: internal/database/walletrepo and internal/wallet,
      the five wallet operations with their row locks and ledger entries.
    - [WalletInv], [WalletSafe], [WalletSystem], [WalletProps]: the ledger
      invariant over every history of commands, money conservation, redelivery,
      settlement, and that a release or transfer which should succeed does.
    - [CreditOutbox], [CreditMsg], [CreditMsgProps]: internal/database/outboxrepo
      and internal/creditmsg, decoding, the result envelope, dispatcher,
      consumer dispositions and backoff; a command with a long message ID is
      carried out but its result cannot be published.

    order-service, the errand and its store:
    - [Errand], [ErrandState], [ErrandJson]: internal/errand, the transition
      table and [Next] with every event.  [ErrandInv], [ErrandProps]: runs of
      the machine, the commands they send, authorisation, two-phase reward
      edits, and that an unattended errand ends, by its deadlines and not
      before them.  [Settings]: the system settings.
    - [ErrandStore], [Fence]: internal/database/errandrepo, opsrepo and
      internal/fence.  [StoreInv], [StoreSafe], [StoreSystem], [StoreHistory],
      [StoreErrors], [StoreProps]: every history of the store, what the
      transition rows say of it, compare-and-swap, fences, idempotent creation.
    - [ErrandLists]: errandrepo/read.go, the keyset-paged lists.  [OpsRepo]:
      opsrepo's open reviews, event log, activity counts and reminders;
      [ReminderRows]: which errands are due a reminder.

    order-service, the errand routes:
    - [ErrandHttp]: internal/errand/errandhttp, the reading and validation of a
      request, the views of an errand and the replies.
    - [ErrandActions], [ErrandForms], [ErrandReads]: the handlers, each a
      program over the store, supplier-service, the settings and the clock
      (internal/errand/accept, courier, requester; create and edit; browse and
      mine).
    - [HttpSystem]: a handler running while other writers change the store and
      while answers get lost, a weakest precondition for it ([hwp]) over what
      the handler has learned ([know]), and the adequacy theorem.
    - [HttpLogic], [HttpForms], [HttpReads]: what a validated body satisfies,
      one specification per handler; [HttpProps]: the properties they give:
      what a request writes, what its answer proves and shows, that retries are
      safe, that pages list everything.

    order-service, administration:
    - [Review], [ReviewProps]: internal/review's queue of errands under review
      and their resolution: a verdict is recorded once, with its audit, and
      takes effect.
    - [AdminReads], [AdminProps]: the event log and the flag report; the log
      agrees with the transition rows, its pages list every event, and exactly
      the restricted couriers are flagged.
    - [SettingsStore], [SettingsProps]: the settings table
      (opsrepo/settings.go), its audited service and routes: the table is a
      register of valid settings, a request is stored or refused as a whole.
    - [OutboxAdmin], [OutboxAdminProps]: internal/outboxadmin, audited replays
      and the pages of failed rows.

    order-service, background work:
    - [Scheduler], [SchedulerProps]: internal/scheduler deadlines and drain.
      [RemindersProps]: its reminder jobs: a reminder is written while it is
      true, once, and a run raises all that are due.
    - [Resilience]: internal/resilience backoff and circuit breaker.
    - [OrderOutbox], [DeliveryProps]: internal/database/msgrepo and
      internal/messaging, leases, publication, sweep; an overtaken claim
      writes nothing, unless an administrator replayed its row
      ([replayed_claim_writes]).
    - [OrderCredit], [ResultProps], [ReconcilerProps]: internal/creditmsg and
      internal/reconciler, applying results, redelivery, recovery.
    - [Saga], [ResultWire]: the two services together; a command written by a
      transition reaches credit-service's repository and the result reaches
      the errand.

    supplier-service with order-service:
    - [Deletion]: internal/database/supplierrepo/deletions.go and its SQL.
    - [FenceWire]: order-service's internal/fence/handler.go and the response
      reading of supplier-service's internal/orderclient.
    - [DeleteWork]: orderclient's retry loop and internal/supplier/delete
      (workflow, handler, reconciler) as programs over their calls; the
      boundary with order-service is the class [OrderDeletionFence].
    - [DeletionLogic]: a weakest precondition for those programs; the workflow
      is proved against [FenceLaws], which the client and the unconfigured
      fence satisfy.
    - [DeletionSystem], [DeletionEffect], [DeletionSafe], [DeletionInv]: any
      number of workers, lost and late requests, failing store calls, and the
      invariant they all keep.
    - [DeletionProps]: executable schedules, calm runs, and the two properties
      of a deletion, with the two schedules in which the code breaks its promise
      ([late_release_unblocks], [refused_request_deletes]).

    supplier-service, the catalogue:
    - [SupplierTypes]: internal/supplier, the types, name and lookup
      normalization and validation.
    - [Catalogue]: internal/database/supplierrepo (repository.go, lookups.go,
      lookup_store.go, cursor.go) over the state [CDB] of the five tables:
      suppliers and their versions, buildings and types, seed provenance.
    - [CatalogueHttp]: internal/auth's middleware and the routes of
      internal/supplier/create, update, query, versioning and lookup.
    - [Seed]: internal/supplier/seed, the CSV rows and the transactional import.
    - [CatalogueInv], [CatalogueRun]: the invariant ([cat_ok]), what never
      changes ([cat_grows]), and the steps of the catalogue: requests, imports
      and deletions.
    - [CatalogueProps]: consistency, immutable versions, what a write stores a
      read returns, pages in the six orders, idempotent imports, permissions, and
      that every step of the catalogue is one the world of [DeletionSystem]
      allows.

    ** Bounds and fuel

    Loops of the code are structural recursions: over a batch, over the
    attempts left, over the programs themselves.  The scheduler's [drain] and
    the dispatcher's [osweep] take fuel, and [drain_clears] and [sweep_ends]
    prove that a fuel of the number of due rows suffices.  [list_open] takes
    fuel for the pages of the open set it loads; [walk] of the list properties
    ends with any fuel above the number of errands, whatever the page size.
    The review queue's [find_open] and [list_reviews] take fuel for the
    batches of open reviews, and [review_takes_effect] holds with any fuel
    above their number.  [parse_units] of a duration takes its length.
    [walk_suppliers] follows the cursors of a supplier list with any fuel above
    the number of suppliers; a lookup of the seed import is tried
    [lookupAttempts] times, as the code does.
    The loop of a credit result that retries a conflicting write runs at most
    [maxConflicts] times, as the code does.

    ** Assumptions worth knowing

    A store call takes effect, if at all, before it returns.  Claim IDs, lease
    holders and generated IDs are fresh.  Workers of supplier-service read one
    clock.  [deleted_supplier_fenced] needs that a release of an undecided
    operation arrives before its sender's lease ran out;
    [late_release_unblocks] shows the code does not ensure it.  A request
    carries its body and its cursor as the JSON value they decode to, with
    their length.  Go's floating-point functions beyond IEEE arithmetic are
    the class [GoFloat], used by the distances of the open list and to read
    coordinates.  A statement of the catalogue's transactions sees the rows as
    they are when its transaction runs: the row locks of the code ([FOR UPDATE],
    [FOR SHARE]) serialise the writers that could disturb one another.  That
    PostgreSQL parses every UUID the API's pattern accepts is the class
    [UUIDs].

    ** Not modelled

    Wiring, configuration, the verification of tokens, logging, metrics,
    tickers and the AMQP connection code have no behaviour of their own here.
    The upload of supplier images (an object store) and user-service (accounts
    kept by the identity provider) are left out.  Caches and test doubles are left
    out: the cached set of open errands reaches a handler as an arbitrary
    earlier answer of the store. *)

From stdpp Require Export base gmap strings list sorting.
From Stdlib Require Export ZArith Lia.

#[export] Set Default Goal Selector "!".
Open Scope Z_scope.

(** ** Results and the transaction monad *)

(** A Go call that returns [(value, error)]. *)
Inductive res (E A : Type) : Type :=
| Ok (a : A)
| Err (e : E).
Arguments Ok {E A} a.
Arguments Err {E A} e.

(** A database operation: it reads and changes the store [S], or fails with
    [E].  A failure carries no store, because the transaction around it is
    rolled back. *)
Definition M (S E A : Type) : Type := S → res E (A * S).

Definition ret {S E A} (a : A) : M S E A := λ s, Ok (a, s).
Definition fail {S E A} (e : E) : M S E A := λ _, Err e.
Definition bind {S E A B} (m : M S E A) (k : A → M S E B) : M S E B :=
  λ s, match m s with
       | Ok (a, s') => k a s'
       | Err e => Err e
       end.

(** [attempt m] is the Go idiom [v, err := m(); if errors.Is(err, ...)]: the
    caller looks at the error.  A statement that failed changed nothing. *)
Definition attempt {S E A} (m : M S E A) : M S E (res E A) :=
  λ s, match m s with
       | Ok (a, s') => Ok (Ok a, s')
       | Err e => Ok (Err e, s)
       end.

Definition get {S E} : M S E S := λ s, Ok (s, s).
Definition put {S E} (s : S) : M S E unit := λ _, Ok (tt, s).

(** [pgx.BeginFunc]: commit the store on success, roll back on error. *)
Definition inTx {S E A} (m : M S E A) (s : S) : res E A * S :=
  match m s with
  | Ok (a, s') => (Ok a, s')
  | Err e => (Err e, s)
  end.

Declare Scope foc_scope.
Delimit Scope foc_scope with foc.
Notation "'let!' x := m 'in' k" := (bind m (λ x, k))
  (at level 10, x name, m at level 100, k at level 200) : foc_scope.
Notation "'do!' m ';' k" := (bind m (λ _, k))
  (at level 10, m at level 100, k at level 200) : foc_scope.
Open Scope foc_scope.

Section monad.
Context {S E A B : Type}.
Implicit Types (m : M S E A) (k : A → M S E B).

Lemma bind_Ok m k s b s'' :
  bind m k s = Ok (b, s'') ↔ ∃ a s', m s = Ok (a, s') ∧ k a s' = Ok (b, s'').
Proof.
  unfold bind. destruct (m s) as [[a s1]|e]; split.
  - intros Hk. by exists a, s1.
  - by intros (? & ? & [= <- <-] & ?).
  - done.
  - by intros (? & ? & ? & ?).
Qed.

Lemma bind_run m k s a s' : m s = Ok (a, s') → bind m k s = k a s'.
Proof. intros Hm. unfold bind. by rewrite Hm. Qed.

Lemma bind_Err m k s e : m s = Err e → bind m k s = Err e.
Proof. intros Hm. unfold bind. by rewrite Hm. Qed.

Lemma inTx_inv m s r s' :
  inTx m s = (r, s') →
  (∃ a, r = Ok a ∧ m s = Ok (a, s')) ∨ (∃ e, r = Err e ∧ s' = s ∧ m s = Err e).
Proof.
  unfold inTx. destruct (m s) as [[a s1]|e] eqn:Hm; intros [= <- <-]; eauto 10.
Qed.

End monad.

(** ** Tactics *)

(** Split every [match] and [if] of a hypothesis that computes a result. *)
Ltac break_in H :=
  repeat (match type of H with
          | context [match ?x with _ => _ end] =>
              let E := fresh "E" in destruct x eqn:E
          end; simplify_eq/=).

(** Invert [bind]s in a hypothesis [H : m s = Ok (a, s')]. *)
Ltac minv H :=
  match type of H with
  | bind _ _ _ = Ok (_, _) =>
      let a := fresh "a" in let s := fresh "s" in
      let Hm := fresh "Hm" in
      apply bind_Ok in H as (a & s & Hm & H); simpl in H
  end.

(** Turn boolean comparisons in the context into propositions. *)
Ltac bool_props :=
  repeat match goal with
  | H : negb _ = true |- _ => apply negb_true_iff in H
  | H : negb _ = false |- _ => apply negb_false_iff in H
  | H : (_ && _)%bool = true |- _ => apply andb_true_iff in H as [??]
  | H : (_ || _)%bool = false |- _ => apply orb_false_iff in H as [??]
  | H : (_ <? _) = true |- _ => apply Z.ltb_lt in H
  | H : (_ <? _) = false |- _ => apply Z.ltb_ge in H
  | H : (_ <=? _) = true |- _ => apply Z.leb_le in H
  | H : (_ <=? _) = false |- _ => apply Z.leb_gt in H
  | H : (_ =? _) = true |- _ => apply Z.eqb_eq in H
  | H : (_ =? _) = false |- _ => apply Z.eqb_neq in H
  | H : bool_decide _ = true |- _ => apply bool_decide_eq_true in H
  | H : bool_decide _ = false |- _ => apply bool_decide_eq_false in H
  end.

(** ** Machine integers *)

Definition min_int64 : Z := -9223372036854775808.
Definition max_int64 : Z := 9223372036854775807.

(** [x] is a value of a Go [int64] (or 64-bit [int]) or a Postgres [bigint]. *)
Definition in_int64 (x : Z) : Prop := min_int64 ≤ x ≤ max_int64.

(** The two's complement result of a Go [int64] operation. *)
Definition wrap64 (x : Z) : Z := (x + 2 ^ 63) mod 2 ^ 64 - 2 ^ 63.

Definition in_int64b (x : Z) : bool := (min_int64 <=? x) && (x <=? max_int64).

Lemma wrap64_id x : in_int64 x → wrap64 x = x.
Proof.
  unfold in_int64, wrap64, min_int64, max_int64. intros ?.
  rewrite Z.mod_small; lia.
Qed.

Lemma wrap64_range x : in_int64 (wrap64 x).
Proof.
  unfold in_int64, wrap64, min_int64, max_int64.
  pose proof (Z.mod_pos_bound (x + 2 ^ 63) (2 ^ 64)). lia.
Qed.

Lemma in_int64b_spec x : in_int64b x = true ↔ in_int64 x.
Proof. unfold in_int64b, in_int64. rewrite andb_true_iff, !Z.leb_le. done. Qed.

(** ** Sums *)

Definition sumZ (l : list Z) : Z := foldr Z.add 0 l.

Lemma sumZ_cons x l : sumZ (x :: l) = x + sumZ l.
Proof. done. Qed.

Lemma sumZ_app l1 l2 : sumZ (l1 ++ l2) = sumZ l1 + sumZ l2.
Proof. induction l1 as [|x l1 IH]; simpl in *; [done | lia]. Qed.

Lemma sumZ_Permutation l1 l2 : l1 ≡ₚ l2 → sumZ l1 = sumZ l2.
Proof. induction 1; simpl; lia. Qed.

#[export] Instance sumZ_Proper : Proper ((≡ₚ) ==> eq) sumZ.
Proof. intros l1 l2. apply sumZ_Permutation. Qed.

Lemma sumZ_nonneg l : Forall (λ x, 0 ≤ x) l → 0 ≤ sumZ l.
Proof. induction 1; simpl; lia. Qed.

Section msum.
Context {K V : Type} `{Countable K}.
Implicit Types (m : gmap K V) (f : V → Z).

(** The sum of [f] over the rows of a table. *)
Definition msum f m : Z := sumZ (f ∘ snd <$> map_to_list m).

Lemma msum_empty f : msum f ∅ = 0.
Proof. unfold msum. by rewrite map_to_list_empty. Qed.

Lemma msum_insert_new f m k v :
  m !! k = None → msum f (<[k:=v]> m) = f v + msum f m.
Proof.
  intros Hk. unfold msum. by rewrite (map_to_list_insert m k v Hk).
Qed.

Lemma msum_delete f m k v : m !! k = Some v → msum f m = f v + msum f (delete k m).
Proof.
  intros Hk. rewrite <- (insert_delete_id m k v Hk) at 1.
  apply msum_insert_new, lookup_delete_eq.
Qed.

(** Updating a row moves the sum by the change of that row. *)
Lemma msum_update f m k v v' :
  m !! k = Some v → msum f (<[k:=v']> m) = msum f m - f v + f v'.
Proof.
  intros Hk. rewrite (msum_delete f m k v Hk).
  rewrite <- insert_delete_eq, msum_insert_new by apply lookup_delete_eq. lia.
Qed.

Lemma msum_ext f g m :
  (∀ k v, m !! k = Some v → f v = g v) → msum f m = msum g m.
Proof.
  intros Hfg. unfold msum. f_equal. apply list_fmap_ext.
  intros i [k v] Hi%list_elem_of_lookup_2. simpl.
  eapply Hfg, elem_of_map_to_list, Hi.
Qed.

Lemma msum_le f m k v :
  (∀ k' v', m !! k' = Some v' → 0 ≤ f v') → m !! k = Some v → f v ≤ msum f m.
Proof.
  intros Hnn Hk. rewrite (msum_delete f m k v Hk).
  assert (0 ≤ msum f (delete k m)); [|lia].
  unfold msum. apply sumZ_nonneg, Forall_fmap, Forall_forall.
  intros [k' v'] [_ Hin]%elem_of_map_to_list%lookup_delete_Some. simpl. eauto.
Qed.

End msum.

(** ** Table scans *)

Section scan.
Context {K V : Type} `{Countable K}.
Implicit Types (m : gmap K V) (P : V → bool).

(** The rows a [WHERE] clause selects, in no particular order. *)
Definition scan P m : list (K * V) := List.filter (λ kv, P kv.2) (map_to_list m).

(** [QueryRow]: the first row, or none. *)
Definition scan1 P m : option (K * V) := head (scan P m).

Lemma elem_of_scan P m k v : (k, v) ∈ scan P m ↔ m !! k = Some v ∧ P v = true.
Proof.
  unfold scan. rewrite list_elem_of_In, filter_In, <- list_elem_of_In.
  by rewrite elem_of_map_to_list.
Qed.

Lemma NoDup_scan_keys P m : NoDup ((scan P m).*1).
Proof.
  unfold scan. pose proof (NoDup_fst_map_to_list m) as Hnd.
  induction (map_to_list m) as [|kv l IH]; simpl in *; [constructor|].
  apply NoDup_cons in Hnd as [Hn Hnd]. destruct (P kv.2); [|auto]. rewrite fmap_cons. constructor; [|auto].
  intros ([k v] & Heq & Hin)%list_elem_of_fmap. simpl in Heq. apply Hn. apply list_elem_of_fmap.
  exists (k, v). split; [done|]. apply list_elem_of_In in Hin. apply filter_In in Hin as [Hin _].
  by apply list_elem_of_In.
Qed.

Lemma scan1_Some P m k v : scan1 P m = Some (k, v) → m !! k = Some v ∧ P v = true.
Proof.
  unfold scan1. intros Hhd. apply elem_of_scan.
  destruct (scan P m); simplify_eq/=. apply list_elem_of_here.
Qed.

Lemma scan1_None P m : scan1 P m = None ↔ ∀ k v, m !! k = Some v → P v = false.
Proof.
  unfold scan1. split.
  - intros Hhd k v Hk. destruct (P v) eqn:HP; [|done].
    assert ((k, v) ∈ scan P m) as Hin by by apply elem_of_scan.
    destruct (scan P m); [by apply elem_of_nil in Hin | done].
  - intros Hno. destruct (scan P m) as [|[k v] l] eqn:Hs; [done|].
    assert ((k, v) ∈ scan P m) as [Hk HP]%elem_of_scan by (rewrite Hs; left).
    by rewrite (Hno _ _ Hk) in HP.
Qed.

(** With a unique key there is only one row to find. *)
Lemma scan1_unique P m k v :
  m !! k = Some v → P v = true →
  (∀ k' v', m !! k' = Some v' → P v' = true → k' = k) →
  scan1 P m = Some (k, v).
Proof.
  intros Hk HP Huniq. destruct (scan1 P m) as [[k' v']|] eqn:Hs.
  - apply scan1_Some in Hs as [Hk' HP']. by rewrite (Huniq _ _ Hk' HP') in Hk' |- *; simplify_eq.
  - rewrite scan1_None in Hs. by rewrite (Hs _ _ Hk) in HP.
Qed.

Lemma NoDup_scan P m : NoDup (scan P m).
Proof.
  unfold scan. apply NoDup_ListNoDup, List.NoDup_filter, NoDup_ListNoDup, NoDup_map_to_list.
Qed.

End scan.
