(* ===== verification/Proc.v ===== *)
(** * Programs over their calls to the outside

    Code that talks to a database, a clock or another service is a program: a
    tree of typed calls with a continuation for every answer.  Between two
    calls anything else may run; what a call does is said by the system that
    runs the program. *)

From S2P Require Import Prelude.

Inductive proc (E : Type → Type) (A : Type) : Type :=
| PRet (a : A)
| PVis {X} (e : E X) (k : X → proc E A).
Arguments PRet {E A} a.
Arguments PVis {E A X} e k.

Fixpoint pbind {E A B} (p : proc E A) (f : A → proc E B) : proc E B :=
  match p with
  | PRet a => f a
  | PVis e k => PVis e (λ x, pbind (k x) f)
  end.

Definition perform {E X} (e : E X) : proc E X := PVis e PRet.

Notation "'await' x := p 'in' k" := (pbind p (λ x, k))
  (at level 10, x name, p at level 100, k at level 200) : foc_scope.
Notation "'await_' p ';' k" := (pbind p (λ _, k))
  (at level 10, p at level 100, k at level 200) : foc_scope.
