(* ===== verification/Keyset.v ===== *)
(** * Keyset pages

    The lists of both services are read a page at a time: rows after a
    position, in the order of a key, one more than the page holds.  Reading
    page after page from a table that does not change lists every row once. *)

From S2P Require Import Prelude.

(** ** Positions *)

(** Times with an ID, compared as a SQL row value. *)
Section positions.
Context {B : Type} (R : relation B).

Definition lex_le (p q : Z * B) : Prop := p.1 < q.1 ∨ (p.1 = q.1 ∧ R p.2 q.2).
Definition lex_ge (p q : Z * B) : Prop := lex_le q p.

#[export] Instance lex_le_dec `{!RelDecision R} : RelDecision lex_le.
Proof. intros p q. unfold lex_le. apply _. Defined.
#[export] Instance lex_ge_dec `{!RelDecision R} : RelDecision lex_ge.
Proof. intros p q. unfold lex_ge. apply _. Defined.

#[export] Instance lex_le_trans `{!Transitive R} : Transitive lex_le.
Proof.
  intros [a i] [b j] [c l]; unfold lex_le; simpl. intros [?|[-> ?]] [?|[-> ?]]; [left; lia|auto..|].
  right. split; [done|]. by etrans.
Qed.
#[export] Instance lex_le_antisym `{!AntiSymm (=) R} : AntiSymm (=) lex_le.
Proof.
  intros [a i] [b j] [?|[??]] [?|[??]]; simpl in *; try lia. f_equal; [done|]. by apply (anti_symm R).
Qed.
#[export] Instance lex_le_total `{!Total R} : Total lex_le.
Proof.
  intros [a i] [b j]. unfold lex_le. simpl. destruct (Z.lt_trichotomy a b) as [?|[->|?]]; [auto| |auto].
  destruct (total R i j); auto.
Qed.
#[export] Instance lex_ge_trans `{!Transitive R} : Transitive lex_ge.
Proof. intros p q r ??. unfold lex_ge in *. by etrans. Qed.
#[export] Instance lex_ge_antisym `{!AntiSymm (=) R} : AntiSymm (=) lex_ge.
Proof. intros p q ??. by apply (anti_symm lex_le). Qed.
#[export] Instance lex_ge_total `{!Total R} : Total lex_ge.
Proof. intros p q. unfold lex_ge. destruct (total lex_le p q); auto. Qed.

End positions.

(** SQL row values of two columns: the first decides unless it is equal. *)
Section pairs.
Context {A B : Type} `{EqDecision A} (R : relation A) (S : relation B).

Definition pair_le (p q : A * B) : Prop := (p.1 ≠ q.1 ∧ R p.1 q.1) ∨ (p.1 = q.1 ∧ S p.2 q.2).

#[export] Instance pair_le_dec `{!RelDecision R, !RelDecision S} : RelDecision pair_le.
Proof. intros p q. unfold pair_le. apply _. Defined.
#[export] Instance pair_le_trans `{!Transitive R, !AntiSymm (=) R, !Transitive S} : Transitive pair_le.
Proof.
  intros [a i] [b j] [c l]; unfold pair_le; simpl. intros [[Hn Hab]|[-> Hij]] [[Hn' Hbc]|[<- Hjl]]; [|by left..|].
  - left. split; [|by etrans]. intros ->. by destruct Hn; apply (anti_symm R).
  - right. split; [done|by etrans].
Qed.
#[export] Instance pair_le_antisym `{!AntiSymm (=) R, !AntiSymm (=) S} : AntiSymm (=) pair_le.
Proof.
  intros [a i] [b j]; unfold pair_le; simpl. intros [[Hn Hab]|[-> Hij]] [[Hn' Hba]|[He Hji]]; [|congruence|done|].
  - by destruct Hn; apply (anti_symm R).
  - f_equal. by apply (anti_symm S).
Qed.
#[export] Instance pair_le_total `{!Total R, !Total S} : Total pair_le.
Proof.
  intros [a i] [b j]. unfold pair_le. simpl. destruct (decide (a = b)) as [->|Hne].
  - destruct (total S i j); auto.
  - destruct (total R a b); auto.
Qed.

End pairs.

(** The reverse of an order, for [ORDER BY ... DESC]. *)
Definition rev_le {A} (R : relation A) : relation A := λ x y, R y x.
#[export] Typeclasses Opaque rev_le.

Section reversed.
Context {A : Type} (R : relation A).

#[export] Instance rev_le_dec `{!RelDecision R} : RelDecision (rev_le R).
Proof. intros x y. unfold rev_le. apply _. Defined.
#[export] Instance rev_le_trans `{!Transitive R} : Transitive (rev_le R).
Proof. intros x y z ??. unfold rev_le in *. by etrans. Qed.
#[export] Instance rev_le_antisym `{!AntiSymm (=) R} : AntiSymm (=) (rev_le R).
Proof. intros x y ??. by apply (anti_symm R). Qed.
#[export] Instance rev_le_total `{!Total R} : Total (rev_le R).
Proof. intros x y. unfold rev_le. destruct (total R x y); auto. Qed.

End reversed.

Definition pos : Type := (Z * string).
Abbreviation pos_le := (lex_le String.le).
Abbreviation pos_ge := (lex_ge String.le).

(** ** One page and all of them *)

#[export] Instance filter_bool_Permutation {A} (f : A → bool) :
  Proper ((≡ₚ) ==> (≡ₚ)) (List.filter f).
Proof.
  induction 1 as [|x l1 l2 _ IH|x y l|l1 l2 l3 _ IH1 _ IH2]; simpl; [done|..].
  - destruct (f x); by rewrite IH.
  - destruct (f x), (f y); by try constructor.
  - by rewrite IH1.
Qed.

Section keyset.
Context {A K : Type} (le : relation K) `{!RelDecision le} (key : A → K).

Definition row_le (r r' : A) : Prop := le (key r) (key r').
#[export] Instance row_le_dec r r' : Decision (row_le r r').
Proof. unfold row_le. apply _. Defined.

(** [WHERE (cursor IS NULL OR key > cursor)] *)
Definition beyond (after : option K) (r : A) : bool :=
  match after with None => true | Some p => negb (bool_decide (le (key r) p)) end.

(** [... ORDER BY key LIMIT n] *)
Definition keyset (after : option K) (n : nat) (rows : list A) : list A :=
  take n (merge_sort row_le (List.filter (beyond after) rows)).

(** Page after page of [limit] rows, until one is not followed by another. *)
Fixpoint pages (fuel : nat) (limit : nat) (after : option K) (rows : list A) : option (list A) :=
  match fuel with
  | O => None
  | S fuel =>
      let found := keyset after (limit + 1) rows in
      let page := take limit found in
      if (limit <? length found)%nat
      then match last page with
           | Some r => app page <$> pages fuel limit (Some (key r)) rows
           | None => None
           end
      else Some page
  end.

Context `{!Transitive le, !AntiSymm (=) le, !Total le}.

#[local] Instance row_le_trans : Transitive row_le.
Proof. intros x y z. unfold row_le. apply transitivity. Qed.
#[local] Instance row_le_total : Total row_le.
Proof. intros x y. unfold row_le. apply total; apply _. Qed.

Lemma same_key rows x y : NoDup (key <$> rows) → x ∈ rows → y ∈ rows → key x = key y → x = y.
Proof.
  intros Hnd. induction rows as [|r rows IH]; [by rewrite elem_of_nil|]. simpl in Hnd.
  apply NoDup_cons in Hnd as [Hnin Hnd]. rewrite !elem_of_cons. intros [->|Hx] [->|Hy] Heq; [done|..|by apply IH].
  - destruct Hnin. rewrite Heq. by apply list_elem_of_fmap_2.
  - destruct Hnin. rewrite <- Heq. by apply list_elem_of_fmap_2.
Qed.

Lemma rows_sorted rows : StronglySorted row_le (merge_sort row_le rows).
Proof. apply StronglySorted_merge_sort; apply _. Qed.

(** The rows after a position, sorted, are the end of the sorted rows. *)
Lemma sorted_beyond rows l1 x l2 :
  NoDup (key <$> rows) → merge_sort row_le rows = l1 ++ x :: l2 →
  merge_sort row_le (List.filter (beyond (Some (key x))) rows) = l2.
Proof.
  intros Hnd Hsort.
  assert (StronglySorted row_le (l1 ++ x :: l2)) as Hss by (rewrite <- Hsort; apply StronglySorted_merge_sort; apply _).
  assert (l1 ++ x :: l2 ≡ₚ rows) as Hperm by by rewrite <- Hsort, merge_sort_Permutation.
  apply StronglySorted_app in Hss as (Hcross & H1 & H2). apply StronglySorted_cons in H2 as [Hx H2].
  assert (∀ y, y ∈ l1 ++ [x] → beyond (Some (key x)) y = false) as Hfalse.
  { intros y [Hy|Hy%list_elem_of_singleton]%elem_of_app; simpl; apply negb_false_iff, bool_decide_eq_true.
    - apply Hcross; [done|by left].
    - subst y. by destruct (total le (key x) (key x)). }
  assert (∀ y, y ∈ l2 → beyond (Some (key x)) y = true) as Htrue.
  { intros y Hy. simpl. apply negb_true_iff, bool_decide_eq_false. intros Hle.
    assert (key x = key y) as Heq by (apply (anti_symm le); [by eapply Forall_forall in Hx|done]).
    rewrite <- Hperm in Hnd. rewrite fmap_app, fmap_cons in Hnd. apply NoDup_app in Hnd as (_ & _ & Hnd).
    apply NoDup_cons in Hnd as [Hnin _]. apply Hnin. rewrite Heq. by apply list_elem_of_fmap_2. }
  assert (List.filter (beyond (Some (key x))) rows ≡ₚ l2) as Hf.
  { rewrite <- Hperm, (cons_middle x l1 l2), app_assoc. clear -Hfalse Htrue.
    rewrite List.filter_app. induction (l1 ++ [x]) as [|y l IH]; cbn [List.filter app].
    - induction l2 as [|y l IH]; cbn [List.filter]; [done|]. rewrite Htrue by by left. f_equiv. apply IH. intros. apply Htrue. by right.
    - rewrite Hfalse by by left. apply IH. intros. apply Hfalse. by right. }
  apply (StronglySorted_unique_strong row_le).
  - intros y z Hy Hz Hyz Hzy. apply (same_key rows); [done|..].
    + rewrite <- Hperm. rewrite merge_sort_Permutation, Hf in Hy. set_solver.
    + rewrite <- Hperm. set_solver.
    + by apply (anti_symm le).
  - apply StronglySorted_merge_sort; apply _.
  - done.
  - by rewrite merge_sort_Permutation.
Qed.

(** Selecting rows keeps their order. *)
Lemma filter_sorted (P : A → bool) rows :
  NoDup (key <$> rows) → List.filter P (merge_sort row_le rows) = merge_sort row_le (List.filter P rows).
Proof.
  intros Hnd. assert (List.filter P (merge_sort row_le rows) ≡ₚ List.filter P rows) as Hf
    by by rewrite merge_sort_Permutation.
  assert (∀ x, x ∈ List.filter P rows → x ∈ rows) as Hsub.
  { intros x Hx. apply list_elem_of_In, filter_In in Hx as [Hx _]. by apply list_elem_of_In. }
  apply (StronglySorted_unique_strong row_le).
  - intros y z Hy Hz Hyz Hzy. apply (same_key rows); [done|..]; [apply Hsub; by rewrite <- Hf| |by apply (anti_symm le)].
    apply Hsub. by rewrite merge_sort_Permutation in Hz.
  - pose proof (rows_sorted rows) as Hs. clear Hf. induction Hs as [|x l Hs IH Hx]; simpl; [constructor|].
    destruct (P x); [|done]. constructor; [done|]. clear -Hx. induction Hx as [|y l ? _ IH]; simpl; [constructor|].
    destruct (P y); [by constructor|done].
  - apply rows_sorted.
  - by rewrite !merge_sort_Permutation.
Qed.

Lemma pages_from fuel limit after rows l1 l2 :
  NoDup (key <$> rows) → (0 < limit)%nat → (length l2 < fuel)%nat → merge_sort row_le rows = l1 ++ l2 →
  merge_sort row_le (List.filter (beyond after) rows) = l2 →
  pages fuel limit after rows = Some l2.
Proof.
  intros Hnd Hlim. revert after l1 l2. induction fuel as [|fuel IH]; intros after l1 l2 Hf Hsort Hbey; [lia|].
  cbn [pages]. unfold keyset. rewrite Hbey, take_take, length_take, (Nat.min_l limit) by lia.
  destruct (limit <? (limit + 1) `min` length l2)%nat eqn:Hm; [apply Nat.ltb_lt in Hm|apply Nat.ltb_ge in Hm].
  - rewrite last_lookup, length_take, lookup_take_lt by lia.
    replace (pred (limit `min` length l2)) with (limit - 1)%nat by lia.
    destruct (l2 !! (limit - 1)%nat) as [r|] eqn:Hr; [|apply lookup_ge_None in Hr; lia].
    erewrite (IH _ (l1 ++ take limit l2) (drop limit l2)).
    + simpl. by rewrite take_drop.
    + rewrite length_drop. lia.
    + by rewrite <- app_assoc, take_drop.
    + apply (sorted_beyond _ (l1 ++ take (limit - 1) l2)); [done|].
      rewrite Hsort, <- app_assoc. f_equal. rewrite <- (take_drop_middle _ _ _ Hr) at 1. do 2 f_equal.
      by replace (S (limit - 1)) with limit by lia.
  - rewrite take_ge by lia. done.
Qed.

(** Every row once, in order. *)
Lemma pages_all fuel limit rows :
  NoDup (key <$> rows) → (0 < limit)%nat → (length rows < fuel)%nat →
  pages fuel limit None rows = Some (merge_sort row_le rows).
Proof.
  intros Hnd Hlim Hf. apply (pages_from _ _ _ _ [] _); try done.
  - by rewrite merge_sort_Permutation.
  - f_equal. clear. induction rows; simpl; congruence.
Qed.

End keyset.
