(* ===== verification/GoText.v ===== *)
(** * Go strings

    The part of Go's [strings], [unicode], [unicode/utf8], [regexp] and
    [strconv] that the services use.  A Go string is a sequence of bytes; a
    range over it decodes UTF-8, and a byte that starts no valid encoding is
    the rune U+FFFD of width 1. *)

From Stdlib Require Export Ascii.
From Stdlib Require Import String.
From stdpp Require Export pretty.
From S2P Require Import Prelude.

Local Open Scope string_scope.
Open Scope Z_scope.

Definition byte_of (a : ascii) : Z := Z.of_N (N_of_ascii a).

Definition between (lo x hi : Z) : bool := (lo <=? x) && (x <=? hi).

(** The second byte a lead byte allows, and the number of bytes. *)
Definition utf8_lead (b : Z) : option (Z * Z * nat) :=
  if between 0xC2 b 0xDF then Some (0x80, 0xBF, 2%nat)
  else if b =? 0xE0 then Some (0xA0, 0xBF, 3%nat)
  else if between 0xE1 b 0xEC then Some (0x80, 0xBF, 3%nat)
  else if b =? 0xED then Some (0x80, 0x9F, 3%nat)
  else if between 0xEE b 0xEF then Some (0x80, 0xBF, 3%nat)
  else if b =? 0xF0 then Some (0x90, 0xBF, 4%nat)
  else if between 0xF1 b 0xF3 then Some (0x80, 0xBF, 4%nat)
  else if b =? 0xF4 then Some (0x80, 0x8F, 4%nat)
  else None.

Definition is_cont (a : ascii) : bool := between 0x80 (byte_of a) 0xBF.

Definition cont_bits (a : ascii) : Z := Z.land (byte_of a) 0x3F.

Definition rune_error : Z := 0xFFFD.

(** The runes of a string with the bytes each was decoded from, as a Go range
    loop visits them. *)
Fixpoint decode_utf8 (s : string) : list (Z * string) :=
  match s with
  | EmptyString => []
  | String a s1 =>
      let b := byte_of a in
      let bad := (rune_error, String a "") in
      if b <? 0x80 then (b, String a "") :: decode_utf8 s1
      else match utf8_lead b with
      | None => bad :: decode_utf8 s1
      | Some (lo, hi, n) =>
          match s1 with
          | String a1 s2 =>
              if negb (between lo (byte_of a1) hi) then bad :: decode_utf8 s1
              else match n with
              | 2%nat => (Z.lor (Z.shiftl (Z.land b 0x1F) 6) (cont_bits a1),
                          String a (String a1 "")) :: decode_utf8 s2
              | 3%nat =>
                  match s2 with
                  | String a2 s3 =>
                      if is_cont a2 then
                        (Z.lor (Z.shiftl (Z.land b 0x0F) 12)
                           (Z.lor (Z.shiftl (cont_bits a1) 6) (cont_bits a2)),
                         String a (String a1 (String a2 ""))) :: decode_utf8 s3
                      else bad :: decode_utf8 s1
                  | EmptyString => bad :: decode_utf8 s1
                  end
              | _ =>
                  match s2 with
                  | String a2 (String a3 s4) =>
                      if is_cont a2 && is_cont a3 then
                        (Z.lor (Z.shiftl (Z.land b 0x07) 18)
                           (Z.lor (Z.shiftl (cont_bits a1) 12)
                              (Z.lor (Z.shiftl (cont_bits a2) 6) (cont_bits a3))),
                         String a (String a1 (String a2 (String a3 "")))) :: decode_utf8 s4
                      else bad :: decode_utf8 s1
                  | _ => bad :: decode_utf8 s1
                  end
              end
          | EmptyString => bad :: decode_utf8 s1
          end
      end
  end.

Definition runes (s : string) : list Z := fst <$> decode_utf8 s.

(** [utf8.RuneCountInString] *)
Definition rune_count (s : string) : Z := Z.of_nat (length (runes s)).

(** [unicode.IsSpace] *)
Definition is_space (r : Z) : bool :=
  between 9 r 13 || (r =? 0x20) || (r =? 0x85) || (r =? 0xA0) || (r =? 0x1680)
  || between 0x2000 r 0x200A || (r =? 0x2028) || (r =? 0x2029) || (r =? 0x202F)
  || (r =? 0x205F) || (r =? 0x3000).

(** [unicode.IsControl]: category Cc. *)
Definition is_control (r : Z) : bool := between 0 r 0x1F || between 0x7F r 0x9F.

Fixpoint drop_spaces (l : list (Z * string)) : list (Z * string) :=
  match l with
  | (r, t) :: l' => if is_space r then drop_spaces l' else l
  | [] => []
  end.

Definition join_bytes (l : list (Z * string)) : string :=
  foldr (λ rt acc, rt.2 +:+ acc) "" l.

(** [strings.TrimSpace] *)
Definition trim_space (s : string) : string :=
  join_bytes (reverse (drop_spaces (reverse (drop_spaces (decode_utf8 s))))).

(** Length in bytes, Go's [len]. *)
Definition len (s : string) : Z := Z.of_nat (String.length s).

Definition lower_ascii (a : ascii) : ascii :=
  if between 65 (byte_of a) 90 then ascii_of_N (N_of_ascii a + 32) else a.

(** [strings.ToLower] on ASCII text; the services call it on validated UUIDs. *)
Fixpoint to_lower (s : string) : string :=
  match s with
  | EmptyString => EmptyString
  | String a s' => String (lower_ascii a) (to_lower s')
  end.

Definition is_hex (a : ascii) : bool :=
  let b := byte_of a in between 48 b 57 || between 97 b 102 || between 65 b 70.

Definition is_dash (a : ascii) : bool := byte_of a =? 45.

(** Does [s] match the concatenation of these character classes? *)
Fixpoint match_classes (cs : list (ascii → bool)) (s : string) : bool :=
  match cs, s with
  | [], EmptyString => true
  | c :: cs', String a s' => c a && match_classes cs' s'
  | _, _ => false
  end.

(** [^[0-9a-fA-F]{8}-[0-9a-fA-F]{4}-[0-9a-fA-F]{4}-[0-9a-fA-F]{4}-[0-9a-fA-F]{12}$] *)
Definition uuid_classes : list (ascii → bool) :=
  replicate 8 is_hex ++ [is_dash] ++ replicate 4 is_hex ++ [is_dash] ++ replicate 4 is_hex
  ++ [is_dash] ++ replicate 4 is_hex ++ [is_dash] ++ replicate 12 is_hex.

Definition uuid_pattern (s : string) : bool := match_classes uuid_classes s.

(** [strings.EqualFold], of which one argument is a UUID. *)
Definition EqualFold (s t : string) : bool := bool_decide (to_lower s = to_lower t).

(** [hex.EncodeToString] *)
Definition hex_digit (n : Z) : ascii := ascii_of_N (Z.to_N (if n <? 10 then 48 + n else 87 + n)).
Definition hex_byte (b : Z) : string := String (hex_digit (Z.land (Z.shiftr b 4) 15)) (String (hex_digit (Z.land b 15)) "").
Definition hex_bytes (bs : list Z) : string := foldr (λ b acc, hex_byte b +:+ acc) "" bs.

(** [strings.HasPrefix] *)
Definition has_prefix (s p : string) : bool := String.prefix p s.

(** [strconv.Itoa], [strconv.FormatInt(_, 10)] and the [%d] verb. *)
Definition itoa (z : Z) : string := pretty z.

(** ** Lemmas *)

Lemma match_classes_length cs s :
  match_classes cs s = true → String.length s = length cs.
Proof.
  revert s. induction cs as [|c cs IH]; intros [|a s]; simpl; try done.
  intros [_ Hs]%andb_true_iff. f_equal. by apply IH.
Qed.

Lemma uuid_length s : uuid_pattern s = true → String.length s = 36%nat.
Proof. apply match_classes_length. Qed.

Lemma to_lower_length s : String.length (to_lower s) = String.length s.
Proof. induction s as [|a s IH]; simpl; congruence. Qed.

Lemma lower_ascii_idem a : lower_ascii (lower_ascii a) = lower_ascii a.
Proof. destruct a as [[] [] [] [] [] [] [] []]; reflexivity. Qed.

Lemma to_lower_idem s : to_lower (to_lower s) = to_lower s.
Proof. induction s as [|a s IH]; simpl; [done|]. by rewrite lower_ascii_idem, IH. Qed.

Lemma is_hex_lower a : is_hex (lower_ascii a) = is_hex a.
Proof. destruct a as [[] [] [] [] [] [] [] []]; reflexivity. Qed.

Lemma is_dash_lower a : is_dash (lower_ascii a) = is_dash a.
Proof. destruct a as [[] [] [] [] [] [] [] []]; reflexivity. Qed.

Lemma match_classes_lower cs s :
  Forall (λ c : ascii → bool, ∀ a, c (lower_ascii a) = c a) cs →
  match_classes cs (to_lower s) = match_classes cs s.
Proof.
  intros Hcs. revert s. induction Hcs as [|c cs Hc _ IH]; intros [|a s]; simpl; try done.
  by rewrite Hc, IH.
Qed.

Lemma uuid_lower s : uuid_pattern (to_lower s) = uuid_pattern s.
Proof.
  apply match_classes_lower. unfold uuid_classes.
  repeat (apply Forall_app; split); try apply Forall_replicate;
    repeat constructor; auto using is_hex_lower, is_dash_lower.
Qed.

Lemma length_sapp s1 s2 : String.length (s1 +:+ s2) = (String.length s1 + String.length s2)%nat.
Proof. induction s1 as [|a s1 IH]; simpl; [done|]. by rewrite IH. Qed.

(** Two concatenations that agree, split at the same place, agree in parts. *)
Lemma sapp_inj_length s1 s2 t1 t2 :
  String.length s1 = String.length s2 → s1 +:+ t1 = s2 +:+ t2 → s1 = s2 ∧ t1 = t2.
Proof.
  revert s2. induction s1 as [|a s1 IH]; intros [|b s2]; simpl; try done.
  intros [= Hlen] [= <- Heq]. by destruct (IH s2 Hlen Heq) as [-> ->].
Qed.

Lemma sapp_assoc s1 s2 s3 : (s1 +:+ s2) +:+ s3 = s1 +:+ s2 +:+ s3.
Proof. induction s1 as [|a s1 IH]; [done|]. cbn. exact (f_equal (String a) IH). Qed.

Lemma sapp_nil s : s +:+ "" = s.
Proof. induction s as [|a s IH]; [done|]. cbn. exact (f_equal (String a) IH). Qed.

Lemma sapp_inv_head s t1 t2 : s +:+ t1 = s +:+ t2 → t1 = t2.
Proof. intros Heq. by apply (sapp_inj_length s s). Qed.

Lemma itoa_inj x y : itoa x = itoa y → x = y.
Proof. apply (inj pretty). Qed.

(** ** Keys: parts joined by colons *)

Fixpoint has_colon (s : string) : bool :=
  match s with
  | EmptyString => false
  | String a s' => bool_decide (a = ":"%char) || has_colon s'
  end.

Lemma split_colon a b x y :
  has_colon a = false → has_colon b = false →
  a +:+ String ":" x = b +:+ String ":" y → a = b ∧ x = y.
Proof.
  revert b. induction a as [|c a IH]; intros [|d b] Ha Hb Heq; simpl in *.
  - by injection Heq as ->.
  - by injection Heq as <- _.
  - by injection Heq as -> _.
  - injection Heq as -> Heq. apply orb_false_iff in Ha as [_ Ha], Hb as [_ Hb].
    by destruct (IH b Ha Hb Heq) as [-> ->].
Qed.

Lemma no_split a b y : has_colon a = false → a ≠ b +:+ String ":" y.
Proof.
  revert b. induction a as [|c a IH]; intros [|d b] Ha Heq; simpl in *; try done.
  - by injection Heq as -> _.
  - injection Heq as -> Heq. apply orb_false_iff in Ha as [_ Ha]. by eapply IH.
Qed.
