(* ===== verification/Json.v ===== *)
(** * JSON documents and their decoding into Go structs

    A [json.RawMessage] is represented by its syntax tree.  The decoding
    functions follow [encoding/json]: object members are visited in order, a
    key selects a field by exact or case-folded name, [null] leaves an integer,
    string or struct unchanged, and a value of another type is an error. *)

From S2P Require Import Prelude GoText.

Inductive json :=
| JNull
| JBool (b : bool)
| JInt (z : Z)                      (* an integer numeral *)
| JNum (text : string)              (* any other numeral, e.g. 1.5 or 1e3 *)
| JStr (s : string)
| JArr (l : list json)
| JObj (l : list (string * json)).

Definition key_matches (name key : string) : bool :=
  bool_decide (key = name) || bool_decide (to_lower key = to_lower name).

(** Decode every member that selects the field, in order, with [dec]. *)
Fixpoint dec_field {A} (dec : A → json → option A) (name : string)
    (ms : list (string * json)) (acc : A) : option A :=
  match ms with
  | [] => Some acc
  | (key, v) :: ms' =>
      if key_matches name key then
        match dec acc v with
        | Some acc' => dec_field dec name ms' acc'
        | None => None
        end
      else dec_field dec name ms' acc
  end.

Definition dec_int64 (acc : Z) (v : json) : option Z :=
  match v with
  | JInt z => if in_int64b z then Some z else None
  | JNull => Some acc
  | _ => None
  end.

Definition dec_string (acc : string) (v : json) : option string :=
  match v with
  | JStr s => Some s
  | JNull => Some acc
  | _ => None
  end.

(** A [json.RawMessage] takes any value, [null] included. *)
Definition dec_raw (_ : option json) (v : json) : option (option json) := Some (Some v).

(** The members a struct is decoded from; [null] decodes no member. *)
Definition members (v : json) : option (list (string * json)) :=
  match v with
  | JObj ms => Some ms
  | JNull => Some []
  | _ => None
  end.

(** The members [encoding/json] writes for a field tagged [omitempty]. *)
Definition enc_int_omit (name : string) (z : Z) : list (string * json) :=
  if z =? 0 then [] else [(name, JInt z)].

Definition enc_str_omit (name s : string) : list (string * json) :=
  if bool_decide (s = "") then [] else [(name, JStr s)].

Lemma dec_field_app {A} (dec : A → json → option A) name ms1 ms2 acc :
  dec_field dec name (ms1 ++ ms2) acc =
  match dec_field dec name ms1 acc with
  | Some acc' => dec_field dec name ms2 acc'
  | None => None
  end.
Proof.
  revert acc. induction ms1 as [|[key v] ms1 IH]; intros acc; simpl; [done|].
  destruct (key_matches name key); [|done]. by destruct (dec acc v).
Qed.

Lemma dec_field_int_omit name z :
  in_int64 z → dec_field dec_int64 name (enc_int_omit name z) 0 = Some z.
Proof.
  intros Hz. unfold enc_int_omit. destruct (Z.eqb_spec z 0) as [->|?]; [done|]. simpl.
  unfold key_matches. rewrite bool_decide_true by done. simpl.
  by rewrite (proj2 (in_int64b_spec z) Hz).
Qed.

Lemma dec_field_str_omit name s :
  dec_field dec_string name (enc_str_omit name s) "" = Some s.
Proof.
  unfold enc_str_omit. case_bool_decide as Hs; [by rewrite Hs|]. simpl.
  unfold key_matches. by rewrite bool_decide_true by done.
Qed.

(** Members of another name do not touch a field. *)
Lemma dec_field_other {A} (dec : A → json → option A) name ms acc :
  Forall (λ kv, key_matches name kv.1 = false) ms → dec_field dec name ms acc = Some acc.
Proof.
  induction 1 as [|[key v] ms Hkey _ IH]; simpl in *; [done|]. by rewrite Hkey.
Qed.

Lemma enc_int_omit_other name name' z :
  key_matches name name' = false →
  Forall (λ kv, key_matches name kv.1 = false) (enc_int_omit name' z).
Proof. intros ?. unfold enc_int_omit. destruct (z =? 0); auto. Qed.

Lemma enc_str_omit_other name name' s :
  key_matches name name' = false →
  Forall (λ kv, key_matches name kv.1 = false) (enc_str_omit name' s).
Proof. intros ?. unfold enc_str_omit. case_bool_decide; auto. Qed.

(** ** Rewriting a decoder over a list of written members *)

Section decode.
Context {A : Type} (dec : A → json → option A).

Lemma dec_field_nil name acc : dec_field dec name [] acc = Some acc.
Proof. done. Qed.

Lemma dec_field_miss name key v ms acc :
  key_matches name key = false → dec_field dec name ((key, v) :: ms) acc = dec_field dec name ms acc.
Proof. intros Hk. simpl. by rewrite Hk. Qed.

Lemma dec_field_hit name v ms acc :
  dec_field dec name ((name, v) :: ms) acc =
  match dec acc v with Some acc' => dec_field dec name ms acc' | None => None end.
Proof. simpl. unfold key_matches. by rewrite bool_decide_true by done. Qed.

Lemma dec_field_int_miss name name' z ms acc :
  key_matches name name' = false →
  dec_field dec name (enc_int_omit name' z ++ ms) acc = dec_field dec name ms acc.
Proof. intros Hk. by rewrite dec_field_app, dec_field_other by by apply enc_int_omit_other. Qed.

Lemma dec_field_str_miss name name' s ms acc :
  key_matches name name' = false →
  dec_field dec name (enc_str_omit name' s ++ ms) acc = dec_field dec name ms acc.
Proof. intros Hk. by rewrite dec_field_app, dec_field_other by by apply enc_str_omit_other. Qed.

Lemma dec_field_str_miss_last name name' s acc :
  key_matches name name' = false → dec_field dec name (enc_str_omit name' s) acc = Some acc.
Proof. intros Hk. by rewrite dec_field_other by by apply enc_str_omit_other. Qed.

Lemma dec_field_int_miss_last name name' z acc :
  key_matches name name' = false → dec_field dec name (enc_int_omit name' z) acc = Some acc.
Proof. intros Hk. by rewrite dec_field_other by by apply enc_int_omit_other. Qed.

End decode.

Lemma dec_field_int_hit name z ms :
  in_int64 z →
  dec_field dec_int64 name (enc_int_omit name z ++ ms) 0 = dec_field dec_int64 name ms z.
Proof. intros Hz. by rewrite dec_field_app, dec_field_int_omit. Qed.

Lemma dec_field_str_hit name s ms :
  dec_field dec_string name (enc_str_omit name s ++ ms) "" = dec_field dec_string name ms s.
Proof. by rewrite dec_field_app, dec_field_str_omit. Qed.

Lemma dec_field_string name s ms acc :
  dec_field dec_string name ((name, JStr s) :: ms) acc = dec_field dec_string name ms s.
Proof. by rewrite dec_field_hit. Qed.

Lemma dec_field_int name z ms acc :
  in_int64 z → dec_field dec_int64 name ((name, JInt z) :: ms) acc = dec_field dec_int64 name ms z.
Proof. intros Hz. rewrite dec_field_hit. simpl. by rewrite (proj2 (in_int64b_spec z) Hz). Qed.

Lemma dec_field_raw name v ms acc :
  dec_field dec_raw name ((name, v) :: ms) acc = dec_field dec_raw name ms (Some v).
Proof. by rewrite dec_field_hit. Qed.

Create Rewrite HintDb json.
#[export] Hint Rewrite @dec_field_nil dec_field_string dec_field_raw dec_field_str_hit
  dec_field_str_omit : json.
#[export] Hint Rewrite @dec_field_miss @dec_field_int_miss @dec_field_str_miss
  @dec_field_str_miss_last @dec_field_int_miss_last using reflexivity : json.
#[export] Hint Rewrite dec_field_int_hit dec_field_int_omit dec_field_int using assumption : json.
