(* ===== verification/GoTime.v ===== *)
(** * Go's [time.Time]: the calendar and RFC 3339

    An instant is its number of nanoseconds since the Unix epoch.
    [format_rfc3339] is [Time.MarshalJSON] on a UTC time, [parse_rfc3339] is
    [Time.UnmarshalJSON] on the contents of the string, with the leniencies of
    [time.Parse] that the standard library leaves enabled (a one-digit hour, a
    comma before the fraction). *)

From S2P Require Import Prelude GoText Json.

Definition nsec : Z := 1000000000.

(** Seconds from 0001-01-01 to the Unix epoch. *)
Definition unix_offset : Z := 62135596800.

(** The zero [time.Time], 0001-01-01T00:00:00Z. *)
Definition zero_time : Z := - unix_offset * nsec.
Definition IsZero (t : Z) : bool := t =? zero_time.

(** [t.Truncate(time.Second)]: rounds down since the zero time. *)
Definition truncate_second (t : Z) : Z := t / nsec * nsec.

(** ** The calendar *)

Definition is_leap (y : Z) : bool :=
  (y mod 4 =? 0) && (negb (y mod 100 =? 0) || (y mod 400 =? 0)).

(** Days from 0001-01-01 to the first day of year [y]. *)
Definition days_before_year (y : Z) : Z :=
  365 * (y - 1) + (y - 1) / 4 - (y - 1) / 100 + (y - 1) / 400.

(** Days of the year before month [m]. *)
Definition days_before_month (leap : bool) (m : Z) : Z :=
  let l := if leap then 1 else 0 in
  if m <=? 1 then 0 else if m =? 2 then 31 else if m =? 3 then 59 + l
  else if m =? 4 then 90 + l else if m =? 5 then 120 + l else if m =? 6 then 151 + l
  else if m =? 7 then 181 + l else if m =? 8 then 212 + l else if m =? 9 then 243 + l
  else if m =? 10 then 273 + l else if m =? 11 then 304 + l else if m =? 12 then 334 + l
  else 365 + l.

Definition days_in (m y : Z) : Z :=
  days_before_month (is_leap y) (m + 1) - days_before_month (is_leap y) m.

Definition days_of_date (y m d : Z) : Z :=
  days_before_year y + days_before_month (is_leap y) m + (d - 1).

Definition year_of_day (n : Z) : Z :=
  let y := n * 400 / 146097 + 1 in
  if n <? days_before_year y then y - 1
  else if days_before_year (y + 1) <=? n then y + 1
  else y.

Definition month_of_yday (leap : bool) (k : Z) : Z :=
  let before := days_before_month leap in
  if k <? before 2 then 1 else if k <? before 3 then 2 else if k <? before 4 then 3
  else if k <? before 5 then 4 else if k <? before 6 then 5 else if k <? before 7 then 6
  else if k <? before 8 then 7 else if k <? before 9 then 8 else if k <? before 10 then 9
  else if k <? before 11 then 10 else if k <? before 12 then 11 else 12.

(** The date of day [n]: year, month and day of the month. *)
Definition date_of_days (n : Z) : Z * Z * Z :=
  let y := year_of_day n in
  let k := n - days_before_year y in
  let m := month_of_yday (is_leap y) k in
  (y, m, k - days_before_month (is_leap y) m + 1).

Lemma year_length y : days_before_year (y + 1) - days_before_year y = if is_leap y then 366 else 365.
Proof.
  unfold days_before_year, is_leap.
  replace (y + 1 - 1) with y by lia.
  destruct (Z.eqb_spec (y mod 4) 0), (Z.eqb_spec (y mod 100) 0), (Z.eqb_spec (y mod 400) 0);
    simpl; Z.div_mod_to_equations; lia.
Qed.

Lemma year_of_day_spec n (y := year_of_day n) :
  days_before_year y ≤ n < days_before_year (y + 1).
Proof.
  unfold y, year_of_day, days_before_year. set (q := n * 400 / 146097).
  assert (146097 * q ≤ n * 400 < 146097 * q + 146097) by (unfold q; Z.div_mod_to_equations; lia).
  repeat case_match; bool_props; Z.div_mod_to_equations; lia.
Qed.

Lemma month_of_yday_spec leap k (m := month_of_yday leap k) :
  0 ≤ k < (if leap then 366 else 365) →
  1 ≤ m ≤ 12 ∧ days_before_month leap m ≤ k < days_before_month leap (m + 1).
Proof.
  intros Hk. unfold m, month_of_yday. clear m. cbv zeta.
  let split_at i := destruct (Z.ltb_spec k (days_before_month leap i)) as [?|?];
    [destruct leap; unfold days_before_month in *; simpl in *; lia|] in
  split_at 2; split_at 3; split_at 4; split_at 5; split_at 6; split_at 7; split_at 8;
  split_at 9; split_at 10; split_at 11; split_at 12.
  destruct leap; unfold days_before_month in *; simpl in *; lia.
Qed.

(** Every day has a valid date, and the date names the day. *)
Lemma date_of_days_spec n y m d :
  date_of_days n = (y, m, d) →
  1 ≤ m ≤ 12 ∧ 1 ≤ d ≤ days_in m y ∧ days_of_date y m d = n.
Proof.
  unfold date_of_days. intros [= <- <- <-].
  pose proof (year_of_day_spec n) as Hy. cbv zeta in Hy. pose proof (year_length (year_of_day n)) as Hl.
  destruct (month_of_yday_spec (is_leap (year_of_day n)) (n - days_before_year (year_of_day n)))
    as [Hm Hk]; [rewrite <- Hl; lia|].
  unfold days_in, days_of_date. lia.
Qed.

(** ** Formatting *)

Definition digit (z : Z) : ascii := ascii_of_nat (48 + Z.to_nat z).
Definition pad2 (z : Z) (rest : string) : string :=
  String (digit (z / 10)) (String (digit (z mod 10)) rest).
Definition pad4 (z : Z) (rest : string) : string := pad2 (z / 100) (pad2 (z mod 100) rest).

(** The fraction of a second, without trailing zeros; empty when zero. *)
Fixpoint frac_digits (k : nat) (ns : Z) : string :=
  match k with
  | O => ""
  | S k' =>
      if ns =? 0 then ""
      else String (digit (ns / 10 ^ Z.of_nat k')) (frac_digits k' (ns mod 10 ^ Z.of_nat k'))
  end.

Definition format_frac (ns : Z) (rest : string) : string :=
  if ns =? 0 then rest else String "." (frac_digits 9 ns) +:+ rest.

Definition in_year_range (y : Z) : bool := (0 <=? y) && (y <=? 9999).

(** [Time.MarshalJSON] on a UTC time fails outside the years 0 to 9999. *)
Definition format_rfc3339 (t : Z) : option string :=
  let s := t / nsec + unix_offset in
  let '(y, m, d) := date_of_days (s / 86400) in
  let sec := s mod 86400 in
  if in_year_range y then
    Some (pad4 y (String "-" (pad2 m (String "-" (pad2 d (String "T"
      (pad2 (sec / 3600) (String ":" (pad2 (sec mod 3600 / 60) (String ":" (pad2 (sec mod 60)
      (format_frac (t mod nsec) "Z"))))))))))))
  else None.

(** ** Parsing *)

Definition digit_val (c : ascii) : option Z :=
  let n := byte_of c in if (48 <=? n) && (n <=? 57) then Some (n - 48) else None.

(** [getnum(s, fixed)]: two digits, or one where [fixed] is false. *)
Definition getnum (fixed : bool) (s : string) : option (Z * string) :=
  match s with
  | String a s1 =>
      match digit_val a with
      | None => None
      | Some x =>
          match s1 with
          | String b s2 =>
              match digit_val b with
              | Some y => Some (10 * x + y, s2)
              | None => if fixed then None else Some (x, s1)
              end
          | EmptyString => if fixed then None else Some (x, s1)
          end
      end
  | EmptyString => None
  end.

Definition get4 (s : string) : option (Z * string) :=
  match getnum true s with
  | Some (x, s1) =>
      match getnum true s1 with Some (y, s2) => Some (100 * x + y, s2) | None => None end
  | None => None
  end.

Definition expect (c : ascii) (s : string) : option string :=
  match s with
  | String a s' => if bool_decide (a = c) then Some s' else None
  | EmptyString => None
  end.

(** The digits of a fraction; digits after the ninth are read and dropped. *)
Fixpoint get_frac (scale : Z) (s : string) (acc : Z) : Z * string :=
  match s with
  | String a s' =>
      match digit_val a with
      | Some x => get_frac (scale / 10) s' (acc + x * scale)
      | None => (acc, s)
      end
  | EmptyString => (acc, s)
  end.

Definition is_digit0 (s : string) : bool :=
  match s with String a _ => bool_decide (is_Some (digit_val a)) | EmptyString => false end.

Definition parse_frac (s : string) : Z * string :=
  match s with
  | String a s' =>
      if (bool_decide (a = "."%char) || bool_decide (a = ","%char)) && is_digit0 s'
      then get_frac 100000000 s' 0 else (0, s)
  | EmptyString => (0, s)
  end.

(** [Z07:00]: the offset in seconds. *)
Definition parse_zone (s : string) : option (Z * string) :=
  match s with
  | String a s' =>
      if bool_decide (a = "Z"%char) then Some (0, s')
      else if bool_decide (a = "+"%char) || bool_decide (a = "-"%char) then
        match getnum true s' with
        | Some (h, s1) =>
            match expect ":" s1 with
            | Some s2 =>
                match getnum true s2 with
                | Some (m, s3) =>
                    if (24 <? h) || (60 <? m) then None
                    else let off := (h * 60 + m) * 60 in
                         Some (if bool_decide (a = "-"%char) then - off else off, s3)
                | None => None
                end
            | None => None
            end
        | None => None
        end
      else None
  | EmptyString => None
  end.

Definition instant (y m d hour minute sec ns off : Z) : Z :=
  (days_of_date y m d * 86400 + hour * 3600 + minute * 60 + sec - off - unix_offset) * nsec + ns.

Definition obind {A B} (o : option A) (k : A → option B) : option B :=
  match o with Some a => k a | None => None end.

Definition parse_rfc3339 (s : string) : option Z :=
  obind (get4 s) (λ '(y, s), obind (expect "-" s) (λ s,
  obind (getnum true s) (λ '(m, s), obind (expect "-" s) (λ s,
  obind (getnum true s) (λ '(d, s), obind (expect "T" s) (λ s,
  obind (getnum false s) (λ '(hour, s), obind (expect ":" s) (λ s,
  obind (getnum true s) (λ '(minute, s), obind (expect ":" s) (λ s,
  obind (getnum true s) (λ '(sec, s),
    let '(ns, s) := parse_frac s in
    obind (parse_zone s) (λ '(off, s),
      if negb ((1 <=? m) && (m <=? 12)) || negb ((1 <=? d) && (d <=? days_in m y)) ||
         (24 <=? hour) || (60 <=? minute) || (60 <=? sec) || negb (bool_decide (s = ""))
      then None
      else Some (instant y m d hour minute sec ns off))))))))))))).

(** ** Every instant that can be written is read back *)

Lemma digit_val_digit z : 0 ≤ z < 10 → digit_val (digit z) = Some z.
Proof.
  intros Hz. assert (z ∈ [0;1;2;3;4;5;6;7;8;9]) as Hin.
  { rewrite !elem_of_cons. lia. }
  rewrite !elem_of_cons, elem_of_nil in Hin. destruct_or! Hin; by subst.
Qed.

Lemma getnum_pad2 fixed z rest : 0 ≤ z < 100 → getnum fixed (pad2 z rest) = Some (z, rest).
Proof.
  intros Hz. unfold getnum, pad2.
  rewrite !digit_val_digit by (Z.div_mod_to_equations; lia). do 2 f_equal.
  Z.div_mod_to_equations; lia.
Qed.

Lemma get4_pad4 z rest : 0 ≤ z < 10000 → get4 (pad4 z rest) = Some (z, rest).
Proof.
  intros Hz. unfold get4, pad4.
  rewrite getnum_pad2 by (Z.div_mod_to_equations; lia).
  rewrite getnum_pad2 by (Z.div_mod_to_equations; lia). do 2 f_equal.
  Z.div_mod_to_equations; lia.
Qed.

Lemma days_in_le m y : 1 ≤ m ≤ 12 → days_in m y ≤ 31.
Proof.
  intros Hm. unfold days_in, days_before_month. destruct (is_leap y); repeat case_match; bool_props; lia.
Qed.

Lemma expect_hd {B} c s (k : string → option B) : obind (expect c (String c s)) k = k s.
Proof. unfold expect. by rewrite bool_decide_true by done. Qed.

Lemma sapp_cons a s t : String a s +:+ t = String a (s +:+ t).
Proof. done. Qed.

Lemma get_frac_digits k ns acc :
  0 ≤ ns < 10 ^ Z.of_nat k →
  get_frac (10 ^ Z.of_nat k / 10) (frac_digits k ns +:+ "Z") acc = (acc + ns, "Z").
Proof.
  revert ns acc. induction k as [|k IH]; intros ns acc Hns; simpl frac_digits.
  - change (10 ^ Z.of_nat 0) with 1 in Hns. simpl. f_equal. lia.
  - destruct (Z.eqb_spec ns 0) as [->|Hnz]; [simpl; f_equal; lia|].
    rewrite Nat2Z.inj_succ, Z.pow_succ_r in * by lia.
    assert (0 < 10 ^ Z.of_nat k) as Hpos by (apply Z.pow_pos_nonneg; lia).
    rewrite Z.mul_comm, Z.div_mul, sapp_cons by lia. cbn [get_frac].
    rewrite digit_val_digit by (split; [apply Z.div_pos; lia|apply Z.div_lt_upper_bound; lia]).
    rewrite IH by (apply Z.mod_pos_bound; lia). f_equal.
    pose proof (Z.div_mod ns (10 ^ Z.of_nat k)). lia.
Qed.

Lemma parse_frac_format ns : 0 ≤ ns < nsec → parse_frac (format_frac ns "Z") = (ns, "Z").
Proof.
  intros Hns. unfold format_frac. destruct (Z.eqb_spec ns 0) as [->|Hnz]; [done|].
  unfold parse_frac. rewrite sapp_cons, bool_decide_true by done.
  replace (is_digit0 (frac_digits 9 ns +:+ "Z")) with true.
  - cbn [orb andb]. apply (get_frac_digits 9 ns 0). exact Hns.
  - cbn [frac_digits]. rewrite (proj2 (Z.eqb_neq _ _) Hnz), sapp_cons. cbn [is_digit0].
    rewrite digit_val_digit by (unfold nsec in Hns; split; [apply Z.div_pos|apply Z.div_lt_upper_bound]; lia).
    by rewrite bool_decide_true by eauto.
Qed.

Lemma parse_format t s : format_rfc3339 t = Some s → parse_rfc3339 s = Some t.
Proof.
  unfold format_rfc3339. set (u := t / nsec + unix_offset).
  destruct (date_of_days (u / 86400)) as [[y m] d] eqn:Hdate.
  destruct (in_year_range y) eqn:Hy; [|done]. intros [= <-].
  unfold in_year_range in Hy. bool_props.
  apply date_of_days_spec in Hdate as (Hm & Hd & Hday).
  pose proof (days_in_le m y Hm). unfold parse_rfc3339.
  assert (0 ≤ u mod 86400 < 86400) as Hs by (Z.div_mod_to_equations; lia).
  set (sec := u mod 86400) in *.
  assert (0 ≤ sec / 3600 < 24) by (Z.div_mod_to_equations; lia).
  assert (0 ≤ sec mod 3600 / 60 < 60) by (Z.div_mod_to_equations; lia).
  assert (0 ≤ sec mod 60 < 60) by (Z.div_mod_to_equations; lia).
  rewrite get4_pad4 by lia. cbn [obind]. do 5 (rewrite expect_hd, getnum_pad2 by lia; cbn [obind]).
  rewrite parse_frac_format by (apply Z.mod_pos_bound; done). cbv beta iota. change (parse_zone "Z") with (Some (0, "")). cbv beta iota delta [obind].
  rewrite !(proj2 (Z.leb_le _ _)), !(proj2 (Z.leb_gt _ _)) by lia. cbn [negb andb orb].
  rewrite bool_decide_true by done. cbn [negb andb orb].
  f_equal. unfold instant. rewrite Hday. unfold u, sec, nsec in *.
  Z.div_mod_to_equations; lia.
Qed.

(** [Time.UnmarshalJSON] *)
Definition dec_time (acc : Z) (v : json) : option Z :=
  match v with
  | JStr s => parse_rfc3339 s
  | JNull => Some acc
  | _ => None
  end.

Lemma dec_field_time name t s ms acc :
  format_rfc3339 t = Some s →
  dec_field dec_time name ((name, JStr s) :: ms) acc = dec_field dec_time name ms t.
Proof. intros Hs. rewrite dec_field_hit. simpl. by rewrite (parse_format _ _ Hs). Qed.
