(* ===== verification/GoDuration.v ===== *)
(** * Go durations as text

    [time.Duration.String] and [time.ParseDuration] of Go's standard library.
    A duration is an [int64] of nanoseconds.  The fraction of a unit goes
    through [float64], as in the library. *)

From Stdlib Require Import SpecFloat.
From S2P Require Import Prelude GoText GoTime.

Open Scope Z_scope.

(** ** [Duration.String] *)

(** [fmtInt], written in front of [rest]; 20 digits hold any [uint64]. *)
Fixpoint fmt_digits (fuel : nat) (v : Z) (rest : string) : string :=
  match fuel with
  | O => rest
  | S fuel => if v =? 0 then rest else fmt_digits fuel (v / 10) (String (digit (v mod 10)) rest)
  end.

Definition fmtInt (v : Z) (rest : string) : string :=
  if v =? 0 then String "0" rest else fmt_digits 20 v rest.

(** [fmtFrac]: the last [prec] digits of [v] without trailing zeros, and what
    is left of [v]. *)
Fixpoint frac_loop (prec : nat) (v : Z) (print : bool) (rest : string) : bool * string * Z :=
  match prec with
  | O => (print, rest, v)
  | S prec =>
      let d := v mod 10 in
      let print := print || negb (d =? 0) in
      frac_loop prec (v / 10) print (if print then String (digit d) rest else rest)
  end.

Definition fmtFrac (prec : nat) (v : Z) (rest : string) : string * Z :=
  let '(print, s, v) := frac_loop prec v false rest in
  (if print then String "." s else s, v).

(** The micro sign, U+00B5, and the Greek letter, U+03BC. *)
Definition micro : string := String "194" (String "181" "").
Definition mu : string := String "206" (String "188" "").

Definition format_abs (u : Z) : string :=
  if u =? 0 then "0s"
  else if u <? 1000 then fmtInt u "ns"
  else if u <? 1000000 then let '(s, v) := fmtFrac 3 u (micro +:+ "s") in fmtInt v s
  else if u <? nsec then let '(s, v) := fmtFrac 6 u "ms" in fmtInt v s
  else
    let '(s, secs) := fmtFrac 9 u "s" in
    let s := fmtInt (secs mod 60) s in
    let minutes := secs / 60 in
    if minutes =? 0 then s
    else
      let s := fmtInt (minutes mod 60) (String "m" s) in
      let hours := minutes / 60 in
      if hours =? 0 then s else fmtInt hours (String "h" s).

Definition Duration_String (d : Z) : string :=
  if d <? 0 then String "-" (format_abs (- d)) else format_abs d.

(** ** [ParseDuration] *)

Definition two63 : Z := 9223372036854775808.

Fixpoint leadingInt (x : Z) (s : string) : option (Z * string) :=
  match s with
  | String a s' =>
      match digit_val a with
      | None => Some (x, s)
      | Some d =>
          if two63 / 10 <? x then None
          else let x := 10 * x + d in if two63 <? x then None else leadingInt x s'
      end
  | EmptyString => Some (x, s)
  end.

(** [scale] counts the digits taken: the float is [10 ^ scale]. *)
Fixpoint leadingFraction (x scale : Z) (overflow : bool) (s : string) : Z * Z * string :=
  match s with
  | String a s' =>
      match digit_val a with
      | None => (x, scale, s)
      | Some d =>
          if overflow then leadingFraction x scale true s'
          else if (two63 - 1) / 10 <? x then leadingFraction x scale true s'
          else let y := 10 * x + d in
               if two63 <? y then leadingFraction x scale true s'
               else leadingFraction y (scale + 1) false s'
      end
  | EmptyString => (x, scale, s)
  end.

(** The unit: everything up to the next period or digit. *)
Fixpoint take_unit (s : string) : string * string :=
  match s with
  | String a s' =>
      if bool_decide (a = "."%char) || bool_decide (is_Some (digit_val a)) then ("", s)
      else let '(u, rest) := take_unit s' in (String a u, rest)
  | EmptyString => ("", s)
  end.

Definition unitMap (u : string) : option Z :=
  if bool_decide (u = "ns") then Some 1
  else if bool_decide (u = "us") || bool_decide (u = micro +:+ "s") || bool_decide (u = mu +:+ "s") then Some 1000
  else if bool_decide (u = "ms") then Some 1000000
  else if bool_decide (u = "s") then Some nsec
  else if bool_decide (u = "m") then Some (60 * nsec)
  else if bool_decide (u = "h") then Some (3600 * nsec)
  else None.

(** [float64(z)] and [uint64(f)] of a float that is not negative. *)
Definition float_of (z : Z) : spec_float := binary_normalize 53 1024 z 0 false.
Definition float_trunc (f : spec_float) : Z :=
  match f with
  | S754_finite _ m e => if 0 <=? e then Z.pos m * 2 ^ e else Z.pos m / 2 ^ (- e)
  | _ => 0
  end.

(** The powers of ten up to 10^22 are floats, and [scale *= 10] is exact; the
    fraction has at most 19 digits. *)
Definition fraction_of (f unit scale : Z) : Z :=
  if 0 <? f
  then float_trunc (SFmul 53 1024 (float_of f) (SFdiv 53 1024 (float_of unit) (float_of (10 ^ scale))))
  else 0.

(** The part after a period: the fraction, and whether it has a digit. *)
Definition parse_fraction (s : string) : Z * Z * string * bool :=
  match s with
  | String a t =>
      if bool_decide (a = "."%char)
      then let '(f, scale, t') := leadingFraction 0 0 false t in (f, scale, t', negb (bool_decide (t' = t)))
      else (0, 0, s, false)
  | EmptyString => (0, 0, s, false)
  end.

(** One number with its unit. *)
Definition parse_unit (s : string) : option (Z * string) :=
  match s with
  | String a _ =>
      if bool_decide (a = "."%char) || bool_decide (is_Some (digit_val a)) then
        obind (leadingInt 0 s) (λ '(v, s1),
          let pre := negb (bool_decide (s1 = s)) in
          let '(f, scale, s2, post) := parse_fraction s1 in
          if negb pre && negb post then None
          else
            let '(u, rest) := take_unit s2 in
            if bool_decide (u = "") then None
            else obind (unitMap u) (λ unit,
                   if two63 / unit <? v then None
                   else let v := v * unit + fraction_of f unit scale in
                        if (0 <? f) && (two63 <? v) then None else Some (v, rest)))
      else None
  | EmptyString => None
  end.

(** [d += v] is a [uint64]. *)
Fixpoint parse_units (fuel : nat) (s : string) (d : Z) : option Z :=
  match s with
  | EmptyString => Some d
  | String _ _ =>
      match fuel with
      | O => None
      | S fuel =>
          obind (parse_unit s) (λ '(v, rest),
            let d := (d + v) mod 2 ^ 64 in
            if two63 <? d then None else parse_units fuel rest d)
      end
  end.

Definition ParseDuration (s : string) : option Z :=
  let '(neg, s) :=
    match s with
    | String a s' => if bool_decide (a = "-"%char) then (true, s')
                     else if bool_decide (a = "+"%char) then (false, s') else (false, s)
    | EmptyString => (false, s)
    end in
  if bool_decide (s = "0") then Some 0
  else if bool_decide (s = "") then None
  else obind (parse_units (String.length s) s 0) (λ d,
         if neg then Some (- d) else if two63 - 1 <? d then None else Some d).

(** ** The fuel is enough *)

Lemma leadingInt_shorter s x v rest : leadingInt x s = Some (v, rest) → (String.length rest ≤ String.length s)%nat.
Proof.
  revert x. induction s as [|a s IH]; intros x; simpl; [by intros [= _ <-]|].
  destruct (digit_val a) as [d|]; [|by intros [= _ <-]]. destruct (_ <? _); [done|]. destruct (_ <? _); [done|].
  intros Hs%IH. lia.
Qed.

Lemma leadingFraction_shorter s x scale o f sc rest :
  leadingFraction x scale o s = (f, sc, rest) → (String.length rest ≤ String.length s)%nat.
Proof.
  revert x scale o. induction s as [|a s IH]; intros x scale o; simpl; [by intros [= _ _ <-]|].
  destruct (digit_val a) as [d|]; [|by intros [= _ _ <-]].
  destruct o; [intros Hs%IH; lia|]. destruct (_ <? _); [intros Hs%IH; lia|]. destruct (_ <? _); intros Hs%IH; lia.
Qed.

Lemma take_unit_shorter s u rest :
  take_unit s = (u, rest) → (String.length rest ≤ String.length s)%nat ∧ (u ≠ "" → String.length rest < String.length s)%nat.
Proof.
  revert u. induction s as [|a s IH]; intros u; simpl; [intros [= <- <-]; by split|].
  destruct (_ || _); [intros [= <- <-]; by split|].
  destruct (take_unit s) as [u' r] eqn:Hu. intros [= <- <-]. destruct (IH u' eq_refl) as [Hl _]. split; [|intros _]; lia.
Qed.

Lemma parse_unit_shorter s v rest : parse_unit s = Some (v, rest) → (String.length rest < String.length s)%nat.
Proof.
  unfold parse_unit, obind. destruct s as [|a s]; [done|]. destruct (_ || _); [|done].
  destruct (leadingInt 0 (String a s)) as [[v0 s1]|] eqn:Hi; [|done]. apply leadingInt_shorter in Hi.
  destruct (parse_fraction s1) as [[[f scale] s2] post] eqn:Hf.
  assert (String.length s2 ≤ String.length s1)%nat as Hs2.
  { unfold parse_fraction in Hf. destruct s1 as [|b t]; [by injection Hf as _ _ <- _|].
    case_bool_decide; [|by injection Hf as _ _ <- _].
    destruct (leadingFraction 0 0 false t) as [[f' sc'] t'] eqn:Hl. injection Hf as _ _ <- _.
    apply leadingFraction_shorter in Hl. simpl. lia. }
  destruct (_ && _); [done|]. destruct (take_unit s2) as [u r] eqn:Hu. apply take_unit_shorter in Hu as [_ Hu].
  case_bool_decide as Hne; [done|]. destruct (unitMap u); [|done]. destruct (_ <? v0); [done|].
  destruct (_ && _); [done|]. intros [= _ <-]. specialize (Hu Hne). simpl in *. lia.
Qed.

Lemma parse_units_fuel s n d : (String.length s ≤ n)%nat → parse_units n s d = parse_units (String.length s) s d.
Proof.
  remember (String.length s) as l eqn:Hl. revert s n d Hl.
  induction l as [l IH] using lt_wf_ind. intros s n d -> Hn.
  destruct s as [|a s]; [by destruct n|]. destruct n as [|n]; [simpl in Hn; lia|]. cbn [parse_units String.length].
  unfold obind. destruct (parse_unit (String a s)) as [[v rest]|] eqn:Hu; [|done].
  pose proof (parse_unit_shorter _ _ _ Hu) as Hs. simpl in Hs, Hn. destruct (_ <? _); [done|].
  rewrite (IH (String.length rest)) by (simpl; lia). symmetry. apply IH; simpl; lia.
Qed.

(** ** Whole seconds come back *)

Lemma digit_val_of v : 0 ≤ v → digit_val (digit (v mod 10)) = Some (v mod 10).
Proof. intros ?. apply digit_val_digit, Z.mod_pos_bound. lia. Qed.

Lemma leadingInt_digits n v rest :
  0 ≤ v ≤ two63 → v < 10 ^ Z.of_nat n → leadingInt 0 (fmt_digits n v rest) = leadingInt v rest.
Proof.
  revert v rest. induction n as [|n IH]; intros v rest Hv Hn.
  - assert (v = 0) as -> by (simpl in Hn; lia). done.
  - cbn [fmt_digits]. destruct (Z.eqb_spec v 0) as [->|Hne]; [done|].
    pose proof (Z.div_mod v 10 ltac:(lia)). pose proof (Z.mod_pos_bound v 10 ltac:(lia)).
    rewrite Nat2Z.inj_succ, Z.pow_succ_r in Hn by lia. rewrite IH by (unfold two63 in *; lia).
    cbn [leadingInt]. rewrite digit_val_of by lia. rewrite <- (Z.div_mod v 10) by lia.
    destruct (Z.ltb_spec (two63 / 10) (v / 10)) as [Hlt|_].
    { pose proof (Z.div_le_mono v two63 10). lia. }
    by rewrite (proj2 (Z.ltb_ge _ _)) by lia.
Qed.

Lemma leadingInt_fmtInt v rest : 0 ≤ v ≤ two63 → leadingInt 0 (fmtInt v rest) = leadingInt v rest.
Proof.
  intros Hv. unfold fmtInt. destruct (Z.eqb_spec v 0) as [->|_]; [done|].
  apply leadingInt_digits; [done|]. unfold two63 in Hv. lia.
Qed.

Definition digit_start (s : string) : Prop := ∃ d s', 0 ≤ d < 10 ∧ s = String (digit d) s'.

Lemma fmt_digits_start n v rest : 0 < v → v < 10 ^ Z.of_nat n → digit_start (fmt_digits n v rest).
Proof.
  revert v rest. induction n as [|n IH]; intros v rest Hv Hn; [simpl in Hn; lia|].
  cbn [fmt_digits]. rewrite (proj2 (Z.eqb_neq _ _)) by lia.
  pose proof (Z.div_mod v 10 ltac:(lia)). pose proof (Z.mod_pos_bound v 10 ltac:(lia)).
  rewrite Nat2Z.inj_succ, Z.pow_succ_r in Hn by lia.
  destruct (decide (v / 10 = 0)) as [Hz|Hnz]; [|apply IH; lia].
  rewrite Hz. exists (v mod 10), rest. split; [lia|]. by destruct n.
Qed.

Lemma fmtInt_start v rest : 0 ≤ v ≤ two63 → digit_start (fmtInt v rest).
Proof.
  intros Hv. unfold fmtInt. destruct (Z.eqb_spec v 0) as [->|Hne]; [by exists 0, rest|].
  apply fmt_digits_start; [lia|]. unfold two63 in Hv. lia.
Qed.

Lemma fmt_digits_longer n v rest : (String.length rest ≤ String.length (fmt_digits n v rest))%nat.
Proof.
  revert v rest. induction n as [|n IH]; intros v rest; cbn [fmt_digits]; [done|].
  destruct (v =? 0); [done|]. etrans; [|apply IH]. simpl. lia.
Qed.

Lemma fmt_digits_more n v rest : 0 < v → (String.length rest < String.length (fmt_digits (S n) v rest))%nat.
Proof.
  intros Hv. cbn [fmt_digits]. rewrite (proj2 (Z.eqb_neq _ _)) by lia.
  eapply Nat.lt_le_trans; [|apply fmt_digits_longer]. simpl. lia.
Qed.

Lemma fmtInt_longer v rest : 0 ≤ v → (String.length rest < String.length (fmtInt v rest))%nat.
Proof.
  intros Hv. unfold fmtInt. destruct (Z.eqb_spec v 0) as [->|Hne]; [simpl; lia|].
  apply fmt_digits_more. lia.
Qed.

(** Where a unit ends. *)
Definition unit_end (s : string) : Prop := s = "" ∨ digit_start s.

Lemma take_unit_char c rest :
  c ≠ "."%char → digit_val c = None → unit_end rest → take_unit (String c rest) = (String c "", rest).
Proof.
  intros Hc Hd Hr. cbn [take_unit]. rewrite bool_decide_false by done. rewrite Hd.
  rewrite bool_decide_false by (by intros []). simpl.
  destruct Hr as [->|(d & s & Hdr & ->)]; [done|]. cbn [take_unit]. rewrite digit_val_digit by done.
  rewrite (bool_decide_true (is_Some _)) by done. by rewrite orb_true_r.
Qed.

(** A number and a one-letter unit. *)
Lemma parse_unit_int c unit v rest :
  c ≠ "."%char → digit_val c = None → unitMap (String c "") = Some unit → 0 < unit → 0 ≤ v ≤ two63 / unit →
  unit_end rest → parse_unit (fmtInt v (String c rest)) = Some (v * unit, rest).
Proof.
  intros Hc Hd Hu Hpos Hv Hr.
  assert (0 ≤ v ≤ two63) as Hv2.
  { split; [lia|]. transitivity (two63 / unit); [lia|]. apply Z.div_le_upper_bound; unfold two63; nia. }
  pose proof (fmtInt_longer v (String c rest) ltac:(lia)) as Hlen.
  destruct (fmtInt_start v (String c rest) Hv2) as (d & s' & Hdr & Hs). unfold parse_unit, obind.
  rewrite (leadingInt_fmtInt _ _ Hv2). cbn [leadingInt parse_fraction]. rewrite Hd.
  unfold parse_fraction.
  rewrite (bool_decide_false (c = _)) by done. rewrite take_unit_char by done.
  rewrite (bool_decide_false (String c rest = _)) by (intros Heq; rewrite <- Heq in Hlen; lia).
  rewrite (bool_decide_false (String c "" = _)) by done. rewrite Hu, (proj2 (Z.ltb_ge _ v)) by lia.
  rewrite Hs, digit_val_digit by done. rewrite (bool_decide_true (is_Some _)) by done. rewrite orb_true_r. cbn [negb andb].
  unfold fraction_of. cbn. by rewrite Z.add_0_r.
Qed.

Lemma parse_units_step s v rest d r n :
  parse_unit s = Some (v, rest) → 0 ≤ d + v ≤ two63 →
  (∀ n, (String.length rest ≤ n)%nat → parse_units n rest (d + v) = Some r) →
  (String.length s ≤ n)%nat → parse_units n s d = Some r.
Proof.
  intros Hu Hd Hrest Hn. pose proof (parse_unit_shorter _ _ _ Hu) as Hs.
  destruct s as [|a s]; [done|]. destruct n as [|n]; [simpl in Hn; lia|]. cbn [parse_units]. unfold obind. rewrite Hu.
  rewrite Z.mod_small by (unfold two63 in Hd; lia). rewrite (proj2 (Z.ltb_ge _ _)) by lia. apply Hrest. simpl in *. lia.
Qed.

Lemma frac_loop_zero p k rest : 0 ≤ k → frac_loop p (k * 10 ^ Z.of_nat p) false rest = (false, rest, k).
Proof.
  intros Hk. induction p as [|p IH]; [simpl; by rewrite Z.mul_1_r|]. cbn [frac_loop].
  rewrite Nat2Z.inj_succ, Z.pow_succ_r by lia.
  replace (k * (10 * 10 ^ Z.of_nat p)) with (k * 10 ^ Z.of_nat p * 10) by lia.
  by rewrite Z.mod_mul, Z.div_mul by lia.
Qed.

Lemma digit_not_sign d : 0 ≤ d < 10 → digit d ≠ "-"%char ∧ digit d ≠ "+"%char.
Proof. intros Hd. split; intros Heq; pose proof (digit_val_digit d Hd) as Hv; by rewrite Heq in Hv. Qed.

Lemma parse_units_seconds k n :
  0 < k → k * nsec ≤ two63 → (String.length (format_abs (k * nsec)) ≤ n)%nat →
  digit_start (format_abs (k * nsec)) ∧ (String.length (format_abs (k * nsec)) ≠ 1)%nat ∧
  parse_units n (format_abs (k * nsec)) 0 = Some (k * nsec).
Proof.
  intros Hk Hmax. unfold format_abs. unfold nsec in *. 
  rewrite (proj2 (Z.eqb_neq _ 0)), !(proj2 (Z.ltb_ge _ _)) by lia.
  unfold fmtFrac. change 1000000000 with (10 ^ Z.of_nat 9). rewrite frac_loop_zero by lia.
  change (10 ^ Z.of_nat 9) with 1000000000. unfold two63 in *.
  pose proof (Z.div_mod k 60 ltac:(lia)). pose proof (Z.mod_pos_bound k 60 ltac:(lia)).
  pose proof (Z.div_mod (k / 60) 60 ltac:(lia)). pose proof (Z.mod_pos_bound (k / 60) 60 ltac:(lia)).
  assert (∀ v rest, 0 ≤ v ≤ 9223372036 → digit_start (fmtInt v rest)) as Hst by (intros; apply fmtInt_start; unfold two63; lia).
  assert (∀ v c rest, 0 ≤ v → String.length (fmtInt v (String c rest)) ≠ 1%nat) as Hl1.
  { intros v c rest Hv. pose proof (fmtInt_longer v (String c rest) Hv) as Hlen. simpl in Hlen. lia. }
  assert (∀ d r, 0 ≤ d → r = d + k mod 60 * nsec → r ≤ two63 → ∀ n, (String.length (fmtInt (k mod 60) "s") ≤ n)%nat →
            parse_units n (fmtInt (k mod 60) "s") d = Some r) as Hsec.
  { intros d r Hd -> Hr m Hm. eapply parse_units_step; [apply (parse_unit_int "s" nsec); try done;
      [change (two63 / nsec) with 9223372036; lia|by left]| |intros [|]; simpl; [done|done]|done]. unfold nsec, two63 in *. lia. }
  destruct (Z.eqb_spec (k / 60) 0) as [Hz|Hnz].
  { intros Hn. split_and!; [apply Hst; lia|apply Hl1; lia|]. apply Hsec; unfold nsec, two63; [lia..|done]. }
  assert (∀ d r, 0 ≤ d → r = d + (k / 60) mod 60 * 60000000000 + k mod 60 * nsec → r ≤ two63 → ∀ n,
            (String.length (fmtInt ((k / 60) mod 60) (String "m" (fmtInt (k mod 60) "s"))) ≤ n)%nat →
            parse_units n (fmtInt ((k / 60) mod 60) (String "m" (fmtInt (k mod 60) "s"))) d = Some r) as Hmin.
  { intros d r Hd -> Hr m Hm. eapply parse_units_step; [apply (parse_unit_int "m" (60 * nsec)); try done;
      [change (two63 / (60 * nsec)) with 153722867; lia|right; apply Hst; lia]| |apply Hsec; unfold nsec, two63 in *; lia|done]. unfold nsec, two63 in *. lia. }
  destruct (Z.eqb_spec (k / 60 / 60) 0) as [Hz2|Hnz2].
  { intros Hn. split_and!; [apply Hst; lia|apply Hl1; lia|]. apply Hmin; unfold nsec, two63; [lia..|done]. }
  intros Hn. split_and!; [apply Hst; lia|apply Hl1; lia|].
  eapply parse_units_step; [apply (parse_unit_int "h" (3600 * nsec)); try done;
      [change (two63 / (3600 * nsec)) with 2562047; lia|right; apply Hst; lia]| |apply Hmin; unfold nsec, two63 in *; lia|done]. unfold nsec, two63 in *. lia.
Qed.

(** A duration of whole seconds is read back from its text. *)
Lemma ParseDuration_String k :
  min_int64 < k * nsec ≤ max_int64 → ParseDuration (Duration_String (k * nsec)) = Some (k * nsec).
Proof.
  unfold min_int64, max_int64. intros Hk. unfold Duration_String, ParseDuration, obind.
  destruct (Z.ltb_spec (k * nsec) 0) as [Hneg|Hpos].
  - rewrite (bool_decide_true (_ = "-"%char)) by done. replace (- (k * nsec)) with (- k * nsec) by lia.
    destruct (parse_units_seconds (- k) (String.length (format_abs (- k * nsec)))) as ((d & s & Hd & Hs) & Hl & Hp);
      [unfold nsec in *; lia|unfold two63, nsec in *; lia|done|].
    rewrite bool_decide_false by (intros Heq; by rewrite Heq in Hl).
    rewrite bool_decide_false by (intros Heq; by rewrite Heq in Hs). rewrite Hp. f_equal. lia.
  - destruct (decide (k = 0)) as [->|Hne]; [done|].
    destruct (parse_units_seconds k (String.length (format_abs (k * nsec)))) as ((d & s & Hd & Hs) & Hl & Hp);
      [unfold nsec in *; lia|unfold two63, nsec in *; lia|done|].
    rewrite Hs in Hp, Hl |- *. destruct (digit_not_sign d Hd) as [Hm Hpl].
    rewrite (bool_decide_false (_ = "-"%char)), (bool_decide_false (_ = "+"%char)) by done.
    rewrite bool_decide_false by (intros Heq; rewrite Heq in Hl; done). rewrite bool_decide_false by done.
    rewrite Hp. by rewrite (proj2 (Z.ltb_ge _ _)) by (unfold two63, nsec in *; lia).
Qed.

Example parse_1h30m : ParseDuration "1h30m0.5s" = Some (5400500000000).
Proof. vm_compute. reflexivity. Qed.
Example format_15m : Duration_String (900 * nsec) = "15m0s".
Proof. vm_compute. reflexivity. Qed.
Example format_ms : Duration_String 709551616 = "709.551616ms" ∧ ParseDuration "709.551616ms" = Some 709551616.
Proof. vm_compute. done. Qed.
