(* ===== verification/Sha.v ===== *)
(** * SHA-1 and SHA-256

    Go's [crypto/sha1] and [crypto/sha256] (FIPS 180-4), which order-service
    uses to derive errand IDs and request IDs.  A digest is a list of bytes;
    words are 32-bit values. *)

From S2P Require Import Prelude GoText.

Local Open Scope string_scope.
Open Scope Z_scope.

(** ** Words and blocks *)

Definition w32 (x : Z) : Z := Z.land x 0xFFFFFFFF.
Definition rotl (n x : Z) : Z := w32 (Z.lor (Z.shiftl x n) (Z.shiftr x (32 - n))).
Definition rotr (n x : Z) : Z := rotl (32 - n) x.
Definition not32 (x : Z) : Z := Z.lxor x 0xFFFFFFFF.

Definition bytes_of (s : string) : list Z := byte_of <$> String.list_ascii_of_string s.

(** The four bytes of a word, most significant first. *)
Definition word_bytes (w : Z) : list Z :=
  [Z.land (Z.shiftr w 24) 0xFF; Z.land (Z.shiftr w 16) 0xFF; Z.land (Z.shiftr w 8) 0xFF; Z.land w 0xFF].

Fixpoint words_of (bs : list Z) : list Z :=
  match bs with
  | a :: b :: c :: d :: bs' =>
      Z.lor (Z.shiftl a 24) (Z.lor (Z.shiftl b 16) (Z.lor (Z.shiftl c 8) d)) :: words_of bs'
  | _ => []
  end.

(** The message, a one bit, zeros up to 8 bytes before a multiple of 64, and
    the length in bits. *)
Definition padded (s : string) : list Z :=
  let n := len s in
  let zeros := (55 - n) mod 64 in
  words_of (bytes_of s ++ [0x80] ++ replicate (Z.to_nat zeros) 0)
  ++ [w32 (Z.shiftr (8 * n) 32); w32 (8 * n)].

(** Fold a compression function over the blocks of 16 words. *)
Fixpoint over_blocks {S} (compress : S → list Z → S) (n : nat) (ws : list Z) (st : S) : S :=
  match n with
  | O => st
  | Datatypes.S n' => over_blocks compress n' (drop 16 ws) (compress st (take 16 ws))
  end.

Definition hash {S} (compress : S → list Z → S) (init : S) (s : string) : S :=
  let ws := padded s in over_blocks compress (length ws / 16) ws init.

Definition nthw (i : nat) (ws : list Z) : Z := nth i ws 0.

(** ** SHA-1 *)

Record Sha1 := mkSha1 { s1_a : Z; s1_b : Z; s1_c : Z; s1_d : Z; s1_e : Z }.

Definition sha1_init : Sha1 := mkSha1 0x67452301 0xEFCDAB89 0x98BADCFE 0x10325476 0xC3D2E1F0.

Definition sha1_round (t w : Z) (st : Sha1) : Sha1 :=
  let '(mkSha1 a b c d e) := st in
  let '(f, k) :=
    if t <? 20 then (Z.lor (Z.land b c) (Z.land (not32 b) d), 0x5A827999)
    else if t <? 40 then (Z.lxor b (Z.lxor c d), 0x6ED9EBA1)
    else if t <? 60 then (Z.lor (Z.land b c) (Z.lor (Z.land b d) (Z.land c d)), 0x8F1BBCDC)
    else (Z.lxor b (Z.lxor c d), 0xCA62C1D6) in
  mkSha1 (w32 (rotl 5 a + f + e + k + w)) a (rotl 30 b) c d.

(** [win] holds the next 16 words of the message schedule. *)
Fixpoint sha1_rounds (n : nat) (t : Z) (win : list Z) (st : Sha1) : Sha1 :=
  match n with
  | O => st
  | S n' =>
      let w := nthw 0 win in
      let next := rotl 1 (Z.lxor (nthw 13 win) (Z.lxor (nthw 8 win) (Z.lxor (nthw 2 win) w))) in
      sha1_rounds n' (t + 1) (tail win ++ [next]) (sha1_round t w st)
  end.

Definition sha1_compress (h : Sha1) (block : list Z) : Sha1 :=
  let r := sha1_rounds 80 0 block h in
  mkSha1 (w32 (s1_a h + s1_a r)) (w32 (s1_b h + s1_b r)) (w32 (s1_c h + s1_c r))
    (w32 (s1_d h + s1_d r)) (w32 (s1_e h + s1_e r)).

Definition sha1_words (h : Sha1) : list Z := [s1_a h; s1_b h; s1_c h; s1_d h; s1_e h].

Definition sha1 (s : string) : list Z := sha1_words (hash sha1_compress sha1_init s) ≫= word_bytes.

(** ** SHA-256 *)

(** The round constants, as the standard derives them: the first 32 bits of the
    fractional parts of the cube roots of the first 64 primes; the initial
    state takes the square roots of the first eight. *)
Definition divides_none (ds : list Z) (n : Z) : bool := forallb (λ d, negb (n mod d =? 0)) ds.

Fixpoint primes (tries : nat) (n : Z) (found : list Z) : list Z :=
  match tries with
  | O => found
  | S tries' => primes tries' (n + 1) (if divides_none found n then found ++ [n] else found)
  end.

(** The greatest [r < acc + 2 ^ bits] with [r ^ 3 <= x], bit by bit from [acc]. *)
Fixpoint cube_root (bits : nat) (x acc : Z) : Z :=
  match bits with
  | O => acc
  | S b => let r := acc + 2 ^ Z.of_nat b in cube_root b x (if r ^ 3 <=? x then r else acc)
  end.

Definition sha256_primes : list Z := Eval vm_compute in primes 310 2 [].

Definition sha256_k : list Z :=
  Eval vm_compute in (λ p, w32 (cube_root 40 (Z.shiftl p 96) 0)) <$> sha256_primes.

Record Sha256 := mkSha256 {
  s2_a : Z; s2_b : Z; s2_c : Z; s2_d : Z; s2_e : Z; s2_f : Z; s2_g : Z; s2_h : Z }.

Definition sha256_init : Sha256 :=
  Eval vm_compute in
    let h i := w32 (Z.sqrt (Z.shiftl (nth i sha256_primes 0) 64)) in
    mkSha256 (h 0%nat) (h 1%nat) (h 2%nat) (h 3%nat) (h 4%nat) (h 5%nat) (h 6%nat) (h 7%nat).

Definition sha256_round (k w : Z) (st : Sha256) : Sha256 :=
  let '(mkSha256 a b c d e f g h) := st in
  let S1 := Z.lxor (rotr 6 e) (Z.lxor (rotr 11 e) (rotr 25 e)) in
  let ch := Z.lxor (Z.land e f) (Z.land (not32 e) g) in
  let temp1 := h + S1 + ch + k + w in
  let S0 := Z.lxor (rotr 2 a) (Z.lxor (rotr 13 a) (rotr 22 a)) in
  let maj := Z.lxor (Z.land a b) (Z.lxor (Z.land a c) (Z.land b c)) in
  mkSha256 (w32 (temp1 + S0 + maj)) a b c (w32 (d + temp1)) e f g.

Fixpoint sha256_rounds (ks : list Z) (win : list Z) (st : Sha256) : Sha256 :=
  match ks with
  | [] => st
  | k :: ks' =>
      let w := nthw 0 win in
      let s0 x := Z.lxor (rotr 7 x) (Z.lxor (rotr 18 x) (Z.shiftr x 3)) in
      let s1 x := Z.lxor (rotr 17 x) (Z.lxor (rotr 19 x) (Z.shiftr x 10)) in
      let next := w32 (w + s0 (nthw 1 win) + nthw 9 win + s1 (nthw 14 win)) in
      sha256_rounds ks' (tail win ++ [next]) (sha256_round k w st)
  end.

Definition sha256_compress (h : Sha256) (block : list Z) : Sha256 :=
  let r := sha256_rounds sha256_k block h in
  mkSha256 (w32 (s2_a h + s2_a r)) (w32 (s2_b h + s2_b r)) (w32 (s2_c h + s2_c r))
    (w32 (s2_d h + s2_d r)) (w32 (s2_e h + s2_e r)) (w32 (s2_f h + s2_f r))
    (w32 (s2_g h + s2_g r)) (w32 (s2_h h + s2_h r)).

Definition sha256_words (h : Sha256) : list Z :=
  [s2_a h; s2_b h; s2_c h; s2_d h; s2_e h; s2_f h; s2_g h; s2_h h].

Definition sha256 (s : string) : list Z := sha256_words (hash sha256_compress sha256_init s) ≫= word_bytes.

(** ** Published test vectors *)

Example sha1_abc : hex_bytes (sha1 "abc") = "a9993e364706816aba3e25717850c26c9cd0d89d".
Proof. vm_compute. reflexivity. Qed.

Example sha1_two_blocks :
  hex_bytes (sha1 "abcdbcdecdefdefgefghfghighijhijkijkljklmklmnlmnomnopnopq")
  = "84983e441c3bd26ebaae4aa1f95129e5e54670f1".
Proof. vm_compute. reflexivity. Qed.

Example sha256_abc :
  hex_bytes (sha256 "abc") = "ba7816bf8f01cfea414140de5dae2223b00361a396177a9cb410ff61f20015ad".
Proof. vm_compute. reflexivity. Qed.

Example sha256_two_blocks :
  hex_bytes (sha256 "abcdbcdecdefdefgefghfghighijhijkijkljklmklmnlmnomnopnopq")
  = "248d6a61d20638b8e5c026930c3e6039a33ce45964ff2167f6ecedd419db06c1".
Proof. vm_compute. reflexivity. Qed.

(** ** Shape of a digest *)

Definition is_byte (b : Z) : Prop := 0 ≤ b < 256.

Lemma land_byte x : is_byte (Z.land x 0xFF).
Proof.
  unfold is_byte. change 0xFF with (Z.ones 8). rewrite Z.land_ones by done.
  pose proof (Z.mod_pos_bound x (2 ^ 8)). lia.
Qed.

Lemma word_bytes_bytes w : Forall is_byte (word_bytes w).
Proof. repeat constructor; apply land_byte. Qed.

Lemma words_bytes ws : Forall is_byte (ws ≫= word_bytes) ∧ length (ws ≫= word_bytes) = (length ws * 4)%nat.
Proof.
  induction ws as [|w ws [IH1 IH2]]; [done|]. cbn [mbind list_bind]. split.
  - apply Forall_app. split; [apply word_bytes_bytes|exact IH1].
  - rewrite length_app. change (length (word_bytes w)) with 4%nat. cbn [length Nat.mul].
    f_equal. exact IH2.
Qed.

Lemma sha1_shape s : Forall is_byte (sha1 s) ∧ length (sha1 s) = 20%nat.
Proof. apply words_bytes. Qed.

Lemma sha256_shape s : Forall is_byte (sha256 s) ∧ length (sha256 s) = 32%nat.
Proof. apply words_bytes. Qed.

(** A digest is computed only on concrete text. *)
Arguments sha1 : simpl never.
Arguments sha256 : simpl never.
