(* ===== verification/WalletRepo.v ===== *)
(** * credit-service: tables and SQL data access

    The tables of [credit-service/migrations] and the functions of
    [internal/database/walletrepo].  A statement either changes the tables or
    raises a database error, which [mapError] turns into the package's typed
    errors.  UUID arguments are canonical text (the services validate and
    lowercase them first), so the [::uuid] casts are the identity. *)

From S2P Require Import Prelude GoText Json.

(** ** Rows *)

Record Wallet := mkWallet {
  w_ID : string;
  w_OwnerID : string;
  w_Auth0Subject : string;
  w_Available : Z;
  w_Reserved : Z;
  w_Version : Z;
  w_CreatedAt : Z;
  w_UpdatedAt : Z;
}.

(** The Go zero value [Wallet{}]. *)
Definition Wallet_zero : Wallet := mkWallet "" "" "" 0 0 0 0 0.

Inductive ReservationStatus := ReservationActive | ReservationReleased | ReservationTransferred.

Record Reservation := mkReservation {
  rv_ID : string;
  rv_WalletID : string;
  rv_OrderID : string;
  rv_Amount : Z;
  rv_Status : ReservationStatus;
  rv_LastAdjustSeq : Z;
  rv_CreatedAt : Z;
  rv_UpdatedAt : Z;
}.

Inductive EntryType :=
| EntryAllocate | EntryReserve | EntryReservationAdjust
| EntryRelease | EntryTransferOut | EntryTransferIn.

Record LedgerEntry := mkLedgerEntry {
  le_ID : Z;
  le_WalletID : string;
  le_Type : EntryType;
  le_AvailableDelta : Z;
  le_ReservedDelta : Z;
  le_OrderID : option string;
  le_CounterpartyWalletID : option string;
  le_IdempotencyKey : string;
  le_CreatedAt : Z;
}.

Record ProcessedCommand := mkProcessedCommand {
  pc_MessageID : string;
  pc_ResultType : string;
  pc_Result : json;
}.

Inductive OutboxStatus := StatusPending | StatusSent | StatusFailed.

(** A row of the [outbox] table. *)
Record OutboxRow := mkOutboxRow {
  ob_ID : Z;
  ob_Key : string;
  ob_RoutingKey : string;
  ob_Payload : json;
  ob_Status : OutboxStatus;
  ob_Attempts : Z;
  ob_NextAttemptAt : Z;
  ob_LeaseOwner : option string;
  ob_LeaseExpiresAt : option Z;
  ob_LastFailureCode : option string;
  ob_SentAt : option Z;
}.

#[export] Instance ReservationStatus_eq_dec : EqDecision ReservationStatus.
Proof. solve_decision. Defined.
#[export] Instance EntryType_eq_dec : EqDecision EntryType.
Proof. solve_decision. Defined.
#[export] Instance OutboxStatus_eq_dec : EqDecision OutboxStatus.
Proof. solve_decision. Defined.

(** ** The database *)

Record DB := mkDB {
  db_wallets : gmap string Wallet;            (* by id *)
  db_reservations : gmap string Reservation;  (* by id *)
  db_ledger : list LedgerEntry;               (* in id order *)
  db_processed : gmap string ProcessedCommand;
  db_released : gset string;
  db_outbox : gmap Z OutboxRow;               (* by id *)
}.

Definition empty_db : DB := mkDB ∅ ∅ [] ∅ ∅ ∅.

Definition set_wallets (f : gmap string Wallet → gmap string Wallet) (db : DB) : DB :=
  mkDB (f (db_wallets db)) (db_reservations db) (db_ledger db) (db_processed db)
    (db_released db) (db_outbox db).
Definition set_reservations (f : gmap string Reservation → gmap string Reservation) (db : DB) : DB :=
  mkDB (db_wallets db) (f (db_reservations db)) (db_ledger db) (db_processed db)
    (db_released db) (db_outbox db).
Definition add_ledger (e : LedgerEntry) (db : DB) : DB :=
  mkDB (db_wallets db) (db_reservations db) (db_ledger db ++ [e]) (db_processed db)
    (db_released db) (db_outbox db).
Definition add_processed (c : ProcessedCommand) (db : DB) : DB :=
  mkDB (db_wallets db) (db_reservations db) (db_ledger db)
    (<[pc_MessageID c := c]> (db_processed db)) (db_released db) (db_outbox db).
Definition add_released (o : string) (db : DB) : DB :=
  mkDB (db_wallets db) (db_reservations db) (db_ledger db) (db_processed db)
    ({[o]} ∪ db_released db) (db_outbox db).
Definition set_outbox (f : gmap Z OutboxRow → gmap Z OutboxRow) (db : DB) : DB :=
  mkDB (db_wallets db) (db_reservations db) (db_ledger db) (db_processed db)
    (db_released db) (f (db_outbox db)).

(** What Postgres supplies to one transaction: [now()] and the value
    [gen_random_uuid()] returns. *)
Record TxEnv := mkTxEnv { tx_now : Z; tx_uuid : string }.

(** ** Errors *)

(** Go's [error] values in the credit service: the sentinels of [walletrepo]
    and [wallet], and errors only ever passed on. *)
Inductive GoError :=
| ErrNotFound                        (* walletrepo.ErrNotFound *)
| ErrAlreadyExists
| ErrSubjectTaken
| ErrDuplicateOperation
| ErrNegativeBalance
| ErrPg (code constraint : string)   (* an unrecognised *pgconn.PgError *)
| WalletErrNotFound                  (* wallet.ErrNotFound *)
| WalletErrConflict                  (* wraps wallet.ErrConflict *)
| WalletErrInvalid (message : string) (* wraps wallet.ErrInvalid *)
| ErrUndecodable                     (* creditmsg.ErrUndecodable *)
| ErrOther (message : string).       (* any other error *)

(** What pgx returns. *)
Inductive DbErr :=
| NoRows
| PgError (code constraint : string).

Definition codeUniqueViolation := "23505".
Definition codeCheckViolation := "23514".
Definition codeForeignKeyViolation := "23503".
Definition codeOutOfRange := "22003".
Definition constraintIdempotency := "ledger_entries_wallet_idempotency_key".
Definition constraintSubject := "wallets_auth0_subject_key".
Definition constraintAvailable := "wallets_available_nonneg".
Definition constraintReserved := "wallets_reserved_nonneg".

Definition mapError (e : DbErr) : GoError :=
  match e with
  | NoRows => ErrNotFound
  | PgError code constraint =>
      if bool_decide (code = codeUniqueViolation) then
        if bool_decide (constraint = constraintIdempotency) then ErrDuplicateOperation
        else if bool_decide (constraint = constraintSubject) then ErrSubjectTaken
        else ErrAlreadyExists
      else if bool_decide (code = codeCheckViolation) then
        if bool_decide (constraint = constraintAvailable) ||
           bool_decide (constraint = constraintReserved)
        then ErrNegativeBalance
        else ErrPg code constraint
      else ErrPg code constraint
  end.

Abbreviation Op := (M DB GoError).

Definition raise {A} (e : DbErr) : Op A := fail (mapError e).

(** [QueryRow(...).Scan(...)] on a query that returns at most one row. *)
Definition query1 {A} (f : DB → option A) : Op A :=
  λ db, match f db with
        | Some a => Ok (a, db)
        | None => raise NoRows db
        end.

(** ** wallets *)

Definition starts_with_space (s : string) : bool :=
  match s with String a _ => byte_of a =? 32 | EmptyString => false end.

Fixpoint ends_with_space (s : string) : bool :=
  match s with
  | EmptyString => false
  | String a EmptyString => byte_of a =? 32
  | String _ s' => ends_with_space s'
  end.

(** CHECK wallets_auth0_subject_valid: [s = btrim(s) AND s <> '']. *)
Definition subject_check (s : string) : bool :=
  bool_decide (s ≠ "") && negb (starts_with_space s) && negb (ends_with_space s).

Definition new_wallet (env : TxEnv) (ownerID auth0Subject : string) : Wallet :=
  mkWallet (tx_uuid env) ownerID auth0Subject 0 0 1 (tx_now env) (tx_now env).

Definition by_owner (ownerID : string) (w : Wallet) : bool := bool_decide (w_OwnerID w = ownerID).
Definition by_subject (s : string) (w : Wallet) : bool := bool_decide (w_Auth0Subject w = s).

(** [INSERT INTO wallets ... RETURNING]; [on_conflict_nothing] is the clause
    [ON CONFLICT (owner_id) DO NOTHING], which returns no row. *)
Definition sql_insert_wallet (on_conflict_nothing : bool) (env : TxEnv)
    (ownerID auth0Subject : string) : Op Wallet :=
  λ db,
    if negb (subject_check auth0Subject) then
      raise (PgError codeCheckViolation "wallets_auth0_subject_valid") db
    else
      let owner_taken := bool_decide (is_Some (scan1 (by_owner ownerID) (db_wallets db))) in
      if on_conflict_nothing && owner_taken then raise NoRows db
      else match db_wallets db !! tx_uuid env with
      | Some _ => raise (PgError codeUniqueViolation "wallets_pkey") db
      | None =>
          if owner_taken then raise (PgError codeUniqueViolation "wallets_owner_id_key") db
          else if bool_decide (is_Some (scan1 (by_subject auth0Subject) (db_wallets db))) then
            raise (PgError codeUniqueViolation constraintSubject) db
          else
            let w := new_wallet env ownerID auth0Subject in
            Ok (w, set_wallets <[w_ID w := w]> db)
      end.

Definition CreateWalletRow (env : TxEnv) (ownerID auth0Subject : string) : Op Wallet :=
  sql_insert_wallet false env ownerID auth0Subject.

Definition InsertWalletIfAbsent (env : TxEnv) (ownerID auth0Subject : string) :
    Op (Wallet * bool) :=
  let! r := attempt (sql_insert_wallet true env ownerID auth0Subject) in
  match r with
  | Ok wallet => ret (wallet, true)
  | Err ErrNotFound => ret (Wallet_zero, false)
  | Err e => fail e
  end.

Definition GetWallet (walletID : string) : Op Wallet :=
  query1 (λ db, db_wallets db !! walletID).

Definition GetWalletByAuth0Subject (auth0Subject : string) : Op Wallet :=
  query1 (λ db, snd <$> scan1 (by_subject auth0Subject) (db_wallets db)).

Definition GetWalletByOwner (ownerID : string) : Op Wallet :=
  query1 (λ db, snd <$> scan1 (by_owner ownerID) (db_wallets db)).

(** [slices.Compact] *)
Fixpoint compact (l : list string) : list string :=
  match l with
  | x :: ((y :: _) as l') => if bool_decide (x = y) then compact l' else x :: compact l'
  | _ => l
  end.

Definition string_le (x y : string) : Prop := String.leb x y = true.
#[export] Instance string_le_dec x y : Decision (string_le x y) := decide (String.leb x y = true).

Definition wallet_id_le (x y : Wallet) : Prop := string_le (w_ID x) (w_ID y).
#[export] Instance wallet_id_le_dec x y : Decision (wallet_id_le x y) := string_le_dec _ _.

(** [SELECT ... WHERE auth0_subject = ANY($1) ORDER BY id FOR UPDATE] *)
Definition sql_lock_wallets (subjects : list string) (db : DB) : list Wallet :=
  merge_sort wallet_id_le
    (snd <$> scan (λ w, bool_decide (w_Auth0Subject w ∈ subjects)) (db_wallets db)).

Definition LockWalletsByAuth0Subject (subjects : list string) : Op (list Wallet) :=
  λ db,
    let unique := compact (merge_sort string_le subjects) in
    let wallets := sql_lock_wallets unique db in
    if bool_decide (length wallets ≠ length unique) then Err ErrNotFound
    else Ok (wallets, db).

Definition apply_deltas (env : TxEnv) (availableDelta reservedDelta : Z) (w : Wallet) : Wallet :=
  mkWallet (w_ID w) (w_OwnerID w) (w_Auth0Subject w)
    (w_Available w + availableDelta) (w_Reserved w + reservedDelta)
    (w_Version w + 1) (w_CreatedAt w) (tx_now env).

Definition ApplyDeltas (env : TxEnv) (walletID : string) (availableDelta reservedDelta : Z) :
    Op Wallet :=
  λ db,
    match db_wallets db !! walletID with
    | None => raise NoRows db
    | Some w =>
        let w' := apply_deltas env availableDelta reservedDelta w in
        if negb (in_int64b (w_Available w') && in_int64b (w_Reserved w') && in_int64b (w_Version w'))
        then raise (PgError codeOutOfRange "") db
        else if w_Available w' <? 0 then raise (PgError codeCheckViolation constraintAvailable) db
        else if w_Reserved w' <? 0 then raise (PgError codeCheckViolation constraintReserved) db
        else Ok (w', set_wallets <[walletID := w']> db)
    end.

(** ** reservations *)

Definition by_order (orderID : string) (r : Reservation) : bool :=
  bool_decide (rv_OrderID r = orderID).

Definition new_reservation (env : TxEnv) (walletID orderID : string) (amount : Z) : Reservation :=
  mkReservation (tx_uuid env) walletID orderID amount ReservationActive 0 (tx_now env) (tx_now env).

Definition CreateReservation (env : TxEnv) (walletID orderID : string) (amount : Z) :
    Op Reservation :=
  λ db,
    if negb (0 <? amount) then
      raise (PgError codeCheckViolation "reservations_amount_positive") db
    else match db_reservations db !! tx_uuid env with
    | Some _ => raise (PgError codeUniqueViolation "reservations_pkey") db
    | None =>
        if bool_decide (is_Some (scan1 (by_order orderID) (db_reservations db))) then
          raise (PgError codeUniqueViolation "reservations_order_id_key") db
        else match db_wallets db !! walletID with
        | None => raise (PgError codeForeignKeyViolation "reservations_wallet_id_fkey") db
        | Some _ =>
            let r := new_reservation env walletID orderID amount in
            Ok (r, set_reservations <[rv_ID r := r]> db)
        end
    end.

(** The [forUpdate] lock orders transactions; it does not change what is read. *)
Definition GetReservationByOrder (orderID : string) (forUpdate : bool) : Op Reservation :=
  query1 (λ db, snd <$> scan1 (by_order orderID) (db_reservations db)).

Definition set_amount_status (env : TxEnv) (amount : Z) (status : ReservationStatus)
    (r : Reservation) : Reservation :=
  mkReservation (rv_ID r) (rv_WalletID r) (rv_OrderID r) amount status (rv_LastAdjustSeq r)
    (rv_CreatedAt r) (tx_now env).

Definition set_amount_seq (env : TxEnv) (amount seq : Z) (r : Reservation) : Reservation :=
  mkReservation (rv_ID r) (rv_WalletID r) (rv_OrderID r) amount (rv_Status r) seq
    (rv_CreatedAt r) (tx_now env).

(** [UPDATE reservations SET ... WHERE id = $1 RETURNING]. *)
Definition sql_update_reservation (reservationID : string) (f : Reservation → Reservation) :
    Op Reservation :=
  λ db,
    match db_reservations db !! reservationID with
    | None => raise NoRows db
    | Some r =>
        if negb (0 <? rv_Amount (f r)) then
          raise (PgError codeCheckViolation "reservations_amount_positive") db
        else Ok (f r, set_reservations <[reservationID := f r]> db)
    end.

Definition UpdateReservation (env : TxEnv) (reservationID : string) (amount : Z)
    (status : ReservationStatus) : Op Reservation :=
  sql_update_reservation reservationID (set_amount_status env amount status).

Definition AdjustReservation (env : TxEnv) (reservationID : string) (amount seq : Z) :
    Op Reservation :=
  sql_update_reservation reservationID (set_amount_seq env amount seq).

(** ** ledger_entries *)

Definition has_ledger_key (walletID key : string) (e : LedgerEntry) : bool :=
  bool_decide (le_WalletID e = walletID) && bool_decide (le_IdempotencyKey e = key).

Definition fk_wallet (db : DB) (o : option string) : bool :=
  match o with Some i => bool_decide (is_Some (db_wallets db !! i)) | None => true end.

Definition numbered (env : TxEnv) (db : DB) (e : LedgerEntry) : LedgerEntry :=
  mkLedgerEntry (Z.of_nat (length (db_ledger db)) + 1) (le_WalletID e) (le_Type e)
    (le_AvailableDelta e) (le_ReservedDelta e) (le_OrderID e) (le_CounterpartyWalletID e)
    (le_IdempotencyKey e) (tx_now env).

Definition InsertLedgerEntry (env : TxEnv) (e : LedgerEntry) : Op LedgerEntry :=
  λ db,
    if (le_AvailableDelta e =? 0) && (le_ReservedDelta e =? 0) then
      raise (PgError codeCheckViolation "ledger_entries_delta_nonzero") db
    else if bool_decide (le_IdempotencyKey e = "") then
      raise (PgError codeCheckViolation "ledger_entries_key_nonempty") db
    else if existsb (has_ledger_key (le_WalletID e) (le_IdempotencyKey e)) (db_ledger db) then
      raise (PgError codeUniqueViolation constraintIdempotency) db
    else if negb (fk_wallet db (Some (le_WalletID e)) && fk_wallet db (le_CounterpartyWalletID e)) then
      raise (PgError codeForeignKeyViolation "ledger_entries_wallet_id_fkey") db
    else
      let e' := numbered env db e in Ok (e', add_ledger e' db).

Definition GetLedgerEntryByKey (walletID idempotencyKey : string) : Op LedgerEntry :=
  query1 (λ db, List.find (has_ledger_key walletID idempotencyKey) (db_ledger db)).

Definition ListLedgerEntries (walletID : string) (afterID : Z) (limit : nat) :
    Op (list LedgerEntry) :=
  λ db, Ok (take limit
              (List.filter (λ e, bool_decide (le_WalletID e = walletID) && (afterID <? le_ID e))
                 (db_ledger db)), db).

(** ** processed_commands and released_orders *)

(** [pg_advisory_xact_lock]: orders transactions, changes no row. *)
Definition LockCommand (messageID : string) : Op unit := ret tt.

Definition GetProcessedCommand (messageID : string) : Op ProcessedCommand :=
  query1 (λ db, db_processed db !! messageID).

Definition InsertProcessedCommand (c : ProcessedCommand) : Op unit :=
  λ db,
    if bool_decide (pc_MessageID c = "") then
      raise (PgError codeCheckViolation "processed_commands_message_id_nonempty") db
    else match db_processed db !! pc_MessageID c with
    | Some _ => raise (PgError codeUniqueViolation "processed_commands_pkey") db
    | None => Ok (tt, add_processed c db)
    end.

Definition InsertReleasedOrder (orderID : string) : Op unit :=
  λ db, Ok (tt, add_released orderID db).

Definition IsOrderReleased (orderID : string) : Op bool :=
  λ db, Ok (bool_decide (orderID ∈ db_released db), db).
