(* ===== verification/Wallet.v ===== *)
(** * credit-service: the wallet use cases

    [internal/wallet/service.go] and [commands.go]: creating and reading
    wallets, and the four order commands (reserve, adjust, release, transfer),
    each one database transaction that is idempotent on the command's message
    ID. *)

From S2P Require Import Prelude GoText Json WalletRepo.

(** ** service.go *)

(** [wallet.Wallet] *)
Record WalletView := mkWalletView {
  v_OwnerID : string;
  v_Auth0Subject : string;
  v_Available : Z;
  v_Reserved : Z;
  v_CreatedAt : Z;
}.

Definition InitialAllocationKey := "initial-allocation".
Definition maxSubjectLength : Z := 255.

Definition invalid {A} (message : string) : res GoError A := Err (WalletErrInvalid message).

Definition validateOwnerID (ownerID : string) : res GoError string :=
  if negb (uuid_pattern ownerID) then invalid "owner id must be a UUID"
  else Ok (to_lower ownerID).

Definition validateSubject (subject : string) : res GoError unit :=
  if bool_decide (subject = "") || negb (bool_decide (trim_space subject = subject)) then
    invalid "auth0 subject must be non-empty without surrounding whitespace"
  else if maxSubjectLength <? len subject then invalid "auth0 subject is too long"
  else if existsb is_control (runes subject) then
    invalid "auth0 subject contains control characters"
  else Ok tt.

Definition fromRow (row : Wallet) : WalletView :=
  mkWalletView (w_OwnerID row) (w_Auth0Subject row) (w_Available row) (w_Reserved row)
    (w_CreatedAt row).

(** ** commands.go: data *)

Definition ResultReserved := "credit.reserved".
Definition ResultReservationRefused := "credit.reservation_refused".
Definition ResultAdjusted := "credit.adjusted".
Definition ResultAdjustRefused := "credit.adjust_refused".
Definition ResultReleased := "credit.released".
Definition ResultTransferred := "credit.transferred".
Definition ResultOperationFailed := "credit.operation_failed".

Definition CodeInsufficientCredits := "INSUFFICIENT_CREDITS".
Definition CodeAccountNotFound := "ACCOUNT_NOT_FOUND".
Definition CodeReservationReleased := "RESERVATION_RELEASED".
Definition CodeReservationNotActive := "RESERVATION_NOT_ACTIVE".
Definition CodeReservationAlreadyTransferred := "RESERVATION_ALREADY_TRANSFERRED".
Definition CodeReservationAlreadyReleased := "RESERVATION_ALREADY_RELEASED".
Definition CodeReservationNotFound := "RESERVATION_NOT_FOUND".

Definition maxMessageIDLength : Z := 512.

Record Result := mkResult {
  r_Type : string;
  r_Amount : Z;
  r_Seq : Z;
  r_Code : string;
}.

#[export] Instance Result_eq_dec : EqDecision Result.
Proof. solve_decision. Defined.

Record Reply := mkReply {
  rp_CommandMessageID : string;
  rp_OrderID : string;
  rp_ErrandVersion : Z;
}.

Record ReserveCommand := mkReserve {
  rc_OrderID : string;
  rc_ErrandVersion : Z;
  rc_RequesterSubject : string;
  rc_Amount : Z;
}.

Record AdjustCommand := mkAdjust {
  ac_OrderID : string;
  ac_ErrandVersion : Z;
  ac_RequesterSubject : string;
  ac_NewAmount : Z;
  ac_Seq : Z;
}.

Record ReleaseCommand := mkRelease {
  lc_OrderID : string;
  lc_ErrandVersion : Z;
  lc_RequesterSubject : string;
}.

Record TransferCommand := mkTransfer {
  tc_OrderID : string;
  tc_ErrandVersion : Z;
  tc_RequesterSubject : string;
  tc_CourierSubject : string;
  tc_Amount : Z;
}.

(** The JSON of a [Result], as [encoding/json] writes it. *)
Definition enc_result (r : Result) : json :=
  JObj ([("type", JStr (r_Type r))] ++ enc_int_omit "amount" (r_Amount r)
        ++ enc_int_omit "seq" (r_Seq r) ++ enc_str_omit "code" (r_Code r)).

(** [json.Unmarshal(raw, &result)] *)
Definition dec_result (v : json) : option Result :=
  match members v with
  | None => None
  | Some ms =>
      match dec_field dec_string "type" ms "", dec_field dec_int64 "amount" ms 0,
            dec_field dec_int64 "seq" ms 0, dec_field dec_string "code" ms "" with
      | Some t, Some a, Some q, Some c => Some (mkResult t a q c)
      | _, _, _, _ => None
      end
  end.

(** [ResultRecorder]: stores a result in the command's transaction. *)
Definition Recorder : Type := Reply → Result → Op unit.

(** [Service]: the initial credit of a wallet and the optional recorder. *)
Record Service := mkService {
  s_initialCredit : Z;
  s_recorder : option Recorder;
}.

(** ** service.go: operations *)

Definition ledger_entry (walletID : string) (t : EntryType) (av rv : Z)
    (order counterparty : option string) (key : string) : LedgerEntry :=
  mkLedgerEntry 0 walletID t av rv order counterparty key 0.

Definition create_wallet_tx (s : Service) (env : TxEnv) (ownerID auth0Subject : string) :
    Op (WalletView * bool) :=
  let! r := attempt (InsertWalletIfAbsent env ownerID auth0Subject) in
  match r with
  | Err ErrSubjectTaken => fail WalletErrConflict
  | Err e => fail e
  | Ok (_, inserted) =>
      let! row := GetWalletByOwner ownerID in
      if negb inserted then
        if bool_decide (w_Auth0Subject row ≠ auth0Subject) then fail WalletErrConflict
        else ret (fromRow row, false)
      else if 0 <? s_initialCredit s then
        do! InsertLedgerEntry env
              (ledger_entry (w_ID row) EntryAllocate (s_initialCredit s) 0 None None
                 InitialAllocationKey);
        let! row := ApplyDeltas env (w_ID row) (s_initialCredit s) 0 in
        ret (fromRow row, true)
      else ret (fromRow row, true)
  end.

Definition CreateWallet (s : Service) (env : TxEnv) (ownerID auth0Subject : string) (db : DB) :
    res GoError (WalletView * bool) * DB :=
  match validateOwnerID ownerID with
  | Err e => (Err e, db)
  | Ok ownerID =>
      match validateSubject auth0Subject with
      | Err e => (Err e, db)
      | Ok _ => inTx (create_wallet_tx s env ownerID auth0Subject) db
      end
  end.

(** [result]: translates the repository's not-found. *)
Definition wallet_result (r : res GoError Wallet) : res GoError WalletView :=
  match r with
  | Ok row => Ok (fromRow row)
  | Err ErrNotFound => Err WalletErrNotFound
  | Err e => Err e
  end.

Definition GetByOwner (ownerID : string) (db : DB) : res GoError WalletView :=
  match validateOwnerID ownerID with
  | Err e => Err e
  | Ok ownerID => wallet_result (fst (inTx (GetWalletByOwner ownerID) db))
  end.

Definition GetBySubject (auth0Subject : string) (db : DB) : res GoError WalletView :=
  match validateSubject auth0Subject with
  | Err _ => Err WalletErrNotFound
  | Ok _ => wallet_result (fst (inTx (GetWalletByAuth0Subject auth0Subject) db))
  end.

(** ** commands.go: operations *)

Definition validateOrderID (orderID : string) : res GoError string :=
  if negb (uuid_pattern orderID) then invalid "order id must be a UUID"
  else Ok (to_lower orderID).

Definition lockReservation (orderID requesterSubject : string) : Op (Reservation * Wallet) :=
  do! GetReservationByOrder orderID false;
  let! wallets := attempt (LockWalletsByAuth0Subject [requesterSubject]) in
  match wallets with
  | Err ErrNotFound => fail WalletErrConflict
  | Err e => fail e
  | Ok [] => fail (ErrOther "index out of range")
  | Ok (w :: _) =>
      let! res := GetReservationByOrder orderID true in
      if bool_decide (rv_WalletID res ≠ w_ID w) then fail WalletErrConflict
      else ret (res, w)
  end.

(** [execute], the body of its transaction. *)
Definition execute_tx (s : Service) (messageID : string) (reply : Reply) (op : Op Result) :
    Op Result :=
  do! LockCommand messageID;
  let! stored := attempt (GetProcessedCommand messageID) in
  let! result :=
    match stored with
    | Ok c => match dec_result (pc_Result c) with
              | Some result => ret result
              | None => fail (ErrOther "json: cannot unmarshal")
              end
    | Err ErrNotFound =>
        let! result := op in
        if bool_decide (r_Type result ≠ ResultOperationFailed) then
          do! InsertProcessedCommand
                (mkProcessedCommand messageID (r_Type result) (enc_result result));
          ret result
        else ret result
    | Err e => fail e
    end in
  match s_recorder s with
  | None => ret result
  | Some record => do! record reply result; ret result
  end.

Definition execute (s : Service) (messageID : string) (reply : Reply) (op : Op Result) (db : DB) :
    res GoError Result * DB :=
  if bool_decide (messageID = "") || (maxMessageIDLength <? len messageID) then
    (invalid "message id must be 1 to 512 characters", db)
  else
    let reply := mkReply messageID (rp_OrderID reply) (rp_ErrandVersion reply) in
    inTx (execute_tx s messageID reply op) db.

Definition reserve_op (env : TxEnv) (orderID : string) (c : ReserveCommand) : Op Result :=
  let! released := IsOrderReleased orderID in
  if released : bool then ret (mkResult ResultReservationRefused 0 0 CodeReservationReleased)
  else
    let! existing := attempt (GetReservationByOrder orderID false) in
    match existing with
    | Ok existing => ret (mkResult ResultReserved (rv_Amount existing) 0 "")
    | Err ErrNotFound =>
        let! wallets := attempt (LockWalletsByAuth0Subject [rc_RequesterSubject c]) in
        match wallets with
        | Err ErrNotFound => ret (mkResult ResultReservationRefused 0 0 CodeAccountNotFound)
        | Err e => fail e
        | Ok [] => fail (ErrOther "index out of range")
        | Ok (w :: _) =>
            if w_Available w <? rc_Amount c then
              ret (mkResult ResultReservationRefused 0 0 CodeInsufficientCredits)
            else
              do! InsertLedgerEntry env
                    (ledger_entry (w_ID w) EntryReserve (wrap64 (- rc_Amount c)) (rc_Amount c)
                       (Some orderID) None ("reserve:" +:+ orderID));
              do! ApplyDeltas env (w_ID w) (wrap64 (- rc_Amount c)) (rc_Amount c);
              do! CreateReservation env (w_ID w) orderID (rc_Amount c);
              ret (mkResult ResultReserved (rc_Amount c) 0 "")
        end
    | Err e => fail e
    end.

Definition Reserve (s : Service) (env : TxEnv) (messageID : string) (c : ReserveCommand) (db : DB) :
    res GoError Result * DB :=
  match validateOrderID (rc_OrderID c), validateSubject (rc_RequesterSubject c) with
  | Err e, _ => (Err e, db)
  | Ok _, Err e => (Err e, db)
  | Ok orderID, Ok _ =>
      if rc_Amount c <=? 0 then (invalid "amount must be positive", db)
      else execute s messageID (mkReply "" orderID (rc_ErrandVersion c))
             (reserve_op env orderID c) db
  end.

Definition adjust_op (env : TxEnv) (orderID : string) (c : AdjustCommand) : Op Result :=
  let refused code := mkResult ResultAdjustRefused 0 (ac_Seq c) code in
  let! locked := attempt (lockReservation orderID (ac_RequesterSubject c)) in
  match locked with
  | Err ErrNotFound => ret (refused CodeReservationNotActive)
  | Err e => fail e
  | Ok (res, w) =>
      if bool_decide (rv_Status res ≠ ReservationActive) then ret (refused CodeReservationNotActive)
      else if ac_Seq c <=? rv_LastAdjustSeq res then
        ret (mkResult ResultAdjusted (rv_Amount res) (ac_Seq c) "")
      else
        let delta := wrap64 (ac_NewAmount c - rv_Amount res) in
        if w_Available w <? delta then ret (refused CodeInsufficientCredits)
        else
          do! (if negb (delta =? 0) then
                 do! InsertLedgerEntry env
                       (ledger_entry (w_ID w) EntryReservationAdjust (wrap64 (- delta)) delta
                          (Some orderID) None
                          ("adjust:" +:+ orderID +:+ ":" +:+ itoa (ac_Seq c)));
                 do! ApplyDeltas env (w_ID w) (wrap64 (- delta)) delta;
                 ret tt
               else ret tt);
          do! AdjustReservation env (rv_ID res) (ac_NewAmount c) (ac_Seq c);
          ret (mkResult ResultAdjusted (ac_NewAmount c) (ac_Seq c) "")
  end.

Definition Adjust (s : Service) (env : TxEnv) (messageID : string) (c : AdjustCommand) (db : DB) :
    res GoError Result * DB :=
  match validateOrderID (ac_OrderID c), validateSubject (ac_RequesterSubject c) with
  | Err e, _ => (Err e, db)
  | Ok _, Err e => (Err e, db)
  | Ok orderID, Ok _ =>
      if ac_NewAmount c <=? 0 then (invalid "new amount must be positive", db)
      else if ac_Seq c <=? 0 then (invalid "seq must be positive", db)
      else execute s messageID (mkReply "" orderID (ac_ErrandVersion c)) (adjust_op env orderID c) db
  end.

Definition release_op (env : TxEnv) (orderID : string) (c : ReleaseCommand) : Op Result :=
  let! locked := attempt (lockReservation orderID (lc_RequesterSubject c)) in
  match locked with
  | Err ErrNotFound =>
      do! InsertReleasedOrder orderID;
      ret (mkResult ResultReleased 0 0 "")
  | Err e => fail e
  | Ok (res, w) =>
      match rv_Status res with
      | ReservationReleased => ret (mkResult ResultReleased 0 0 "")
      | ReservationTransferred =>
          ret (mkResult ResultOperationFailed 0 0 CodeReservationAlreadyTransferred)
      | ReservationActive =>
          do! InsertLedgerEntry env
                (ledger_entry (w_ID w) EntryRelease (rv_Amount res) (wrap64 (- rv_Amount res))
                   (Some orderID) None ("release:" +:+ orderID));
          do! ApplyDeltas env (w_ID w) (rv_Amount res) (wrap64 (- rv_Amount res));
          do! UpdateReservation env (rv_ID res) (rv_Amount res) ReservationReleased;
          ret (mkResult ResultReleased 0 0 "")
      end
  end.

Definition Release (s : Service) (env : TxEnv) (messageID : string) (c : ReleaseCommand) (db : DB) :
    res GoError Result * DB :=
  match validateOrderID (lc_OrderID c), validateSubject (lc_RequesterSubject c) with
  | Err e, _ => (Err e, db)
  | Ok _, Err e => (Err e, db)
  | Ok orderID, Ok _ =>
      execute s messageID (mkReply "" orderID (lc_ErrandVersion c)) (release_op env orderID c) db
  end.

(** The loop that tells the two locked wallets apart. *)
Fixpoint pick_wallets (requesterSubject : string) (wallets : list Wallet)
    (requester courier : Wallet) : Wallet * Wallet :=
  match wallets with
  | [] => (requester, courier)
  | w :: wallets' =>
      if bool_decide (w_Auth0Subject w = requesterSubject)
      then pick_wallets requesterSubject wallets' w courier
      else pick_wallets requesterSubject wallets' requester w
  end.

(** The balance changes of a transfer out of reservation [res]. *)
Definition transfer_apply (env : TxEnv) (orderID : string) (c : TransferCommand)
    (res : Reservation) (requester courier : Wallet) : Op Result :=
  let fromReservation := Z.min (rv_Amount res) (tc_Amount c) in
  let shortfall := wrap64 (tc_Amount c - fromReservation) in
  let surplus := wrap64 (rv_Amount res - fromReservation) in
  if w_Available requester <? shortfall then
    ret (mkResult ResultOperationFailed 0 0 CodeInsufficientCredits)
  else
    do! InsertLedgerEntry env
          (ledger_entry (w_ID requester) EntryTransferOut (wrap64 (- shortfall))
             (wrap64 (- fromReservation)) (Some orderID) (Some (w_ID courier))
             ("transfer:" +:+ orderID));
    do! InsertLedgerEntry env
          (ledger_entry (w_ID courier) EntryTransferIn (tc_Amount c) 0 (Some orderID)
             (Some (w_ID requester)) ("transfer:" +:+ orderID));
    do! (if 0 <? surplus then
           do! InsertLedgerEntry env
                 (ledger_entry (w_ID requester) EntryRelease surplus (wrap64 (- surplus))
                    (Some orderID) None ("transfer-surplus:" +:+ orderID));
           ret tt
         else ret tt);
    do! ApplyDeltas env (w_ID requester) (wrap64 (surplus - shortfall)) (wrap64 (- rv_Amount res));
    do! ApplyDeltas env (w_ID courier) (tc_Amount c) 0;
    do! UpdateReservation env (rv_ID res) (rv_Amount res) ReservationTransferred;
    ret (mkResult ResultTransferred 0 0 "").

Definition transfer_op (env : TxEnv) (orderID : string) (c : TransferCommand) : Op Result :=
  let failed code := mkResult ResultOperationFailed 0 0 code in
  let! found := attempt (GetReservationByOrder orderID false) in
  match found with
  | Err ErrNotFound =>
      let! released := IsOrderReleased orderID in
      if released : bool then ret (failed CodeReservationAlreadyReleased)
      else ret (failed CodeReservationNotFound)
  | Err e => fail e
  | Ok res =>
      let! wallets :=
        attempt (LockWalletsByAuth0Subject [tc_RequesterSubject c; tc_CourierSubject c]) in
      match wallets with
      | Err ErrNotFound => ret (failed CodeAccountNotFound)
      | Err e => fail e
      | Ok wallets =>
          let '(requester, courier) :=
            pick_wallets (tc_RequesterSubject c) wallets Wallet_zero Wallet_zero in
          if bool_decide (w_ID requester ≠ rv_WalletID res) then fail WalletErrConflict
          else
            let! res := GetReservationByOrder orderID true in
            match rv_Status res with
            | ReservationTransferred => ret (mkResult ResultTransferred 0 0 "")
            | ReservationReleased => ret (failed CodeReservationAlreadyReleased)
            | ReservationActive => transfer_apply env orderID c res requester courier
            end
      end
  end.

Definition Transfer (s : Service) (env : TxEnv) (messageID : string) (c : TransferCommand) (db : DB) :
    res GoError Result * DB :=
  match validateOrderID (tc_OrderID c), validateSubject (tc_RequesterSubject c),
        validateSubject (tc_CourierSubject c) with
  | Err e, _, _ => (Err e, db)
  | Ok _, Err e, _ => (Err e, db)
  | Ok _, Ok _, Err e => (Err e, db)
  | Ok orderID, Ok _, Ok _ =>
      if bool_decide (tc_CourierSubject c = tc_RequesterSubject c) then
        (invalid "courier and requester must differ", db)
      else if tc_Amount c <=? 0 then (invalid "amount must be positive", db)
      else execute s messageID (mkReply "" orderID (tc_ErrandVersion c)) (transfer_op env orderID c) db
  end.
