(* ===== verification/WalletInv.v ===== *)
(** * credit-service: the ledger invariant

    What the tables of the credit service satisfy at every commit: balances
    are what the append-only ledger adds up to, reserved credits are backed by
    the active reservations, and every idempotency key in the ledger belongs
    to a step its reservation has taken; and what
    [LockWalletsByAuth0Subject] returns on a well-formed wallet table. *)

From S2P Require Import Prelude GoText Json WalletRepo Wallet.

(** ** Balances as functions of the wallet id *)

Definition avail (db : DB) (i : string) : Z := default 0 (w_Available <$> db_wallets db !! i).
Definition resv (db : DB) (i : string) : Z := default 0 (w_Reserved <$> db_wallets db !! i).

Definition at_wallet (i : string) (f : LedgerEntry → Z) (e : LedgerEntry) : Z :=
  if bool_decide (le_WalletID e = i) then f e else 0.

(** What the ledger says the balances of wallet [i] are. *)
Definition led_av (db : DB) (i : string) : Z :=
  sumZ (at_wallet i le_AvailableDelta <$> db_ledger db).
Definition led_rv (db : DB) (i : string) : Z :=
  sumZ (at_wallet i le_ReservedDelta <$> db_ledger db).

Definition active_amount (i : string) (r : Reservation) : Z :=
  if bool_decide (rv_Status r = ReservationActive) && bool_decide (rv_WalletID r = i)
  then rv_Amount r else 0.

(** What the active reservations of wallet [i] hold. *)
Definition held (db : DB) (i : string) : Z := msum (active_amount i) (db_reservations db).

(** All credits in circulation. *)
Definition total (db : DB) : Z := msum (λ w, w_Available w + w_Reserved w) (db_wallets db).

(** ** The invariant *)

Definition money (x : Z) : Prop := 0 ≤ x ≤ max_int64.

Record wallets_ok (m : gmap string Wallet) : Prop := {
  wk_row i w : m !! i = Some w →
    w_ID w = i ∧ money (w_Available w) ∧ money (w_Reserved w);
  wk_owner i j w w' : m !! i = Some w → m !! j = Some w' → w_OwnerID w = w_OwnerID w' → i = j;
  wk_subject i j w w' :
    m !! i = Some w → m !! j = Some w' → w_Auth0Subject w = w_Auth0Subject w' → i = j;
}.

Record reservations_ok (db : DB) : Prop := {
  rk_row i r : db_reservations db !! i = Some r →
    rv_ID r = i ∧ 0 < rv_Amount r ≤ max_int64 ∧ 0 ≤ rv_LastAdjustSeq r ∧
    String.length (rv_OrderID r) = 36%nat ∧ is_Some (db_wallets db !! rv_WalletID r) ∧
    rv_OrderID r ∉ db_released db;
  rk_order i j r r' : db_reservations db !! i = Some r → db_reservations db !! j = Some r' →
    rv_OrderID r = rv_OrderID r' → i = j;
}.

(** The idempotency keys a reservation's history can have left. *)
Inductive key_of (r : Reservation) : string → Prop :=
| key_reserve : key_of r ("reserve:" +:+ rv_OrderID r)
| key_adjust n : 0 < n ≤ rv_LastAdjustSeq r →
    key_of r ("adjust:" +:+ rv_OrderID r +:+ ":" +:+ itoa n)
| key_release : rv_Status r = ReservationReleased → key_of r ("release:" +:+ rv_OrderID r)
| key_transfer : rv_Status r = ReservationTransferred → key_of r ("transfer:" +:+ rv_OrderID r)
| key_surplus : rv_Status r = ReservationTransferred →
    key_of r ("transfer-surplus:" +:+ rv_OrderID r).

Definition entry_ok (db : DB) (e : LedgerEntry) : Prop :=
  is_Some (db_wallets db !! le_WalletID e) ∧
  (le_IdempotencyKey e = InitialAllocationKey ∨
   ∃ i r, db_reservations db !! i = Some r ∧ key_of r (le_IdempotencyKey e)).

Record db_ok (db : DB) : Prop := {
  ok_wallets : wallets_ok (db_wallets db);
  ok_reservations : reservations_ok db;
  ok_ledger_av i : avail db i = led_av db i;
  ok_ledger_rv i : resv db i = led_rv db i;
  ok_held i : resv db i = held db i;
  ok_keys e : e ∈ db_ledger db → entry_ok db e;
}.

(** ** Statements that succeeded *)

Lemma query1_Ok {A} (f : DB → option A) db a db' :
  query1 f db = Ok (a, db') → db' = db ∧ f db = Some a.
Proof. unfold query1, raise, fail. destruct (f db); intros [=]; by subst. Qed.

Lemma query1_Err {A} (f : DB → option A) db e :
  query1 f db = Err e → e = ErrNotFound ∧ f db = None.
Proof. unfold query1, raise, fail. destruct (f db); intros [=]; by subst. Qed.

Lemma attempt_Ok {S E A} (m : M S E A) s r s' :
  attempt m s = Ok (r, s') →
  (∃ a, r = Ok a ∧ m s = Ok (a, s')) ∨ (∃ e, r = Err e ∧ s' = s ∧ m s = Err e).
Proof. unfold attempt. destruct (m s) as [[a s1]|e] eqn:Hm; intros [= <- <-]; eauto 10. Qed.

Lemma ApplyDeltas_Ok env i da dr db w' db' :
  ApplyDeltas env i da dr db = Ok (w', db') →
  ∃ w, db_wallets db !! i = Some w ∧ w' = apply_deltas env da dr w ∧
       db' = set_wallets <[i := w']> db ∧ money (w_Available w') ∧ money (w_Reserved w').
Proof.
  unfold ApplyDeltas. destruct (db_wallets db !! i) as [w|] eqn:Hw; [|done].
  intros H. break_in H. bool_props. exists w.
  rewrite !in_int64b_spec in *. unfold money, in_int64 in *. naive_solver lia.
Qed.

Lemma InsertLedgerEntry_Ok env e db e' db' :
  InsertLedgerEntry env e db = Ok (e', db') →
  e' = numbered env db e ∧ db' = add_ledger e' db ∧
  is_Some (db_wallets db !! le_WalletID e) ∧
  existsb (has_ledger_key (le_WalletID e) (le_IdempotencyKey e)) (db_ledger db) = false.
Proof.
  unfold InsertLedgerEntry. intros H. break_in H. bool_props.
  unfold fk_wallet in *. bool_props. done.
Qed.

Lemma CreateReservation_Ok env i o a db r db' :
  CreateReservation env i o a db = Ok (r, db') →
  r = new_reservation env i o a ∧ 0 < a ∧ db_reservations db !! tx_uuid env = None ∧
  scan1 (by_order o) (db_reservations db) = None ∧ is_Some (db_wallets db !! i) ∧
  db' = set_reservations <[tx_uuid env := r]> db.
Proof.
  unfold CreateReservation. intros H. break_in H. bool_props.
  split_and!; eauto. by apply eq_None_not_Some.
Qed.

Lemma sql_update_reservation_Ok i f db r' db' :
  sql_update_reservation i f db = Ok (r', db') →
  ∃ r, db_reservations db !! i = Some r ∧ r' = f r ∧ 0 < rv_Amount (f r) ∧
       db' = set_reservations <[i := f r]> db.
Proof. unfold sql_update_reservation. intros H. break_in H. bool_props. eauto. Qed.

(** ** How each table change moves the balances *)

Definition when (b : bool) (x : Z) : Z := if b then x else 0.

Lemma avail_set_wallet db i w w' j :
  db_wallets db !! i = Some w →
  avail (set_wallets <[i := w']> db) j
  = avail db j + when (bool_decide (i = j)) (w_Available w' - w_Available w).
Proof.
  intros Hw. unfold avail, when. simpl. case_bool_decide; subst.
  - rewrite lookup_insert_eq, Hw. simpl. lia.
  - rewrite lookup_insert_ne by done. lia.
Qed.

Lemma resv_set_wallet db i w w' j :
  db_wallets db !! i = Some w →
  resv (set_wallets <[i := w']> db) j
  = resv db j + when (bool_decide (i = j)) (w_Reserved w' - w_Reserved w).
Proof.
  intros Hw. unfold resv, when. simpl. case_bool_decide; subst.
  - rewrite lookup_insert_eq, Hw. simpl. lia.
  - rewrite lookup_insert_ne by done. lia.
Qed.

Lemma led_av_add db e j :
  led_av (add_ledger e db) j
  = led_av db j + when (bool_decide (le_WalletID e = j)) (le_AvailableDelta e).
Proof.
  unfold led_av. simpl. rewrite fmap_app, sumZ_app. simpl. unfold at_wallet, when. lia.
Qed.

Lemma led_rv_add db e j :
  led_rv (add_ledger e db) j
  = led_rv db j + when (bool_decide (le_WalletID e = j)) (le_ReservedDelta e).
Proof.
  unfold led_rv. simpl. rewrite fmap_app, sumZ_app. simpl. unfold at_wallet, when. lia.
Qed.

Lemma held_new db i r j :
  db_reservations db !! i = None →
  held (set_reservations <[i := r]> db) j = held db j + active_amount j r.
Proof. intros Hi. unfold held. simpl. rewrite msum_insert_new by done. lia. Qed.

Lemma held_update db i r r' j :
  db_reservations db !! i = Some r →
  held (set_reservations <[i := r']> db) j
  = held db j + (active_amount j r' - active_amount j r).
Proof. intros Hi. unfold held. simpl. rewrite (msum_update _ _ _ r) by done. lia. Qed.

(** A reservation that is active holds its amount in its own wallet only. *)
Lemma active_amount_when j r :
  active_amount j r =
  when (bool_decide (rv_WalletID r = j))
    (when (bool_decide (rv_Status r = ReservationActive)) (rv_Amount r)).
Proof. unfold active_amount, when. repeat case_bool_decide; done. Qed.

(** ** Preservation of the table invariants *)

Lemma wallets_ok_update m i w w' :
  wallets_ok m → m !! i = Some w →
  w_ID w' = w_ID w → w_OwnerID w' = w_OwnerID w → w_Auth0Subject w' = w_Auth0Subject w →
  money (w_Available w') → money (w_Reserved w') → wallets_ok (<[i := w']> m).
Proof.
  intros [Hrow Hown Hsub] Hw Hid Ho Hs Hav Hrv.
  destruct (Hrow _ _ Hw) as (Hi & _ & _).
  assert (∀ j u, <[i:=w']> m !! j = Some u →
            ∃ u0, m !! j = Some u0 ∧ w_OwnerID u = w_OwnerID u0 ∧ w_Auth0Subject u = w_Auth0Subject u0) as Hback.
  { intros j u [[-> <-]|[? Hj]]%lookup_insert_Some; eauto. }
  split.
  - intros j u [[-> <-]|[? Hj]]%lookup_insert_Some; [|by eapply Hrow].
    split_and!; congruence || done.
  - intros j k u v Hj Hk Heq.
    destruct (Hback _ _ Hj) as (u0 & Hu & ? & _), (Hback _ _ Hk) as (v0 & Hv & ? & _).
    eapply (Hown j k u0 v0); congruence.
  - intros j k u v Hj Hk Heq.
    destruct (Hback _ _ Hj) as (u0 & Hu & _ & ?), (Hback _ _ Hk) as (v0 & Hv & _ & ?).
    eapply (Hsub j k u0 v0); congruence.
Qed.

(** [ApplyDeltas] keeps the wallet table well formed and the set of ids. *)
Lemma apply_deltas_wallets_ok env m i da dr w :
  wallets_ok m → m !! i = Some w →
  money (w_Available (apply_deltas env da dr w)) → money (w_Reserved (apply_deltas env da dr w)) →
  wallets_ok (<[i := apply_deltas env da dr w]> m).
Proof. intros Hm Hw ??. by eapply wallets_ok_update. Qed.

Lemma wallets_dom_update (m : gmap string Wallet) i w w' :
  m !! i = Some w → ∀ j, is_Some (<[i := w']> m !! j) ↔ is_Some (m !! j).
Proof.
  intros Hw j. destruct (decide (i = j)) as [->|?].
  - rewrite lookup_insert_eq, Hw. split; eauto.
  - by rewrite lookup_insert_ne.
Qed.

Section lock.
Context (db : DB) (Hok : wallets_ok (db_wallets db)).

Lemma elem_of_lock subjects w :
  w ∈ sql_lock_wallets subjects db ↔
  db_wallets db !! w_ID w = Some w ∧ w_Auth0Subject w ∈ subjects.
Proof using Hok.
  unfold sql_lock_wallets. rewrite merge_sort_Permutation, list_elem_of_fmap. split.
  - intros ([i u] & -> & [Hi Hin]%elem_of_scan). simpl. bool_props.
    destruct (wk_row _ Hok i u Hi) as (-> & _). done.
  - intros [Hw Hin]. exists (w_ID w, w). split; [done|].
    apply elem_of_scan. split; [done|]. by apply bool_decide_eq_true.
Qed.

Lemma NoDup_lock subjects : NoDup (sql_lock_wallets subjects db).
Proof using Hok.
  unfold sql_lock_wallets. rewrite merge_sort_Permutation.
  apply NoDup_fmap_2_strong; [|apply NoDup_scan].
  intros [i u] [j v] [Hi _]%elem_of_scan [Hj _]%elem_of_scan. simpl. intros ->.
  destruct (wk_row _ Hok i v Hi) as (<- & _), (wk_row _ Hok j v Hj) as (<- & _). done.
Qed.

(** Two rows with one subject are the same wallet. *)
Lemma subject_inj w w' :
  db_wallets db !! w_ID w = Some w → db_wallets db !! w_ID w' = Some w' →
  w_Auth0Subject w = w_Auth0Subject w' → w = w'.
Proof using Hok.
  intros Hw Hw' Hs.
  pose proof (wk_subject _ Hok _ _ _ _ Hw Hw' Hs) as Hid. rewrite Hid in Hw. congruence.
Qed.

Lemma lock_one_perm s w :
  db_wallets db !! w_ID w = Some w → w_Auth0Subject w = s → sql_lock_wallets [s] db = [w].
Proof using Hok.
  intros Hw Hs. apply Permutation_singleton_r. apply NoDup_Permutation.
  - apply NoDup_lock.
  - apply NoDup_singleton.
  - intros u. rewrite elem_of_lock, !list_elem_of_singleton. split; [|by intros ->].
    intros [Hu Hus]. by apply subject_inj; congruence.
Qed.

Lemma lock_one_none s :
  (∀ i w, db_wallets db !! i = Some w → w_Auth0Subject w ≠ s) → sql_lock_wallets [s] db = [].
Proof using Hok.
  intros Hno. apply elem_of_nil_inv. intros w [Hw Hs%list_elem_of_singleton]%elem_of_lock.
  by eapply Hno.
Qed.

(** Locking one subject returns its wallet, or [ErrNotFound]. *)
Lemma lock_one s :
  LockWalletsByAuth0Subject [s] db =
  match scan1 (by_subject s) (db_wallets db) with
  | Some (_, w) => Ok ([w], db)
  | None => Err ErrNotFound
  end.
Proof using Hok.
  unfold LockWalletsByAuth0Subject. change (compact (merge_sort string_le [s])) with [s].
  destruct (scan1 _ _) as [[i w]|] eqn:Hs.
  - apply scan1_Some in Hs as [Hi Hs]. unfold by_subject in Hs. bool_props.
    destruct (wk_row _ Hok i w Hi) as (<- & _). by rewrite (lock_one_perm s w).
  - rewrite scan1_None in Hs. rewrite lock_one_none; [done|].
    intros i w Hw. specialize (Hs i w Hw). unfold by_subject in Hs. by bool_props.
Qed.

Lemma unique_two s t : s ≠ t → compact (merge_sort string_le [s; t]) ≡ₚ [s; t].
Proof.
  intros Hst. assert (merge_sort string_le [s; t] = [s; t] ∨ merge_sort string_le [s; t] = [t; s]) as [-> | ->].
  { unfold merge_sort. simpl. case_decide; auto. }
  - simpl. by rewrite bool_decide_false.
  - simpl. rewrite bool_decide_false by done. constructor.
Qed.

Lemma lock_two_Ok s t l db' :
  s ≠ t → LockWalletsByAuth0Subject [s; t] db = Ok (l, db') →
  db' = db ∧ ∃ a b, db_wallets db !! w_ID a = Some a ∧ db_wallets db !! w_ID b = Some b ∧
    w_Auth0Subject a = s ∧ w_Auth0Subject b = t ∧
    ∀ z z', pick_wallets s l z z' = (a, b).
Proof using Hok.
  intros Hst. unfold LockWalletsByAuth0Subject.
  set (u := compact _). assert (u ≡ₚ [s; t]) as Hu by by apply unique_two.
  case_bool_decide as Hlen; [done|]. intros [= <- <-]. split; [done|].
  rewrite (Permutation_length Hu) in Hlen. simpl in Hlen.
  pose proof (NoDup_lock u) as Hnd. pose proof (elem_of_lock u) as Hel.
  destruct (sql_lock_wallets u db) as [|a [|b [|]]]; simpl in Hlen; try done.
  apply NoDup_cons in Hnd as [Hab%not_elem_of_cons _].
  destruct (proj1 (Hel a)) as [Ha Has]; [left|]. destruct (proj1 (Hel b)) as [Hb Hbs]; [right; left|].
  rewrite Hu in Has, Hbs. apply elem_of_cons in Has. apply elem_of_cons in Hbs.
  rewrite list_elem_of_singleton in Has, Hbs.
  assert (w_Auth0Subject a ≠ w_Auth0Subject b).
  { intros Heq. destruct Hab as [Hab _]. by apply Hab, subject_inj. }
  destruct Has as [Has|Has], Hbs as [Hbs|Hbs]; try congruence.
  - exists a, b. split_and!; try done. intros. simpl.
    rewrite bool_decide_true, bool_decide_false by congruence. done.
  - exists b, a. split_and!; try done. intros. simpl.
    rewrite bool_decide_false, bool_decide_true by congruence. done.
Qed.

(** Both wallets exist: the lock succeeds. *)
Lemma lock_two_exists s t a b :
  s ≠ t → db_wallets db !! w_ID a = Some a → db_wallets db !! w_ID b = Some b →
  w_Auth0Subject a = s → w_Auth0Subject b = t →
  ∃ l, LockWalletsByAuth0Subject [s; t] db = Ok (l, db) ∧ ∀ z z', pick_wallets s l z z' = (a, b).
Proof using Hok.
  intros Hst Ha Hb Has Hbs.
  assert (∃ l, LockWalletsByAuth0Subject [s; t] db = Ok (l, db)) as [l Hl].
  { unfold LockWalletsByAuth0Subject. set (u := compact _).
    assert (u ≡ₚ [s; t]) as Hu by by apply unique_two.
    assert (sql_lock_wallets u db ≡ₚ [a; b]) as Hp.
    { apply NoDup_Permutation; [apply NoDup_lock| |].
      { apply NoDup_cons. rewrite list_elem_of_singleton. split; [congruence|apply NoDup_singleton]. }
      intros w. rewrite elem_of_lock, Hu, !elem_of_cons, !elem_of_nil. split.
      - intros [Hw [Hs|[Hs|[]]]]; [left|right; left].
        + apply subject_inj; congruence.
        + apply subject_inj; congruence.
      - intros [->|[->|[]]]; (split; [done|]); [by left | by right; left]. }
    rewrite bool_decide_false by (rewrite (Permutation_length Hu), (Permutation_length Hp); auto). eauto. }
  exists l. split; [done|]. destruct (lock_two_Ok s t l db Hst Hl) as (_ & a' & b' & Ha' & Hb' & Has' & Hbs' & Hpick).
  assert (a' = a) as ->.
  { apply subject_inj; congruence. }
  assert (b' = b) as ->; [|done].
  apply subject_inj; congruence.
Qed.

End lock.
