(* ===== verification/WalletSafe.v ===== *)
(** * credit-service: every command preserves the invariant

    Each operation of [commands.go] is characterised by what it did to the
    tables, and shown to preserve [db_ok] and the number of credits. *)

From S2P Require Import Prelude GoText Json WalletRepo Wallet WalletInv.

(** ** Reads *)

Section reads.
Context (db : DB) (Hok : db_ok db).

Lemma attempt_lock_one s r db' :
  attempt (LockWalletsByAuth0Subject [s]) db = Ok (r, db') →
  db' = db ∧
  ((r = Err ErrNotFound ∧ scan1 (by_subject s) (db_wallets db) = None) ∨
   ∃ w, r = Ok [w] ∧ db_wallets db !! w_ID w = Some w ∧ w_Auth0Subject w = s).
Proof using Hok.
  unfold attempt. rewrite (lock_one db (ok_wallets _ Hok)).
  destruct (scan1 _ _) as [[i w]|] eqn:Hs; intros [= <- <-]; (split; [done|]).
  - right. exists w. apply scan1_Some in Hs as [Hi Hs]. unfold by_subject in Hs. bool_props.
    by destruct (wk_row _ (ok_wallets _ Hok) i w Hi) as (-> & _).
  - by left.
Qed.

Lemma get_reservation o b r db' :
  GetReservationByOrder o b db = Ok (r, db') →
  db' = db ∧ db_reservations db !! rv_ID r = Some r ∧ rv_OrderID r = o.
Proof using Hok.
  unfold GetReservationByOrder. intros [-> Hq]%query1_Ok. split; [done|].
  destruct (scan1 _ _) as [[i r']|] eqn:Hs; simplify_eq/=.
  apply scan1_Some in Hs as [Hi Hs]. unfold by_order in Hs. bool_props.
  by destruct (rk_row _ (ok_reservations _ Hok) i r Hi) as (-> & _).
Qed.

Lemma get_reservation_none o b e :
  GetReservationByOrder o b db = Err e →
  e = ErrNotFound ∧ scan1 (by_order o) (db_reservations db) = None.
Proof.
  unfold GetReservationByOrder. intros [-> Hq]%query1_Err. split; [done|]. by destruct (scan1 _ _).
Qed.

(** The reservation of an order is the one the query finds. *)
Lemma get_reservation_some i r b :
  db_reservations db !! i = Some r → GetReservationByOrder (rv_OrderID r) b db = Ok (r, db).
Proof using Hok.
  intros Hi. unfold GetReservationByOrder, query1.
  rewrite (scan1_unique _ _ i r); [done|done| |].
  - unfold by_order. by apply bool_decide_eq_true.
  - intros j r' Hj Hr'. unfold by_order in Hr'. bool_props.
    by eapply (rk_order _ (ok_reservations _ Hok)).
Qed.

Lemma attempt_get_reservation o b r db' :
  attempt (GetReservationByOrder o b) db = Ok (r, db') →
  db' = db ∧
  ((r = Err ErrNotFound ∧ scan1 (by_order o) (db_reservations db) = None) ∨
   ∃ rv, r = Ok rv ∧ db_reservations db !! rv_ID rv = Some rv ∧ rv_OrderID rv = o).
Proof using Hok.
  intros [(rv & -> & Hg)|(e & -> & -> & Hg)]%attempt_Ok.
  - apply get_reservation in Hg as (-> & ? & ?). eauto 10.
  - apply get_reservation_none in Hg as [-> ?]. eauto.
Qed.

Lemma attempt_lockReservation o s r db' :
  attempt (lockReservation o s) db = Ok (r, db') →
  db' = db ∧
  ((r = Err ErrNotFound ∧ scan1 (by_order o) (db_reservations db) = None) ∨
   r = Err WalletErrConflict ∨
   ∃ rv w, r = Ok (rv, w) ∧ db_reservations db !! rv_ID rv = Some rv ∧ rv_OrderID rv = o ∧
     db_wallets db !! w_ID w = Some w ∧ w_Auth0Subject w = s ∧ rv_WalletID rv = w_ID w).
Proof using Hok.
  unfold lockReservation. intros Ha.
  destruct (GetReservationByOrder o false db) as [[rv db1]|e] eqn:Hg.
  2: { pose proof Hg as [-> Hn]%get_reservation_none.
       apply attempt_Ok in Ha as [(a & -> & Hb)|(e & -> & -> & Hb)].
       - by rewrite (bind_Err _ _ _ _ Hg) in Hb.
       - rewrite (bind_Err _ _ _ _ Hg) in Hb. simplify_eq. eauto. }
  pose proof Hg as (-> & Hr & Ho)%get_reservation.
  assert (db' = db ∧ (r = Err WalletErrConflict ∨
     ∃ w, r = Ok (rv, w) ∧ db_wallets db !! w_ID w = Some w ∧ w_Auth0Subject w = s ∧
          rv_WalletID rv = w_ID w)) as [-> [->|(w & -> & ? & ? & ?)]]; [|by eauto 10|by eauto 20].
  unfold attempt in Ha. rewrite (bind_run _ _ _ _ _ Hg) in Ha. subst o. unfold bind at 1 in Ha.
  rewrite (lock_one db (ok_wallets _ Hok)) in Ha.
  destruct (scan1 (by_subject s) _) as [[i w]|] eqn:Hs; simplify_eq/=; [|by auto].
  apply scan1_Some in Hs as [Hi Hs]. unfold by_subject in Hs. bool_props.
  destruct (wk_row _ (ok_wallets _ Hok) i w Hi) as (<- & _).
  rewrite (bind_run _ _ _ _ _ (get_reservation_some _ _ true Hr)) in Ha.
  case_bool_decide as Hne; simplify_eq/=; split; auto. right. exists w. auto.
Qed.

End reads.

(** ** Rebuilding the invariant *)

(** [r'] is [r] at a later time. *)
Definition continues (r r' : Reservation) : Prop :=
  rv_OrderID r' = rv_OrderID r ∧ rv_WalletID r' = rv_WalletID r ∧
  rv_LastAdjustSeq r ≤ rv_LastAdjustSeq r' ∧
  (rv_Status r = ReservationActive ∨ rv_Status r' = rv_Status r).

Lemma key_of_mono r r' k : continues r r' → key_of r k → key_of r' k.
Proof.
  intros (Ho & _ & Hq & Hst) Hk. destruct Hk; rewrite <- Ho; constructor; try lia; destruct Hst; congruence.
Qed.

Definition reservations_extend (db db' : DB) : Prop :=
  ∀ i r, db_reservations db !! i = Some r →
    ∃ r', db_reservations db' !! i = Some r' ∧ continues r r'.

Definition same_wallet_ids (db db' : DB) : Prop :=
  ∀ j, is_Some (db_wallets db' !! j) ↔ is_Some (db_wallets db !! j).

Lemma db_ok_build db db' es :
  db_ok db →
  wallets_ok (db_wallets db') → same_wallet_ids db db' → reservations_ok db' →
  db_ledger db' = db_ledger db ++ es →
  (∀ j, avail db' j - avail db j = led_av db' j - led_av db j) →
  (∀ j, resv db' j - resv db j = led_rv db' j - led_rv db j) →
  (∀ j, resv db' j - resv db j = held db' j - held db j) →
  reservations_extend db db' → Forall (entry_ok db') es →
  db_ok db'.
Proof.
  intros [_ _ Hav Hrv Hheld Hkeys] Hw Hids Hr Hl Ha Hb Hc Hext Hes.
  split; try done.
  - intros j. specialize (Ha j). rewrite Hav in Ha. lia.
  - intros j. specialize (Hb j). rewrite Hrv in Hb. lia.
  - intros j. specialize (Hc j). rewrite Hheld in Hc. lia.
  - intros e. rewrite Hl. intros [He|He]%elem_of_app; [|by eapply Forall_forall in Hes].
    destruct (Hkeys e He) as [Hx [Hk|(i & r & Hi & Hk)]].
    + split; [by apply Hids|by left].
    + destruct (Hext i r Hi) as (r' & Hi' & Hk'). split; [by apply Hids|]. right.
      eauto using key_of_mono.
Qed.

Lemma reservations_ok_update db db' i r r' :
  reservations_ok db → same_wallet_ids db db' → db_released db' = db_released db →
  db_reservations db !! i = Some r → db_reservations db' = <[i := r']> (db_reservations db) →
  rv_ID r' = rv_ID r → rv_WalletID r' = rv_WalletID r → rv_OrderID r' = rv_OrderID r →
  0 < rv_Amount r' ≤ max_int64 → 0 ≤ rv_LastAdjustSeq r' →
  reservations_ok db'.
Proof.
  intros [Hrow Hord] Hids Hrel Hi Htab Hid Hw Ho Ha Hq.
  assert (∀ j u, db_reservations db' !! j = Some u →
            ∃ u0, db_reservations db !! j = Some u0 ∧ rv_OrderID u = rv_OrderID u0) as Hback.
  { rewrite Htab. intros j u [[-> <-]|[? Hj]]%lookup_insert_Some; eauto. }
  split.
  - rewrite Htab, Hrel. intros j u [[-> <-]|[? Hj]]%lookup_insert_Some.
    + destruct (Hrow _ _ Hi) as (? & ? & ? & ? & ? & ?).
      rewrite Hid, Hw, Ho. split_and!; try done; [lia|lia|by apply Hids].
    + destruct (Hrow _ _ Hj) as (? & ? & ? & ? & ? & ?). split_and!; try done; [lia|lia|by apply Hids].
  - intros j k u v Hj Hk Heq.
    destruct (Hback _ _ Hj) as (u0 & ? & ?), (Hback _ _ Hk) as (v0 & ? & ?).
    eapply (Hord j k u0 v0); congruence.
Qed.

Lemma reservations_ok_new db db' i r :
  reservations_ok db → same_wallet_ids db db' → db_released db' = db_released db →
  db_reservations db !! i = None → db_reservations db' = <[i := r]> (db_reservations db) →
  scan1 (by_order (rv_OrderID r)) (db_reservations db) = None →
  rv_ID r = i → is_Some (db_wallets db !! rv_WalletID r) → String.length (rv_OrderID r) = 36%nat →
  rv_OrderID r ∉ db_released db → 0 < rv_Amount r ≤ max_int64 → 0 ≤ rv_LastAdjustSeq r →
  reservations_ok db'.
Proof.
  intros [Hrow Hord] Hids Hrel Hi Htab Hno Hid Hw Hlen Hnr Ha Hq.
  rewrite scan1_None in Hno.
  assert (∀ j u, db_reservations db !! j = Some u → rv_OrderID u ≠ rv_OrderID r) as Hne.
  { intros j u Hj. specialize (Hno _ _ Hj). unfold by_order in Hno. by bool_props. }
  split; rewrite Htab.
  - intros j u [[-> <-]|[? Hj]]%lookup_insert_Some; rewrite Hrel.
    + split_and!; try done; [lia|lia|by apply Hids].
    + destruct (Hrow _ _ Hj) as (? & ? & ? & ? & ? & ?). split_and!; try done; [lia|lia|by apply Hids].
  - intros j k u v [[-> <-]|[? Hj]]%lookup_insert_Some [[-> <-]|[? Hk]]%lookup_insert_Some Heq; try done.
    + by edestruct Hne.
    + by edestruct Hne.
    + eauto.
Qed.

(** The same reservations, up to one row whose history goes on. *)
Lemma extend_refl db db' : db_reservations db' = db_reservations db → reservations_extend db db'.
Proof. intros Heq i r Hi. rewrite Heq. exists r. split; [done|]. by split_and!; [| | |right]. Qed.

Lemma extend_update db db' i r r' :
  db_reservations db !! i = Some r → db_reservations db' = <[i := r']> (db_reservations db) →
  continues r r' → reservations_extend db db'.
Proof.
  intros Hi Heq Hk j u Hj. rewrite Heq. destruct (decide (i = j)) as [->|?].
  - exists r'. rewrite lookup_insert_eq. simplify_eq. auto.
  - exists u. rewrite lookup_insert_ne by done. split; [done|]. by split_and!; [| | |right].
Qed.

Lemma extend_new db db' i r' :
  db_reservations db !! i = None → db_reservations db' = <[i := r']> (db_reservations db) →
  reservations_extend db db'.
Proof.
  intros Hi Heq j u Hj. exists u. rewrite Heq, lookup_insert_ne by congruence.
  split; [done|]. by split_and!; [| | |right].
Qed.

(** Wallets keep their identity. *)
Definition same_identity (w w' : Wallet) : Prop :=
  w_ID w' = w_ID w ∧ w_OwnerID w' = w_OwnerID w ∧ w_Auth0Subject w' = w_Auth0Subject w.

Definition wallets_extend (db db' : DB) : Prop :=
  ∀ i w, db_wallets db !! i = Some w → ∃ w', db_wallets db' !! i = Some w' ∧ same_identity w w'.

Lemma wallets_extend_refl db db' : db_wallets db' = db_wallets db → wallets_extend db db'.
Proof. intros Heq i w Hi. rewrite Heq. by exists w. Qed.

Lemma wallets_extend_update db db' i w w' :
  db_wallets db !! i = Some w → db_wallets db' = <[i := w']> (db_wallets db) →
  same_identity w w' → wallets_extend db db'.
Proof.
  intros Hi Heq Hid j u Hj. rewrite Heq. destruct (decide (i = j)) as [->|?].
  - exists w'. rewrite lookup_insert_eq. split; [done|]. congruence.
  - exists u. by rewrite lookup_insert_ne.
Qed.

Lemma wallets_extend_trans db1 db2 db3 :
  wallets_extend db1 db2 → wallets_extend db2 db3 → wallets_extend db1 db3.
Proof.
  intros H12 H23 i w Hi. destruct (H12 i w Hi) as (w2 & Hi2 & ? & ? & ?).
  destruct (H23 i w2 Hi2) as (w3 & Hi3 & ? & ? & ?). exists w3. split; [done|].
  unfold same_identity. split_and!; congruence.
Qed.

(** A settled reservation is never touched again. *)
Definition settled_kept (db db' : DB) : Prop :=
  ∀ i r, db_reservations db !! i = Some r → rv_Status r ≠ ReservationActive →
    db_reservations db' !! i = Some r.

Lemma settled_update db db' i r r' :
  db_reservations db !! i = Some r → rv_Status r = ReservationActive →
  db_reservations db' = <[i := r']> (db_reservations db) → settled_kept db db'.
Proof.
  intros Hi Hst Heq j u Hj Hu. rewrite Heq, lookup_insert_ne; [done|]. intros ->. congruence.
Qed.

Lemma settled_new db db' i r' :
  db_reservations db !! i = None → db_reservations db' = <[i := r']> (db_reservations db) →
  settled_kept db db'.
Proof. intros Hi Heq j u Hj _. by rewrite Heq, lookup_insert_ne by congruence. Qed.

(** Credits move between the two balances of a wallet, or between wallets. *)
Lemma total_set_wallet db i w w' :
  db_wallets db !! i = Some w →
  total (set_wallets <[i := w']> db)
  = total db + (w_Available w' + w_Reserved w' - (w_Available w + w_Reserved w)).
Proof. intros Hw. unfold total. simpl. rewrite (msum_update _ _ _ w) by done. lia. Qed.

(** ** The commands *)

(** What any command does to the tables: the invariant and the number of
    credits are kept, the ledger only grows, and the message tables are left
    to [execute]. *)
Record sound_step (db db' : DB) : Prop := {
  ss_ok : db_ok db';
  ss_total : total db' = total db;
  ss_processed : db_processed db' = db_processed db;
  ss_outbox : db_outbox db' = db_outbox db;
  ss_ledger : db_ledger db `prefix_of` db_ledger db';
  ss_settled : settled_kept db db';
  ss_released : db_released db ⊆ db_released db';
  ss_size : size (db_wallets db') = size (db_wallets db);
  ss_extend : reservations_extend db db';
  ss_wallets : wallets_extend db db';
}.

Lemma sound_step_refl db : db_ok db → sound_step db db.
Proof.
  split; try done; [by intros ???|by apply extend_refl|by apply wallets_extend_refl].
Qed.

(** Split the deltas [when (i = j) x] of a goal on the wallet [j]. *)
Ltac solve_deltas :=
  intros; unfold when; repeat case_bool_decide; subst; simpl in *;
  try (rewrite bool_decide_true in * by done); try congruence; lia.

(** One wallet moves credits between its two balances with one ledger entry,
    and reservation [i] (new or old) absorbs the change. *)
Section one_wallet.
Context (env : TxEnv) (db : DB) (Hok : db_ok db).
Context (w : Wallet) (da dr : Z) (e : LedgerEntry).
Let w' := apply_deltas env da dr w.
Context (Hw : db_wallets db !! w_ID w = Some w).
Context (Hav : money (w_Available w')) (Hrv : money (w_Reserved w')) (Hsum : da + dr = 0).
Context (Hew : le_WalletID e = w_ID w) (Hea : le_AvailableDelta e = da) (Her : le_ReservedDelta e = dr).

Lemma one_wallet_step i r' (tab := <[i := r']> (db_reservations db)) :
  let db' := set_reservations (λ _, tab) (set_wallets <[w_ID w := w']> (add_ledger e db)) in
  reservations_ok db' → reservations_extend db db' → settled_kept db db' →
  (∀ j, held db' j = held db j + when (bool_decide (w_ID w = j)) dr) →
  key_of r' (le_IdempotencyKey e) →
  sound_step db db'.
Proof using All.
  intros db' Hr Hext Hset Hheld Hkey.
  assert (same_wallet_ids db db') as Hids by exact (wallets_dom_update _ _ w w' Hw).
  assert (∀ j, avail db' j = avail db j + when (bool_decide (w_ID w = j)) da) as Ha.
  { intros j. change (avail db' j) with (avail (set_wallets <[w_ID w := w']> db) j).
    rewrite (avail_set_wallet _ _ w) by done. unfold w'. simpl. solve_deltas. }
  assert (∀ j, resv db' j = resv db j + when (bool_decide (w_ID w = j)) dr) as Hb.
  { intros j. change (resv db' j) with (resv (set_wallets <[w_ID w := w']> db) j).
    rewrite (resv_set_wallet _ _ w) by done. unfold w'. simpl. solve_deltas. }
  split.
  - apply (db_ok_build db db' [e]); try done.
    + apply apply_deltas_wallets_ok; try done. apply Hok.
    + intros j. change (led_av db' j) with (led_av (add_ledger e db) j).
      rewrite Ha, led_av_add, Hew, Hea. lia.
    + intros j. change (led_rv db' j) with (led_rv (add_ledger e db) j).
      rewrite Hb, led_rv_add, Hew, Her. lia.
    + intros j. rewrite Hb, Hheld. lia.
    + apply Forall_singleton. split; [rewrite Hew; apply Hids; eauto|]. right.
      exists i, r'. split; [|done]. apply lookup_insert_eq.
  - change (total db') with (total (set_wallets <[w_ID w := w']> db)).
    rewrite (total_set_wallet _ _ w) by done. unfold w'. simpl. lia.
  - done.
  - done.
  - by eexists.
  - done.
  - done.
  - simpl. by rewrite map_size_insert_Some by eauto.
  - done.
  - by eapply (wallets_extend_update _ _ _ w w').
Qed.

End one_wallet.

Lemma money_in_int64 x : money x → in_int64 x.
Proof. unfold money, in_int64, min_int64. lia. Qed.

Lemma wrap64_neg x : money x → wrap64 (- x) = - x.
Proof.
  intros Hx. apply wrap64_id. unfold money, in_int64, min_int64, max_int64 in *. lia.
Qed.

Lemma wrap64_sub x y : money x → money y → wrap64 (x - y) = x - y.
Proof.
  intros Hx Hy. apply wrap64_id. unfold money, in_int64, min_int64, max_int64 in *. lia.
Qed.

(** What a reserve does: nothing, or it holds [amount] of the requester's
    available credits in a new reservation of the order. *)
Inductive reserve_effect (env : TxEnv) (o : string) (c : ReserveCommand) (db : DB) :
    Result → DB → Prop :=
| reserve_released : o ∈ db_released db →
    reserve_effect env o c db (mkResult ResultReservationRefused 0 0 CodeReservationReleased) db
| reserve_existing i r : db_reservations db !! i = Some r → rv_OrderID r = o →
    reserve_effect env o c db (mkResult ResultReserved (rv_Amount r) 0 "") db
| reserve_no_account : scan1 (by_subject (rc_RequesterSubject c)) (db_wallets db) = None →
    reserve_effect env o c db (mkResult ResultReservationRefused 0 0 CodeAccountNotFound) db
| reserve_insufficient w : db_wallets db !! w_ID w = Some w →
    w_Auth0Subject w = rc_RequesterSubject c → w_Available w < rc_Amount c →
    reserve_effect env o c db (mkResult ResultReservationRefused 0 0 CodeInsufficientCredits) db
| reserve_done w e : db_wallets db !! w_ID w = Some w →
    w_Auth0Subject w = rc_RequesterSubject c → rc_Amount c ≤ w_Available w →
    o ∉ db_released db → scan1 (by_order o) (db_reservations db) = None →
    db_reservations db !! tx_uuid env = None →
    e = numbered env db (ledger_entry (w_ID w) EntryReserve (- rc_Amount c) (rc_Amount c)
                           (Some o) None ("reserve:" +:+ o)) →
    money (w_Reserved w + rc_Amount c) →
    reserve_effect env o c db (mkResult ResultReserved (rc_Amount c) 0 "")
      (set_reservations <[tx_uuid env := new_reservation env (w_ID w) o (rc_Amount c)]>
         (set_wallets <[w_ID w := apply_deltas env (- rc_Amount c) (rc_Amount c) w]>
            (add_ledger e db))).

Lemma reserve_op_effect env o c db r db' :
  db_ok db → 0 < rc_Amount c ≤ max_int64 →
  reserve_op env o c db = Ok (r, db') → reserve_effect env o c db r db'.
Proof.
  intros Hok Ha Hrun. unfold reserve_op in Hrun. minv Hrun. inversion Hm; subst; clear Hm.
  case_bool_decide as Hrel; [by inversion Hrun; subst; constructor|].
  minv Hrun. apply (attempt_get_reservation _ Hok) in Hm as [-> [[-> Hno]|(rv & -> & Hrv & Hrvo)]].
  2: { inversion Hrun; subst. by eapply reserve_existing. }
  minv Hrun. apply (attempt_lock_one _ Hok) in Hm as [-> [[-> Hnow]|(w & -> & Hw & Hws)]].
  { inversion Hrun; subst. by constructor. }
  destruct (Z.ltb_spec (w_Available w) (rc_Amount c)).
  { inversion Hrun; subst. by econstructor. }
  rewrite wrap64_neg in Hrun by (unfold money; lia).
  minv Hrun. apply InsertLedgerEntry_Ok in Hm as (-> & -> & _ & _).
  minv Hrun. apply ApplyDeltas_Ok in Hm as (w1 & Hw1 & -> & -> & Hm1 & Hm2). simpl in Hw1.
  minv Hrun. apply CreateReservation_Ok in Hm as (-> & _ & Hfresh & _ & _ & ->).
  inversion Hrun; subst. rewrite Hw in Hw1. injection Hw1 as <-.
  by eapply reserve_done.
Qed.

Lemma reserve_effect_sound env o c db r db' :
  db_ok db → 0 < rc_Amount c ≤ max_int64 → String.length o = 36%nat →
  reserve_effect env o c db r db' → sound_step db db'.
Proof.
  intros Hok Ha Hlen Heff. destruct Heff as [| | | |w e Hw Hs Hle Hnr Hno Hf He Hrv];
    try by apply sound_step_refl.
  destruct (wk_row _ (ok_wallets _ Hok) _ _ Hw) as (_ & Hwa & Hwr).
  set (nr := new_reservation _ _ _ _).
  apply (one_wallet_step env db Hok w (- rc_Amount c) (rc_Amount c) e) with (r' := nr);
    try (subst e; done); simpl; unfold money in *; try lia.
  - eapply (reservations_ok_new db _ (tx_uuid env) nr); try done.
    + apply Hok.
    + exact (wallets_dom_update _ _ w _ Hw).
  - by eapply extend_new.
  - by eapply settled_new.
  - intros j. etrans; [apply (held_new db (tx_uuid env) nr j Hf)|].
    rewrite active_amount_when. unfold nr. simpl. solve_deltas.
  - subst e. apply (key_reserve nr).
Qed.

(** What an adjust does: nothing, or it sets the amount of the active
    reservation and moves the difference within the requester's wallet. *)
Inductive adjust_effect (env : TxEnv) (o : string) (c : AdjustCommand) (db : DB) :
    Result → DB → Prop :=
| adjust_missing : scan1 (by_order o) (db_reservations db) = None →
    adjust_effect env o c db (mkResult ResultAdjustRefused 0 (ac_Seq c) CodeReservationNotActive) db
| adjust_inactive i r : db_reservations db !! i = Some r → rv_OrderID r = o →
    rv_Status r ≠ ReservationActive →
    adjust_effect env o c db (mkResult ResultAdjustRefused 0 (ac_Seq c) CodeReservationNotActive) db
| adjust_stale i r : db_reservations db !! i = Some r → rv_OrderID r = o →
    rv_Status r = ReservationActive → ac_Seq c ≤ rv_LastAdjustSeq r →
    adjust_effect env o c db (mkResult ResultAdjusted (rv_Amount r) (ac_Seq c) "") db
| adjust_insufficient r w : db_reservations db !! rv_ID r = Some r → rv_OrderID r = o →
    rv_Status r = ReservationActive → rv_LastAdjustSeq r < ac_Seq c →
    db_wallets db !! w_ID w = Some w → rv_WalletID r = w_ID w →
    w_Available w < ac_NewAmount c - rv_Amount r →
    adjust_effect env o c db (mkResult ResultAdjustRefused 0 (ac_Seq c) CodeInsufficientCredits) db
| adjust_same r : db_reservations db !! rv_ID r = Some r → rv_OrderID r = o →
    rv_Status r = ReservationActive → rv_LastAdjustSeq r < ac_Seq c →
    ac_NewAmount c = rv_Amount r →
    adjust_effect env o c db (mkResult ResultAdjusted (ac_NewAmount c) (ac_Seq c) "")
      (set_reservations <[rv_ID r := set_amount_seq env (ac_NewAmount c) (ac_Seq c) r]> db)
| adjust_done r w e : db_reservations db !! rv_ID r = Some r → rv_OrderID r = o →
    rv_Status r = ReservationActive → rv_LastAdjustSeq r < ac_Seq c →
    db_wallets db !! w_ID w = Some w → rv_WalletID r = w_ID w →
    ac_NewAmount c - rv_Amount r ≤ w_Available w →
    e = numbered env db
          (ledger_entry (w_ID w) EntryReservationAdjust (- (ac_NewAmount c - rv_Amount r))
             (ac_NewAmount c - rv_Amount r) (Some o) None
             ("adjust:" +:+ o +:+ ":" +:+ itoa (ac_Seq c))) →
    money (w_Available w - (ac_NewAmount c - rv_Amount r)) →
    money (w_Reserved w + (ac_NewAmount c - rv_Amount r)) →
    adjust_effect env o c db (mkResult ResultAdjusted (ac_NewAmount c) (ac_Seq c) "")
      (set_reservations <[rv_ID r := set_amount_seq env (ac_NewAmount c) (ac_Seq c) r]>
         (set_wallets <[w_ID w := apply_deltas env (- (ac_NewAmount c - rv_Amount r))
                                    (ac_NewAmount c - rv_Amount r) w]>
            (add_ledger e db))).

Lemma adjust_op_effect env o c db r db' :
  db_ok db → 0 < ac_NewAmount c ≤ max_int64 →
  adjust_op env o c db = Ok (r, db') → adjust_effect env o c db r db'.
Proof.
  intros Hok Ha Hrun. unfold adjust_op in Hrun. minv Hrun.
  apply (attempt_lockReservation _ Hok) in Hm
    as [-> [[-> Hno]|[->|(rv & w & -> & Hrv & Ho & Hw & Hs & Hrw)]]]; [|done|].
  { inversion Hrun; subst. by constructor. }
  case_bool_decide as Hst; [by inversion Hrun; subst; eapply adjust_inactive|].
  destruct (Z.leb_spec (ac_Seq c) (rv_LastAdjustSeq rv)).
  { inversion Hrun; subst. by eapply adjust_stale. }
  destruct (rk_row _ (ok_reservations _ Hok) _ _ Hrv) as (_ & Hamt & _).
  rewrite wrap64_sub in Hrun by (unfold money; lia).
  set (d := ac_NewAmount c - rv_Amount rv) in *.
  destruct (Z.ltb_spec (w_Available w) d).
  { inversion Hrun; subst. by eapply adjust_insufficient. }
  minv Hrun. minv Hrun. apply sql_update_reservation_Ok in Hm0 as (r1 & Hr1 & -> & _ & ->).
  inversion Hrun; subst; clear Hrun. destruct (Z.eqb_spec d 0) as [Hd|Hd]; simpl in Hm.
  { inversion Hm; subst. rewrite Hrv in Hr1. injection Hr1 as <-. eapply adjust_same; try done. lia. }
  rewrite wrap64_id in Hm by (unfold in_int64, min_int64, max_int64 in *; lia).
  minv Hm. apply InsertLedgerEntry_Ok in Hm0 as (-> & -> & _ & _).
  minv Hm. apply ApplyDeltas_Ok in Hm0 as (w1 & Hw1 & -> & -> & Hm1 & Hm2). inversion Hm; subst.
  simpl in Hw1, Hr1, Hm1, Hm2. rewrite Hw in Hw1. injection Hw1 as <-.
  rewrite Hrv in Hr1. injection Hr1 as <-.
  eapply adjust_done; try done.
Qed.

Lemma adjust_effect_sound env o c db r db' :
  db_ok db → 0 < ac_NewAmount c ≤ max_int64 →
  adjust_effect env o c db r db' → sound_step db db'.
Proof.
  intros Hok Ha Heff.
  destruct Heff as [| | | |rv Hrv Ho Hst Hq Hamt|rv w e Hrv Ho Hst Hq Hw Hrw Hle He Hm1 Hm2];
    try by apply sound_step_refl.
  - set (rv' := set_amount_seq env (ac_NewAmount c) (ac_Seq c) rv).
    destruct (rk_row _ (ok_reservations _ Hok) _ _ Hrv) as (_ & Hra & Hrq & _).
    set (db' := set_reservations <[rv_ID rv := rv']> db).
    assert (∀ j, held db' j = held db j) as Hheld.
    { intros j. unfold db'. rewrite (held_update db (rv_ID rv) rv rv' j Hrv).
      rewrite !active_amount_when. unfold rv'. simpl. rewrite Hamt. lia. }
    assert (reservations_extend db db') as Hext.
    { eapply (extend_update _ _ _ rv rv'); try done. split_and!; simpl; [done|done|lia|auto]. }
    split; try done; [|by eapply settled_update|by apply wallets_extend_refl].
    apply (db_ok_build db db' []); try done.
    + apply Hok.
    + eapply (reservations_ok_update db _ _ rv rv'); try done; [apply Hok|simpl; lia].
    + simpl. by rewrite app_nil_r.
    + intros j. change (led_av db' j) with (led_av db j). change (avail db' j) with (avail db j). lia.
    + intros j. change (led_rv db' j) with (led_rv db j). change (resv db' j) with (resv db j). lia.
    + intros j. rewrite Hheld. change (resv db' j) with (resv db j). lia.
  - set (rv' := set_amount_seq env (ac_NewAmount c) (ac_Seq c) rv).
    set (d := ac_NewAmount c - rv_Amount rv) in *.
    destruct (rk_row _ (ok_reservations _ Hok) _ _ Hrv) as (_ & Hra & Hrq & _).
    apply (one_wallet_step env db Hok w (- d) d e) with (r' := rv'); try (subst e; done);
      simpl; try (unfold money in *; lia).
    + eapply (reservations_ok_update db _ _ rv rv'); try done; [apply Hok| |simpl; lia].
      exact (wallets_dom_update _ _ w _ Hw).
    + eapply (extend_update _ _ _ rv rv'); try done. split_and!; simpl; [done|done|lia|auto].
    + by eapply settled_update.
    + intros j. etrans; [apply (held_update db (rv_ID rv) rv rv' j Hrv)|].
      rewrite !active_amount_when. unfold rv'. simpl. rewrite Hst, Hrw. unfold d. solve_deltas.
    + subst e. simpl. rewrite <- Ho. apply (key_adjust rv'). simpl. lia.
Qed.

(** What a release does: a tombstone for an order without a reservation,
    nothing for a settled one, or the whole reservation back to available. *)
Inductive release_effect (env : TxEnv) (o : string) (c : ReleaseCommand) (db : DB) :
    Result → DB → Prop :=
| release_tombstone : scan1 (by_order o) (db_reservations db) = None →
    release_effect env o c db (mkResult ResultReleased 0 0 "") (add_released o db)
| release_again i r : db_reservations db !! i = Some r → rv_OrderID r = o →
    rv_Status r = ReservationReleased →
    release_effect env o c db (mkResult ResultReleased 0 0 "") db
| release_transferred i r : db_reservations db !! i = Some r → rv_OrderID r = o →
    rv_Status r = ReservationTransferred →
    release_effect env o c db
      (mkResult ResultOperationFailed 0 0 CodeReservationAlreadyTransferred) db
| release_done r w e : db_reservations db !! rv_ID r = Some r → rv_OrderID r = o →
    rv_Status r = ReservationActive →
    db_wallets db !! w_ID w = Some w → rv_WalletID r = w_ID w →
    e = numbered env db
          (ledger_entry (w_ID w) EntryRelease (rv_Amount r) (- rv_Amount r) (Some o) None
             ("release:" +:+ o)) →
    money (w_Available w + rv_Amount r) → money (w_Reserved w - rv_Amount r) →
    release_effect env o c db (mkResult ResultReleased 0 0 "")
      (set_reservations <[rv_ID r := set_amount_status env (rv_Amount r) ReservationReleased r]>
         (set_wallets <[w_ID w := apply_deltas env (rv_Amount r) (- rv_Amount r) w]>
            (add_ledger e db))).

Lemma release_op_effect env o c db r db' :
  db_ok db → release_op env o c db = Ok (r, db') → release_effect env o c db r db'.
Proof.
  intros Hok Hrun. unfold release_op in Hrun. minv Hrun.
  apply (attempt_lockReservation _ Hok) in Hm
    as [-> [[-> Hno]|[->|(rv & w & -> & Hrv & Ho & Hw & Hs & Hrw)]]]; [|done|].
  { inversion Hrun; subst. by constructor. }
  destruct (rk_row _ (ok_reservations _ Hok) _ _ Hrv) as (_ & Hamt & _).
  destruct (rv_Status rv) eqn:Hst.
  2: { inversion Hrun; subst. by eapply release_again. }
  2: { inversion Hrun; subst. by eapply release_transferred. }
  rewrite wrap64_neg in Hrun by (unfold money; lia).
  minv Hrun. apply InsertLedgerEntry_Ok in Hm as (-> & -> & _ & _).
  minv Hrun. apply ApplyDeltas_Ok in Hm as (w1 & Hw1 & -> & -> & Hm1 & Hm2).
  minv Hrun. apply sql_update_reservation_Ok in Hm as (r1 & Hr1 & -> & _ & ->).
  inversion Hrun; subst; clear Hrun. simpl in Hw1, Hr1, Hm1, Hm2.
  rewrite Hw in Hw1. injection Hw1 as <-. rewrite Hrv in Hr1. injection Hr1 as <-.
  by eapply release_done.
Qed.

Lemma add_released_ok db o :
  db_ok db → scan1 (by_order o) (db_reservations db) = None → db_ok (add_released o db).
Proof.
  intros [Hw [Hrow Hord] ????] Hno. rewrite scan1_None in Hno. split; try done. split; [|done].
  intros i r Hi. destruct (Hrow i r Hi) as (? & ? & ? & ? & ? & ?). split_and!; try done; try lia.
  simpl. specialize (Hno i r Hi). unfold by_order in Hno. bool_props. set_solver.
Qed.

Lemma release_effect_sound env o c db r db' :
  db_ok db → release_effect env o c db r db' → sound_step db db'.
Proof.
  intros Hok Heff. destruct Heff as [Hno| | |rv w e Hrv Ho Hst Hw Hrw He Hm1 Hm2];
    try by apply sound_step_refl.
  { split; [by apply add_released_ok|done|done|done|done|by intros ???|apply union_subseteq_r|done|
      by apply extend_refl|by apply wallets_extend_refl]. }
  set (rv' := set_amount_status env (rv_Amount rv) ReservationReleased rv).
  destruct (rk_row _ (ok_reservations _ Hok) _ _ Hrv) as (_ & Hra & Hrq & _).
  apply (one_wallet_step env db Hok w (rv_Amount rv) (- rv_Amount rv) e) with (r' := rv');
    try (subst e; done); simpl; try (unfold money in *; lia).
  - eapply (reservations_ok_update db _ _ rv rv'); try done; [apply Hok|].
    exact (wallets_dom_update _ _ w _ Hw).
  - eapply (extend_update _ _ _ rv rv'); try done. split_and!; simpl; [done|done|lia|auto].
  - by eapply settled_update.
  - intros j. etrans; [apply (held_update db (rv_ID rv) rv rv' j Hrv)|].
    rewrite !active_amount_when. unfold rv'. simpl. rewrite Hst, Hrw. solve_deltas.
  - subst e. simpl. rewrite <- Ho. by apply (key_release rv').
Qed.

(** The ledger entries of a transfer: out of the requester's wallet, into the
    courier's, and the surplus of the reservation back. *)
Definition transfer_ledger (env : TxEnv) (o : string) (amount : Z) (rv : Reservation)
    (req cour : Wallet) (db : DB) : DB :=
  let from := Z.min (rv_Amount rv) amount in
  let db1 := add_ledger (numbered env db
               (ledger_entry (w_ID req) EntryTransferOut (- (amount - from)) (- from)
                  (Some o) (Some (w_ID cour)) ("transfer:" +:+ o))) db in
  let db2 := add_ledger (numbered env db1
               (ledger_entry (w_ID cour) EntryTransferIn amount 0
                  (Some o) (Some (w_ID req)) ("transfer:" +:+ o))) db1 in
  if 0 <? rv_Amount rv - from then
    add_ledger (numbered env db2
      (ledger_entry (w_ID req) EntryRelease (rv_Amount rv - from) (- (rv_Amount rv - from))
         (Some o) None ("transfer-surplus:" +:+ o))) db2
  else db2.

(** What a transfer does: nothing, or it pays the courier out of the
    reservation first and settles the difference with the requester. *)
Inductive transfer_effect (env : TxEnv) (o : string) (c : TransferCommand) (db : DB) :
    Result → DB → Prop :=
| transfer_missing : scan1 (by_order o) (db_reservations db) = None → o ∉ db_released db →
    transfer_effect env o c db (mkResult ResultOperationFailed 0 0 CodeReservationNotFound) db
| transfer_tombstone : o ∈ db_released db →
    transfer_effect env o c db
      (mkResult ResultOperationFailed 0 0 CodeReservationAlreadyReleased) db
| transfer_no_account :
    transfer_effect env o c db (mkResult ResultOperationFailed 0 0 CodeAccountNotFound) db
| transfer_again i r : db_reservations db !! i = Some r → rv_OrderID r = o →
    rv_Status r = ReservationTransferred →
    transfer_effect env o c db (mkResult ResultTransferred 0 0 "") db
| transfer_released i r : db_reservations db !! i = Some r → rv_OrderID r = o →
    rv_Status r = ReservationReleased →
    transfer_effect env o c db
      (mkResult ResultOperationFailed 0 0 CodeReservationAlreadyReleased) db
| transfer_insufficient r w : db_reservations db !! rv_ID r = Some r → rv_OrderID r = o →
    rv_Status r = ReservationActive →
    db_wallets db !! w_ID w = Some w → rv_WalletID r = w_ID w →
    w_Available w < tc_Amount c - rv_Amount r →
    transfer_effect env o c db (mkResult ResultOperationFailed 0 0 CodeInsufficientCredits) db
| transfer_done r req cour : db_reservations db !! rv_ID r = Some r → rv_OrderID r = o →
    rv_Status r = ReservationActive →
    db_wallets db !! w_ID req = Some req → rv_WalletID r = w_ID req →
    db_wallets db !! w_ID cour = Some cour → w_ID cour ≠ w_ID req →
    w_Auth0Subject req = tc_RequesterSubject c → w_Auth0Subject cour = tc_CourierSubject c →
    tc_Amount c - rv_Amount r ≤ w_Available req →
    money (w_Available req + (rv_Amount r - tc_Amount c)) → money (w_Reserved req - rv_Amount r) →
    money (w_Available cour + tc_Amount c) →
    transfer_effect env o c db (mkResult ResultTransferred 0 0 "")
      (set_reservations <[rv_ID r := set_amount_status env (rv_Amount r) ReservationTransferred r]>
         (set_wallets <[w_ID cour := apply_deltas env (tc_Amount c) 0 cour]>
            (set_wallets
               <[w_ID req := apply_deltas env (rv_Amount r - tc_Amount c) (- rv_Amount r) req]>
               (transfer_ledger env o (tc_Amount c) r req cour db)))).

Lemma transfer_ledger_frame env o a rv req cour db (db' := transfer_ledger env o a rv req cour db) :
  db_wallets db' = db_wallets db ∧ db_reservations db' = db_reservations db ∧
  db_processed db' = db_processed db ∧ db_released db' = db_released db ∧
  db_outbox db' = db_outbox db.
Proof. unfold db', transfer_ledger. by destruct (0 <? _). Qed.

Lemma transfer_apply_effect env o c rv req cour db r db' :
  db_ok db → 0 < tc_Amount c ≤ max_int64 →
  db_reservations db !! rv_ID rv = Some rv → rv_OrderID rv = o →
  rv_Status rv = ReservationActive →
  db_wallets db !! w_ID req = Some req → rv_WalletID rv = w_ID req →
  db_wallets db !! w_ID cour = Some cour → w_ID cour ≠ w_ID req →
  w_Auth0Subject req = tc_RequesterSubject c → w_Auth0Subject cour = tc_CourierSubject c →
  transfer_apply env o c rv req cour db = Ok (r, db') → transfer_effect env o c db r db'.
Proof.
  intros Hok Ha Hrv Ho Hst Hreq Hrw Hcour Hne Hrs Hcs Hrun.
  destruct (rk_row _ (ok_reservations _ Hok) _ _ Hrv) as (_ & Hamt & _).
  unfold transfer_apply in Hrun. set (from := Z.min (rv_Amount rv) (tc_Amount c)) in *.
  assert (0 < from ≤ max_int64) as Hfrom by lia.
  rewrite (wrap64_sub (tc_Amount c) from) in Hrun by (unfold money; lia).
  rewrite (wrap64_sub (rv_Amount rv) from) in Hrun by (unfold money; lia).
  destruct (Z.ltb_spec (w_Available req) (tc_Amount c - from)).
  { inversion Hrun; subst. apply transfer_insufficient with rv req; try done.
    destruct (wk_row _ (ok_wallets _ Hok) _ _ Hreq) as (_ & Hwa & _). unfold money in Hwa. lia. }
  rewrite (wrap64_neg (tc_Amount c - from)), (wrap64_neg from), (wrap64_neg (rv_Amount rv - from)),
    (wrap64_neg (rv_Amount rv)) in Hrun by (unfold money; lia).
  rewrite (wrap64_sub (rv_Amount rv - from) (tc_Amount c - from)) in Hrun by (unfold money; lia).
  replace (rv_Amount rv - from - (tc_Amount c - from)) with (rv_Amount rv - tc_Amount c) in Hrun by lia.
  minv Hrun. apply InsertLedgerEntry_Ok in Hm as (-> & -> & _ & _).
  minv Hrun. apply InsertLedgerEntry_Ok in Hm as (-> & -> & _ & _).
  minv Hrun.
  assert (s = transfer_ledger env o (tc_Amount c) rv req cour db) as ->.
  { unfold transfer_ledger. fold from. destruct (0 <? _); [|by inversion Hm].
    minv Hm. apply InsertLedgerEntry_Ok in Hm0 as (-> & -> & _ & _). by inversion Hm. }
  clear Hm. destruct (transfer_ledger_frame env o (tc_Amount c) rv req cour db) as (Hfw & Hfr & _).
  minv Hrun. apply ApplyDeltas_Ok in Hm as (w1 & Hw1 & -> & -> & Hm1 & Hm2).
  rewrite Hfw, Hreq in Hw1. injection Hw1 as <-.
  minv Hrun. apply ApplyDeltas_Ok in Hm as (w2 & Hw2 & -> & -> & Hm3 & Hm4).
  simpl in Hw2. rewrite Hfw, lookup_insert_ne, Hcour in Hw2 by done. injection Hw2 as <-.
  minv Hrun. apply sql_update_reservation_Ok in Hm as (r1 & Hr1 & -> & _ & ->).
  simpl in Hr1. rewrite Hfr, Hrv in Hr1. injection Hr1 as <-.
  inversion Hrun; subst. apply transfer_done; try done. lia.
Qed.

Lemma transfer_op_effect env o c db r db' :
  db_ok db → 0 < tc_Amount c ≤ max_int64 → tc_RequesterSubject c ≠ tc_CourierSubject c →
  transfer_op env o c db = Ok (r, db') → transfer_effect env o c db r db'.
Proof.
  intros Hok Ha Hne Hrun. unfold transfer_op in Hrun. minv Hrun.
  apply (attempt_get_reservation _ Hok) in Hm as [-> [[-> Hno]|(rv & -> & Hrv & Ho)]].
  { minv Hrun. inversion Hm; subst. case_bool_decide; inversion Hrun; subst; by constructor. }
  minv Hrun. apply attempt_Ok in Hm as [(l & -> & Hl)|(e & -> & -> & Hl)].
  2: { unfold LockWalletsByAuth0Subject in Hl. case_bool_decide; simplify_eq.
       inversion Hrun; subst. by constructor. }
  destruct (lock_two_Ok _ (ok_wallets _ Hok) _ _ _ _ Hne Hl)
    as (-> & req & cour & Hreq & Hcour & Hrs & Hcs & Hpick).
  rewrite Hpick in Hrun. case_bool_decide as Hrw; [done|]. subst o.
  minv Hrun. rewrite (get_reservation_some _ Hok _ _ true Hrv) in Hm.
  inversion Hm; subst; clear Hm.
  destruct (rv_Status a) eqn:Hst.
  - apply (transfer_apply_effect env _ c a req cour); try done. intros Heq. rewrite Heq in Hcour. congruence.
  - inversion Hrun; subst. by eapply transfer_released.
  - inversion Hrun; subst. by eapply transfer_again.
Qed.

(** The tables after a completed transfer, and how each balance moved. *)
Section transfer_step.
Context (env : TxEnv) (o : string) (amount : Z) (rv : Reservation) (req cour : Wallet) (db : DB).
Context (Hok : db_ok db) (Ha : 0 < amount ≤ max_int64).
Context (Hrv : db_reservations db !! rv_ID rv = Some rv) (Ho : rv_OrderID rv = o)
  (Hst : rv_Status rv = ReservationActive).
Context (Hreq : db_wallets db !! w_ID req = Some req) (Hrw : rv_WalletID rv = w_ID req)
  (Hcour : db_wallets db !! w_ID cour = Some cour) (Hne : w_ID cour ≠ w_ID req).
Context (Hm1 : money (w_Available req + (rv_Amount rv - amount)))
  (Hm2 : money (w_Reserved req - rv_Amount rv)) (Hm3 : money (w_Available cour + amount)).
Let rv' := set_amount_status env (rv_Amount rv) ReservationTransferred rv.
Let req' := apply_deltas env (rv_Amount rv - amount) (- rv_Amount rv) req.
Let cour' := apply_deltas env amount 0 cour.
Let dbw := set_wallets <[w_ID cour := cour']> (set_wallets <[w_ID req := req']> db).
Let db' := set_reservations <[rv_ID rv := rv']>
  (set_wallets <[w_ID cour := cour']> (set_wallets <[w_ID req := req']>
     (transfer_ledger env o amount rv req cour db))).

Lemma transfer_wallets : db_wallets db' = db_wallets dbw.
Proof. simpl. by rewrite (proj1 (transfer_ledger_frame env o amount rv req cour db)). Qed.

Lemma transfer_reservations : db_reservations db' = <[rv_ID rv := rv']> (db_reservations db).
Proof. simpl. by rewrite (proj1 (proj2 (transfer_ledger_frame env o amount rv req cour db))). Qed.

Lemma transfer_courier : db_wallets (set_wallets <[w_ID req := req']> db) !! w_ID cour = Some cour.
Proof using Hcour Hne. simpl. by rewrite lookup_insert_ne. Qed.

Lemma transfer_same_ids : same_wallet_ids db db'.
Proof using Hcour Hne Hreq.
  intros j. rewrite transfer_wallets. unfold dbw. simpl.
  rewrite (wallets_dom_update _ _ _ cour' transfer_courier j).
  by apply (wallets_dom_update _ _ _ req' Hreq).
Qed.

Lemma transfer_size : size (db_wallets db') = size (db_wallets db).
Proof using Hcour Hne Hreq.
  rewrite transfer_wallets. unfold dbw. simpl.
  rewrite map_size_insert_Some by (eexists; exact transfer_courier).
  by rewrite map_size_insert_Some by eauto.
Qed.

Lemma transfer_avail j :
  avail db' j = avail db j + when (bool_decide (w_ID req = j)) (rv_Amount rv - amount)
                + when (bool_decide (w_ID cour = j)) amount.
Proof using Hcour Hne Ho Hreq.
  unfold avail at 1. rewrite transfer_wallets. fold (avail dbw j). unfold dbw.
  rewrite (avail_set_wallet _ _ cour), (avail_set_wallet _ _ req) by (exact transfer_courier || done).
  unfold cour', req'. simpl. solve_deltas.
Qed.

Lemma transfer_resv j :
  resv db' j = resv db j + when (bool_decide (w_ID req = j)) (- rv_Amount rv).
Proof using Hcour Hne Ho Hreq.
  unfold resv at 1. rewrite transfer_wallets. fold (resv dbw j). unfold dbw.
  rewrite (resv_set_wallet _ _ cour), (resv_set_wallet _ _ req) by (exact transfer_courier || done).
  unfold cour', req'. simpl. solve_deltas.
Qed.

Lemma transfer_held j :
  held db' j = held db j + when (bool_decide (w_ID req = j)) (- rv_Amount rv).
Proof using Ho Hrv Hrw Hst.
  unfold held at 1. rewrite transfer_reservations.
  etrans; [apply (held_update db (rv_ID rv) rv rv' j Hrv)|].
  rewrite !active_amount_when. unfold rv'. simpl. rewrite Hst, Hrw. solve_deltas.
Qed.

Lemma transfer_entries : ∃ es, db_ledger db' = db_ledger db ++ es ∧ Forall (entry_ok db') es.
Proof using Hcour Hne Hreq Ho.
  assert (∀ e, (le_WalletID e = w_ID req ∨ le_WalletID e = w_ID cour) →
               key_of rv' (le_IdempotencyKey e) → entry_ok db' e) as Hentry.
  { intros e Hew Hek. split.
    - apply transfer_same_ids. destruct Hew as [-> | ->]; eauto.
    - right. exists (rv_ID rv), rv'. split; [|done]. rewrite transfer_reservations. apply lookup_insert_eq. }
  assert (key_of rv' ("transfer:" +:+ rv_OrderID rv)) by by apply (key_transfer rv').
  assert (key_of rv' ("transfer-surplus:" +:+ rv_OrderID rv)) by by apply (key_surplus rv').
  unfold db' at 1. simpl. unfold transfer_ledger. rewrite <- Ho.
  destruct (0 <? _); simpl; rewrite <- ?app_assoc; simpl; eexists; (split; [done|]);
    repeat (constructor; [apply Hentry; simpl; auto|]); constructor.
Qed.

Lemma transfer_led_av j :
  led_av db' j = led_av db j + when (bool_decide (w_ID req = j)) (rv_Amount rv - amount)
                 + when (bool_decide (w_ID cour = j)) amount.
Proof using Hne Ho.
  unfold led_av at 1, db'. simpl. unfold transfer_ledger.
  destruct (Z.ltb_spec 0 (rv_Amount rv - Z.min (rv_Amount rv) amount)); simpl;
    rewrite !fmap_app, !sumZ_app; simpl; fold (led_av db j); unfold at_wallet; simpl; solve_deltas.
Qed.

Lemma transfer_led_rv j :
  led_rv db' j = led_rv db j + when (bool_decide (w_ID req = j)) (- rv_Amount rv).
Proof using Hne Ho.
  unfold led_rv at 1, db'. simpl. unfold transfer_ledger.
  destruct (Z.ltb_spec 0 (rv_Amount rv - Z.min (rv_Amount rv) amount)); simpl;
    rewrite !fmap_app, !sumZ_app; simpl; fold (led_rv db j); unfold at_wallet; simpl; solve_deltas.
Qed.

Lemma transfer_wallets_ok : wallets_ok (db_wallets db').
Proof using Hok Hcour Hne Hreq Hm1 Hm2 Hm3.
  destruct (wk_row _ (ok_wallets _ Hok) _ _ Hcour) as (_ & _ & Hcr).
  rewrite transfer_wallets. unfold dbw. simpl.
  eapply apply_deltas_wallets_ok; [|exact transfer_courier|done|].
  - eapply apply_deltas_wallets_ok; [apply Hok|done|done|done].
  - simpl. replace (w_Reserved cour + 0) with (w_Reserved cour) by lia. done.
Qed.

Lemma transfer_total : total db' = total db.
Proof using Hcour Hne Ho Hreq.
  unfold total at 1. rewrite transfer_wallets. fold (total dbw). unfold dbw.
  rewrite (total_set_wallet _ _ cour), (total_set_wallet _ _ req) by (exact transfer_courier || done).
  unfold cour', req'. simpl. lia.
Qed.

Lemma transfer_sound : sound_step db db'.
Proof using All.
  destruct (rk_row _ (ok_reservations _ Hok) _ _ Hrv) as (_ & Hra & Hrq & _).
  destruct (transfer_ledger_frame env o amount rv req cour db) as (_ & _ & Hfp & Hfl & Hfo).
  destruct transfer_entries as (es & Hes & Hentries).
  assert (reservations_extend db db') as Hext.
  { eapply (extend_update _ _ _ rv rv' Hrv transfer_reservations).
    split_and!; simpl; [done|done|lia|auto]. }
  split.
  - apply (db_ok_build db db' es); try done.
    + exact transfer_wallets_ok.
    + exact transfer_same_ids.
    + by eapply (reservations_ok_update db _ _ rv rv' (ok_reservations _ Hok) transfer_same_ids
                   Hfl Hrv transfer_reservations).
    + intros j. rewrite transfer_avail, transfer_led_av. lia.
    + intros j. rewrite transfer_resv, transfer_led_rv. lia.
    + intros j. rewrite transfer_resv, transfer_held. lia.
  - exact transfer_total.
  - done.
  - done.
  - rewrite Hes. by eexists.
  - by eapply (settled_update _ _ _ _ _ Hrv Hst transfer_reservations).
  - simpl. by rewrite Hfl.
  - exact transfer_size.
  - exact Hext.
  - eapply (wallets_extend_trans _ (set_wallets <[w_ID req := req']> db)).
    + by eapply (wallets_extend_update _ _ _ req req').
    + by eapply (wallets_extend_update _ _ _ cour cour' transfer_courier transfer_wallets).
Qed.

End transfer_step.

Lemma transfer_effect_sound env o c db r db' :
  db_ok db → 0 < tc_Amount c ≤ max_int64 →
  transfer_effect env o c db r db' → sound_step db db'.
Proof.
  intros Hok Ha Heff. destruct Heff; try by apply sound_step_refl.
  by apply transfer_sound.
Qed.
