(* ===== verification/WalletSystem.v ===== *)
(** * credit-service: the wallet service as a transition system

    Wallet creation and the four commands as steps on the database, run
    through [execute]; reachable states satisfy [db_ok], and the properties of
    the use cases follow from it. *)

From S2P Require Import Prelude GoText Json WalletRepo Wallet WalletInv WalletSafe.

(** ** The commands as one type *)

Inductive Command :=
| CReserve (c : ReserveCommand)
| CAdjust (c : AdjustCommand)
| CRelease (c : ReleaseCommand)
| CTransfer (c : TransferCommand).

Definition run_command (s : Service) (env : TxEnv) (messageID : string) (c : Command) (db : DB) :
    res GoError Result * DB :=
  match c with
  | CReserve c => Reserve s env messageID c db
  | CAdjust c => Adjust s env messageID c db
  | CRelease c => Release s env messageID c db
  | CTransfer c => Transfer s env messageID c db
  end.

Definition command_order (c : Command) : string :=
  match c with
  | CReserve c => rc_OrderID c
  | CAdjust c => ac_OrderID c
  | CRelease c => lc_OrderID c
  | CTransfer c => tc_OrderID c
  end.

Definition command_version (c : Command) : Z :=
  match c with
  | CReserve c => rc_ErrandVersion c
  | CAdjust c => ac_ErrandVersion c
  | CRelease c => lc_ErrandVersion c
  | CTransfer c => tc_ErrandVersion c
  end.

Definition command_op (env : TxEnv) (o : string) (c : Command) : Op Result :=
  match c with
  | CReserve c => reserve_op env o c
  | CAdjust c => adjust_op env o c
  | CRelease c => release_op env o c
  | CTransfer c => transfer_op env o c
  end.

(** The validations before the transaction. *)
Definition command_valid (c : Command) : bool :=
  let subject_ok s := match validateSubject s with Ok _ => true | Err _ => false end in
  uuid_pattern (command_order c) &&
  match c with
  | CReserve c => subject_ok (rc_RequesterSubject c) && (0 <? rc_Amount c)
  | CAdjust c => subject_ok (ac_RequesterSubject c) && (0 <? ac_NewAmount c) && (0 <? ac_Seq c)
  | CRelease c => subject_ok (lc_RequesterSubject c)
  | CTransfer c => subject_ok (tc_RequesterSubject c) && subject_ok (tc_CourierSubject c) &&
      negb (bool_decide (tc_CourierSubject c = tc_RequesterSubject c)) && (0 <? tc_Amount c)
  end.

(** The integer fields are Go [int64] values. *)
Definition command_in_range (c : Command) : Prop :=
  match c with
  | CReserve c => in_int64 (rc_Amount c)
  | CAdjust c => in_int64 (ac_NewAmount c) ∧ in_int64 (ac_Seq c)
  | CRelease _ => True
  | CTransfer c => in_int64 (tc_Amount c)
  end.

(** A command is either refused before any database work, or it is [execute]
    applied to its operation. *)
Lemma run_command_cases s env mid c db :
  (command_valid c = false ∧ ∃ m, run_command s env mid c db = (Err (WalletErrInvalid m), db)) ∨
  (command_valid c = true ∧
   run_command s env mid c db =
   execute s mid (mkReply "" (to_lower (command_order c)) (command_version c))
     (command_op env (to_lower (command_order c)) c) db).
Proof.
  assert (∀ x, (∃ m, validateSubject x = Err (WalletErrInvalid m)) ∨ validateSubject x = Ok tt) as Hsub.
  { intros x. unfold validateSubject, invalid. repeat case_match; eauto. }
  destruct c as [c|c|c|c]; simpl; unfold command_valid; simpl;
    [unfold Reserve | unfold Adjust | unfold Release | unfold Transfer];
    unfold validateOrderID, invalid.
  - destruct (uuid_pattern _); simpl; [|by eauto].
    destruct (Hsub (rc_RequesterSubject c)) as [[m ->]| ->]; simpl; [by eauto|].
    rewrite Z.leb_antisym. destruct (0 <? rc_Amount c); simpl; eauto.
  - destruct (uuid_pattern _); simpl; [|by eauto].
    destruct (Hsub (ac_RequesterSubject c)) as [[m ->]| ->]; simpl; [by eauto|].
    rewrite !Z.leb_antisym. destruct (0 <? ac_NewAmount c), (0 <? ac_Seq c); simpl; eauto.
  - destruct (uuid_pattern _); simpl; [|by eauto].
    destruct (Hsub (lc_RequesterSubject c)) as [[m ->]| ->]; simpl; eauto.
  - destruct (uuid_pattern _); simpl; [|by eauto].
    destruct (Hsub (tc_RequesterSubject c)) as [[m ->]| ->]; simpl; [by eauto|].
    destruct (Hsub (tc_CourierSubject c)) as [[m ->]| ->]; simpl; [by eauto|].
    case_bool_decide; simpl; [by eauto|].
    rewrite Z.leb_antisym. destruct (0 <? tc_Amount c); simpl; eauto.
Qed.

(** Every operation is a sound step. *)
Lemma command_op_sound env c db r db' :
  db_ok db → command_valid c = true → command_in_range c →
  command_op env (to_lower (command_order c)) c db = Ok (r, db') → sound_step db db'.
Proof.
  intros Hok Hv Hr Hrun. unfold command_valid in Hv. apply andb_true_iff in Hv as [Huuid Hv].
  assert (String.length (to_lower (command_order c)) = 36%nat) as Hlen.
  { rewrite to_lower_length. by apply uuid_length. }
  destruct c as [c|c|c|c]; simpl in *; bool_props; unfold in_int64 in *.
  - eapply reserve_effect_sound; [done|..|eapply reserve_op_effect; try done]; try done; lia.
  - eapply adjust_effect_sound; [done|..|eapply adjust_op_effect; try done]; lia.
  - eapply release_effect_sound; [done|]. by eapply release_op_effect.
  - eapply transfer_effect_sound; [done|..|eapply transfer_op_effect; try done]; try congruence; lia.
Qed.

(** ** The recorder's interface *)

(** All the wallet service needs of a recorder: it writes only the outbox. *)
Class OutboxOnly (record : Recorder) : Prop :=
  outbox_only reply r db u db' :
    record reply r db = Ok (u, db') → ∃ f, db' = set_outbox f db.

Definition recorder_ok (s : Service) : Prop :=
  match s_recorder s with Some record => OutboxOnly record | None => True end.

(** [db] and [db'] differ at most in the outbox. *)
Definition same_but_outbox (db db' : DB) : Prop := ∃ f, db' = set_outbox f db.

Lemma db_ok_outbox db db' : same_but_outbox db db' → db_ok db → db_ok db'.
Proof. intros [f ->] [? [] ????]. by split. Qed.

Lemma db_ok_processed db c : db_ok db → db_ok (add_processed c db).
Proof. intros [? [] ????]. by split. Qed.

(** What a committed command did. *)
Inductive executed (s : Service) (mid : string) (op : Op Result) (db : DB) : Result → DB → Prop :=
| executed_replay c r db' :
    db_processed db !! mid = Some c → dec_result (pc_Result c) = Some r →
    same_but_outbox db db' → executed s mid op db r db'
| executed_new r db1 db' :
    db_processed db !! mid = None → op db = Ok (r, db1) → r_Type r ≠ ResultOperationFailed →
    db_processed db1 !! mid = None →
    same_but_outbox (add_processed (mkProcessedCommand mid (r_Type r) (enc_result r)) db1) db' →
    executed s mid op db r db'
| executed_failed r db1 db' :
    db_processed db !! mid = None → op db = Ok (r, db1) → r_Type r = ResultOperationFailed →
    same_but_outbox db1 db' → executed s mid op db r db'.

Lemma same_but_outbox_refl db : same_but_outbox db db.
Proof. exists id. by destruct db. Qed.

Lemma record_inv s reply (r : Result) db r' db' :
  recorder_ok s →
  match s_recorder s with
  | None => ret r
  | Some record => do! record reply r; ret r
  end db = Ok (r', db') → r' = r ∧ same_but_outbox db db'.
Proof.
  unfold recorder_ok. destruct (s_recorder s) as [record|]; intros Hrec Hrun.
  - minv Hrun. inversion Hrun; subst. split; [done|]. by eapply Hrec.
  - inversion Hrun; subst. split; [done|]. apply same_but_outbox_refl.
Qed.

Lemma execute_tx_inv s mid reply op db r db' :
  recorder_ok s → execute_tx s mid reply op db = Ok (r, db') → executed s mid op db r db'.
Proof.
  intros Hrec Hrun. unfold execute_tx in Hrun. minv Hrun. inversion Hm; subst; clear Hm.
  minv Hrun. minv Hrun. apply record_inv in Hrun as [-> Hout]; [|done].
  apply attempt_Ok in Hm as [(c & -> & Hc)|(e & -> & -> & Hc)].
  - unfold GetProcessedCommand in Hc. apply query1_Ok in Hc as [-> Hc].
    destruct (dec_result (pc_Result c)) as [r0|] eqn:Hd; inversion Hm0; subst.
    by eapply executed_replay.
  - unfold GetProcessedCommand in Hc. apply query1_Err in Hc as [-> Hc].
    minv Hm0. case_bool_decide as Hty.
    + minv Hm0. unfold InsertProcessedCommand in Hm1. break_in Hm1. inversion Hm0; subst.
      by eapply executed_new.
    + inversion Hm0; subst. by eapply executed_failed.
Qed.

(** What no step ever takes back: ledger rows, settled reservations, tombstones
    and stored results. *)
Record kept (db db' : DB) : Prop := {
  k_ledger : db_ledger db `prefix_of` db_ledger db';
  k_settled : settled_kept db db';
  k_released : db_released db ⊆ db_released db';
  k_processed mid c : db_processed db !! mid = Some c → db_processed db' !! mid = Some c;
  k_extend : reservations_extend db db';
  k_wallets : wallets_extend db db';
}.

Lemma reservations_extend_trans db1 db2 db3 :
  reservations_extend db1 db2 → reservations_extend db2 db3 → reservations_extend db1 db3.
Proof.
  intros H12 H23 i r Hi. destruct (H12 i r Hi) as (r2 & Hi2 & ? & ? & ? & Hs2).
  destruct (H23 i r2 Hi2) as (r3 & Hi3 & ? & ? & ? & Hs3).
  exists r3. split; [done|]. split_and!; [congruence|congruence|lia|].
  destruct Hs2 as [?| <-]; [by left|done].
Qed.

(** Tables that differ elsewhere. *)
Lemma kept_frame db db' :
  db_ledger db `prefix_of` db_ledger db' → db_reservations db' = db_reservations db →
  db_released db' = db_released db →
  (∀ mid c, db_processed db !! mid = Some c → db_processed db' !! mid = Some c) →
  wallets_extend db db' → kept db db'.
Proof.
  intros Hl Hr Hrel Hp Hw. split; try done.
  - intros i r. by rewrite Hr.
  - by rewrite Hrel.
  - by apply extend_refl.
Qed.

#[export] Instance kept_preorder : PreOrder kept.
Proof.
  split.
  - intros db. apply kept_frame; try done. by apply wallets_extend_refl.
  - intros db1 db2 db3 [] []. split; [by etrans|by intros ???; eauto|by etrans|by eauto|..];
      eauto using reservations_extend_trans, wallets_extend_trans.
Qed.

Lemma kept_outbox db db' : same_but_outbox db db' → kept db db'.
Proof. intros [f ->]. apply kept_frame; try done. by apply wallets_extend_refl. Qed.

Lemma kept_sound_step db db' : sound_step db db' → kept db db'.
Proof. intros [_ _ Hp _ ??????]. split; try done. by rewrite Hp. Qed.

Lemma kept_processed db c :
  db_processed db !! pc_MessageID c = None → kept db (add_processed c db).
Proof.
  intros Hn. apply kept_frame; try done; [|by apply wallets_extend_refl].
  intros mid c' Hc. simpl. by rewrite lookup_insert_ne by congruence.
Qed.

(** A committed command keeps the invariant and the number of credits. *)
Lemma executed_sound s env c mid db r db' :
  db_ok db → command_valid c = true → command_in_range c →
  executed s mid (command_op env (to_lower (command_order c)) c) db r db' →
  db_ok db' ∧ total db' = total db ∧ size (db_wallets db') = size (db_wallets db) ∧ kept db db'.
Proof.
  intros Hok Hv Hr Hex. destruct Hex as [cc r db' Hp Hd Hout|r db1 db' Hp Hop Hty Hp1 Hout|r db1 db' Hp Hop Hty Hout].
  - split; [by eapply db_ok_outbox|]. pose proof (kept_outbox _ _ Hout). by destruct Hout as [f ->].
  - pose proof (command_op_sound _ _ _ _ _ Hok Hv Hr Hop) as Hss.
    split; [by eapply db_ok_outbox, db_ok_processed, ss_ok|].
    assert (kept db db').
    { etrans; [by apply kept_sound_step|]. etrans; [|by apply kept_outbox]. by apply kept_processed. }
    destruct Hout as [f ->]. split_and!; [apply Hss|apply Hss|done].
  - pose proof (command_op_sound _ _ _ _ _ Hok Hv Hr Hop) as Hss.
    split; [by eapply db_ok_outbox, ss_ok|].
    assert (kept db db') by (etrans; [by apply kept_sound_step|by apply kept_outbox]).
    destruct Hout as [f ->]. split_and!; [apply Hss|apply Hss|done].
Qed.

(** ** Wallet creation *)

(** What a committed [CreateWallet] did. *)
Inductive created (s : Service) (env : TxEnv) (owner subject : string) (db : DB) :
    WalletView * bool → DB → Prop :=
| created_existing i w : db_wallets db !! i = Some w → w_OwnerID w = owner →
    w_Auth0Subject w = subject → created s env owner subject db (fromRow w, false) db
| created_new db' :
    db_wallets db !! tx_uuid env = None →
    scan1 (by_owner owner) (db_wallets db) = None →
    scan1 (by_subject subject) (db_wallets db) = None →
    (let nw := new_wallet env owner subject in
     let dbw := set_wallets <[tx_uuid env := nw]> db in
     if 0 <? s_initialCredit s then
       ∃ e, e = numbered env dbw (ledger_entry (tx_uuid env) EntryAllocate (s_initialCredit s) 0
                                    None None InitialAllocationKey) ∧
         db' = set_wallets <[tx_uuid env := apply_deltas env (s_initialCredit s) 0 nw]>
                 (add_ledger e dbw)
     else db' = dbw) →
    created s env owner subject db
      (mkWalletView owner subject (Z.max 0 (s_initialCredit s)) 0 (tx_now env), true) db'.

Lemma get_new_owner env owner subject db (nw := new_wallet env owner subject) :
  db_wallets db !! tx_uuid env = None → scan1 (by_owner owner) (db_wallets db) = None →
  GetWalletByOwner owner (set_wallets <[tx_uuid env := nw]> db)
  = Ok (nw, set_wallets <[tx_uuid env := nw]> db).
Proof.
  intros Hf Hno. rewrite scan1_None in Hno. unfold GetWalletByOwner, query1.
  rewrite (scan1_unique _ _ (tx_uuid env) nw); [done|apply lookup_insert_eq| |].
  - unfold by_owner. by apply bool_decide_eq_true.
  - simpl. intros j w [[-> _]|[_ Hj]]%lookup_insert_Some Hw; [done|]. by rewrite (Hno _ _ Hj) in Hw.
Qed.

Lemma insert_if_absent_inv env owner subject db w b db' :
  InsertWalletIfAbsent env owner subject db = Ok ((w, b), db') →
  (b = false ∧ db' = db) ∨
  (b = true ∧ db_wallets db !! tx_uuid env = None ∧ scan1 (by_owner owner) (db_wallets db) = None ∧
   scan1 (by_subject subject) (db_wallets db) = None ∧
   db' = set_wallets <[tx_uuid env := new_wallet env owner subject]> db).
Proof.
  unfold InsertWalletIfAbsent. intros Hrun. minv Hrun.
  apply attempt_Ok in Hm as [(w1 & -> & Hi)|(e & -> & -> & Hi)].
  - inversion Hrun; subst. right. unfold sql_insert_wallet, raise, fail in Hi.
    break_in Hi. bool_props. by rewrite !eq_None_not_Some.
  - destruct e; inversion Hrun; subst. by left.
Qed.

Lemma get_by_owner owner db w db' :
  GetWalletByOwner owner db = Ok (w, db') →
  db' = db ∧ ∃ i, db_wallets db !! i = Some w ∧ w_OwnerID w = owner.
Proof.
  unfold GetWalletByOwner. intros [-> Hq]%query1_Ok. split; [done|].
  destruct (scan1 _ _) as [[i u]|] eqn:Hs; simplify_eq/=. apply scan1_Some in Hs as [? Hs].
  unfold by_owner in Hs. bool_props. eauto.
Qed.

Lemma create_wallet_tx_inv s env owner subject db v db' :
  create_wallet_tx s env owner subject db = Ok (v, db') → created s env owner subject db v db'.
Proof.
  unfold create_wallet_tx. intros Hrun. minv Hrun.
  apply attempt_Ok in Hm as [([w b] & -> & Hi)|(e & -> & -> & _)]; [|by destruct e].
  apply insert_if_absent_inv in Hi as [[-> ->]|(-> & Hf & Hno & Hns & ->)]; minv Hrun.
  - apply get_by_owner in Hm as (-> & i & Hi & Ho). simpl in Hrun.
    case_bool_decide as Hs; [done|]. inversion Hrun; subst. by eapply created_existing.
  - rewrite get_new_owner in Hm by done. inversion Hm; subst; clear Hm. simpl in Hrun.
    destruct (Z.ltb_spec 0 (s_initialCredit s)) as [Hpos|Hneg].
    + minv Hrun. apply InsertLedgerEntry_Ok in Hm as (-> & -> & _ & _).
      minv Hrun. apply ApplyDeltas_Ok in Hm as (w2 & Hw2 & -> & -> & _ & _).
      simpl in Hw2. rewrite lookup_insert_eq in Hw2. injection Hw2 as <-.
      inversion Hrun; subst. unfold fromRow. simpl.
      replace (s_initialCredit s) with (Z.max 0 (s_initialCredit s)) at 1 by lia.
      apply created_new; try done. rewrite (proj2 (Z.ltb_lt _ _)) by done. eauto.
    + inversion Hrun; subst. unfold fromRow. simpl.
      replace 0 with (Z.max 0 (s_initialCredit s)) at 1 by lia.
      apply created_new; try done. by rewrite (proj2 (Z.ltb_ge _ _)) by done.
Qed.

Lemma wallets_ok_new m i w :
  wallets_ok m → m !! i = None → w_ID w = i → money (w_Available w) → money (w_Reserved w) →
  scan1 (by_owner (w_OwnerID w)) m = None → scan1 (by_subject (w_Auth0Subject w)) m = None →
  wallets_ok (<[i := w]> m).
Proof.
  intros [Hrow Hown Hsub] Hi Hid Ha Hr Ho Hs. rewrite scan1_None in Ho, Hs.
  assert (∀ j u, m !! j = Some u →
            w_OwnerID u ≠ w_OwnerID w ∧ w_Auth0Subject u ≠ w_Auth0Subject w) as Hne.
  { intros j u Hj. specialize (Ho _ _ Hj). specialize (Hs _ _ Hj).
    unfold by_owner, by_subject in *. by bool_props. }
  split.
  - intros j u [[-> <-]|[? Hj]]%lookup_insert_Some; eauto.
  - intros j k u v [[-> <-]|[? Hj]]%lookup_insert_Some [[-> <-]|[? Hk]]%lookup_insert_Some Heq;
      try done; [by edestruct Hne|by edestruct Hne|by eauto].
  - intros j k u v [[-> <-]|[? Hj]]%lookup_insert_Some [[-> <-]|[? Hk]]%lookup_insert_Some Heq;
      try done; [by edestruct Hne|by edestruct Hne|by eauto].
Qed.

(** Ledger rows of one wallet, and rows that change nothing. *)
Lemma sum_at_one i es :
  (∀ e, e ∈ es → le_WalletID e = i) →
  ∀ j f, sumZ (at_wallet j f <$> es) = when (bool_decide (i = j)) (sumZ (f <$> es)).
Proof.
  intros Hes j f. induction es as [|e es IH]; [unfold when; by case_bool_decide|].
  rewrite !fmap_cons, !sumZ_cons, IH by (intros e' He'; apply Hes; by right).
  unfold at_wallet, when. rewrite (Hes e) by left. by case_bool_decide.
Qed.

Lemma sum_all_zero {A} (f : A → Z) es : (∀ e, e ∈ es → f e = 0) → sumZ (f <$> es) = 0.
Proof.
  intros Hes. induction es as [|e es IH]; [done|].
  rewrite fmap_cons, sumZ_cons, IH by (intros e' He'; apply Hes; by right).
  by rewrite (Hes e) by left.
Qed.

(** A table with one more wallet, whose balance the ledger explains. *)
Lemma db_ok_new_wallet db db' i w es :
  db_ok db → db_wallets db !! i = None → db_wallets db' = <[i := w]> (db_wallets db) →
  db_reservations db' = db_reservations db → db_released db' = db_released db →
  db_ledger db' = db_ledger db ++ es → wallets_ok (db_wallets db') → w_Reserved w = 0 →
  (∀ e, e ∈ es → le_WalletID e = i ∧ le_IdempotencyKey e = InitialAllocationKey ∧ le_ReservedDelta e = 0) →
  sumZ (le_AvailableDelta <$> es) = w_Available w → db_ok db'.
Proof.
  intros [Hw [Hrow Hord] Hav Hrv Hh Hk] Hi Hwt Hrt Hrel Hl Hwok Hres Hes Hsum.
  assert (∀ j, is_Some (db_wallets db !! j) → is_Some (db_wallets db' !! j)) as Hmono.
  { intros j Hj. rewrite Hwt. destruct (decide (i = j)) as [<-|?].
    - by rewrite lookup_insert_eq.
    - by rewrite lookup_insert_ne. }
  pose proof (sum_at_one i es (λ e He, proj1 (Hes e He))) as Hsums.
  pose proof (sum_all_zero le_ReservedDelta es (λ e He, proj2 (proj2 (Hes e He)))) as Hzero.
  split; try done.
  - split; rewrite Hrt; [|done]. intros j r Hj. rewrite Hrel.
    destruct (Hrow _ _ Hj) as (? & ? & ? & ? & ? & ?). split_and!; try done; [lia|lia|by apply Hmono].
  - intros j. unfold led_av. rewrite Hl, fmap_app, sumZ_app, Hsums, Hsum. fold (led_av db j).
    rewrite <- Hav. unfold avail. rewrite Hwt. unfold when. case_bool_decide; subst.
    + rewrite lookup_insert_eq, Hi. simpl. lia.
    + rewrite lookup_insert_ne by done. lia.
  - intros j. unfold led_rv. rewrite Hl, fmap_app, sumZ_app, Hsums, Hzero. fold (led_rv db j).
    rewrite <- Hrv. unfold resv. rewrite Hwt. unfold when. case_bool_decide; subst.
    + rewrite lookup_insert_eq, Hi. simpl. lia.
    + rewrite lookup_insert_ne by done. lia.
  - intros j. unfold held. rewrite Hrt. fold (held db j). rewrite <- Hh. unfold resv. rewrite Hwt.
    destruct (decide (i = j)) as [<-|?].
    + rewrite lookup_insert_eq, Hi. simpl. lia.
    + by rewrite lookup_insert_ne.
  - intros e. rewrite Hl. intros [He|He]%elem_of_app.
    + destruct (Hk e He) as [? Hkey]. split; [by apply Hmono|]. by rewrite Hrt.
    + destruct (Hes e He) as (Hew & Hek & _). split; [|by left].
      rewrite Hwt, Hew, lookup_insert_eq. eauto.
Qed.

Lemma wallets_extend_new db db' i w :
  db_wallets db !! i = None → db_wallets db' = <[i := w]> (db_wallets db) → wallets_extend db db'.
Proof.
  intros Hi Heq j u Hj. rewrite Heq. exists u. by rewrite lookup_insert_ne by congruence.
Qed.

Lemma created_sound s env owner subject db v db' :
  db_ok db → money (s_initialCredit s) → created s env owner subject db v db' →
  db_ok db' ∧ total db' = total db + when v.2 (s_initialCredit s) ∧
  size (db_wallets db') = (size (db_wallets db) + if v.2 then 1 else 0)%nat ∧
  kept db db'.
Proof.
  intros Hok Hic [i w Hi _ _|db1 Hf Hno Hns Hdb].
  { split_and!; try done; simpl; lia. }
  set (nw := new_wallet env owner subject) in *.
  assert (wallets_ok (<[tx_uuid env := nw]> (db_wallets db))) as Hw0.
  { apply wallets_ok_new; try done. apply Hok. }
  simpl in Hdb. destruct (Z.ltb_spec 0 (s_initialCredit s)) as [Hpos|Hneg].
  - destruct Hdb as (e & -> & ->). set (nw' := apply_deltas env (s_initialCredit s) 0 nw).
    split_and!.
    + eapply (db_ok_new_wallet db _ (tx_uuid env) nw' [_]); try done; simpl.
      * by rewrite insert_insert_eq.
      * rewrite insert_insert_eq. apply wallets_ok_new; try done. apply Hok.
      * intros e. rewrite list_elem_of_singleton. by intros ->.
      * lia.
    + unfold total. simpl. rewrite insert_insert_eq, msum_insert_new by done. unfold nw'. simpl. lia.
    + simpl. rewrite insert_insert_eq, map_size_insert_None by done. lia.
    + apply kept_frame; try done; [by eexists|].
      eapply (wallets_extend_new _ _ (tx_uuid env) nw'); [done|]. simpl. by rewrite insert_insert_eq.
  - subst db1. assert (s_initialCredit s = 0) as Hz by (unfold money in Hic; lia). split_and!.
    + eapply (db_ok_new_wallet db _ (tx_uuid env) nw []); try done.
      * simpl. by rewrite app_nil_r.
      * intros e. by rewrite elem_of_nil.
    + unfold total. simpl. rewrite msum_insert_new by done. simpl. lia.
    + simpl. rewrite map_size_insert_None by done. lia.
    + apply kept_frame; try done. by eapply wallets_extend_new.
Qed.

(** ** The transition system *)

(** One transaction of the service with [credit] credits for a new wallet: a
    wallet is created, a command runs, or a worker changes the outbox.  The
    result of a failed call is a step that changes nothing. *)
Inductive step (credit : Z) : DB → DB → Prop :=
| step_create s env owner subject r db db' :
    s_initialCredit s = credit → CreateWallet s env owner subject db = (r, db') → step credit db db'
| step_command s env mid c r db db' :
    recorder_ok s → command_in_range c → run_command s env mid c db = (r, db') → step credit db db'
| step_outbox db db' : same_but_outbox db db' → step credit db db'.

Definition reachable (credit : Z) (db : DB) : Prop := rtc (step credit) empty_db db.

Lemma CreateWallet_inv s env owner subject db r db' :
  CreateWallet s env owner subject db = (r, db') →
  (∃ e, r = Err e ∧ db' = db) ∨ (∃ v, r = Ok v ∧ created s env (to_lower owner) subject db v db').
Proof.
  unfold CreateWallet. intros Hrun.
  destruct (validateOwnerID owner) as [o|e] eqn:Ho; [|left; by simplify_eq; eauto].
  assert (o = to_lower owner) as ->.
  { unfold validateOwnerID, invalid in Ho. break_in Ho. done. }
  destruct (validateSubject subject) as [u|e]; [|left; by simplify_eq; eauto].
  apply inTx_inv in Hrun as [(v & -> & Hv)|(e & -> & -> & _)]; [|by eauto].
  right. exists v. split; [done|]. by apply create_wallet_tx_inv.
Qed.

Lemma run_command_inv s env mid c db r db' :
  recorder_ok s → run_command s env mid c db = (r, db') →
  (∃ e, r = Err e ∧ db' = db) ∨
  (∃ v, r = Ok v ∧ command_valid c = true ∧ 1 ≤ len mid ≤ maxMessageIDLength ∧
     executed s mid (command_op env (to_lower (command_order c)) c) db v db').
Proof.
  intros Hrec Hrun.
  destruct (run_command_cases s env mid c db) as [(Hv & m & Heq)|(Hv & Heq)]; rewrite Heq in Hrun.
  { left. simplify_eq. eauto. }
  unfold execute in Hrun. destruct (bool_decide (mid = "") || _) eqn:Hlen.
  { left. simplify_eq. unfold invalid. eauto. }
  bool_props. apply inTx_inv in Hrun as [(v & -> & Hx)|(e & -> & -> & _)]; [|by eauto].
  right. exists v. split_and!; try done.
  - unfold len. destruct mid; [done|simpl; lia].
  - by eapply execute_tx_inv.
Qed.

Lemma step_sound credit db db' :
  money credit → db_ok db → step credit db db' →
  db_ok db' ∧
  total db' - credit * Z.of_nat (size (db_wallets db'))
  = total db - credit * Z.of_nat (size (db_wallets db)) ∧
  kept db db'.
Proof.
  intros Hm Hok Hst. destruct Hst as [s env o sub r db db' <- Hc|s env mid c r db db' Hrec Hr Hc|db db' Hout].
  - apply CreateWallet_inv in Hc as [(e & _ & ->)|(v & _ & Hv)]; [done|].
    apply created_sound in Hv as (? & Ht & Hs & ?); [|done|done]. split_and!; try done.
    rewrite Ht, Hs. unfold when. destruct v.2; lia.
  - apply run_command_inv in Hc as [(e & _ & ->)|(v & _ & Hv & _ & Hex)]; [done| |done].
    apply executed_sound in Hex as (? & Ht & Hs & ?); [|done|done|done]. split_and!; try done.
    by rewrite Ht, Hs.
  - split; [by eapply db_ok_outbox|]. pose proof (kept_outbox _ _ Hout). by destruct Hout as [f ->].
Qed.

Lemma db_ok_empty : db_ok empty_db.
Proof.
  split.
  - split; intros i *; change (db_wallets empty_db) with (∅ : gmap string Wallet);
      by rewrite (lookup_empty i).
  - split; intros i *; change (db_reservations empty_db) with (∅ : gmap string Reservation);
      by rewrite (lookup_empty i).
  - done.
  - done.
  - done.
  - intros e. by rewrite elem_of_nil.
Qed.

Lemma steps_sound credit db db' :
  money credit → db_ok db → rtc (step credit) db db' →
  db_ok db' ∧
  total db' - credit * Z.of_nat (size (db_wallets db'))
  = total db - credit * Z.of_nat (size (db_wallets db)) ∧
  kept db db'.
Proof.
  intros Hm Hok Hst. induction Hst as [|db1 db2 db3 Hst _ IH]; [done|].
  destruct (step_sound credit db1 db2 Hm Hok Hst) as (Hok2 & Ht & Hk).
  destruct (IH Hok2) as (? & Ht' & Hk'). split_and!; [done|lia|by etrans].
Qed.

Lemma reachable_ok credit db : money credit → reachable credit db → db_ok db.
Proof. intros Hm Hr. by eapply steps_sound; [done|apply db_ok_empty|]. Qed.

