(* ===== verification/WalletProps.v ===== *)
(** * credit-service: the properties of the wallet service

    Under the ledger invariant, releasing or transferring an active
    reservation meets no constraint of the schema.  Theorems about every state
    the service can reach from an empty database, by any interleaving of
    wallet creations, commands and outbox updates, and about the outcome of
    the order commands in such a state. *)

From S2P Require Import Prelude GoText Json WalletRepo Wallet WalletInv WalletSafe WalletSystem.

(** ** Idempotency keys name the step that wrote them *)

Lemma key_of_release r o :
  key_of r ("release:" +:+ o) → rv_OrderID r = o ∧ rv_Status r = ReservationReleased.
Proof. inversion 1; simplify_eq/=; auto. Qed.

Lemma key_of_transfer r o :
  key_of r ("transfer:" +:+ o) → rv_OrderID r = o ∧ rv_Status r = ReservationTransferred.
Proof. inversion 1; simplify_eq/=; auto. Qed.

Lemma key_of_surplus r o :
  key_of r ("transfer-surplus:" +:+ o) → rv_OrderID r = o ∧ rv_Status r = ReservationTransferred.
Proof. inversion 1; simplify_eq/=; auto. Qed.

Lemma key_of_reserve r o : key_of r ("reserve:" +:+ o) → rv_OrderID r = o.
Proof. inversion 1; simplify_eq/=; auto. Qed.

Lemma key_of_adjust r o n :
  String.length (rv_OrderID r) = String.length o →
  key_of r ("adjust:" +:+ o +:+ ":" +:+ itoa n) → rv_OrderID r = o ∧ n ≤ rv_LastAdjustSeq r.
Proof.
  intros Hlen. remember ("adjust:" +:+ o +:+ ":" +:+ itoa n) as key eqn:Hkey.
  intros Hk. revert Hkey. destruct Hk as [|m Hm| | |]; simpl; try discriminate. intros Hkey.
  injection Hkey as Hkey. destruct (sapp_inj_length _ _ _ _ Hlen Hkey) as [-> Hn].
  injection Hn as Hn. apply itoa_inj in Hn as ->. split; [done|lia].
Qed.

Section progress.
Context (db : DB) (Hok : db_ok db).

(** A key no reservation has earned is not in the ledger. *)
Lemma unused_key i key :
  key ≠ InitialAllocationKey →
  (∀ j r, db_reservations db !! j = Some r → ¬ key_of r key) →
  existsb (has_ledger_key i key) (db_ledger db) = false.
Proof using Hok.
  intros Hne Hno. apply not_true_iff_false. intros (e & Hin & He)%existsb_exists.
  unfold has_ledger_key in He. bool_props. subst.
  destruct (ok_keys _ Hok e) as [_ [Hk|(j & r & Hj & Hk)]]; [by apply list_elem_of_In|done|].
  by eapply Hno.
Qed.

Lemma same_order i j r r' :
  db_reservations db !! i = Some r → db_reservations db !! j = Some r' →
  rv_OrderID r' = rv_OrderID r → r' = r.
Proof using Hok.
  intros Hi Hj Heq. pose proof (rk_order _ (ok_reservations _ Hok) _ _ _ _ Hj Hi Heq). congruence.
Qed.

(** Everything in one wallet is part of the total. *)
Lemma wallet_le_total i w :
  db_wallets db !! i = Some w → w_Available w + w_Reserved w ≤ total db.
Proof using Hok.
  intros Hi. apply (msum_le (λ w, w_Available w + w_Reserved w) (db_wallets db) i); [|done].
  intros j u Hj. destruct (wk_row _ (ok_wallets _ Hok) j u Hj) as (_ & [? ?] & [? ?]). lia.
Qed.

(** So is what two wallets hold together. *)
Lemma two_wallets_le_total i j w w' :
  i ≠ j → db_wallets db !! i = Some w → db_wallets db !! j = Some w' →
  w_Available w + w_Reserved w + (w_Available w' + w_Reserved w') ≤ total db.
Proof using Hok.
  intros Hij Hi Hj. unfold total. rewrite (msum_delete _ _ i w Hi).
  pose proof (msum_le (λ w, w_Available w + w_Reserved w) (delete i (db_wallets db)) j w') as Hle.
  enough (w_Available w' + w_Reserved w'
          ≤ msum (λ w, w_Available w + w_Reserved w) (delete i (db_wallets db))) by lia.
  apply Hle; [|by rewrite lookup_delete_ne].
  intros k u [_ Hk]%lookup_delete_Some.
  destruct (wk_row _ (ok_wallets _ Hok) k u Hk) as (_ & [? ?] & [? ?]). lia.
Qed.

(** The reserved balance covers every active reservation. *)
Lemma active_covered i r w :
  db_reservations db !! i = Some r → rv_Status r = ReservationActive →
  db_wallets db !! rv_WalletID r = Some w → rv_Amount r ≤ w_Reserved w.
Proof using Hok.
  intros Hi Hst Hw. pose proof (ok_held _ Hok (rv_WalletID r)) as Hh.
  unfold resv in Hh. rewrite Hw in Hh. simpl in Hh. rewrite Hh. unfold held.
  replace (rv_Amount r) with (active_amount (rv_WalletID r) r).
  - apply (msum_le _ _ i); [|done]. intros j u Hj. unfold active_amount.
    destruct (rk_row _ (ok_reservations _ Hok) j u Hj) as (_ & ? & _). case_match; lia.
  - unfold active_amount. by rewrite !bool_decide_true.
Qed.

End progress.

(** ** Statements that succeed *)

Lemma InsertLedgerEntry_run env e db :
  (le_AvailableDelta e ≠ 0 ∨ le_ReservedDelta e ≠ 0) → le_IdempotencyKey e ≠ "" →
  existsb (has_ledger_key (le_WalletID e) (le_IdempotencyKey e)) (db_ledger db) = false →
  is_Some (db_wallets db !! le_WalletID e) →
  (∀ i, le_CounterpartyWalletID e = Some i → is_Some (db_wallets db !! i)) →
  InsertLedgerEntry env e db = Ok (numbered env db e, add_ledger (numbered env db e) db).
Proof.
  intros Hd Hk Hn Hw Hc. unfold InsertLedgerEntry.
  replace ((le_AvailableDelta e =? 0) && (le_ReservedDelta e =? 0)) with false by lia.
  rewrite (bool_decide_false (le_IdempotencyKey e = "")), Hn by done. unfold fk_wallet.
  rewrite bool_decide_true by done. simpl.
  destruct (le_CounterpartyWalletID e) as [i|]; [|done].
  by rewrite (bool_decide_true _ (Hc i eq_refl)).
Qed.

Lemma ApplyDeltas_run env i da dr w db :
  db_wallets db !! i = Some w → money (w_Available w + da) → money (w_Reserved w + dr) →
  in_int64 (w_Version w + 1) →
  ApplyDeltas env i da dr db
  = Ok (apply_deltas env da dr w, set_wallets <[i := apply_deltas env da dr w]> db).
Proof.
  intros Hw Ha Hr Hv. unfold ApplyDeltas. rewrite Hw. simpl.
  rewrite (proj2 (in_int64b_spec _) (money_in_int64 _ Ha)),
    (proj2 (in_int64b_spec _) (money_in_int64 _ Hr)), (proj2 (in_int64b_spec _) Hv). simpl.
  unfold money in *. by rewrite !(proj2 (Z.ltb_ge _ _)) by lia.
Qed.

Lemma update_reservation_run i f r db :
  db_reservations db !! i = Some r → 0 < rv_Amount (f r) →
  sql_update_reservation i f db = Ok (f r, set_reservations <[i := f r]> db).
Proof.
  intros Hi Ha. unfold sql_update_reservation. rewrite Hi.
  by rewrite (proj2 (Z.ltb_lt _ _)) by done.
Qed.

(** Adding an entry with another key or wallet keeps a key unused. *)
Lemma existsb_app_other i key e l :
  existsb (has_ledger_key i key) l = false → (le_WalletID e ≠ i ∨ le_IdempotencyKey e ≠ key) →
  existsb (has_ledger_key i key) (l ++ [e]) = false.
Proof.
  intros Hl He. rewrite existsb_app, Hl. simpl. unfold has_ledger_key.
  destruct He; [rewrite bool_decide_false by done|rewrite (bool_decide_false (_ = key)) by done];
    by rewrite ?andb_false_r.
Qed.

(** ** Release and transfer of an active reservation *)

Section settle.
Context (env : TxEnv) (db : DB) (Hok : db_ok db) (Htot : total db ≤ max_int64).
Context (rv : Reservation) (req : Wallet).
Context (Hrv : db_reservations db !! rv_ID rv = Some rv) (Hst : rv_Status rv = ReservationActive).
Context (Hreq : db_wallets db !! w_ID req = Some req) (Hrw : rv_WalletID rv = w_ID req).
Context (Hver : in_int64 (w_Version req + 1)).

Lemma amount_covered :
  0 < rv_Amount rv ≤ w_Reserved req ∧ money (w_Available req) ∧ money (w_Reserved req) ∧
  w_Available req + w_Reserved req ≤ max_int64.
Proof using Hok Htot Hrv Hst Hreq Hrw.
  pose proof (wallet_le_total db Hok _ _ Hreq).
  destruct (wk_row _ (ok_wallets _ Hok) _ _ Hreq) as (_ & ? & ?).
  destruct (rk_row _ (ok_reservations _ Hok) _ _ Hrv) as (_ & ? & _).
  pose proof (active_covered db Hok _ _ req Hrv Hst) as Hc. rewrite Hrw in Hc.
  specialize (Hc Hreq). split_and!; try done; lia.
Qed.

(** No settled reservation has this order, so its settlement keys are unused. *)
Lemma settlement_key_unused i key :
  key ≠ InitialAllocationKey →
  (∀ r, key_of r key → rv_OrderID r = rv_OrderID rv ∧ rv_Status r ≠ ReservationActive) →
  existsb (has_ledger_key i key) (db_ledger db) = false.
Proof using Hok Hrv Hst.
  intros Hne Hk. apply unused_key; [done|done|]. intros j r Hj Hkey.
  destruct (Hk r Hkey) as [Ho Hs]. by rewrite (same_order db Hok _ _ _ _ Hrv Hj Ho) in Hs.
Qed.

Lemma locked_reservation :
  lockReservation (rv_OrderID rv) (w_Auth0Subject req) db = Ok ((rv, req), db).
Proof using Hok Hrv Hreq Hrw.
  unfold lockReservation. rewrite (bind_run _ _ _ _ _ (get_reservation_some db Hok _ _ false Hrv)).
  assert (LockWalletsByAuth0Subject [w_Auth0Subject req] db = Ok ([req], db)) as Hl.
  { rewrite (lock_one db (ok_wallets _ Hok)).
    rewrite (scan1_unique _ _ (w_ID req) req); [done|done| |].
    - unfold by_subject. by apply bool_decide_eq_true.
    - intros j w Hj Hw. unfold by_subject in Hw. bool_props.
      by eapply (wk_subject _ (ok_wallets _ Hok)). }
  unfold bind at 1, attempt. rewrite Hl.
  rewrite (bind_run _ _ _ _ _ (get_reservation_some db Hok _ _ true Hrv)).
  by rewrite bool_decide_false by (rewrite Hrw; auto).
Qed.

Lemma release_op_run c :
  lc_RequesterSubject c = w_Auth0Subject req →
  ∃ db', release_op env (rv_OrderID rv) c db = Ok (mkResult ResultReleased 0 0 "", db').
Proof using All.
  intros Hs. destruct amount_covered as (Ha & [? ?] & [? ?] & Hsum).
  unfold release_op. unfold bind at 1, attempt. rewrite Hs, locked_reservation, Hst.
  rewrite wrap64_neg by (unfold money; lia).
  assert (existsb (has_ledger_key (w_ID req) ("release:" +:+ rv_OrderID rv)) (db_ledger db) = false) as Hk.
  { apply settlement_key_unused; [done|]. intros r [? Hr]%key_of_release. by rewrite Hr. }
  erewrite bind_run; [|apply InsertLedgerEntry_run; simpl; [lia|done|exact Hk|by eauto|done]].
  erewrite bind_run; [|apply (ApplyDeltas_run _ _ _ _ req); [exact Hreq|unfold money; lia..|exact Hver]].
  erewrite bind_run; [|apply (update_reservation_run _ _ rv); [exact Hrv|simpl; lia]].
  by eexists.
Qed.

Context (cour : Wallet) (Hcour : db_wallets db !! w_ID cour = Some cour) (Hne : w_ID cour ≠ w_ID req).
Context (Hver' : in_int64 (w_Version cour + 1)).

(** The three updates after the ledger entries of a transfer. *)
Lemma transfer_updates_run dbl da amount :
  db_wallets dbl = db_wallets db → db_reservations dbl = db_reservations db →
  - w_Available req ≤ da ≤ rv_Amount rv →
  0 ≤ amount ≤ w_Available req + w_Reserved req →
  ∃ db', (do! ApplyDeltas env (w_ID req) da (- rv_Amount rv);
          do! ApplyDeltas env (w_ID cour) amount 0;
          do! UpdateReservation env (rv_ID rv) (rv_Amount rv) ReservationTransferred;
          ret (mkResult ResultTransferred 0 0 "")) dbl
         = Ok (mkResult ResultTransferred 0 0 "", db').
Proof using All.
  intros Hw Hr Hda Ham. destruct amount_covered as (Ha & [? ?] & [? ?] & Hsum).
  pose proof (two_wallets_le_total db Hok _ _ _ _ Hne Hcour Hreq).
  destruct (wk_row _ (ok_wallets _ Hok) _ _ Hcour) as (_ & [? ?] & [? ?]).
  erewrite bind_run; [|apply (ApplyDeltas_run _ _ _ _ req);
    [by rewrite Hw|unfold money; lia..|exact Hver]].
  erewrite bind_run; [|apply (ApplyDeltas_run _ _ _ _ cour);
    [simpl; by rewrite Hw, lookup_insert_ne|unfold money; lia..|exact Hver']].
  erewrite bind_run; [|apply (update_reservation_run _ _ rv); [simpl; by rewrite Hr|simpl; lia]].
  by eexists.
Qed.

Lemma transfer_apply_run c :
  0 < tc_Amount c ≤ max_int64 → tc_Amount c - rv_Amount rv ≤ w_Available req →
  ∃ db', transfer_apply env (rv_OrderID rv) c rv req cour db
         = Ok (mkResult ResultTransferred 0 0 "", db').
Proof using All.
  intros Hc Hle. destruct amount_covered as (Ha & [? ?] & [? ?] & Hsum).
  pose proof (two_wallets_le_total db Hok _ _ _ _ Hne Hcour Hreq).
  destruct (wk_row _ (ok_wallets _ Hok) _ _ Hcour) as (_ & [? ?] & [? ?]).
  assert (∀ i, existsb (has_ledger_key i ("transfer:" +:+ rv_OrderID rv)) (db_ledger db) = false) as Hk.
  { intros i. apply settlement_key_unused; [done|]. intros r [? Hr]%key_of_transfer. by rewrite Hr. }
  assert (existsb (has_ledger_key (w_ID req) ("transfer-surplus:" +:+ rv_OrderID rv)) (db_ledger db) = false) as Hks.
  { apply settlement_key_unused; [done|]. intros r [? Hr]%key_of_surplus. by rewrite Hr. }
  unfold transfer_apply. set (from := Z.min (rv_Amount rv) (tc_Amount c)).
  assert (0 < from ≤ max_int64) as Hfrom by (unfold from; lia).
  assert (from ≤ rv_Amount rv ∧ from ≤ tc_Amount c) as [? ?] by (unfold from; lia).
  rewrite (wrap64_sub (tc_Amount c) from), (wrap64_sub (rv_Amount rv) from) by (unfold money; lia).
  rewrite (proj2 (Z.ltb_ge _ _)) by (unfold from; lia).
  rewrite (wrap64_neg (tc_Amount c - from)), (wrap64_neg from), (wrap64_neg (rv_Amount rv - from)),
    (wrap64_neg (rv_Amount rv)) by (unfold money; lia).
  rewrite (wrap64_sub (rv_Amount rv - from) (tc_Amount c - from)) by (unfold money; lia).
  erewrite bind_run; [|apply InsertLedgerEntry_run; simpl; [lia|done|apply Hk|by eauto|by intros i [= <-]; eauto]].
  erewrite bind_run; [|apply InsertLedgerEntry_run; simpl;
    [lia|done|apply existsb_app_other; [apply Hk|by left]|by eauto|by intros i [= <-]; eauto]].
  destruct (Z.ltb_spec 0 (rv_Amount rv - from)) as [Hsur|Hsur].
  - erewrite bind_run; [|erewrite bind_run; [done|apply InsertLedgerEntry_run; simpl;
      [lia|done|by repeat apply existsb_app_other; [..|by right|by right]|by eauto|done]]].
    apply transfer_updates_run; [done|done|lia|lia].
  - erewrite bind_run; [|done].
    apply transfer_updates_run; [done|done|lia|lia].
Qed.

Lemma transfer_op_run c :
  0 < tc_Amount c ≤ max_int64 → tc_Amount c - rv_Amount rv ≤ w_Available req →
  tc_RequesterSubject c = w_Auth0Subject req → tc_CourierSubject c = w_Auth0Subject cour →
  ∃ db', transfer_op env (rv_OrderID rv) c db = Ok (mkResult ResultTransferred 0 0 "", db').
Proof using All.
  intros Hc Hle Hrs Hcs.
  assert (w_Auth0Subject req ≠ w_Auth0Subject cour) as Hsub.
  { intros Heq. apply Hne. by rewrite (subject_inj db (ok_wallets _ Hok) _ _ Hreq Hcour Heq). }
  destruct (lock_two_exists db (ok_wallets _ Hok) _ _ req cour Hsub Hreq Hcour eq_refl eq_refl)
    as (l & Hl & Hpick).
  unfold transfer_op. unfold bind at 1, attempt. rewrite (get_reservation_some db Hok _ _ false Hrv).
  unfold bind at 1. rewrite Hrs, Hcs, Hl, Hpick, bool_decide_false by auto.
  rewrite (bind_run _ _ _ _ _ (get_reservation_some db Hok _ _ true Hrv)), Hst.
  by apply transfer_apply_run.
Qed.

End settle.

(** ** Results survive storage *)

Definition result_in_range (r : Result) : Prop := in_int64 (r_Amount r) ∧ in_int64 (r_Seq r).

Lemma dec_enc_result r : result_in_range r → dec_result (enc_result r) = Some r.
Proof.
  intros [Ha Hq]. unfold dec_result, enc_result, members.
  cbn [app]. autorewrite with json. simpl. by destruct r.
Qed.

(** The result of an operation fits the integers it is stored with. *)
Lemma command_result_range env c db r db' :
  db_ok db → command_valid c = true → command_in_range c →
  command_op env (to_lower (command_order c)) c db = Ok (r, db') → result_in_range r.
Proof.
  intros Hok Hv Hr Hrun. unfold command_valid in Hv. apply andb_true_iff in Hv as [_ Hv].
  assert (∀ i rv, db_reservations db !! i = Some rv → in_int64 (rv_Amount rv)) as Hres.
  { intros i rv Hi. destruct (rk_row _ (ok_reservations _ Hok) i rv Hi) as (_ & ? & _).
    unfold in_int64, min_int64. lia. }
  assert (in_int64 0) by done.
  destruct c as [c|c|c|c]; simpl in *; bool_props.
  - apply reserve_op_effect in Hrun; [|done|unfold in_int64 in *; lia].
    destruct Hrun; split; simpl; eauto.
  - destruct Hr as [? ?]. apply adjust_op_effect in Hrun; [|done|unfold in_int64 in *; lia].
    destruct Hrun; split; simpl; eauto.
  - apply release_op_effect in Hrun; [|done]. by destruct Hrun.
  - apply transfer_op_effect in Hrun; [|done|unfold in_int64 in *; lia|congruence].
    by destruct Hrun.
Qed.

(** Once a command has a final result, its message ID answers with it. *)
Lemma stored_result s env mid c db r db' :
  db_ok db → command_in_range c → recorder_ok s →
  run_command s env mid c db = (Ok r, db') → r_Type r ≠ ResultOperationFailed →
  ∃ pc, db_processed db' !! mid = Some pc ∧ dec_result (pc_Result pc) = Some r.
Proof.
  intros Hok Hr Hrec Hrun Hty.
  apply run_command_inv in Hrun as [(e & ? & _)|(v & [= <-] & Hv & _ & Hex)]; [done| |done].
  destruct Hex as [pc r db' Hp Hd [f ->]|r db1 db' Hp Hop _ Hp1 [f ->]|r db1 db' Hp Hop ? Hout].
  - eauto.
  - eexists. split; [apply lookup_insert_eq|]. simpl.
    by eapply dec_enc_result, command_result_range.
  - done.
Qed.

(** ** Reachable states *)

(** C1: In every state the service reaches, each wallet's available and
    reserved balances equal the sums of its ledger entries, the reserved
    balance is exactly what its active reservations hold, and neither balance
    is negative. *)
Theorem wallet_ledger_audit credit db i w :
  money credit → reachable credit db → db_wallets db !! i = Some w →
  w_Available w = led_av db i ∧ w_Reserved w = led_rv db i ∧ w_Reserved w = held db i ∧
  0 ≤ w_Available w ∧ 0 ≤ w_Reserved w.
Proof.
  intros Hm Hr Hi. pose proof (reachable_ok credit db Hm Hr) as Hok.
  pose proof (ok_ledger_av _ Hok i) as Ha. pose proof (ok_ledger_rv _ Hok i) as Hb.
  pose proof (ok_held _ Hok i) as Hh. unfold avail, resv in *. rewrite Hi in *. simpl in *.
  destruct (wk_row _ (ok_wallets _ Hok) i w Hi) as (_ & [? ?] & [? ?]). lia.
Qed.

(** C2: Credits are neither minted nor destroyed by any command: in every
    reachable state the credits in all wallets together are the initial
    allocation times the number of wallets. *)
Theorem credits_conserved credit db :
  money credit → reachable credit db →
  total db = credit * Z.of_nat (size (db_wallets db)).
Proof.
  intros Hm Hr. destruct (steps_sound credit empty_db db Hm db_ok_empty Hr) as (_ & Ht & _).
  change (total empty_db) with 0 in Ht. change (size (db_wallets empty_db)) with 0%nat in Ht. lia.
Qed.

(** C3: A command is applied once.  After a message was answered with a final
    result, every later delivery of a message with its ID, whatever happened
    in between and whatever the message says, is answered with the same
    result and changes nothing but the outbox. *)
Theorem command_redelivery credit db s env mid c r db1 db2 s' env' c' r' db3 :
  money credit → reachable credit db → recorder_ok s → command_in_range c →
  run_command s env mid c db = (Ok r, db1) → r_Type r ≠ ResultOperationFailed →
  rtc (step credit) db1 db2 →
  recorder_ok s' → run_command s' env' mid c' db2 = (Ok r', db3) →
  r' = r ∧ same_but_outbox db2 db3.
Proof.
  intros Hm Hre Hrec Hcr Hrun Hty Hst Hrec' Hrun'.
  pose proof (reachable_ok credit db Hm Hre) as Hok.
  destruct (stored_result s env mid c db r db1 Hok Hcr Hrec Hrun Hty) as (pc & Hpc & Hdec).
  pose proof (step_command credit s env mid c _ _ _ Hrec Hcr Hrun) as Hstep.
  destruct (step_sound credit db db1 Hm Hok Hstep) as (Hok1 & _ & _).
  destruct (steps_sound credit db1 db2 Hm Hok1 Hst) as (_ & _ & Hk).
  apply (k_processed _ _ Hk) in Hpc.
  apply run_command_inv in Hrun' as [(e & ? & _)|(v & [= <-] & _ & _ & Hex)]; [done| |done].
  destruct Hex as [pc' r' db' Hp Hd Hout|r' db' db'' Hp|r' db' db'' Hp]; [|congruence..].
  split; [congruence|done].
Qed.

(** A settled reservation stays as it was settled: once released or
    transferred, no later step of the service changes its row. *)
Theorem reservation_settled_once credit db db' i r :
  money credit → reachable credit db → db_reservations db !! i = Some r →
  rv_Status r ≠ ReservationActive → rtc (step credit) db db' →
  db_reservations db' !! i = Some r.
Proof.
  intros Hm Hr Hi Hs Hst. pose proof (reachable_ok credit db Hm Hr) as Hok.
  destruct (steps_sound credit db db' Hm Hok Hst) as (_ & _ & Hk). by apply (k_settled _ _ Hk).
Qed.

(** A release that overtakes its reserve wins: after an order was released
    without having a reservation, no reservation of the order exists in any
    later state, and every reserve of it is refused with
    [RESERVATION_RELEASED]. *)
Theorem release_before_reserve credit db env o c db1 r db2 env' c' :
  money credit → reachable credit db →
  GetReservationByOrder o false db = Err ErrNotFound →
  release_op env o c db = Ok (r, db1) → rtc (step credit) db1 db2 →
  r = mkResult ResultReleased 0 0 "" ∧
  (∀ i rv, db_reservations db2 !! i = Some rv → rv_OrderID rv ≠ o) ∧
  reserve_op env' o c' db2
  = Ok (mkResult ResultReservationRefused 0 0 CodeReservationReleased, db2).
Proof.
  intros Hm Hre Hno Hrun Hst. pose proof (reachable_ok credit db Hm Hre) as Hok.
  apply get_reservation_none in Hno as [_ Hno].
  apply release_op_effect in Hrun; [|done]. rewrite scan1_None in Hno.
  assert (∀ i rv, db_reservations db !! i = Some rv → rv_OrderID rv = o → False) as Hne.
  { intros i rv Hi Ho. specialize (Hno i rv Hi). unfold by_order in Hno. by bool_props. }
  destruct Hrun as [_|i rv Hi Ho|i rv Hi Ho|rv w e Hi Ho]; [|by edestruct Hne..].
  assert (db_ok (add_released o db)) as Hok1 by (apply add_released_ok; [done|by apply scan1_None]).
  destruct (steps_sound credit _ db2 Hm Hok1 Hst) as (Hok2 & _ & Hk).
  assert (o ∈ db_released db2) as Hrel.
  { apply (k_released _ _ Hk). simpl. apply elem_of_union. left. by apply elem_of_singleton. }
  split_and!; [done| |].
  - intros i rv Hi <-. by destruct (rk_row _ (ok_reservations _ Hok2) i rv Hi) as (_ & _ & _ & _ & _ & ?).
  - unfold reserve_op, bind, IsOrderReleased. by rewrite bool_decide_true.
Qed.

(** Adjustments are ordered by sequence number, not by arrival: once an
    adjustment was applied or acknowledged for an order, an adjustment with
    the same or a lower sequence number that arrives later changes nothing. *)
Theorem stale_adjust_changes_nothing credit db env o c r db1 db2 env' c' r' db3 :
  money credit → reachable credit db → 0 < ac_NewAmount c ≤ max_int64 →
  0 < ac_NewAmount c' ≤ max_int64 →
  adjust_op env o c db = Ok (r, db1) → r_Type r = ResultAdjusted →
  rtc (step credit) db1 db2 →
  ac_Seq c' ≤ ac_Seq c → adjust_op env' o c' db2 = Ok (r', db3) →
  db3 = db2.
Proof.
  intros Hm Hre Ha Ha' Hrun Hty Hst Hseq Hrun'.
  pose proof (reachable_ok credit db Hm Hre) as Hok.
  apply adjust_op_effect in Hrun; [|done|done].
  pose proof (ss_ok _ _ (adjust_effect_sound _ _ _ _ _ _ Hok Ha Hrun)) as Hok1.
  destruct (steps_sound credit db1 db2 Hm Hok1 Hst) as (Hok2 & _ & Hk).
  assert (∃ i rv, db_reservations db1 !! i = Some rv ∧ rv_OrderID rv = o ∧
                  ac_Seq c ≤ rv_LastAdjustSeq rv) as (i & rv & Hi & Ho & Hq).
  { destruct Hrun as [| |i rv Hi Ho _ Hq|rv w|rv Hi Ho|rv w e Hi Ho]; try done.
    - by exists i, rv.
    - eexists (rv_ID rv), _. split; [apply lookup_insert_eq|done].
    - eexists (rv_ID rv), _. split; [apply lookup_insert_eq|done]. }
  destruct (k_extend _ _ Hk i rv Hi) as (rv2 & Hi2 & Ho2 & _ & Hq2 & _).
  assert (∀ j u, db_reservations db2 !! j = Some u → rv_OrderID u = o → u = rv2) as Hsame.
  { intros j u Hj Hu. eapply (same_order db2 Hok2); [exact Hi2|exact Hj|congruence]. }
  apply adjust_op_effect in Hrun'; [|done|done].
  destruct Hrun' as [| | |u w Hu Huo|u Hu Huo _ Hlt|u w e Hu Huo _ Hlt]; try done;
    rewrite (Hsame _ _ Hu Huo) in Hlt; lia.
Qed.

(** ** Settling succeeds *)

(** A release of an active reservation by its requester cannot fail: no
    constraint, no idempotency key and no 64-bit bound stands in its way; the
    reservation becomes released and its whole amount moves from the
    requester's reserved to the available balance, and no other balance
    changes. *)
Theorem release_completes credit db env c rv req :
  money credit → reachable credit db → total db ≤ max_int64 →
  db_reservations db !! rv_ID rv = Some rv → rv_Status rv = ReservationActive →
  db_wallets db !! w_ID req = Some req → rv_WalletID rv = w_ID req →
  lc_RequesterSubject c = w_Auth0Subject req → in_int64 (w_Version req + 1) →
  ∃ db', release_op env (rv_OrderID rv) c db = Ok (mkResult ResultReleased 0 0 "", db') ∧
    db_reservations db' !! rv_ID rv
    = Some (set_amount_status env (rv_Amount rv) ReservationReleased rv) ∧
    ∀ j, avail db' j = avail db j + when (bool_decide (w_ID req = j)) (rv_Amount rv) ∧
         resv db' j = resv db j - when (bool_decide (w_ID req = j)) (rv_Amount rv).
Proof.
  intros Hm Hre Htot Hrv Hst Hreq Hrw Hs Hver. pose proof (reachable_ok credit db Hm Hre) as Hok.
  destruct (release_op_run env db Hok Htot rv req Hrv Hst Hreq Hrw Hver c Hs) as (db' & Hrun).
  exists db'. split; [done|]. apply release_op_effect in Hrun; [|done].
  assert (∀ i u, db_reservations db !! i = Some u → rv_OrderID u = rv_OrderID rv → u = rv) as Hsame.
  { intros i u Hi Ho. by eapply (same_order db Hok). }
  inversion Hrun as [Hno|i u Hi Ho Hu|i u Hi Ho Hu|u w e Hi Ho Hu Hw Huw He]; subst.
  - rewrite scan1_None in Hno. specialize (Hno _ _ Hrv). unfold by_order in Hno. by bool_props.
  - rewrite (Hsame _ _ Hi Ho) in Hu. congruence.
  - pose proof (Hsame _ _ Hi Ho) as ->. assert (w = req) as -> by congruence.
    split; [apply lookup_insert_eq|]. intros j. split.
    + etrans; [apply (avail_set_wallet db _ req _ j Hreq)|]. simpl. solve_deltas.
    + etrans; [apply (resv_set_wallet db _ req _ j Hreq)|]. simpl. solve_deltas.
Qed.

(** C4: A transfer out of an active reservation cannot fail when the requester
    can pay the part the reservation does not cover: the reservation becomes
    transferred, the courier receives exactly the amount, the requester's
    reserved balance drops by the whole reservation and the available balance
    by the amount less the reservation (so a surplus is returned), and no
    other balance changes. *)
Theorem transfer_completes credit db env c rv req cour :
  money credit → reachable credit db → total db ≤ max_int64 →
  db_reservations db !! rv_ID rv = Some rv → rv_Status rv = ReservationActive →
  db_wallets db !! w_ID req = Some req → rv_WalletID rv = w_ID req →
  db_wallets db !! w_ID cour = Some cour → w_ID cour ≠ w_ID req →
  tc_RequesterSubject c = w_Auth0Subject req → tc_CourierSubject c = w_Auth0Subject cour →
  0 < tc_Amount c ≤ max_int64 → tc_Amount c - rv_Amount rv ≤ w_Available req →
  in_int64 (w_Version req + 1) → in_int64 (w_Version cour + 1) →
  ∃ db', transfer_op env (rv_OrderID rv) c db = Ok (mkResult ResultTransferred 0 0 "", db') ∧
    db_reservations db' !! rv_ID rv
    = Some (set_amount_status env (rv_Amount rv) ReservationTransferred rv) ∧
    ∀ j, avail db' j = avail db j + when (bool_decide (w_ID req = j)) (rv_Amount rv - tc_Amount c)
                       + when (bool_decide (w_ID cour = j)) (tc_Amount c) ∧
         resv db' j = resv db j + when (bool_decide (w_ID req = j)) (- rv_Amount rv).
Proof.
  intros Hm Hre Htot Hrv Hst Hreq Hrw Hcour Hne Hrs Hcs Ha Hle Hv Hv'.
  pose proof (reachable_ok credit db Hm Hre) as Hok.
  destruct (transfer_op_run env db Hok Htot rv req Hrv Hst Hreq Hrw Hv cour Hcour Hne Hv' c)
    as (db' & Hrun); [done..|].
  exists db'. split; [done|].
  assert (tc_RequesterSubject c ≠ tc_CourierSubject c) as Hsub.
  { rewrite Hrs, Hcs. intros Heq. apply Hne.
    by rewrite (subject_inj db (ok_wallets _ Hok) _ _ Hreq Hcour Heq). }
  apply transfer_op_effect in Hrun; [|done|done|done].
  assert (∀ i u, db_reservations db !! i = Some u → rv_OrderID u = rv_OrderID rv → u = rv) as Hsame.
  { intros i u Hi Ho. by eapply (same_order db Hok). }
  inversion Hrun as [| | |i u Hi Ho Hu| | |u q k Hi Ho _ Hq Hqw Hk Hkq Hqs Hks]; subst.
  - rewrite (Hsame _ _ Hi Ho) in Hu. congruence.
  - pose proof (Hsame _ _ Hi Ho) as ->. assert (q = req) as -> by congruence.
    assert (k = cour) as ->.
    { apply (subject_inj db (ok_wallets _ Hok)); [done|done|congruence]. }
    split.
    + simpl. rewrite (proj1 (proj2 (transfer_ledger_frame env (rv_OrderID rv) (tc_Amount c) rv req cour db))).
      apply lookup_insert_eq.
    + intros j. split; [by apply transfer_avail|by apply transfer_resv].
Qed.

(** The check constraint on the subject holds for every wallet inserted. *)
Lemma create_wallet_tx_subject s env o subject db v db' :
  create_wallet_tx s env o subject db = Ok (v, db') → subject_check subject = true.
Proof.
  destruct (subject_check subject) eqn:Hs; [done|].
  unfold create_wallet_tx, bind, attempt, InsertWalletIfAbsent, bind, attempt, sql_insert_wallet.
  by rewrite Hs.
Qed.

(** The owner already has a wallet with this subject. *)
Lemma create_wallet_tx_existing s env o subject db i w :
  scan1 (by_owner o) (db_wallets db) = Some (i, w) → w_Auth0Subject w = subject →
  subject_check subject = true →
  create_wallet_tx s env o subject db = Ok ((fromRow w, false), db).
Proof.
  intros Hs Hw Hc.
  unfold create_wallet_tx, bind, attempt, InsertWalletIfAbsent, bind, attempt, sql_insert_wallet.
  rewrite Hc, Hs, bool_decide_true by done. simpl. unfold GetWalletByOwner, query1.
  rewrite Hs. simpl. by rewrite bool_decide_false by auto.
Qed.

(** Creating a wallet is idempotent: after a wallet was created for an
    owner and subject, a repeat of the call in any later state returns that
    wallet with [created = false] and changes nothing, so the initial credit is
    allocated once. *)
Theorem create_wallet_once credit s env owner subject db v db1 db2 s' env' :
  money credit → reachable credit db → s_initialCredit s = credit →
  CreateWallet s env owner subject db = (Ok (v, true), db1) → rtc (step credit) db1 db2 →
  ∃ w, CreateWallet s' env' owner subject db2 = (Ok (fromRow w, false), db2) ∧
    db_wallets db2 !! tx_uuid env = Some w ∧ v_OwnerID v = w_OwnerID w ∧
    v_Auth0Subject v = w_Auth0Subject w.
Proof.
  intros Hm Hre Hs Hcr Hst. pose proof (reachable_ok credit db Hm Hre) as Hok.
  destruct (step_sound credit db db1 Hm Hok (step_create _ _ _ _ _ _ _ _ Hs Hcr)) as (Hok1 & _ & _).
  destruct (steps_sound credit db1 db2 Hm Hok1 Hst) as (Hok2 & _ & Hk).
  unfold CreateWallet in *. destruct (validateOwnerID owner) as [o|] eqn:Ho; [|done].
  destruct (validateSubject subject) as [u|] eqn:Hsub; [|done].
  apply inTx_inv in Hcr as [(v' & [= <-] & Hv)|(e & ? & _)]; [|done].
  pose proof Hv as Hv0. apply create_wallet_tx_inv in Hv. inversion Hv as [|db' Hf _ _ Hdb Hvv]; subst.
  assert (∃ w1, db_wallets db1 !! tx_uuid env = Some w1 ∧ w_OwnerID w1 = o ∧ w_Auth0Subject w1 = subject)
    as (w1 & Hw1 & Ho1 & Hs1).
  { simpl in Hdb. destruct (0 <? s_initialCredit s).
    - destruct Hdb as (e & _ & ->). eexists. split; [apply lookup_insert_eq|done].
    - subst db1. eexists. split; [apply lookup_insert_eq|done]. }
  destruct (k_wallets _ _ Hk _ _ Hw1) as (w2 & Hw2 & _ & Ho2 & Hs2).
  exists w2. split; [|split_and!; [done|simpl; congruence..]].
  assert (scan1 (by_owner o) (db_wallets db2) = Some (tx_uuid env, w2)) as Hscan.
  { apply scan1_unique; [done| |].
    - unfold by_owner. apply bool_decide_eq_true. congruence.
    - intros j w Hj Hw. unfold by_owner in Hw. bool_props.
      eapply (wk_owner _ (ok_wallets _ Hok2)); [exact Hj|exact Hw2|congruence]. }
  assert (create_wallet_tx s' env' o subject db2 = Ok ((fromRow w2, false), db2)) as Hrun.
  { rewrite (create_wallet_tx_existing _ _ _ _ _ _ w2 Hscan); [done|congruence|].
    by apply create_wallet_tx_subject in Hv0. }
  unfold inTx. by rewrite Hrun.
Qed.

(** ** A concrete run *)

Module Scenario.

Definition svc : Service := mkService 100 None.
Definition alice := "auth0|alice".
Definition bob := "auth0|bob".
Definition alice_id := "a11ce000-0000-4000-8000-000000000001".
Definition bob_id := "b0b00000-0000-4000-8000-000000000002".
Definition wa := "00000000-0000-4000-8000-00000000000a".
Definition wb := "00000000-0000-4000-8000-00000000000b".
Definition ra := "00000000-0000-4000-8000-0000000000aa".
Definition order := "0e000000-0000-4000-8000-000000000001".
Definition order2 := "0e000000-0000-4000-8000-000000000002".

Definition env1 := mkTxEnv 1 wa.
Definition env2 := mkTxEnv 2 wb.
Definition env3 := mkTxEnv 3 ra.
Definition env4 := mkTxEnv 4 "00000000-0000-4000-8000-0000000000ff".

Definition reserve40 := mkReserve order 1 alice 40.
Definition adjust60 := mkAdjust order 2 alice 60 4.
Definition adjust50 := mkAdjust order 2 alice 50 2.
Definition release1 := mkRelease order 3 alice.
Definition release2 := mkRelease order2 3 alice.
Definition transfer50 := mkTransfer order 3 alice bob 50.

(** Two wallets, a reservation of 40, raised to 60, released or transferred. *)
Definition db1 : DB := Eval vm_compute in snd (CreateWallet svc env1 alice_id alice empty_db).
Definition db2 : DB := Eval vm_compute in snd (CreateWallet svc env2 bob_id bob db1).
Definition db3 : DB := Eval vm_compute in snd (run_command svc env3 "m1" (CReserve reserve40) db2).
Definition db4 : DB := Eval vm_compute in snd (run_command svc env4 "m2" (CAdjust adjust60) db3).
Definition db5 : DB := Eval vm_compute in snd (run_command svc env4 "m3" (CTransfer transfer50) db4).

Definition wallet_of (db : DB) (i : string) : Wallet := default Wallet_zero (db_wallets db !! i).
Definition reservation : Reservation :=
  Eval vm_compute in new_reservation env3 wa order 40.

Lemma credit_ok : money 100.
Proof. unfold money, max_int64. lia. Qed.

Lemma reach1 : reachable 100 db1.
Proof. eapply rtc_once, (step_create 100 svc env1 alice_id alice); [done|]. vm_compute. reflexivity. Qed.
Lemma reach2 : reachable 100 db2.
Proof.
  eapply rtc_r; [apply reach1|]. eapply (step_create 100 svc env2 bob_id bob); [done|].
  vm_compute. reflexivity.
Qed.
Lemma step3 : step 100 db2 db3.
Proof. by eapply (step_command 100 svc env3 "m1" (CReserve reserve40)); [..|vm_compute; reflexivity]. Qed.
Lemma reach3 : reachable 100 db3.
Proof. eapply rtc_r; [apply reach2|apply step3]. Qed.
Lemma step4 : step 100 db3 db4.
Proof. by eapply (step_command 100 svc env4 "m2" (CAdjust adjust60)); [..|vm_compute; reflexivity]. Qed.
Lemma reach4 : reachable 100 db4.
Proof. eapply rtc_r; [apply reach3|apply step4]. Qed.
Lemma step5 : step 100 db4 db5.
Proof. by eapply (step_command 100 svc env4 "m3" (CTransfer transfer50)); [..|vm_compute; reflexivity]. Qed.
Lemma reach5 : reachable 100 db5.
Proof. eapply rtc_r; [apply reach4|apply step5]. Qed.

End Scenario.
Import Scenario.

Lemma wallet_ledger_audit_witness :
  w_Available (wallet_of db5 wa) = led_av db5 wa ∧ w_Reserved (wallet_of db5 wa) = led_rv db5 wa ∧
  w_Reserved (wallet_of db5 wa) = held db5 wa ∧
  0 ≤ w_Available (wallet_of db5 wa) ∧ 0 ≤ w_Reserved (wallet_of db5 wa).
Proof. apply (wallet_ledger_audit 100 db5 wa _ credit_ok reach5). vm_compute. reflexivity. Defined.

Lemma credits_conserved_witness : total db5 = 100 * Z.of_nat (size (db_wallets db5)).
Proof. apply (credits_conserved 100 db5 credit_ok reach5). Defined.

Lemma command_redelivery_witness :
  mkResult ResultReserved 40 0 "" = mkResult ResultReserved 40 0 "" ∧ same_but_outbox db5 db5.
Proof.
  eapply (command_redelivery 100 db2 svc env3 "m1" (CReserve reserve40) _ db3 db5 svc env4
            (CTransfer transfer50) _ db5 credit_ok reach2).
  - done.
  - done.
  - vm_compute. reflexivity.
  - done.
  - eapply rtc_l; [apply step4|]. eapply rtc_once, step5.
  - done.
  - vm_compute. reflexivity.
Defined.

Lemma reservation_settled_once_witness :
  db_reservations db5 !! ra
  = Some (mkReservation ra wa order 60 ReservationTransferred 4 3 4).
Proof.
  apply (reservation_settled_once 100 db5 db5 ra _ credit_ok reach5); [vm_compute; reflexivity|done|].
  apply rtc_refl.
Defined.

Lemma release_before_reserve_witness :
  mkResult ResultReleased 0 0 "" = mkResult ResultReleased 0 0 "" ∧
  (∀ i rv, db_reservations (add_released order2 db3) !! i = Some rv → rv_OrderID rv ≠ order2) ∧
  reserve_op env4 order2 (mkReserve order2 1 alice 10) (add_released order2 db3)
  = Ok (mkResult ResultReservationRefused 0 0 CodeReservationReleased, add_released order2 db3).
Proof.
  apply (release_before_reserve 100 db3 env4 order2 release2 (add_released order2 db3) _ _ env4
           (mkReserve order2 1 alice 10) credit_ok reach3); [vm_compute; reflexivity..|apply rtc_refl].
Defined.

Lemma stale_adjust_changes_nothing_witness :
  set_reservations <[ra := mkReservation ra wa order 60 ReservationActive 4 3 4]> db4 = db4.
Proof.
  eapply (stale_adjust_changes_nothing 100 db4 env4 order adjust60 _ db4 db4 env4 adjust50 _ _
            credit_ok reach4).
  - simpl. unfold max_int64. lia.
  - simpl. unfold max_int64. lia.
  - vm_compute. reflexivity.
  - done.
  - apply rtc_refl.
  - simpl. lia.
  - vm_compute. reflexivity.
Defined.

Lemma release_completes_witness :
  ∃ db', release_op env4 order release1 db3 = Ok (mkResult ResultReleased 0 0 "", db') ∧
    db_reservations db' !! ra = Some (set_amount_status env4 40 ReservationReleased reservation) ∧
    ∀ j, avail db' j = avail db3 j + when (bool_decide (wa = j)) 40 ∧
         resv db' j = resv db3 j - when (bool_decide (wa = j)) 40.
Proof.
  apply (release_completes 100 db3 env4 release1 reservation (wallet_of db3 wa) credit_ok reach3);
    try (vm_compute; reflexivity); vm_compute; try split; discriminate.
Defined.

Lemma transfer_completes_witness :
  ∃ db', transfer_op env4 order transfer50 db3 = Ok (mkResult ResultTransferred 0 0 "", db') ∧
    db_reservations db' !! ra = Some (set_amount_status env4 40 ReservationTransferred reservation) ∧
    ∀ j, avail db' j = avail db3 j + when (bool_decide (wa = j)) (40 - 50)
                       + when (bool_decide (wb = j)) 50 ∧
         resv db' j = resv db3 j + when (bool_decide (wa = j)) (-40).
Proof.
  apply (transfer_completes 100 db3 env4 transfer50 reservation (wallet_of db3 wa) (wallet_of db3 wb)
           credit_ok reach3); try (vm_compute; reflexivity); vm_compute; try split;
    reflexivity || discriminate.
Defined.

Lemma create_wallet_once_witness :
  ∃ w, CreateWallet svc env4 alice_id alice db5 = (Ok (fromRow w, false), db5) ∧
    db_wallets db5 !! wa = Some w ∧ alice_id = w_OwnerID w ∧ alice = w_Auth0Subject w.
Proof.
  eapply (create_wallet_once 100 svc env1 alice_id alice empty_db (mkWalletView alice_id alice 100 0 1)
            db1 db5 svc env4 credit_ok).
  - apply rtc_refl.
  - done.
  - vm_compute. reflexivity.
  - eapply rtc_l; [eapply (step_create 100 svc env2 bob_id bob); [done|vm_compute; reflexivity]|].
    eapply rtc_l; [apply step3|]. eapply rtc_l; [apply step4|]. apply rtc_once, step5.
Defined.
