(* ===== verification/CreditOutbox.v ===== *)
(** * credit-service: the result outbox

    [internal/database/outboxrepo]: results are stored with the balance change
    and published later by workers that lease rows.  [clock] is the value of
    [clock_timestamp()] in the statement; statements run one after another, so
    no row is locked while [Claim] runs.  Identity values are drawn in order. *)

From S2P Require Import Prelude GoText Json WalletRepo Wallet.

(** ** Rows *)

(** Postgres [integer]. *)
Definition max_int32 : Z := 2147483647.

Definition result_keys : list string :=
  [ResultReserved; ResultReservationRefused; ResultAdjusted; ResultAdjustRefused;
   ResultReleased; ResultTransferred; ResultOperationFailed].

Definition by_key (key : string) (r : OutboxRow) : bool := bool_decide (ob_Key r = key).

(** The next value of the identity column. *)
Definition next_id {A} (m : gmap Z A) : Z := 1 + map_fold (λ i _ acc, Z.max i acc) 0 m.

Definition new_row (clock id : Z) (key routingKey : string) (payload : json) : OutboxRow :=
  mkOutboxRow id key routingKey payload StatusPending 0 clock None None None None.

Definition pending_again (clock : Z) (r : OutboxRow) : OutboxRow :=
  mkOutboxRow (ob_ID r) (ob_Key r) (ob_RoutingKey r) (ob_Payload r) StatusPending 0 clock
    None None None (ob_SentAt r).

(** ** Statements *)

(** [INSERT ... ON CONFLICT (idempotency_key) DO UPDATE ... WHERE status <> 'PENDING']. *)
Definition Enqueue (clock : Z) (key routingKey : string) (payload : json) : Op unit :=
  λ db,
    if negb (bool_decide (routingKey ∈ result_keys)) then
      Err (ErrPg codeCheckViolation "outbox_routing_key_known")
    else match scan1 (by_key key) (db_outbox db) with
    | Some (i, r) =>
        if bool_decide (ob_Status r ≠ StatusPending)
        then Ok (tt, set_outbox <[i := pending_again clock r]> db)
        else Ok (tt, db)
    | None =>
        let i := next_id (db_outbox db) in
        Ok (tt, set_outbox <[i := new_row clock i key routingKey payload]> db)
    end.

Definition is_due (clock : Z) (r : OutboxRow) : bool :=
  bool_decide (ob_Status r = StatusPending) && (ob_NextAttemptAt r <=? clock) &&
  match ob_LeaseExpiresAt r with Some e => e <? clock | None => true end.

(** [ORDER BY next_attempt_at, id] *)
Definition due_le (r r' : OutboxRow) : Prop :=
  ob_NextAttemptAt r < ob_NextAttemptAt r' ∨
  (ob_NextAttemptAt r = ob_NextAttemptAt r' ∧ ob_ID r ≤ ob_ID r').
#[export] Instance due_le_dec r r' : Decision (due_le r r').
Proof. unfold due_le. apply _. Defined.

Definition id_le (r r' : OutboxRow) : Prop := ob_ID r ≤ ob_ID r'.
#[export] Instance id_le_dec r r' : Decision (id_le r r').
Proof. unfold id_le. apply _. Defined.

Definition due_rows (clock limit : Z) (m : gmap Z OutboxRow) : list OutboxRow :=
  take (Z.to_nat limit) (merge_sort due_le (snd <$> scan (is_due clock) m)).

Definition leased (clock lease : Z) (worker : string) (r : OutboxRow) : OutboxRow :=
  mkOutboxRow (ob_ID r) (ob_Key r) (ob_RoutingKey r) (ob_Payload r) (ob_Status r)
    (ob_Attempts r + 1) (ob_NextAttemptAt r) (Some worker) (Some (clock + lease))
    (ob_LastFailureCode r) (ob_SentAt r).

(** Write every row of [rows] back under its id. *)
Definition put_rows (rows : list OutboxRow) (m : gmap Z OutboxRow) : gmap Z OutboxRow :=
  foldr (λ r m, <[ob_ID r := r]> m) m rows.

Definition Claim (clock : Z) (worker : string) (limit lease : Z) : Op (list OutboxRow) :=
  λ db,
    let claimed := leased clock lease worker <$> due_rows clock limit (db_outbox db) in
    if existsb (λ r, max_int32 <? ob_Attempts r) claimed then Err (ErrPg codeOutOfRange "")
    else Ok (merge_sort id_le claimed, set_outbox (put_rows claimed) db).

(** [UPDATE outbox SET ... WHERE id = $1 AND lease_owner = $2 AND status = 'PENDING'],
    and whether it changed the row. *)
Definition sql_update_leased (id : Z) (worker : string) (f : OutboxRow → OutboxRow) : Op bool :=
  λ db,
    match db_outbox db !! id with
    | Some r =>
        if bool_decide (ob_LeaseOwner r = Some worker) && bool_decide (ob_Status r = StatusPending)
        then Ok (true, set_outbox <[id := f r]> db)
        else Ok (false, db)
    | None => Ok (false, db)
    end.

Definition sent (clock : Z) (r : OutboxRow) : OutboxRow :=
  mkOutboxRow (ob_ID r) (ob_Key r) (ob_RoutingKey r) (ob_Payload r) StatusSent (ob_Attempts r)
    (ob_NextAttemptAt r) None None None (Some clock).
Definition rescheduled (clock delay : Z) (code : string) (r : OutboxRow) : OutboxRow :=
  mkOutboxRow (ob_ID r) (ob_Key r) (ob_RoutingKey r) (ob_Payload r) (ob_Status r) (ob_Attempts r)
    (clock + delay) None None (Some code) (ob_SentAt r).
Definition failed_row (code : string) (r : OutboxRow) : OutboxRow :=
  mkOutboxRow (ob_ID r) (ob_Key r) (ob_RoutingKey r) (ob_Payload r) StatusFailed (ob_Attempts r)
    (ob_NextAttemptAt r) None None (Some code) (ob_SentAt r).

Definition MarkSent (clock id : Z) (worker : string) : Op bool :=
  sql_update_leased id worker (sent clock).
Definition Reschedule (clock id : Z) (worker : string) (delay : Z) (code : string) : Op bool :=
  sql_update_leased id worker (rescheduled clock delay code).
Definition MarkFailed (id : Z) (worker code : string) : Op bool :=
  sql_update_leased id worker (failed_row code).

(** ** The table invariant *)

Record outbox_ok (m : gmap Z OutboxRow) : Prop := {
  obk_id i r : m !! i = Some r → ob_ID r = i;
  obk_key i j r r' : m !! i = Some r → m !! j = Some r' → ob_Key r = ob_Key r' → i = j;
  obk_routing i r : m !! i = Some r → ob_RoutingKey r ∈ result_keys ∧ 0 ≤ ob_Attempts r;
}.

Lemma outbox_ok_empty : outbox_ok ∅.
Proof. split; intros *; by rewrite !lookup_empty. Qed.

Lemma next_id_fresh {A} (m : gmap Z A) : m !! next_id m = None.
Proof.
  assert (∀ i, is_Some (m !! i) → i ≤ map_fold (λ i _ acc, Z.max i acc) 0 m) as Hle.
  { apply (map_fold_weak_ind (λ acc m, ∀ i, is_Some (m !! i) → i ≤ acc)).
    - intros i. rewrite lookup_empty. by intros [? ?].
    - intros i x m' acc Hi IH j [->|[Hne Hj]]%lookup_insert_is_Some; [lia|].
      specialize (IH j Hj). lia. }
  apply eq_None_not_Some. intros Hs%Hle. unfold next_id in Hs. lia.
Qed.

(** What identifies a row: its key, routing key and payload. *)
Definition same_message (r r' : OutboxRow) : Prop :=
  ob_ID r' = ob_ID r ∧ ob_Key r' = ob_Key r ∧ ob_RoutingKey r' = ob_RoutingKey r ∧
  ob_Payload r' = ob_Payload r.

Lemma outbox_ok_update m i r r' :
  outbox_ok m → m !! i = Some r → same_message r r' → 0 ≤ ob_Attempts r' →
  outbox_ok (<[i := r']> m).
Proof.
  intros [Hid Hkey Hrt] Hi (Hs1 & Hs2 & Hs3 & _) Ha.
  assert (∀ j u, <[i := r']> m !! j = Some u → ∃ u0, m !! j = Some u0 ∧ ob_Key u = ob_Key u0) as Hback.
  { intros j u [[-> <-]|[? Hj]]%lookup_insert_Some; eauto. }
  split.
  - intros j u [[-> <-]|[? Hj]]%lookup_insert_Some; [rewrite Hs1|]; eauto.
  - intros j k u v Hj Hk Heq. destruct (Hback _ _ Hj) as (u0 & ? & ?), (Hback _ _ Hk) as (v0 & ? & ?).
    eapply (Hkey j k u0 v0); congruence.
  - intros j u [[-> <-]|[? Hj]]%lookup_insert_Some; [|eauto]. rewrite Hs3.
    split; [|done]. by eapply Hrt.
Qed.

Lemma outbox_ok_new m i r :
  outbox_ok m → m !! i = None → ob_ID r = i → scan1 (by_key (ob_Key r)) m = None →
  ob_RoutingKey r ∈ result_keys → 0 ≤ ob_Attempts r → outbox_ok (<[i := r]> m).
Proof.
  intros [Hid Hkey Hrt] Hi Hrid Hno Hr Ha. rewrite scan1_None in Hno.
  assert (∀ j u, m !! j = Some u → ob_Key u ≠ ob_Key r) as Hne.
  { intros j u Hj. specialize (Hno _ _ Hj). unfold by_key in Hno. by bool_props. }
  split.
  - intros j u [[-> <-]|[? Hj]]%lookup_insert_Some; eauto.
  - intros j k u v [[-> <-]|[? Hj]]%lookup_insert_Some [[-> <-]|[? Hk]]%lookup_insert_Some Heq;
      try done; [by edestruct Hne|by edestruct Hne|by eauto].
  - intros j u [[-> <-]|[? Hj]]%lookup_insert_Some; eauto.
Qed.

(** ** Enqueue *)

Lemma Enqueue_Ok clock key rk p db u db' :
  Enqueue clock key rk p db = Ok (u, db') → ∃ f, db' = set_outbox f db.
Proof.
  unfold Enqueue. intros H. break_in H; [by eexists|exists id; by destruct db'|by eexists].
Qed.

Lemma Enqueue_outbox_ok clock key rk p db u db' :
  outbox_ok (db_outbox db) → Enqueue clock key rk p db = Ok (u, db') → outbox_ok (db_outbox db').
Proof.
  intros Hok. unfold Enqueue. intros H.
  destruct (bool_decide (rk ∈ result_keys)) eqn:Hrk; [|done]. bool_props. simpl in H.
  destruct (scan1 _ _) as [[i r]|] eqn:Hs.
  - apply scan1_Some in Hs as [Hi _]. case_bool_decide; inversion H; subst; [|done].
    by eapply outbox_ok_update.
  - inversion H; subst. simpl. apply outbox_ok_new; try done. apply next_id_fresh.
Qed.

(** ** Claim *)

Lemma put_rows_in rows m r :
  NoDup (ob_ID <$> rows) → r ∈ rows → put_rows rows m !! ob_ID r = Some r.
Proof.
  induction rows as [|r0 rows IH]; intros Hnd Hin; [by apply elem_of_nil in Hin|].
  apply NoDup_cons in Hnd as [Hn Hnd]. simpl. apply elem_of_cons in Hin as [->|Hin].
  - apply lookup_insert_eq.
  - rewrite lookup_insert_ne; [by apply IH|]. intros Heq. apply Hn. rewrite Heq.
    apply list_elem_of_fmap. eauto.
Qed.

Lemma put_rows_out rows m i : i ∉ ob_ID <$> rows → put_rows rows m !! i = m !! i.
Proof.
  induction rows as [|r0 rows IH]; simpl; [done|]. intros [Hi Hn]%not_elem_of_cons.
  rewrite lookup_insert_ne by done. by apply IH.
Qed.

Lemma elem_of_due_rows clock limit m r :
  outbox_ok m → r ∈ due_rows clock limit m → m !! ob_ID r = Some r ∧ is_due clock r = true.
Proof.
  intros Hok Hin. unfold due_rows in Hin. apply elem_of_take in Hin as (k & Hk & _).
  apply list_elem_of_lookup_2 in Hk. rewrite merge_sort_Permutation in Hk.
  apply list_elem_of_fmap in Hk as ([i u] & -> & [Hi Hd]%elem_of_scan). simpl.
  by rewrite (obk_id _ Hok i u Hi).
Qed.

Lemma NoDup_due_rows clock limit m : outbox_ok m → NoDup (ob_ID <$> due_rows clock limit m).
Proof.
  intros Hok. unfold due_rows. rewrite fmap_take.
  eapply (sublist_NoDup _ (ob_ID <$> merge_sort due_le (snd <$> scan (is_due clock) m)));
    [|apply sublist_take].
  rewrite merge_sort_Permutation, <- list_fmap_compose.
  apply NoDup_fmap_2_strong; [|apply NoDup_scan].
  intros [i u] [j v] [Hi _]%elem_of_scan [Hj _]%elem_of_scan. simpl. intros Heq.
  rewrite (obk_id _ Hok i u Hi), (obk_id _ Hok j v Hj) in Heq. subst j. congruence.
Qed.

Lemma leased_ids clock lease worker (rows : list OutboxRow) :
  ob_ID <$> (leased clock lease worker <$> rows) = ob_ID <$> rows.
Proof. by rewrite <- list_fmap_compose. Qed.

(** What a claim returned and changed. *)
Record claimed (clock lease : Z) (worker : string) (db : DB) (rows : list OutboxRow) (db' : DB) : Prop := {
  cl_nodup : NoDup (ob_ID <$> rows);
  cl_row r : r ∈ rows → db_outbox db' !! ob_ID r = Some r ∧
    ∃ r0, db_outbox db !! ob_ID r = Some r0 ∧ is_due clock r0 = true ∧ r = leased clock lease worker r0;
  cl_other i : i ∉ ob_ID <$> rows → db_outbox db' !! i = db_outbox db !! i;
  cl_sorted : Sorted id_le rows;
  cl_frame : ∃ f, db' = set_outbox f db;
}.

#[export] Instance id_le_total : Total id_le.
Proof. intros r r'. unfold id_le. lia. Qed.
#[export] Instance due_le_total : Total due_le.
Proof. intros r r'. unfold due_le. lia. Qed.
#[export] Instance due_le_trans : Transitive due_le.
Proof. intros r1 r2 r3. unfold due_le. lia. Qed.

Lemma Claim_Ok clock worker limit lease db rows db' :
  outbox_ok (db_outbox db) → Claim clock worker limit lease db = Ok (rows, db') →
  claimed clock lease worker db rows db'.
Proof.
  intros Hok. unfold Claim. destruct (existsb _ _); [done|]. intros [= <- <-].
  set (due := due_rows clock limit (db_outbox db)).
  assert (NoDup (ob_ID <$> (leased clock lease worker <$> due))) as Hnd.
  { rewrite leased_ids. by apply NoDup_due_rows. }
  split.
  - by rewrite merge_sort_Permutation.
  - intros r. rewrite merge_sort_Permutation. intros Hin. split; [by apply put_rows_in|].
    apply list_elem_of_fmap in Hin as (r0 & -> & Hin).
    apply elem_of_due_rows in Hin as [? ?]; [|done]. by exists r0.
  - intros i. rewrite merge_sort_Permutation. apply put_rows_out.
  - apply Sorted_merge_sort, _.
  - by eexists.
Qed.

(** A row somebody holds is not claimed before its lease runs out. *)
Lemma claimed_not_held clock lease worker db rows db' i r e :
  claimed clock lease worker db rows db' → db_outbox db !! i = Some r →
  ob_LeaseExpiresAt r = Some e → clock ≤ e → i ∉ ob_ID <$> rows.
Proof.
  intros Hcl Hi He Hle (r1 & -> & Hin)%list_elem_of_fmap.
  destruct (cl_row _ _ _ _ _ _ Hcl r1 Hin) as (_ & r0 & Hr0 & Hdue & ->).
  simpl in *. unfold is_due in Hdue. rewrite Hr0 in Hi. injection Hi as ->.
  rewrite He in Hdue. bool_props. lia.
Qed.

(** The claim takes the oldest due rows: a due row is left only when [limit]
    rows that were due no later are taken. *)
Lemma due_rows_oldest clock limit m i r :
  m !! i = Some r → is_due clock r = true → r ∉ due_rows clock limit m →
  length (due_rows clock limit m) = Z.to_nat limit ∧
  Forall (λ r', due_le r' r) (due_rows clock limit m).
Proof.
  intros Hi Hd. unfold due_rows. set (l := merge_sort due_le _). intros Hn.
  assert (r ∈ l) as Hin.
  { unfold l. rewrite merge_sort_Permutation. apply list_elem_of_fmap.
    exists (i, r). split; [done|]. by apply elem_of_scan. }
  rewrite <- (take_drop (Z.to_nat limit) l) in Hin.
  apply elem_of_app in Hin as [?|Hin]; [done|].
  assert (StronglySorted due_le l) as Hs by (apply StronglySorted_merge_sort; apply _).
  split.
  - rewrite length_take. destruct (decide (length l ≤ Z.to_nat limit)%nat) as [Hl|Hl]; [|lia].
    rewrite drop_ge in Hin by done. by apply elem_of_nil in Hin.
  - rewrite <- (take_drop (Z.to_nat limit) l) in Hs.
    apply Forall_forall. intros r' Hr'. by eapply StronglySorted_app_1_elem_of in Hs.
Qed.

(** ** Settling a leased row *)

Lemma update_leased_inv id worker f db b db' :
  sql_update_leased id worker f db = Ok (b, db') →
  (b = true ∧ ∃ r, db_outbox db !! id = Some r ∧ ob_LeaseOwner r = Some worker ∧
     ob_Status r = StatusPending ∧ db' = set_outbox <[id := f r]> db) ∨
  (b = false ∧ db' = db ∧ ∀ r, db_outbox db !! id = Some r →
     ob_LeaseOwner r ≠ Some worker ∨ ob_Status r ≠ StatusPending).
Proof.
  unfold sql_update_leased. destruct (db_outbox db !! id) as [r|] eqn:Hr.
  - destruct (bool_decide (ob_LeaseOwner r = _)) eqn:Ho, (bool_decide (ob_Status r = _)) eqn:Hs;
      simpl; intros [= <- <-]; bool_props; [left; eauto 10| | |];
      right; (split_and!; [done|done|]); intros r' [= <-]; auto.
  - intros [= <- <-]. by right.
Qed.

Lemma update_leased_run id worker f db r :
  db_outbox db !! id = Some r → ob_LeaseOwner r = Some worker → ob_Status r = StatusPending →
  sql_update_leased id worker f db = Ok (true, set_outbox <[id := f r]> db).
Proof.
  intros Hr Ho Hs. unfold sql_update_leased. by rewrite Hr, !bool_decide_true by done.
Qed.
