(* ===== verification/CreditMsg.v ===== *)
(** * credit-service: the message layer

    [internal/creditmsg]: decoding command messages and dispatching them to the
    wallet service, storing result messages in the outbox, publishing them, and
    settling deliveries.  A message body is its JSON value, or [None] when the
    bytes are not one JSON value.  The broker, the random jitter and the clock
    are arguments. *)

From S2P Require Import Prelude GoText Json GoTime WalletRepo Wallet CreditOutbox.

(** ** envelope.go *)

Definition CommandReserve := "credit.reserve".
Definition CommandAdjust := "credit.adjust".
Definition CommandRelease := "credit.release".
Definition CommandTransfer := "credit.transfer".

Record Envelope := mkEnvelope {
  e_MessageID : string;
  e_CorrelationID : string;
  e_Type : string;
  e_OccurredAt : Z;
  e_ErrandID : string;
  e_ErrandVersion : Z;
  e_Data : option json;           (* [None] is the nil [json.RawMessage] *)
}.

(** [json.Unmarshal(body, &env)] *)
Definition unmarshal_envelope (body : option json) : option Envelope :=
  obind body (λ v, obind (members v) (λ ms,
  obind (dec_field dec_string "messageId" ms "") (λ mid,
  obind (dec_field dec_string "correlationId" ms "") (λ cid,
  obind (dec_field dec_string "type" ms "") (λ ty,
  obind (dec_field dec_time "occurredAt" ms zero_time) (λ at_,
  obind (dec_field dec_string "errandId" ms "") (λ eid,
  obind (dec_field dec_int64 "errandVersion" ms 0) (λ ver,
  obind (dec_field dec_raw "data" ms None) (λ data,
    Some (mkEnvelope mid cid ty at_ eid ver data)))))))))).

(** [json.Marshal(env)], which fails on a time outside the years 0 to 9999. *)
Definition marshal_envelope (e : Envelope) : option json :=
  obind (format_rfc3339 (e_OccurredAt e)) (λ t,
    Some (JObj ([("messageId", JStr (e_MessageID e))]
                ++ enc_str_omit "correlationId" (e_CorrelationID e)
                ++ [("type", JStr (e_Type e)); ("occurredAt", JStr t);
                    ("errandId", JStr (e_ErrandID e)); ("errandVersion", JInt (e_ErrandVersion e));
                    ("data", default JNull (e_Data e))]))).

Definition decodeEnvelope (routingKey : string) (body : option json) : res GoError Envelope :=
  match unmarshal_envelope body with
  | None => Err ErrUndecodable
  | Some env =>
      if bool_decide (e_MessageID env = "") then Err ErrUndecodable
      else if negb (bool_decide (e_Type env = routingKey)) then Err ErrUndecodable
      else if bool_decide (e_ErrandID env = "") then Err ErrUndecodable
      else if e_ErrandVersion env <? 1 then Err ErrUndecodable
      else Ok env
  end.

(** [strings.EqualFold] on ASCII text. *)
Definition equal_fold (s t : string) : bool := bool_decide (to_lower s = to_lower t).

(** [decodeData]: [dec] decodes the members into the struct, [ids] is its
    method. *)
Definition decodeData {A} (dec : list (string * json) → option A) (ids : A → string * Z)
    (env : Envelope) : res GoError A :=
  match obind (e_Data env) (λ v, obind (members v) dec) with
  | None => Err ErrUndecodable
  | Some d =>
      if negb (equal_fold (ids d).1 (e_ErrandID env)) || negb ((ids d).2 =? e_ErrandVersion env)
      then Err ErrUndecodable
      else Ok d
  end.

Record reserveData := mkReserveData {
  rd_ErrandID : string; rd_ErrandVersion : Z; rd_RequesterID : string; rd_Amount : Z }.
Record adjustData := mkAdjustData {
  ad_ErrandID : string; ad_ErrandVersion : Z; ad_RequesterID : string; ad_NewAmount : Z; ad_Seq : Z }.
Record releaseData := mkReleaseData {
  ld_ErrandID : string; ld_ErrandVersion : Z; ld_RequesterID : string }.
Record transferData := mkTransferData {
  td_ErrandID : string; td_ErrandVersion : Z; td_RequesterID : string; td_CourierID : string;
  td_Amount : Z }.

(** The fields the four structs share. *)
Definition dec_ids {A} (ms : list (string * json)) (k : string → Z → string → option A) : option A :=
  obind (dec_field dec_string "errandId" ms "") (λ eid,
  obind (dec_field dec_int64 "errandVersion" ms 0) (λ ver,
  obind (dec_field dec_string "requesterId" ms "") (λ req, k eid ver req))).

Definition dec_reserveData (ms : list (string * json)) : option reserveData :=
  dec_ids ms (λ eid ver req,
  obind (dec_field dec_int64 "amount" ms 0) (λ a, Some (mkReserveData eid ver req a))).
Definition dec_adjustData (ms : list (string * json)) : option adjustData :=
  dec_ids ms (λ eid ver req,
  obind (dec_field dec_int64 "newAmount" ms 0) (λ a,
  obind (dec_field dec_int64 "seq" ms 0) (λ q, Some (mkAdjustData eid ver req a q)))).
Definition dec_releaseData (ms : list (string * json)) : option releaseData :=
  dec_ids ms (λ eid ver req, Some (mkReleaseData eid ver req)).
Definition dec_transferData (ms : list (string * json)) : option transferData :=
  dec_ids ms (λ eid ver req,
  obind (dec_field dec_string "courierId" ms "") (λ cou,
  obind (dec_field dec_int64 "amount" ms 0) (λ a, Some (mkTransferData eid ver req cou a)))).

(** ** handler.go *)

(** [Commands]: what the handler needs of the wallet service, over the
    state [S] the service keeps. *)
Record Commands (S : Type) := mkCommands {
  do_Reserve : string → ReserveCommand → S → res GoError Result * S;
  do_Adjust : string → AdjustCommand → S → res GoError Result * S;
  do_Release : string → ReleaseCommand → S → res GoError Result * S;
  do_Transfer : string → TransferCommand → S → res GoError Result * S;
}.
Arguments do_Reserve {S}. Arguments do_Adjust {S}.
Arguments do_Release {S}. Arguments do_Transfer {S}.

Section handler.
Context {S : Type} (commands : Commands S).

Definition Handle (routingKey : string) (body : option json) (st : S) : res GoError Result * S :=
  match decodeEnvelope routingKey body with
  | Err e => (Err e, st)
  | Ok env =>
      let mid := e_MessageID env in
      let order := e_ErrandID env in
      let ver := e_ErrandVersion env in
      if bool_decide (routingKey = CommandReserve) then
        match decodeData dec_reserveData (λ d, (rd_ErrandID d, rd_ErrandVersion d)) env with
        | Err e => (Err e, st)
        | Ok d => do_Reserve commands mid (mkReserve order ver (rd_RequesterID d) (rd_Amount d)) st
        end
      else if bool_decide (routingKey = CommandAdjust) then
        match decodeData dec_adjustData (λ d, (ad_ErrandID d, ad_ErrandVersion d)) env with
        | Err e => (Err e, st)
        | Ok d => do_Adjust commands mid
                    (mkAdjust order ver (ad_RequesterID d) (ad_NewAmount d) (ad_Seq d)) st
        end
      else if bool_decide (routingKey = CommandRelease) then
        match decodeData dec_releaseData (λ d, (ld_ErrandID d, ld_ErrandVersion d)) env with
        | Err e => (Err e, st)
        | Ok d => do_Release commands mid (mkRelease order ver (ld_RequesterID d)) st
        end
      else if bool_decide (routingKey = CommandTransfer) then
        match decodeData dec_transferData (λ d, (td_ErrandID d, td_ErrandVersion d)) env with
        | Err e => (Err e, st)
        | Ok d => do_Transfer commands mid
                    (mkTransfer order ver (td_RequesterID d) (td_CourierID d) (td_Amount d)) st
        end
      else (Err ErrUndecodable, st)
  end.

End handler.

Inductive Disposition := Ack | Reject | Requeue.
#[export] Instance Disposition_eq_dec : EqDecision Disposition.
Proof. solve_decision. Defined.

Definition DispositionOf {A} (r : res GoError A) : Disposition :=
  match r with
  | Ok _ => Ack
  | Err ErrUndecodable | Err (WalletErrInvalid _) | Err WalletErrConflict => Reject
  | Err _ => Requeue
  end.

(** ** result.go *)

Definition enc_resultData (r : Result) : json :=
  JObj (enc_int_omit "amount" (r_Amount r) ++ enc_int_omit "seq" (r_Seq r)
        ++ enc_str_omit "code" (r_Code r)).

Definition BuildResult (reply : Reply) (result : Result) (occurredAt : Z) : Envelope :=
  mkEnvelope (rp_CommandMessageID reply +:+ ":" +:+ r_Type result) (rp_CommandMessageID reply)
    (r_Type result) (truncate_second occurredAt) (rp_OrderID reply) (rp_ErrandVersion reply)
    (Some (enc_resultData result)).

(** [OutboxRecorder.RecordResult]; [now] is [r.now()]. *)
Definition RecordResult (now clock : Z) : Recorder :=
  λ reply result,
    if rp_ErrandVersion reply <? 1 then
      fail (ErrOther "creditmsg: a result message needs the errand version of the command")
    else
      let env := BuildResult reply result now in
      match marshal_envelope env with
      | None => fail (ErrOther "Time.MarshalJSON: year outside of range [0,9999]")
      | Some payload => Enqueue clock (e_MessageID env) (e_Type env) payload
      end.

(** ** publisher.go *)

Inductive PublishError :=
| ErrUnpublishable | ErrUnroutable | ErrBrokerUnavailable | DeadlineExceeded | OtherPublishError.
#[export] Instance PublishError_eq_dec : EqDecision PublishError.
Proof. solve_decision. Defined.

Definition checkResult (routingKey : string) (payload : json) : res PublishError Envelope :=
  match unmarshal_envelope (Some payload) with
  | None => Err ErrUnpublishable
  | Some env =>
      if negb (bool_decide (routingKey ∈ result_keys)) || negb (bool_decide (e_Type env = routingKey))
      then Err ErrUnpublishable
      else if bool_decide (e_MessageID env = "") || (255 <? len (e_MessageID env)) ||
              bool_decide (e_CorrelationID env = "") || (255 <? len (e_CorrelationID env))
      then Err ErrUnpublishable
      else if bool_decide (e_ErrandID env = "") || (e_ErrandVersion env <? 1) ||
              IsZero (e_OccurredAt env)
      then Err ErrUnpublishable
      else match e_Data env with
           | Some (JObj _) => Ok env
           | _ => Err ErrUnpublishable
           end
  end.

(** [Publish]: the check, then whatever the broker answers. *)
Definition Publish (broker : Envelope → option PublishError) (routingKey : string) (payload : json) :
    option PublishError :=
  match checkResult routingKey payload with
  | Err e => Some e
  | Ok env => broker env
  end.

(** ** consumer.go: backoff *)

Record Backoff := mkBackoff { b_Base : Z; b_Cap : Z }.
#[export] Instance Backoff_eq_dec : EqDecision Backoff.
Proof. solve_decision. Defined.

(** The loop [for i := 1; i < attempt && ceiling < b.Cap; i++ { ceiling *= 2 }],
    with [n = attempt - 1] rounds left. *)
Fixpoint grow (n : nat) (ceiling cap : Z) : Z :=
  match n with
  | O => ceiling
  | S n' => if ceiling <? cap then grow n' (wrap64 (ceiling * 2)) cap else ceiling
  end.

Definition ceiling_of (b : Backoff) (attempt : Z) : Z :=
  Z.min (grow (Z.to_nat (attempt - 1)) (b_Base b) (b_Cap b)) (b_Cap b).

(** [delay]: [rand n] is [rand.Int64N(n)], which panics ([None]) unless [n] is
    positive. *)
Definition delay (rand : Z → Z) (b : Backoff) (attempt : Z) : option Z :=
  let ceiling := ceiling_of b attempt in
  if ceiling <=? 0 then Some 0
  else let n := wrap64 (ceiling + 1) in
       if n <=? 0 then None else Some (rand n).

(** ** dispatcher.go *)

Definition second : Z := nsec.
Definition minute : Z := 60 * second.

Record DispatcherConfig := mkDispatcherConfig {
  dc_PollInterval : Z; dc_BatchSize : Z; dc_Lease : Z; dc_MaxAttempts : Z; dc_RetryBackoff : Backoff }.

Definition DefaultDispatcherConfig : DispatcherConfig :=
  mkDispatcherConfig second 20 (30 * second) 10 (mkBackoff (2 * second) (5 * minute)).

Definition or_default (x def : Z) : Z := if x =? 0 then def else x.

Definition bad_backoff (b : Backoff) : bool := (b_Base b <=? 0) || (b_Cap b <? b_Base b).

Definition dispatcher_withDefaults (c : DispatcherConfig) : res string DispatcherConfig :=
  let def := DefaultDispatcherConfig in
  let c := mkDispatcherConfig
    (or_default (dc_PollInterval c) (dc_PollInterval def))
    (or_default (dc_BatchSize c) (dc_BatchSize def))
    (or_default (dc_Lease c) (dc_Lease def))
    (or_default (dc_MaxAttempts c) (dc_MaxAttempts def))
    (if bool_decide (dc_RetryBackoff c = mkBackoff 0 0) then dc_RetryBackoff def
     else dc_RetryBackoff c) in
  if (dc_PollInterval c <? 0) || (dc_Lease c <? 0) then
    Err "creditmsg: poll interval and lease must be positive"
  else if (dc_BatchSize c <? 1) || (1000 <? dc_BatchSize c) then
    Err "creditmsg: batch size must be between 1 and 1000"
  else if dc_MaxAttempts c <? 1 then Err "creditmsg: max attempts must be at least 1"
  else if bad_backoff (dc_RetryBackoff c) then
    Err "creditmsg: backoff base must be positive and at most the cap"
  else Ok c.

Definition failureCode (e : PublishError) : string :=
  match e with
  | ErrUnpublishable => "UNPUBLISHABLE"
  | ErrUnroutable => "UNROUTABLE"
  | ErrBrokerUnavailable => "BROKER_UNAVAILABLE"
  | DeadlineExceeded => "TIMEOUT"
  | OtherPublishError => "PUBLISH_FAILED"
  end.

Section dispatcher.
Context (cfg : DispatcherConfig) (worker : string).
Context (rand : Z → Z) (broker : Envelope → option PublishError).

(** [dispatch] of one claimed row; [shutdown] is [ctx.Err() != nil] after the
    publish.  A lost lease is logged, not an error. *)
Definition dispatch (clock : Z) (shutdown : bool) (row : OutboxRow) : Op unit :=
  match Publish broker (ob_RoutingKey row) (ob_Payload row) with
  | None => do! MarkSent clock (ob_ID row) worker; ret tt
  | Some err =>
      if shutdown then ret tt
      else
        let code := failureCode err in
        if bool_decide (err = ErrUnpublishable) then
          do! MarkFailed (ob_ID row) worker code; ret tt
        else if dc_MaxAttempts cfg <=? ob_Attempts row then
          do! MarkFailed (ob_ID row) worker code; ret tt
        else match delay rand (dc_RetryBackoff cfg) (ob_Attempts row) with
             | None => fail (ErrOther "panic: invalid argument to Int64N")
             | Some d => do! Reschedule clock (ob_ID row) worker d code; ret tt
             end
  end.

(** The loop over a batch: every update commits on its own, and an error ends
    the loop with the earlier ones in place. *)
Fixpoint dispatch_all (clock : Z) (shutdown : bool) (rows : list OutboxRow) (db : DB) :
    option GoError * DB :=
  match rows with
  | [] => (None, db)
  | row :: rows' =>
      match inTx (dispatch clock shutdown row) db with
      | (Ok _, db') => dispatch_all clock shutdown rows' db'
      | (Err e, db') => (Some e, db')
      end
  end.

Definition RunOnce (clock : Z) (shutdown : bool) (db : DB) : (Z * option GoError) * DB :=
  match inTx (Claim clock worker (dc_BatchSize cfg) (dc_Lease cfg)) db with
  | (Err e, db) => ((0, Some e), db)
  | (Ok rows, db) =>
      let '(err, db) := dispatch_all clock shutdown rows db in
      ((Z.of_nat (length rows), err), db)
  end.

End dispatcher.

(** ** consumer.go *)

Definition DeliveryLimit : Z := 5.

Record Config := mkConfig {
  c_Prefetch : Z; c_ReconnectBackoff : Backoff; c_RetryBackoff : Backoff; c_MaxAttempts : Z;
  c_HandleTimeout : Z }.

Definition DefaultConfig : Config :=
  mkConfig 16 (mkBackoff (500 * 1000000) (30 * second)) (mkBackoff second (30 * second))
    DeliveryLimit (30 * second).

Definition consumer_withDefaults (c : Config) : res string Config :=
  let def := DefaultConfig in
  let backoff_or b d := if bool_decide (b = mkBackoff 0 0) then d else b in
  let c := mkConfig (or_default (c_Prefetch c) (c_Prefetch def))
    (backoff_or (c_ReconnectBackoff c) (c_ReconnectBackoff def))
    (backoff_or (c_RetryBackoff c) (c_RetryBackoff def))
    (or_default (c_MaxAttempts c) (c_MaxAttempts def))
    (or_default (c_HandleTimeout c) (c_HandleTimeout def)) in
  if c_MaxAttempts c <? 1 then Err "creditmsg: max attempts must be at least 1"
  else if (c_Prefetch c <? 1) || (1000 <? c_Prefetch c) then
    Err "creditmsg: prefetch must be between 1 and 1000"
  else if c_HandleTimeout c <? 0 then Err "creditmsg: handle timeout must be positive"
  else if bad_backoff (c_ReconnectBackoff c) || bad_backoff (c_RetryBackoff c) then
    Err "creditmsg: backoff base must be positive and at most the cap"
  else Ok c.

(** The [x-acquired-count] header of a delivery. *)
Inductive HeaderValue := HInt64 (n : Z) | HInt32 (n : Z) | HInt (n : Z) | HOther.

(** [attempt(d)] *)
Definition delivery_attempt (h : option HeaderValue) : Z :=
  match h with
  | Some (HInt64 n) | Some (HInt32 n) | Some (HInt n) => wrap64 (n + 1)
  | _ => 1
  end.

Inductive Settlement := SettleAck | SettleNack (requeue : bool).
#[export] Instance Settlement_eq_dec : EqDecision Settlement.
Proof. solve_decision. Defined.

(** [settle]: what is sent to the broker, the new [retries] counter and the
    wait before the answer ([None]: the backoff panics). *)
Definition settle {A} (rand : Z → Z) (cfg : Config) (r : res GoError A)
    (header : option HeaderValue) (retries : Z) : option (Settlement * Z * Z) :=
  match DispositionOf r with
  | Ack => Some (SettleAck, 0, 0)
  | Reject => Some (SettleNack false, 0, 0)
  | Requeue =>
      if c_MaxAttempts cfg <=? delivery_attempt header then Some (SettleNack false, 0, 0)
      else
        let retries := wrap64 (retries + 1) in
        match delay rand (c_RetryBackoff cfg) retries with
        | None => None
        | Some d => Some (SettleNack true, retries, d)
        end
  end.
