(* ===== verification/CreditMsgProps.v ===== *)
(** * credit-service: the properties of the message layer

    Every committed command leaves its result in the outbox, ready to be
    published; workers share the outbox by leases and settle what they claim;
    temporary failures are retried a bounded number of times with bounded
    delays. *)

From S2P Require Import Prelude GoText Json GoTime WalletRepo Wallet WalletInv WalletSafe WalletSystem WalletProps CreditOutbox CreditMsg.

(** ** Result messages *)

(** A marshalled envelope is read back. *)
Lemma unmarshal_marshal e j :
  in_int64 (e_ErrandVersion e) → marshal_envelope e = Some j →
  unmarshal_envelope (Some j)
  = Some (mkEnvelope (e_MessageID e) (e_CorrelationID e) (e_Type e) (e_OccurredAt e)
            (e_ErrandID e) (e_ErrandVersion e) (Some (default JNull (e_Data e)))).
Proof.
  intros Hv. unfold marshal_envelope. destruct (format_rfc3339 _) as [s|] eqn:Hf; [|done].
  intros [= <-].
  unfold unmarshal_envelope, members. cbn [app obind].
  autorewrite with json. rewrite (dec_field_time _ _ _ _ _ Hf). by autorewrite with json.
Qed.

(** ** Recording a result *)

#[export] Instance RecordResult_outbox_only now clock : OutboxOnly (RecordResult now clock).
Proof.
  intros reply r db u db'. unfold RecordResult, fail. destruct (_ <? _); [done|].
  destruct (marshal_envelope _) as [j|]; [|done]. apply Enqueue_Ok.
Qed.

(** The wallet service as the handler sees it. *)
Definition wallet_commands (s : Service) (env : TxEnv) : Commands DB :=
  mkCommands DB (Reserve s env) (Adjust s env) (Release s env) (Transfer s env).

Definition result_key (mid : string) (r : Result) : string := mid +:+ ":" +:+ r_Type r.

(** A row that will be published: pending under this key. *)
Definition queued (db : DB) (key : string) : Prop :=
  ∃ i row, db_outbox db !! i = Some row ∧ ob_Key row = key ∧ ob_Status row = StatusPending.

Lemma Enqueue_queued clock key rk p db u db' :
  Enqueue clock key rk p db = Ok (u, db') → queued db' key.
Proof.
  unfold Enqueue. intros H. destruct (negb _); [done|].
  destruct (scan1 _ _) as [[i r]|] eqn:Hs.
  - apply scan1_Some in Hs as [Hi Hk]. unfold by_key in Hk. bool_props.
    case_bool_decide as Hst; inversion H; subst.
    + exists i, (pending_again clock r). by split; [apply lookup_insert_eq|].
    + exists i, r. split_and!; [done|done|]. by destruct (decide (ob_Status r = StatusPending)).
  - inversion H; subst. eexists _, _. split; [apply lookup_insert_eq|done].
Qed.

Lemma RecordResult_queued now clock reply r db u db' :
  RecordResult now clock reply r db = Ok (u, db') →
  queued db' (result_key (rp_CommandMessageID reply) r).
Proof.
  unfold RecordResult, fail. destruct (_ <? _); [done|].
  destruct (marshal_envelope _) as [j|]; [|done]. apply Enqueue_queued.
Qed.

Lemma execute_queued s now clock mid reply op db r db' :
  s_recorder s = Some (RecordResult now clock) →
  execute s mid reply op db = (Ok r, db') → queued db' (result_key mid r).
Proof.
  intros Hrec. unfold execute. destruct (_ || _); [done|].
  intros [(a & [= <-] & Hrun)|(e & ? & _)]%inTx_inv; [|done].
  unfold execute_tx in Hrun. minv Hrun. minv Hrun. minv Hrun. rewrite Hrec in Hrun.
  minv Hrun. inversion Hrun; subst. by apply RecordResult_queued in Hm2.
Qed.

Lemma run_command_queued s now clock env mid c db r db' :
  s_recorder s = Some (RecordResult now clock) →
  run_command s env mid c db = (Ok r, db') → queued db' (result_key mid r).
Proof.
  intros Hrec Hrun. destruct (run_command_cases s env mid c db) as [(_ & m & Heq)|(_ & Heq)];
    rewrite Heq in Hrun; [done|]. by eapply execute_queued.
Qed.

(** What [Handle] did: it refused the body, or it ran one command of the
    wallet service. *)
Lemma Handle_inv s env rk body db r db' :
  Handle (wallet_commands s env) rk body db = (r, db') →
  (r = Err ErrUndecodable ∧ db' = db) ∨
  (∃ e c, decodeEnvelope rk body = Ok e ∧ command_order c = e_ErrandID e ∧
     command_version c = e_ErrandVersion e ∧ run_command s env (e_MessageID e) c db = (r, db')).
Proof.
  assert (∀ e, decodeEnvelope rk body = Err e → e = ErrUndecodable) as He.
  { intros e. unfold decodeEnvelope. repeat case_match; congruence. }
  assert (∀ A (dec : _ → option A) ids env e, decodeData dec ids env = Err e → e = ErrUndecodable) as Hd.
  { intros A dec ids en e. unfold decodeData. repeat case_match; congruence. }
  unfold Handle. destruct (decodeEnvelope rk body) as [e|e] eqn:Hde; [|rewrite (He e eq_refl); intros [= <- <-]; auto].
  repeat case_bool_decide; try (intros [= <- <-]; by auto);
    (destruct (decodeData _ _ _) as [d|x] eqn:Hdd;
      [intros Hrun; right; exists e|rewrite (Hd _ _ _ _ _ Hdd); intros [= <- <-]; by auto]).
  - by exists (CReserve (mkReserve (e_ErrandID e) (e_ErrandVersion e) (rd_RequesterID d) (rd_Amount d))).
  - by exists (CAdjust (mkAdjust (e_ErrandID e) (e_ErrandVersion e) (ad_RequesterID d) (ad_NewAmount d) (ad_Seq d))).
  - by exists (CRelease (mkRelease (e_ErrandID e) (e_ErrandVersion e) (ld_RequesterID d))).
  - by exists (CTransfer (mkTransfer (e_ErrandID e) (e_ErrandVersion e) (td_RequesterID d) (td_CourierID d) (td_Amount d))).
Qed.

(** A delivery is acknowledged only after its result is stored for
    delivery: when [Handle] succeeds, the command ran under the message's ID
    and the outbox holds a pending row for its result; when it does not, the
    database is unchanged. *)
Theorem handle_ack_means_queued s now clock env rk body db r db' :
  s_recorder s = Some (RecordResult now clock) →
  Handle (wallet_commands s env) rk body db = (r, db') →
  match r with
  | Ok result => DispositionOf r = Ack ∧
      ∃ e, decodeEnvelope rk body = Ok e ∧ queued db' (result_key (e_MessageID e) result)
  | Err _ => DispositionOf r ≠ Ack ∧ db' = db
  end.
Proof.
  intros Hrec Hrun. apply Handle_inv in Hrun as [[-> ->]|(e & c & He & _ & _ & Hrun)]; [done|].
  destruct r as [r|x].
  - split; [done|]. exists e. split; [done|]. by eapply run_command_queued.
  - split; [by destruct x|].
    assert (recorder_ok s) as Hok by (unfold recorder_ok; rewrite Hrec; apply _).
    apply run_command_inv in Hrun as [(? & _ & ->)|(? & ? & _)]; done.
Qed.

(** ** Publishing a recorded result *)

Lemma len_result_key mid r : len (result_key mid r) = len mid + 1 + len (r_Type r).
Proof. unfold len, result_key. rewrite !length_sapp. simpl. lia. Qed.

(** What the check before a publish decides on a recorded payload. *)
Lemma check_recorded reply r now payload :
  1 ≤ rp_ErrandVersion reply ≤ max_int64 → rp_OrderID reply ≠ "" →
  rp_CommandMessageID reply ≠ "" → r_Type r ∈ result_keys →
  truncate_second now ≠ zero_time →
  marshal_envelope (BuildResult reply r now) = Some payload →
  checkResult (r_Type r) payload =
  if 255 <? len (result_key (rp_CommandMessageID reply) r) then Err ErrUnpublishable
  else Ok (BuildResult reply r now).
Proof.
  intros Hv Ho Hm Hk Hz Hj. unfold checkResult.
  assert (in_int64 (rp_ErrandVersion reply)) as Hv' by (unfold in_int64, min_int64; lia).
  rewrite (unmarshal_marshal (BuildResult reply r now) payload Hv' Hj).
  assert (bool_decide (result_key (rp_CommandMessageID reply) r = "") = false) as Hkey.
  { apply bool_decide_eq_false. unfold result_key. by destruct (rp_CommandMessageID reply). }
  simpl. fold (result_key (rp_CommandMessageID reply) r).
  rewrite Hkey, !bool_decide_true, (bool_decide_false _ Hm), (bool_decide_false _ Ho) by done. simpl.
  assert (0 ≤ len (r_Type r) ∧ 0 ≤ len (rp_CommandMessageID reply)) by (unfold len; lia).
  destruct (Z.ltb_spec 255 (len (result_key (rp_CommandMessageID reply) r))) as [|Hle]; [done|].
  rewrite len_result_key in Hle. rewrite (proj2 (Z.ltb_ge _ _)) by lia.
  rewrite (proj2 (Z.ltb_ge (rp_ErrandVersion reply) 1)) by lia.
  unfold IsZero. by rewrite (proj2 (Z.eqb_neq _ _)).
Qed.

(** A result that was stored can be published: for a command whose result
    message ID fits AMQP's 255 bytes, the payload in the outbox passes the
    publisher's contract check and reaches the broker as the envelope that was
    built, whatever the broker then answers. *)
Theorem recorded_result_publishable reply r now payload broker :
  1 ≤ rp_ErrandVersion reply ≤ max_int64 → rp_OrderID reply ≠ "" →
  rp_CommandMessageID reply ≠ "" → r_Type r ∈ result_keys →
  truncate_second now ≠ zero_time →
  len (rp_CommandMessageID reply) + 1 + len (r_Type r) ≤ 255 →
  marshal_envelope (BuildResult reply r now) = Some payload →
  Publish broker (r_Type r) payload = broker (BuildResult reply r now).
Proof.
  intros Hv Ho Hm Hk Hz Hlen Hj. unfold Publish. rewrite (check_recorded reply r now) by done.
  rewrite len_result_key. by rewrite (proj2 (Z.ltb_ge _ _)) by lia.
Qed.

(** *** The first run of a command *)

(** The command's effect [db1], with its result remembered unless it is an
    operation that failed. *)
Definition remember (mid : string) (r : Result) (db1 : DB) : DB :=
  if bool_decide (r_Type r ≠ ResultOperationFailed)
  then add_processed (mkProcessedCommand mid (r_Type r) (enc_result r)) db1 else db1.

(** No command ran under this message ID yet and the outbox has no row for it. *)
Definition first_time (mid : string) (db : DB) : Prop :=
  db_processed db !! mid = None ∧
  ∀ i row r, db_outbox db !! i = Some row → ob_Key row ≠ result_key mid r.

Lemma execute_first s record mid reply op db r db1 db2 :
  mid ≠ "" → len mid ≤ maxMessageIDLength → db_processed db !! mid = None → op db = Ok (r, db1) →
  db_processed db1 !! mid = None → s_recorder s = Some record →
  record (mkReply mid (rp_OrderID reply) (rp_ErrandVersion reply)) r (remember mid r db1) = Ok (tt, db2) →
  execute s mid reply op db = (Ok r, db2).
Proof.
  intros Hm Hlen Hnew Hop Hnew1 Hrec Hrun. unfold execute.
  rewrite bool_decide_false, (proj2 (Z.ltb_ge _ _)) by done. cbn [orb].
  assert (∀ reply, execute_tx s mid reply op db
            = match record reply r (remember mid r db1) with Ok (_, db') => Ok (r, db') | Err e => Err e end) as Heq.
  { intros rp. unfold execute_tx, LockCommand, bind, attempt, GetProcessedCommand, query1, remember, ret.
    rewrite Hnew. cbn. rewrite Hop. cbn. case_bool_decide; cbn; rewrite ?Hrec; [|by destruct (record _ _ _) as [[[] ?]|]].
    unfold InsertProcessedCommand. cbn. rewrite bool_decide_false, Hnew1 by done.
    by destruct (record _ _ _) as [[[] ?]|]. }
  unfold inTx. by rewrite Heq, Hrun.
Qed.

Lemma remember_outbox mid r db : db_outbox (remember mid r db) = db_outbox db.
Proof. unfold remember. by case_bool_decide. Qed.

(** The type of a result is a routing key of the outbox. *)
Lemma command_op_type env c db r db' :
  db_ok db → command_valid c = true → command_in_range c →
  command_op env (to_lower (command_order c)) c db = Ok (r, db') → r_Type r ∈ result_keys.
Proof.
  intros Hok Hv Hr Hrun. unfold command_valid in Hv. apply andb_true_iff in Hv as [_ Hv].
  destruct c as [c|c|c|c]; simpl in *; bool_props; unfold in_int64 in *.
  - apply reserve_op_effect in Hrun; [|done|lia]. destruct Hrun; simpl; apply (bool_decide_unpack _); by vm_compute.
  - apply adjust_op_effect in Hrun; [|done|lia..]. destruct Hrun; simpl; apply (bool_decide_unpack _); by vm_compute.
  - apply release_op_effect in Hrun; [|done]. destruct Hrun; simpl; apply (bool_decide_unpack _); by vm_compute.
  - eapply transfer_op_effect in Hrun; [|try done; try congruence; lia..].
    destruct Hrun; simpl; apply (bool_decide_unpack _); by vm_compute.
Qed.

(** The message carries the command: [Handle] hands it, under the message's ID,
    to whatever serves the commands. *)
Definition do_command {S} (commands : Commands S) (mid : string) (c : Command) : S → res GoError Result * S :=
  match c with
  | CReserve c => do_Reserve commands mid c
  | CAdjust c => do_Adjust commands mid c
  | CRelease c => do_Release commands mid c
  | CTransfer c => do_Transfer commands mid c
  end.
Definition carries (rk : string) (body : option json) (mid : string) (c : Command) : Prop :=
  ∀ (commands : Commands DB) db, Handle commands rk body db = do_command commands mid c db.

Lemma Handle_carried s env rk body mid c db :
  carries rk body mid c → Handle (wallet_commands s env) rk body db = run_command s env mid c db.
Proof. intros ->. by destruct c. Qed.

(** The row a command's first run queues. *)
Definition queued_row (clock i : Z) (mid : string) (r : Result) (payload : json) : OutboxRow :=
  new_row clock i (result_key mid r) (r_Type r) payload.

Lemma first_run s now clock env mid c db r db1 :
  db_ok db → first_time mid db → s_recorder s = Some (RecordResult now clock) →
  command_valid c = true → command_in_range c → 1 ≤ command_version c →
  is_Some (format_rfc3339 (truncate_second now)) → mid ≠ "" → len mid ≤ maxMessageIDLength →
  command_op env (to_lower (command_order c)) c db = Ok (r, db1) →
  ∃ i payload, db_outbox db !! i = None ∧
    marshal_envelope (BuildResult (mkReply mid (to_lower (command_order c)) (command_version c)) r now) = Some payload ∧
    run_command s env mid c db
    = (Ok r, set_outbox <[i := queued_row clock i mid r payload]> (remember mid r db1)).
Proof.
  intros Hok [Hnew Hfree] Hrec Hv Hr Hver [at_ Hat] Hm Hlen Hop.
  pose proof (command_op_sound _ _ _ _ _ Hok Hv Hr Hop) as Hsound.
  pose proof (command_op_type _ _ _ _ _ Hok Hv Hr Hop) as Hty.
  set (reply := mkReply mid (to_lower (command_order c)) (command_version c)).
  assert (∃ payload, marshal_envelope (BuildResult reply r now) = Some payload) as [payload Hpay].
  { unfold marshal_envelope. simpl. rewrite Hat. by eexists. }
  exists (next_id (db_outbox db)), payload. split; [apply next_id_fresh|]. split; [done|].
  destruct (run_command_cases s env mid c db) as [[Hbad _]|[_ ->]]; [congruence|].
  eapply execute_first; [done|done|done|exact Hop|by rewrite (ss_processed _ _ Hsound)|exact Hrec|].
  unfold RecordResult. rewrite (proj2 (Z.ltb_ge _ _)) by (simpl; lia).
  cbn [rp_OrderID rp_ErrandVersion]. fold reply. cbn zeta. rewrite Hpay. unfold Enqueue.
  cbn [BuildResult e_Type e_MessageID reply rp_CommandMessageID].
  rewrite (bool_decide_true _ Hty). cbn [negb]. fold (result_key mid r).
  rewrite remember_outbox, (ss_outbox _ _ Hsound).
  assert (scan1 (by_key (result_key mid r)) (db_outbox db) = None) as ->; [|done].
  apply scan1_None. intros i row Hi. apply bool_decide_eq_false. by eapply Hfree.
Qed.

(** C5: A command whose message ID is longer than its result can carry is
    carried out, and nobody ever hears.  For every message ID of 1 to 512 bytes
    that is new, a valid command whose operation succeeds is acknowledged: its
    effect is committed and remembered, and its result is queued under
    {message ID}:{result type}.  If that key fits in 255 bytes, publishing the
    row hands the envelope that was built to the broker; otherwise no broker is
    asked, and the dispatcher that has claimed the row, whatever its limits,
    marks it FAILED as unpublishable. *)
Theorem long_message_id_unpublishable s now clock env rk body mid c db r db1 :
  db_ok db → first_time mid db → s_recorder s = Some (RecordResult now clock) → carries rk body mid c →
  command_valid c = true → command_in_range c → 1 ≤ command_version c ≤ max_int64 →
  is_Some (format_rfc3339 (truncate_second now)) → truncate_second now ≠ zero_time →
  mid ≠ "" → len mid ≤ maxMessageIDLength →
  command_op env (to_lower (command_order c)) c db = Ok (r, db1) →
  ∃ i payload, let row := queued_row clock i mid r payload in
    let committed := set_outbox <[i := row]> (remember mid r db1) in
    Handle (wallet_commands s env) rk body db = (Ok r, committed) ∧ DispositionOf (Ok r : res GoError Result) = Ack ∧
    (∀ broker, Publish broker (ob_RoutingKey row) (ob_Payload row) =
       if 255 <? len (result_key mid r) then Some ErrUnpublishable
       else broker (BuildResult (mkReply mid (to_lower (command_order c)) (command_version c)) r now)) ∧
    (255 < len (result_key mid r) → ∀ cfg worker rand broker later row' clock',
       db_outbox later !! i = Some row' → same_message row row' →
       ob_LeaseOwner row' = Some worker → ob_Status row' = StatusPending →
       dispatch cfg worker rand broker clock' false row' later
       = Ok (tt, set_outbox <[i := failed_row "UNPUBLISHABLE" row']> later)).
Proof.
  intros Hok Hnew Hrec Hcar Hv Hr Hver Htime Hz Hm Hlen Hop.
  destruct (first_run s now clock env mid c db r db1 Hok Hnew Hrec Hv Hr ltac:(lia) Htime Hm Hlen Hop)
    as (i & payload & _ & Hpay & Hrun).
  exists i, payload. intros row committed.
  assert (∀ broker, Publish broker (r_Type r) payload =
       if 255 <? len (result_key mid r) then Some ErrUnpublishable
       else broker (BuildResult (mkReply mid (to_lower (command_order c)) (command_version c)) r now)) as Hpub.
  { intros broker. unfold Publish.
    rewrite (check_recorded (mkReply mid (to_lower (command_order c)) (command_version c)) r now); try done.
    - simpl. by destruct (255 <? _).
    - simpl. intros He. unfold command_valid in Hv. apply andb_true_iff in Hv as [Hu _].
      apply uuid_length in Hu. rewrite <- to_lower_length, He in Hu. done.
    - by eapply command_op_type. }
  split; [by rewrite (Handle_carried _ _ _ _ _ _ _ Hcar)|]. split; [done|]. split; [exact Hpub|].
  intros Hlong cfg worker rand broker later row' clock' Hl (Hid & _ & Hrk & Hpl) Hown Hst.
  unfold dispatch. rewrite Hrk, Hpl. cbn [queued_row new_row row ob_RoutingKey ob_Payload].
  rewrite Hpub, (proj2 (Z.ltb_lt _ _)), bool_decide_true by done.
  rewrite Hid in *. cbn [queued_row new_row row ob_ID] in *.
  by rewrite (bind_run _ _ _ _ _ (update_leased_run i worker (failed_row "UNPUBLISHABLE") later row' Hl Hown Hst)).
Qed.

(** ** Backoff *)

Lemma grow_spec n ceiling cap :
  0 < ceiling → cap ≤ 2 ^ 62 → Z.min (grow n ceiling cap) cap = Z.min (ceiling * 2 ^ Z.of_nat n) cap.
Proof.
  revert ceiling. induction n as [|n IH]; intros ceiling Hc Hcap.
  { simpl. f_equal. lia. }
  rewrite Nat2Z.inj_succ, Z.pow_succ_r by lia. simpl.
  destruct (Z.ltb_spec ceiling cap) as [Hlt|Hge].
  - rewrite wrap64_id by (unfold in_int64, min_int64, max_int64; lia).
    rewrite IH by lia. f_equal. lia.
  - assert (0 < 2 ^ Z.of_nat n) by (apply Z.pow_pos_nonneg; lia). rewrite !Z.min_r by nia. done.
Qed.

Lemma ceiling_of_spec b attempt :
  0 < b_Base b → b_Cap b ≤ 2 ^ 62 →
  ceiling_of b attempt = Z.min (b_Base b * 2 ^ Z.max 0 (attempt - 1)) (b_Cap b).
Proof.
  intros Hb Hc. unfold ceiling_of. rewrite grow_spec by done.
  by rewrite ZifyInst.of_nat_to_nat_eq.
Qed.

Section jitter.
(** [rand.Int64N(n)] returns a value in [0, n). *)
Context (rand : Z → Z) (Hrand : ∀ n, 0 < n → 0 ≤ rand n < n).

(** The backoff is the documented one: with a positive base and a cap of
    at most 2^62 ns, the delay before attempt [n] is never a panic and lies
    between 0 and min(Cap, Base*2^(n-1)); no doubling overflows 64 bits. *)
Lemma backoff_delay_bounds b attempt :
  0 < b_Base b → b_Base b ≤ b_Cap b → b_Cap b ≤ 2 ^ 62 →
  ∃ d, delay rand b attempt = Some d ∧
       0 ≤ d ≤ Z.min (b_Cap b) (b_Base b * 2 ^ Z.max 0 (attempt - 1)).
Proof using Hrand.
  intros Hb Hbc Hc. unfold delay. rewrite ceiling_of_spec by lia.
  assert (0 < 2 ^ Z.max 0 (attempt - 1)) by (apply Z.pow_pos_nonneg; lia).
  set (m := Z.min (b_Base b * 2 ^ Z.max 0 (attempt - 1)) (b_Cap b)).
  assert (0 < m ≤ 2 ^ 62) by (unfold m; nia).
  rewrite (proj2 (Z.leb_gt _ _)) by lia.
  rewrite wrap64_id by (unfold in_int64, min_int64, max_int64; lia).
  rewrite (proj2 (Z.leb_gt _ _)) by lia. eexists. split; [done|].
  specialize (Hrand (m + 1)). unfold m in *. lia.
Qed.

End jitter.

(** ** Workers on the outbox *)

(** A claim keeps the table well formed. *)
Lemma outbox_ok_claim clock worker limit lease db rows db' :
  outbox_ok (db_outbox db) → Claim clock worker limit lease db = Ok (rows, db') →
  outbox_ok (db_outbox db').
Proof.
  intros Hok Hc. pose proof (Claim_Ok _ _ _ _ _ _ _ Hok Hc) as Hcl.
  assert (∀ i r, db_outbox db' !! i = Some r →
            ∃ r0, db_outbox db !! i = Some r0 ∧ same_message r0 r ∧ ob_Attempts r0 ≤ ob_Attempts r) as Hback.
  { intros i r Hi. destruct (decide (i ∈ ob_ID <$> rows)) as [Hin|Hout].
    - apply list_elem_of_fmap in Hin as (u & -> & Hu).
      destruct (cl_row _ _ _ _ _ _ Hcl u Hu) as (Hu' & r0 & Hr0 & _ & Heq).
      assert (r = u) as -> by congruence. exists r0. split; [done|]. subst u. simpl.
      split; [done|lia].
    - rewrite (cl_other _ _ _ _ _ _ Hcl i Hout) in Hi. exists r. split; [done|]. split; [done|lia]. }
  destruct Hok as [Hid Hkey Hrt]. split.
  - intros i r Hi. destruct (Hback _ _ Hi) as (r0 & H0 & (-> & _) & _). eauto.
  - intros i j r r' Hi Hj Heq. destruct (Hback _ _ Hi) as (r0 & H0 & (_ & ? & _) & _).
    destruct (Hback _ _ Hj) as (r1 & H1 & (_ & ? & _) & _). eapply (Hkey i j r0 r1); congruence.
  - intros i r Hi. destruct (Hback _ _ Hi) as (r0 & H0 & (_ & _ & -> & _) & ?).
    destruct (Hrt i r0 H0). split; [done|lia].
Qed.

(** Two workers never hold the same row: while the rows of one claim are
    neither settled nor past their lease, another claim returns none of
    them. *)
Theorem claims_are_exclusive db clock w limit lease rows db1 db2 clock' w' limit' lease' rows' db3 :
  outbox_ok (db_outbox db) → outbox_ok (db_outbox db2) →
  Claim clock w limit lease db = Ok (rows, db1) →
  (∀ r, r ∈ rows → db_outbox db2 !! ob_ID r = Some r) → clock' ≤ clock + lease →
  Claim clock' w' limit' lease' db2 = Ok (rows', db3) →
  ∀ r r', r ∈ rows → r' ∈ rows' → ob_ID r ≠ ob_ID r'.
Proof.
  intros Hok Hok2 Hc Hheld Hle Hc' r r' Hr Hr' Heq.
  apply Claim_Ok in Hc; [|done]. apply Claim_Ok in Hc'; [|done].
  destruct (cl_row _ _ _ _ _ _ Hc r Hr) as (_ & r0 & _ & _ & Hl).
  apply (claimed_not_held _ _ _ _ _ _ (ob_ID r) r (clock + lease) Hc' (Hheld r Hr)).
  - by rewrite Hl.
  - done.
  - rewrite Heq. by apply list_elem_of_fmap_2.
Qed.

Section batch.
Context (cfg : DispatcherConfig) (worker : string) (rand : Z → Z).
Context (broker : Envelope → option PublishError) (clock : Z).
Context (Hrand : ∀ n, 0 < n → 0 ≤ rand n < n).
Context (Hcfg : bad_backoff (dc_RetryBackoff cfg) = false) (Hcap : b_Cap (dc_RetryBackoff cfg) ≤ 2 ^ 62).

(** What a publish attempt decides about a claimed row. *)
Inductive dispatched (r : OutboxRow) : OutboxRow → Prop :=
| dispatched_sent : Publish broker (ob_RoutingKey r) (ob_Payload r) = None →
    dispatched r (sent clock r)
| dispatched_failed err : Publish broker (ob_RoutingKey r) (ob_Payload r) = Some err →
    err = ErrUnpublishable ∨ dc_MaxAttempts cfg ≤ ob_Attempts r →
    dispatched r (failed_row (failureCode err) r)
| dispatched_retry err d : Publish broker (ob_RoutingKey r) (ob_Payload r) = Some err →
    err ≠ ErrUnpublishable → ob_Attempts r < dc_MaxAttempts cfg →
    0 ≤ d ≤ b_Cap (dc_RetryBackoff cfg) →
    dispatched r (rescheduled clock d (failureCode err) r).

Lemma dispatch_run db r :
  db_outbox db !! ob_ID r = Some r → ob_LeaseOwner r = Some worker → ob_Status r = StatusPending →
  ∃ r', dispatched r r' ∧
    dispatch cfg worker rand broker clock false r db = Ok (tt, set_outbox <[ob_ID r := r']> db).
Proof using Hrand Hcfg Hcap.
  intros Hr Hl Hs. unfold dispatch.
  destruct (Publish broker _ _) as [err|] eqn:Hp.
  2: { exists (sent clock r). split; [by constructor|].
       by rewrite (bind_run _ _ _ _ _ (update_leased_run _ _ (sent clock) _ _ Hr Hl Hs)). }
  case_bool_decide as Hu.
  { exists (failed_row (failureCode err) r). split; [constructor; auto|].
    by rewrite (bind_run _ _ _ _ _ (update_leased_run _ _ (failed_row (failureCode err)) _ _ Hr Hl Hs)). }
  destruct (Z.leb_spec (dc_MaxAttempts cfg) (ob_Attempts r)).
  { exists (failed_row (failureCode err) r). split; [constructor; auto|].
    by rewrite (bind_run _ _ _ _ _ (update_leased_run _ _ (failed_row (failureCode err)) _ _ Hr Hl Hs)). }
  unfold bad_backoff in Hcfg. apply orb_false_iff in Hcfg as [Hb Hc]. bool_props.
  destruct (backoff_delay_bounds rand Hrand (dc_RetryBackoff cfg) (ob_Attempts r)) as (d & -> & Hd);
    [lia..|].
  exists (rescheduled clock d (failureCode err) r). split; [constructor; auto; lia|].
  by rewrite (bind_run _ _ _ _ _ (update_leased_run _ _ (rescheduled clock d (failureCode err)) _ _ Hr Hl Hs)).
Qed.

Lemma dispatch_all_run rows db :
  NoDup (ob_ID <$> rows) →
  (∀ r, r ∈ rows → db_outbox db !! ob_ID r = Some r ∧ ob_LeaseOwner r = Some worker ∧
                   ob_Status r = StatusPending) →
  ∃ db', dispatch_all cfg worker rand broker clock false rows db = (None, db') ∧
    (∀ r, r ∈ rows → ∃ r', db_outbox db' !! ob_ID r = Some r' ∧ dispatched r r') ∧
    (∀ i, i ∉ ob_ID <$> rows → db_outbox db' !! i = db_outbox db !! i).
Proof using Hrand Hcfg Hcap.
  revert db. induction rows as [|r rows IH]; intros db Hnd Hrows.
  { exists db. split_and!; [done| |done]. intros r. by rewrite elem_of_nil. }
  apply NoDup_cons in Hnd as [Hn Hnd].
  destruct (Hrows r) as (Hr & Hl & Hs); [by left|].
  destruct (dispatch_run db r Hr Hl Hs) as (r' & Hd & Hrun).
  destruct (IH (set_outbox <[ob_ID r := r']> db) Hnd) as (db' & Hrun' & Hin & Hout).
  { intros u Hu. destruct (Hrows u) as (Hur & Hul); [by right|]. split; [|done].
    simpl. rewrite lookup_insert_ne; [done|]. intros Heq. apply Hn. rewrite Heq.
    by apply list_elem_of_fmap_2. }
  exists db'. simpl. unfold inTx. rewrite Hrun. split_and!; [done| |].
  - intros u [->|Hu]%elem_of_cons; [|eauto]. exists r'. split; [|done].
    rewrite Hout by done. apply lookup_insert_eq.
  - intros i [Hi Hni]%not_elem_of_cons. rewrite Hout by done. simpl.
    by rewrite lookup_insert_ne by auto.
Qed.

(** A dispatcher run settles everything it claims: with a valid
    configuration every row of the batch ends sent (the broker confirmed it),
    failed (it can never be published or its attempts are used up) or back in
    the queue without a lease, due within the backoff cap; rows outside the
    batch are untouched, and the run reports no error. *)
Theorem dispatcher_settles_batch db rows db1 :
  outbox_ok (db_outbox db) →
  Claim clock worker (dc_BatchSize cfg) (dc_Lease cfg) db = Ok (rows, db1) →
  ∃ db', RunOnce cfg worker rand broker clock false db = ((Z.of_nat (length rows), None), db') ∧
    (∀ r, r ∈ rows → ∃ r', db_outbox db' !! ob_ID r = Some r' ∧ dispatched r r') ∧
    (∀ i, i ∉ ob_ID <$> rows → db_outbox db' !! i = db_outbox db !! i).
Proof using Hrand Hcfg Hcap.
  intros Hok Hc. pose proof (Claim_Ok _ _ _ _ _ _ _ Hok Hc) as Hcl.
  destruct (dispatch_all_run rows db1) as (db' & Hrun & Hin & Hout).
  - apply Hcl.
  - intros r Hr. destruct (cl_row _ _ _ _ _ _ Hcl r Hr) as (Hr1 & r0 & _ & Hdue & Hl).
    unfold is_due in Hdue. bool_props. split_and!; [done|by rewrite Hl|by rewrite Hl].
  - exists db'. unfold RunOnce, inTx. rewrite Hc, Hrun. split_and!; [done|done|].
    intros i Hi. rewrite Hout by done. by apply (cl_other _ _ _ _ _ _ Hcl).
Qed.

End batch.

(** No due result waits behind a younger one: if a claim leaves a due row
    behind, it took as many rows as its limit allows and each was due no later
    than the row it left. *)
Lemma claim_takes_oldest db clock worker limit lease rows db' i r :
  outbox_ok (db_outbox db) → 0 ≤ limit →
  Claim clock worker limit lease db = Ok (rows, db') →
  db_outbox db !! i = Some r → is_due clock r = true → i ∉ ob_ID <$> rows →
  Z.of_nat (length rows) = limit ∧
  Forall (λ r', ob_NextAttemptAt r' ≤ ob_NextAttemptAt r) rows.
Proof.
  intros Hok Hl Hc Hi Hd Hn. unfold Claim in Hc. destruct (existsb _ _); [done|].
  injection Hc as <- <-.
  assert (r ∉ due_rows clock limit (db_outbox db)) as Hnd.
  { intros Hin. apply Hn. rewrite merge_sort_Permutation, leased_ids, <- (obk_id _ Hok i r Hi).
    by apply list_elem_of_fmap_2. }
  destruct (due_rows_oldest clock limit _ i r Hi Hd Hnd) as [Hlen Hall]. split.
  - rewrite (Permutation_length (merge_sort_Permutation _ _)), length_fmap, Hlen. lia.
  - rewrite merge_sort_Permutation. apply Forall_fmap. eapply Forall_impl; [exact Hall|].
    intros r'. unfold due_le. simpl. lia.
Qed.

Lemma consumer_backoff_ok c cfg :
  consumer_withDefaults c = Ok cfg → bad_backoff (c_RetryBackoff cfg) = false.
Proof.
  unfold consumer_withDefaults. set (c1 := mkConfig _ _ _ _ _).
  destruct (_ <? _); [done|]. destruct (_ || _); [done|]. destruct (_ <? _); [done|].
  destruct (bad_backoff (c_ReconnectBackoff c1)), (bad_backoff (c_RetryBackoff c1)) eqn:Hb;
    simpl; try done. by intros [= <-].
Qed.

(** A command that keeps failing is retried a bounded number of times: the
    consumer requeues a delivery only for a temporary error and only while the
    broker has counted fewer than [MaxAttempts - 1] earlier deliveries, after a
    wait of at most the backoff cap; otherwise the delivery is acknowledged or
    dead-lettered. *)
Theorem requeue_is_bounded rand cfg0 cfg A (r : res GoError A) n retries d retries' :
  (∀ k, 0 < k → 0 ≤ rand k < k) →
  consumer_withDefaults cfg0 = Ok cfg → b_Cap (c_RetryBackoff cfg) ≤ 2 ^ 62 →
  0 ≤ n < max_int64 →
  settle rand cfg r (Some (HInt64 n)) retries = Some (SettleNack true, retries', d) →
  DispositionOf r = Requeue ∧ n < c_MaxAttempts cfg - 1 ∧ 0 ≤ d ≤ b_Cap (c_RetryBackoff cfg).
Proof.
  intros Hrand Hcfg Hcap Hn. unfold settle. destruct (DispositionOf r); [done|done|]. simpl.
  rewrite wrap64_id by (unfold in_int64, min_int64; lia).
  destruct (Z.leb_spec (c_MaxAttempts cfg) (n + 1)); [done|].
  apply consumer_backoff_ok in Hcfg as Hb. unfold bad_backoff in Hb. bool_props.
  destruct (backoff_delay_bounds rand Hrand (c_RetryBackoff cfg) (wrap64 (retries + 1)))
    as (d0 & -> & Hd); [lia..|]. intros [= _ <-]. split_and!; [done|lia|lia|lia].
Qed.

(** ** A concrete run *)

Module MsgScenario.

(** 2026-10-01T08:00:00Z *)
Definition now : Z := 1790841600 * nsec.
Definition svc : Service := mkService 100 (Some (RecordResult now now)).
Definition reserve_message (mid : string) : option json :=
  Some (JObj [("messageId", JStr mid); ("type", JStr CommandReserve);
              ("occurredAt", JStr "2026-10-01T08:00:00Z"); ("errandId", JStr Scenario.order);
              ("errandVersion", JInt 1);
              ("data", JObj [("errandId", JStr Scenario.order); ("errandVersion", JInt 1);
                             ("requesterId", JStr Scenario.alice); ("amount", JInt 40)])]).
Definition reserve_body : option json := reserve_message "m1".
Definition handled : DB :=
  Eval vm_compute in
    snd (Handle (wallet_commands svc Scenario.env3) CommandReserve reserve_body Scenario.db2).

Definition reserved40 := mkResult ResultReserved 40 0 "".
Definition reserve40 : Command := CReserve (mkReserve Scenario.order 1 Scenario.alice 40).
Definition reserve40_db : DB :=
  Eval vm_compute in match command_op Scenario.env3 (to_lower Scenario.order) reserve40 Scenario.db2 with
                     | Ok (_, db) => db | Err _ => Scenario.db2 end.
Definition reply (mid : string) := mkReply mid Scenario.order 1.
Definition payload (mid : string) : json :=
  default JNull (marshal_envelope (BuildResult (reply mid) reserved40 now)).

Fixpoint repeat_x (n : nat) : string :=
  match n with O => "" | S n => String "x" (repeat_x n) end.

(** Two results in the outbox, one due before the other. *)
Definition step_db {A} (m : Op A) (db : DB) : DB := snd (inTx m db).
Definition out1 : DB := step_db (Enqueue 10 "m1:credit.reserved" ResultReserved (payload "m1")) empty_db.
Definition out2 : DB := step_db (Enqueue 20 "m2:credit.reserved" ResultReserved (payload "m2")) out1.

Definition rows_of (r : res GoError (list OutboxRow * DB)) : list OutboxRow :=
  match r with Ok (rows, _) => rows | Err _ => [] end.
Definition claim1 : list OutboxRow := Eval vm_compute in rows_of (Claim 30 "w1" 1 100 out2).
Definition claimed1 : DB := step_db (Claim 30 "w1" 1 100) out2.
Definition claimed2 : DB := step_db (Claim 40 "w2" 5 100) claimed1.
Definition row1 := new_row 10 1 "m1:credit.reserved" ResultReserved (payload "m1").
Definition row2 := new_row 20 2 "m2:credit.reserved" ResultReserved (payload "m2").
Definition claim2 : list OutboxRow := Eval vm_compute in rows_of (Claim 40 "w2" 5 100 claimed1).

Lemma out1_ok : outbox_ok (db_outbox out1).
Proof.
  eapply (Enqueue_outbox_ok 10 "m1:credit.reserved" ResultReserved (payload "m1") empty_db tt);
    [apply outbox_ok_empty|]. vm_compute. reflexivity.
Qed.
Lemma out2_ok : outbox_ok (db_outbox out2).
Proof.
  eapply (Enqueue_outbox_ok 20 "m2:credit.reserved" ResultReserved (payload "m2") out1 tt);
    [apply out1_ok|]. vm_compute. reflexivity.
Qed.

Definition no_jitter (n : Z) : Z := 0.
Lemma no_jitter_ok n : 0 < n → 0 ≤ no_jitter n < n.
Proof. unfold no_jitter. lia. Qed.

(** A broker that is down. *)
Definition down (e : Envelope) : option PublishError := Some ErrBrokerUnavailable.

End MsgScenario.
Import MsgScenario.

Lemma handle_ack_means_queued_witness :
  DispositionOf (Ok reserved40 : res GoError Result) = Ack ∧
  ∃ e, decodeEnvelope CommandReserve reserve_body = Ok e ∧
       queued handled (result_key (e_MessageID e) reserved40).
Proof.
  apply (handle_ack_means_queued svc now now Scenario.env3 CommandReserve reserve_body Scenario.db2
           (Ok reserved40) handled); [done|]. vm_compute. reflexivity.
Defined.

Lemma recorded_result_publishable_witness :
  Publish down ResultReserved (payload "m1") = Some ErrBrokerUnavailable.
Proof.
  apply (recorded_result_publishable (reply "m1") reserved40 now (payload "m1") down);
    first [done | vm_compute; by left].
Defined.

(** A message ID of 300 bytes: the reservation is made and its result is marked
    FAILED by the worker that claims it. *)
Lemma long_message_id_unpublishable_witness :
  ∃ db' i row, Handle (wallet_commands svc Scenario.env3) CommandReserve (reserve_message (repeat_x 300)) Scenario.db2
         = (Ok reserved40, db') ∧ db_reservations db' ≠ db_reservations Scenario.db2 ∧
    db_outbox db' !! i = Some row ∧ ∀ broker, Publish broker (ob_RoutingKey row) (ob_Payload row) = Some ErrUnpublishable.
Proof.
  destruct (long_message_id_unpublishable svc now now Scenario.env3 CommandReserve (reserve_message (repeat_x 300))
              (repeat_x 300) reserve40 Scenario.db2 reserved40 reserve40_db) as (i & payload & Hrun & _ & Hpub & _).
  - apply (reachable_ok 100 _ Scenario.credit_ok Scenario.reach2).
  - split; [vm_compute; reflexivity|]. intros i row r Hi. by vm_compute in Hi.
  - done.
  - intros commands db. vm_compute. reflexivity.
  - vm_compute. reflexivity.
  - vm_compute. by split.
  - vm_compute. by split.
  - vm_compute. by eexists.
  - vm_compute. discriminate.
  - discriminate.
  - vm_compute. discriminate.
  - vm_compute. reflexivity.
  - eexists _, i, _. split; [exact Hrun|]. split; [vm_compute; discriminate|].
    split; [apply lookup_insert_eq|]. exact Hpub.
Defined.

Lemma backoff_delay_bounds_witness :
  ∃ d, delay no_jitter (mkBackoff second (30 * second)) 9 = Some d ∧ 0 ≤ d ≤ 30 * second.
Proof.
  apply (backoff_delay_bounds no_jitter no_jitter_ok (mkBackoff second (30 * second)) 9); done.
Defined.

Lemma claims_are_exclusive_witness :
  bool_decide (ob_ID (leased 30 100 "w1" row1) = ob_ID (leased 40 100 "w2" row2)) = false.
Proof.
  apply bool_decide_eq_false.
  apply (claims_are_exclusive out2 30 "w1" 1 100 claim1 claimed1 claimed1 40 "w2" 5 100 claim2 claimed2 out2_ok).
  - eapply (outbox_ok_claim 30 "w1" 1 100 out2 claim1); [apply out2_ok|]. vm_compute. reflexivity.
  - vm_compute. reflexivity.
  - intros r. unfold claim1. rewrite list_elem_of_singleton.
    intros ->. vm_compute. reflexivity.
  - lia.
  - vm_compute. reflexivity.
  - unfold claim1. by left.
  - unfold claim2. by left.
Defined.

Lemma dispatcher_settles_batch_witness :
  ∃ db', RunOnce DefaultDispatcherConfig "w1" no_jitter down 30 false out2 = ((2, None), db') ∧
    (∀ r, r ∈ rows_of (Claim 30 "w1" 20 (30 * second) out2) →
      ∃ r', db_outbox db' !! ob_ID r = Some r' ∧ dispatched DefaultDispatcherConfig down 30 r r') ∧
    (∀ i, i ∉ ob_ID <$> rows_of (Claim 30 "w1" 20 (30 * second) out2) →
      db_outbox db' !! i = db_outbox out2 !! i).
Proof.
  apply (dispatcher_settles_batch DefaultDispatcherConfig "w1" no_jitter down 30 no_jitter_ok
           eq_refl ltac:(done) out2 (rows_of (Claim 30 "w1" 20 (30 * second) out2))
           (step_db (Claim 30 "w1" 20 (30 * second)) out2) out2_ok).
  vm_compute. reflexivity.
Defined.

Lemma claim_takes_oldest_witness :
  Z.of_nat (length claim1) = 1 ∧ Forall (λ r', ob_NextAttemptAt r' ≤ 20) claim1.
Proof.
  apply (claim_takes_oldest out2 30 "w1" 1 100 claim1 claimed1 2
           (new_row 20 2 "m2:credit.reserved" ResultReserved (payload "m2")) out2_ok).
  - lia.
  - vm_compute. reflexivity.
  - vm_compute. reflexivity.
  - vm_compute. reflexivity.
  - change (ob_ID <$> claim1) with [1]. rewrite list_elem_of_singleton. lia.
Defined.

Lemma requeue_is_bounded_witness :
  DispositionOf (Err (ErrOther "db down") : res GoError Result) = Requeue ∧ 2 < 5 - 1 ∧
  0 ≤ 0 ≤ 30 * second.
Proof.
  eapply (requeue_is_bounded no_jitter DefaultConfig DefaultConfig Result (Err (ErrOther "db down")) 2 0 0 1
           no_jitter_ok); [vm_compute; reflexivity|done|unfold max_int64; lia|vm_compute; reflexivity].
Defined.
