(* ===== verification/Errand.v ===== *)
(** * order-service: the errand domain

    [internal/errand]: statuses, events, the transition table, deadlines and
    the outbox rows of a transition, all pure.  A [time.Time] is its number of
    nanoseconds since the Unix epoch.  Versions are stored in a 32-bit column,
    so the 64-bit arithmetic on them cannot overflow.  An application error is
    its code and its field errors; message texts are left out. *)

From S2P Require Import Prelude GoText Json GoTime.

(** ** apperror *)

Inductive Code :=
| InvalidArgument | Unauthenticated | Forbidden | ValidationFailed | ErrandNotFound
| FenceNotFound | OutboxRowNotFound | ErrandChanged | ErrandUnavailable | InvalidTransition
| NotEligible | CourierRestricted | InsufficientCredits | EditPending | SupplierUnavailable
| SupplierDeletionInProgress | DependencyUnavailable | Internal.
#[export] Instance Code_eq_dec : EqDecision Code.
Proof. solve_decision. Defined.

Record Field := mkField { fd_Field : string; fd_Message : string }.

Record AppError := mkAppError { ae_Code : Code; ae_Fields : list Field }.

(** [newError]: the code alone. *)
Definition newError {A} (code : Code) : res AppError A := Err (mkAppError code []).

Definition HTTPStatus (code : Code) : Z :=
  match code with
  | InvalidArgument | ValidationFailed => 400
  | Unauthenticated => 401
  | Forbidden | NotEligible | CourierRestricted => 403
  | ErrandNotFound | FenceNotFound | OutboxRowNotFound => 404
  | ErrandChanged | ErrandUnavailable | InvalidTransition | InsufficientCredits | EditPending
  | SupplierDeletionInProgress => 409
  | SupplierUnavailable => 422
  | DependencyUnavailable => 503
  | Internal => 500
  end.

(** ** types.go *)

(** [Status]; [StatusOther] is any string that is not one of the constants. *)
Inductive Status :=
| StatusNone
| StatusPendingReservation | StatusOpen | StatusAssigned | StatusPickedUp | StatusDelivered
| StatusReviewRequired | StatusRejected | StatusCancelled | StatusExpired | StatusCompleted
| StatusRefunded
| StatusOther (s : string).
#[export] Instance Status_eq_dec : EqDecision Status.
Proof. solve_decision. Defined.

Definition Statuses : list Status :=
  [StatusPendingReservation; StatusOpen; StatusAssigned; StatusPickedUp; StatusDelivered;
   StatusReviewRequired; StatusRejected; StatusCancelled; StatusExpired; StatusCompleted;
   StatusRefunded].

Definition Terminal (s : Status) : bool :=
  match s with
  | StatusRejected | StatusCancelled | StatusExpired | StatusCompleted | StatusRefunded => true
  | _ => false
  end.

Definition Valid (s : Status) : bool := existsb (λ known, bool_decide (s = known)) Statuses.

Definition Active (s : Status) : bool :=
  negb (bool_decide (s = StatusNone)) && negb (Terminal s) && Valid s.

Inductive Event :=
| EventSubmit | EventReservationConfirmed | EventReservationRefused | EventReservationFailed
| EventEdit | EventCancel | EventConfirm | EventDispute
| EventEditConfirmed | EventEditRefused
| EventAccept | EventWithdraw | EventPickUp | EventDeliver | EventReportIssue
| EventAcceptanceDeadlinePassed | EventPickupDeadlinePassed | EventDeliveryDeadlinePassed
| EventVerificationLapsed
| EventAdminComplete | EventAdminRefund.
#[export] Instance Event_eq_dec : EqDecision Event.
Proof. solve_decision. Defined.

Definition Events : list Event :=
  [EventSubmit; EventReservationConfirmed; EventReservationRefused; EventReservationFailed;
   EventEdit; EventCancel; EventConfirm; EventDispute; EventEditConfirmed; EventEditRefused;
   EventAccept; EventWithdraw; EventPickUp; EventDeliver; EventReportIssue;
   EventAcceptanceDeadlinePassed; EventPickupDeadlinePassed; EventDeliveryDeadlinePassed;
   EventVerificationLapsed; EventAdminComplete; EventAdminRefund].

Inductive ActorType := ActorRequester | ActorCourier | ActorAdmin | ActorSystem.
#[export] Instance ActorType_eq_dec : EqDecision ActorType.
Proof. solve_decision. Defined.

Record Actor := mkActor { a_Type : ActorType; a_ID : string }.
#[export] Instance Actor_eq_dec : EqDecision Actor.
Proof. solve_decision. Defined.

Definition SystemActor : Actor := mkActor ActorSystem "".

(** [ReviewReason]; [ReviewNone] is the empty string. *)
Inductive ReviewReason :=
| ReviewNone | ReviewCourierIssue | ReviewRequesterDispute | ReviewDeliveryOverdue.
#[export] Instance ReviewReason_eq_dec : EqDecision ReviewReason.
Proof. solve_decision. Defined.

Definition ReasonInsufficientCredits := "INSUFFICIENT_CREDITS".
Definition ReasonReservationFailed := "RESERVATION_FAILED".
Definition ReasonEditFailed := "EDIT_FAILED".

Record Details := mkDetails {
  d_SupplierID : string;
  d_SupplierVersionID : string;
  d_DeliveryBuildingID : string;
  d_DeliveryBuildingSnapshot : option json;
  d_DeliveryDetail : string;
  d_Items : option json;
  d_Notes : string;
  d_ContactName : string;
  d_ContactMobile : string;
  d_Reward : Z;
  d_AcceptanceDeadline : Z;
}.

Definition WithoutContact (d : Details) : Details :=
  mkDetails (d_SupplierID d) (d_SupplierVersionID d) (d_DeliveryBuildingID d)
    (d_DeliveryBuildingSnapshot d) (d_DeliveryDetail d) (d_Items d) (d_Notes d) "" ""
    (d_Reward d) (d_AcceptanceDeadline d).

Record PendingEdit := mkPendingEdit { pe_Details : Details; pe_Key : string; pe_At : Z }.

Record Errand := mkErrand {
  e_ID : string;
  e_Status : Status;
  e_Version : Z;
  e_RequesterID : string;
  e_CourierID : string;
  e_Details : Details;
  e_PickupDeadline : option Z;
  e_DeliveryDeadline : option Z;
  e_DeliveredAt : option Z;
  e_VerificationDeadline : option Z;
  e_ReviewReason : ReviewReason;
  e_CreateIdempotencyKey : string;
  e_PendingEdit : option PendingEdit;
  e_CreatedAt : Z;
  e_UpdatedAt : Z;
}.

(** [Update[T]] *)
Record Update (T : Type) := mkUpdate { u_Set : bool; u_Value : option T }.
Arguments mkUpdate {T}. Arguments u_Set {T}. Arguments u_Value {T}.

Definition unchanged {T} : Update T := mkUpdate false None.
Definition setTo {T} (v : T) : Update T := mkUpdate true (Some v).
Definition setNull {T} : Update T := mkUpdate true None.

Definition applyTo {T} (u : Update T) (current : option T) : option T :=
  if negb (u_Set u) then current else u_Value u.

(** [zero] is Go's zero value of [T]. *)
Definition applyValue {T} (zero : T) (u : Update T) (current : T) : T :=
  if negb (u_Set u) then current
  else match u_Value u with None => zero | Some v => v end.

Record Changes := mkChanges {
  c_CourierID : Update string;
  c_Details : option Details;
  c_PickupDeadline : Update Z;
  c_DeliveryDeadline : Update Z;
  c_DeliveredAt : Update Z;
  c_VerificationDeadline : Update Z;
  c_ReviewReason : Update ReviewReason;
  c_PendingEdit : Update PendingEdit;
}.

Definition no_changes : Changes :=
  mkChanges unchanged None unchanged unchanged unchanged unchanged unchanged unchanged.

Definition set_courier (u : Update string) (pickup delivery : Update Z) (c : Changes) : Changes :=
  mkChanges u (c_Details c) pickup delivery (c_DeliveredAt c) (c_VerificationDeadline c)
    (c_ReviewReason c) (c_PendingEdit c).
Definition set_details (d : Details) (c : Changes) : Changes :=
  mkChanges (c_CourierID c) (Some d) (c_PickupDeadline c) (c_DeliveryDeadline c) (c_DeliveredAt c)
    (c_VerificationDeadline c) (c_ReviewReason c) (c_PendingEdit c).
Definition set_delivered (at_ deadline : Z) (c : Changes) : Changes :=
  mkChanges (c_CourierID c) (c_Details c) (c_PickupDeadline c) (c_DeliveryDeadline c) (setTo at_)
    (setTo deadline) (c_ReviewReason c) (c_PendingEdit c).
Definition set_review (r : ReviewReason) (c : Changes) : Changes :=
  mkChanges (c_CourierID c) (c_Details c) (c_PickupDeadline c) (c_DeliveryDeadline c)
    (c_DeliveredAt c) (c_VerificationDeadline c) (setTo r) (c_PendingEdit c).
Definition set_pending (u : Update PendingEdit) (c : Changes) : Changes :=
  mkChanges (c_CourierID c) (c_Details c) (c_PickupDeadline c) (c_DeliveryDeadline c)
    (c_DeliveredAt c) (c_VerificationDeadline c) (c_ReviewReason c) u.

(** ** outbox.go: data *)

Inductive EventName :=
| ErrandPlaced | ErrandOpened | ErrandRejected | ErrandEdited | ErrandEditRequested
| ErrandEditRejected | ErrandAccepted | ErrandCancelled | ErrandWithdrawn | ErrandExpired
| ErrandPickedUp | ErrandDelivered | ErrandReviewRequired | ErrandCompleted | ErrandRefunded
| ErrandAcceptRejected | ErrandCancelRejected | ErrandPickupRejected.
#[export] Instance EventName_eq_dec : EqDecision EventName.
Proof. solve_decision. Defined.

(** [operation]: the name's last segment. *)
Definition operation (n : EventName) : string :=
  match n with
  | ErrandPlaced => "placed" | ErrandOpened => "opened" | ErrandRejected => "rejected"
  | ErrandEdited => "edited" | ErrandEditRequested => "edit_requested"
  | ErrandEditRejected => "edit_rejected" | ErrandAccepted => "accepted"
  | ErrandCancelled => "cancelled" | ErrandWithdrawn => "withdrawn" | ErrandExpired => "expired"
  | ErrandPickedUp => "picked_up" | ErrandDelivered => "delivered"
  | ErrandReviewRequired => "review_required" | ErrandCompleted => "completed"
  | ErrandRefunded => "refunded" | ErrandAcceptRejected => "accept_rejected"
  | ErrandCancelRejected => "cancel_rejected" | ErrandPickupRejected => "pickup_rejected"
  end.

Definition event_string (n : EventName) : string := "errand." +:+ operation n.
Definition Kind (n : EventName) : string := "event." +:+ event_string n.

Definition KindCreditReserve := "credit.reserve".
Definition KindCreditAdjust := "credit.adjust".
Definition KindCreditRelease := "credit.release".
Definition KindCreditTransfer := "credit.transfer".

Record CreditCommand := mkCreditCommand {
  cc_ErrandID : string;
  cc_ErrandVersion : Z;
  cc_RequesterID : string;
  cc_CourierID : string;
  cc_Amount : Z;
  cc_NewAmount : Z;
  cc_Seq : Z;
}.

Record EventData := mkEventData {
  ed_ErrandID : string;
  ed_ErrandVersion : Z;
  ed_Event : Event;
  ed_From : Status;
  ed_To : Status;
  ed_ActorType : ActorType;
  ed_ActorID : string;
  ed_Reason : string;
  ed_ReviewReason : ReviewReason;
  ed_RequesterID : string;
  ed_CourierID : string;
  ed_Reward : Z;
  ed_At : Z;
  ed_PendingEdit : option Details;
  ed_EditDropped : bool;
}.

(** The [Payload any] of a row. *)
Inductive Payload := PCommand (c : CreditCommand) | PEvent (d : EventData).

Record OutboxRow := mkRow {
  o_Kind : string;
  o_IdempotencyKey : string;
  o_ErrandID : string;
  o_Payload : Payload;
}.

(** [Transition] *)
Record Transition := mkTransition {
  t_ErrandID : string;
  t_From : Status;
  t_To : Status;
  t_Event : Event;
  t_Actor : Actor;
  t_Reason : string;
  t_ExpectedVersion : Z;
  t_ExpectedPendingEditKey : string;
  t_NewVersion : Z;
  t_Changes : Changes;
  t_Outbox : list OutboxRow;
  t_At : Z;
}.

Definition ApplyTo (t : Transition) (e : Errand) : Errand :=
  let c := t_Changes t in
  mkErrand (e_ID e) (t_To t) (t_NewVersion t) (e_RequesterID e)
    (applyValue "" (c_CourierID c) (e_CourierID e))
    (match c_Details c with Some d => d | None => e_Details e end)
    (applyTo (c_PickupDeadline c) (e_PickupDeadline e))
    (applyTo (c_DeliveryDeadline c) (e_DeliveryDeadline e))
    (applyTo (c_DeliveredAt c) (e_DeliveredAt e))
    (applyTo (c_VerificationDeadline c) (e_VerificationDeadline e))
    (applyValue ReviewNone (c_ReviewReason c) (e_ReviewReason e))
    (e_CreateIdempotencyKey e)
    (applyTo (c_PendingEdit c) (e_PendingEdit e))
    (if bool_decide (t_From t = StatusNone) then t_At t else e_CreatedAt e)
    (t_At t).

(** ** deadlines.go *)

Definition hour : Z := 3600 * nsec.
Definition minute : Z := 60 * nsec.

Definition DefaultAcceptanceWindow : Z := hour.
Definition MinAcceptanceWindow : Z := 10 * minute.
Definition MaxAcceptanceWindow : Z := 24 * hour.

Record DeadlineSettings := mkDeadlineSettings {
  ds_PickupAfter : Z;
  ds_DeliveryAfter : Z;
  ds_VerificationAfter : Z;
  ds_VerificationReminderAfter : Z;
}.

Definition DefaultDeadlineSettings : DeadlineSettings :=
  mkDeadlineSettings (2 * hour) (2 * hour) (30 * minute) (5 * minute).

Definition positive_field (name : string) (d : Z) : list Field :=
  if d <=? 0 then [mkField name "must be positive"] else [].

(** [DeadlineSettings.Validate] *)
Definition Validate (s : DeadlineSettings) : res AppError unit :=
  let fields := positive_field "pickupAfter" (ds_PickupAfter s)
    ++ positive_field "deliveryAfter" (ds_DeliveryAfter s)
    ++ positive_field "verificationAfter" (ds_VerificationAfter s)
    ++ positive_field "verificationReminderAfter" (ds_VerificationReminderAfter s) in
  let fields :=
    if (ds_VerificationAfter s <=? ds_VerificationReminderAfter s) && (Nat.eqb (length fields) 0)
    then fields ++ [mkField "verificationReminderAfter" "must be before verificationAfter"]
    else fields in
  match fields with
  | [] => Ok tt
  | _ => Err (mkAppError ValidationFailed fields)
  end.

Definition PickupDeadline (s : DeadlineSettings) (acceptedAt : Z) : Z := acceptedAt + ds_PickupAfter s.
Definition DeliveryDeadline (s : DeadlineSettings) (acceptedAt : Z) : Z := acceptedAt + ds_DeliveryAfter s.
Definition VerificationDeadline (s : DeadlineSettings) (deliveredAt : Z) : Z :=
  deliveredAt + ds_VerificationAfter s.
Definition VerificationReminderAt (s : DeadlineSettings) (deliveredAt : Z) : Z :=
  deliveredAt + ds_VerificationReminderAfter s.

(** The field error, or [None] when the deadline is acceptable. *)
Definition acceptanceDeadlineProblem (deadline now : Z) : option Field :=
  let problem := mkField "acceptanceDeadline" in
  if negb (now <? deadline) then Some (problem "must be in the future")
  else if deadline <? now + MinAcceptanceWindow then
    Some (problem "must be at least 10 minutes from now")
  else if now + MaxAcceptanceWindow <? deadline then
    Some (problem "must be at most 24 hours from now")
  else None.

Definition validationError {A} (fields : list Field) : res AppError A :=
  Err (mkAppError ValidationFailed fields).

Definition ValidateAcceptanceDeadline (deadline now : Z) : res AppError unit :=
  match acceptanceDeadlineProblem deadline now with
  | Some field => validationError [field]
  | None => Ok tt
  end.

Definition AcceptanceDeadline (requested : option Z) (now : Z) : res AppError Z :=
  match requested with
  | None => Ok (now + DefaultAcceptanceWindow)
  | Some r => match ValidateAcceptanceDeadline r now with Err e => Err e | Ok _ => Ok r end
  end.

Definition Passed (deadline now : Z) : bool := negb (now <? deadline).

(** [EventInput] *)
Record EventInput := mkEventInput {
  i_Edit : option Details;
  i_Reason : string;
  i_PreviouslyWithdrew : bool;
  i_Restricted : bool;
  i_Deadlines : DeadlineSettings;
  i_EditKey : string;
  i_EditTimedOut : bool;
}.
