(* ===== verification/Settings.v ===== *)
(** * order-service: system settings

    [errand.SystemSettings] of [internal/errand/ports.go] with its defaults
    and validation.  Durations are nanoseconds. *)

From S2P Require Import Prelude GoText Json GoTime Errand.

Open Scope Z_scope.

Record WithdrawalRestriction := mkWithdrawalRestriction { wr_Count : Z; wr_Window : Z; wr_Duration : Z }.

Record CancellationFlag := mkCancellationFlag { cf_Count : Z; cf_Window : Z }.

Record SystemSettings := mkSystemSettings {
  ss_Deadlines : DeadlineSettings;
  ss_WithdrawalRestriction : WithdrawalRestriction;
  ss_CancellationFlag : CancellationFlag;
  ss_ReservationTimeout : Z;
  ss_EditTimeout : Z;
  ss_OutboxConfirmTimeout : Z;
}.

Definition DefaultSystemSettings : SystemSettings :=
  mkSystemSettings DefaultDeadlineSettings
    (mkWithdrawalRestriction 3 (15 * minute) (15 * minute))
    (mkCancellationFlag 20 hour) (5 * minute) (5 * minute) (10 * minute).

(** [SystemSettings.Validate] *)
Definition ValidateSettings (s : SystemSettings) : res AppError unit :=
  let fields :=
    (match Validate (ss_Deadlines s) with Ok _ => [] | Err e => ae_Fields e end)
    ++ positive_field "withdrawalRestriction.count" (wr_Count (ss_WithdrawalRestriction s))
    ++ positive_field "withdrawalRestriction.window" (wr_Window (ss_WithdrawalRestriction s))
    ++ positive_field "withdrawalRestriction.duration" (wr_Duration (ss_WithdrawalRestriction s))
    ++ positive_field "cancellationFlag.count" (cf_Count (ss_CancellationFlag s))
    ++ positive_field "cancellationFlag.window" (cf_Window (ss_CancellationFlag s))
    ++ positive_field "reservationTimeout" (ss_ReservationTimeout s)
    ++ positive_field "editTimeout" (ss_EditTimeout s)
    ++ positive_field "outboxConfirmTimeout" (ss_OutboxConfirmTimeout s) in
  match fields with
  | [] => Ok tt
  | _ => Err (mkAppError ValidationFailed fields)
  end.

(** Settings that validate are usable by [Next]. *)
Lemma ValidateSettings_Deadlines s : ValidateSettings s = Ok tt → Validate (ss_Deadlines s) = Ok tt.
Proof.
  unfold ValidateSettings. destruct (Validate (ss_Deadlines s)) as [[]|e] eqn:Hv; [done|].
  assert (ae_Fields e ≠ []) as Hne.
  { unfold Validate in Hv. match type of Hv with match ?l with _ => _ end = _ => destruct l end; [done|].
    by injection Hv as <-. }
  by destruct (ae_Fields e).
Qed.
