(* ===== verification/ErrandState.v ===== *)
(** * order-service: the errand state machine

    [internal/errand/state.go] and the row builders of [outbox.go]: the
    transition table of Diagram 1, [Next] with its checks in order, and the
    outbox rows of a transition. *)

From S2P Require Import Prelude GoText Json GoTime Errand.

(** ** The transition table *)

Inductive Relationship :=
| RelRequester | RelAssignedCourier | RelEligibleCourier | RelAdmin | RelSystem.
#[export] Instance Relationship_eq_dec : EqDecision Relationship.
Proof. solve_decision. Defined.

Inductive Guard :=
| GuardBeforeAcceptanceDeadline | GuardAfterAcceptanceDeadline | GuardAfterPickupDeadline
| GuardAfterDeliveryDeadline | GuardAfterVerificationDeadline.
#[export] Instance Guard_eq_dec : EqDecision Guard.
Proof. solve_decision. Defined.

Inductive CreditEffect := CreditNone | CreditReserve | CreditRelease | CreditTransfer.
#[export] Instance CreditEffect_eq_dec : EqDecision CreditEffect.
Proof. solve_decision. Defined.

Record Rule := mkRule {
  r_From : Status;
  r_Event : Event;
  r_To : Status;
  r_Actor : Relationship;
  r_Guards : list Guard;
  r_Credit : CreditEffect;
  r_Emits : list EventName;
  r_Review : ReviewReason;
  r_NeedsReason : bool;
}.

Definition transitionTable : list Rule := [
  mkRule StatusNone EventSubmit StatusPendingReservation RelRequester [] CreditReserve
    [ErrandPlaced] ReviewNone false;
  mkRule StatusPendingReservation EventReservationConfirmed StatusOpen RelSystem [] CreditNone
    [ErrandOpened] ReviewNone false;
  mkRule StatusPendingReservation EventReservationRefused StatusRejected RelSystem [] CreditNone
    [ErrandRejected] ReviewNone false;
  mkRule StatusPendingReservation EventReservationFailed StatusRejected RelSystem [] CreditRelease
    [ErrandRejected] ReviewNone false;
  mkRule StatusOpen EventEdit StatusOpen RelRequester [] CreditNone
    [ErrandEdited] ReviewNone false;
  mkRule StatusOpen EventEditConfirmed StatusOpen RelSystem [] CreditNone
    [ErrandEdited] ReviewNone false;
  mkRule StatusOpen EventEditRefused StatusOpen RelSystem [] CreditNone
    [ErrandEditRejected] ReviewNone false;
  mkRule StatusOpen EventAccept StatusAssigned RelEligibleCourier [GuardBeforeAcceptanceDeadline]
    CreditNone [ErrandAccepted] ReviewNone false;
  mkRule StatusOpen EventCancel StatusCancelled RelRequester [] CreditRelease
    [ErrandCancelled] ReviewNone false;
  mkRule StatusOpen EventAcceptanceDeadlinePassed StatusExpired RelSystem
    [GuardAfterAcceptanceDeadline] CreditRelease [ErrandExpired] ReviewNone false;
  mkRule StatusAssigned EventWithdraw StatusOpen RelAssignedCourier
    [GuardBeforeAcceptanceDeadline] CreditNone [ErrandWithdrawn] ReviewNone false;
  mkRule StatusAssigned EventWithdraw StatusExpired RelAssignedCourier
    [GuardAfterAcceptanceDeadline] CreditRelease [ErrandWithdrawn; ErrandExpired] ReviewNone false;
  mkRule StatusAssigned EventPickupDeadlinePassed StatusOpen RelSystem
    [GuardAfterPickupDeadline; GuardBeforeAcceptanceDeadline] CreditNone
    [ErrandWithdrawn] ReviewNone false;
  mkRule StatusAssigned EventPickupDeadlinePassed StatusExpired RelSystem
    [GuardAfterPickupDeadline; GuardAfterAcceptanceDeadline] CreditRelease
    [ErrandWithdrawn; ErrandExpired] ReviewNone false;
  mkRule StatusAssigned EventPickUp StatusPickedUp RelAssignedCourier [] CreditNone
    [ErrandPickedUp] ReviewNone false;
  mkRule StatusPickedUp EventDeliver StatusDelivered RelAssignedCourier [] CreditNone
    [ErrandDelivered] ReviewNone false;
  mkRule StatusPickedUp EventReportIssue StatusReviewRequired RelAssignedCourier [] CreditNone
    [ErrandReviewRequired] ReviewCourierIssue true;
  mkRule StatusPickedUp EventDeliveryDeadlinePassed StatusReviewRequired RelSystem
    [GuardAfterDeliveryDeadline] CreditNone [ErrandReviewRequired] ReviewDeliveryOverdue false;
  mkRule StatusDelivered EventConfirm StatusCompleted RelRequester [] CreditTransfer
    [ErrandCompleted] ReviewNone false;
  mkRule StatusDelivered EventVerificationLapsed StatusCompleted RelSystem
    [GuardAfterVerificationDeadline] CreditTransfer [ErrandCompleted] ReviewNone false;
  mkRule StatusDelivered EventDispute StatusReviewRequired RelRequester [] CreditNone
    [ErrandReviewRequired] ReviewRequesterDispute true;
  mkRule StatusReviewRequired EventAdminComplete StatusCompleted RelAdmin [] CreditTransfer
    [ErrandCompleted] ReviewNone true;
  mkRule StatusReviewRequired EventAdminRefund StatusRefunded RelAdmin [] CreditRelease
    [ErrandRefunded] ReviewNone true ].

Definition Rules : list Rule := transitionTable.

Definition RulesFor (from : Status) (ev : Event) : list Rule :=
  List.filter (λ r, bool_decide (r_From r = from) && bool_decide (r_Event r = ev)) transitionTable.

(** ** Guards *)

Definition guardHolds (g : Guard) (e : Errand) (now : Z) : bool :=
  let passed deadline := match deadline with Some d => Passed d now | None => false end in
  match g with
  | GuardBeforeAcceptanceDeadline => negb (Passed (d_AcceptanceDeadline (e_Details e)) now)
  | GuardAfterAcceptanceDeadline => Passed (d_AcceptanceDeadline (e_Details e)) now
  | GuardAfterPickupDeadline => passed (e_PickupDeadline e)
  | GuardAfterDeliveryDeadline => passed (e_DeliveryDeadline e)
  | GuardAfterVerificationDeadline => passed (e_VerificationDeadline e)
  end.

(** The first guard of a rule that does not hold. *)
Fixpoint first_failing (gs : list Guard) (e : Errand) (now : Z) : option Guard :=
  match gs with
  | [] => None
  | g :: gs' => if negb (guardHolds g e now) then Some g else first_failing gs' e now
  end.

(** [chooseRule]; [failed] is the last guard that failed, [None] its zero value. *)
Fixpoint choose (failed : option Guard) (candidates : list Rule) (e : Errand) (now : Z) :
    res AppError Rule :=
  match candidates with
  | [] =>
      if bool_decide (failed = Some GuardBeforeAcceptanceDeadline)
      then newError ErrandUnavailable
      else newError InvalidTransition
  | r :: candidates' =>
      match first_failing (r_Guards r) e now with
      | None => Ok r
      | Some g => choose (Some g) candidates' e now
      end
  end.

Definition chooseRule (candidates : list Rule) (e : Errand) (now : Z) : res AppError Rule :=
  choose None candidates e now.

Definition lifecycleRank (s : Status) : Z :=
  match s with
  | StatusNone => 0
  | StatusPendingReservation => 1
  | StatusOpen => 2
  | StatusAssigned => 3
  | StatusPickedUp => 4
  | StatusDelivered => 5
  | StatusReviewRequired => 6
  | _ => 7
  end.

Definition movedPast (current : Status) (ev : Event) : bool :=
  let latest := foldl (λ latest r, if bool_decide (r_Event r = ev)
                                   then Z.max latest (lifecycleRank (r_From r)) else latest)
                  (-1) transitionTable in
  (0 <=? latest) && (latest <? lifecycleRank current).

(** ** Validation *)

Definition isBlank (s : string) : bool := bool_decide (trim_space s = "").

Definition orDefault (s fallback : string) : string := if bool_decide (s = "") then fallback else s.

Definition maxContactName : Z := 100.
Definition maxContactMobile : Z := 32.

(** The message, or [""] when the field is valid. *)
Definition contactProblem (s : string) (max : Z) : string :=
  if isBlank s then "is required"
  else if max <? rune_count s then "must be at most " +:+ itoa max +:+ " characters"
  else if existsb is_control (runes s) then "must not contain control characters"
  else "".

Definition contact_field (name s : string) (max : Z) : list Field :=
  let msg := contactProblem s max in if bool_decide (msg = "") then [] else [mkField name msg].

(** [json.Unmarshal(d.Items, &items)]: the number of elements. *)
Definition items_count (items : option json) : option nat :=
  match items with
  | Some (JArr l) => Some (length l)
  | Some JNull => Some 0%nat
  | _ => None
  end.

Definition validateDetails (d : Details) (now : Z) (newDeadline : bool) : res AppError unit :=
  let fields :=
    (if d_Reward d <=? 0 then [mkField "reward" "must be a positive integer"] else [])
    ++ (match items_count (d_Items d) with
        | Some (S _) => []
        | _ => [mkField "items" "must list at least one item"]
        end)
    ++ contact_field "contactName" (d_ContactName d) maxContactName
    ++ contact_field "contactMobile" (d_ContactMobile d) maxContactMobile
    ++ (if newDeadline then
          match acceptanceDeadlineProblem (d_AcceptanceDeadline d) now with
          | Some field => [field]
          | None => []
          end
        else if Passed (d_AcceptanceDeadline d) now
        then [mkField "acceptanceDeadline" "has already passed"] else []) in
  match fields with
  | [] => Ok tt
  | _ => validationError fields
  end.

(** ** Actors *)

Definition checkActor (rel : Relationship) (e : Errand) (actor : Actor) (input : EventInput) :
    res AppError unit :=
  let isA t := bool_decide (a_Type actor = t) in
  let named := negb (bool_decide (a_ID actor = "")) in
  let allow_if (b : bool) := if b then Ok tt else newError Forbidden in
  match rel with
  | RelSystem => allow_if (isA ActorSystem && negb named)
  | RelAdmin => allow_if (isA ActorAdmin && named)
  | RelRequester =>
      allow_if (isA ActorRequester && named && bool_decide (a_ID actor = e_RequesterID e))
  | RelAssignedCourier =>
      allow_if (isA ActorCourier && named && bool_decide (a_ID actor = e_CourierID e))
  | RelEligibleCourier =>
      if negb (isA ActorCourier && named) then newError Forbidden
      else if bool_decide (a_ID actor = e_RequesterID e) then newError NotEligible
      else if i_PreviouslyWithdrew input then newError NotEligible
      else if i_Restricted input then newError CourierRestricted
      else Ok tt
  end.

(** ** outbox.go *)

Definition IdempotencyKey (errandID op : string) (version : Z) : string :=
  let key := errandID +:+ ":" +:+ op in
  if 0 <? version then key +:+ ":" +:+ itoa version else key.

Definition AdjustSeq (version : Z) : Z := 2 * version.
Definition RevertSeq (newVersion : Z) : Z := 2 * newVersion - 1.

Definition revertsAdjust (before : Errand) (t : Transition) (input : EventInput) : bool :=
  match e_PendingEdit before with
  | None => false
  | Some _ =>
      match t_Event t with
      | EventAccept => true
      | EventEditRefused => i_EditTimedOut input
      | _ => false
      end
  end.

Definition editRequested (t : Transition) : option PendingEdit :=
  if bool_decide (t_Event t = EventEdit) && u_Set (c_PendingEdit (t_Changes t))
  then u_Value (c_PendingEdit (t_Changes t)) else None.

(** The closure [credit]: a row with the fields every command shares. *)
Definition credit_row (before : Errand) (t : Transition) (kind op : string) (version : Z)
    (courier : string) (amount newAmount seq : Z) : OutboxRow :=
  mkRow kind (IdempotencyKey (e_ID before) op version) (e_ID before)
    (PCommand (mkCreditCommand (e_ID before) (t_NewVersion t) (e_RequesterID before)
                 courier amount newAmount seq)).

Definition event_row (before after : Errand) (t : Transition) (name : EventName) : OutboxRow :=
  let courier := if bool_decide (e_CourierID before = "") then e_CourierID after
                 else e_CourierID before in
  let pending := (λ p, WithoutContact (pe_Details p)) <$> editRequested t in
  let dropped := bool_decide (t_Event t = EventAccept) &&
                 match e_PendingEdit before with Some _ => true | None => false end in
  mkRow (Kind name) (IdempotencyKey (e_ID before) (operation name) (t_NewVersion t)) (e_ID before)
    (PEvent (mkEventData (e_ID before) (t_NewVersion t) (t_Event t) (t_From t) (t_To t)
               (a_Type (t_Actor t)) (a_ID (t_Actor t)) (t_Reason t) (e_ReviewReason after)
               (e_RequesterID before) courier (d_Reward (e_Details after)) (t_At t) pending dropped)).

Definition credit_rows (r : Rule) (before after : Errand) (t : Transition) (input : EventInput) :
    list OutboxRow :=
  (match r_Credit r with
   | CreditNone => []
   | CreditReserve =>
       [credit_row before t KindCreditReserve "reserve" 0 "" (d_Reward (e_Details after)) 0 0]
   | CreditRelease => [credit_row before t KindCreditRelease "release" 0 "" 0 0 0]
   | CreditTransfer =>
       [credit_row before t KindCreditTransfer "transfer" 0 (e_CourierID before)
          (d_Reward (e_Details after)) 0 0]
   end)
  ++ (match editRequested t with
      | Some pending =>
          [credit_row before t KindCreditAdjust "adjust" (t_ExpectedVersion t) "" 0
             (d_Reward (pe_Details pending)) (AdjustSeq (t_ExpectedVersion t))]
      | None => []
      end)
  ++ (if revertsAdjust before t input then
        [credit_row before t KindCreditAdjust "adjust-revert" (t_NewVersion t) "" 0
           (d_Reward (e_Details before)) (RevertSeq (t_NewVersion t))]
      else []).

Definition outboxRows (r : Rule) (before : Errand) (t : Transition) (input : EventInput) :
    list OutboxRow :=
  let after := ApplyTo t before in
  let names := match editRequested t with Some _ => [ErrandEditRequested] | None => r_Emits r end in
  credit_rows r before after t input ++ (event_row before after t <$> names).

(** ** Next *)

Definition with_changes (f : Changes → Changes) (t : Transition) : Transition :=
  mkTransition (t_ErrandID t) (t_From t) (t_To t) (t_Event t) (t_Actor t) (t_Reason t)
    (t_ExpectedVersion t) (t_ExpectedPendingEditKey t) (t_NewVersion t) (f (t_Changes t))
    (t_Outbox t) (t_At t).
Definition with_reason (reason : string) (t : Transition) : Transition :=
  mkTransition (t_ErrandID t) (t_From t) (t_To t) (t_Event t) (t_Actor t) reason
    (t_ExpectedVersion t) (t_ExpectedPendingEditKey t) (t_NewVersion t) (t_Changes t)
    (t_Outbox t) (t_At t).
Definition with_versions (expected new : Z) (t : Transition) : Transition :=
  mkTransition (t_ErrandID t) (t_From t) (t_To t) (t_Event t) (t_Actor t) (t_Reason t)
    expected (t_ExpectedPendingEditKey t) new (t_Changes t) (t_Outbox t) (t_At t).
Definition with_outbox (rows : list OutboxRow) (t : Transition) : Transition :=
  mkTransition (t_ErrandID t) (t_From t) (t_To t) (t_Event t) (t_Actor t) (t_Reason t)
    (t_ExpectedVersion t) (t_ExpectedPendingEditKey t) (t_NewVersion t) (t_Changes t) rows (t_At t).

Definition applyEvent (t : Transition) (e : Errand) (input : EventInput) (now : Z) :
    res AppError Transition :=
  match t_Event t with
  | EventSubmit =>
      if bool_decide (e_ID e = "") then newError InvalidArgument
      else if negb (e_Version e =? 0) then newError InvalidArgument
      else match validateDetails (e_Details e) now true with
           | Err err => Err err
           | Ok _ => Ok (with_versions 0 1 t)
           end
  | EventReservationRefused => Ok (with_reason (orDefault (t_Reason t) ReasonInsufficientCredits) t)
  | EventReservationFailed => Ok (with_reason (orDefault (t_Reason t) ReasonReservationFailed) t)
  | EventEdit =>
      match e_PendingEdit e, i_Edit input with
      | Some _, _ => newError EditPending
      | None, None => newError InvalidArgument
      | None, Some edit =>
          let deadlineChanged :=
            negb (d_AcceptanceDeadline edit =? d_AcceptanceDeadline (e_Details e)) in
          match validateDetails edit now deadlineChanged with
          | Err err => Err err
          | Ok _ =>
              if d_Reward edit =? d_Reward (e_Details e) then Ok (with_changes (set_details edit) t)
              else Ok (with_changes
                         (set_pending (setTo (mkPendingEdit edit
                            (IdempotencyKey (e_ID e) "adjust" (e_Version e)) now)))
                         (with_versions (t_ExpectedVersion t) (e_Version e) t))
          end
      end
  | EventEditConfirmed | EventEditRefused =>
      match e_PendingEdit e with
      | None => newError ErrandChanged
      | Some p =>
          if negb (bool_decide (i_EditKey input = pe_Key p)) then newError ErrandChanged
          else
            let t := with_changes (set_pending setNull) t in
            if bool_decide (t_Event t = EventEditConfirmed) then
              Ok (with_changes (set_details (pe_Details p)) t)
            else if i_EditTimedOut input then
              Ok (with_reason (orDefault (t_Reason t) ReasonEditFailed) t)
            else Ok (with_reason (orDefault (t_Reason t) ReasonInsufficientCredits) t)
      end
  | EventAccept =>
      match Validate (i_Deadlines input) with
      | Err err => Err err
      | Ok _ => Ok (with_changes (set_courier (setTo (a_ID (t_Actor t)))
                      (setTo (PickupDeadline (i_Deadlines input) now))
                      (setTo (DeliveryDeadline (i_Deadlines input) now))) t)
      end
  | EventWithdraw | EventPickupDeadlinePassed =>
      Ok (with_changes (set_courier setNull setNull setNull) t)
  | EventDeliver =>
      match Validate (i_Deadlines input) with
      | Err err => Err err
      | Ok _ => Ok (with_changes (set_delivered now (VerificationDeadline (i_Deadlines input) now)) t)
      end
  | _ => Ok t
  end.

(** The transition before the event-specific parts. *)
Definition base_transition (rule : Rule) (e : Errand) (ev : Event) (actor : Actor)
    (input : EventInput) (now : Z) : Transition :=
  let key := match e_PendingEdit e with Some p => pe_Key p | None => "" end in
  let changes := if bool_decide (r_Review rule = ReviewNone) then no_changes
                 else set_review (r_Review rule) no_changes in
  mkTransition (e_ID e) (e_Status e) (r_To rule) ev actor (i_Reason input) (e_Version e) key
    (e_Version e + 1) changes [] now.

Definition Next (e : Errand) (ev : Event) (actor : Actor) (input : EventInput) (now : Z) :
    res AppError Transition :=
  if negb (bool_decide (e_Status e = StatusNone)) && negb (Valid (e_Status e)) then
    newError InvalidArgument
  else if Terminal (e_Status e) then newError ErrandUnavailable
  else match RulesFor (e_Status e) ev with
  | [] => if movedPast (e_Status e) ev then newError ErrandUnavailable
          else newError InvalidTransition
  | (r0 :: _) as candidates =>
      match checkActor (r_Actor r0) e actor input with
      | Err err => Err err
      | Ok _ =>
          match chooseRule candidates e now with
          | Err err => Err err
          | Ok rule =>
              if r_NeedsReason rule && isBlank (i_Reason input) then
                validationError [mkField "reason" "is required"]
              else match applyEvent (base_transition rule e ev actor input now) e input now with
              | Err err => Err err
              | Ok t =>
                  let t := match e_PendingEdit e with
                           | Some _ => if bool_decide (t_To t = StatusOpen) then t
                                       else with_changes (set_pending setNull) t
                           | None => t
                           end in
                  Ok (with_outbox (outboxRows rule e t input) t)
              end
          end
      end
  end.
