(* ===== verification/ErrandJson.v ===== *)
(** * order-service: the JSON forms of errand data

    What [encoding/json] writes and reads for the structs of
    [internal/errand]: [Details] (the [pending_edit] column), the payloads of
    outbox rows, and the string constants behind the enumerations.  Encoding
    fails only on a time outside the years 0 to 9999. *)

From S2P Require Import Prelude GoText Json GoTime Errand ErrandState.

(** ** String constants *)

Definition Status_string (s : Status) : string :=
  match s with
  | StatusNone => ""
  | StatusPendingReservation => "PENDING_RESERVATION" | StatusOpen => "OPEN"
  | StatusAssigned => "ASSIGNED" | StatusPickedUp => "PICKED_UP" | StatusDelivered => "DELIVERED"
  | StatusReviewRequired => "REVIEW_REQUIRED" | StatusRejected => "REJECTED"
  | StatusCancelled => "CANCELLED" | StatusExpired => "EXPIRED" | StatusCompleted => "COMPLETED"
  | StatusRefunded => "REFUNDED"
  | StatusOther s => s
  end.

Definition Event_string (ev : Event) : string :=
  match ev with
  | EventSubmit => "submit" | EventReservationConfirmed => "reservation_confirmed"
  | EventReservationRefused => "reservation_refused" | EventReservationFailed => "reservation_failed"
  | EventEdit => "edit" | EventCancel => "cancel" | EventConfirm => "confirm"
  | EventDispute => "dispute" | EventEditConfirmed => "edit_confirmed"
  | EventEditRefused => "edit_refused" | EventAccept => "accept" | EventWithdraw => "withdraw"
  | EventPickUp => "pick_up" | EventDeliver => "deliver" | EventReportIssue => "report_issue"
  | EventAcceptanceDeadlinePassed => "acceptance_deadline_passed"
  | EventPickupDeadlinePassed => "pickup_deadline_passed"
  | EventDeliveryDeadlinePassed => "delivery_deadline_passed"
  | EventVerificationLapsed => "verification_lapsed" | EventAdminComplete => "admin_complete"
  | EventAdminRefund => "admin_refund"
  end.

Definition ActorType_string (a : ActorType) : string :=
  match a with
  | ActorRequester => "REQUESTER" | ActorCourier => "COURIER" | ActorAdmin => "ADMIN"
  | ActorSystem => "SYSTEM"
  end.

Definition ReviewReason_string (r : ReviewReason) : string :=
  match r with
  | ReviewNone => "" | ReviewCourierIssue => "COURIER_ISSUE"
  | ReviewRequesterDispute => "REQUESTER_DISPUTE" | ReviewDeliveryOverdue => "DELIVERY_OVERDUE"
  end.

(** ** Details *)

Definition enc_details (d : Details) : option json :=
  obind (format_rfc3339 (d_AcceptanceDeadline d)) (λ deadline,
  Some (JObj (
    [("supplierId", JStr (d_SupplierID d)); ("supplierVersionId", JStr (d_SupplierVersionID d));
     ("deliveryBuildingId", JStr (d_DeliveryBuildingID d));
     ("deliveryBuildingSnapshot", default JNull (d_DeliveryBuildingSnapshot d));
     ("deliveryDetail", JStr (d_DeliveryDetail d)); ("items", default JNull (d_Items d));
     ("notes", JStr (d_Notes d))]
    ++ enc_str_omit "contactName" (d_ContactName d)
    ++ enc_str_omit "contactMobile" (d_ContactMobile d)
    ++ [("reward", JInt (d_Reward d)); ("acceptanceDeadline", JStr deadline)]))).

Definition dec_details (v : json) : option Details :=
  obind (members v) (λ ms,
  obind (dec_field dec_string "supplierId" ms "") (λ sid,
  obind (dec_field dec_string "supplierVersionId" ms "") (λ svid,
  obind (dec_field dec_string "deliveryBuildingId" ms "") (λ bid,
  obind (dec_field dec_raw "deliveryBuildingSnapshot" ms None) (λ snap,
  obind (dec_field dec_string "deliveryDetail" ms "") (λ det,
  obind (dec_field dec_raw "items" ms None) (λ items,
  obind (dec_field dec_string "notes" ms "") (λ notes,
  obind (dec_field dec_string "contactName" ms "") (λ cn,
  obind (dec_field dec_string "contactMobile" ms "") (λ cm,
  obind (dec_field dec_int64 "reward" ms 0) (λ rw,
  obind (dec_field dec_time "acceptanceDeadline" ms zero_time) (λ dl,
    Some (mkDetails sid svid bid snap det items notes cn cm rw dl))))))))))))).

(** A [RawMessage] that is nil comes back as [null]. *)
Definition normal_raw (r : option json) : option json := Some (default JNull r).

Definition normal_details (d : Details) : Details :=
  mkDetails (d_SupplierID d) (d_SupplierVersionID d) (d_DeliveryBuildingID d)
    (normal_raw (d_DeliveryBuildingSnapshot d)) (d_DeliveryDetail d) (normal_raw (d_Items d))
    (d_Notes d) (d_ContactName d) (d_ContactMobile d) (d_Reward d) (d_AcceptanceDeadline d).

Lemma dec_enc_details d v :
  in_int64 (d_Reward d) → enc_details d = Some v → dec_details v = Some (normal_details d).
Proof.
  intros Hr. unfold enc_details. destruct (format_rfc3339 _) as [s|] eqn:Hf; [|done].
  intros [= <-]. unfold dec_details. cbn [members obind app].
  autorewrite with json. cbn [obind]. rewrite (dec_field_time _ _ _ _ _ Hf). done.
Qed.

(** ** Outbox payloads *)

Definition enc_command (c : CreditCommand) : json :=
  JObj ([("errandId", JStr (cc_ErrandID c)); ("errandVersion", JInt (cc_ErrandVersion c));
         ("requesterId", JStr (cc_RequesterID c))]
        ++ enc_str_omit "courierId" (cc_CourierID c) ++ enc_int_omit "amount" (cc_Amount c)
        ++ enc_int_omit "newAmount" (cc_NewAmount c) ++ enc_int_omit "seq" (cc_Seq c)).

(** A pointer tagged [omitempty]. *)
Definition enc_details_omit (name : string) (d : option Details) : option (list (string * json)) :=
  match d with
  | None => Some []
  | Some d => obind (enc_details d) (λ v, Some [(name, v)])
  end.

Definition enc_event (d : EventData) : option json :=
  obind (format_rfc3339 (ed_At d)) (λ at_,
  obind (enc_details_omit "pendingEdit" (ed_PendingEdit d)) (λ pending,
  Some (JObj (
    [("errandId", JStr (ed_ErrandID d)); ("errandVersion", JInt (ed_ErrandVersion d));
     ("event", JStr (Event_string (ed_Event d)))]
    ++ enc_str_omit "from" (Status_string (ed_From d))
    ++ [("to", JStr (Status_string (ed_To d))); ("actorType", JStr (ActorType_string (ed_ActorType d)))]
    ++ enc_str_omit "actorId" (ed_ActorID d) ++ enc_str_omit "reason" (ed_Reason d)
    ++ enc_str_omit "reviewReason" (ReviewReason_string (ed_ReviewReason d))
    ++ [("requesterId", JStr (ed_RequesterID d))] ++ enc_str_omit "courierId" (ed_CourierID d)
    ++ [("reward", JInt (ed_Reward d)); ("at", JStr at_)] ++ pending
    ++ (if ed_EditDropped d then [("editDropped", JBool true)] else []))))).

(** [json.Marshal(row.Payload)] *)
Definition enc_payload (p : Payload) : option json :=
  match p with
  | PCommand c => Some (enc_command c)
  | PEvent d => enc_event d
  end.

(** ** ports.go: rejections *)

Inductive RejectedAction := RejectedAccept | RejectedCancel | RejectedPickup | RejectedOther (s : string).

Definition action_string (a : RejectedAction) : string :=
  match a with
  | RejectedAccept => "accept" | RejectedCancel => "cancel" | RejectedPickup => "pickup"
  | RejectedOther s => s
  end.

Definition action_valid (a : RejectedAction) : bool :=
  existsb (λ known, bool_decide (action_string a = known)) ["accept"; "cancel"; "pickup"].

(** [a.EventName().Kind()] *)
Definition rejection_kind (a : RejectedAction) : string :=
  "event." +:+ "errand." +:+ action_string a +:+ "_rejected".

Definition RejectionKey (errandID : string) (action : RejectedAction) (requestID : string) : string :=
  errandID +:+ ":" +:+ action_string action +:+ "-rejected:" +:+ requestID.

Record Rejection := mkRejection {
  rj_ErrandID : string; rj_Action : RejectedAction; rj_Actor : Actor; rj_Code : Code;
  rj_RequestID : string; rj_At : Z }.

Definition Code_string (c : Code) : string :=
  match c with
  | InvalidArgument => "INVALID_ARGUMENT" | Unauthenticated => "UNAUTHENTICATED"
  | Forbidden => "FORBIDDEN" | ValidationFailed => "VALIDATION_FAILED"
  | ErrandNotFound => "ERRAND_NOT_FOUND" | FenceNotFound => "FENCE_NOT_FOUND"
  | OutboxRowNotFound => "OUTBOX_ROW_NOT_FOUND" | ErrandChanged => "ERRAND_CHANGED"
  | ErrandUnavailable => "ERRAND_UNAVAILABLE" | InvalidTransition => "INVALID_TRANSITION"
  | NotEligible => "NOT_ELIGIBLE" | CourierRestricted => "COURIER_RESTRICTED"
  | InsufficientCredits => "INSUFFICIENT_CREDITS" | EditPending => "EDIT_PENDING"
  | SupplierUnavailable => "SUPPLIER_UNAVAILABLE"
  | SupplierDeletionInProgress => "SUPPLIER_DELETION_IN_PROGRESS"
  | DependencyUnavailable => "DEPENDENCY_UNAVAILABLE" | Internal => "INTERNAL"
  end.

(** [RejectionData], for an errand at [version] and [status]. *)
Definition enc_rejection (r : Rejection) (version : Z) (status : Status) : option json :=
  obind (format_rfc3339 (rj_At r)) (λ at_,
  Some (JObj [("errandId", JStr (rj_ErrandID r)); ("errandVersion", JInt version);
              ("status", JStr (Status_string status)); ("action", JStr (action_string (rj_Action r)));
              ("code", JStr (Code_string (rj_Code r)));
              ("actorType", JStr (ActorType_string (a_Type (rj_Actor r))));
              ("actorId", JStr (a_ID (rj_Actor r))); ("at", JStr at_)])).
