(* ===== verification/ErrandInv.v ===== *)
(** * order-service: the errand invariant

    [Next] inverted into the rule it applied, the invariant of an errand along
    a run of transitions, and the outbox rows a run emits: their tags
    (operation and version), idempotency keys, sequence numbers and credit
    commands. *)

From S2P Require Import Prelude GoText Json GoTime Errand ErrandState.

(** ** Inverting [Next] *)

Lemma RulesFor_spec from ev r :
  r ∈ RulesFor from ev → r ∈ transitionTable ∧ r_From r = from ∧ r_Event r = ev.
Proof.
  unfold RulesFor. rewrite list_elem_of_In, filter_In. intros [Hin Hb]. bool_props.
  by rewrite list_elem_of_In.
Qed.

(** Alternatives for one status and event are for the same actor. *)
Definition same_actor_table : bool :=
  forallb (λ r, forallb (λ r', negb (bool_decide (r_From r = r_From r') && bool_decide (r_Event r = r_Event r'))
                              || bool_decide (r_Actor r = r_Actor r')) transitionTable) transitionTable.

Lemma same_actor r r' :
  r ∈ transitionTable → r' ∈ transitionTable → r_From r = r_From r' → r_Event r = r_Event r' →
  r_Actor r = r_Actor r'.
Proof.
  rewrite !list_elem_of_In. intros Hr Hr' Hf He.
  assert (same_actor_table = true) as Ht by (vm_compute; reflexivity).
  unfold same_actor_table in Ht. rewrite forallb_forall in Ht. specialize (Ht r Hr).
  rewrite forallb_forall in Ht. specialize (Ht r' Hr'). simpl in Ht.
  rewrite Hf, He, !bool_decide_true in Ht by done. simpl in Ht. by bool_props.
Qed.

Lemma first_failing_None gs e now :
  first_failing gs e now = None → ∀ g, g ∈ gs → guardHolds g e now = true.
Proof.
  induction gs as [|g0 gs IH]; simpl; [intros _ g; by rewrite elem_of_nil|].
  destruct (guardHolds g0 e now) eqn:Hg; simpl; [|done]. intros Hn g [->|Hin]%elem_of_cons; auto.
Qed.

Lemma choose_Ok failed cands e now r :
  choose failed cands e now = Ok r →
  r ∈ cands ∧ ∀ g, g ∈ r_Guards r → guardHolds g e now = true.
Proof.
  revert failed. induction cands as [|r0 cands IH]; intros failed; simpl.
  - by case_bool_decide.
  - destruct (first_failing _ _ _) as [g|] eqn:Hf.
    + intros [Hin Hg]%IH. split; [by right|done].
    + intros [= <-]. split; [by left|]. by apply first_failing_None.
Qed.

(** The pending edit is dropped when the errand leaves OPEN. *)
Definition drop_edit (e : Errand) (t : Transition) : Transition :=
  match e_PendingEdit e with
  | Some _ => if bool_decide (t_To t = StatusOpen) then t else with_changes (set_pending setNull) t
  | None => t
  end.

(** What [Next] decided. *)
Record decided (e : Errand) (ev : Event) (actor : Actor) (input : EventInput) (now : Z)
    (rule : Rule) (t : Transition) : Prop := {
  de_table : rule ∈ transitionTable;
  de_from : r_From rule = e_Status e;
  de_event : r_Event rule = ev;
  de_actor : checkActor (r_Actor rule) e actor input = Ok tt;
  de_guards g : g ∈ r_Guards rule → guardHolds g e now = true;
  de_reason : r_NeedsReason rule = true → isBlank (i_Reason input) = false;
  de_apply : ∃ t0, applyEvent (base_transition rule e ev actor input now) e input now = Ok t0 ∧
    t = with_outbox (outboxRows rule e (drop_edit e t0) input) (drop_edit e t0);
}.

Lemma Next_inv e ev actor input now t :
  Next e ev actor input now = Ok t → ∃ rule, decided e ev actor input now rule t.
Proof.
  unfold Next. destruct (_ && _); [done|]. destruct (Terminal _); [done|].
  destruct (RulesFor (e_Status e) ev) as [|r0 rs] eqn:Hrules; [by destruct (movedPast _ _)|].
  destruct (checkActor _ _ _ _) as [[]|] eqn:Hactor; [|done].
  destruct (chooseRule _ _ _) as [rule|] eqn:Hrule; [|done].
  destruct (r_NeedsReason rule && _) eqn:Hreason; [done|].
  destruct (applyEvent _ _ _ _) as [t0|] eqn:Happ; [|done]. intros [= <-].
  apply choose_Ok in Hrule as [Hin Hg]. rewrite <- Hrules in Hin.
  apply RulesFor_spec in Hin as (Htab & Hfrom & Hev).
  assert (r0 ∈ RulesFor (e_Status e) ev) as (Htab0 & Hfrom0 & Hev0)%RulesFor_spec
    by (rewrite Hrules; left).
  exists rule. split; try done.
  - by rewrite (same_actor rule r0) by congruence.
  - intros Hn. rewrite Hn in Hreason. simpl in Hreason. done.
  - exists t0. split; [done|]. unfold drop_edit. by destruct (e_PendingEdit e); [case_bool_decide|].
Qed.

(** Case analysis on the rule: one goal per row of the table. *)
Ltac each_rule H :=
  unfold transitionTable in H;
  repeat (apply elem_of_cons in H as [H|H]; [match type of H with ?r = _ => subst r end|]);
  [..|by apply elem_of_nil in H].

(** ** The invariant *)

(** The states in which an errand has a courier. *)
Definition has_courier (s : Status) : bool :=
  match s with
  | StatusAssigned | StatusPickedUp | StatusDelivered | StatusReviewRequired | StatusCompleted
  | StatusRefunded => true
  | _ => false
  end.

(** The states before a delivery, and before a review. *)
Definition before_delivery (s : Status) : bool :=
  match s with
  | StatusNone | StatusPendingReservation | StatusOpen | StatusAssigned | StatusPickedUp => true
  | _ => false
  end.
Definition before_review (s : Status) : bool :=
  before_delivery s || bool_decide (s = StatusDelivered).

(** What [validateDetails] establishes once and for all. *)
Definition details_ok (d : Details) : Prop :=
  0 < d_Reward d ∧ (∃ x l, d_Items d = Some (JArr (x :: l))) ∧
  isBlank (d_ContactName d) = false ∧ isBlank (d_ContactMobile d) = false.

Record errand_ok (e : Errand) : Prop := {
  eo_status : e_Status e = StatusNone ∨ Valid (e_Status e) = true;
  eo_version : if bool_decide (e_Status e = StatusNone) then e_Version e = 0
    else if bool_decide (e_Status e = StatusPendingReservation) then e_Version e = 1
    else 2 ≤ e_Version e;
  eo_courier : if has_courier (e_Status e)
    then e_CourierID e ≠ "" ∧ e_CourierID e ≠ e_RequesterID e ∧
         is_Some (e_PickupDeadline e) ∧ is_Some (e_DeliveryDeadline e)
    else e_CourierID e = "" ∧ e_PickupDeadline e = None ∧ e_DeliveryDeadline e = None;
  eo_delivered : if before_delivery (e_Status e)
    then e_DeliveredAt e = None ∧ e_VerificationDeadline e = None
    else e_Status e = StatusDelivered →
         is_Some (e_DeliveredAt e) ∧ is_Some (e_VerificationDeadline e);
  eo_review : if before_review (e_Status e) then e_ReviewReason e = ReviewNone
    else e_Status e = StatusReviewRequired → e_ReviewReason e ≠ ReviewNone;
  eo_details : e_Status e ≠ StatusNone → details_ok (e_Details e);
  eo_pending p : e_PendingEdit e = Some p →
    e_Status e = StatusOpen ∧ pe_Key p = IdempotencyKey (e_ID e) "adjust" (e_Version e) ∧
    details_ok (pe_Details p) ∧ d_Reward (pe_Details p) ≠ d_Reward (e_Details e);
}.

(** An errand as [Submit] receives it. *)
Definition fresh (e : Errand) : Prop :=
  e_Status e = StatusNone ∧ e_Version e = 0 ∧ e_CourierID e = "" ∧ e_PickupDeadline e = None ∧
  e_DeliveryDeadline e = None ∧ e_DeliveredAt e = None ∧ e_VerificationDeadline e = None ∧
  e_ReviewReason e = ReviewNone ∧ e_PendingEdit e = None.

Lemma fresh_ok e : fresh e → errand_ok e.
Proof.
  intros (Hs & Hv & Hc & Hp & Hd & Hda & Hvd & Hr & Hpe).
  split; rewrite ?Hs, ?Hpe; simpl; auto; done.
Qed.

Lemma eo_placed e : errand_ok e → if bool_decide (e_Status e = StatusNone) then e_Version e = 0 else 1 ≤ e_Version e.
Proof. intros Hok. pose proof (eo_version _ Hok). repeat case_bool_decide; lia. Qed.

(** An errand waits for its reservation only in its first version. *)
Lemma eo_reserving e : errand_ok e → e_Status e ≠ StatusNone →
  e_Status e = StatusPendingReservation ↔ e_Version e = 1.
Proof. intros Hok Hs. pose proof (eo_version _ Hok). repeat case_bool_decide; (split; [done || lia|try done; lia]). Qed.

Lemma eo_reward e : errand_ok e → e_Status e ≠ StatusNone → 0 < d_Reward (e_Details e).
Proof. intros Hok Hs. apply (eo_details _ Hok Hs). Qed.

Lemma contact_field_nil name s max : contact_field name s max = [] → isBlank s = false.
Proof. unfold contact_field, contactProblem. by destruct (isBlank s). Qed.

Lemma validateDetails_Ok d now b : validateDetails d now b = Ok tt → details_ok d.
Proof.
  unfold validateDetails, validationError. match goal with |- context [match ?l with [] => _ | _ => _ end] =>
    destruct l as [|f fs] eqn:Hfields; [intros _|done] end.
  apply app_nil in Hfields as [Hr [Hi [Hn [Hm _]%app_nil]%app_nil]%app_nil].
  split_and!; eauto using contact_field_nil.
  - destruct (Z.leb_spec (d_Reward d) 0); [done|lia].
  - unfold items_count in Hi. destruct (d_Items d) as [[]|]; try done. destruct l; [done|eauto].
Qed.

Lemma checkActor_courier e actor input :
  checkActor RelEligibleCourier e actor input = Ok tt →
  a_Type actor = ActorCourier ∧ a_ID actor ≠ "" ∧ a_ID actor ≠ e_RequesterID e ∧
  i_PreviouslyWithdrew input = false ∧ i_Restricted input = false.
Proof.
  unfold checkActor, newError. intros H. repeat case_match; try done. bool_props. done.
Qed.

Lemma ApplyTo_outbox rows t e : ApplyTo (with_outbox rows t) e = ApplyTo t e.
Proof. done. Qed.

(** Every transition keeps the invariant. *)
Lemma Next_errand_ok e ev actor input now t :
  errand_ok e → Next e ev actor input now = Ok t → errand_ok (ApplyTo t e).
Proof.
  intros [Hs Hv Hc Hd Hr Hw Hp] (rule & [Hin Hf <- Ha _ _ (t0 & Happ & ->)])%Next_inv.
  assert (r_Actor rule = RelEligibleCourier → a_ID actor ≠ "" ∧ a_ID actor ≠ e_RequesterID e) as Hcour.
  { intros Hrel. rewrite Hrel in Ha. by apply checkActor_courier in Ha as (_ & ? & ? & _). }
  clear Ha. rewrite ApplyTo_outbox. unfold base_transition in Happ.
  destruct e as [id st ver req cour det pd dd da vd rr ck pe ca ua]. simpl in *.
  each_rule Hin; simpl in *; subst st; cbn in Happ; unfold newError in Happ;
    break_in Happ; simplify_eq; simpl in *;
    try match goal with H : validateDetails _ _ _ = Ok ?u |- _ =>
      destruct u; apply validateDetails_Ok in H end;
    try (destruct pe as [p|]); try (destruct (Hp _ eq_refl) as (? & ? & ? & ?); try done);
    unfold drop_edit; simpl; bool_props; split; simpl; try done; intros; simplify_eq;
    unfold applyTo, applyValue in *; simpl in *; simplify_eq/=;
    destruct_and?; split_and?; eauto; try lia; by apply Hcour.
Qed.

(** ** Runs of one errand *)

(** The transitions [ts] took the new errand [e0] to [e]; each was decided by
    [Next] on the errand as the one before left it. *)
Inductive erun (e0 : Errand) : list Transition → Errand → Prop :=
| erun_start : fresh e0 → erun e0 [] e0
| erun_next ts e ev actor input now t : erun e0 ts e → Next e ev actor input now = Ok t →
    erun e0 (ts ++ [t]) (ApplyTo t e).

Lemma erun_ok e0 ts e : erun e0 ts e → errand_ok e.
Proof. induction 1; [by apply fresh_ok|by eapply Next_errand_ok]. Qed.

Lemma erun_id e0 ts e : erun e0 ts e → e_ID e = e_ID e0 ∧ e_RequesterID e = e_RequesterID e0.
Proof. induction 1 as [|ts e ev actor input now t _ IH _]; [done|]. by destruct IH. Qed.

(** ** Tags: the operation and version an idempotency key is made of *)

Definition tag : Type := string * Z.
Definition key_of_tag (id : string) (g : tag) : string := IdempotencyKey id g.1 g.2.

Definition tags (r : Rule) (before : Errand) (t : Transition) (input : EventInput) : list tag :=
  (match r_Credit r with
   | CreditNone => []
   | CreditReserve => [("reserve", 0)]
   | CreditRelease => [("release", 0)]
   | CreditTransfer => [("transfer", 0)]
   end)
  ++ (match editRequested t with Some _ => [("adjust", t_ExpectedVersion t)] | None => [] end)
  ++ (if revertsAdjust before t input then [("adjust-revert", t_NewVersion t)] else [])
  ++ ((λ n, (operation n, t_NewVersion t)) <$>
      match editRequested t with Some _ => [ErrandEditRequested] | None => r_Emits r end).

Lemma event_tags before after t (names : list EventName) :
  o_IdempotencyKey <$> (event_row before after t <$> names)
  = key_of_tag (e_ID before) <$> ((λ n, (operation n, t_NewVersion t)) <$> names).
Proof. by rewrite <- !list_fmap_compose. Qed.

Lemma outboxRows_tags r before t input :
  o_IdempotencyKey <$> outboxRows r before t input = key_of_tag (e_ID before) <$> tags r before t input.
Proof.
  unfold outboxRows, credit_rows, tags. rewrite !fmap_app, event_tags, <- !app_assoc.
  by destruct (r_Credit r), (editRequested t), (revertsAdjust before t input).
Qed.

(** ** Keys are injective in the tag *)

Lemma IdempotencyKey_inj id op v op' v' :
  has_colon op = false → has_colon op' = false → 0 ≤ v → 0 ≤ v' →
  IdempotencyKey id op v = IdempotencyKey id op' v' → op = op' ∧ v = v'.
Proof.
  intros Ho Ho' Hv Hv'. unfold IdempotencyKey.
  destruct (Z.ltb_spec 0 v), (Z.ltb_spec 0 v'); rewrite ?sapp_assoc; intros Heq;
    apply sapp_inv_head, (sapp_inv_head ":") in Heq.
  - apply split_colon in Heq as [-> Heq]; [|done|done]. by apply itoa_inj in Heq.
  - symmetry in Heq. by apply no_split in Heq.
  - by apply no_split in Heq.
  - split; [done|lia].
Qed.

(** ** Versions *)

(** The parts of a transition the event does not decide. *)
Lemma applyEvent_frame rule e ev actor input now t :
  applyEvent (base_transition rule e ev actor input now) e input now = Ok t →
  t_ErrandID t = e_ID e ∧ t_From t = e_Status e ∧ t_To t = r_To rule ∧ t_Event t = ev ∧
  t_Actor t = actor ∧ t_At t = now ∧
  t_ExpectedPendingEditKey t = match e_PendingEdit e with Some p => pe_Key p | None => "" end.
Proof.
  unfold applyEvent, newError. intros H.
  destruct ev; simpl in H; break_in H; simplify_eq; simpl;
    try match goal with E : e_PendingEdit e = _ |- _ => rewrite E end; done.
Qed.

Lemma drop_edit_frame e t :
  t_ErrandID (drop_edit e t) = t_ErrandID t ∧ t_From (drop_edit e t) = t_From t ∧
  t_To (drop_edit e t) = t_To t ∧ t_Event (drop_edit e t) = t_Event t ∧
  t_Actor (drop_edit e t) = t_Actor t ∧ t_At (drop_edit e t) = t_At t ∧
  t_ExpectedPendingEditKey (drop_edit e t) = t_ExpectedPendingEditKey t ∧
  t_ExpectedVersion (drop_edit e t) = t_ExpectedVersion t ∧
  t_NewVersion (drop_edit e t) = t_NewVersion t.
Proof. unfold drop_edit. destruct (e_PendingEdit e); [case_bool_decide|]; done. Qed.

(** A transition moves the version up by one, except for a reward-edit request,
    which keeps it and leaves a pending edit where there was none. *)
Lemma Next_version e ev actor input now t :
  errand_ok e → Next e ev actor input now = Ok t →
  t_ExpectedVersion t = e_Version e ∧
  (t_NewVersion t = e_Version e + 1 ∨
   (ev = EventEdit ∧ t_NewVersion t = e_Version e ∧ e_PendingEdit e = None ∧
    is_Some (e_PendingEdit (ApplyTo t e)))).
Proof.
  intros Hok (rule & [Hin Hf <- _ _ _ (t0 & Happ & ->)])%Next_inv.
  destruct (drop_edit_frame e t0) as (_ & _ & _ & _ & _ & _ & _ & He & Hn).
  rewrite ApplyTo_outbox. cbn [t_ExpectedVersion t_NewVersion with_outbox].
  rewrite He, Hn. clear He Hn. unfold applyEvent, newError in Happ.
  pose proof (eo_placed _ Hok) as Hv. rewrite <- Hf in Hv.
  each_rule Hin; simpl in *; break_in Happ; simplify_eq/=; auto.
  - bool_props. auto with lia.
  - unfold drop_edit. rewrite E. simpl. split; [done|]. right. eauto.
Qed.

Lemma Next_from e ev actor input now t :
  Next e ev actor input now = Ok t →
  t_From t = e_Status e ∧ t_ErrandID t = e_ID e ∧ Terminal (e_Status e) = false ∧
  t_To t ≠ StatusNone ∧ ∃ r, r ∈ transitionTable ∧ r_From r = e_Status e ∧ r_Event r = ev ∧ r_To r = t_To t.
Proof.
  intros (rule & [Hin Hf Hev _ _ _ (t0 & Happ & ->)])%Next_inv.
  destruct (drop_edit_frame e t0) as (Hi & Hfr & Ht & _).
  apply applyEvent_frame in Happ as (Hi0 & Hf0 & Ht0 & _). simpl.
  rewrite Hi, Hfr, Ht, Hi0, Hf0, Ht0. split_and!; [done|done|..|by eauto].
  - rewrite <- Hf. by each_rule Hin.
  - by each_rule Hin.
Qed.

(** ** The invariant of the emitted tags *)

Inductive TagClass := ClReserve | ClSettle | ClEdit | ClEvent.

Definition tag_class (op : string) : TagClass :=
  if bool_decide (op = "reserve") then ClReserve
  else if bool_decide (op = "release") || bool_decide (op = "transfer") then ClSettle
  else if bool_decide (op = "adjust") || bool_decide (op = "edit_requested") then ClEdit
  else ClEvent.

(** The operations a transition can emit. *)
Definition known_ops : list string :=
  ["reserve"; "release"; "transfer"; "adjust"; "adjust-revert"] ++
  (operation <$> [ErrandPlaced; ErrandOpened; ErrandRejected; ErrandEdited; ErrandEditRequested;
                  ErrandEditRejected; ErrandAccepted; ErrandCancelled; ErrandWithdrawn; ErrandExpired;
                  ErrandPickedUp; ErrandDelivered; ErrandReviewRequired; ErrandCompleted; ErrandRefunded]).
Definition known_op (op : string) : bool := existsb (λ op', bool_decide (op = op')) known_ops.

Lemma known_op_no_colon op : known_op op = true → has_colon op = false.
Proof.
  unfold known_op. intros (op' & Hin & Heq)%existsb_exists. bool_props. subst op'.
  assert (forallb (λ op, negb (has_colon op)) known_ops = true) as Hall by (vm_compute; reflexivity).
  rewrite forallb_forall in Hall. specialize (Hall _ Hin). by bool_props.
Qed.

(** What an emitted tag says about the errand now. *)
Definition tag_ok (e : Errand) (g : tag) : Prop :=
  known_op g.1 = true ∧
  match tag_class g.1 with
  | ClReserve => g.2 = 0 ∧ e_Status e ≠ StatusNone
  | ClSettle => g.2 = 0 ∧ Terminal (e_Status e) = true
  | ClEdit => 1 ≤ g.2 ∧ (g.2 < e_Version e ∨ (g.2 = e_Version e ∧ is_Some (e_PendingEdit e)))
  | ClEvent => 1 ≤ g.2 ≤ e_Version e
  end.

Lemma tag_ok_next e ev actor input now t g :
  errand_ok e → Next e ev actor input now = Ok t → tag_ok e g → tag_ok (ApplyTo t e) g.
Proof.
  intros Hok Hnext [Hc Hg]. destruct (Next_version _ _ _ _ _ _ Hok Hnext) as (_ & Hv).
  destruct (Next_from _ _ _ _ _ _ Hnext) as (_ & _ & Hnt & Hto & _).
  assert (e_Version (ApplyTo t e) = t_NewVersion t) as Hver by done.
  split; [done|]. destruct (tag_class g.1); rewrite ?Hver.
  - by destruct Hg.
  - destruct Hg. congruence.
  - destruct Hg as [? [?|[? [p Hp]]]]; (split; [done|]); destruct Hv as [?|(_ & ? & Hn & ?)].
    + left. lia.
    + left. lia.
    + left. lia.
    + congruence.
  - destruct Hv as [?|(_ & ? & _)]; lia.
Qed.

(** Evaluate the class of a literal operation. *)
Ltac eval_tags :=
  repeat match goal with
  | |- context [tag_class ?x] => let c := eval vm_compute in (tag_class x) in change (tag_class x) with c
  | |- context [known_op ?x] => let c := eval vm_compute in (known_op x) in change (known_op x) with c
  end.

Ltac solve_nodup :=
  repeat (apply NoDup_cons; split; [rewrite ?elem_of_cons, ?elem_of_nil; intros ?; destruct_or?; simplify_eq|]);
  apply NoDup_nil_2.

(** What one transition emits is new and true of the errand after it. *)
Lemma Next_tags e ev actor input now t :
  errand_ok e → Next e ev actor input now = Ok t →
  ∃ gs, (o_IdempotencyKey <$> t_Outbox t) = key_of_tag (e_ID e) <$> gs ∧ NoDup gs ∧
    (∀ g, g ∈ gs → tag_ok (ApplyTo t e) g ∧ ¬ tag_ok e g ∧ 0 ≤ g.2).
Proof.
  intros Hok Hnext. pose proof (Next_version _ _ _ _ _ _ Hok Hnext) as [Hex Hv].
  apply Next_inv in Hnext as (rule & [Hin Hf <- _ _ _ (t0 & Happ & ->)]).
  exists (tags rule e (drop_edit e t0) input). rewrite ApplyTo_outbox in *.
  split; [apply outboxRows_tags|].
  pose proof (eo_placed _ Hok) as Hver. rewrite <- Hf in Hver.
  destruct e as [id st ver req cour det pd dd da vd rr ck pe ca ua].
  pose proof (eo_pending _ Hok) as Hp. clear Hok Hex. unfold tags, applyEvent, newError in *.
  each_rule Hin; simpl in *; subst st; break_in Happ; simplify_eq/=;
    try (destruct pe as [p|]); try (destruct (Hp _ eq_refl) as (? & ? & ? & ?); try done);
    unfold drop_edit, editRequested, revertsAdjust in *; simpl in *;
    try (destruct (i_EditTimedOut input)); try done; simplify_eq/=.
  all: (split; [solve_nodup|]).
  all: intros g Hg; rewrite ?elem_of_cons, elem_of_nil in Hg; destruct_or? Hg; subst; try done.
  all: unfold tag_ok; cbn -[tag_class known_op]; eval_tags; cbn.
  all: split_and?; try done; try lia.
  all: try (intros (_ & ? & ?); simpl in *; try done; lia).
  all: first [right; split; [done|by eexists] | intros (_ & _ & [?|[_ [? ?]]]); [lia|done]].
Qed.

(** ** Runs *)

Definition run_rows (ts : list Transition) : list OutboxRow := ts ≫= t_Outbox.

Lemma run_rows_app ts t : run_rows (ts ++ [t]) = run_rows ts ++ t_Outbox t.
Proof. unfold run_rows. rewrite bind_app. simpl. by rewrite app_nil_r. Qed.

Lemma erun_tags e0 ts e :
  erun e0 ts e →
  ∃ gs, (o_IdempotencyKey <$> run_rows ts) = key_of_tag (e_ID e0) <$> gs ∧ NoDup gs ∧
    ∀ g, g ∈ gs → tag_ok e g ∧ 0 ≤ g.2.
Proof.
  induction 1 as [|ts e ev actor input now t Hrun IH Hnext].
  { exists []. split_and!; [done|apply NoDup_nil_2|]. intros g. by rewrite elem_of_nil. }
  destruct IH as (gs & Hgs & Hnd & Hok). pose proof (erun_ok _ _ _ Hrun) as He.
  destruct (Next_tags _ _ _ _ _ _ He Hnext) as (gs' & Hgs' & Hnd' & Hok').
  exists (gs ++ gs'). rewrite run_rows_app, !fmap_app, Hgs, Hgs'.
  rewrite (proj1 (erun_id _ _ _ Hrun)). split_and!; [done| |].
  - apply NoDup_app. split_and!; [done| |done]. intros g Hg Hg'.
    destruct (Hok g Hg) as [Ht _]. by destruct (Hok' g Hg') as (_ & ? & _).
  - intros g [Hg|Hg]%elem_of_app.
    + destruct (Hok g Hg). split; [by eapply tag_ok_next|done].
    + by destruct (Hok' g Hg) as (? & _ & ?).
Qed.

Lemma erun_keys_NoDup e0 ts e : erun e0 ts e → NoDup (o_IdempotencyKey <$> run_rows ts).
Proof.
  intros Hrun. destruct (erun_tags _ _ _ Hrun) as (gs & -> & Hnd & Hok).
  apply NoDup_fmap_2_strong; [|done]. intros [op v] [op' v'] Hg Hg' Heq.
  destruct (Hok _ Hg) as [[Hc _] Hv], (Hok _ Hg') as [[Hc' _] Hv']. simpl in *.
  apply known_op_no_colon in Hc, Hc'.
  destruct (IdempotencyKey_inj _ _ _ _ _ Hc Hc' Hv Hv' Heq) as [-> ->]. done.
Qed.

(** ** Credit commands *)

(** The credit commands among outbox rows, with their kinds. *)
Definition commands (rows : list OutboxRow) : list (string * CreditCommand) :=
  omap (λ r, match o_Payload r with PCommand c => Some (o_Kind r, c) | PEvent _ => None end) rows.

Lemma commands_app l l' : commands (l ++ l') = commands l ++ commands l'.
Proof. apply omap_app. Qed.

Definition command (e' : Errand) (courier : string) (amount newAmount seq : Z) : CreditCommand :=
  mkCreditCommand (e_ID e') (e_Version e') (e_RequesterID e') courier amount newAmount seq.

(** What a transition from [e] to [e'] asks of credit-service. *)
Inductive sent (e e' : Errand) : list (string * CreditCommand) → Prop :=
| sent_none : e_Status e ≠ StatusNone →
    Terminal (e_Status e') = false ∨ e_Status e' = StatusRejected →
    (e_PendingEdit e = None → e_PendingEdit e' = None) → sent e e' []
| sent_reserve : e_Status e = StatusNone → Terminal (e_Status e') = false →
    e_PendingEdit e' = None →
    sent e e' [(KindCreditReserve, command e' "" (d_Reward (e_Details e')) 0 0)]
| sent_release : e_Status e ≠ StatusNone → Terminal (e_Status e') = true →
    e_Status e' ≠ StatusCompleted → sent e e' [(KindCreditRelease, command e' "" 0 0 0)]
| sent_transfer : e_Status e ≠ StatusNone → e_Status e' = StatusCompleted →
    sent e e' [(KindCreditTransfer, command e' (e_CourierID e') (d_Reward (e_Details e')) 0 0)]
| sent_adjust p : e_Status e = StatusOpen → e_Status e' = StatusOpen →
    e_PendingEdit e = None → e_PendingEdit e' = Some p → e_Version e' = e_Version e →
    sent e e' [(KindCreditAdjust, command e' "" 0 (d_Reward (pe_Details p)) (2 * e_Version e'))]
| sent_revert p : e_Status e = StatusOpen → Terminal (e_Status e') = false →
    e_PendingEdit e = Some p → e_PendingEdit e' = None → e_Version e' = e_Version e + 1 →
    e_Details e' = e_Details e →
    sent e e' [(KindCreditAdjust, command e' "" 0 (d_Reward (e_Details e')) (2 * e_Version e' - 1))].

Lemma commands_events before after t (names : list EventName) :
  commands (event_row before after t <$> names) = [].
Proof. induction names as [|n names IH]; [done|]. exact IH. Qed.

Lemma Next_sent e ev actor input now t :
  errand_ok e → Next e ev actor input now = Ok t → sent e (ApplyTo t e) (commands (t_Outbox t)).
Proof.
  intros Hok (rule & [Hin Hf <- _ _ _ (t0 & Happ & ->)])%Next_inv.
  rewrite ApplyTo_outbox. cbn [t_Outbox with_outbox]. unfold outboxRows.
  rewrite commands_app, commands_events, app_nil_r.
  destruct e as [id st ver req cour det pd dd da vd rr ck pe ca ua].
  pose proof (eo_pending _ Hok) as Hp. clear Hok. unfold credit_rows, applyEvent, newError in *.
  each_rule Hin; simpl in *; subst st; break_in Happ; simplify_eq/=;
    try (destruct pe as [p|]); try (destruct (Hp _ eq_refl) as (? & ? & ? & ?); try done);
    unfold drop_edit, editRequested, revertsAdjust in *; simpl in *;
    try (destruct (i_EditTimedOut input)); try done; simplify_eq/=.
  all: first
    [ solve [apply sent_none; [done|first [by left|by right]|done]] | by apply sent_reserve
    | by apply sent_release | by apply sent_transfer | by eapply sent_revert
    | match goal with |- context [setTo ?p] => by refine (sent_adjust _ _ p _ _ _ _ _) end ].
Qed.

(** ** The commands of a run *)

(** The settlement an errand in its present status has asked for. *)
Definition settled_as (e : Errand) (cs : list (string * CreditCommand)) : Prop :=
  match e_Status e with
  | StatusCompleted =>
      cs = [(KindCreditTransfer, command e (e_CourierID e) (d_Reward (e_Details e)) 0 0)]
  | StatusCancelled | StatusExpired | StatusRefunded => cs = [(KindCreditRelease, command e "" 0 0 0)]
  | StatusRejected => cs = [] ∨ cs = [(KindCreditRelease, command e "" 0 0 0)]
  | _ => cs = []
  end.

Lemma settled_open e cs : Terminal (e_Status e) = false → settled_as e cs ↔ cs = [].
Proof. unfold settled_as. by destruct (e_Status e). Qed.

(** The highest sequence number an adjustment of [e] can have had. *)
Definition last_seq (e : Errand) : Z :=
  2 * e_Version e - match e_PendingEdit e with Some _ => 0 | None => 1 end.

(** The commands [cs] sent so far: one reservation, then adjustments with
    increasing sequence numbers, then at most one settlement. *)
Definition sent_so_far (e : Errand) (cs : list (string * CreditCommand)) : Prop :=
  if bool_decide (e_Status e = StatusNone) then cs = [] else
  ∃ v amount adjusts settlement,
    cs = (KindCreditReserve, mkCreditCommand (e_ID e) v (e_RequesterID e) "" amount 0 0)
           :: ((λ c, (KindCreditAdjust, c)) <$> adjusts) ++ settlement ∧
    v = 1 ∧ 0 < amount ∧
    Forall (λ c, cc_ErrandID c = e_ID e ∧ cc_RequesterID c = e_RequesterID e ∧ 0 < cc_NewAmount c ∧
                 1 ≤ cc_Seq c ≤ last_seq e) adjusts ∧
    StronglySorted (λ c c', cc_Seq c < cc_Seq c') adjusts ∧
    settled_as e settlement.

Lemma StronglySorted_snoc {A} (R : A → A → Prop) l x :
  StronglySorted R l → Forall (λ y, R y x) l → StronglySorted R (l ++ [x]).
Proof.
  induction 1 as [|y l Hl IH Hy]; intros Hx; simpl; [repeat constructor|].
  inversion Hx; subst. constructor; [by apply IH|]. apply Forall_app. auto.
Qed.

Lemma last_seq_mono e ev actor input now t :
  errand_ok e → Next e ev actor input now = Ok t → last_seq e ≤ last_seq (ApplyTo t e).
Proof.
  intros Hok Hnext. destruct (Next_version _ _ _ _ _ _ Hok Hnext) as (_ & Hv).
  unfold last_seq. change (e_Version (ApplyTo t e)) with (t_NewVersion t).
  destruct Hv as [->|(_ & -> & -> & [p ->])]; [|lia].
  destruct (e_PendingEdit e), (e_PendingEdit (ApplyTo t e)); lia.
Qed.

Lemma settled_release e : Terminal (e_Status e) = true → e_Status e ≠ StatusCompleted →
  settled_as e [(KindCreditRelease, command e "" 0 0 0)].
Proof. unfold settled_as. destruct (e_Status e); auto; done. Qed.

Lemma settled_silent e : Terminal (e_Status e) = false ∨ e_Status e = StatusRejected → settled_as e [].
Proof. intros [Hn| Hr]; [by apply settled_open|]. unfold settled_as. rewrite Hr. auto. Qed.

Lemma settled_transfer e : e_Status e = StatusCompleted →
  settled_as e [(KindCreditTransfer, command e (e_CourierID e) (d_Reward (e_Details e)) 0 0)].
Proof. unfold settled_as. by intros ->. Qed.

#[local] Hint Resolve settled_release settled_silent settled_transfer : core.

Lemma sent_so_far_next e ev actor input now t cs :
  errand_ok e → Next e ev actor input now = Ok t → sent_so_far e cs →
  sent_so_far (ApplyTo t e) (cs ++ commands (t_Outbox t)).
Proof.
  intros Hok Hnext Hcs. pose proof (Next_sent _ _ _ _ _ _ Hok Hnext) as Hs.
  pose proof (last_seq_mono _ _ _ _ _ _ Hok Hnext) as Hmono.
  pose proof (Next_errand_ok _ _ _ _ _ _ Hok Hnext) as Hok'.
  destruct (Next_from _ _ _ _ _ _ Hnext) as (_ & _ & Hnt & Hto & _).
  pose proof (Next_version _ _ _ _ _ _ Hok Hnext) as [_ Hver].
  change (t_NewVersion t) with (e_Version (ApplyTo t e)) in Hver.
  change (t_To t) with (e_Status (ApplyTo t e)) in Hto.
  assert (e_ID (ApplyTo t e) = e_ID e ∧ e_RequesterID (ApplyTo t e) = e_RequesterID e) as [Hid Hrq] by done.
  set (e' := ApplyTo t e) in *. clearbody e'. unfold sent_so_far in *.
  rewrite (bool_decide_false (e_Status e' = _)) by done.
  pose proof (eo_placed _ Hok) as Hv0. pose proof (eo_reward _ Hok' Hto) as Hrw'.
  case_bool_decide as Hnone.
  - subst cs. inversion Hs as [| ? ? ? Hc | | | ? Ho |? Ho]; try done; try congruence.
    exists (e_Version e'), (d_Reward (e_Details e')), [], []. unfold command. simpl.
    split_and!; auto; [|constructor].
    destruct Hver as [?|(_ & ? & _ & [p Hp])]; [lia|congruence].
  - destruct Hcs as (v & amount & adjusts & settlement & -> & -> & Ham & Hadj & Hsort & Hset).
    rewrite settled_open in Hset by done. subst settlement. rewrite app_nil_r.
    assert (Forall (λ c, cc_ErrandID c = e_ID e' ∧ cc_RequesterID c = e_RequesterID e' ∧
              0 < cc_NewAmount c ∧ 1 ≤ cc_Seq c ≤ last_seq e') adjusts) as Hadj'.
    { eapply Forall_impl; [done|]. rewrite Hid, Hrq. intros c (? & ? & ? & ?). split_and!; auto; lia. }
    pose proof (eo_reward _ Hok Hnone) as Hrw.
    inversion Hs as [? ? ? Hc|? ? ? Hc|? ? ? Hc|? ? Hc|p Ho Ho' Hpn Hps Hvv Hc|p Ho Ht Hps Hpn Hvv Hd Hc];
      try done; rewrite <- Hid, <- Hrq.
    1-3: exists 1, amount, adjusts; eexists; split_and!; [reflexivity|..]; eauto.
    all: match type of Hc with [(_, ?c)] = _ => exists 1, amount, (adjusts ++ [c]), [] end;
      rewrite fmap_app, <- app_assoc, app_nil_r; split_and!; try done.
    + apply Forall_app. split; [done|]. constructor; [|done]. simpl. split_and!; try done; [|lia|].
      * by apply (eo_pending _ Hok' _ Hps).
      * unfold last_seq. rewrite Hps. lia.
    + apply StronglySorted_snoc; [done|]. eapply Forall_impl; [exact Hadj|]. simpl.
      intros c (_ & _ & _ & Hb). unfold last_seq in Hb. rewrite Hpn in Hb. lia.
    + by apply settled_silent; left; rewrite Ho'.
    + apply Forall_app. split; [done|]. constructor; [|done]. simpl. split_and!; try done; [lia|].
      unfold last_seq. rewrite Hpn. lia.
    + apply StronglySorted_snoc; [done|]. eapply Forall_impl; [exact Hadj|]. simpl.
      intros c (_ & _ & _ & Hb). unfold last_seq in Hb. rewrite Hps in Hb. lia.
    + apply settled_silent. by left.
Qed.

Lemma erun_sent e0 ts e : erun e0 ts e → sent_so_far e (commands (run_rows ts)).
Proof.
  induction 1 as [Hf|ts e ev actor input now t Hrun IH Hnext].
  - unfold sent_so_far. by rewrite bool_decide_true by apply Hf.
  - rewrite run_rows_app, commands_app. eapply sent_so_far_next; eauto using erun_ok.
Qed.
