(* ===== verification/ErrandProps.v ===== *)
(** * order-service: properties of the errand state machine

    The invariant of an errand, the identity and order of what a run sends,
    the two-phase reward edit, the authority behind each transition and the
    progress of an unattended errand, each with a witness. *)

From S2P Require Import Prelude GoText Json GoTime Errand ErrandState ErrandInv.

(** ** Building transitions *)

(** Once the rule is chosen, only the event's own part can fail. *)
Lemma Next_run e ev actor input now r0 rs rule :
  e_Status e = StatusNone ∨ Valid (e_Status e) = true → Terminal (e_Status e) = false →
  RulesFor (e_Status e) ev = r0 :: rs →
  checkActor (r_Actor r0) e actor input = Ok tt → chooseRule (r0 :: rs) e now = Ok rule →
  (r_NeedsReason rule = true → isBlank (i_Reason input) = false) →
  Next e ev actor input now
  = match applyEvent (base_transition rule e ev actor input now) e input now with
    | Ok t0 => Ok (with_outbox (outboxRows rule e (drop_edit e t0) input) (drop_edit e t0))
    | Err err => Err err
    end.
Proof.
  intros Hs Ht Hr Ha Hc Hn. unfold Next. rewrite Ht, Hr, Ha, Hc.
  assert (negb (bool_decide (e_Status e = StatusNone)) && negb (Valid (e_Status e)) = false) as ->.
  { destruct Hs as [->| ->]; [done|]. by rewrite andb_false_r. }
  assert (r_NeedsReason rule && isBlank (i_Reason input) = false) as ->.
  { destruct (r_NeedsReason rule); [|done]. by rewrite Hn. }
  destruct (applyEvent _ _ _ _) as [t0|]; [|done].
  unfold drop_edit. by destruct (e_PendingEdit e); [case_bool_decide|].
Qed.

Lemma Next_intro e ev actor input now r0 rs rule t0 :
  e_Status e = StatusNone ∨ Valid (e_Status e) = true → Terminal (e_Status e) = false →
  RulesFor (e_Status e) ev = r0 :: rs →
  checkActor (r_Actor r0) e actor input = Ok tt → chooseRule (r0 :: rs) e now = Ok rule →
  (r_NeedsReason rule = true → isBlank (i_Reason input) = false) →
  applyEvent (base_transition rule e ev actor input now) e input now = Ok t0 →
  Next e ev actor input now
  = Ok (with_outbox (outboxRows rule e (drop_edit e t0) input) (drop_edit e t0)).
Proof. intros. erewrite Next_run by done. by case_match; simplify_eq. Qed.

(** [Next] moves the errand to the status of the rule it chose. *)
Lemma Next_moves e ev actor input now r0 rs rule t0 to :
  e_Status e = StatusNone ∨ Valid (e_Status e) = true → Terminal (e_Status e) = false →
  RulesFor (e_Status e) ev = r0 :: rs →
  checkActor (r_Actor r0) e actor input = Ok tt → chooseRule (r0 :: rs) e now = Ok rule →
  (r_NeedsReason rule = true → isBlank (i_Reason input) = false) →
  applyEvent (base_transition rule e ev actor input now) e input now = Ok t0 → r_To rule = to →
  ∃ t, Next e ev actor input now = Ok t ∧ t_Actor t = actor ∧ t_To t = to.
Proof.
  intros Hs Ht Hr Ha Hc Hn Happ <-. eexists. split; [by eapply Next_intro|]. simpl.
  destruct (drop_edit_frame e t0) as (_ & _ & -> & _ & -> & _).
  by apply applyEvent_frame in Happ as (_ & _ & -> & _ & -> & _).
Qed.

(** Evaluate the candidate rules of a literal status and event. *)
Ltac rules_for :=
  match goal with |- RulesFor ?s ?ev = _ =>
    let v := eval vm_compute in (RulesFor s ev) in exact (eq_refl v <: RulesFor s ev = v) end.

(** ** Unattended errands *)

(** Every deadline the errand has has passed. *)
Definition overdue (e : Errand) (now : Z) : Prop :=
  d_AcceptanceDeadline (e_Details e) ≤ now ∧
  ∀ d, e_PickupDeadline e = Some d ∨ e_DeliveryDeadline e = Some d ∨
       e_VerificationDeadline e = Some d → d ≤ now.

Lemma Passed_true d now : d ≤ now → Passed d now = true.
Proof. unfold Passed. rewrite negb_true_iff, Z.ltb_ge. done. Qed.

(** What the clock, or an administrator, does to an errand nobody attends to. *)
Definition unattended_event (s : Status) : Event :=
  match s with
  | StatusPendingReservation => EventReservationFailed
  | StatusOpen => EventAcceptanceDeadlinePassed
  | StatusAssigned => EventPickupDeadlinePassed
  | StatusPickedUp => EventDeliveryDeadlinePassed
  | StatusDelivered => EventVerificationLapsed
  | _ => EventAdminRefund
  end.
Definition unattended_actor (admin : string) (s : Status) : Actor :=
  if bool_decide (s = StatusReviewRequired) then mkActor ActorAdmin admin else SystemActor.

Lemma unattended_step e now admin input :
  errand_ok e → Active (e_Status e) = true → (e_Status e ≠ StatusReviewRequired → overdue e now) → admin ≠ "" →
  isBlank (i_Reason input) = false →
  ∃ t, Next e (unattended_event (e_Status e)) (unattended_actor admin (e_Status e)) input now = Ok t ∧
    t_Actor t = unattended_actor admin (e_Status e) ∧
    t_To t = match e_Status e with
             | StatusPendingReservation => StatusRejected
             | StatusOpen | StatusAssigned => StatusExpired
             | StatusPickedUp => StatusReviewRequired
             | StatusDelivered => StatusCompleted
             | _ => StatusRefunded
             end.
Proof.
  intros Hok Hact Hod Hadm Hre.
  pose proof (eo_courier _ Hok) as Hc. pose proof (eo_delivered _ Hok) as Hd.
  assert (e_Status e = StatusNone ∨ Valid (e_Status e) = true) as Hs by apply Hok.
  destruct (e_Status e) eqn:Hst; try done; simpl in Hc, Hd.
  all: (eapply Next_moves; [by rewrite Hst|by rewrite Hst|rewrite Hst; rules_for|..]).
  all: try (by simpl; rewrite ?bool_decide_false by done).
  all: try (intros _; exact Hre).
  all: cbn [chooseRule choose first_failing guardHolds r_Guards].
  all: destruct Hod as [Hacc Hov]; [done|]; rewrite ?(Passed_true _ _ Hacc).
  1,2: reflexivity.
  1: destruct Hc as (_ & _ & [d Hpd] & _). 3: destruct Hc as (_ & _ & _ & [d Hpd]).
  5: destruct (Hd eq_refl) as (_ & [d Hpd]).
  all: try (rewrite Hpd, (Passed_true d) by eauto); reflexivity.
Qed.

(** The deadline that moves an errand on in its status. *)
Definition status_deadline (e : Errand) : option Z :=
  match e_Status e with
  | StatusOpen => Some (d_AcceptanceDeadline (e_Details e))
  | StatusAssigned => e_PickupDeadline e
  | StatusPickedUp => e_DeliveryDeadline e
  | StatusDelivered => e_VerificationDeadline e
  | _ => None
  end.

(** In every status of the lifecycle but two the errand has one. *)
Lemma status_deadline_set e :
  errand_ok e → Active (e_Status e) = true →
  e_Status e = StatusPendingReservation ∨ e_Status e = StatusReviewRequired ∨ is_Some (status_deadline e).
Proof.
  intros Hok Hact. pose proof (eo_courier _ Hok) as Hc. pose proof (eo_delivered _ Hok) as Hd.
  unfold status_deadline. destruct (e_Status e); try done; simpl in Hc, Hd; auto; right; right.
  - apply Hc.
  - apply Hc.
  - by apply Hd.
Qed.

Lemma Passed_iff d now : Passed d now = true ↔ d ≤ now.
Proof. unfold Passed. by rewrite negb_true_iff, Z.ltb_ge. Qed.

(** The clock's event is possible from the deadline on, and not before. *)
Lemma clock_moves e now input d :
  errand_ok e → status_deadline e = Some d →
  (∃ t, Next e (unattended_event (e_Status e)) SystemActor input now = Ok t) ↔ d ≤ now.
Proof.
  intros Hok Hd. unfold status_deadline in Hd. split.
  - intros [t (rule & [Hin Hf Hev _ Hg _ _])%Next_inv].
    destruct (e_Status e) eqn:Hst; try done; each_rule Hin; simpl in Hf, Hev; try done.
    1: pose proof (Hg GuardAfterAcceptanceDeadline ltac:(by left)) as Hp.
    2,3: pose proof (Hg GuardAfterPickupDeadline ltac:(by left)) as Hp.
    4: pose proof (Hg GuardAfterDeliveryDeadline ltac:(by left)) as Hp.
    5: pose proof (Hg GuardAfterVerificationDeadline ltac:(by left)) as Hp.
    all: simpl in Hp; try rewrite Hd in Hp; apply Passed_iff in Hp; by simplify_eq.
  - intros Hle%Passed_iff.
    assert (e_Status e = StatusNone ∨ Valid (e_Status e) = true) as Hs by apply Hok.
    assert (∃ t, Next e (unattended_event (e_Status e)) SystemActor input now = Ok t ∧ t_Actor t = SystemActor ∧
      t_To t = match e_Status e with
               | StatusOpen => StatusExpired | StatusPickedUp => StatusReviewRequired
               | StatusDelivered => StatusCompleted
               | _ => if Passed (d_AcceptanceDeadline (e_Details e)) now then StatusExpired else StatusOpen
               end) as (t & Ht & _); [|by exists t].
    destruct (e_Status e) eqn:Hst; try done; simplify_eq;
      destruct (Passed (d_AcceptanceDeadline (e_Details e)) now) eqn:Hacc; try done;
      (eapply Next_moves; [by rewrite Hst|by rewrite Hst|rewrite Hst; rules_for|..]); try done.
    all: cbn [chooseRule choose first_failing guardHolds r_Guards]; rewrite ?Hd, ?Hle, ?Hacc; first [reflexivity|discriminate].
Qed.

(** A transition of an errand nobody attends to. *)
Definition left_alone (admin : string) (now : Z) (t : Transition) : Prop :=
  t_At t = now ∧ t_Event t = unattended_event (t_From t) ∧ t_Actor t = unattended_actor admin (t_From t).

Lemma Next_left_alone e admin input now t :
  Next e (unattended_event (e_Status e)) (unattended_actor admin (e_Status e)) input now = Ok t →
  left_alone admin now t.
Proof.
  intros Hn. unfold left_alone. rewrite (proj1 (Next_from _ _ _ _ _ _ Hn)).
  apply Next_inv in Hn as (rule & [_ _ _ _ _ _ (t0 & Happ & ->)]). simpl.
  destruct (drop_edit_frame e t0) as (_ & _ & _ & -> & -> & -> & _).
  by apply applyEvent_frame in Happ as (_ & _ & _ & -> & -> & -> & _).
Qed.

(** The first transition, and the second when the first one leads to review. *)
Lemma unattended_run e0 ts e now admin input :
  erun e0 ts e → Active (e_Status e) = true → overdue e now → admin ≠ "" → isBlank (i_Reason input) = false →
  ∃ ts' e', erun e0 (ts ++ ts') e' ∧ (length ts' ≤ 2)%nat ∧ Terminal (e_Status e') = true ∧
    Forall (left_alone admin now) ts'.
Proof.
  intros Hrun Hact Hod Hadm Hre. pose proof (erun_ok _ _ _ Hrun) as Hok.
  destruct (unattended_step e now admin input Hok Hact (λ _, Hod) Hadm Hre) as (t & Ht & _ & Hto).
  assert (erun e0 (ts ++ [t]) (ApplyTo t e)) as Hrun1 by by eapply erun_next.
  destruct (Terminal (t_To t)) eqn:Hterm.
  { exists [t], (ApplyTo t e). split_and!; [done|simpl; lia|done|]. apply Forall_singleton. by eapply Next_left_alone. }
  assert (e_Status (ApplyTo t e) = StatusReviewRequired) as Hrv.
  { change (e_Status (ApplyTo t e)) with (t_To t). rewrite Hto in *. by destruct (e_Status e). }
  destruct (unattended_step (ApplyTo t e) now admin input (erun_ok _ _ _ Hrun1)) as (t2 & Ht2 & _ & Hto2);
    [by rewrite Hrv|done|done|done|].
  exists [t; t2], (ApplyTo t2 (ApplyTo t e)). split_and!; [|simpl; lia| |].
  - change [t; t2] with ([t] ++ [t2]). rewrite app_assoc. by eapply erun_next.
  - change (Terminal (t_To t2) = true). by rewrite Hto2, Hrv.
  - repeat constructor; by eapply Next_left_alone.
Qed.

(** C8: No errand is stuck, and none is hurried.  Whatever happened to an active
    errand, once its deadlines have passed at most two more transitions, taken
    at that moment without its requester or courier, bring it to a terminal
    status: the system's own event for a pending, open, assigned, picked-up or
    delivered errand (a reservation that failed, or the deadline of the status)
    and an administrator's verdict for one under review.  In each of the four
    statuses with a deadline, the system's event is possible from that deadline
    on and at no time before it. *)
Theorem unattended_errand_ends e0 ts e admin input :
  erun e0 ts e → Active (e_Status e) = true → admin ≠ "" → isBlank (i_Reason input) = false →
  (∀ now, overdue e now →
     ∃ ts' e', erun e0 (ts ++ ts') e' ∧ (length ts' ≤ 2)%nat ∧ Terminal (e_Status e') = true ∧
       Forall (left_alone admin now) ts') ∧
  (e_Status e = StatusPendingReservation ∨ e_Status e = StatusReviewRequired ∨
   ∃ d, status_deadline e = Some d ∧
     ∀ now, (∃ t, Next e (unattended_event (e_Status e)) SystemActor input now = Ok t) ↔ d ≤ now).
Proof.
  intros Hrun Hact Hadm Hre. split; [intros now Hod; by eapply unattended_run|].
  pose proof (erun_ok _ _ _ Hrun) as Hok.
  destruct (status_deadline_set e Hok Hact) as [?|[?|[d Hd]]]; [by left|by right; left|right; right].
  exists d. split; [done|]. intros now. by apply clock_moves.
Qed.

(** ** Runs *)

(** C6: Whatever sequence of transitions an errand goes through, its version,
    courier, deadlines, delivery, review reason, reward and pending edit agree
    with its status (the constraints the errands table states, and more). *)
Theorem errand_always_consistent e0 ts e : erun e0 ts e → errand_ok e.
Proof. apply erun_ok. Qed.

(** No two outbox rows of an errand ever share an idempotency key, so the
    unique index of the outbox never refuses a transition and credit-service
    never mistakes one command of an errand for another. *)
Theorem outbox_keys_unique e0 ts e : erun e0 ts e → NoDup (o_IdempotencyKey <$> run_rows ts).
Proof. apply erun_keys_NoDup. Qed.

(** C7: The credit commands of an errand are one reservation of a positive
    amount, then adjustments with strictly increasing sequence numbers, then
    the settlement its status calls for: a transfer of the agreed reward to
    the courier when it completed, a release when it was cancelled, expired or
    refunded, and nothing while it is active. *)
Theorem credit_commands_of_errand e0 ts e : erun e0 ts e → sent_so_far e (commands (run_rows ts)).
Proof. apply erun_sent. Qed.

(** ** Authority *)

(** Who may cause an event, as the product describes it. *)
Definition authorised (e : Errand) (ev : Event) (actor : Actor) (input : EventInput) (now : Z) : Prop :=
  match ev with
  | EventSubmit | EventEdit | EventCancel | EventConfirm | EventDispute =>
      a_Type actor = ActorRequester ∧ a_ID actor = e_RequesterID e ∧ a_ID actor ≠ ""
  | EventAccept =>
      a_Type actor = ActorCourier ∧ a_ID actor ≠ "" ∧ a_ID actor ≠ e_RequesterID e ∧
      i_PreviouslyWithdrew input = false ∧ i_Restricted input = false ∧
      now < d_AcceptanceDeadline (e_Details e)
  | EventWithdraw | EventPickUp | EventDeliver | EventReportIssue =>
      a_Type actor = ActorCourier ∧ a_ID actor = e_CourierID e ∧ a_ID actor ≠ ""
  | EventAdminComplete | EventAdminRefund =>
      a_Type actor = ActorAdmin ∧ a_ID actor ≠ "" ∧ isBlank (i_Reason input) = false
  | _ => actor = SystemActor
  end.

Lemma checkActor_Ok rel e actor input :
  checkActor rel e actor input = Ok tt →
  match rel with
  | RelSystem => actor = SystemActor
  | RelAdmin => a_Type actor = ActorAdmin ∧ a_ID actor ≠ ""
  | RelRequester => a_Type actor = ActorRequester ∧ a_ID actor = e_RequesterID e ∧ a_ID actor ≠ ""
  | RelAssignedCourier => a_Type actor = ActorCourier ∧ a_ID actor = e_CourierID e ∧ a_ID actor ≠ ""
  | RelEligibleCourier =>
      a_Type actor = ActorCourier ∧ a_ID actor ≠ "" ∧ a_ID actor ≠ e_RequesterID e ∧
      i_PreviouslyWithdrew input = false ∧ i_Restricted input = false
  end.
Proof.
  destruct rel; [..|apply checkActor_courier| |]; destruct actor as [ty aid];
    unfold checkActor, newError, SystemActor; simpl; intros H; break_in H; bool_props; subst; done.
Qed.

(** A transition is only ever taken by an actor entitled to it: the
    errand's requester, its own courier, an eligible courier before the
    acceptance deadline, an administrator who gave a reason, or the system. *)
Theorem transition_authorised e ev actor input now t :
  Next e ev actor input now = Ok t → authorised e ev actor input now.
Proof.
  intros (rule & [Hin Hf <- Ha Hg Hn _])%Next_inv. apply checkActor_Ok in Ha.
  each_rule Hin; simpl in *; destruct_and?; split_and?; auto.
  specialize (Hg GuardBeforeAcceptanceDeadline ltac:(by left)). simpl in Hg.
  unfold Passed in Hg. bool_props. done.
Qed.

(** ** The two-phase reward edit *)

Lemma drop_edit_None e t : e_PendingEdit e = None → drop_edit e t = t.
Proof. unfold drop_edit. by intros ->. Qed.

Section edit.
Variables (e : Errand) (p : PendingEdit).
Hypothesis Hopen : e_Status e = StatusOpen.

(** An answer to a pending edit. *)
Lemma edit_confirmed input now :
  e_PendingEdit e = Some p → i_EditKey input = pe_Key p →
  ∃ t, Next e EventEditConfirmed SystemActor input now = Ok t ∧
    let e' := ApplyTo t e in
    e_Details e' = pe_Details p ∧ e_PendingEdit e' = None ∧ e_Version e' = e_Version e + 1 ∧
    e_Status e' = StatusOpen ∧ commands (t_Outbox t) = [].
Proof.
  intros Hp Hk. eexists. split.
  - eapply Next_intro; [by rewrite Hopen; right|by rewrite Hopen|rewrite Hopen; rules_for|done|done|done|].
    unfold applyEvent. cbn [t_Event base_transition]. rewrite Hp, Hk, bool_decide_true by done. reflexivity.
  - unfold drop_edit, outboxRows, credit_rows, revertsAdjust. rewrite Hp. by split_and!.
Qed.

Lemma edit_refused input now :
  e_PendingEdit e = Some p → i_EditKey input = pe_Key p →
  ∃ t, Next e EventEditRefused SystemActor input now = Ok t ∧
    let e' := ApplyTo t e in
    e_Details e' = e_Details e ∧ e_PendingEdit e' = None ∧ e_Version e' = e_Version e + 1 ∧
    e_Status e' = StatusOpen ∧
    commands (t_Outbox t) =
      if i_EditTimedOut input
      then [(KindCreditAdjust, command e' "" 0 (d_Reward (e_Details e)) (2 * e_Version e + 1))]
      else [].
Proof.
  intros Hp Hk. destruct (i_EditTimedOut input) eqn:Hto.
  all: eexists; split;
    [eapply Next_intro; [by rewrite Hopen; right|by rewrite Hopen|rewrite Hopen; rules_for|done|done|done|];
     unfold applyEvent; cbn [t_Event base_transition]; rewrite Hp, Hk, bool_decide_true by done;
     cbn; rewrite Hto; reflexivity|].
  all: unfold drop_edit, outboxRows, credit_rows, revertsAdjust; rewrite Hp; simpl; rewrite Hto.
  all: split_and!; try done. simpl. unfold RevertSeq, command. repeat f_equal; simpl; lia.
Qed.

Lemma edit_stale_answer ev input now :
  ev = EventEditConfirmed ∨ ev = EventEditRefused →
  match e_PendingEdit e with Some p => i_EditKey input ≠ pe_Key p | None => True end →
  Next e ev SystemActor input now = newError ErrandChanged.
Proof.
  intros Hev Hp. destruct Hev as [-> | ->].
  all: erewrite Next_run;
    [|by rewrite Hopen; right|by rewrite Hopen|rewrite Hopen; rules_for|done|done|done].
  all: unfold applyEvent; cbn [t_Event base_transition].
  all: destruct (e_PendingEdit e) as [p'|]; [|done]; by rewrite bool_decide_false by done.
Qed.

End edit.

(** A reward edit takes effect in two phases. The request keeps the
    errand's details and version, records the edit and asks credit-service for
    the new amount; the errand takes the new details only when the answer to
    that very request confirms them, keeps the old ones when it is refused or
    times out (undoing the adjustment in the latter case), ignores any other
    answer and refuses a second edit in between. *)
Theorem reward_edit_two_phase e d actor input now :
  errand_ok e → e_Status e = StatusOpen → e_PendingEdit e = None →
  checkActor RelRequester e actor input = Ok tt → i_Edit input = Some d →
  validateDetails d now (negb (d_AcceptanceDeadline d =? d_AcceptanceDeadline (e_Details e))) = Ok tt →
  d_Reward d ≠ d_Reward (e_Details e) →
  ∃ t, Next e EventEdit actor input now = Ok t ∧
    let e1 := ApplyTo t e in let key := IdempotencyKey (e_ID e) "adjust" (e_Version e) in
    e_Details e1 = e_Details e ∧ e_Version e1 = e_Version e ∧ e_Status e1 = StatusOpen ∧
    commands (t_Outbox t) = [(KindCreditAdjust, command e "" 0 (d_Reward d) (2 * e_Version e))] ∧
    (∀ actor' input' now', checkActor RelRequester e actor' input' = Ok tt →
       Next e1 EventEdit actor' input' now' = newError EditPending) ∧
    ∀ input' now',
      if bool_decide (i_EditKey input' = key) then
        (∃ t1, Next e1 EventEditConfirmed SystemActor input' now' = Ok t1 ∧
           e_Details (ApplyTo t1 e1) = d ∧ e_PendingEdit (ApplyTo t1 e1) = None) ∧
        (∃ t2, Next e1 EventEditRefused SystemActor input' now' = Ok t2 ∧
           e_Details (ApplyTo t2 e1) = e_Details e ∧ e_PendingEdit (ApplyTo t2 e1) = None ∧
           commands (t_Outbox t2) =
             if i_EditTimedOut input'
             then [(KindCreditAdjust, command (ApplyTo t2 e1) "" 0 (d_Reward (e_Details e))
                                        (2 * e_Version e + 1))]
             else [])
      else Next e1 EventEditConfirmed SystemActor input' now' = newError ErrandChanged ∧
           Next e1 EventEditRefused SystemActor input' now' = newError ErrandChanged.
Proof.
  intros Hok Hst Hp Ha Hd Hv Hrw. eexists. split.
  - erewrite Next_run; [|by rewrite Hst; right|by rewrite Hst|rewrite Hst; rules_for|done|done|done].
    unfold applyEvent. cbn [t_Event base_transition]. rewrite Hp, Hd, Hv.
    rewrite (proj2 (Z.eqb_neq _ _) Hrw), (drop_edit_None _ _ Hp). reflexivity.
  - intros e1 key.
    assert (e_PendingEdit e1 = Some (mkPendingEdit d key now)) as Hp1 by done.
    assert (e_Status e1 = StatusOpen) as Hst1 by done.
    split_and!; try done.
    + cbn [t_Outbox with_outbox]. unfold outboxRows, credit_rows, revertsAdjust. by rewrite Hp.
    + intros actor' input' now' Ha'.
      erewrite Next_run; [|by right|done|rules_for|exact Ha'|done|done].
      unfold applyEvent. cbn [t_Event base_transition]. by rewrite Hp1.
    + intros input' now'. case_bool_decide as Hk.
      * destruct (edit_confirmed e1 _ Hst1 input' now' Hp1 Hk) as (t1 & ? & ? & ? & _).
        destruct (edit_refused e1 _ Hst1 input' now' Hp1 Hk) as (t2 & ? & ? & ? & _ & _ & ?).
        split; [by exists t1|by exists t2].
      * split; apply edit_stale_answer; auto; by rewrite Hp1.
Qed.

(** ** A concrete errand *)

Module ErrandScenario.

Definition alice := "auth0|alice".
Definition bob := "auth0|bob".
Definition admin := "auth0|admin".

Definition details (reward : Z) : Details :=
  mkDetails "supplier" "version" "building" None "lobby" (Some (JArr [JStr "coffee"])) ""
    "Alice" "91234567" reward (60 * minute).
Definition draft : Errand :=
  mkErrand "e1" StatusNone 0 alice "" (details 40) None None None None ReviewNone "create" None 0 0.

Definition plain : EventInput := mkEventInput None "" false false DefaultDeadlineSettings "" false.
Definition edit_input : EventInput :=
  mkEventInput (Some (details 50)) "" false false DefaultDeadlineSettings "" false.
Definition edit_answer : EventInput :=
  mkEventInput None "" false false DefaultDeadlineSettings "e1:adjust:2" false.
Definition with_words : EventInput :=
  mkEventInput None "no answer" false false DefaultDeadlineSettings "" false.
Definition requester : Actor := mkActor ActorRequester alice.
Definition courier : Actor := mkActor ActorCourier bob.

(** Apply events one after another. *)
Fixpoint follow (ts : list Transition) (e : Errand) (steps : list (Event * Actor * EventInput * Z)) :
    option (list Transition * Errand) :=
  match steps with
  | [] => Some (ts, e)
  | (ev, actor, input, now) :: steps' =>
      match Next e ev actor input now with
      | Ok t => follow (ts ++ [t]) (ApplyTo t e) steps'
      | Err _ => None
      end
  end.

Lemma follow_erun e0 ts e steps ts' e' :
  erun e0 ts e → follow ts e steps = Some (ts', e') → erun e0 ts' e'.
Proof.
  revert ts e. induction steps as [|[[[ev actor] input] now] steps IH]; intros ts e Hrun; simpl.
  - by intros [= <- <-].
  - destruct (Next _ _ _ _ _) as [t|] eqn:Hn; [|done]. apply IH. by eapply erun_next.
Qed.

Definition to_open : list (Event * Actor * EventInput * Z) :=
  [(EventSubmit, requester, plain, 0); (EventReservationConfirmed, SystemActor, plain, 1)].
Definition to_delivered : list (Event * Actor * EventInput * Z) :=
  to_open ++ [(EventEdit, requester, edit_input, 2); (EventEditConfirmed, SystemActor, edit_answer, 3);
              (EventAccept, courier, plain, 4); (EventPickUp, courier, plain, 5)].
Definition to_completed : list (Event * Actor * EventInput * Z) :=
  to_delivered ++ [(EventDeliver, courier, plain, 6); (EventConfirm, requester, plain, 7)].

Definition state_of (steps : list (Event * Actor * EventInput * Z)) : list Transition * Errand :=
  default ([], draft) (follow [] draft steps).

Definition opened := Eval vm_compute in state_of to_open.
Definition carried := Eval vm_compute in state_of to_delivered.
Definition completed := Eval vm_compute in state_of to_completed.

Lemma draft_run : erun draft [] draft.
Proof. apply erun_start. by repeat split. Qed.
Lemma opened_run : erun draft opened.1 opened.2.
Proof. eapply follow_erun; [apply draft_run|]. instantiate (1 := to_open). vm_compute. reflexivity. Qed.
Lemma carried_run : erun draft carried.1 carried.2.
Proof. eapply follow_erun; [apply draft_run|]. instantiate (1 := to_delivered). vm_compute. reflexivity. Qed.
Lemma completed_run : erun draft completed.1 completed.2.
Proof. eapply follow_erun; [apply draft_run|]. instantiate (1 := to_completed). vm_compute. reflexivity. Qed.

End ErrandScenario.
Import ErrandScenario.

Lemma errand_always_consistent_witness : errand_ok completed.2.
Proof. apply (errand_always_consistent draft completed.1), completed_run. Defined.

Lemma outbox_keys_unique_witness :
  NoDup (o_IdempotencyKey <$> run_rows completed.1) ∧ length (run_rows completed.1) = 11%nat.
Proof.
  split; [apply (outbox_keys_unique draft completed.1 completed.2), completed_run|].
  vm_compute. reflexivity.
Defined.

(** The whole story of one errand: 40 reserved, adjusted to 50, 50 paid. *)
Lemma credit_commands_of_errand_witness :
  sent_so_far completed.2 (commands (run_rows completed.1)) ∧
  ((λ kc, (kc.1, cc_CourierID kc.2, cc_Amount kc.2, cc_NewAmount kc.2, cc_Seq kc.2))
     <$> commands (run_rows completed.1))
  = [(KindCreditReserve, "", 40, 0, 0); (KindCreditAdjust, "", 0, 50, 4);
     (KindCreditTransfer, bob, 50, 0, 0)].
Proof.
  split; [apply (credit_commands_of_errand draft), completed_run|]. vm_compute. reflexivity.
Defined.

Lemma transition_authorised_witness :
  authorised opened.2 EventAccept courier plain 4.
Proof.
  assert (match Next opened.2 EventAccept courier plain 4 with Ok _ => true | _ => false end = true) as H.
  { vm_compute. reflexivity. }
  destruct (Next opened.2 EventAccept courier plain 4) as [t|] eqn:Hn; [|done].
  apply (transition_authorised _ _ _ _ _ t Hn).
Defined.

Lemma reward_edit_two_phase_witness :
  ∃ t, Next opened.2 EventEdit requester edit_input 2 = Ok t ∧
    e_Details (ApplyTo t opened.2) = details 40.
Proof.
  destruct (reward_edit_two_phase opened.2 (details 50) requester edit_input 2) as (t & Ht & Hd & _);
    [apply (erun_ok _ _ _ opened_run)|done|done|done|done|vm_compute; reflexivity|done|].
  by exists t.
Defined.

Lemma unattended_errand_ends_witness :
  (∃ ts' e', erun draft (carried.1 ++ ts') e' ∧ (length ts' ≤ 2)%nat ∧ Terminal (e_Status e') = true ∧
    Forall (left_alone admin (10 * hour)) ts') ∧
  ∃ d, status_deadline carried.2 = Some d.
Proof.
  destruct (unattended_errand_ends draft carried.1 carried.2 admin with_words carried_run) as [Hends Hmoves];
    [done|done|vm_compute; reflexivity|]. split.
  - apply Hends. split; [vm_compute; done|]. intros d Hd. cbn in Hd. destruct Hd as [[= <-]|[[= <-]|Hd]]; [..|done].
    all: vm_compute; done.
  - destruct Hmoves as [?|[?|(d & Hd & _)]]; [done|done|]. by exists d.
Defined.
