(* ===== verification/ErrandStore.v ===== *)
(** * order-service: the errand store

    [internal/database/errandrepo] over the tables of
    [migrations/00001_create_order_schema.sql]: the conversion between errands
    and rows, [Create], [Apply], [ClaimDue], [RecordRejection] and the reads.

    The driver and the server are an instance of [Postgres]: how a UUID
    argument is read and printed, how a [timestamptz] is rounded, and how the
    server casts text to [uuid].  A [jsonb] column holds the document written
    (decoding finds members by name, so their order is not observable).
    Transactions are the monad [Op]; a failed one changes nothing.  Row locks
    and the advisory lock keep the rows a transaction decides on from changing
    until it commits. *)

From S2P Require Import Prelude GoText Json GoTime Errand ErrandState ErrandJson.

(** ** The database server *)

Class Postgres := {
  toUUID : string → option string;      (* [UUID.Scan], then its canonical text *)
  stored_time : Z → Z;                  (* a [timestamptz] read back *)
  uuid_cast : string → option string;   (* the server's [::uuid] *)
}.

(** What the code relies on: a canonical UUID is read as itself and has no
    colon, the empty string is no UUID for either,
    a stored time is stored again unchanged, is
    rounded down and keeps its order, and the server reads every UUID the driver reads. *)
Class PostgresOk `{Postgres} : Prop := {
  toUUID_canonical s u : toUUID s = Some u → toUUID u = Some u;
  toUUID_no_colon s u : toUUID s = Some u → has_colon u = false;
  toUUID_empty : toUUID "" = None;
  stored_time_idem t : stored_time (stored_time t) = stored_time t;
  stored_time_le t : stored_time t ≤ t;
  stored_time_mono t t' : t ≤ t' → stored_time t ≤ stored_time t';
  uuid_cast_toUUID s u : toUUID s = Some u → uuid_cast s = Some u;
  uuid_cast_empty : uuid_cast "" = None;
}.

(** ** Tables *)

Record ErrandRow := mkErrandRow {
  er_ID : string;
  er_Status : Status;
  er_Version : Z;
  er_RequesterID : string;
  er_CourierID : option string;
  er_SupplierID : string;
  er_SupplierVersionID : string;
  er_DeliveryBuildingID : string;
  er_DeliveryBuildingSnapshot : option json;
  er_DeliveryDetail : string;
  er_Items : option json;
  er_Notes : string;
  er_ContactName : string;
  er_ContactMobile : string;
  er_Reward : Z;
  er_AcceptanceDeadline : Z;
  er_PickupDeadline : option Z;
  er_DeliveryDeadline : option Z;
  er_DeliveredAt : option Z;
  er_VerificationDeadline : option Z;
  er_ReviewReason : option ReviewReason;
  er_CreateIdempotencyKey : string;
  er_PendingEdit : option json;
  er_PendingEditKey : option string;
  er_PendingEditAt : option Z;
  er_CreatedAt : Z;
  er_UpdatedAt : Z;
}.

Record TransitionRow := mkTransitionRow {
  tr_ErrandID : string;
  tr_FromStatus : option Status;
  tr_ToStatus : Status;
  tr_Event : Event;
  tr_ActorType : ActorType;
  tr_ActorID : option string;
  tr_CourierID : option string;
  tr_Reason : option string;
  tr_ErrandVersion : Z;
  tr_At : Z;
}.

Record ReviewRow := mkReviewRow {
  rv_ErrandID : string;
  rv_Reason : ReviewReason;
  rv_ReporterID : option string;
  rv_Note : option string;
  rv_Resolution : option Status;
  rv_ResolverID : option string;
  rv_ResolutionReason : option string;
  rv_CreatedAt : Z;
  rv_ResolvedAt : option Z;
}.

Inductive OStatus := OPending | OSent | OConfirmed | OFailed.
#[export] Instance OStatus_eq_dec : EqDecision OStatus.
Proof. solve_decision. Defined.

(** A row of the [outbox] table. *)
Record ORow := mkORow {
  or_ID : Z;
  or_Kind : string;
  or_IdempotencyKey : string;
  or_ErrandID : string;
  or_Payload : json;
  or_Status : OStatus;
  or_Attempts : Z;
  or_NextAttemptAt : Z;
  or_LeaseOwner : option string;
  or_LeaseExpiresAt : option Z;
  or_LastFailureCode : option string;
  or_CreatedAt : Z;
  or_SentAt : option Z;
  or_ConfirmedAt : option Z;
}.

Inductive FenceState := FenceOpen | FenceCommitted | FenceReleased.
#[export] Instance FenceState_eq_dec : EqDecision FenceState.
Proof. solve_decision. Defined.

Record FenceRow := mkFenceRow {
  fr_OperationID : string; fr_SupplierID : string; fr_State : FenceState }.

Inductive AuditOutcome := AuditSucceeded | AuditRejected | AuditFailed.

Record AuditRow := mkAuditRow {
  au_ActorID : string; au_Action : string; au_TargetType : string; au_TargetID : string;
  au_Reason : option string; au_Outcome : AuditOutcome }.

Record ODB := mkODB {
  db_errands : gmap string ErrandRow;
  db_transitions : list TransitionRow;
  db_reviews : list ReviewRow;
  db_outbox : gmap Z ORow;
  db_next_outbox : Z;
  db_fences : gmap string FenceRow;
  db_audit : list AuditRow;
}.

Definition empty_odb : ODB := mkODB ∅ [] [] ∅ 1 ∅ [].

Definition set_errands (m : gmap string ErrandRow) (db : ODB) : ODB :=
  mkODB m (db_transitions db) (db_reviews db) (db_outbox db) (db_next_outbox db) (db_fences db) (db_audit db).
Definition set_transitions (l : list TransitionRow) (db : ODB) : ODB :=
  mkODB (db_errands db) l (db_reviews db) (db_outbox db) (db_next_outbox db) (db_fences db) (db_audit db).
Definition set_reviews (l : list ReviewRow) (db : ODB) : ODB :=
  mkODB (db_errands db) (db_transitions db) l (db_outbox db) (db_next_outbox db) (db_fences db) (db_audit db).
Definition set_outbox (m : gmap Z ORow) (next : Z) (db : ODB) : ODB :=
  mkODB (db_errands db) (db_transitions db) (db_reviews db) m next (db_fences db) (db_audit db).
Definition set_fences (m : gmap string FenceRow) (db : ODB) : ODB :=
  mkODB (db_errands db) (db_transitions db) (db_reviews db) (db_outbox db) (db_next_outbox db) m (db_audit db).
Definition set_audit (l : list AuditRow) (db : ODB) : ODB :=
  mkODB (db_errands db) (db_transitions db) (db_reviews db) (db_outbox db) (db_next_outbox db) (db_fences db) l.

(** ** Failures *)

(** An [*apperror.Error], or any other error (the server's or a bug's). *)
Inductive Failure := FApp (e : AppError) | FPlain (what : string).

Abbreviation Op := (M ODB Failure).

Definition appErr {A} (code : Code) : Op A := fail (FApp (mkAppError code [])).
Definition plain {A} (what : string) : Op A := fail (FPlain what).
Definition notFound {A} : Op A := appErr ErrandNotFound.

(** ** Due kinds *)

Inductive DueKind :=
| AcceptanceExpiry | DuePickup | DueDelivery | VerificationLapse | StuckReservation | StuckEdit.
#[export] Instance DueKind_eq_dec : EqDecision DueKind.
Proof. solve_decision. Defined.

Section store.
Context `{Postgres}.

(** ** repository.go: columns *)

Definition max_int32 : Z := 2147483647.

(** Go's conversion to [int32]. *)
Definition wrap32 (x : Z) : Z := (x + 2 ^ 31) mod 2 ^ 32 - 2 ^ 31.

(** A nullable text column; [""] is NULL. *)
Definition text (s : string) : option string := if bool_decide (s = "") then None else Some s.

Definition parseUUID (value : string) : res Failure string :=
  match toUUID value with
  | Some u => Ok u
  | None => Err (FApp (mkAppError InvalidArgument []))
  end.

Definition rowLimit (limit : Z) : Z := Z.min limit max_int32.

(** ** rows.go *)

Definition insertParams (e : Errand) : res Failure ErrandRow :=
  match parseUUID (e_ID e), parseUUID (d_SupplierID (e_Details e)),
        parseUUID (d_SupplierVersionID (e_Details e)),
        parseUUID (d_DeliveryBuildingID (e_Details e)) with
  | Ok id, Ok supplier, Ok version, Ok building =>
      if (max_int32 <? d_Reward (e_Details e)) || (max_int32 <? e_Version e)
      then Err (FApp (mkAppError InvalidArgument []))
      else
        let row pendingEdit pendingKey pendingAt :=
          let d := e_Details e in
          mkErrandRow id (e_Status e) (wrap32 (e_Version e)) (e_RequesterID e)
            (text (e_CourierID e)) supplier version building (d_DeliveryBuildingSnapshot d)
            (d_DeliveryDetail d) (d_Items d) (d_Notes d) (d_ContactName d) (d_ContactMobile d)
            (wrap32 (d_Reward d)) (d_AcceptanceDeadline d) (e_PickupDeadline e)
            (e_DeliveryDeadline e) (e_DeliveredAt e) (e_VerificationDeadline e)
            (if bool_decide (e_ReviewReason e = ReviewNone) then None else Some (e_ReviewReason e))
            (e_CreateIdempotencyKey e) pendingEdit pendingKey pendingAt (e_CreatedAt e)
            (e_UpdatedAt e) in
        match e_PendingEdit e with
        | None => Ok (row None None None)
        | Some p =>
            match enc_details (pe_Details p) with
            | None => Err (FPlain "encode pending edit")
            | Some v => Ok (row (Some v) (Some (pe_Key p)) (Some (pe_At p)))
            end
        end
  | Err err, _, _, _ | _, Err err, _, _ | _, _, Err err, _ | _, _, _, Err err => Err err
  end.

Definition errandFromRow (row : ErrandRow) : res Failure Errand :=
  let e pending :=
    mkErrand (er_ID row) (er_Status row) (er_Version row) (er_RequesterID row)
      (default "" (er_CourierID row))
      (mkDetails (er_SupplierID row) (er_SupplierVersionID row) (er_DeliveryBuildingID row)
         (er_DeliveryBuildingSnapshot row) (er_DeliveryDetail row) (er_Items row) (er_Notes row)
         (er_ContactName row) (er_ContactMobile row) (er_Reward row) (er_AcceptanceDeadline row))
      (er_PickupDeadline row) (er_DeliveryDeadline row) (er_DeliveredAt row)
      (er_VerificationDeadline row) (default ReviewNone (er_ReviewReason row))
      (er_CreateIdempotencyKey row) pending (er_CreatedAt row) (er_UpdatedAt row) in
  match er_PendingEdit row with
  | None => Ok (e None)
  | Some v =>
      match dec_details v with
      | None => Err (FPlain "unreadable pending edit")
      | Some d =>
          Ok (e (Some (mkPendingEdit d (default "" (er_PendingEditKey row))
                         (default zero_time (er_PendingEditAt row)))))
      end
  end.

Fixpoint errandsFromRows (rows : list ErrandRow) : res Failure (list Errand) :=
  match rows with
  | [] => Ok []
  | row :: rows' =>
      match errandFromRow row with
      | Err err => Err err
      | Ok e => match errandsFromRows rows' with Ok l => Ok (e :: l) | Err err => Err err end
      end
  end.

(** The row with the compare-and-swap condition. *)
Record UpdateParams := mkUpdateParams {
  up_Row : ErrandRow;
  up_ExpectedStatus : Status;
  up_ExpectedVersion : Z;
  up_ExpectedPendingEditKey : option string;
}.

Definition updateParams (after : Errand) (t : Transition) : res Failure UpdateParams :=
  match insertParams after with
  | Err err => Err err
  | Ok row => Ok (mkUpdateParams row (t_From t) (wrap32 (t_ExpectedVersion t))
                    (text (t_ExpectedPendingEditKey t)))
  end.

(** ** Statements on errands *)

(** The columns as the server keeps them. *)
Definition stored_row (r : ErrandRow) : ErrandRow :=
  mkErrandRow (er_ID r) (er_Status r) (er_Version r) (er_RequesterID r) (er_CourierID r)
    (er_SupplierID r) (er_SupplierVersionID r) (er_DeliveryBuildingID r)
    (er_DeliveryBuildingSnapshot r) (er_DeliveryDetail r) (er_Items r) (er_Notes r)
    (er_ContactName r) (er_ContactMobile r) (er_Reward r) (stored_time (er_AcceptanceDeadline r))
    (stored_time <$> er_PickupDeadline r) (stored_time <$> er_DeliveryDeadline r)
    (stored_time <$> er_DeliveredAt r) (stored_time <$> er_VerificationDeadline r)
    (er_ReviewReason r) (er_CreateIdempotencyKey r) (er_PendingEdit r) (er_PendingEditKey r)
    (stored_time <$> er_PendingEditAt r) (stored_time (er_CreatedAt r))
    (stored_time (er_UpdatedAt r)).

(** [btrim(s) <> ''] *)
Definition btrim_nonempty (s : string) : bool :=
  existsb (λ a, negb (bool_decide (a = " "%char))) (String.list_ascii_of_string s).

(** NOT NULL and CHECK constraints of [errands]. *)
Definition errand_check (r : ErrandRow) : bool :=
  let present {A} (o : option A) := bool_decide (is_Some o) in
  Valid (er_Status r) && (1 <=? er_Version r) && (0 <? er_Reward r)
  && present (er_DeliveryBuildingSnapshot r)
  && match er_Items r with Some (JArr (_ :: _)) => true | _ => false end
  && btrim_nonempty (er_ContactName r) && btrim_nonempty (er_ContactMobile r)
  && (negb (existsb (λ s, bool_decide (er_Status r = s))
              [StatusAssigned; StatusPickedUp; StatusDelivered; StatusReviewRequired])
      || present (er_CourierID r))
  && match er_PendingEdit r, er_PendingEditKey r, er_PendingEditAt r with
     | None, None, None | Some _, Some _, Some _ => true
     | _, _, _ => false
     end.

Definition GetErrand (id : string) : Op (option ErrandRow) := λ db, Ok (db_errands db !! id, db).

(** The transaction then owns the row's lock. *)
Definition GetErrandForUpdate (id : string) : Op (option ErrandRow) := GetErrand id.

Definition same_create_key (requester key : string) (r : ErrandRow) : bool :=
  bool_decide (er_RequesterID r = requester) && bool_decide (er_CreateIdempotencyKey r = key).

Definition GetErrandByCreateKey (requester key : string) : Op (option ErrandRow) :=
  λ db, Ok (snd <$> scan1 (same_create_key requester key) (db_errands db), db).

Definition InsertErrand (p : ErrandRow) : Op (option ErrandRow) :=
  λ db,
    let row := stored_row p in
    match scan1 (same_create_key (er_RequesterID p) (er_CreateIdempotencyKey p)) (db_errands db) with
    | Some _ => Ok (None, db)
    | None =>
        if bool_decide (is_Some (db_errands db !! er_ID row)) then Err (FPlain "errands_pkey")
        else if negb (errand_check row) then Err (FPlain "errands check")
        else Ok (Some row, set_errands (<[er_ID row := row]> (db_errands db)) db)
    end.

(** The columns the statement does not write. *)
Definition keep_columns (cur r : ErrandRow) : ErrandRow :=
  mkErrandRow (er_ID cur) (er_Status r) (er_Version r) (er_RequesterID cur) (er_CourierID r)
    (er_SupplierID r) (er_SupplierVersionID r) (er_DeliveryBuildingID r)
    (er_DeliveryBuildingSnapshot r) (er_DeliveryDetail r) (er_Items r) (er_Notes r)
    (er_ContactName r) (er_ContactMobile r) (er_Reward r) (er_AcceptanceDeadline r)
    (er_PickupDeadline r) (er_DeliveryDeadline r) (er_DeliveredAt r) (er_VerificationDeadline r)
    (er_ReviewReason r) (er_CreateIdempotencyKey cur) (er_PendingEdit r) (er_PendingEditKey r)
    (er_PendingEditAt r) (er_CreatedAt cur) (er_UpdatedAt r).

Definition UpdateErrand (p : UpdateParams) : Op (option ErrandRow) :=
  λ db,
    let id := er_ID (up_Row p) in
    match db_errands db !! id with
    | None => Ok (None, db)
    | Some cur =>
        if bool_decide (er_Status cur = up_ExpectedStatus p)
           && (er_Version cur =? up_ExpectedVersion p)
           && bool_decide (er_PendingEditKey cur = up_ExpectedPendingEditKey p)
        then
          let row := keep_columns cur (stored_row (up_Row p)) in
          if errand_check row then Ok (Some row, set_errands (<[id := row]> (db_errands db)) db)
          else Err (FPlain "errands check")
        else Ok (None, db)
    end.

(** ** Statements on the rows written with a transition *)

Definition errand_exists (id : string) (db : ODB) : bool := bool_decide (is_Some (db_errands db !! id)).

Definition InsertTransition (r : TransitionRow) : Op unit :=
  λ db,
    if errand_exists (tr_ErrandID r) db
       && match tr_FromStatus r with None => true | Some s => Valid s end
       && Valid (tr_ToStatus r) && (1 <=? tr_ErrandVersion r)
    then Ok (tt, set_transitions (db_transitions db ++ [r]) db)
    else Err (FPlain "errand_transitions check").

Definition open_review (errand : string) (r : ReviewRow) : bool :=
  bool_decide (rv_ErrandID r = errand) && bool_decide (rv_Resolution r = None).

Definition OpenReview (errand : string) (reason : ReviewReason) (reporter note : option string)
    (at_ : Z) : Op unit :=
  λ db,
    if bool_decide (reason = ReviewNone) || negb (errand_exists errand db) then
      Err (FPlain "errand_reviews check")
    else if existsb (open_review errand) (db_reviews db) then Err (FPlain "errand_reviews_open_idx")
    else Ok (tt, set_reviews (db_reviews db ++
           [mkReviewRow errand reason reporter note None None None (stored_time at_) None]) db).

Definition resolve_row (resolution : Status) (resolver reason : option string) (at_ : Z)
    (r : ReviewRow) : ReviewRow :=
  mkReviewRow (rv_ErrandID r) (rv_Reason r) (rv_ReporterID r) (rv_Note r) (Some resolution)
    resolver reason (rv_CreatedAt r) (Some (stored_time at_)).

(** The number of rows resolved. *)
Definition ResolveReview (resolution : Status) (resolver reason : option string) (at_ : Z)
    (errand : string) : Op Z :=
  λ db,
    let n := Z.of_nat (length (List.filter (open_review errand) (db_reviews db))) in
    if negb (n =? 0) && negb ((bool_decide (resolution = StatusCompleted)
                                || bool_decide (resolution = StatusRefunded))
                               && bool_decide (is_Some resolver) && bool_decide (is_Some reason))
    then Err (FPlain "errand_reviews check")
    else Ok (n, set_reviews
                  ((λ r, if open_review errand r then resolve_row resolution resolver reason at_ r else r)
                     <$> db_reviews db) db).

(** [kind LIKE 'credit.%'] and [kind LIKE 'event.%'] *)
Definition is_credit (kind : string) : bool := has_prefix kind "credit.".
Definition is_event (kind : string) : bool := has_prefix kind "event.".

Definition kind_known (kind : string) : bool :=
  existsb (λ k, bool_decide (kind = k))
    [KindCreditReserve; KindCreditRelease; KindCreditTransfer; KindCreditAdjust] || is_event kind.

Definition has_key (key : string) (r : ORow) : bool := bool_decide (or_IdempotencyKey r = key).

Definition new_orow (clock id : Z) (kind key errand : string) (payload : json) : ORow :=
  mkORow id kind key errand payload OPending 0 clock None None None clock None None.

(** The server's clock fills in the times. *)
Definition InsertOutbox (clock : Z) (kind key errand : string) (payload : json) : Op unit :=
  λ db,
    let id := db_next_outbox db in
    match scan1 (has_key key) (db_outbox db) with
    | Some _ => Err (FPlain "outbox_idempotency_key")
    | None =>
        if kind_known kind && errand_exists errand db
        then Ok (tt, set_outbox (<[id := new_orow clock id kind key errand payload]> (db_outbox db))
                       (id + 1) db)
        else Err (FPlain "outbox check")
    end.

(** [ON CONFLICT (idempotency_key) DO NOTHING]: the number of rows inserted. *)
Definition InsertOutboxIfAbsent (clock : Z) (kind key errand : string) (payload : json) : Op Z :=
  λ db,
    match scan1 (has_key key) (db_outbox db) with
    | Some _ => Ok (0, db)
    | None => bind (InsertOutbox clock kind key errand payload) (λ _, ret 1) db
    end.

(** ** Fences *)

Definition fence_blocks (supplier : string) (f : FenceRow) : bool :=
  bool_decide (fr_SupplierID f = supplier)
  && (bool_decide (fr_State f = FenceOpen) || bool_decide (fr_State f = FenceCommitted)).

Definition fenced (supplier : string) (db : ODB) : bool :=
  match scan1 (fence_blocks supplier) (db_fences db) with Some _ => true | None => false end.

Definition SupplierFenced (supplier : string) : Op bool := λ db, Ok (fenced supplier db, db).

(** [checkFence]; the shared lock keeps a fence from being acquired until the
    transaction ends. *)
Definition checkFence (supplier : string) : Op unit :=
  let! f := SupplierFenced supplier in
  if f then appErr SupplierDeletionInProgress else ret tt.

(** ** write.go *)

(** A computation that fails or not without touching the database. *)
Definition lift {A} (r : res Failure A) : Op A :=
  match r with Ok a => ret a | Err e => fail e end.

Fixpoint insert_rows (clock : Z) (rows : list OutboxRow) : Op unit :=
  match rows with
  | [] => ret tt
  | row :: rows' =>
      match enc_payload (o_Payload row) with
      | None => plain "encode payload"
      | Some payload =>
          let! rowErrand := lift (parseUUID (o_ErrandID row)) in
          do! InsertOutbox clock (o_Kind row) (o_IdempotencyKey row) rowErrand payload;
          insert_rows clock rows'
      end
  end.

Definition writeTransitionRows (clock : Z) (before after : Errand) (t : Transition) : Op unit :=
  let! id := lift (parseUUID (e_ID after)) in
  do! InsertTransition (mkTransitionRow id
        (if bool_decide (t_From t = StatusNone) then None else Some (t_From t)) (t_To t) (t_Event t)
        (a_Type (t_Actor t)) (text (a_ID (t_Actor t)))
        (text (orDefault (e_CourierID before) (e_CourierID after)))
        (text (t_Reason t)) (wrap32 (e_Version after)) (stored_time (t_At t)));
  do! (if bool_decide (t_To t = StatusReviewRequired) then
         let reporter := if bool_decide (a_Type (t_Actor t) = ActorSystem) then "" else a_ID (t_Actor t) in
         let note := if bool_decide (trim_space (t_Reason t) = "") then "" else t_Reason t in
         OpenReview id (e_ReviewReason after) (text reporter) (text note) (t_At t)
       else if bool_decide (t_From t = StatusReviewRequired) then
         let! resolved := ResolveReview (t_To t) (text (a_ID (t_Actor t))) (text (t_Reason t)) (t_At t) id in
         if resolved =? 0 then plain "no open review to resolve" else ret tt
       else ret tt);
  insert_rows clock (t_Outbox t).

(** [between] is what other transactions commit while this one waits to
    insert, after its first statement. *)
Definition Create_tx (clock : Z) (between : ODB → ODB) (e : Errand) (t : Transition)
    (params : ErrandRow) : Op (Errand * bool) :=
  let byKey := GetErrandByCreateKey (e_RequesterID e) (e_CreateIdempotencyKey e) in
  let! existing := byKey in
  match existing with
  | Some row => let! stored := lift (errandFromRow row) in ret (stored, false)
  | None =>
      do! checkFence (er_SupplierID params);
      do! (λ db, Ok (tt, between db));
      let! inserted := InsertErrand params in
      match inserted with
      | None =>
          let! existing := byKey in
          match existing with
          | None => plain "no rows in result set"
          | Some row => let! stored := lift (errandFromRow row) in ret (stored, false)
          end
      | Some row =>
          let! stored := lift (errandFromRow row) in
          do! writeTransitionRows clock e stored t;
          ret (stored, true)
      end
  end.

Definition Create (clock : Z) (between : ODB → ODB) (e : Errand) (t : Transition) : Op (Errand * bool) :=
  if negb (bool_decide (e_Status e = StatusNone)) || negb (bool_decide (t_Event t = EventSubmit))
     || negb (bool_decide (t_From t = StatusNone)) || negb (bool_decide (t_ErrandID t = e_ID e))
  then appErr InvalidArgument
  else if bool_decide (e_CreateIdempotencyKey e = "") then appErr InvalidArgument
  else let! params := lift (insertParams (ApplyTo t e)) in Create_tx clock between e t params.

Definition compareAndSwap (cur : Errand) (t : Transition) : Op unit :=
  if negb (bool_decide (e_Status cur = t_From t)) then appErr ErrandUnavailable
  else
    let curKey := match e_PendingEdit cur with Some p => pe_Key p | None => "" end in
    if negb (e_Version cur =? t_ExpectedVersion t)
       || negb (bool_decide (curKey = t_ExpectedPendingEditKey t))
    then appErr ErrandChanged else ret tt.

Definition editTargetSupplier (cur : Errand) (t : Transition) : option string :=
  if negb (bool_decide (t_Event t = EventEdit)) then None
  else
    let to := match c_Details (t_Changes t), u_Value (c_PendingEdit (t_Changes t)) with
              | Some d, _ => d_SupplierID d
              | None, Some p => d_SupplierID (pe_Details p)
              | None, None => ""
              end in
    if negb (bool_decide (to = "")) && negb (bool_decide (to = d_SupplierID (e_Details cur)))
    then Some to else None.

Definition applyLocked (clock : Z) (cur : Errand) (t : Transition) : Op Errand :=
  do! compareAndSwap cur t;
  do! match editTargetSupplier cur t with
      | Some to => let! id := lift (parseUUID to) in checkFence id
      | None => ret tt
      end;
  let! params := lift (updateParams (ApplyTo t cur) t) in
  let! updated := UpdateErrand params in
  match updated with
  | None => plain "compare-and-swap on locked errand matched no row"
  | Some row =>
      let! stored := lift (errandFromRow row) in
      do! writeTransitionRows clock cur stored t;
      ret stored
  end.

Definition Apply (clock : Z) (t : Transition) : Op Errand :=
  if bool_decide (t_From t = StatusNone) then appErr InvalidArgument
  else match toUUID (t_ErrandID t) with
  | None => notFound
  | Some id =>
      let! found := GetErrandForUpdate id in
      match found with
      | None => notFound
      | Some row => let! cur := lift (errandFromRow row) in applyLocked clock cur t
      end
  end.

Definition RecordRejection (clock : Z) (r : Rejection) : Op unit :=
  if negb (action_valid (rj_Action r)) then appErr InvalidArgument
  else if bool_decide (rj_RequestID r = "") then appErr InvalidArgument
  else match toUUID (rj_ErrandID r) with
  | None => notFound
  | Some id =>
      let! found := GetErrand id in
      match found with
      | None => notFound
      | Some row =>
          match enc_rejection r (er_Version row) (er_Status row) with
          | None => plain "encode rejection"
          | Some payload =>
              do! InsertOutboxIfAbsent clock (rejection_kind (rj_Action r))
                    (RejectionKey (rj_ErrandID r) (rj_Action r) (rj_RequestID r)) id payload;
              ret tt
          end
      end
  end.

(** ** Reads *)

Definition Get (id : string) : Op Errand :=
  match toUUID id with
  | None => notFound
  | Some u =>
      let! found := GetErrand u in
      match found with
      | None => notFound
      | Some row => lift (errandFromRow row)
      end
  end.

Record CourierHistoryResult := mkCourierHistory { ch_WithdrewFromErrand : bool; ch_WithdrawalsSince : Z }.

Definition is_withdrawal (courier : string) (r : TransitionRow) : bool :=
  bool_decide (tr_CourierID r = Some courier)
  && (bool_decide (tr_Event r = EventWithdraw) || bool_decide (tr_Event r = EventPickupDeadlinePassed)).

Definition CourierHistory (errandID courierID : string) (since : Z) : Op CourierHistoryResult :=
  λ db,
    let rows := List.filter (is_withdrawal courierID) (db_transitions db) in
    let mine r := match toUUID errandID with Some u => bool_decide (tr_ErrandID r = u) | None => false end in
    Ok (mkCourierHistory (existsb mine rows)
          (Z.of_nat (length (List.filter (λ r, stored_time since <=? tr_At r) rows))), db).

(** ** ClaimDue *)

(** [DueAt] *)
Definition DueAt (k : DueKind) (e : Errand) : option Z :=
  let at_ status t := if bool_decide (e_Status e = status) then t else None in
  match k with
  | AcceptanceExpiry => at_ StatusOpen (Some (d_AcceptanceDeadline (e_Details e)))
  | DuePickup => at_ StatusAssigned (e_PickupDeadline e)
  | DueDelivery => at_ StatusPickedUp (e_DeliveryDeadline e)
  | VerificationLapse => at_ StatusDelivered (e_VerificationDeadline e)
  | StuckReservation => at_ StatusPendingReservation (Some (e_CreatedAt e))
  | StuckEdit => match e_PendingEdit e with Some p => Some (pe_At p) | None => None end
  end.

Definition Due (k : DueKind) (e : Errand) (now : Z) : bool :=
  match DueAt k e with Some at_ => at_ <=? now | None => false end.

(** The column and predicate of each claim query. *)
Definition due_column (k : DueKind) (r : ErrandRow) : option Z :=
  let at_ status t := if bool_decide (er_Status r = status) then t else None in
  match k with
  | AcceptanceExpiry => at_ StatusOpen (Some (er_AcceptanceDeadline r))
  | DuePickup => at_ StatusAssigned (er_PickupDeadline r)
  | DueDelivery => at_ StatusPickedUp (er_DeliveryDeadline r)
  | VerificationLapse => at_ StatusDelivered (er_VerificationDeadline r)
  | StuckReservation => at_ StatusPendingReservation (Some (er_CreatedAt r))
  | StuckEdit => match er_PendingEdit r with Some _ => er_PendingEditAt r | None => None end
  end.

Definition row_due (k : DueKind) (now : Z) (r : ErrandRow) : bool :=
  match due_column k r with Some at_ => at_ <=? stored_time now | None => false end.

(** [ORDER BY column, id] *)
Definition column_le (k : DueKind) (r r' : ErrandRow) : Prop :=
  let at_ r := default 0 (due_column k r) in
  at_ r < at_ r' ∨ (at_ r = at_ r' ∧ String.leb (er_ID r) (er_ID r') = true).
#[export] Instance column_le_dec k r r' : Decision (column_le k r r').
Proof. unfold column_le. apply _. Defined.

(** The claim query; [skip] holds the rows other transactions have locked. *)
Definition claim_query (k : DueKind) (skip : string → bool) (now limit : Z) (db : ODB) : list ErrandRow :=
  take (Z.to_nat limit) (merge_sort (column_le k)
    (snd <$> scan (λ r, row_due k now r && negb (skip (er_ID r))) (db_errands db))).

(** The transitions [decide] chose, in order, and every errand it saw. *)
Fixpoint decide_batch (decide : Errand → res Failure (option Transition)) (batch : list Errand)
    (locked : gmap string Errand) : res Failure (list Transition * gmap string Errand) :=
  match batch with
  | [] => Ok ([], locked)
  | e :: batch' =>
      match decide e with
      | Err err => Err err
      | Ok choice =>
          match decide_batch decide batch' (<[e_ID e := e]> locked) with
          | Err err => Err err
          | Ok (ts, locked') => Ok (match choice with Some t => t :: ts | None => ts end, locked')
          end
      end
  end.

(** A plain error that wraps [err] keeps its code visible to [errors.As]. *)
Fixpoint apply_batch (clock : Z) (decided : list Transition) (locked : gmap string Errand) : Op unit :=
  match decided with
  | [] => ret tt
  | t :: decided' =>
      match locked !! t_ErrandID t with
      | None => plain "transition for an errand not in the batch"
      | Some cur =>
          if bool_decide (t_From t = StatusNone) then appErr InvalidArgument
          else
            let! stored := applyLocked clock cur t in
            apply_batch clock decided' (<[t_ErrandID t := stored]> locked)
      end
  end.

Definition ClaimDue (clock : Z) (k : DueKind) (skip : string → bool) (now limit : Z)
    (decide : Errand → res Failure (option Transition)) : Op Z :=
  if limit <? 1 then appErr InvalidArgument
  else
    let! rows := (λ db, Ok (claim_query k skip now (rowLimit limit) db, db)) in
    let! batch := lift (errandsFromRows rows) in
    let! choice := lift (decide_batch decide batch ∅) in
    let '(decided, locked) := choice in
    do! apply_batch clock decided locked;
    ret (Z.of_nat (length decided)).

End store.
