(* ===== verification/Fence.v ===== *)
(** * order-service: supplier deletion fences

    [internal/database/opsrepo] (the fence, count and audit statements) and
    [internal/fence/service.go]: [Acquire], [Inspect], [Commit], [Release].
    [Acquire] holds the exclusive advisory lock of the supplier, so no
    transaction that checked the supplier's fence is between its check and its
    commit. *)

From S2P Require Import Prelude GoText Json GoTime Errand ErrandState ErrandJson ErrandStore.

(** The sentinels of [opsrepo]. *)
Inductive OpsError :=
| OpsNotFound | OpsInvalidArgument | OpsFenceSupplierMismatch | OpsFenceStateConflict
| OpsOther (what : string).

(** ** opsrepo *)

Section opsrepo.
Context `{Postgres}.

Abbreviation OpsOp := (M ODB OpsError).

Definition ops_parseUUID (value : string) : OpsOp string :=
  match toUUID value with Some u => ret u | None => fail OpsInvalidArgument end.

(** The exclusive lock is held until the transaction ends. *)
Definition LockSupplier (supplierID : string) : OpsOp unit :=
  let! _id := ops_parseUUID supplierID in ret tt.

(** [ON CONFLICT (operation_id) DO NOTHING]: whether a row was inserted. *)
Definition InsertFence (op supplier : string) : OpsOp bool :=
  λ db, match db_fences db !! op with
        | Some _ => Ok (false, db)
        | None => Ok (true, set_fences (<[op := mkFenceRow op supplier FenceOpen]> (db_fences db)) db)
        end.

Definition sql_GetFence (op : string) : OpsOp FenceRow :=
  λ db, match db_fences db !! op with Some f => Ok (f, db) | None => Err OpsNotFound end.

Definition CreateFence (operationID supplierID : string) : OpsOp (FenceRow * bool) :=
  let! opID := ops_parseUUID operationID in
  let! supID := ops_parseUUID supplierID in
  let! inserted := InsertFence opID supID in
  let! row := sql_GetFence opID in
  if negb (bool_decide (fr_SupplierID row = supID)) then fail OpsFenceSupplierMismatch
  else ret (row, inserted).

Definition GetFence (operationID : string) : OpsOp FenceRow :=
  let! opID := ops_parseUUID operationID in sql_GetFence opID.

(** [UPDATE ... WHERE operation_id = $1 AND state = 'OPEN' RETURNING ...] *)
Definition sql_CloseFence (op : string) (state : FenceState) : OpsOp (option FenceRow) :=
  λ db, match db_fences db !! op with
        | Some f =>
            if bool_decide (fr_State f = FenceOpen) then
              let f' := mkFenceRow (fr_OperationID f) (fr_SupplierID f) state in
              Ok (Some f', set_fences (<[op := f']> (db_fences db)) db)
            else Ok (None, db)
        | None => Ok (None, db)
        end.

Definition CloseFence (operationID : string) (state : FenceState) : OpsOp FenceRow :=
  if negb (bool_decide (state = FenceCommitted)) && negb (bool_decide (state = FenceReleased))
  then fail OpsInvalidArgument
  else
    let! opID := ops_parseUUID operationID in
    let! closed := sql_CloseFence opID state in
    match closed with
    | Some row => ret row
    | None =>
        let! current := GetFence operationID in
        if bool_decide (fr_State current = state) then ret current else fail OpsFenceStateConflict
    end.

(** [pending_edit->>'supplierId'], of a document [insertParams] wrote. *)
Definition pending_supplier (v : json) : option string :=
  match v with
  | JObj ms =>
      match List.find (λ kv, bool_decide (kv.1 = "supplierId")) ms with
      | Some (_, JStr s) => Some s
      | _ => None
      end
  | _ => None
  end.

(** Whether an active errand counts towards the supplier; [None] is the
    server refusing the cast to [uuid]. *)
Definition counts (supplier : string) (r : ErrandRow) : option bool :=
  if negb (Active (er_Status r)) then Some false
  else if bool_decide (er_SupplierID r = supplier) then Some true
  else match er_PendingEdit r with
       | None => Some false
       | Some v =>
           match pending_supplier v with
           | None => Some false
           | Some s => match uuid_cast s with
                       | Some u => Some (bool_decide (u = supplier))
                       | None => None
                       end
           end
       end.

Definition sql_CountActive (supplier : string) (db : ODB) : res OpsError Z :=
  let rows := snd <$> map_to_list (db_errands db) in
  if existsb (λ r, bool_decide (counts supplier r = None)) rows then Err OpsInvalidArgument
  else Ok (Z.of_nat (length (List.filter (λ r, bool_decide (counts supplier r = Some true)) rows))).

Definition CountActiveErrandsForSupplier (supplierID : string) : OpsOp Z :=
  let! id := ops_parseUUID supplierID in
  λ db, match sql_CountActive id db with Ok n => Ok (n, db) | Err e => Err e end.

Definition InsertAudit (r : AuditRow) : OpsOp unit :=
  λ db,
    if bool_decide (au_ActorID r = "") || bool_decide (au_Action r = "")
       || bool_decide (au_TargetType r = "") || bool_decide (au_TargetID r = "")
    then Err OpsInvalidArgument
    else Ok (tt, set_audit (db_audit db ++ [r]) db).

(** ** service.go *)

Record Fence := mkFence {
  fc_OperationID : string; fc_SupplierID : string; fc_State : FenceState; fc_HasActiveErrands : bool }.

(** [withActiveErrands]; the wire states correspond one to one. *)
Definition withActiveErrands (stored : FenceRow) : OpsOp Fence :=
  let! count := CountActiveErrandsForSupplier (fr_SupplierID stored) in
  ret (mkFence (fr_OperationID stored) (fr_SupplierID stored) (fr_State stored) (0 <? count)).

Definition audit (actor action operationID : string) (outcome : AuditOutcome) (reason : string) : OpsOp unit :=
  InsertAudit (mkAuditRow actor action "supplier_fence" operationID (text reason) outcome).

Definition classify (err : OpsError) : Failure :=
  match err with
  | OpsFenceSupplierMismatch => FApp (mkAppError InvalidArgument [])
  | OpsFenceStateConflict => FApp (mkAppError InvalidTransition [])
  | OpsNotFound => FApp (mkAppError FenceNotFound [])
  | OpsInvalidArgument => FApp (mkAppError InvalidArgument [])
  | OpsOther w => FPlain w
  end.

(** [refuse]: a refusal is audited outside the transaction. *)
Definition refuse (actor action operationID : string) (err : OpsError) (db : ODB) : res Failure Fence * ODB :=
  let classified := classify err in
  match classified with
  | FApp e => (Err classified,
               match audit actor action operationID AuditRejected (Code_string (ae_Code e)) db with
               | Ok (_, db') => db'
               | Err _ => db
               end)
  | FPlain _ => (Err classified, db)
  end.

Definition acquire_tx (actor operationID supplierID : string) : OpsOp Fence :=
  do! LockSupplier supplierID;
  let! created := CreateFence operationID supplierID in
  let! result := withActiveErrands created.1 in
  do! audit actor "supplier_fence.acquire" operationID AuditSucceeded "";
  ret result.

Definition Acquire (actor operationID supplierID : string) (db : ODB) : res Failure Fence * ODB :=
  match inTx (acquire_tx actor operationID supplierID) db with
  | (Ok f, db') => (Ok f, db')
  | (Err e, db') => refuse actor "supplier_fence.acquire" operationID e db'
  end.

Definition Inspect (operationID : string) (db : ODB) : res Failure Fence :=
  match bind (GetFence operationID) withActiveErrands db with
  | Ok (f, _) => Ok f
  | Err e => Err (classify e)
  end.

Definition close_tx (actor action operationID : string) (state : FenceState) : OpsOp Fence :=
  let! stored := CloseFence operationID state in
  let! result := withActiveErrands stored in
  do! audit actor action operationID AuditSucceeded "";
  ret result.

Definition close (actor action operationID : string) (state : FenceState) (db : ODB) :
    res Failure Fence * ODB :=
  match inTx (close_tx actor action operationID state) db with
  | (Ok f, db') => (Ok f, db')
  | (Err e, db') => refuse actor action operationID e db'
  end.

Definition Commit (actor operationID : string) : ODB → res Failure Fence * ODB :=
  close actor "supplier_fence.commit" operationID FenceCommitted.

Definition ReleaseFence (actor operationID : string) : ODB → res Failure Fence * ODB :=
  close actor "supplier_fence.release" operationID FenceReleased.

End opsrepo.
