(* ===== verification/OpsRepo.v ===== *)
(** * order-service: reviews, history, counts and reminders in the database

    The rest of [internal/database/opsrepo]: the open reviews, the event log
    and the activity counts the administrators read, the count of a user's
    active errands, and the reminder rows of the scheduler.  The IDs of
    [bigserial] columns are given by [RowIds]: the n-th row of a table has
    some ID of its own; they need not follow the order of the commits. *)

From S2P Require Import Prelude Keyset GoText Json GoTime Errand ErrandState ErrandJson ErrandStore Fence.

(** ** Generated IDs *)

Class RowIds := { review_id : nat → Z; transition_id : nat → Z }.

Class RowIdsOk `{RowIds} : Prop := {
  review_id_inj : Inj (=) (=) review_id;
  review_id_pos n : 0 < review_id n;
  transition_id_inj : Inj (=) (=) transition_id;
  transition_id_pos n : 0 < transition_id n;
}.

(** The n-th row of a fresh table. *)
Definition serial : RowIds := {| review_id n := Z.of_nat n + 1; transition_id n := Z.of_nat n + 1 |}.

Lemma serial_ok : @RowIdsOk serial.
Proof. split; simpl; [intros i j ?; lia|lia|intros i j ?; lia|lia]. Qed.

(** The collation of the database, which orders text columns. *)
Class Collation := { text_le : relation string; text_le_dec :: RelDecision text_le }.

(** The collation ["C"]. *)
Definition bytewise : Collation := {| text_le := String.le; text_le_dec := _ |}.

Section opsrepo.
Context `{Postgres, RowIds, Collation}.

Abbreviation OpsOp := (M ODB OpsError).

Definition with_ids {A} (id : nat → Z) (l : list A) : list (Z * A) := imap (λ i a, (id i, a)) l.

Definition MaxPageSize : Z := 200.

Definition ops_checkLimit (limit : Z) : res OpsError unit :=
  if (limit <=? 0) || (MaxPageSize <? limit) then Err OpsInvalidArgument else Ok tt.

Definition ops_lift {A} (r : res OpsError A) : OpsOp A :=
  match r with Ok a => ret a | Err e => fail e end.

(** [timestamp]: the zero time is NULL. *)
Definition timestamp (t : Z) : option Z := if IsZero t then None else Some (stored_time t).

(** ** reviews.go *)

Record ReviewedErrand := mkReviewedErrand {
  re_Status : Status; re_Version : Z; re_RequesterID : string; re_CourierID : string; re_SupplierID : string;
  re_Reward : Z; re_DeliveryDeadline : option Z; re_DeliveredAt : option Z; re_UpdatedAt : Z }.

Record OpenReviewRow := mkOpenReviewRow {
  orv_ID : Z; orv_ErrandID : string; orv_Reason : ReviewReason; orv_ReporterID : string; orv_Note : string;
  orv_CreatedAt : Z; orv_Errand : ReviewedErrand }.

Definition reviewed_errand (e : ErrandRow) : ReviewedErrand :=
  mkReviewedErrand (er_Status e) (er_Version e) (er_RequesterID e) (default "" (er_CourierID e)) (er_SupplierID e)
    (er_Reward e) (er_DeliveryDeadline e) (er_DeliveredAt e) (er_UpdatedAt e).

(** The rows of [errand_reviews r JOIN errands e] with no resolution. *)
Definition open_review_rows (db : ODB) : list OpenReviewRow :=
  omap (λ '(id, r),
    match rv_Resolution r, db_errands db !! rv_ErrandID r with
    | None, Some e =>
        Some (mkOpenReviewRow id (rv_ErrandID r) (rv_Reason r) (default "" (rv_ReporterID r))
                (default "" (rv_Note r)) (rv_CreatedAt r) (reviewed_errand e))
    | _, _ => None
    end) (with_ids review_id (db_reviews db)).

Definition ListOpenReviews (afterID limit : Z) : OpsOp (list OpenReviewRow) :=
  do! ops_lift (ops_checkLimit limit);
  λ db, Ok (keyset Z.le orv_ID (if 0 <? afterID then Some afterID else None) (Z.to_nat limit)
              (open_review_rows db), db).

(** ** transitions.go *)

(** The pointers and empty strings of [Transition] stand for NULL. *)
Record TransitionView := mkTransitionView {
  tv_ID : Z; tv_ErrandID : string; tv_FromStatus : Status; tv_ToStatus : Status; tv_Event : Event;
  tv_ActorType : ActorType; tv_ActorID : string; tv_CourierID : string; tv_Reason : string;
  tv_ErrandVersion : Z; tv_At : Z }.

Record TransitionCursor := mkTransitionCursor { tc_At : Z; tc_ID : Z }.

Record TransitionFilter := mkTransitionFilter {
  tf_ErrandID : string; tf_UserID : string; tf_ToStatus : Status; tf_From : Z; tf_To : Z;
  tf_Before : option TransitionCursor; tf_Limit : Z }.

Definition transition_of (r : Z * TransitionRow) : TransitionView :=
  mkTransitionView r.1 (tr_ErrandID r.2) (default StatusNone (tr_FromStatus r.2)) (tr_ToStatus r.2) (tr_Event r.2)
    (tr_ActorType r.2) (default "" (tr_ActorID r.2)) (default "" (tr_CourierID r.2)) (default "" (tr_Reason r.2))
    (tr_ErrandVersion r.2) (tr_At r.2).

(** [t.at >= from AND t.at < to], an unset bound being infinite. *)
Definition in_period (from to : Z) (r : TransitionRow) : bool :=
  (IsZero from || (stored_time from <=? tr_At r)) && (IsZero to || (tr_At r <? stored_time to)).

Definition to_status (s : Status) (r : TransitionRow) : bool :=
  bool_decide (s = StatusNone) || bool_decide (tr_ToStatus r = s).

Definition caused_by (user : string) (r : TransitionRow) : bool := bool_decide (tr_ActorID r = Some user).
Definition courier_was (user : string) (r : TransitionRow) : bool := bool_decide (tr_CourierID r = Some user).

Definition requester_is (user : string) (db : ODB) (r : TransitionRow) : bool :=
  match db_errands db !! tr_ErrandID r with
  | Some e => bool_decide (er_RequesterID e = user)
  | None => false
  end.

Definition transition_key (r : Z * TransitionRow) : Z * Z := (tr_At r.2, r.1).

(** [WHERE ... AND (t.at, t.id) < (cursor_at, cursor_id)
     ORDER BY t.at DESC, t.id DESC LIMIT n]; a NULL cursor time matches no row. *)
Definition newest_first (P : TransitionRow → bool) (before : option TransitionCursor) (limit : Z) (db : ODB) :
    list (Z * TransitionRow) :=
  let rows := List.filter (λ r, P r.2) (with_ids transition_id (db_transitions db)) in
  let page after := keyset (lex_ge Z.le) transition_key after (Z.to_nat limit) rows in
  match before with
  | None => page None
  | Some c => match timestamp (tc_At c) with Some t => page (Some (t, tc_ID c)) | None => [] end
  end.

(** [WHERE t.errand_id = $1 ... AND (user_id IS NULL OR ...)] *)
Definition ListTransitionsByErrand (id user : string) (f : TransitionFilter) (db : ODB) : list (Z * TransitionRow) :=
  newest_first (λ r, bool_decide (tr_ErrandID r = id) && in_period (tf_From f) (tf_To f) r
                     && to_status (tf_ToStatus f) r
                     && (bool_decide (user = "") || caused_by user r || courier_was user r || requester_is user db r))
    (tf_Before f) (tf_Limit f) db.

(** The errands the user accepted, from the user's own accept rows. *)
Definition accepted_errands (user : string) (db : ODB) : list string :=
  tr_ErrandID <$> List.filter (λ x, caused_by user x && bool_decide (tr_Event x = EventAccept)) (db_transitions db).

Definition ListTransitionsByUser (user : string) (f : TransitionFilter) (db : ODB) : list (Z * TransitionRow) :=
  newest_first (λ r, (caused_by user r || requester_is user db r
                      || (courier_was user r && bool_decide (tr_ErrandID r ∈ accepted_errands user db)))
                     && in_period (tf_From f) (tf_To f) r && to_status (tf_ToStatus f) r)
    (tf_Before f) (tf_Limit f) db.

Definition ListTransitionsByType (status : Status) (f : TransitionFilter) (db : ODB) : list (Z * TransitionRow) :=
  newest_first (λ r, bool_decide (tr_ToStatus r = status) && in_period (tf_From f) (tf_To f) r)
    (tf_Before f) (tf_Limit f) db.

Definition ListTransitionsByTime (f : TransitionFilter) (db : ODB) : list (Z * TransitionRow) :=
  newest_first (in_period (tf_From f) (tf_To f)) (tf_Before f) (tf_Limit f) db.

Definition ListTransitions (f : TransitionFilter) : OpsOp (list TransitionView) :=
  do! ops_lift (ops_checkLimit (tf_Limit f));
  if negb (bool_decide (tf_ToStatus f = StatusNone)) && negb (Valid (tf_ToStatus f)) then fail OpsInvalidArgument
  else
    let! rows :=
      if negb (bool_decide (tf_ErrandID f = "")) then
        let! id := ops_parseUUID (tf_ErrandID f) in
        λ db, Ok (ListTransitionsByErrand id (tf_UserID f) f db, db)
      else if negb (bool_decide (tf_UserID f = "")) then λ db, Ok (ListTransitionsByUser (tf_UserID f) f db, db)
      else if negb (bool_decide (tf_ToStatus f = StatusNone)) then
        λ db, Ok (ListTransitionsByType (tf_ToStatus f) f db, db)
      else λ db, Ok (ListTransitionsByTime f db, db) in
    ret (transition_of <$> rows).

(** ** activity.go *)

Definition MaxActivityRows : Z := 500.

Record ActivityCount := mkActivityCount { ac_UserID : string; ac_Count : Z }.

Definition checkActivityArgs (since minCount limit : Z) : res OpsError unit :=
  if IsZero since || (minCount <? 1) || (limit <? 1) || (MaxActivityRows <? limit) then Err OpsInvalidArgument
  else Ok tt.

(** [GROUP BY user HAVING count >= min ORDER BY count DESC, user LIMIT n] *)
Definition count_of (users : list string) (user : string) : Z :=
  Z.of_nat (length (List.filter (λ u, bool_decide (u = user)) users)).

Definition activity_le (a b : ActivityCount) : Prop :=
  ac_Count b < ac_Count a ∨ (ac_Count a = ac_Count b ∧ text_le (ac_UserID a) (ac_UserID b)).
#[export] Instance activity_le_dec : RelDecision activity_le.
Proof. intros a b. unfold activity_le. apply _. Defined.

Definition activity (users : list string) (minCount limit : Z) : list ActivityCount :=
  take (Z.to_nat limit) (merge_sort activity_le
    (List.filter (λ a, minCount <=? ac_Count a)
       ((λ u, mkActivityCount u (count_of users u)) <$> remove_dups users))).

Definition withdrawal_users (since : Z) (db : ODB) : list string :=
  omap (λ r, if (bool_decide (tr_Event r = EventWithdraw) || bool_decide (tr_Event r = EventPickupDeadlinePassed))
                && (stored_time since <=? tr_At r)
             then tr_CourierID r else None) (db_transitions db).

Definition cancellation_users (since : Z) (db : ODB) : list string :=
  omap (λ r, if bool_decide (tr_ToStatus r = StatusCancelled) && bool_decide (tr_Event r = EventCancel)
                && bool_decide (tr_ActorType r = ActorRequester) && (stored_time since <=? tr_At r)
             then tr_ActorID r else None) (db_transitions db).

Definition ListWithdrawalCounts (since minCount limit : Z) : OpsOp (list ActivityCount) :=
  do! ops_lift (checkActivityArgs since minCount limit);
  λ db, Ok (activity (withdrawal_users since db) minCount limit, db).

Definition ListCancellationCounts (since minCount limit : Z) : OpsOp (list ActivityCount) :=
  do! ops_lift (checkActivityArgs since minCount limit);
  λ db, Ok (activity (cancellation_users since db) minCount limit, db).

(** ** users.go *)

Record ActiveErrandCounts := mkActiveErrandCounts { an_AsRequester : Z; an_AsCourier : Z }.

Definition CountActiveErrandsForUser (userID : string) : OpsOp ActiveErrandCounts :=
  if bool_decide (userID = "") then fail OpsInvalidArgument
  else λ db,
    let active := snd <$> scan (λ r, Active (er_Status r)) (db_errands db) in
    let count P := Z.of_nat (length (List.filter P active)) in
    Ok (mkActiveErrandCounts (count (λ r, bool_decide (er_RequesterID r = userID)))
          (count (λ r, bool_decide (er_CourierID r = Some userID))), db).

(** ** reminders.go *)

Inductive ReminderKind := ReminderVerification | ReminderPickup.

(** [ErrandVerificationReminder.Kind()], [ErrandPickupDeadlineApproaching.Kind()] *)
Definition reminder_kind (k : ReminderKind) : string :=
  match k with
  | ReminderVerification => "event.errand.verification_reminder"
  | ReminderPickup => "event.errand.pickup_deadline_approaching"
  end.

(** The last part of the key, as the queries spell it. *)
Definition reminder_operation (k : ReminderKind) : string :=
  match k with ReminderVerification => "verify-reminder" | ReminderPickup => "pickup-reminder" end.

Record ReminderData := mkReminderData {
  rd_ErrandID : string; rd_ErrandVersion : Z; rd_Status : Status; rd_RequesterID : string; rd_CourierID : string;
  rd_Deadline : Z; rd_At : Z }.

Definition enc_reminder (d : ReminderData) : option json :=
  match format_rfc3339 (rd_Deadline d), format_rfc3339 (rd_At d) with
  | Some deadline, Some at_ =>
      Some (JObj [("errandId", JStr (rd_ErrandID d)); ("errandVersion", JInt (rd_ErrandVersion d));
                  ("status", JStr (Status_string (rd_Status d))); ("requesterId", JStr (rd_RequesterID d));
                  ("courierId", JStr (rd_CourierID d)); ("deadline", JStr deadline); ("at", JStr at_)])
  | _, _ => None
  end.

(** An [errand.OutboxRow] with a reminder's payload. *)
Record ReminderRow := mkReminderRow {
  rm_Kind : string; rm_IdempotencyKey : string; rm_ErrandID : string; rm_Payload : ReminderData }.

Definition isReminderKind (kind : string) : bool :=
  bool_decide (kind = reminder_kind ReminderVerification) || bool_decide (kind = reminder_kind ReminderPickup).

Definition reminderParams (row : ReminderRow) : res OpsError (string * json) :=
  if negb (isReminderKind (rm_Kind row)) then Err OpsInvalidArgument
  else if bool_decide (rm_IdempotencyKey row = "") then Err OpsInvalidArgument
  else match toUUID (rm_ErrandID row), enc_reminder (rm_Payload row) with
       | Some id, Some payload => Ok (id, payload)
       | _, _ => Err OpsInvalidArgument
       end.

(** [ON CONFLICT (idempotency_key) DO NOTHING]; a missing errand violates the
    foreign key. *)
Definition sql_InsertReminder (clock : Z) (kind key errand : string) (payload : json) : OpsOp Z :=
  λ db, match InsertOutboxIfAbsent clock kind key errand payload db with
        | Ok r => Ok r
        | Err _ => Err (if errand_exists errand db then OpsInvalidArgument else OpsNotFound)
        end.

Definition InsertReminder (clock : Z) (row : ReminderRow) : OpsOp bool :=
  let! params := ops_lift (reminderParams row) in
  let! affected := sql_InsertReminder clock (rm_Kind row) (rm_IdempotencyKey row) params.1 params.2 in
  ret (affected =? 1).

(** [SELECT ... FROM errands e WHERE e.id = $1 AND e.status = $2 AND
    e.version = $3 FOR SHARE OF e]: a transition in progress is waited for, so
    the row is the one committed last. *)
Definition sql_InsertCurrentReminder (clock : Z) (kind key errand : string) (payload : json) (status : Status)
    (version : Z) : OpsOp Z :=
  λ db, match db_errands db !! errand with
        | Some r =>
            if bool_decide (er_Status r = status) && (er_Version r =? version)
            then sql_InsertReminder clock kind key errand payload db
            else Ok (0, db)
        | None => Ok (0, db)
        end.

Definition InsertCurrentReminder (clock : Z) (row : ReminderRow) (status : Status) (version : Z) : OpsOp bool :=
  let! params := ops_lift (reminderParams row) in
  let! affected := sql_InsertCurrentReminder clock (rm_Kind row) (rm_IdempotencyKey row) params.1 params.2 status
                     (wrap32 version) in
  ret (affected =? 1).

(** The row of a reminder; its key names the errand and the version. *)
Definition reminder_row (k : ReminderKind) (d : ReminderData) : ReminderRow :=
  mkReminderRow (reminder_kind k) (IdempotencyKey (rd_ErrandID d) (reminder_operation k) (rd_ErrandVersion d))
    (rd_ErrandID d) d.

Record ReminderCandidate := mkReminderCandidate {
  rc_ErrandID : string; rc_Version : Z; rc_Status : Status; rc_RequesterID : string; rc_CourierID : string;
  rc_Deadline : Z }.

(** The state a reminder is for, and its deadline. *)
Definition reminder_status (k : ReminderKind) : Status :=
  match k with ReminderVerification => StatusDelivered | ReminderPickup => StatusAssigned end.
Definition reminder_deadline (k : ReminderKind) (r : ErrandRow) : option Z :=
  match k with ReminderVerification => er_VerificationDeadline r | ReminderPickup => er_PickupDeadline r end.

Definition reminder_key (k : ReminderKind) (id : string) (version : Z) : string :=
  id +:+ ":" +:+ reminder_operation k +:+ ":" +:+ itoa version.

Definition candidate (k : ReminderKind) (now remindBefore : Z) (db : ODB) (r : ErrandRow) : bool :=
  bool_decide (er_Status r = reminder_status k)
  && match reminder_deadline k r, timestamp now, timestamp remindBefore with
     | Some d, Some n, Some b => (n <? d) && (d <=? b)
     | _, _, _ => false
     end
  && negb (existsb (λ kv, has_key (reminder_key k (er_ID r) (er_Version r)) kv.2) (map_to_list (db_outbox db))).

Definition candidate_of (k : ReminderKind) (r : ErrandRow) : ReminderCandidate :=
  mkReminderCandidate (er_ID r) (er_Version r) (er_Status r) (er_RequesterID r) (default "" (er_CourierID r))
    (default zero_time (reminder_deadline k r)).

Definition ListReminderCandidates (k : ReminderKind) (now remindBefore limit : Z) : OpsOp (list ReminderCandidate) :=
  do! ops_lift (ops_checkLimit limit);
  λ db, Ok (candidate_of k <$>
              keyset pos_le (λ r, (default zero_time (reminder_deadline k r), er_ID r)) None (Z.to_nat limit)
                (snd <$> scan (candidate k now remindBefore db) (db_errands db)), db).

End opsrepo.
