(* ===== verification/StoreInv.v ===== *)
(** * order-service: the invariant of the errand store

    What an errand reads back as after it was written ([canon]).  Rows read
    back as consistent errands, idempotency keys belong to the errand that
    emitted them, and an errand has an open review exactly while it is under
    review.  Every statement of a transition keeps this. *)

From S2P Require Import Prelude GoText Json GoTime Errand ErrandState ErrandJson ErrandInv ErrandStore Fence.

Section rows.
Context `{Hpg : Postgres, Hpgok : !PostgresOk}.

Definition canon_id (s : string) : string := default s (toUUID s).

Definition canon_details (d : Details) : Details :=
  mkDetails (canon_id (d_SupplierID d)) (canon_id (d_SupplierVersionID d))
    (canon_id (d_DeliveryBuildingID d)) (d_DeliveryBuildingSnapshot d) (d_DeliveryDetail d)
    (d_Items d) (d_Notes d) (d_ContactName d) (d_ContactMobile d) (d_Reward d)
    (stored_time (d_AcceptanceDeadline d)).

Definition canon_pending (p : PendingEdit) : PendingEdit :=
  mkPendingEdit (normal_details (pe_Details p)) (pe_Key p) (stored_time (pe_At p)).

(** The errand [e] as it is read back. *)
Definition canon (e : Errand) : Errand :=
  mkErrand (canon_id (e_ID e)) (e_Status e) (e_Version e) (e_RequesterID e) (e_CourierID e)
    (canon_details (e_Details e)) (stored_time <$> e_PickupDeadline e)
    (stored_time <$> e_DeliveryDeadline e) (stored_time <$> e_DeliveredAt e)
    (stored_time <$> e_VerificationDeadline e) (e_ReviewReason e) (e_CreateIdempotencyKey e)
    (canon_pending <$> e_PendingEdit e) (stored_time (e_CreatedAt e)) (stored_time (e_UpdatedAt e)).

(** The errand can be stored: its numbers fit their columns. *)
Definition in_range (e : Errand) : Prop :=
  0 ≤ e_Version e ≤ max_int32 ∧ 0 ≤ d_Reward (e_Details e) ≤ max_int32 ∧
  ∀ p, e_PendingEdit e = Some p → in_int64 (d_Reward (pe_Details p)).

Lemma wrap32_id x : 0 ≤ x ≤ max_int32 → wrap32 x = x.
Proof. unfold wrap32, max_int32. intros. rewrite Z.mod_small; lia. Qed.

Lemma text_default s : default "" (text s) = s.
Proof. unfold text. by case_bool_decide. Qed.

(** What [insertParams] checked. *)
Lemma insertParams_inv e row :
  insertParams e = Ok row →
  er_ID row = canon_id (e_ID e) ∧ toUUID (e_ID e) = Some (er_ID row) ∧
  toUUID (d_SupplierID (e_Details e)) = Some (er_SupplierID row) ∧
  er_Status row = e_Status e ∧ er_RequesterID row = e_RequesterID e ∧
  er_CreateIdempotencyKey row = e_CreateIdempotencyKey e ∧
  d_Reward (e_Details e) ≤ max_int32 ∧ e_Version e ≤ max_int32 ∧
  er_PendingEditKey row = (pe_Key <$> e_PendingEdit e) ∧
  er_PendingEdit row = (e_PendingEdit e ≫= λ p, enc_details (pe_Details p)) ∧
  (∀ p, e_PendingEdit e = Some p → is_Some (enc_details (pe_Details p))).
Proof.
  unfold insertParams, parseUUID, canon_id. intros Hrow.
  destruct (toUUID (e_ID e)), (toUUID (d_SupplierID (e_Details e))),
    (toUUID (d_SupplierVersionID (e_Details e))), (toUUID (d_DeliveryBuildingID (e_Details e)));
    try done; break_in Hrow; bool_props; simplify_eq/=; split_and!; try done;
    intros; simplify_eq; eauto.
Qed.

Lemma insertParams_read e row :
  in_range e → insertParams e = Ok row → errandFromRow (stored_row row) = Ok (canon e).
Proof.
  intros (Hv & Hr & Hp). unfold insertParams, parseUUID, canon, canon_details, canon_id.
  destruct (toUUID (e_ID e)) as [id|]; [|done].
  destruct (toUUID (d_SupplierID _)) as [sid|]; [|done].
  destruct (toUUID (d_SupplierVersionID _)) as [svid|]; [|done].
  destruct (toUUID (d_DeliveryBuildingID _)) as [bid|]; [|done].
  destruct (_ || _); [done|].
  assert (default ReviewNone (if bool_decide (e_ReviewReason e = ReviewNone) then None
                              else Some (e_ReviewReason e)) = e_ReviewReason e) as Hrv.
  { by case_bool_decide. }
  destruct (e_PendingEdit e) as [p|].
  - destruct (enc_details _) as [v|] eqn:Henc; [|done]. intros [= <-]. unfold errandFromRow. simpl.
    rewrite (dec_enc_details _ _ (Hp _ eq_refl) Henc), Hrv, text_default, !wrap32_id by lia. done.
  - intros [= <-]. unfold errandFromRow. simpl. by rewrite Hrv, text_default, !wrap32_id by lia.
Qed.

Lemma stored_row_idem r : stored_row (stored_row r) = stored_row r.
Proof.
  unfold stored_row. simpl. rewrite !stored_time_idem, <- !option_fmap_compose.
  f_equal; apply option_fmap_ext; intros x; apply stored_time_idem.
Qed.

(** ** The invariant survives storage *)

Lemma canon_id_idem s : canon_id (canon_id s) = canon_id s.
Proof.
  unfold canon_id. destruct (toUUID s) as [u|] eqn:Hu; simpl; [|by rewrite Hu].
  by rewrite (toUUID_canonical _ _ Hu).
Qed.

Lemma details_ok_normal d : details_ok d → details_ok (normal_details d).
Proof.
  intros (? & (x & l & Hi) & ? & ?). unfold details_ok, normal_details, normal_raw. simpl.
  rewrite Hi. simpl. eauto 10.
Qed.

Lemma canon_ok e : toUUID (e_ID e) = Some (e_ID e) → errand_ok e → errand_ok (canon e).
Proof.
  intros Hid [Hs Hv Hc Hd Hr Hw Hp].
  assert (canon_id (e_ID e) = e_ID e) as Hcid by (unfold canon_id; by rewrite Hid).
  split; simpl; try done.
  - destruct (has_courier _); rewrite ?fmap_is_Some; [done|]. destruct Hc as (? & -> & ->). done.
  - destruct (before_delivery _); rewrite ?fmap_is_Some; [|done]. by destruct Hd as [-> ->].
  - intros p (p0 & Hp0 & ->)%fmap_Some. rewrite Hcid.
    destruct (Hp _ Hp0) as (? & ? & ? & ?). simpl. eauto using details_ok_normal.
Qed.

Lemma canon_last_seq e : last_seq (canon e) = last_seq e.
Proof. unfold last_seq. simpl. by destruct (e_PendingEdit e). Qed.

Lemma canon_tag_ok e g : tag_ok (canon e) g ↔ tag_ok e g.
Proof. unfold tag_ok. simpl. destruct (tag_class g.1); rewrite ?fmap_is_Some; done. Qed.

(** ** Rows of the table *)

(** The identifiers are the text of a column of type [uuid]. *)
Definition uuid_columns (row : ErrandRow) : Prop :=
  toUUID (er_SupplierID row) = Some (er_SupplierID row) ∧
  toUUID (er_SupplierVersionID row) = Some (er_SupplierVersionID row) ∧
  toUUID (er_DeliveryBuildingID row) = Some (er_DeliveryBuildingID row).

(** A stored row reads back as the errand [e]. *)
Record row_ok (id : string) (row : ErrandRow) (e : Errand) : Prop := {
  ro_key : er_ID row = id;
  ro_id : toUUID id = Some id;
  ro_read : errandFromRow row = Ok e;
  ro_stored : stored_row row = row;
  ro_ok : errand_ok e;
  ro_range : in_range e;
  ro_status : e_Status e ≠ StatusNone;
  ro_pending_key : er_PendingEditKey row = (pe_Key <$> e_PendingEdit e);
  ro_check : errand_check row = true;
  ro_columns : uuid_columns row;
  ro_pending_snapshot p : e_PendingEdit e = Some p → is_Some (d_DeliveryBuildingSnapshot (pe_Details p));
  ro_pending_supplier p : e_PendingEdit e = Some p →
    (er_PendingEdit row ≫= pending_supplier) = Some (d_SupplierID (pe_Details p));
}.

Lemma enc_details_supplier d v : enc_details d = Some v → pending_supplier v = Some (d_SupplierID d).
Proof. unfold enc_details. destruct (format_rfc3339 _); [|done]. by intros [= <-]. Qed.

Lemma canon_pending_snapshot e p :
  (canon_pending <$> e_PendingEdit e) = Some p → is_Some (d_DeliveryBuildingSnapshot (pe_Details p)).
Proof. intros (p0 & _ & ->)%fmap_Some. simpl. unfold normal_raw. eauto. Qed.

(** The columns [insertParams] filled in say where a pending edit goes. *)
Lemma insertParams_suppliers e row :
  insertParams e = Ok row →
  uuid_columns row ∧
  ∀ p, (canon_pending <$> e_PendingEdit e) = Some p →
    (er_PendingEdit row ≫= pending_supplier) = Some (d_SupplierID (pe_Details p)).
Proof.
  intros Hrow. split.
  { unfold insertParams, parseUUID in Hrow. unfold uuid_columns.
    destruct (toUUID (e_ID e)); [|done].
    destruct (toUUID (d_SupplierID (e_Details e))) eqn:H1, (toUUID (d_SupplierVersionID (e_Details e))) eqn:H2,
      (toUUID (d_DeliveryBuildingID (e_Details e))) eqn:H3; try done.
    break_in Hrow; simplify_eq/=; split_and!; by eapply toUUID_canonical. }
  destruct (insertParams_inv _ _ Hrow) as (_ & _ & _ & _ & _ & _ & _ & _ & _ & Hp & Henc).
  rewrite Hp. intros p (p0 & Hp0 & ->)%fmap_Some. rewrite Hp0. simpl.
  destruct (Henc _ Hp0) as [v Hv]. rewrite Hv. simpl. by apply enc_details_supplier.
Qed.

Lemma errandFromRow_frame row e :
  errandFromRow row = Ok e →
  e_ID e = er_ID row ∧ e_Status e = er_Status row ∧ e_Version e = er_Version row ∧
  e_RequesterID e = er_RequesterID row ∧ e_CreateIdempotencyKey e = er_CreateIdempotencyKey row ∧
  e_CreatedAt e = er_CreatedAt row ∧
  d_SupplierID (e_Details e) = er_SupplierID row.
Proof. unfold errandFromRow. intros H. by break_in H; simplify_eq/=. Qed.

End rows.

Section inv.
Context `{Hpg : Postgres, Hpgok : !PostgresOk}.

(** ** Keys *)

(** A key of another writer (rejections, reminders): its operation is not one
    a transition emits. *)
Definition foreign_key (key : string) : Prop :=
  ∃ id op rest, key = id +:+ ":" +:+ op +:+ ":" +:+ rest ∧
    has_colon id = false ∧ has_colon op = false ∧ known_op op = false.

Lemma IdempotencyKey_split id op v :
  ∃ rest, IdempotencyKey id op v = id +:+ String ":" (op +:+ rest) ∧
    (rest = "" ∨ ∃ r, rest = String ":" r).
Proof.
  unfold IdempotencyKey. destruct (0 <? v).
  - exists (String ":" (itoa v)). rewrite !sapp_assoc. split; [done|]. by right; exists (itoa v).
  - exists "". split; [by rewrite sapp_nil|by left].
Qed.

Lemma tag_key_not_foreign id g :
  has_colon id = false → known_op g.1 = true → ¬ foreign_key (key_of_tag id g).
Proof.
  intros Hid Hop (id' & op' & rest & Heq & Hid' & Hop' & Hk). unfold key_of_tag in Heq.
  destruct (IdempotencyKey_split id g.1 g.2) as (r & Hsplit & Hr). rewrite Hsplit in Heq.
  apply split_colon in Heq as [-> Heq]; [|done|done].
  assert (g.1 = op') as Hg; [|congruence]. destruct Hr as [->|[r' ->]].
  - exfalso. assert (has_colon (g.1 +:+ "") = false) as Hnc.
    { rewrite sapp_nil. by apply known_op_no_colon. }
    by apply (no_split _ op' rest) in Hnc.
  - apply split_colon in Heq as [-> _]; [done|by apply known_op_no_colon|done].
Qed.

Lemma tag_key_inj id id' g g' :
  has_colon id = false → has_colon id' = false → known_op g.1 = true → known_op g'.1 = true →
  0 ≤ g.2 → 0 ≤ g'.2 → key_of_tag id g = key_of_tag id' g' → id = id' ∧ g = g'.
Proof.
  intros Hid Hid' Hop Hop' Hv Hv' Heq. assert (id = id') as <-.
  { unfold key_of_tag in Heq. destruct (IdempotencyKey_split id g.1 g.2) as (r & Hs & _).
    destruct (IdempotencyKey_split id' g'.1 g'.2) as (r' & Hs' & _). rewrite Hs, Hs' in Heq.
    by apply split_colon in Heq as [-> _]. }
  split; [done|]. destruct g as [op v], g' as [op' v']; unfold key_of_tag in Heq; simpl in *.
  apply IdempotencyKey_inj in Heq as [-> ->]; auto using known_op_no_colon.
Qed.

(** ** The invariant *)

(** The errand stored under [id]. *)
Definition stored_as (db : ODB) (id : string) (e : Errand) : Prop :=
  ∃ row, db_errands db !! id = Some row ∧ row_ok id row e.

Definition open_reviews (db : ODB) (id : string) : list ReviewRow :=
  List.filter (open_review id) (db_reviews db).

Record outbox_inv (db : ODB) : Prop := {
  oi_id i r : db_outbox db !! i = Some r → or_ID r = i ∧ 1 ≤ i < db_next_outbox db;
  oi_unique i i' r r' : db_outbox db !! i = Some r → db_outbox db !! i' = Some r' →
    or_IdempotencyKey r = or_IdempotencyKey r' → i = i';
  oi_errand i r : db_outbox db !! i = Some r →
    ∃ e, stored_as db (or_ErrandID r) e ∧
      ((∃ g, or_IdempotencyKey r = key_of_tag (e_ID e) g ∧ tag_ok e g ∧ 0 ≤ g.2) ∨
       foreign_key (or_IdempotencyKey r));
  oi_next : 1 ≤ db_next_outbox db;
}.

Record store_ok (db : ODB) : Prop := {
  so_rows id row : db_errands db !! id = Some row → ∃ e, row_ok id row e;
  so_create id id' row row' : db_errands db !! id = Some row → db_errands db !! id' = Some row' →
    er_RequesterID row = er_RequesterID row' →
    er_CreateIdempotencyKey row = er_CreateIdempotencyKey row' → id = id';
  so_outbox : outbox_inv db;
  so_reviews id e : stored_as db id e →
    length (open_reviews db id) = if bool_decide (e_Status e = StatusReviewRequired) then 1%nat else 0%nat;
  so_review_errand r : r ∈ db_reviews db → is_Some (db_errands db !! rv_ErrandID r);
}.

Lemma row_ok_fun id row e e' : row_ok id row e → row_ok id row e' → e = e'.
Proof. intros H1 H2. pose proof (ro_read _ _ _ H1). pose proof (ro_read _ _ _ H2). congruence. Qed.

Lemma stored_as_fun db id e e' : stored_as db id e → stored_as db id e' → e = e'.
Proof. intros (row & Hr & H1) (row' & Hr' & H2). simplify_eq. by eapply row_ok_fun. Qed.

Lemma stored_as_id db id e : stored_as db id e → e_ID e = id ∧ toUUID id = Some id ∧ has_colon id = false.
Proof.
  intros (row & _ & Hro). destruct (errandFromRow_frame _ _ (ro_read _ _ _ Hro)) as (-> & _).
  rewrite (ro_key _ _ _ Hro). split_and!; [done|apply Hro|].
  by eapply toUUID_no_colon, Hro.
Qed.

Lemma stored_as_ext db db' id e :
  db_errands db' = db_errands db → stored_as db id e → stored_as db' id e.
Proof. intros Heq (row & Hr & Hro). exists row. by rewrite Heq. Qed.

(** ** Inserting outbox rows *)

(** Only the outbox differs. *)
Definition outbox_only (db db' : ODB) : Prop :=
  ∃ m n, db' = set_outbox m n db.

Lemma outbox_only_refl db : outbox_only db db.
Proof. exists (db_outbox db), (db_next_outbox db). by destruct db. Qed.
Lemma outbox_only_trans db1 db2 db3 : outbox_only db1 db2 → outbox_only db2 db3 → outbox_only db1 db3.
Proof. intros (m & n & ->) (m' & n' & ->). by exists m', n'. Qed.

Lemma InsertOutbox_inv clock kind key errand payload db u db' :
  InsertOutbox clock kind key errand payload db = Ok (u, db') →
  (∀ i r, db_outbox db !! i = Some r → or_IdempotencyKey r ≠ key) ∧
  kind_known kind = true ∧
  db' = set_outbox (<[db_next_outbox db := new_orow clock (db_next_outbox db) kind key errand payload]>
                      (db_outbox db)) (db_next_outbox db + 1) db.
Proof.
  unfold InsertOutbox. destruct (scan1 _ _) as [[i r]|] eqn:Hs; [done|].
  destruct (kind_known kind) eqn:Hk; [|done]. simpl. destruct (errand_exists _ _); [|done].
  intros [= <- <-]. split_and!; [|done|done]. intros i r Hr Heq.
  apply (proj1 (scan1_None _ _) Hs) in Hr. unfold has_key in Hr. by bool_props.
Qed.

Lemma InsertOutbox_keeps clock kind key errand payload db u db' e :
  InsertOutbox clock kind key errand payload db = Ok (u, db') → outbox_inv db →
  stored_as db errand e →
  (∃ g, key = key_of_tag (e_ID e) g ∧ tag_ok e g ∧ 0 ≤ g.2) ∨ foreign_key key → outbox_inv db'.
Proof.
  intros (Hnew & _ & ->)%InsertOutbox_inv [Hid Hu He Hn] Hst Hkey.
  assert (∀ i r, (<[db_next_outbox db := new_orow clock (db_next_outbox db) kind key errand payload]>
                    (db_outbox db)) !! i = Some r →
            (i = db_next_outbox db ∧ r = new_orow clock i kind key errand payload) ∨
            (i < db_next_outbox db ∧ db_outbox db !! i = Some r)) as Hin.
  { intros i r [[<- <-]|[Hne Hr]]%lookup_insert_Some; [by left|]. right. split; [apply (Hid _ _ Hr)|done]. }
  split; simpl.
  - intros i r [[-> ->]|[Hi Hr]]%Hin; [simpl; split; [done|lia]|]. destruct (Hid _ _ Hr). split; [done|lia].
  - intros i i' r r' [[-> ->]|[_ Hr]]%Hin [[-> ->]|[_ Hr']]%Hin Heq; [done|..|by eapply Hu].
    + by apply Hnew in Hr'.
    + by apply Hnew in Hr.
  - intros i r [[-> ->]|[_ Hr]]%Hin; simpl.
    + exists e. split; [by eapply stored_as_ext|]. done.
    + destruct (He _ _ Hr) as (e' & Hst' & ?). exists e'. split; [by eapply stored_as_ext|done].
  - lia.
Qed.

(** The rows of a transition, one after another. *)
Lemma insert_rows_keeps clock rows db u db' id e :
  insert_rows clock rows db = Ok (u, db') → outbox_inv db → stored_as db id e →
  (∀ row, row ∈ rows → o_ErrandID row = id ∧
     ∃ g, o_IdempotencyKey row = key_of_tag (e_ID e) g ∧ tag_ok e g ∧ 0 ≤ g.2) →
  outbox_inv db' ∧ outbox_only db db' ∧ db_outbox db ⊆ db_outbox db' ∧
  ∀ row, row ∈ rows → ∃ i payload, enc_payload (o_Payload row) = Some payload ∧
    db_outbox db' !! i = Some (new_orow clock i (o_Kind row) (o_IdempotencyKey row) id payload).
Proof.
  revert db. induction rows as [|row rows IH]; intros db; simpl.
  { intros [= <- <-] Hinv _ _. split_and!; [done|apply outbox_only_refl|done|].
    intros row. by rewrite elem_of_nil. }
  intros Hrun Hinv Hst Hrows. destruct (enc_payload _) as [payload|] eqn:Hp; [|done].
  destruct (Hrows row) as (Hid & g & Hkey & Hg & Hv); [by left|].
  destruct (stored_as_id _ _ _ Hst) as (_ & Huuid & _).
  unfold parseUUID in Hrun. rewrite Hid, Huuid in Hrun. simpl in Hrun.
  apply bind_Ok in Hrun as (id' & db0 & [= <- <-] & Hrun).
  apply bind_Ok in Hrun as (u1 & db1 & Hins & Hrun).
  assert (outbox_inv db1) as Hinv1 by (eapply InsertOutbox_keeps; eauto 10).
  apply InsertOutbox_inv in Hins as (Hnew & _ & Hdb1).
  assert (db_outbox db ⊆ db_outbox db1) as Hsub1.
  { rewrite Hdb1. simpl. apply insert_subseteq. destruct (_ !! _) as [r|] eqn:Hl; [|done].
    apply Hinv in Hl. lia. }
  assert (outbox_only db db1) as Ho1 by (rewrite Hdb1; by eexists _, _).
  destruct (IH db1 Hrun Hinv1) as (Hinv' & Ho & Hsub & Hall).
  { eapply stored_as_ext; [|done]. by rewrite Hdb1. }
  { intros row' Hin. apply Hrows. by right. }
  split_and!; [done|by eapply outbox_only_trans|by etrans|].
  intros row' [->|Hin]%elem_of_cons; [|by apply Hall].
  exists (db_next_outbox db), payload. split; [done|]. eapply lookup_weaken; [|done].
  rewrite Hdb1. simpl. apply lookup_insert_eq.
Qed.

(** ** Reviews *)

Lemma OpenReview_inv errand reason reporter note at_ db u db' :
  OpenReview errand reason reporter note at_ db = Ok (u, db') →
  open_reviews db errand = [] ∧ is_Some (db_errands db !! errand) ∧
  ∃ r, rv_ErrandID r = errand ∧ rv_Resolution r = None ∧ db' = set_reviews (db_reviews db ++ [r]) db.
Proof.
  unfold OpenReview. destruct (_ || _) eqn:Hc; [done|]. bool_props.
  destruct (existsb _ _) eqn:Hex; [done|]. intros [= <- <-].
  split_and!; [|by eapply bool_decide_eq_true|eexists; split_and!; [..|reflexivity]; done].
  unfold open_reviews. destruct (List.filter _ _) as [|r rs] eqn:Hf; [done|].
  assert (In r (List.filter (open_review errand) (db_reviews db))) as [Hin Ho]%filter_In
    by (rewrite Hf; by left).
  assert (existsb (open_review errand) (db_reviews db) = true); [|congruence].
  apply existsb_exists. eauto.
Qed.

Lemma open_reviews_app db l id :
  open_reviews (set_reviews (db_reviews db ++ l) db) id
  = open_reviews db id ++ List.filter (open_review id) l.
Proof. unfold open_reviews. simpl. apply List.filter_app. Qed.

Lemma open_review_other id id' r : rv_ErrandID r = id → id' ≠ id → open_review id' r = false.
Proof. intros <- Hne. unfold open_review. by rewrite bool_decide_false. Qed.

Lemma ResolveReview_inv resolution resolver reason at_ errand db n db' :
  ResolveReview resolution resolver reason at_ errand db = Ok (n, db') →
  ∃ rs, db' = set_reviews rs db ∧ List.filter (open_review errand) rs = [] ∧
    (∀ id, id ≠ errand → List.filter (open_review id) rs = open_reviews db id) ∧
    (∀ r, r ∈ rs → ∃ r0, r0 ∈ db_reviews db ∧ rv_ErrandID r = rv_ErrandID r0).
Proof.
  unfold ResolveReview. destruct (_ && _); [done|]. intros [= _ <-]. eexists. split; [done|].
  unfold open_reviews. induction (db_reviews db) as [|r rs IH].
  { split_and!; [done..|]. intros r. by rewrite elem_of_nil. }
  destruct IH as (IH1 & IH2 & IH3). rewrite fmap_cons. simpl. split_and!.
  - destruct (open_review errand r) eqn:Ho; simpl; [|by rewrite Ho].
    unfold open_review at 1. simpl. by rewrite andb_false_r.
  - intros id Hne. rewrite <- (IH2 id Hne). destruct (open_review errand r) eqn:Ho; [|done].
    unfold open_review in Ho. bool_props. simpl.
    by rewrite !(open_review_other errand id) by done.
  - intros r' [->|Hin]%elem_of_cons; [exists r; split; [by left|by destruct (open_review errand r)]|].
    destruct (IH3 _ Hin) as (r0 & ? & ?). exists r0. split; [by right|done].
Qed.

(** ** The update of the errand row *)

Lemma keep_columns_id cur r :
  er_ID r = er_ID cur → er_RequesterID r = er_RequesterID cur →
  er_CreateIdempotencyKey r = er_CreateIdempotencyKey cur → er_CreatedAt r = er_CreatedAt cur →
  keep_columns cur r = r.
Proof. destruct r, cur. simpl. intros -> -> -> ->. done. Qed.

Lemma UpdateErrand_inv p db row db' :
  UpdateErrand p db = Ok (Some row, db') →
  ∃ cur, db_errands db !! er_ID (up_Row p) = Some cur ∧ er_Status cur = up_ExpectedStatus p ∧
    row = keep_columns cur (stored_row (up_Row p)) ∧ errand_check row = true ∧
    db' = set_errands (<[er_ID (up_Row p) := row]> (db_errands db)) db.
Proof.
  unfold UpdateErrand. destruct (_ !! _) as [cur|]; [|done]. destruct (_ && _) eqn:Hc; [|done].
  destruct (errand_check _) eqn:Hk; [|done]. intros [= <- <-]. exists cur.
  apply andb_true_iff in Hc as [Hc _]. bool_props. eauto 10.
Qed.

End inv.
