(* ===== verification/StoreSafe.v ===== *)
(** * order-service: transitions keep the store's invariant

    [writeTransitionRows], [applyLocked] and [Create], statement by statement,
    for transitions decided by [Next]. *)

From S2P Require Import Prelude GoText Json GoTime Errand ErrandState ErrandJson ErrandInv ErrandStore Fence StoreInv.

Section safe.
Context `{Hpg : Postgres, Hpgok : !PostgresOk}.

(** ** The rows written with a transition *)

(** The open reviews after a transition. *)
Record reviews_moved (id : string) (t : Transition) (db : ODB) (rs : list ReviewRow) : Prop := {
  rm_other id' : id' ≠ id → List.filter (open_review id') rs = open_reviews db id';
  rm_own : length (List.filter (open_review id) rs)
           = if bool_decide (t_To t = StatusReviewRequired) then 1%nat
             else if bool_decide (t_From t = StatusReviewRequired) then 0%nat
             else length (open_reviews db id);
  rm_errand r : r ∈ rs → rv_ErrandID r = id ∨ ∃ r0, r0 ∈ db_reviews db ∧ rv_ErrandID r = rv_ErrandID r0;
}.

(** The record of a transition. *)
Definition transition_row (id : string) (before after : Errand) (t : Transition) : TransitionRow :=
  mkTransitionRow id
    (if bool_decide (t_From t = StatusNone) then None else Some (t_From t)) (t_To t) (t_Event t)
    (a_Type (t_Actor t)) (text (a_ID (t_Actor t)))
    (text (orDefault (e_CourierID before) (e_CourierID after)))
    (text (t_Reason t)) (wrap32 (e_Version after)) (stored_time (t_At t)).

Lemma lift_Ok {A} (r : res Failure A) db a db' : lift r db = Ok (a, db') → r = Ok a ∧ db' = db.
Proof. destruct r; simpl; [by intros [= -> ->]|done]. Qed.

Lemma writeTransitionRows_inv clock before after t db u db' id :
  e_ID after = id → toUUID id = Some id →
  writeTransitionRows clock before after t db = Ok (u, db') →
  ∃ rs, reviews_moved id t db rs ∧
    insert_rows clock (t_Outbox t)
      (set_reviews rs (set_transitions (db_transitions db ++ [transition_row id before after t]) db))
    = Ok (u, db').
Proof.
  intros Hid Hu. unfold writeTransitionRows, parseUUID. rewrite Hid, Hu. simpl.
  intros (? & ? & [= <- <-] & Hrun)%bind_Ok.
  apply bind_Ok in Hrun as (u1 & db1 & Htr & Hrun).
  apply bind_Ok in Hrun as (u2 & db2 & Hrv & Hrun).
  unfold InsertTransition in Htr. simpl in Htr. destruct (_ && _); [|done].
  injection Htr as <- <-. fold (transition_row id before after t) in *.
  set (db1 := set_transitions _ db) in *.
  assert (∀ id', open_reviews db1 id' = open_reviews db id') as Hop by done.
  case_bool_decide as Hto; [|case_bool_decide as Hfrom].
  - apply OpenReview_inv in Hrv as (Hnone & _ & r & Hr & Hres & ->).
    exists (db_reviews db ++ [r]). split; [|done]. split.
    + intros id' Hne. rewrite List.filter_app. simpl.
      rewrite (open_review_other id id' r Hr Hne). apply app_nil_r.
    + rewrite bool_decide_true by done. rewrite List.filter_app. simpl.
      assert (open_review id r = true) as ->.
      { unfold open_review. by rewrite !bool_decide_true. }
      change (List.filter (open_review id) (db_reviews db)) with (open_reviews db1 id). by rewrite Hnone.
    + intros r' [Hin| ->%list_elem_of_singleton]%elem_of_app; eauto.
  - apply bind_Ok in Hrv as (n & db3 & Hres & Hn).
    apply ResolveReview_inv in Hres as (rs & -> & Hnil & Hother & Herr).
    destruct (n =? 0); [done|]. injection Hn as <- <-. exists rs. split; [|done]. split.
    + intros id' Hne. by apply Hother.
    + by rewrite bool_decide_false, bool_decide_true, Hnil by done.
    + intros r Hin. right. by apply Herr.
  - injection Hrv as <- <-. exists (db_reviews db). split; [|by rewrite <- Hrun; destruct db].
    split; [done| |eauto]. by rewrite !bool_decide_false by done.
Qed.

(** ** What [Next] emits, as stored *)

Lemma Next_row_tags e ev actor input now t row :
  errand_ok e → Next e ev actor input now = Ok t → row ∈ t_Outbox t →
  o_ErrandID row = e_ID e ∧
  ∃ g, o_IdempotencyKey row = key_of_tag (e_ID e) g ∧ tag_ok (ApplyTo t e) g ∧ ¬ tag_ok e g ∧ 0 ≤ g.2.
Proof.
  intros Hok Hnext Hin. split.
  - apply Next_inv in Hnext as (rule & [_ _ _ _ _ _ (t0 & _ & ->)]). simpl in Hin.
    unfold outboxRows in Hin. apply elem_of_app in Hin as [Hin|(n & -> & _)%list_elem_of_fmap]; [|done].
    unfold credit_rows, credit_row in Hin.
    repeat (apply elem_of_app in Hin as [Hin|Hin]); repeat case_match;
      rewrite ?list_elem_of_singleton, ?elem_of_nil in Hin; by subst.
  - destruct (Next_tags _ _ _ _ _ _ Hok Hnext) as (gs & Hgs & _ & Hall).
    assert (o_IdempotencyKey row ∈ key_of_tag (e_ID e) <$> gs) as (g & Hg & Hgin)%list_elem_of_fmap.
    { rewrite <- Hgs. by apply list_elem_of_fmap_2. }
    exists g. split; [done|]. by apply Hall.
Qed.

(** The edits a transition can leave pending. *)
Lemma Next_pending e ev actor input now t p :
  Next e ev actor input now = Ok t → e_PendingEdit (ApplyTo t e) = Some p →
  e_PendingEdit e = Some p ∨ i_Edit input = Some (pe_Details p).
Proof.
  intros (rule & [Hin Hf <- _ _ _ (t0 & Happ & ->)])%Next_inv. rewrite ApplyTo_outbox.
  unfold applyEvent, newError in Happ.
  destruct e as [id st ver req cour det pd dd da vd rr ck pe ca ua].
  each_rule Hin; simpl in *; subst st; break_in Happ; simplify_eq/=;
    unfold drop_edit; simpl; try (destruct pe as [p0|]); simpl; intros; unfold applyTo in *; simplify_eq/=; auto.
Qed.

(** Go's [int] holds the reward of an edit. *)
Definition input_ok (input : EventInput) : Prop :=
  ∀ d, i_Edit input = Some d → in_int64 (d_Reward d).

Lemma Next_in_range e ev actor input now t row :
  errand_ok e → (∀ p, e_PendingEdit e = Some p → in_int64 (d_Reward (pe_Details p))) →
  input_ok input → Next e ev actor input now = Ok t → insertParams (ApplyTo t e) = Ok row → in_range (ApplyTo t e).
Proof.
  intros Hok Hr Hin Hnext Hrow. apply insertParams_inv in Hrow as (_ & _ & _ & _ & _ & _ & Hrw & Hver & _).
  pose proof (Next_errand_ok _ _ _ _ _ _ Hok Hnext) as Hok'.
  destruct (Next_from _ _ _ _ _ _ Hnext) as (_ & _ & _ & Hto & _).
  pose proof (eo_reward _ Hok' Hto). pose proof (eo_placed _ Hok') as Hv'.
  rewrite bool_decide_false in Hv' by done. split_and!; [lia..|].
  intros p Hp. destruct (Next_pending _ _ _ _ _ _ _ Hnext Hp) as [Hp'|Hp']; [|by apply Hin].
  by apply Hr.
Qed.

(** ** One errand moves *)

Lemma outbox_inv_ext db db' :
  db_errands db' = db_errands db → db_outbox db' = db_outbox db →
  db_next_outbox db' = db_next_outbox db → outbox_inv db → outbox_inv db'.
Proof.
  intros He Ho Hn [H1 H2 H3 H4]. split; rewrite ?Ho, ?Hn; auto. intros i r Hr.
  destruct (H3 i r Hr) as (e & Hst & ?). exists e. split; [by eapply stored_as_ext|done].
Qed.

(** The outbox stays consistent when the row of [id] becomes [e'], as long as
    the tags emitted so far stay true. *)
Lemma outbox_inv_move db id row' e' :
  outbox_inv db → row_ok id row' e' →
  (∀ e g, stored_as db id e → tag_ok e g → tag_ok e' g) →
  outbox_inv (set_errands (<[id := row']> (db_errands db)) db).
Proof.
  intros [H1 H2 H3 H4] Hro Hmono. split; simpl; [done|done| |done]. intros i r Hr.
  destruct (H3 i r Hr) as (e & Hst & Hkey). destruct (decide (or_ErrandID r = id)) as [Heq|Hne].
  - exists e'. split; [exists row'; simpl; rewrite Heq; split; [apply lookup_insert_eq|done]|].
    destruct Hkey as [(g & Hg & Hok & Hv)|Hf]; [left|by right].
    rewrite Heq in Hst. exists g. split_and!; [|by eapply Hmono|done].
    destruct (stored_as_id _ _ _ Hst) as (He & _).
    destruct (errandFromRow_frame _ _ (ro_read _ _ _ Hro)) as (He' & _).
    by rewrite Hg, He, He', (ro_key _ _ _ Hro).
  - exists e. split; [|done]. destruct Hst as (row & Hl & Hro'). exists row. split; [|done].
    simpl. by rewrite lookup_insert_ne.
Qed.

(** The errand [id] now reads [e'], and the rows of [t] were written. *)
Record moved (clock : Z) (id : string) (t : Transition) (tr : TransitionRow) (e' : Errand)
    (db db' : ODB) : Prop := {
  mv_ok : store_ok db';
  mv_at : stored_as db' id e';
  mv_other id' : id' ≠ id → db_errands db' !! id' = db_errands db !! id';
  mv_transitions : db_transitions db' = db_transitions db ++ [tr];
  mv_fences : db_fences db' = db_fences db;
  mv_outbox : db_outbox db ⊆ db_outbox db';
  mv_sent row : row ∈ t_Outbox t → ∃ i payload, enc_payload (o_Payload row) = Some payload ∧
    db_outbox db' !! i = Some (new_orow clock i (o_Kind row) (o_IdempotencyKey row) id payload);
}.

Lemma move_errand clock db id row' e' t tr rs u db' :
  store_ok db → row_ok id row' e' →
  (∀ id2 row2, id2 ≠ id → db_errands db !! id2 = Some row2 →
     er_RequesterID row2 = er_RequesterID row' →
     er_CreateIdempotencyKey row2 = er_CreateIdempotencyKey row' → False) →
  (∀ e g, stored_as db id e → tag_ok e g → tag_ok e' g) →
  reviews_moved id t db rs →
  length (List.filter (open_review id) rs)
    = (if bool_decide (e_Status e' = StatusReviewRequired) then 1%nat else 0%nat) →
  (∀ row, row ∈ t_Outbox t → o_ErrandID row = id ∧
     ∃ g, o_IdempotencyKey row = key_of_tag (e_ID e') g ∧ tag_ok e' g ∧ 0 ≤ g.2) →
  insert_rows clock (t_Outbox t)
    (set_reviews rs (set_transitions (db_transitions db ++ [tr])
       (set_errands (<[id := row']> (db_errands db)) db))) = Ok (u, db') →
  moved clock id t tr e' db db'.
Proof.
  intros [Hrows Hcr Hob Hrv Hre] Hro Huniq Hmono [Hother Hown Herr] Hcount Htags Hins.
  set (db1 := set_reviews _ _) in Hins.
  assert (stored_as db1 id e') as Hat by (exists row'; simpl; by rewrite lookup_insert_eq).
  assert (outbox_inv db1) as Hob1.
  { eapply outbox_inv_ext; [..|by apply (outbox_inv_move db id row' e')]; done. }
  destruct (insert_rows_keeps _ _ _ _ _ _ _ Hins Hob1 Hat Htags) as (Hob' & (m & n & Hdb') & Hsub & Hsent).
  assert (db_errands db' = <[id := row']> (db_errands db)) as Herrands by by rewrite Hdb'.
  assert (∀ id2, db_reviews db' = rs ∧ open_reviews db' id2 = List.filter (open_review id2) rs) as Hreviews.
  { intros id2. by rewrite Hdb'. }
  split; [split| | | | | |]; try (by rewrite Hdb').
  - intros id2 row2. rewrite Herrands. intros [[<- <-]|[_ Hl]]%lookup_insert_Some; eauto.
  - intros id1 id2 row1 row2. rewrite Herrands.
    intros [[<- <-]|[Hn1 Hl1]]%lookup_insert_Some [[<- <-]|[Hn2 Hl2]]%lookup_insert_Some Hq Hk;
      [done|exfalso; by eapply (Huniq id2)|exfalso; by eapply (Huniq id1)|by eapply Hcr].
  - done.
  - intros id2 e2 Hst. rewrite (proj2 (Hreviews id2)). destruct (decide (id2 = id)) as [->|Hne].
    + assert (stored_as db' id e') as Hst' by (eapply stored_as_ext; [|exact Hat]; by rewrite Herrands).
      by rewrite (stored_as_fun _ _ _ _ Hst Hst').
    + rewrite Hother by done. apply Hrv. destruct Hst as (row2 & Hl & Hro2).
      exists row2. split; [|done]. by rewrite Herrands, lookup_insert_ne in Hl.
  - intros r. rewrite (proj1 (Hreviews id)), Herrands. intros Hin.
    destruct (Herr _ Hin) as [->|(r0 & Hr0 & ->)]; [rewrite lookup_insert_eq; eauto|].
    destruct (Hre _ Hr0) as [row0 Hl]. apply lookup_insert_is_Some'. eauto.
  - intros id2 Hne. by rewrite Herrands, lookup_insert_ne.
  - done.
  - done.
Qed.

(** ** Apply *)

Lemma compareAndSwap_inv cur t db u db' :
  compareAndSwap cur t db = Ok (u, db') →
  db' = db ∧ e_Status cur = t_From t ∧ e_Version cur = t_ExpectedVersion t ∧
  match e_PendingEdit cur with Some p => pe_Key p | None => "" end = t_ExpectedPendingEditKey t.
Proof.
  unfold compareAndSwap, appErr, fail, ret. intros Hc. break_in Hc; simplify_eq. bool_props. done.
Qed.

Lemma checkFence_inv s db u db' : checkFence s db = Ok (u, db') → db' = db ∧ fenced s db = false.
Proof.
  unfold checkFence, SupplierFenced, bind, appErr, fail, ret. destruct (fenced s db); [done|].
  by intros [= <- <-].
Qed.

(** The row [UpdateErrand] leaves reads back as the errand it was given. *)
Lemma updated_row_ok id row cur t params row' db db' ev actor input now :
  db_errands db !! id = Some row → row_ok id row cur → input_ok input →
  Next cur ev actor input now = Ok t →
  insertParams (ApplyTo t cur) = Ok params →
  UpdateErrand (mkUpdateParams params (t_From t) (wrap32 (t_ExpectedVersion t))
                  (text (t_ExpectedPendingEditKey t))) db = Ok (Some row', db') →
  row_ok id row' (canon (ApplyTo t cur)) ∧ db' = set_errands (<[id := row']> (db_errands db)) db ∧
  er_RequesterID row' = er_RequesterID row ∧ er_CreateIdempotencyKey row' = er_CreateIdempotencyKey row.
Proof.
  intros Hl Hro Hin Hnext Hp Hup.
  pose proof (ro_ok _ _ _ Hro) as Hok. pose proof (ro_range _ _ _ Hro) as (_ & _ & Hr).
  pose proof (Next_in_range _ _ _ _ _ _ _ Hok Hr Hin Hnext Hp) as Hr'.
  pose proof (insertParams_read _ _ Hr' Hp) as Hread.
  destruct (errandFromRow_frame _ _ (ro_read _ _ _ Hro)) as (Hid & Hst & _ & Hrq & Hck & Hca & _).
  destruct (insertParams_inv _ _ Hp) as (_ & Hu & _ & _ & Hprq & Hpck & _ & _ & Hpk & _).
  destruct (insertParams_suppliers _ _ Hp) as (Hsup & Hpsup).
  destruct (Next_from _ _ _ _ _ _ Hnext) as (Hfrom & _ & _ & Hto & _).
  rewrite (ro_key _ _ _ Hro) in Hid.
  assert (er_ID params = id) as Hpid.
  { change (e_ID (ApplyTo t cur)) with (e_ID cur) in Hu. rewrite Hid, (ro_id _ _ _ Hro) in Hu. by simplify_eq. }
  apply UpdateErrand_inv in Hup as (row0 & Hl0 & _ & -> & Hchk & ->). simpl in *.
  rewrite Hpid in *. rewrite Hl in Hl0. injection Hl0 as <-.
  assert (er_CreatedAt (stored_row params) = er_CreatedAt row) as Hcr.
  { rewrite <- (ro_stored _ _ _ Hro). simpl. f_equal.
    assert (er_CreatedAt params = e_CreatedAt (ApplyTo t cur)) as ->.
    { unfold insertParams in Hp. by break_in Hp; simplify_eq/=. }
    simpl. rewrite bool_decide_false by (rewrite Hfrom; apply Hro). done. }
  rewrite keep_columns_id.
  - split_and!; [|done..].
    split; [done|apply Hro|done|apply stored_row_idem|..|done|simpl; rewrite Hpk; by destruct (applyTo _ _)|done|done|exact (canon_pending_snapshot (ApplyTo t cur))|exact Hpsup].
    + apply canon_ok; [change (e_ID (ApplyTo t cur)) with (e_ID cur); rewrite Hid; apply Hro|].
      by eapply Next_errand_ok.
    + destruct Hr' as (? & ? & Hpe). split; [done|split; [done|]]. simpl. intros p (p0 & Hp0 & ->)%fmap_Some.
      exact (Hpe _ Hp0).
  - by rewrite (ro_key _ _ _ Hro).
  - simpl. by rewrite Hprq.
  - simpl. by rewrite Hpck.
  - exact Hcr.
Qed.

(** An edit that moves the errand to another supplier found it unfenced. *)
Definition fence_checked (db : ODB) (cur : Errand) (t : Transition) : Prop :=
  ∀ to, editTargetSupplier cur t = Some to → ∃ s, toUUID to = Some s ∧ fenced s db = false.

Lemma review_count db id cur t ev actor input now rs :
  store_ok db → stored_as db id cur → Next cur ev actor input now = Ok t → reviews_moved id t db rs →
  length (List.filter (open_review id) rs)
    = if bool_decide (t_To t = StatusReviewRequired) then 1%nat else 0%nat.
Proof.
  intros Hok Hst Hnext Hrm. rewrite (rm_own _ _ _ _ Hrm). case_bool_decide; [done|].
  case_bool_decide as Hf; [done|]. rewrite (so_reviews _ Hok _ _ Hst).
  destruct (Next_from _ _ _ _ _ _ Hnext) as (Hfrom & _). by rewrite bool_decide_false by congruence.
Qed.

Lemma applyLocked_sound clock db id cur t ev actor input now stored db' :
  store_ok db → stored_as db id cur → input_ok input → Next cur ev actor input now = Ok t →
  applyLocked clock cur t db = Ok (stored, db') →
  stored = canon (ApplyTo t cur) ∧ fence_checked db cur t ∧
  toUUID (d_SupplierID (e_Details (ApplyTo t cur))) = Some (d_SupplierID (e_Details stored)) ∧
  moved clock id t (transition_row id cur stored t) stored db db'.
Proof.
  intros Hok Hst Hin Hnext Happ. destruct (stored_as_id _ _ _ Hst) as (Hid & Huid & _).
  destruct Hst as (row & Hl & Hro). assert (stored_as db id cur) as Hst by by exists row.
  apply bind_Ok in Happ as (u0 & db0 & Hcas & Happ).
  apply compareAndSwap_inv in Hcas as (-> & _).
  apply bind_Ok in Happ as (u1 & db1 & Hf & Happ).
  assert (db1 = db ∧ fence_checked db cur t) as [-> Hfence].
  { unfold fence_checked. destruct (editTargetSupplier cur t) as [to|]; [|by injection Hf as _ <-].
    unfold parseUUID in Hf. destruct (toUUID to) as [s|] eqn:Hto; [|done].
    apply bind_Ok in Hf as (? & ? & [= <- <-] & Hf). apply checkFence_inv in Hf as [-> Hnf].
    split; [done|]. intros ? [= <-]. eauto. }
  apply bind_Ok in Happ as (params & db2 & Hp & Happ). apply lift_Ok in Hp as [Hp ->].
  unfold updateParams in Hp. destruct (insertParams _) as [prow|] eqn:Hprow; [|done].
  injection Hp as <-. apply bind_Ok in Happ as (updated & db3 & Hup & Happ).
  destruct updated as [row'|]; [|done].
  destruct (updated_row_ok _ _ _ _ _ _ _ _ _ _ _ _ Hl Hro Hin Hnext Hprow Hup) as (Hro' & -> & Hrq & Hck).
  apply bind_Ok in Happ as (stored' & db4 & Hread & Happ). apply lift_Ok in Hread as [Hread ->].
  rewrite (ro_read _ _ _ Hro') in Hread. injection Hread as <-.
  apply bind_Ok in Happ as (u5 & db5 & Hw & [= <- <-]).
  destruct (errandFromRow_frame _ _ (ro_read _ _ _ Hro')) as (Hid' & _). rewrite (ro_key _ _ _ Hro') in Hid'.
  apply (writeTransitionRows_inv _ _ _ _ _ _ _ id) in Hw as (rs & Hrm & Hins); [|done|done].
  assert (reviews_moved id t db rs) as Hrm' by (destruct Hrm; by split).
  split; [done|]. split; [done|]. split.
  { destruct (insertParams_inv _ _ Hprow) as (_ & _ & Hsu & _).
    cbn [canon e_Details canon_details d_SupplierID]. unfold canon_id. by rewrite Hsu. }
  eapply (move_errand _ _ _ row' _ _ _ rs); eauto.
  - intros id2 row2 Hne Hl2 Heq1 Heq2. rewrite Hrq in Heq1. rewrite Hck in Heq2.
    by destruct (Hne (so_create _ Hok _ _ _ _ Hl2 Hl Heq1 Heq2)).
  - intros e g Hst2 Hg. rewrite (stored_as_fun _ _ _ _ Hst2 Hst) in Hg. apply canon_tag_ok.
    eapply tag_ok_next; eauto using ro_ok.
  - by eapply review_count.
  - intros r Hr. destruct (Next_row_tags _ _ _ _ _ _ _ (ro_ok _ _ _ Hro) Hnext Hr) as (Hre & g & Hk & Hg & _ & Hv).
    split; [congruence|]. exists g. rewrite Hid', canon_tag_ok. split_and!; [congruence|done|done].
Qed.

(** ** Create *)

Lemma InsertErrand_inv p db row db' :
  InsertErrand p db = Ok (Some row, db') →
  row = stored_row p ∧ db_errands db !! er_ID p = None ∧ errand_check row = true ∧
  (∀ id r, db_errands db !! id = Some r → er_RequesterID r = er_RequesterID p →
     er_CreateIdempotencyKey r = er_CreateIdempotencyKey p → False) ∧
  db' = set_errands (<[er_ID p := row]> (db_errands db)) db.
Proof.
  unfold InsertErrand. destruct (scan1 _ _) eqn:Hs; [done|]. case_bool_decide as Hn; [done|].
  destruct (errand_check _) eqn:Hc; [|done]. intros [= <- <-]. simpl in *.
  rewrite <- eq_None_not_Some in Hn. split_and!; try done. intros id r Hl Hrq Hck.
  apply (proj1 (scan1_None _ _) Hs) in Hl. unfold same_create_key in Hl.
  by rewrite Hrq, Hck, !bool_decide_true in Hl.
Qed.

Lemma created_row_ok e t actor input now params :
  fresh e → toUUID (e_ID e) = Some (e_ID e) → input_ok input →
  Next e EventSubmit actor input now = Ok t → insertParams (ApplyTo t e) = Ok params →
  errand_check (stored_row params) = true → row_ok (e_ID e) (stored_row params) (canon (ApplyTo t e)).
Proof.
  intros Hfr Hid Hin Hnext Hp Hck. pose proof (fresh_ok _ Hfr) as Hok.
  destruct (Next_from _ _ _ _ _ _ Hnext) as (_ & _ & _ & Hto & _).
  assert (in_range (ApplyTo t e)) as Hr.
  { eapply Next_in_range; eauto. intros p Hpe. destruct Hfr as (_ & _ & _ & _ & _ & _ & _ & _ & Hn). congruence. }
  pose proof (insertParams_read _ _ Hr Hp) as Hread.
  destruct (insertParams_inv _ _ Hp) as (_ & Hu & _ & _ & _ & _ & _ & _ & Hpk & _).
  destruct (insertParams_suppliers _ _ Hp) as (Hsup & Hpsup).
  change (e_ID (ApplyTo t e)) with (e_ID e) in Hu.
  split; [simpl; congruence|done|done|apply stored_row_idem| | |done| |done|done|exact (canon_pending_snapshot (ApplyTo t e))|exact Hpsup].
  - apply canon_ok; [done|]. by eapply Next_errand_ok.
  - destruct Hr as (? & ? & Hpe). split; [done|split; [done|]]. simpl.
    intros p (p0 & Hp0 & ->)%fmap_Some. exact (Hpe _ Hp0).
  - simpl. rewrite Hpk. simpl. by destruct (applyTo _ _).
Qed.

(** [db0] is the database at the first statement, [db1] at the insert. *)
Lemma Create_sound clock db0 db1 e t actor input now stored db' :
  store_ok db1 → fresh e → toUUID (e_ID e) = Some (e_ID e) → input_ok input →
  Next e EventSubmit actor input now = Ok t →
  Create clock (λ _, db1) e t db0 = Ok ((stored, true), db') →
  stored = canon (ApplyTo t e) ∧ db_errands db1 !! e_ID e = None ∧
  (∃ s, toUUID (d_SupplierID (e_Details (ApplyTo t e))) = Some s ∧ fenced s db0 = false) ∧
  moved clock (e_ID e) t (transition_row (e_ID e) e stored t) stored db1 db'.
Proof.
  intros Hok Hfr Hid Hin Hnext Hcr. unfold Create in Hcr.
  destruct (_ || _); [done|]. case_bool_decide; [done|].
  apply bind_Ok in Hcr as (params & dbx & Hp & Hcr). apply lift_Ok in Hp as [Hp ->].
  apply bind_Ok in Hcr as (existing & dbx & Hg & Hcr). injection Hg as _ <-.
  destruct existing as [row|].
  { apply bind_Ok in Hcr as (? & ? & _ & Hcr). by injection Hcr. }
  apply bind_Ok in Hcr as (u1 & dbx & Hf & Hcr). apply checkFence_inv in Hf as [-> Hnf].
  apply bind_Ok in Hcr as (u2 & dbx & Hbt & Hcr). injection Hbt as _ <-.
  apply bind_Ok in Hcr as (ins & dbx & Hi & Hcr). destruct ins as [row|]; last first.
  { apply bind_Ok in Hcr as (ex & ? & _ & Hcr). destruct ex; [|done].
    apply bind_Ok in Hcr as (? & ? & _ & Hcr). by injection Hcr. }
  apply InsertErrand_inv in Hi as (-> & Hnone & Hchk & Huniq & ->).
  apply bind_Ok in Hcr as (st & dbx & Hread & Hcr). apply lift_Ok in Hread as [Hread ->].
  apply bind_Ok in Hcr as (u5 & dbx & Hw & [= -> ->]).
  pose proof (created_row_ok _ _ _ _ _ _ Hfr Hid Hin Hnext Hp Hchk) as Hro.
  rewrite (ro_read _ _ _ Hro) in Hread. injection Hread as <-.
  assert (er_ID params = e_ID e) as Hpid by exact (ro_key _ _ _ Hro). rewrite Hpid in *.
  destruct (insertParams_inv _ _ Hp) as (_ & _ & Hsup & _).
  destruct (errandFromRow_frame _ _ (ro_read _ _ _ Hro)) as (Hid' & _). rewrite (ro_key _ _ _ Hro) in Hid'.
  apply (writeTransitionRows_inv _ _ _ _ _ _ _ (e_ID e)) in Hw as (rs & Hrm & Hins); [|done|done].
  assert (reviews_moved (e_ID e) t db1 rs) as Hrm' by (destruct Hrm; by split).
  split_and!; [done|done|by eauto|]. eapply (move_errand _ _ _ (stored_row params) _ _ _ rs); eauto.
  - intros e2 g (row2 & Hl2 & _). congruence.
  - rewrite (rm_own _ _ _ _ Hrm'). change (e_Status (canon (ApplyTo t e))) with (t_To t).
    case_bool_decide; [done|]. destruct (Next_from _ _ _ _ _ _ Hnext) as (Hfrom & _).
    rewrite bool_decide_false by (rewrite Hfrom; destruct Hfr as (-> & _); done).
    destruct (open_reviews db1 (e_ID e)) as [|r rs'] eqn:Hor; [done|]. exfalso.
    assert (In r (open_reviews db1 (e_ID e))) as [Hr Ho]%filter_In by (rewrite Hor; by left).
    unfold open_review in Ho. bool_props. apply list_elem_of_In in Hr.
    apply (so_review_errand _ Hok) in Hr as [row Hrow]. congruence.
  - intros r Hr. destruct (Next_row_tags _ _ _ _ _ _ _ (fresh_ok _ Hfr) Hnext Hr) as (Hre & g & Hk & Hg & _ & Hv).
    split; [done|]. exists g. rewrite Hid', canon_tag_ok. done.
Qed.

End safe.
