(* ===== verification/StoreSystem.v ===== *)
(** * order-service: every history of the store

    The store and its writers as a transition system: requests decide on an
    errand they read earlier, the deadline jobs claim batches, supplier-service
    acquires and closes fences, and the dispatcher changes delivery states.
    [reachable db seen] holds for every database such a history leads to, with
    the errands that were read on the way. *)

From S2P Require Import Prelude GoText Json GoTime Errand ErrandState ErrandJson ErrandInv ErrandStore Fence OpsRepo StoreInv StoreSafe.

Section system.
Context `{Hpg : Postgres, Hpgok : !PostgresOk}.

(** ** Errands only move forward *)

Lemma Next_last_seq e ev actor input now t :
  errand_ok e → Next e ev actor input now = Ok t → last_seq e < last_seq (ApplyTo t e).
Proof.
  intros Hok Hnext. destruct (Next_version _ _ _ _ _ _ Hok Hnext) as (_ & Hv).
  unfold last_seq. change (e_Version (ApplyTo t e)) with (t_NewVersion t).
  destruct Hv as [->|(_ & -> & -> & [p ->])]; [|lia].
  destruct (e_PendingEdit e), (e_PendingEdit (ApplyTo t e)); lia.
Qed.

(** Every stored errand is still there, the same or further on. *)
Definition grows (db db' : ODB) : Prop :=
  ∀ id e, stored_as db id e → ∃ e', stored_as db' id e' ∧ (e' = e ∨ last_seq e < last_seq e').

Lemma grows_refl db : grows db db.
Proof. intros id e ?. eauto. Qed.
Lemma grows_trans db1 db2 db3 : grows db1 db2 → grows db2 db3 → grows db1 db3.
Proof.
  intros H1 H2 id e (e2 & Hs2 & Hc2)%H1. apply H2 in Hs2 as (e3 & Hs3 & Hc3). exists e3.
  split; [done|]. destruct Hc2 as [->|?], Hc3 as [->|?]; auto with lia.
Qed.
Lemma grows_ext db db' : db_errands db' = db_errands db → grows db db'.
Proof. intros Heq id e Hst. exists e. split; [by eapply stored_as_ext|by left]. Qed.

Lemma moved_grows clock id t tr e' db db' :
  moved clock id t tr e' db db' → (∀ e, stored_as db id e → last_seq e < last_seq e') → grows db db'.
Proof.
  intros Hm Hlt id2 e Hst. destruct (decide (id2 = id)) as [->|Hne].
  - exists e'. split; [apply Hm|right; by apply Hlt].
  - exists e. split; [|by left]. destruct Hst as (row & Hl & Hro). exists row.
    by rewrite (mv_other _ _ _ _ _ _ _ Hm).
Qed.

(** What was read is the past of what is stored; nothing else has its
    position. *)
Definition seen_inv (db : ODB) (seen : list Errand) : Prop :=
  ∀ e, e ∈ seen → errand_ok e ∧
    ∃ cur, stored_as db (e_ID e) cur ∧ last_seq e ≤ last_seq cur ∧
           (last_seq e = last_seq cur → e = cur).

Lemma seen_grows db db' seen : grows db db' → seen_inv db seen → seen_inv db' seen.
Proof.
  intros Hg Hs e He. destruct (Hs e He) as (Hok & cur & Hst & Hle & Heq). split; [done|].
  apply Hg in Hst as (cur' & Hst' & [->|Hlt]); [eauto|]. exists cur'. split_and!; [done|lia|lia].
Qed.

(** ** The compare-and-swap *)

Definition pending_key (e : Errand) : string :=
  match e_PendingEdit e with Some p => pe_Key p | None => "" end.

Lemma IdempotencyKey_nonempty id op v : IdempotencyKey id op v ≠ "".
Proof.
  destruct (IdempotencyKey_split id op v) as (r & -> & _).
  intros Heq%(f_equal String.length). rewrite length_sapp in Heq. simpl in Heq. lia.
Qed.

Lemma Next_expected e ev actor input now t :
  errand_ok e → Next e ev actor input now = Ok t →
  t_From t = e_Status e ∧ t_ErrandID t = e_ID e ∧ t_ExpectedVersion t = e_Version e ∧
  t_ExpectedPendingEditKey t = pending_key e.
Proof.
  intros Hok Hnext. destruct (Next_version _ _ _ _ _ _ Hok Hnext) as (Hv & _).
  destruct (Next_from _ _ _ _ _ _ Hnext) as (Hf & Hi & _). split_and!; try done.
  apply Next_inv in Hnext as (rule & [_ _ _ _ _ _ (t0 & Happ & ->)]). simpl.
  destruct (drop_edit_frame e t0) as (_ & _ & _ & _ & _ & _ & -> & _).
  by apply applyEvent_frame in Happ as (_ & _ & _ & _ & _ & _ & ->).
Qed.

(** Equal version and pending-edit key identify the state of an errand. *)
Lemma cas_position e cur :
  errand_ok e → errand_ok cur → e_ID e = e_ID cur → e_Version cur = e_Version e →
  pending_key cur = pending_key e → last_seq e = last_seq cur.
Proof.
  intros He Hc Hid Hv Hk. unfold last_seq, pending_key in *. rewrite Hv.
  pose proof (eo_pending _ He) as Hpe. pose proof (eo_pending _ Hc) as Hpc.
  destruct (e_PendingEdit e) as [p|], (e_PendingEdit cur) as [q|]; try done; exfalso.
  - destruct (Hpe _ eq_refl) as (_ & Hkey & _). by apply (IdempotencyKey_nonempty (e_ID e) "adjust" (e_Version e)); congruence.
  - destruct (Hpc _ eq_refl) as (_ & Hkey & _). by apply (IdempotencyKey_nonempty (e_ID cur) "adjust" (e_Version cur)); congruence.
Qed.

Lemma cas_same db seen e cur t ev actor input now u db' :
  seen_inv db seen → e ∈ seen → stored_as db (e_ID e) cur → Next e ev actor input now = Ok t →
  compareAndSwap cur t db = Ok (u, db') → e = cur.
Proof.
  intros Hs He Hst Hnext (_ & Hf & Hv & Hk)%compareAndSwap_inv.
  destruct (Hs e He) as (Hok & cur' & Hst' & _ & Heq).
  rewrite (stored_as_fun _ _ _ _ Hst' Hst) in Heq.
  destruct (Next_expected _ _ _ _ _ _ Hok Hnext) as (_ & _ & Hev & Hek).
  apply Heq, cas_position; try congruence.
  - destruct Hst as (row & _ & Hro). apply Hro.
  - by destruct (stored_as_id _ _ _ Hst) as (-> & _).
  - fold (pending_key cur) in Hk. congruence.
Qed.

(** ** Writers *)

(** A transition that was applied was decided on the errand as stored. *)
Lemma applyLocked_step clock db seen e cur t ev actor input now stored db' :
  store_ok db → seen_inv db seen → e ∈ seen → stored_as db (e_ID e) cur → input_ok input →
  Next e ev actor input now = Ok t → applyLocked clock cur t db = Ok (stored, db') →
  e = cur ∧ stored = canon (ApplyTo t e) ∧ fence_checked db e t ∧
  toUUID (d_SupplierID (e_Details (ApplyTo t e))) = Some (d_SupplierID (e_Details stored)) ∧
  moved clock (e_ID e) t (transition_row (e_ID e) e stored t) stored db db' ∧ grows db db'.
Proof.
  intros Hok Hs He Hst Hin Hnext Happ. assert (e = cur) as <-.
  { pose proof Happ as Hcas. apply bind_Ok in Hcas as (u0 & db0 & Hcas & _).
    by eapply (cas_same db seen e cur). }
  destruct (applyLocked_sound _ _ _ _ _ _ _ _ _ _ _ Hok Hst Hin Hnext Happ) as (-> & Hf & Hsu & Hm).
  split_and!; [done|done|done|done|done|]. eapply moved_grows; [done|]. intros e2 Hst2.
  rewrite (stored_as_fun _ _ _ _ Hst2 Hst), canon_last_seq. eapply Next_last_seq; [|done].
  by apply (Hs e He).
Qed.

Lemma Apply_inv clock t db stored db' :
  Apply clock t db = Ok (stored, db') →
  ∃ id row cur, toUUID (t_ErrandID t) = Some id ∧ db_errands db !! id = Some row ∧
    errandFromRow row = Ok cur ∧ applyLocked clock cur t db = Ok (stored, db').
Proof.
  unfold Apply, appErr, notFound, fail. case_bool_decide; [done|].
  destruct (toUUID _) as [id|] eqn:Hu; [|done].
  intros (found & ? & [= <- <-] & Hrun)%bind_Ok. destruct (db_errands db !! id) as [row|] eqn:Hl; [|done].
  apply bind_Ok in Hrun as (cur & ? & [Hread ->]%lift_Ok & Hrun). eauto 10.
Qed.

Lemma Apply_step clock db seen e t ev actor input now stored db' :
  store_ok db → seen_inv db seen → e ∈ seen → input_ok input →
  Next e ev actor input now = Ok t → Apply clock t db = Ok (stored, db') →
  stored_as db (e_ID e) e ∧ stored = canon (ApplyTo t e) ∧ fence_checked db e t ∧
  toUUID (d_SupplierID (e_Details (ApplyTo t e))) = Some (d_SupplierID (e_Details stored)) ∧
  moved clock (e_ID e) t (transition_row (e_ID e) e stored t) stored db db' ∧ grows db db'.
Proof.
  intros Hok Hs He Hin Hnext Happ.
  destruct (Apply_inv _ _ _ _ _ Happ) as (id & row & cur & Hu & Hl & Hread & Hlocked).
  destruct (Hs e He) as (Heok & cur' & Hst & _). destruct (stored_as_id _ _ _ Hst) as (Hid & Huid & _).
  destruct (Next_expected _ _ _ _ _ _ Heok Hnext) as (_ & Hti & _).
  rewrite Hti, Huid in Hu. injection Hu as <-. assert (cur' = cur) as ->.
  { destruct Hst as (row' & Hl' & Hro'). pose proof (ro_read _ _ _ Hro'). congruence. }
  destruct (applyLocked_step _ _ _ _ _ _ _ _ _ _ _ _ Hok Hs He Hst Hin Hnext Hlocked) as (-> & ?).
  done.
Qed.

(** ** Suppliers *)

(** An active errand is to be picked up at [s], now or once its pending edit
    is confirmed. *)
Definition targets (s : string) (e : Errand) : Prop :=
  Active (e_Status e) = true ∧
  (d_SupplierID (e_Details e) = s ∨
   ∃ p, e_PendingEdit e = Some p ∧ uuid_cast (d_SupplierID (pe_Details p)) = Some s).

Definition no_active (s : string) (db : ODB) : Prop := ∀ id e, stored_as db id e → ¬ targets s e.

(** Where the details and the pending edit after a transition come from. *)
Lemma Next_changes e ev actor input now t :
  Next e ev actor input now = Ok t →
  t_Event t = ev ∧ (e_Status e ≠ StatusNone → Active (e_Status e) = true) ∧
  (c_Details (t_Changes t) = None ∨ ev = EventEdit ∨
   ∃ p, e_PendingEdit e = Some p ∧ c_Details (t_Changes t) = Some (pe_Details p)) ∧
  (∀ p, e_PendingEdit (ApplyTo t e) = Some p →
     e_PendingEdit e = Some p ∨
     (ev = EventEdit ∧ c_Details (t_Changes t) = None ∧ u_Value (c_PendingEdit (t_Changes t)) = Some p)).
Proof.
  intros (rule & [Hin Hf <- _ _ _ (t0 & Happ & ->)])%Next_inv. rewrite ApplyTo_outbox.
  destruct (drop_edit_frame e t0) as (_ & _ & _ & Hev & _).
  pose proof Happ as (_ & _ & _ & Hev0 & _)%applyEvent_frame. cbn [t_Event t_Changes with_outbox].
  rewrite Hev, Hev0. clear Hev Hev0. unfold applyEvent, newError in Happ.
  destruct e as [id st ver req cour det pd dd da vd rr ck pe ca ua].
  each_rule Hin; simpl in *; subst st; break_in Happ; simplify_eq/=;
    unfold drop_edit, applyTo; simpl; try (destruct pe as [p0|]); simpl;
    split_and!; try done; intros; simplify_eq/=; eauto 10.
Qed.

(** A transition does not bring an errand to a fenced supplier. *)
Lemma Next_targets e ev actor input now t db s :
  errand_ok e → toUUID (d_SupplierID (e_Details e)) = Some (d_SupplierID (e_Details e)) →
  e_Status e ≠ StatusNone → Next e ev actor input now = Ok t → fence_checked db e t →
  is_Some (toUUID (d_SupplierID (e_Details (ApplyTo t e)))) →
  fenced s db = true → targets s (canon (ApplyTo t e)) → targets s e.
Proof.
  intros Hok Hcu Hns Hnext Hfc [u Hu] Hfn [_ Htgt].
  destruct (Next_changes _ _ _ _ _ _ Hnext) as (Hev & Hact & Hdet & Hpend).
  split; [by apply Hact|].
  assert (∀ to, editTargetSupplier e t = Some to → uuid_cast to ≠ Some s) as Hto.
  { intros to Hto Hcast. destruct (Hfc to Hto) as (s' & Hs' & Hnf).
    rewrite (uuid_cast_toUUID _ _ Hs') in Hcast. congruence. }
  assert (∀ to, ev = EventEdit →
    match c_Details (t_Changes t), u_Value (c_PendingEdit (t_Changes t)) with
    | Some d, _ => d_SupplierID d | None, Some p => d_SupplierID (pe_Details p) | None, None => "" end = to →
    uuid_cast to = Some s → d_SupplierID (e_Details e) = s) as Hedit.
  { intros to Hee Heq Hcast. unfold editTargetSupplier in Hto.
    rewrite Hev, Hee, (bool_decide_true (EventEdit = _)), Heq in Hto by done. simpl in Hto.
    destruct (decide (to = "")) as [->|Hne]; [by rewrite uuid_cast_empty in Hcast|].
    destruct (decide (to = d_SupplierID (e_Details e))) as [->|Hne'].
    - rewrite (uuid_cast_toUUID _ _ Hcu) in Hcast. congruence.
    - rewrite !bool_decide_false in Hto by done. by destruct (Hto _ eq_refl). }
  destruct Htgt as [Hs|(p & Hp & Hcast)].
  - simpl in Hs, Hu. unfold canon_id in Hs. rewrite Hu in Hs. simpl in Hs. subst u.
    destruct (c_Details (t_Changes t)) as [d|] eqn:Hd.
    + destruct Hdet as [?|[Hee|(p & Hp & [= ->])]]; [done|..].
      * left. by eapply (Hedit (d_SupplierID d)), uuid_cast_toUUID.
      * right. exists p. split; [done|]. by apply uuid_cast_toUUID.
    + left. congruence.
  - change (e_PendingEdit (canon (ApplyTo t e))) with (canon_pending <$> e_PendingEdit (ApplyTo t e)) in Hp.
    apply fmap_Some in Hp as (p0 & Hp0 & ->). change (uuid_cast (d_SupplierID (pe_Details p0)) = Some s) in Hcast.
    destruct (Hpend _ Hp0) as [Hp|(Hee & Hn & Hv)]; [right; eauto|].
    left. eapply (Hedit (d_SupplierID (pe_Details p0))); [done| |done]. by rewrite Hn, Hv.
Qed.

Lemma stored_supplier db id e :
  stored_as db id e → toUUID (d_SupplierID (e_Details e)) = Some (d_SupplierID (e_Details e)).
Proof.
  intros (row & _ & Hro). destruct (errandFromRow_frame _ _ (ro_read _ _ _ Hro)) as (_ & _ & _ & _ & _ & _ & ->).
  apply Hro.
Qed.

Lemma fenced_ext s db db' : db_fences db' = db_fences db → fenced s db' = fenced s db.
Proof. unfold fenced. by intros ->. Qed.

Lemma moved_no_active clock id t tr e' db db' s :
  moved clock id t tr e' db db' → ¬ targets s e' → no_active s db → no_active s db'.
Proof.
  intros Hm Hnt Hna id2 e2 Hst. destruct (decide (id2 = id)) as [->|Hne].
  - by rewrite (stored_as_fun _ _ _ _ Hst (mv_at _ _ _ _ _ _ _ Hm)).
  - destruct Hst as (row & Hl & Hro). rewrite (mv_other _ _ _ _ _ _ _ Hm) in Hl by done.
    eapply Hna. by exists row.
Qed.

(** The same errands, and no outbox row lost. *)
Definition extends (db db' : ODB) : Prop :=
  db_outbox db ⊆ db_outbox db' ∧ dom (db_errands db') = dom (db_errands db).
#[export] Instance extends_pre : PreOrder extends.
Proof. split; [done|]. intros db1 db2 db3 [H1 H2] [H3 H4]. split; [by etransitivity|congruence]. Qed.

Lemma moved_extends clock id t tr e e' db db' :
  moved clock id t tr e' db db' → stored_as db id e → extends db db'.
Proof.
  intros Hm (row & Hl & _). split; [apply Hm|]. destruct (mv_at _ _ _ _ _ _ _ Hm) as (row' & Hl' & _).
  apply set_eq. intros id2. rewrite !elem_of_dom. destruct (decide (id2 = id)) as [->|Hne].
  - rewrite Hl, Hl'. by split; eauto.
  - by rewrite (mv_other _ _ _ _ _ _ _ Hm).
Qed.

(** [decide] only ever answers with what [Next] decided. *)
Definition decides_next (decide : Errand → res Failure (option Transition)) : Prop :=
  ∀ e t, decide e = Ok (Some t) →
    ∃ ev actor input now, input_ok input ∧ Next e ev actor input now = Ok t.

Lemma apply_batch_step clock seen decided locked db u db' :
  (∀ t, t ∈ decided → ∃ e ev actor input now, e ∈ seen ∧ input_ok input ∧
     Next e ev actor input now = Ok t) →
  (∀ id cur, locked !! id = Some cur → stored_as db id cur) →
  store_ok db → seen_inv db seen → apply_batch clock decided locked db = Ok (u, db') →
  store_ok db' ∧ grows db db' ∧ db_fences db' = db_fences db ∧
  (∀ s, fenced s db = true → no_active s db → no_active s db') ∧ extends db db'.
Proof.
  revert locked db. induction decided as [|t decided IH]; intros locked db Hdec Hlocked Hok Hs; simpl.
  { intros [= <- <-]. split_and!; [done|apply grows_refl|done|done|done]. }
  destruct (locked !! t_ErrandID t) as [cur|] eqn:Hl; [|done]. case_bool_decide; [done|].
  intros (stored & db1 & Happ & Hrun)%bind_Ok.
  destruct (Hdec t) as (e & ev & actor & input & now & He & Hin & Hnext); [by left|].
  destruct (Hs e He) as (Heok & _). destruct (Next_expected _ _ _ _ _ _ Heok Hnext) as (_ & Hti & _).
  pose proof (Hlocked _ _ Hl) as Hst. rewrite Hti in Hst, Hl.
  destruct (applyLocked_step _ _ _ _ _ _ _ _ _ _ _ _ Hok Hs He Hst Hin Hnext Happ)
    as (<- & -> & Hfc & Hsu & Hm & Hg).
  destruct (IH (<[t_ErrandID t := canon (ApplyTo t e)]> locked) db1) as (Hok' & Hg' & Hf' & Hq' & Hx'); [..|done|].
  - intros t' Ht'. apply Hdec. by right.
  - intros id c. rewrite Hti. intros [[<- <-]|[Hne Hlk]]%lookup_insert_Some; [apply Hm|].
    destruct (Hlocked _ _ Hlk) as (row & Hr & Hro). exists row.
    by rewrite (mv_other _ _ _ _ _ _ _ Hm).
  - apply Hm.
  - by eapply seen_grows.
  - pose proof (mv_fences _ _ _ _ _ _ _ Hm) as Hf.
    split_and!; [done|by eapply grows_trans|by rewrite Hf'| |etransitivity; [by eapply moved_extends|done]].
    intros s Hfn Hna. apply Hq'; [by rewrite (fenced_ext s db)|].
    eapply moved_no_active; [done| |done]. intros Htgt. eapply (Hna (e_ID e) e); [done|].
    pose proof Hst as (row & _ & Hro).
    eapply Next_targets; eauto using stored_supplier, ro_ok, ro_status.
Qed.

Lemma decide_batch_inv decide batch locked ts locked' :
  decide_batch decide batch locked = Ok (ts, locked') →
  (∀ t, t ∈ ts → ∃ e, e ∈ batch ∧ decide e = Ok (Some t)) ∧
  (∀ id e, locked' !! id = Some e → (e ∈ batch ∧ id = e_ID e) ∨ locked !! id = Some e).
Proof.
  revert locked ts. induction batch as [|e batch IH]; intros locked ts; simpl.
  { intros [= <- <-]. split; [intros t; by rewrite elem_of_nil|auto]. }
  destruct (decide e) as [choice|] eqn:Hd; [|done].
  destruct (decide_batch _ _ _) as [[ts0 locked0]|] eqn:Hb; [|done]. intros [= <- <-].
  destruct (IH _ _ Hb) as [IH1 IH2]. split.
  - intros t. destruct choice as [t0|]; rewrite ?elem_of_cons; [intros [->|Hin]|intros Hin].
    1: (exists e; split; [by left|done]).
    all: destruct (IH1 _ Hin) as (e' & ? & ?); exists e'; split; [by right|done].
  - intros id e' [[Hin ->]|Hl]%IH2; [left; split; [by right|done]|].
    apply lookup_insert_Some in Hl as [[<- <-]|[_ Hl]]; [left; split; [by left|done]|by right].
Qed.

Lemma errandsFromRows_inv rows es e :
  errandsFromRows rows = Ok es → e ∈ es → ∃ row, row ∈ rows ∧ errandFromRow row = Ok e.
Proof.
  revert es. induction rows as [|row rows IH]; intros es; simpl.
  { intros [= <-]. by rewrite elem_of_nil. }
  destruct (errandFromRow row) as [e0|] eqn:Hr; [|done].
  destruct (errandsFromRows rows) as [es0|]; [|done]. intros [= <-] [->|Hin]%elem_of_cons.
  - exists row. split; [by left|done].
  - destruct (IH _ eq_refl Hin) as (row' & ? & ?). exists row'. split; [by right|done].
Qed.

Lemma claim_query_stored k skip now limit db row :
  row ∈ claim_query k skip now limit db →
  ∃ id, db_errands db !! id = Some row ∧ row_due k now row = true.
Proof.
  unfold claim_query. intros (i & Hi & _)%elem_of_take. apply list_elem_of_lookup_2 in Hi.
  rewrite merge_sort_Permutation in Hi.
  apply list_elem_of_fmap in Hi as ([id row'] & -> & [Hl Hd]%elem_of_scan). simpl in *.
  bool_props. eauto.
Qed.

(** Every errand stored now. *)
Definition current (db : ODB) : list Errand :=
  omap (λ kr, match errandFromRow kr.2 with Ok e => Some e | Err _ => None end)
    (map_to_list (db_errands db)).

Lemma elem_of_current db e : store_ok db → e ∈ current db ↔ stored_as db (e_ID e) e.
Proof.
  intros Hok. unfold current. rewrite list_elem_of_omap. split.
  - intros ([id row] & Hin & He). apply elem_of_map_to_list in Hin. simpl in He.
    destruct (so_rows _ Hok _ _ Hin) as (e0 & Hro). rewrite (ro_read _ _ _ Hro) in He. simplify_eq.
    assert (stored_as db id e) as Hst by by exists row.
    by destruct (stored_as_id _ _ _ Hst) as (-> & _).
  - intros (row & Hl & Hro). exists (e_ID e, row). rewrite elem_of_map_to_list. split; [done|].
    simpl. by rewrite (ro_read _ _ _ Hro).
Qed.

Lemma seen_current db : store_ok db → seen_inv db (current db).
Proof.
  intros Hok e He. apply elem_of_current in He; [|done]. pose proof He as (row & _ & Hro).
  split; [apply Hro|]. exists e. split_and!; [done|lia|done].
Qed.

Lemma ClaimDue_step clock k skip now limit decide db n db' :
  store_ok db → decides_next decide → ClaimDue clock k skip now limit decide db = Ok (n, db') →
  store_ok db' ∧ grows db db' ∧ db_fences db' = db_fences db ∧
  (∀ s, fenced s db = true → no_active s db → no_active s db') ∧ extends db db'.
Proof.
  intros Hok Hdec. unfold ClaimDue. destruct (limit <? 1); [done|].
  intros (rows & db0 & [= <- <-] & Hrun)%bind_Ok.
  apply bind_Ok in Hrun as (batch & ? & [Hb ->]%lift_Ok & Hrun).
  apply bind_Ok in Hrun as ([ts locked] & ? & [Hd ->]%lift_Ok & Hrun).
  apply bind_Ok in Hrun as (u & db1 & Happ & [= _ <-]).
  apply decide_batch_inv in Hd as [Hts Hlk].
  assert (∀ e, e ∈ batch → stored_as db (e_ID e) e) as Hbatch.
  { intros e He. destruct (errandsFromRows_inv _ _ _ Hb He) as (row & Hin & Hr).
    apply claim_query_stored in Hin as (id & Hl & _). apply elem_of_current; [done|].
    unfold current. apply list_elem_of_omap. exists (id, row). rewrite elem_of_map_to_list.
    simpl. by rewrite Hr. }
  eapply (apply_batch_step clock (current db)); [| |done|by apply seen_current|done].
  - intros t Ht. destruct (Hts t Ht) as (e & He & Hde).
    destruct (Hdec e t Hde) as (ev & actor & input & now' & Hin & Hn). exists e, ev, actor, input, now'.
    split_and!; [|done|done]. by apply elem_of_current, Hbatch.
  - intros id cur [[Hin ->]|Hl]%Hlk; [by apply Hbatch|]. by rewrite lookup_empty in Hl.
Qed.

(** ** Other writers *)

Lemma store_ok_ext db db' :
  db_errands db' = db_errands db → db_reviews db' = db_reviews db → outbox_inv db' →
  store_ok db → store_ok db'.
Proof.
  intros He Hr Ho [H1 H2 H3 H4 H5]. split; rewrite ?He, ?Hr; auto.
  intros id e Hst. unfold open_reviews. rewrite Hr. apply H4. by eapply stored_as_ext.
Qed.

Lemma rejection_key_foreign id a req :
  has_colon id = false → action_valid a = true → foreign_key (RejectionKey id a req).
Proof.
  intros Hid Ha. exists id, (action_string a +:+ "-rejected"), req.
  unfold RejectionKey, action_valid in *. simpl in Ha.
  assert (action_string a = "accept" ∨ action_string a = "cancel" ∨ action_string a = "pickup") as Hact.
  { repeat (apply orb_true_iff in Ha as [Ha|Ha]); bool_props; auto. done. }
  destruct Hact as [->|[->| ->]]; split_and!; try done; by vm_compute.
Qed.

Lemma RecordRejection_step clock r db u db' :
  store_ok db → has_colon (rj_ErrandID r) = false → RecordRejection clock r db = Ok (u, db') →
  store_ok db' ∧ grows db db' ∧ db_fences db' = db_fences db.
Proof.
  intros Hok Hc. unfold RecordRejection. destruct (action_valid _) eqn:Ha; [|done]. simpl.
  case_bool_decide; [done|]. destruct (toUUID _) as [id|]; [|done].
  intros (found & ? & [= <- <-] & Hrun)%bind_Ok. destruct (db_errands db !! id) as [row|] eqn:Hl; [|done].
  destruct (enc_rejection _ _ _) as [payload|]; [|done].
  apply bind_Ok in Hrun as (n & db1 & Hins & [= _ <-]). unfold InsertOutboxIfAbsent in Hins.
  destruct (scan1 _ _) as [|]; [injection Hins as _ <-; split_and!; [done|apply grows_refl|done]|].
  apply bind_Ok in Hins as (u1 & db2 & Hins & [= _ ->]).
  destruct (so_rows _ Hok _ _ Hl) as (e & Hro).
  assert (outbox_inv db1) as Ho.
  { eapply InsertOutbox_keeps; [done|apply Hok|by exists row|]. right. by apply rejection_key_foreign. }
  apply InsertOutbox_inv in Hins as (_ & _ & ->).
  split_and!; [by apply (store_ok_ext db)|by apply grows_ext|done].
Qed.

(** What a reminder writes: nothing, or its row while the errand is in the
    state and version it was raised for. *)
Lemma InsertCurrentReminder_inv clock row status version b db db' :
  InsertCurrentReminder clock row status version db = Ok (b, db') →
  ∃ id payload, reminderParams row = Ok (id, payload) ∧
    ((b = false ∧ db' = db) ∨
     ∃ r, b = true ∧ db_errands db !! id = Some r ∧ er_Status r = status ∧ er_Version r = wrap32 version ∧
       InsertOutbox clock (rm_Kind row) (rm_IdempotencyKey row) id payload db = Ok (tt, db')).
Proof.
  intros ([id payload] & ? & Hp & Hr)%bind_Ok. exists id, payload.
  destruct (reminderParams row) as [p|]; [|done]. injection Hp as -> <-. split; [done|].
  apply bind_Ok in Hr as (n & db1 & Hi & [= <- <-]). unfold sql_InsertCurrentReminder in Hi. cbn [fst snd] in Hi.
  destruct (db_errands db !! id) as [r|]; [|injection Hi as <- <-; by left].
  destruct (_ && _) eqn:Hc; [|injection Hi as <- <-; by left]. bool_props.
  unfold sql_InsertReminder, InsertOutboxIfAbsent in Hi. destruct (scan1 _ _); [injection Hi as <- <-; by left|].
  destruct (bind _ _ db) as [[n1 db2]|] eqn:Hb; [|done]. injection Hi as <- <-.
  apply bind_Ok in Hb as ([] & db3 & Hins & [= <- <-]). right. by exists r.
Qed.

Lemma reminder_key_foreign k d :
  has_colon (rd_ErrandID d) = false → 0 < rd_ErrandVersion d → foreign_key (rm_IdempotencyKey (reminder_row k d)).
Proof.
  intros Hc Hv. exists (rd_ErrandID d), (reminder_operation k), (itoa (rd_ErrandVersion d)).
  split_and!; [|done|by destruct k..]. cbn [reminder_row rm_IdempotencyKey]. unfold IdempotencyKey.
  rewrite (proj2 (Z.ltb_lt _ _) Hv). by rewrite !sapp_assoc.
Qed.

Lemma reminder_step clock k d status version b db db' :
  store_ok db → has_colon (rd_ErrandID d) = false → 0 < rd_ErrandVersion d →
  InsertCurrentReminder clock (reminder_row k d) status version db = Ok (b, db') →
  store_ok db' ∧ extends db db' ∧ outbox_only db db'.
Proof.
  intros Hok Hc Hv (id & payload & _ & [[_ ->]|(r & _ & Hl & _ & _ & Hins)])%InsertCurrentReminder_inv.
  { split_and!; [done|by split|apply outbox_only_refl]. }
  destruct (so_rows _ Hok _ _ Hl) as (e & Hro).
  assert (outbox_inv db') as Ho.
  { eapply InsertOutbox_keeps; [done|apply Hok|by exists r|]. right. by apply reminder_key_foreign. }
  pose proof Hins as (_ & _ & ->)%InsertOutbox_inv. split; [by apply (store_ok_ext db)|]. split; [split; [|done]|by eexists _, _].
  simpl. apply insert_subseteq. destruct (db_outbox db !! _) as [r0|] eqn:Hl0; [|done].
  apply (so_outbox _ Hok) in Hl0. lia.
Qed.

Lemma InsertAudit_inv r db db' : InsertAudit r db = Ok (tt, db') → db' = set_audit (db_audit db ++ [r]) db.
Proof. unfold InsertAudit. destruct (_ || _); [done|]. by intros [= <-]. Qed.

Lemma RecordRejection_extends clock r db u db' :
  store_ok db → RecordRejection clock r db = Ok (u, db') → db_errands db' = db_errands db ∧ extends db db'.
Proof.
  intros Hok Hr. unfold RecordRejection in Hr. destruct (negb _); [done|]. case_bool_decide; [done|].
  destruct (toUUID _); [|done]. apply bind_Ok in Hr as (found & ? & [= <- <-] & Hr).
  destruct (db_errands db !! _); [|done]. destruct (enc_rejection _ _ _); [|done].
  apply bind_Ok in Hr as (n & db1 & Hins & [= _ <-]). unfold InsertOutboxIfAbsent in Hins.
  destruct (scan1 _ _); [by injection Hins as _ <-|].
  apply bind_Ok in Hins as (u1 & db2 & (_ & _ & ->)%InsertOutbox_inv & [= _ <-]). split; [done|]. split; [|done].
  simpl. apply insert_subseteq. destruct (db_outbox db !! db_next_outbox db) as [r0|] eqn:Hl; [|done].
  destruct (oi_id _ (so_outbox _ Hok) _ _ Hl). lia.
Qed.

(** The message a row carries, apart from its delivery state. *)
Definition message (r : ORow) : Z * string * string * string * json * Z :=
  (or_ID r, or_Kind r, or_IdempotencyKey r, or_ErrandID r, or_Payload r, or_CreatedAt r).

(** Only delivery states differ. *)
Definition delivery_only (db db' : ODB) : Prop :=
  ∃ m, db' = set_outbox m (db_next_outbox db) db ∧
    ∀ i, message <$> m !! i = message <$> db_outbox db !! i.

Lemma delivery_only_back db (m : gmap Z ORow) i r' :
  (∀ i, message <$> m !! i = message <$> db_outbox db !! i) → m !! i = Some r' →
  ∃ r, db_outbox db !! i = Some r ∧ message r' = message r.
Proof.
  intros Hm Hr. specialize (Hm i). rewrite Hr in Hm. simpl in Hm. symmetry in Hm.
  apply fmap_Some in Hm as (r & ? & ?). eauto.
Qed.

Lemma delivery_step db db' :
  store_ok db → delivery_only db db' → store_ok db' ∧ grows db db' ∧ db_fences db' = db_fences db.
Proof.
  intros Hok (m & -> & Hm). split_and!; [|by apply grows_ext|done].
  apply (store_ok_ext db); [done|done| |done]. destruct (so_outbox _ Hok) as [H1 H2 H3 H4]. split; simpl; [..|done].
  - intros i r (r0 & Hr0 & Heq)%(delivery_only_back _ _ _ _ Hm). injection Heq as -> _ _ _ _ _. by apply H1.
  - intros i i' r r' (r0 & Hr0 & Heq)%(delivery_only_back _ _ _ _ Hm)
      (r1 & Hr1 & Heq')%(delivery_only_back _ _ _ _ Hm). injection Heq as _ _ -> _ _ _.
    injection Heq' as _ _ -> _ _ _. by apply H2.
  - intros i r (r0 & Hr0 & Heq)%(delivery_only_back _ _ _ _ Hm). injection Heq as _ _ -> -> _ _.
    destruct (H3 _ _ Hr0) as (e & Hst & ?). exists e. split; [by eapply stored_as_ext|done].
Qed.

(** A fence stays with its supplier, and a closed fence stays as it is. *)
Definition fence_kept (m m' : gmap string FenceRow) : Prop :=
  ∀ op f, m !! op = Some f →
    ∃ f', m' !! op = Some f' ∧ fr_SupplierID f' = fr_SupplierID f ∧ (fr_State f ≠ FenceOpen → f' = f).

Lemma fence_kept_refl m : fence_kept m m.
Proof. intros op f ?. eauto. Qed.
Lemma fence_kept_trans m1 m2 m3 : fence_kept m1 m2 → fence_kept m2 m3 → fence_kept m1 m3.
Proof.
  intros H1 H2 op f (f2 & Hl2 & Hs2 & Hc2)%H1. apply H2 in Hl2 as (f3 & Hl3 & Hs3 & Hc3).
  exists f3. split_and!; [done|congruence|]. intros Hst. specialize (Hc2 Hst). subst f2. auto.
Qed.

(** Only fences and the audit log differ. *)
Definition fences_only (db db' : ODB) : Prop :=
  ∃ f a, db' = set_audit a (set_fences f db) ∧ fence_kept (db_fences db) f.

Lemma fences_only_kept db db' : fences_only db db' → fence_kept (db_fences db) (db_fences db').
Proof. by intros (f & a & -> & ?). Qed.

Lemma fences_step db db' : store_ok db → fences_only db db' → store_ok db' ∧ grows db db'.
Proof.
  intros Hok (f & a & -> & _). split; [|by apply grows_ext].
  apply (store_ok_ext db); [done|done| |done]. apply (outbox_inv_ext db); [done|done|done|apply Hok].
Qed.

(** ** Fence operations *)

Lemma fences_only_refl db : fences_only db db.
Proof. exists (db_fences db), (db_audit db). split; [by destruct db|apply fence_kept_refl]. Qed.
Lemma fences_only_trans db1 db2 db3 : fences_only db1 db2 → fences_only db2 db3 → fences_only db1 db3.
Proof.
  intros (f & a & -> & Hk) (f' & a' & -> & Hk'). exists f', a'. split; [done|].
  by eapply fence_kept_trans.
Qed.

(** Errands are left alone, and a fence blocks the same suppliers afterwards
    or more. *)
Definition fence_tx {A} (m : M ODB OpsError A) : Prop :=
  ∀ db a db', m db = Ok (a, db') → fences_only db db'.

Lemma fence_tx_bind {A B} (m : M ODB OpsError A) (k : A → M ODB OpsError B) :
  fence_tx m → (∀ a, fence_tx (k a)) → fence_tx (bind m k).
Proof.
  intros Hm Hk db b db'' (a & db' & H1 & H2)%bind_Ok.
  eapply fences_only_trans; [by eapply Hm|by eapply Hk].
Qed.
Lemma fence_tx_ret {A} (a : A) : fence_tx (ret a).
Proof. intros db b db' [= _ <-]. apply fences_only_refl. Qed.
Lemma fence_tx_fail {A} e : fence_tx (fail e : M ODB OpsError A).
Proof. by intros db b db'. Qed.
Lemma fence_tx_read {A} (f : ODB → res OpsError A) :
  fence_tx (λ db, match f db with Ok a => Ok (a, db) | Err e => Err e end).
Proof. intros db b db'. destruct (f db); [intros [= _ <-]; apply fences_only_refl|done]. Qed.
Lemma fence_tx_parse s : fence_tx (ops_parseUUID s).
Proof. unfold ops_parseUUID. case_match; [apply fence_tx_ret|apply fence_tx_fail]. Qed.
Lemma fence_tx_sql_GetFence op : fence_tx (sql_GetFence op).
Proof.
  intros db b db'. unfold sql_GetFence. case_match; [intros [= _ <-]; apply fences_only_refl|done].
Qed.
Lemma fence_tx_InsertFence op s : fence_tx (InsertFence op s).
Proof.
  intros db b db'. unfold InsertFence.
  destruct (db_fences db !! op) eqn:Hl; intros [= _ <-]; [apply fences_only_refl|].
  exists (<[op := mkFenceRow op s FenceOpen]> (db_fences db)), (db_audit db).
  split; [done|]. intros op' f Hf. exists f. split_and!; [|done..].
  rewrite lookup_insert_ne; [done|congruence].
Qed.
Lemma fence_tx_sql_CloseFence op state : fence_tx (sql_CloseFence op state).
Proof.
  intros db b db'. unfold sql_CloseFence.
  destruct (db_fences db !! op) as [f0|] eqn:Hl; [case_bool_decide|]; intros [= _ <-];
    try apply fences_only_refl.
  exists (<[op := mkFenceRow (fr_OperationID f0) (fr_SupplierID f0) state]> (db_fences db)), (db_audit db).
  split; [done|]. intros op' f Hf.
  destruct (decide (op' = op)) as [->|Hne]; [|rewrite lookup_insert_ne by done; eauto].
  rewrite lookup_insert, decide_True by done. simplify_eq. eexists. by split_and!.
Qed.
Lemma fence_tx_active f : fence_tx (withActiveErrands f).
Proof.
  apply fence_tx_bind; [|intros; apply fence_tx_ret].
  apply fence_tx_bind; [apply fence_tx_parse|]. intros u. apply fence_tx_read.
Qed.
Lemma fence_tx_audit actor action op outcome reason : fence_tx (audit actor action op outcome reason).
Proof.
  intros db b db'. unfold audit, InsertAudit. destruct (_ || _); [done|]. intros [= _ <-].
  exists (db_fences db), (db_audit db ++ [mkAuditRow actor action "supplier_fence" op (text reason) outcome]).
  split; [by destruct db|apply fence_kept_refl].
Qed.

#[local] Hint Resolve fence_tx_ret fence_tx_fail fence_tx_parse fence_tx_sql_GetFence
  fence_tx_InsertFence fence_tx_sql_CloseFence fence_tx_active fence_tx_audit : core.

Ltac fence_tac := repeat first [solve [auto] | apply fence_tx_bind; [|intros] | case_match].

Lemma fence_tx_acquire actor op s : fence_tx (acquire_tx actor op s).
Proof. unfold acquire_tx, LockSupplier, CreateFence. fence_tac. Qed.

Lemma fence_tx_close actor action op state : fence_tx (close_tx actor action op state).
Proof. unfold close_tx, CloseFence, GetFence. fence_tac. Qed.

Lemma refuse_fences actor action op err db r db' :
  refuse actor action op err db = (r, db') → fences_only db db' ∧ db_fences db' = db_fences db.
Proof.
  unfold refuse. destruct (classify err) as [e|]; [|intros [= _ <-]; split; [apply fences_only_refl|done]].
  destruct (audit _ _ _ _ _ db) as [[u db1]|] eqn:Ha; intros [= _ <-];
    [|split; [apply fences_only_refl|done]].
  split; [by eapply fence_tx_audit|]. unfold audit, InsertAudit in Ha. destruct (_ || _); [done|].
  by injection Ha as _ <-.
Qed.

(** ** Counting active errands *)

Lemma counts_spec id row e s b :
  row_ok id row e → counts s row = Some b → b = true ↔ targets s e.
Proof.
  intros Hro Hc. destruct (errandFromRow_frame _ _ (ro_read _ _ _ Hro)) as (_ & Hst & _ & _ & _ & _ & Hsu).
  unfold counts in Hc. unfold targets. rewrite Hst, Hsu. destruct (Active _) eqn:Hact; simpl in Hc; last first.
  { simplify_eq. by split; [|intros [? _]]. }
  case_bool_decide as Heq; [simplify_eq; by split; [split; [|left]|]|].
  assert (∀ p, e_PendingEdit e = Some p → ∃ v, er_PendingEdit row = Some v ∧
            pending_supplier v = Some (d_SupplierID (pe_Details p))) as Hp.
  { intros p Hp. pose proof (ro_pending_supplier _ _ _ Hro _ Hp) as Hb.
    apply bind_Some in Hb as (v & ? & ?). eauto. }
  assert (er_PendingEdit row ≠ None → ∃ p, e_PendingEdit e = Some p) as Hp'.
  { intros Hn. pose proof (ro_read _ _ _ Hro) as Hr. unfold errandFromRow in Hr.
    destruct (er_PendingEdit row); [|done]. destruct (dec_details _); [|done]. injection Hr as <-. simpl. eauto. }
  destruct (er_PendingEdit row) as [v|] eqn:Hpe.
  - destruct Hp' as [p Hpp]; [done|]. destruct (Hp _ Hpp) as (v' & [= <-] & Hsup). rewrite Hsup in Hc.
    destruct (uuid_cast _) as [u|] eqn:Hcast; [|done]. simplify_eq. rewrite bool_decide_eq_true. split.
    + intros ->. split; [done|]. right. eauto.
    + intros (_ & [?|(p' & Hp2 & Hc2)]); [done|]. rewrite Hpp in Hp2. simplify_eq. congruence.
  - simplify_eq. split; [done|]. intros (_ & [?|(p' & Hp2 & _)]); [done|].
    by destruct (Hp _ Hp2) as (? & ? & _).
Qed.

Lemma CountActive_spec s db n :
  store_ok db → sql_CountActive s db = Ok n → 0 ≤ n ∧ (n = 0 ↔ no_active s db).
Proof.
  intros Hok. unfold sql_CountActive. destruct (existsb _ _) eqn:Hex; [done|]. intros [= <-].
  split; [lia|]. set (f := λ r, bool_decide (counts s r = Some true)).
  assert (∀ id row, db_errands db !! id = Some row → ∃ b, counts s row = Some b) as Hsome.
  { intros id row Hl. destruct (counts s row) as [b|] eqn:Hc; [eauto|]. exfalso.
    assert (existsb (λ r, bool_decide (counts s r = None)) (snd <$> map_to_list (db_errands db)) = true); [|congruence].
    apply existsb_exists. exists row. rewrite bool_decide_true by done. split; [|done].
    apply list_elem_of_In, list_elem_of_fmap. exists (id, row). by rewrite elem_of_map_to_list. }
  split.
  - intros H0 id e (row & Hl & Hro) Htgt. destruct (Hsome _ _ Hl) as [b Hb].
    apply (counts_spec _ _ _ _ _ Hro Hb) in Htgt as ->.
    assert (In row (List.filter f (snd <$> map_to_list (db_errands db)))) as Hin.
    { apply filter_In. split; [|by unfold f; rewrite bool_decide_true].
      apply list_elem_of_In, list_elem_of_fmap. exists (id, row). by rewrite elem_of_map_to_list. }
    destruct (List.filter f _); [done|simpl in H0; lia].
  - intros Hna. destruct (List.filter f _) as [|row rows] eqn:Hf; [done|]. exfalso.
    assert (In row (List.filter f (snd <$> map_to_list (db_errands db)))) as [Hin Hrow]%filter_In
      by (rewrite Hf; by left).
    apply list_elem_of_In, list_elem_of_fmap in Hin as ([id row'] & -> & Hl).
    apply elem_of_map_to_list in Hl. unfold f in Hrow. bool_props. simpl in *.
    destruct (so_rows _ Hok _ _ Hl) as (e & Hro). apply (Hna id e); [by exists row'|].
    by eapply counts_spec.
Qed.

(** ** The fence operations, seen from outside *)

Lemma withActiveErrands_spec stored db f db' :
  store_ok db → withActiveErrands stored db = Ok (f, db') →
  db' = db ∧ fc_OperationID f = fr_OperationID stored ∧ fc_SupplierID f = fr_SupplierID stored ∧
  fc_State f = fr_State stored ∧
  ∃ s, toUUID (fr_SupplierID stored) = Some s ∧ (fc_HasActiveErrands f = false ↔ no_active s db).
Proof.
  intros Hok. unfold withActiveErrands, CountActiveErrandsForSupplier, ops_parseUUID.
  destruct (toUUID _) as [s|]; [|done].
  intros (n & db1 & (u & db2 & [= <- <-] & Hn)%bind_Ok & [= <- <-])%bind_Ok.
  destruct (sql_CountActive s db) as [n'|] eqn:Hc; [|done]. injection Hn as -> <-.
  destruct (CountActive_spec _ _ _ Hok Hc) as [Hn0 Hz]. split_and!; try done.
  exists s. split; [done|]. simpl. rewrite Z.ltb_ge. rewrite <- Hz. lia.
Qed.

Lemma fenced_insert op f s db :
  db_fences db !! op = Some f → fence_blocks s f = true → fenced s db = true.
Proof.
  intros Hl Hb. unfold fenced. destruct (scan1 _ _) eqn:Hs; [done|].
  apply (proj1 (scan1_None _ _) Hs) in Hl. congruence.
Qed.

Lemma withActiveErrands_inv stored db f db' :
  withActiveErrands stored db = Ok (f, db') →
  db' = db ∧ f = mkFence (fr_OperationID stored) (fr_SupplierID stored) (fr_State stored) (fc_HasActiveErrands f).
Proof.
  unfold withActiveErrands, CountActiveErrandsForSupplier, ops_parseUUID.
  intros (n & d & Hn & [= <- <-])%bind_Ok. split; [|done]. apply bind_Ok in Hn as (u & d2 & Hu & Hn).
  destruct (toUUID _); [|done]. injection Hu as _ <-. destruct (sql_CountActive _ _); [|done]. by injection Hn as _ <-.
Qed.

Lemma audit_inv actor action op outcome reason db u db' :
  audit actor action op outcome reason db = Ok (u, db') → ∃ a, db' = set_audit a db.
Proof. unfold audit, InsertAudit. destruct (_ || _); [done|]. intros [= _ <-]. by eexists. Qed.

Lemma CreateFence_inv op sup db r db' :
  CreateFence op sup db = Ok (r, db') →
  ∃ o s, toUUID op = Some o ∧ toUUID sup = Some s ∧ db_fences db' !! o = Some r.1 ∧ fr_SupplierID r.1 = s ∧
    (db' = db ∨ db_fences db !! o = None ∧ r.1 = mkFenceRow o s FenceOpen ∧
                db' = set_fences (<[o := r.1]> (db_fences db)) db).
Proof.
  unfold CreateFence, ops_parseUUID. intros (o & d1 & Ho & Hr)%bind_Ok.
  destruct (toUUID op) as [o'|]; [|done]. injection Ho as -> <-.
  apply bind_Ok in Hr as (s & d2 & Hs & Hr). destruct (toUUID sup) as [s'|]; [|done]. injection Hs as -> <-.
  apply bind_Ok in Hr as (ins & d3 & Hins & Hr). apply bind_Ok in Hr as (row & d4 & Hget & Hr).
  unfold sql_GetFence in Hget. destruct (db_fences d3 !! o) as [row'|] eqn:Hl; [|done]. injection Hget as -> <-.
  case_bool_decide as Hsup; [|done]. injection Hr as <- <-. exists o, s. split_and!; try done. simpl.
  unfold InsertFence in Hins. destruct (db_fences db !! o) eqn:Hl0; injection Hins as _ <-; [by left|right].
  simpl in Hl. rewrite lookup_insert_eq in Hl. by injection Hl as <-.
Qed.

Lemma CloseFence_inv op state db row db' :
  CloseFence op state db = Ok (row, db') →
  ∃ o, toUUID op = Some o ∧ db_fences db' !! o = Some row ∧ fr_State row = state ∧
    (db' = db ∨ ∃ f, db_fences db !! o = Some f ∧ fr_State f = FenceOpen ∧
                     row = mkFenceRow (fr_OperationID f) (fr_SupplierID f) state ∧
                     db' = set_fences (<[o := row]> (db_fences db)) db).
Proof.
  unfold CloseFence, GetFence, ops_parseUUID. destruct (_ && _); [done|]. intros (o & d1 & Ho & Hr)%bind_Ok.
  destruct (toUUID op) as [o'|]; [|done]. injection Ho as -> <-.
  apply bind_Ok in Hr as (closed & d2 & Hsql & Hr). unfold sql_CloseFence in Hsql. exists o. split; [done|].
  assert (∀ c d, closed = None → d2 = db → bind (ret o) sql_GetFence d2 = Ok (c, d) →
    (if bool_decide (fr_State c = state) then ret c else fail OpsFenceStateConflict) d = Ok (row, db') →
    db_fences db' !! o = Some row ∧ fr_State row = state ∧ db' = db) as Hkeep.
  { intros c d _ -> Hget Hc. apply bind_Ok in Hget as (? & ? & [= <- <-] & Hget). unfold sql_GetFence in Hget.
    destruct (db_fences db !! o) eqn:Hl; [|done]. injection Hget as <- <-. case_bool_decide; [|done].
    by injection Hc as <- <-. }
  destruct (db_fences db !! o) as [f|] eqn:Hl; [case_bool_decide as Hst|]; injection Hsql as <- <-.
  - injection Hr as <- <-. split_and!; [apply lookup_insert_eq|done|]. right. by exists f.
  - apply bind_Ok in Hr as (c & d & Hget & Hr). destruct (Hkeep _ _ eq_refl eq_refl Hget Hr) as (? & ? & ?). auto.
  - apply bind_Ok in Hr as (c & d & Hget & Hr). destruct (Hkeep _ _ eq_refl eq_refl Hget Hr) as (? & ? & ?). auto.
Qed.

(** What a fence operation that succeeded did, and what a refused one left. *)
Lemma Acquire_inv actor op sup db r db' :
  Acquire actor op sup db = (r, db') →
  match r with
  | Ok f => ∃ created d a, CreateFence op sup db = Ok (created, d) ∧ withActiveErrands created.1 d = Ok (f, d) ∧
              db' = set_audit a d
  | Err _ => db_fences db' = db_fences db
  end.
Proof.
  unfold Acquire. destruct (inTx _ _) as [[f|err] d] eqn:Htx; intros Hr.
  - injection Hr as <- <-. apply inTx_inv in Htx as [(x & [= <-] & Hrun)|(? & [=] & _)].
    apply bind_Ok in Hrun as (u & d0 & Hlock & Hrun). unfold LockSupplier, ops_parseUUID in Hlock.
    apply bind_Ok in Hlock as (s0 & ds & Hs & [= _ ->]). destruct (toUUID sup); [|done]. injection Hs as _ <-.
    apply bind_Ok in Hrun as (created & d1 & Hc & Hrun). apply bind_Ok in Hrun as (res & d2 & Hact & Hrun).
    pose proof Hact as [-> _]%withActiveErrands_inv.
    apply bind_Ok in Hrun as (u3 & d3 & [a ->]%audit_inv & [= <- <-]). by exists created, d1, a.
  - assert (d = db) as ->. { by apply inTx_inv in Htx as [(? & [=] & _)|(? & _ & ? & _)]. }
    assert (∃ e, r = Err e) as [e ->]. { unfold refuse in Hr. destruct (classify err); injection Hr as <- _; eauto. }
    by apply refuse_fences in Hr as [_ ?].
Qed.

Lemma close_inv actor action op state db r db' :
  close actor action op state db = (r, db') →
  match r with
  | Ok f => ∃ row d a, CloseFence op state db = Ok (row, d) ∧ withActiveErrands row d = Ok (f, d) ∧
              db' = set_audit a d
  | Err _ => db_fences db' = db_fences db
  end.
Proof.
  unfold close. destruct (inTx _ _) as [[f|err] d] eqn:Htx; intros Hr.
  - injection Hr as <- <-. apply inTx_inv in Htx as [(x & [= <-] & Hrun)|(? & [=] & _)].
    apply bind_Ok in Hrun as (row & d1 & Hc & Hrun). apply bind_Ok in Hrun as (res & d2 & Hact & Hrun).
    pose proof Hact as [-> _]%withActiveErrands_inv.
    apply bind_Ok in Hrun as (u3 & d3 & [a ->]%audit_inv & [= <- <-]). by exists row, d1, a.
  - assert (d = db) as ->. { by apply inTx_inv in Htx as [(? & [=] & _)|(? & _ & ? & _)]. }
    assert (∃ e, r = Err e) as [e ->]. { unfold refuse in Hr. destruct (classify err); injection Hr as <- _; eauto. }
    by apply refuse_fences in Hr as [_ ?].
Qed.

(** An acquired fence that found no active errand blocks the supplier, which
    has none. *)
Lemma Acquire_blocks actor op sup db f db' :
  store_ok db → Acquire actor op sup db = (Ok f, db') → fc_State f ≠ FenceReleased →
  fc_HasActiveErrands f = false →
  toUUID sup = Some (fc_SupplierID f) ∧ fenced (fc_SupplierID f) db' = true ∧
  no_active (fc_SupplierID f) db' ∧
  ∃ o row, toUUID op = Some o ∧ db_fences db' !! o = Some row ∧ fr_SupplierID row = fc_SupplierID f.
Proof.
  intros Hok Hacq Hst Hna. apply Acquire_inv in Hacq as (created & d & a & Hcr & Hact & ->).
  destruct (CreateFence_inv _ _ _ _ _ Hcr) as (o & s & Ho & Hs & Hl & Hsup & Hd).
  assert (store_ok d) as Hokd.
  { destruct Hd as [->|(Hn & _ & ->)]; [done|]. apply (fences_step db); [done|].
    exists (<[o:=created.1]> (db_fences db)), (db_audit db). split; [by destruct db|].
    intros o2 f2 Hl2. exists f2. rewrite lookup_insert_ne by congruence. auto. }
  destruct (withActiveErrands_spec _ _ _ _ Hokd Hact) as (_ & _ & Hsid & Hstate & s' & Hs' & Hna').
  rewrite Hsup in Hsid, Hs'. rewrite (toUUID_canonical _ _ Hs) in Hs'. injection Hs' as <-.
  rewrite Hsid. split_and!; [done| | |by exists o, created.1].
  - eapply (fenced_insert o created.1); [done|]. unfold fence_blocks. rewrite bool_decide_true by done.
    rewrite Hstate in Hst. by destruct (fr_State created.1).
  - intros id e Hst'. by apply (proj1 Hna' Hna id e).
Qed.

(** A commit leaves the fence of its operation committed. *)
Lemma Commit_commits actor op db f db' :
  Commit actor op db = (Ok f, db') →
  ∃ o row, toUUID op = Some o ∧ db_fences db' !! o = Some row ∧ fr_State row = FenceCommitted.
Proof.
  intros (row & d & a & Hc & _ & ->)%close_inv. apply CloseFence_inv in Hc as (o & Ho & Hl & Hst & _).
  by exists o, row.
Qed.

(** ** Histories *)

(** One committed change of the database, by any writer.  Requests decide on an
    errand of [seen], which may have moved on since. *)
Inductive store_step (seen : list Errand) (db : ODB) : ODB → Prop :=
| step_create clock db0 e t actor input now stored db' :
    fresh e → toUUID (e_ID e) = Some (e_ID e) → input_ok input →
    Next e EventSubmit actor input now = Ok t →
    (* the shared lock: the supplier was not fenced since the check *)
    (∀ s, toUUID (d_SupplierID (e_Details (ApplyTo t e))) = Some s →
          fenced s db0 = false → fenced s db = false) →
    Create clock (λ _, db) e t db0 = Ok ((stored, true), db') → store_step seen db db'
| step_apply clock e t ev actor input now stored db' :
    e ∈ seen → input_ok input → Next e ev actor input now = Ok t →
    Apply clock t db = Ok (stored, db') → store_step seen db db'
| step_claim clock k skip now limit decide n db' :
    decides_next decide → ClaimDue clock k skip now limit decide db = Ok (n, db') →
    store_step seen db db'
| step_reject clock r u db' :
    has_colon (rj_ErrandID r) = false → RecordRejection clock r db = Ok (u, db') →
    store_step seen db db'
| step_deliver db' : delivery_only db db' → store_step seen db db'
| step_acquire actor op sup : store_step seen db (snd (Acquire actor op sup db))
| step_commit actor op : store_step seen db (snd (Commit actor op db))
| step_release actor op : store_step seen db (snd (ReleaseFence actor op db))
| step_remind clock k d status version b db' :
    has_colon (rd_ErrandID d) = false → 0 < rd_ErrandVersion d →
    InsertCurrentReminder clock (reminder_row k d) status version db = Ok (b, db') → store_step seen db db'
| step_audit r db' : InsertAudit r db = Ok (tt, db') → store_step seen db db'.

Inductive reachable : ODB → list Errand → Prop :=
| reach_init : reachable empty_odb []
| reach_step db seen db' : reachable db seen → store_step seen db db' →
    reachable db' (current db' ++ seen).

(** The histories that continue from a database, each step taken while [P]
    holds. *)
Inductive history (P : ODB → Prop) (db : ODB) (seen : list Errand) : ODB → list Errand → Prop :=
| hist_refl : history P db seen db seen
| hist_step db1 seen1 db2 : history P db seen db1 seen1 → P db1 → store_step seen1 db1 db2 →
    history P db seen db2 (current db2 ++ seen1).

Lemma history_reachable P db seen db' seen' :
  reachable db seen → history P db seen db' seen' → reachable db' seen'.
Proof. intros Hr. induction 1; [done|]. by eapply reach_step. Qed.

Lemma inTx_fences {A} (m : M ODB OpsError A) db r db' : fence_tx m → inTx m db = (r, db') → fences_only db db'.
Proof.
  intros Hm Htx. apply inTx_inv in Htx as [(a & _ & Hr)|(e & _ & -> & _)]; [by eapply Hm|].
  apply fences_only_refl.
Qed.

Lemma Acquire_fences actor op sup db : fences_only db (snd (Acquire actor op sup db)).
Proof.
  unfold Acquire. destruct (inTx _ _) as [[f|e] db1] eqn:Htx; apply inTx_fences in Htx;
    try apply fence_tx_acquire; [done|].
  destruct (refuse _ _ _ _ _) as [r db2] eqn:Hr. apply refuse_fences in Hr as [Hr _].
  by eapply fences_only_trans.
Qed.

Lemma close_fences actor action op state db : fences_only db (snd (close actor action op state db)).
Proof.
  unfold close. destruct (inTx _ _) as [[f|e] db1] eqn:Htx; apply inTx_fences in Htx;
    try apply fence_tx_close; [done|].
  destruct (refuse _ _ _ _ _) as [r db2] eqn:Hr. apply refuse_fences in Hr as [Hr _].
  by eapply fences_only_trans.
Qed.

Lemma audit_only r db db' : InsertAudit r db = Ok (tt, db') → fences_only db db'.
Proof.
  intros ->%InsertAudit_inv. exists (db_fences db), (db_audit db ++ [r]). split; [by destruct db|].
  intros o f Hl. exists f. auto.
Qed.

Lemma fences_quiet db db' s : fences_only db db' → no_active s db → no_active s db'.
Proof. intros (f & a & -> & _) Hna id e Hst. apply (Hna id e). by eapply stored_as_ext; [|exact Hst]. Qed.

(** One step keeps the invariant, moves errands only forward, brings no
    errand to a fenced supplier and reopens no fence. *)
Lemma store_step_sound seen db db' :
  store_ok db → seen_inv db seen → store_step seen db db' →
  store_ok db' ∧ grows db db' ∧ (∀ s, fenced s db = true → no_active s db → no_active s db') ∧
  fence_kept (db_fences db) (db_fences db').
Proof.
  intros Hok Hs Hstep. assert (∀ m m', m' = m → fence_kept m m') as Hsame by (intros ?? ->; apply fence_kept_refl).
  destruct Hstep as [clock db0 e t actor input now stored db' Hfr Hid Hin Hnext Hlock Hc
    |clock e t ev actor input now stored db' He Hin Hnext Ha
    |clock k skip now limit decide n db' Hd Hc|clock r u db' Hc Hr|db' Hd|actor op sup|actor op|actor op
    |clock k d status version b db' Hc Hv Hr|r db' Hr].
  - destruct (Create_sound _ _ _ _ _ _ _ _ _ _ Hok Hfr Hid Hin Hnext Hc) as (-> & Hnone & (s0 & Hs0 & Hnf) & Hm).
    split_and!; [apply Hm| | |apply Hsame, Hm].
    + eapply moved_grows; [done|]. intros e2 (row & Hl & _). congruence.
    + intros s Hf Hna. eapply moved_no_active; [done| |done].
      intros (_ & [Hsup|(p & Hp & _)]).
      * simpl in Hsup. unfold canon_id in Hsup. simpl in Hs0, Hlock. rewrite Hs0 in Hsup. simpl in Hsup.
        subst s0. by rewrite (Hlock _ Hs0 Hnf) in Hf.
      * change (e_PendingEdit (canon (ApplyTo t e))) with (canon_pending <$> e_PendingEdit (ApplyTo t e)) in Hp.
        apply fmap_Some in Hp as (p0 & Hp0 & _).
        destruct (Next_changes _ _ _ _ _ _ Hnext) as (_ & _ & _ & Hpend).
        destruct (Hpend _ Hp0) as [Hp|[? _]]; [|done].
        destruct Hfr as (_ & _ & _ & _ & _ & _ & _ & _ & Hn). congruence.
  - destruct (Apply_step _ _ _ _ _ _ _ _ _ _ _ Hok Hs He Hin Hnext Ha) as (Hst & -> & Hfc & Hsu & Hm & Hg).
    split_and!; [apply Hm|done| |apply Hsame, Hm]. intros s Hf Hna. eapply moved_no_active; [done| |done].
    intros Htgt. apply (Hna _ _ Hst). pose proof Hst as (row & _ & Hro).
    eapply Next_targets; eauto using stored_supplier, ro_ok, ro_status.
  - destruct (ClaimDue_step _ _ _ _ _ _ _ _ _ Hok Hd Hc) as (? & ? & ? & ? & _). auto.
  - destruct (RecordRejection_step _ _ _ _ _ Hok Hc Hr) as (? & Hg & Hfe). split_and!; [done|done| |by apply Hsame].
    assert (db_errands db' = db_errands db) as Herr by by eapply RecordRejection_extends.
    intros s _ Hna id e Hst. apply (Hna id e). by eapply stored_as_ext; [|exact Hst].
  - destruct (delivery_step _ _ Hok Hd) as (? & ? & ?). split_and!; [done|done| |by apply Hsame].
    destruct Hd as (m & -> & _). intros s _ Hna id e Hst. apply (Hna id e). by eapply stored_as_ext; [|exact Hst].
  - pose proof (Acquire_fences actor op sup db) as Hf. destruct (fences_step _ _ Hok Hf).
    split_and!; eauto using fences_quiet, fences_only_kept.
  - pose proof (close_fences actor "supplier_fence.commit" op FenceCommitted db) as Hf.
    destruct (fences_step _ _ Hok Hf).
    split_and!; eauto using fences_quiet, fences_only_kept.
  - pose proof (close_fences actor "supplier_fence.release" op FenceReleased db) as Hf.
    destruct (fences_step _ _ Hok Hf).
    split_and!; eauto using fences_quiet, fences_only_kept.
  - destruct (reminder_step _ _ _ _ _ _ _ _ Hok Hc Hv Hr) as (? & _ & m & n & ->).
    split_and!; [done|by apply grows_ext| |by apply Hsame].
    intros s _ Hna id e Hst. apply (Hna id e). by eapply stored_as_ext; [|exact Hst].
  - apply audit_only in Hr as Hf. destruct (fences_step _ _ Hok Hf).
    split_and!; eauto using fences_quiet, fences_only_kept.
Qed.

Lemma store_ok_empty : store_ok empty_odb.
Proof.
  split; simpl; try done.
  - by intros id e (row & Hl & _).
  - intros r. by rewrite elem_of_nil.
Qed.

(** ** Reservations *)

(** Every errand has asked for its reservation. *)
Definition reserves (db : ODB) : Prop :=
  ∀ id, id ∈ dom (db_errands db) → ∃ i row, db_outbox db !! i = Some row ∧
    or_IdempotencyKey row = IdempotencyKey id "reserve" 0 ∧ or_ErrandID row = id.

Lemma reserves_kept db db' :
  (∀ i r, db_outbox db !! i = Some r → ∃ r', db_outbox db' !! i = Some r' ∧ message r' = message r) →
  dom (db_errands db') = dom (db_errands db) → reserves db → reserves db'.
Proof.
  intros Hkeep Hdom Hres id Hid. rewrite Hdom in Hid. destruct (Hres id Hid) as (i & row & Hl & Hk & He).
  destruct (Hkeep _ _ Hl) as (row' & Hl' & Hm). injection Hm as _ _ Hk' He' _ _. exists i, row'. split_and!; congruence.
Qed.

Lemma reserves_extends db db' : extends db db' → reserves db → reserves db'.
Proof.
  intros [Hsub Hdom]. apply reserves_kept; [|done]. intros i r Hl. exists r. split; [|done].
  by eapply lookup_weaken.
Qed.

Lemma reserves_same db db' :
  db_outbox db' = db_outbox db → db_errands db' = db_errands db → reserves db → reserves db'.
Proof. intros Ho He. apply reserves_extends. split; [by rewrite Ho|by rewrite He]. Qed.

Lemma submit_reserves e actor input now t :
  Next e EventSubmit actor input now = Ok t →
  ∃ row, row ∈ t_Outbox t ∧ o_IdempotencyKey row = IdempotencyKey (e_ID e) "reserve" 0.
Proof.
  intros (rule & [Hin Hf Hev _ _ _ (t0 & Happ & ->)])%Next_inv.
  each_rule Hin; simpl in *; try done. simpl. eexists. split; [by left|done].
Qed.

Lemma store_step_reserves seen db db' :
  store_ok db → seen_inv db seen → store_step seen db db' → reserves db → reserves db'.
Proof.
  intros Hok Hs Hstep Hres. destruct Hstep as [clock db0 e t actor input now stored db' Hfr Hid Hin Hnext Hlock Hc
    |clock e t ev actor input now stored db' He Hin Hnext Ha
    |clock k skip now limit decide n db' Hd Hc|clock r u db' Hc Hr|db' Hd|actor op sup|actor op|actor op
    |clock k d status version b db' Hc Hv Hr|r db' Hr].
  - destruct (Create_sound _ _ _ _ _ _ _ _ _ _ Hok Hfr Hid Hin Hnext Hc) as (_ & Hnone & _ & Hm).
    intros id Hdom. destruct (decide (id = e_ID e)) as [->|Hne].
    + destruct (submit_reserves _ _ _ _ _ Hnext) as (row & Hrow & Hk).
      destruct (mv_sent _ _ _ _ _ _ _ Hm _ Hrow) as (i & payload & _ & Hl). eexists i, _. by split_and!.
    + apply elem_of_dom in Hdom. rewrite (mv_other _ _ _ _ _ _ _ Hm) in Hdom by done.
      destruct (Hres id) as (i & row & Hl & ?); [by apply elem_of_dom|]. exists i, row. split; [|done].
      eapply lookup_weaken; [done|apply Hm].
  - destruct (Apply_step _ _ _ _ _ _ _ _ _ _ _ Hok Hs He Hin Hnext Ha) as (Hst & _ & _ & _ & Hm & _).
    eapply reserves_extends; [by eapply moved_extends|done].
  - destruct (ClaimDue_step _ _ _ _ _ _ _ _ _ Hok Hd Hc) as (_ & _ & _ & _ & Hx). by eapply reserves_extends.
  - eapply reserves_extends; [|done]. by eapply RecordRejection_extends.
  - destruct Hd as (m & -> & Hm). apply (reserves_kept db); [|done|done]. intros i r Hl. specialize (Hm i).
    rewrite Hl in Hm. apply fmap_Some in Hm as (r' & ? & ?). simpl. eauto.
  - destruct (Acquire_fences actor op sup db) as (f & a & -> & _). by apply (reserves_same db).
  - destruct (close_fences actor "supplier_fence.commit" op FenceCommitted db) as (f & a & Heq & _).
    unfold Commit. rewrite Heq. by apply (reserves_same db).
  - destruct (close_fences actor "supplier_fence.release" op FenceReleased db) as (f & a & Heq & _).
    unfold ReleaseFence. rewrite Heq. by apply (reserves_same db).
  - destruct (reminder_step _ _ _ _ _ _ _ _ Hok Hc Hv Hr) as (_ & Hx & _). by eapply reserves_extends.
  - apply InsertAudit_inv in Hr as ->. by apply (reserves_same db).
Qed.

Lemma store_reachable_ok db seen : reachable db seen → store_ok db ∧ seen_inv db seen ∧ current db ⊆ seen.
Proof.
  induction 1 as [|db seen db' _ (Hok & Hs & _) Hstep].
  - split_and!; [apply store_ok_empty|intros e; by rewrite elem_of_nil|done].
  - destruct (store_step_sound _ _ _ Hok Hs Hstep) as (Hok' & Hg & _). split_and!; [done| |].
    + intros e [He|He]%elem_of_app; [by eapply seen_current|]. by eapply seen_grows.
    + intros e He. apply elem_of_app. by left.
Qed.

Lemma reachable_reserves db seen : reachable db seen → reserves db.
Proof.
  induction 1 as [|db seen db' Hr IH Hstep]; [by intros id [? Hl]%elem_of_dom|].
  destruct (store_reachable_ok _ _ Hr) as (Hok & Hs & _). by eapply store_step_reserves.
Qed.

End system.
