(* ===== verification/ErrandLists.v ===== *)
(** * order-service: the lists of the errand store

    [internal/database/errandrepo/read.go]: [ListOpen], [ListRequested],
    [ListDelivering] and [ListHistory], one page at a time.  Following the
    cursors of a store that does not change lists every matching errand once,
    in order. *)

From S2P Require Import Prelude Keyset GoText Json GoTime Errand ErrandState ErrandJson ErrandInv ErrandStore Fence StoreInv StoreSafe StoreSystem.

(** ** ports.go *)

Definition MaxListLimit : Z := 500.

Record Page (C : Type) := mkPage { pg_Items : list Errand; pg_Next : option C }.
Arguments mkPage {C}.
Arguments pg_Items {C}.
Arguments pg_Next {C}.

Record OpenCursor := mkOpenCursor { ocr_AcceptanceDeadline : Z; ocr_ID : string }.

Record OpenQuery := mkOpenQuery {
  opq_Now : Z; opq_SupplierID : string; opq_After : option OpenCursor; opq_Limit : Z }.

(** [At] is the creation time for the requested list, the update time for the
    others. *)
Record UserListCursor := mkUserListCursor { ucr_At : Z; ucr_ID : string }.

Definition HistoryRole : Type := string.
Definition HistoryAny : HistoryRole := "".
Definition HistoryRequester : HistoryRole := "REQUESTER".
Definition HistoryCourier : HistoryRole := "COURIER".

Record UserListQuery := mkUserListQuery {
  ulq_UserID : string; ulq_Role : HistoryRole; ulq_After : option UserListCursor; ulq_Limit : Z }.

Section lists.
Context `{Hpg : Postgres, Hpgok : !PostgresOk}.

(** ** The queries *)

Definition deadline_key (r : ErrandRow) : pos := (er_AcceptanceDeadline r, er_ID r).
Definition created_key (r : ErrandRow) : pos := (er_CreatedAt r, er_ID r).
Definition updated_key (r : ErrandRow) : pos := (er_UpdatedAt r, er_ID r).

Definition rows_where (P : ErrandRow → bool) (db : ODB) : list ErrandRow := snd <$> scan P (db_errands db).

(** [WHERE status = 'OPEN' AND acceptance_deadline > now AND supplier_id = supplier] *)
Definition row_open (now : Z) (supplier : option string) (r : ErrandRow) : bool :=
  bool_decide (er_Status r = StatusOpen) && (now <? er_AcceptanceDeadline r)
  && match supplier with None => true | Some s => bool_decide (er_SupplierID r = s) end.

Definition has_status (P : Status → bool) (r : ErrandRow) : bool := P (er_Status r).

Definition requested_by (user : string) (r : ErrandRow) : bool := bool_decide (er_RequesterID r = user).
Definition carried_by (user : string) (r : ErrandRow) : bool := bool_decide (er_CourierID r = Some user).

(** A NULL role keeps errands the user requested or delivered. *)
Definition in_role (role : option string) (user : string) (r : ErrandRow) : bool :=
  match role with
  | None => requested_by user r || carried_by user r
  | Some role =>
      (bool_decide (role = "REQUESTER") && requested_by user r)
      || (bool_decide (role = "COURIER") && carried_by user r)
  end.

(** ** read.go *)

Definition checkLimit (limit : Z) : res Failure unit :=
  if (limit <? 1) || (MaxListLimit <? limit) then Err (FApp (mkAppError InvalidArgument [])) else Ok tt.

(** One page from up to [limit + 1] rows. *)
Definition page {C} (rows : list ErrandRow) (limit : Z) (key : Errand → C) : Op (Page C) :=
  let! items := lift (errandsFromRows (take (Z.to_nat limit) rows)) in
  ret (mkPage items
         (if limit <? Z.of_nat (length rows) then key <$> items !! Z.to_nat (limit - 1) else None)).

Definition row_query (le : relation pos) `{!RelDecision le} (key : ErrandRow → pos) (P : ErrandRow → bool)
    (after : option pos) (limit : Z) : Op (list ErrandRow) :=
  λ db, Ok (keyset le key after (Z.to_nat limit) (rows_where P db), db).

Definition ListOpen (q : OpenQuery) : Op (Page OpenCursor) :=
  do! lift (checkLimit (opq_Limit q));
  let read supplier :=
    let! after := match opq_After q with
                  | None => ret None
                  | Some c => let! id := lift (parseUUID (ocr_ID c)) in
                              ret (Some (stored_time (ocr_AcceptanceDeadline c), id))
                  end in
    let! rows := row_query pos_le deadline_key (row_open (stored_time (opq_Now q)) supplier) after
                   (rowLimit (opq_Limit q + 1)) in
    page rows (opq_Limit q) (λ e, mkOpenCursor (d_AcceptanceDeadline (e_Details e)) (e_ID e)) in
  if bool_decide (opq_SupplierID q = "") then read None
  else match toUUID (opq_SupplierID q) with
       | None => ret (mkPage [] None)
       | Some id => read (Some id)
       end.

Definition listUser (q : UserListQuery) (at_ : Errand → Z) (list : option pos → Op (list ErrandRow)) :
    Op (Page UserListCursor) :=
  do! lift (checkLimit (ulq_Limit q));
  let! after := match ulq_After q with
                | None => ret None
                | Some c => let! id := lift (parseUUID (ucr_ID c)) in ret (Some (stored_time (ucr_At c), id))
                end in
  let! rows := list after in
  page rows (ulq_Limit q) (λ e, mkUserListCursor (at_ e) (e_ID e)).

Definition ListRequested (q : UserListQuery) : Op (Page UserListCursor) :=
  listUser q e_CreatedAt (λ after,
    row_query pos_ge created_key (λ r, requested_by (ulq_UserID q) r && has_status Active r) after
      (rowLimit (ulq_Limit q + 1))).

Definition ListDelivering (q : UserListQuery) : Op (Page UserListCursor) :=
  listUser q e_UpdatedAt (λ after,
    row_query pos_ge updated_key (λ r, carried_by (ulq_UserID q) r && has_status Active r) after
      (rowLimit (ulq_Limit q + 1))).

Definition ListHistory (q : UserListQuery) : Op (Page UserListCursor) :=
  let role := ulq_Role q in
  let read role :=
    listUser q e_UpdatedAt (λ after,
      row_query pos_ge updated_key (λ r, in_role role (ulq_UserID q) r && has_status Terminal r) after
        (rowLimit (ulq_Limit q + 1))) in
  if bool_decide (role = HistoryAny) then read None
  else if bool_decide (role = HistoryRequester) || bool_decide (role = HistoryCourier) then read (Some role)
  else appErr InvalidArgument.

(** ** Reading every page *)

(** Page after page, following the cursors. *)
Fixpoint walk {C} (fuel : nat) (read : option C → res Failure (Page C)) (after : option C) : option (list Errand) :=
  match fuel with
  | O => None
  | S fuel =>
      match read after with
      | Err _ => None
      | Ok p =>
          match pg_Next p with
          | None => Some (pg_Items p)
          | Some c => app (pg_Items p) <$> walk fuel read (Some c)
          end
      end
  end.

Lemma walk_ext {C} fuel (f g : option C → res Failure (Page C)) after :
  (∀ c, f c = g c) → walk fuel f after = walk fuel g after.
Proof.
  intros Hfg. revert after. induction fuel as [|fuel IH]; intros after; simpl; [done|]. rewrite Hfg.
  destruct (g after) as [p|]; [|done]. destruct (pg_Next p); [|done]. by rewrite IH.
Qed.

Definition answer {A} (r : res Failure (A * ODB)) : res Failure A :=
  match r with Ok (a, _) => Ok a | Err f => Err f end.

(** [row] is read as [e]. *)
Definition reads_as (row : ErrandRow) (e : Errand) : Prop := errandFromRow row = Ok e.

Lemma errandsFromRows_all rows :
  (∀ r, r ∈ rows → ∃ e, reads_as r e) → ∃ es, errandsFromRows rows = Ok es ∧ Forall2 reads_as rows es.
Proof.
  induction rows as [|r rows IH]; intros Hall; simpl; [by exists []|].
  destruct (Hall r) as (e & He); [by left|]. destruct IH as (es & -> & Hes); [intros; apply Hall; by right|].
  rewrite He. exists (e :: es). auto.
Qed.

Lemma elem_of_rows_where P db r : r ∈ rows_where P db ↔ ∃ id, db_errands db !! id = Some r ∧ P r = true.
Proof.
  unfold rows_where. rewrite list_elem_of_fmap. split.
  - intros ([id r'] & -> & Hin). apply elem_of_scan in Hin. by exists id.
  - intros (id & Hl & HP). exists (id, r). split; [done|]. by apply elem_of_scan.
Qed.

Lemma rows_where_read P db r :
  store_ok db → r ∈ rows_where P db → ∃ e, row_ok (er_ID r) r e ∧ stored_as db (er_ID r) e ∧ P r = true.
Proof.
  intros Hok (id & Hl & HP)%elem_of_rows_where. destruct (so_rows _ Hok _ _ Hl) as (e & Hro).
  pose proof (ro_key _ _ _ Hro) as Hk. exists e. subst id. split; [done|]. split; [by exists r|done].
Qed.

Lemma NoDup_rows_where P db : store_ok db → NoDup (er_ID <$> rows_where P db).
Proof.
  intros Hok. unfold rows_where. rewrite <- list_fmap_compose.
  erewrite list_fmap_ext; [apply (NoDup_scan_keys P (db_errands db))|].
  intros i [id row] Hi. simpl. apply list_elem_of_lookup_2, elem_of_scan in Hi as [Hl _].
  destruct (so_rows _ Hok _ _ Hl) as (e & Hro). apply Hro.
Qed.

Section walking.
Context {C : Type} (mk : pos → C) (ckey : Errand → C).
Context (le : relation pos) `{!RelDecision le} (key : ErrandRow → pos) (P : ErrandRow → bool).
Context (db : ODB) (limit : Z) (read : option C → Op (Page C)).
Hypothesis Hok : store_ok db.
Hypothesis Hlimit : 1 ≤ limit ≤ MaxListLimit.
Hypothesis Hkey : ∀ r e, reads_as r e → ckey e = mk (key r).
Hypothesis Hread : ∀ after, (∀ p, after = Some p → p ∈ key <$> rows_where P db) →
  read (mk <$> after) db = bind (row_query le key P after (rowLimit (limit + 1))) (λ rows, page rows limit ckey) db.

Lemma walk_pages fuel after l :
  pages le key fuel (Z.to_nat limit) after (rows_where P db) = Some l →
  (∀ p, after = Some p → p ∈ key <$> rows_where P db) →
  ∃ es, walk fuel (λ c, answer (read c db)) (mk <$> after) = Some es ∧ Forall2 reads_as l es.
Proof.
  unfold MaxListLimit in Hlimit. revert after l. induction fuel as [|fuel IH]; intros after l; [done|]. cbn [pages walk].
  intros Hp Hafter. rewrite Hread by done. unfold row_query, rowLimit, max_int32. rewrite Z.min_l by lia.
  cbn [bind]. unfold page. replace (Z.to_nat (limit + 1)) with (Z.to_nat limit + 1)%nat by lia.
  set (found := keyset le key after (Z.to_nat limit + 1) (rows_where P db)) in *.
  assert (found ⊆ rows_where P db) as Hfound.
  { intros r Hr. unfold found, keyset in Hr. apply elem_of_take in Hr as (i & Hr & _).
    apply list_elem_of_lookup_2 in Hr. rewrite merge_sort_Permutation in Hr.
    apply list_elem_of_In, filter_In in Hr as [Hr _]. by apply list_elem_of_In. }
  destruct (errandsFromRows_all (take (Z.to_nat limit) found)) as (es & Hes & Hall).
  { intros r (i & Hr & _)%elem_of_take. apply list_elem_of_lookup_2, Hfound, rows_where_read in Hr; [|done].
    destruct Hr as (e & Hro & _). exists e. apply Hro. }
  unfold lift. rewrite Hes. cbn [bind ret answer pg_Next pg_Items].
  destruct (Z.to_nat limit <? length found)%nat eqn:Hm; [apply Nat.ltb_lt in Hm|apply Nat.ltb_ge in Hm].
  - rewrite (proj2 (Z.ltb_lt _ _)) by lia.
    destruct (last (take (Z.to_nat limit) found)) as [r|] eqn:Hr; [|done].
    apply fmap_Some in Hp as (rest & Hp & ->).
    rewrite last_lookup, length_take, Nat.min_l in Hr by lia.
    destruct (Forall2_lookup_l _ _ _ _ _ Hall Hr) as (e & He & Hre).
    replace (Z.to_nat (limit - 1)) with (pred (Z.to_nat limit)) by lia. rewrite He. simpl.
    rewrite (Hkey _ _ Hre). destruct (IH _ _ Hp) as (es' & Hw & Hall').
    { intros p [= <-]. apply list_elem_of_fmap_2, Hfound. apply lookup_take_Some in Hr as [Hr _].
      by eapply list_elem_of_lookup_2. }
    simpl in Hw. rewrite Hw. simpl. eexists. split; [done|]. by apply Forall2_app.
  - rewrite (proj2 (Z.ltb_ge _ _)) by lia. injection Hp as <-. by exists es.
Qed.

End walking.

(** ** What a list lists *)

(** Every errand of [Q], once, in order. *)
Record listing (db : ODB) (Q : Errand → Prop) (ord : relation Errand) (es : list Errand) : Prop := {
  ls_all e : e ∈ es ↔ stored_as db (e_ID e) e ∧ Q e;
  ls_once : NoDup (e_ID <$> es);
  ls_order : Sorted ord es;
}.

Lemma Forall2_Sorted {A B} (R : A → B → Prop) (ordA : relation A) (ordB : relation B) l k :
  (∀ a a' b b', R a b → R a' b' → ordA a a' → ordB b b') → Forall2 R l k → Sorted ordA l → Sorted ordB k.
Proof.
  intros Hord. induction 1 as [|a b l k Hab Hlk IH]; [constructor|].
  intros [Hs Hh]%Sorted_inv. constructor; [by apply IH|].
  destruct Hlk as [|a' b' l k Hab' _]; constructor. apply HdRel_inv in Hh. eauto.
Qed.

Lemma listing_rows le `{!RelDecision le, !Total le} (key : ErrandRow → pos) (keyE : Errand → pos) P Q db es :
  store_ok db → (∀ r e, reads_as r e → keyE e = key r) → (∀ id r e, row_ok id r e → P r = true ↔ Q e) →
  Forall2 reads_as (merge_sort (row_le le key) (rows_where P db)) es →
  listing db Q (λ a b, le (keyE a) (keyE b)) es.
Proof.
  intros Hok Hkey HQ Hall.
  assert (∀ r e, reads_as r e → e_ID e = er_ID r) as Hid.
  { intros r e. unfold reads_as, errandFromRow. intros Hr. by break_in Hr. }
  split.
  - intros e. split.
    + intros (i & He)%list_elem_of_lookup_1. destruct (Forall2_lookup_r _ _ _ _ _ Hall He) as (r & Hr & Hre).
      apply list_elem_of_lookup_2 in Hr. rewrite merge_sort_Permutation in Hr.
      destruct (rows_where_read _ _ _ Hok Hr) as (e' & Hro & Hst & HP).
      pose proof (ro_read _ _ _ Hro) as Hr'. unfold reads_as in Hre. rewrite Hre in Hr'. injection Hr' as <-.
      rewrite (Hid _ _ Hre). split; [done|]. by apply (HQ _ _ _ Hro).
    + intros [(r & Hl & Hro) HQe].
      assert (r ∈ merge_sort (row_le le key) (rows_where P db)) as Hr.
      { rewrite merge_sort_Permutation. apply elem_of_rows_where. exists (e_ID e).
        split; [done|]. by apply (HQ _ _ _ Hro). }
      apply list_elem_of_lookup_1 in Hr as (i & Hr). destruct (Forall2_lookup_l _ _ _ _ _ Hall Hr) as (e' & He & Hre).
      pose proof (ro_read _ _ _ Hro) as Hr'. unfold reads_as in Hre. rewrite Hre in Hr'. injection Hr' as ->.
      by eapply list_elem_of_lookup_2.
  - assert (e_ID <$> es = er_ID <$> merge_sort (row_le le key) (rows_where P db)) as ->.
    { clear -Hall Hid. induction Hall; simpl; [done|]. f_equal; [by apply Hid|done]. }
    rewrite merge_sort_Permutation. by apply NoDup_rows_where.
  - eapply Forall2_Sorted; [|exact Hall|apply Sorted_merge_sort; intros x y; unfold row_le; apply total; apply _].
    intros a a' b b' Ha Hb. unfold row_le. by rewrite (Hkey _ _ Ha), (Hkey _ _ Hb).
Qed.

Lemma length_rows_where P db : (length (rows_where P db) ≤ size (db_errands db))%nat.
Proof.
  unfold rows_where, scan. rewrite length_fmap, <- length_map_to_list. apply List.filter_length_le.
Qed.

Lemma walk_listing {C} (mk : pos → C) (ckey : Errand → C) le `{!RelDecision le, !Transitive le, !AntiSymm (=) le, !Total le}
    (key : ErrandRow → pos) (keyE : Errand → pos) P Q db limit (read : option C → Op (Page C)) fuel :
  store_ok db → 1 ≤ limit ≤ MaxListLimit → (size (db_errands db) < fuel)%nat →
  (∀ r, (key r).2 = er_ID r) → (∀ r e, reads_as r e → keyE e = key r) → (∀ e, ckey e = mk (keyE e)) →
  (∀ id r e, row_ok id r e → P r = true ↔ Q e) →
  (∀ after, (∀ p, after = Some p → p ∈ key <$> rows_where P db) →
     read (mk <$> after) db = bind (row_query le key P after (rowLimit (limit + 1))) (λ rows, page rows limit ckey) db) →
  ∃ es, walk fuel (λ c, answer (read c db)) None = Some es ∧ listing db Q (λ a b, le (keyE a) (keyE b)) es.
Proof.
  intros Hok Hlim Hf Hid Hkey Hck HQ Hread.
  assert (NoDup (key <$> rows_where P db)) as Hnd.
  { apply (NoDup_fmap_1 snd). rewrite <- list_fmap_compose. erewrite list_fmap_ext; [by apply NoDup_rows_where|].
    intros i r _. apply Hid. }
  unfold MaxListLimit in Hlim.
  destruct (walk_pages mk ckey le key P db limit read Hok Hlim) with (fuel := fuel) (after := @None pos)
    (l := merge_sort (row_le le key) (rows_where P db)) as (es & Hw & Hall).
  - intros r e Hre. rewrite Hck. by rewrite (Hkey _ _ Hre).
  - done.
  - apply pages_all; try apply _; [done|lia|]. pose proof (length_rows_where P db). lia.
  - done.
  - exists es. split; [done|]. by eapply listing_rows.
Qed.

(** A cursor a page gives is read back as the position it stands for. *)
Lemma stored_key (col : ErrandRow → Z) P db p :
  store_ok db → (∀ r, stored_row r = r → stored_time (col r) = col r) →
  p ∈ (λ r, (col r, er_ID r)) <$> rows_where P db → (stored_time p.1, canon_id p.2) = p ∧ toUUID p.2 = Some p.2.
Proof.
  intros Hok Hcol (r & -> & Hr)%list_elem_of_fmap. destruct (rows_where_read _ _ _ Hok Hr) as (e & Hro & _).
  simpl. unfold canon_id. rewrite (ro_id _ _ _ Hro). simpl. split; [|done].
  by rewrite (Hcol _ (ro_stored _ _ _ Hro)).
Qed.

(** ** The lists *)

Definition open_for (now : Z) (supplier : string) (e : Errand) : Prop :=
  e_Status e = StatusOpen ∧ stored_time now < d_AcceptanceDeadline (e_Details e) ∧
  (supplier ≠ "" → toUUID supplier = Some (d_SupplierID (e_Details e))).

Lemma ListOpen_walk db now supplier limit fuel :
  store_ok db → 1 ≤ limit ≤ MaxListLimit → (size (db_errands db) < fuel)%nat →
  (supplier = "" ∨ is_Some (toUUID supplier)) →
  ∃ es, walk fuel (λ after, answer (ListOpen (mkOpenQuery now supplier after limit) db)) None = Some es ∧
    listing db (open_for now supplier)
      (λ a b, pos_le (d_AcceptanceDeadline (e_Details a), e_ID a) (d_AcceptanceDeadline (e_Details b), e_ID b)) es.
Proof.
  intros Hok Hlim Hf Hsup. set (u := if bool_decide (supplier = "") then None else toUUID supplier).
  assert (checkLimit limit = Ok tt) as Hcl.
  { unfold checkLimit. rewrite (proj2 (Z.ltb_ge _ _)), (proj2 (Z.ltb_ge _ _)) by lia. done. }
  apply (walk_listing (λ p, mkOpenCursor p.1 p.2) (λ e, mkOpenCursor (d_AcceptanceDeadline (e_Details e)) (e_ID e))
    pos_le deadline_key (λ e, (d_AcceptanceDeadline (e_Details e), e_ID e)) (row_open (stored_time now) u)
    (open_for now supplier) db limit (λ after, ListOpen (mkOpenQuery now supplier after limit))); try done.
  - intros r e. unfold reads_as, errandFromRow, deadline_key. intros Hr. by break_in Hr.
  - intros id r e Hro. pose proof (ro_read _ _ _ Hro) as Hr. unfold errandFromRow in Hr. unfold row_open, open_for, u.
    rewrite !andb_true_iff, Z.ltb_lt, bool_decide_eq_true.
    assert (er_Status r = e_Status e ∧ er_AcceptanceDeadline r = d_AcceptanceDeadline (e_Details e) ∧
      er_SupplierID r = d_SupplierID (e_Details e)) as (-> & -> & ->) by (by break_in Hr).
    case_bool_decide as Hs; [naive_solver|]. destruct Hsup as [?|[s Hsu]]; [done|]. rewrite Hsu, bool_decide_eq_true.
    naive_solver congruence.
  - intros after Hafter. unfold ListOpen. cbn [opq_Limit opq_SupplierID opq_After opq_Now].
    unfold lift at 1. rewrite Hcl. cbn [bind ret].
    assert (∀ db, (match (λ p, mkOpenCursor p.1 p.2) <$> after with
            | None => ret None
            | Some c => let! id := lift (parseUUID (ocr_ID c)) in ret (Some (stored_time (ocr_AcceptanceDeadline c), id))
            end : Op (option pos)) db = Ok (after, db)) as Hread.
    { intros db'. destruct after as [p|]; [|done]. simpl.
      destruct (stored_key er_AcceptanceDeadline (row_open (stored_time now) u) db p Hok) as [Hp Hu].
      - intros r Hr. by apply (f_equal er_AcceptanceDeadline) in Hr.
      - by apply Hafter.
      - unfold parseUUID, canon_id in *. rewrite Hu in *. simpl in *. unfold lift, ret, bind. by rewrite Hp. }
    unfold u. case_bool_decide as Hs.
    + unfold bind at 1. rewrite Hread. done.
    + destruct Hsup as [?|[s Hsu]]; [done|]. rewrite Hsu. unfold bind at 1. rewrite Hread. done.
Qed.

Inductive UserList := RequestedList | DeliveringList | HistoryList.

Definition ListUser (which : UserList) (q : UserListQuery) : Op (Page UserListCursor) :=
  match which with
  | RequestedList => ListRequested q
  | DeliveringList => ListDelivering q
  | HistoryList => ListHistory q
  end.

(** What each list holds of [user]'s. *)
Definition users (which : UserList) (role : HistoryRole) (user : string) (e : Errand) : Prop :=
  match which with
  | RequestedList => e_RequesterID e = user ∧ Active (e_Status e) = true
  | DeliveringList => e_CourierID e = user ∧ Active (e_Status e) = true
  | HistoryList => Terminal (e_Status e) = true ∧
      ((role ≠ HistoryCourier ∧ e_RequesterID e = user) ∨ (role ≠ HistoryRequester ∧ e_CourierID e = user))
  end.

Definition list_time (which : UserList) : Errand → Z :=
  match which with RequestedList => e_CreatedAt | _ => e_UpdatedAt end.

Lemma listUser_walk db user role (at_ : Errand → Z) (col : ErrandRow → Z) P Q limit fuel :
  store_ok db → 1 ≤ limit ≤ MaxListLimit → (size (db_errands db) < fuel)%nat →
  (∀ r, stored_row r = r → stored_time (col r) = col r) → (∀ r e, reads_as r e → at_ e = col r) →
  (∀ id r e, row_ok id r e → P r = true ↔ Q e) →
  ∃ es, walk fuel (λ after, answer (listUser (mkUserListQuery user role after limit) at_
      (λ after, row_query pos_ge (λ r, (col r, er_ID r)) P after (rowLimit (limit + 1))) db)) None = Some es ∧
    listing db Q (λ a b, pos_ge (at_ a, e_ID a) (at_ b, e_ID b)) es.
Proof.
  intros Hok Hlim Hf Hcol Hat HQ.
  assert (checkLimit limit = Ok tt) as Hcl.
  { unfold checkLimit. rewrite (proj2 (Z.ltb_ge _ _)), (proj2 (Z.ltb_ge _ _)) by lia. done. }
  apply (walk_listing (λ p, mkUserListCursor p.1 p.2) (λ e, mkUserListCursor (at_ e) (e_ID e)) pos_ge
    (λ r, (col r, er_ID r)) (λ e, (at_ e, e_ID e)) P Q db limit
    (λ after, listUser (mkUserListQuery user role after limit) at_
      (λ after, row_query pos_ge (λ r, (col r, er_ID r)) P after (rowLimit (limit + 1))))); try done.
  - intros r e Hre. rewrite (Hat _ _ Hre). f_equal. unfold reads_as, errandFromRow in Hre. by break_in Hre.
  - intros after Hafter. unfold listUser. cbn [ulq_Limit ulq_After].
    unfold lift at 1. rewrite Hcl. cbn [bind ret].
    assert (∀ db, (match (λ p, mkUserListCursor p.1 p.2) <$> after with
            | None => ret None
            | Some c => let! id := lift (parseUUID (ucr_ID c)) in ret (Some (stored_time (ucr_At c), id))
            end : Op (option pos)) db = Ok (after, db)) as Hread.
    { intros db'. destruct after as [p|]; [|done]. simpl.
      destruct (stored_key col P db p Hok Hcol) as [Hp Hu]; [by apply Hafter|].
      unfold parseUUID, canon_id in *. rewrite Hu in *. simpl in *. unfold lift, ret, bind. by rewrite Hp. }
    unfold bind at 1. rewrite Hread. done.
Qed.

Lemma ListUser_walk which db user role limit fuel :
  store_ok db → 1 ≤ limit ≤ MaxListLimit → (size (db_errands db) < fuel)%nat → user ≠ "" →
  role ∈ [HistoryAny; HistoryRequester; HistoryCourier] →
  ∃ es, walk fuel (λ after, answer (ListUser which (mkUserListQuery user role after limit) db)) None = Some es ∧
    listing db (users which role user) (λ a b, pos_ge (list_time which a, e_ID a) (list_time which b, e_ID b)) es.
Proof.
  intros Hok Hlim Hf Huser Hrole.
  assert (∀ r e id, row_ok id r e → er_RequesterID r = e_RequesterID e ∧ er_Status r = e_Status e ∧
    (er_CourierID r = Some user ↔ e_CourierID e = user)) as Hcols.
  { intros r e id Hro. pose proof (ro_read _ _ _ Hro) as Hr. unfold errandFromRow in Hr.
    assert (er_RequesterID r = e_RequesterID e ∧ er_Status r = e_Status e ∧ default "" (er_CourierID r) = e_CourierID e)
      as (-> & -> & <-) by (by break_in Hr).
    split_and!; [done..|]. destruct (er_CourierID r); simpl; [naive_solver|]. split; congruence. }
  destruct which; cbn [ListUser list_time users].
  - apply (listUser_walk db user role e_CreatedAt er_CreatedAt
      (λ r, requested_by user r && has_status Active r) (users RequestedList role user)); try done.
    + intros r Hr. by apply (f_equal er_CreatedAt) in Hr.
    + intros r e. unfold reads_as, errandFromRow. intros Hr. by break_in Hr.
    + intros id r e Hro. destruct (Hcols _ _ _ Hro) as (Hrq & Hst & _). unfold requested_by, has_status. simpl.
      rewrite andb_true_iff, bool_decide_eq_true, Hrq, Hst. done.
  - apply (listUser_walk db user role e_UpdatedAt er_UpdatedAt
      (λ r, carried_by user r && has_status Active r) (users DeliveringList role user)); try done.
    + intros r Hr. by apply (f_equal er_UpdatedAt) in Hr.
    + intros r e. unfold reads_as, errandFromRow. intros Hr. by break_in Hr.
    + intros id r e Hro. destruct (Hcols _ _ _ Hro) as (Hrq & Hst & Hc). unfold carried_by, has_status. simpl.
      rewrite andb_true_iff, bool_decide_eq_true, Hc, Hst. done.
  - assert (∃ r, (∀ after, ListHistory (mkUserListQuery user role after limit) =
      listUser (mkUserListQuery user role after limit) e_UpdatedAt (λ after,
        row_query pos_ge updated_key (λ row, in_role r user row && has_status Terminal row) after
          (rowLimit (limit + 1)))) ∧
      ((role = HistoryAny ∧ r = None) ∨ (role = HistoryRequester ∧ r = Some HistoryRequester) ∨
       (role = HistoryCourier ∧ r = Some HistoryCourier))) as (r & Heq & Hr).
    { repeat (apply elem_of_cons in Hrole as [->|Hrole]); [by exists None; auto|..|by apply elem_of_nil in Hrole].
      - exists (Some HistoryRequester). auto.
      - exists (Some HistoryCourier). auto. }
    erewrite walk_ext by (intros after; by rewrite Heq). apply (listUser_walk db user role e_UpdatedAt er_UpdatedAt
      (λ row, in_role r user row && has_status Terminal row) (users HistoryList role user)); try done.
    + intros row Hrow. by apply (f_equal er_UpdatedAt) in Hrow.
    + intros row e. unfold reads_as, errandFromRow. intros Hrow. by break_in Hrow.
    + intros id row e Hro. destruct (Hcols _ _ _ Hro) as (Hrq & Hst & Hc). unfold in_role, requested_by, carried_by, has_status.
      destruct Hr as [[-> ->]|[[-> ->]|[-> ->]]]; simpl;
        rewrite ?andb_true_iff, ?orb_true_iff, ?bool_decide_eq_true, ?Hrq, Hst, ?Hc; naive_solver.
Qed.

(** ** What one page holds *)

Lemma errandsFromRows_in rows es e : errandsFromRows rows = Ok es → e ∈ es → ∃ r, r ∈ rows ∧ reads_as r e.
Proof.
  revert es. induction rows as [|r rows IH]; intros es; simpl; [intros [= <-]; by rewrite elem_of_nil|].
  destruct (errandFromRow r) as [e0|] eqn:He; [|done]. destruct (errandsFromRows rows) as [l|]; [|done].
  intros [= <-] [->|Hin]%elem_of_cons; [exists r; split; [by left|done]|].
  destruct (IH _ eq_refl Hin) as (r' & ? & ?). exists r'. split; [by right|done].
Qed.

Lemma page_items {C} le `{!RelDecision le} key P Q db after n limit (ckey : Errand → C) p db' :
  store_ok db → (∀ id r e, row_ok id r e → P r = true → Q e) →
  bind (row_query le key P after n) (λ rows, page rows limit ckey) db = Ok (p, db') →
  db' = db ∧ ∀ e, e ∈ pg_Items p → e ∈ current db ∧ Q e.
Proof.
  intros Hok HQ Hrun. unfold row_query, page in Hrun. cbn [bind] in Hrun. unfold lift in Hrun.
  destruct (errandsFromRows _) as [es|] eqn:Hes; [|done]. injection Hrun as <- <-. split; [done|].
  intros e He. simpl in He. destruct (errandsFromRows_in _ _ _ Hes He) as (r & Hr & Hre).
  apply elem_of_take in Hr as (i & Hr & _). unfold keyset in Hr. apply lookup_take_Some in Hr as [Hr _].
  apply list_elem_of_lookup_2 in Hr. rewrite merge_sort_Permutation in Hr.
  apply list_elem_of_In, filter_In in Hr as [Hr _]. apply list_elem_of_In in Hr.
  destruct (rows_where_read _ _ _ Hok Hr) as (e' & Hro & Hst & HP).
  pose proof (ro_read _ _ _ Hro) as Hr'. unfold reads_as in Hre. rewrite Hre in Hr'. injection Hr' as <-.
  destruct (stored_as_id _ _ _ Hst) as (Hid & _). split; [|by eapply HQ].
  apply elem_of_current; [done|]. by rewrite Hid.
Qed.

Lemma lift_Err_bind {A B} (f : Failure) (k : A → Op B) db : bind (lift (Err f)) k db = Err f.
Proof. done. Qed.

Lemma ListOpen_items q db p db' :
  store_ok db → ListOpen q db = Ok (p, db') →
  db' = db ∧ ∀ e, e ∈ pg_Items p → e ∈ current db ∧ open_for (opq_Now q) (opq_SupplierID q) e.
Proof.
  intros Hok. unfold ListOpen. intros (u & d & [_ ->]%lift_Ok & Hrun)%bind_Ok.
  case_bool_decide as Hs; [|destruct (toUUID (opq_SupplierID q)) as [u'|] eqn:Hu].
  3:{ injection Hrun as <- <-. split; [done|]. intros e He. by apply elem_of_nil in He. }
  all: apply bind_Ok in Hrun as (after & d & Haft & Hrun);
    assert (d = db) as -> by (destruct (opq_After q); [|by injection Haft];
      apply bind_Ok in Haft as (? & ? & [_ ->]%lift_Ok & [= _ <-]); done);
    eapply page_items; [done| |exact Hrun]; intros id r e Hro HP; pose proof (ro_read _ _ _ Hro) as Hr;
    unfold errandFromRow in Hr; unfold row_open in HP; unfold open_for;
    apply andb_true_iff in HP as [[HP1 HP2]%andb_true_iff HP3]; apply bool_decide_eq_true in HP1; apply Z.ltb_lt in HP2.
  - split_and!; [by break_in Hr..|done].
  - apply bool_decide_eq_true in HP3. split_and!; [by break_in Hr..|]. intros _. rewrite Hu. f_equal. by break_in Hr.
Qed.

Lemma listUser_items db user role after0 (at_ : Errand → Z) le `{!RelDecision le} key P (Q : Errand → Prop) limit n p db' :
  store_ok db → (∀ id r e, row_ok id r e → P r = true → Q e) →
  listUser (mkUserListQuery user role after0 limit) at_ (λ after, row_query le key P after n) db = Ok (p, db') →
  db' = db ∧ ∀ e, e ∈ pg_Items p → e ∈ current db ∧ Q e.
Proof.
  intros Hok HQ. unfold listUser. intros (u & d & [_ ->]%lift_Ok & Hrun)%bind_Ok.
  apply bind_Ok in Hrun as (after & d & Haft & Hrun).
  assert (d = db) as ->. { simpl in Haft. destruct after0; [|by injection Haft].
    by apply bind_Ok in Haft as (? & ? & [_ ->]%lift_Ok & [= _ <-]). }
  by eapply page_items.
Qed.

Lemma row_user id r e user : row_ok id r e → user ≠ "" →
  er_Status r = e_Status e ∧ (requested_by user r = true ↔ e_RequesterID e = user) ∧
  (carried_by user r = true ↔ e_CourierID e = user).
Proof.
  intros Hro Hu. pose proof (ro_read _ _ _ Hro) as Hr. unfold errandFromRow in Hr. unfold requested_by, carried_by.
  rewrite !bool_decide_eq_true.
  assert (er_RequesterID r = e_RequesterID e ∧ er_Status r = e_Status e ∧ default "" (er_CourierID r) = e_CourierID e)
    as (-> & -> & <-) by (by break_in Hr).
  split_and!; [done..|]. destruct (er_CourierID r); simpl; [naive_solver|]. split; congruence.
Qed.

Lemma ListUser_items which q db p db' :
  store_ok db → ulq_UserID q ≠ "" → ListUser which q db = Ok (p, db') →
  db' = db ∧ ∀ e, e ∈ pg_Items p → e ∈ current db ∧ users which (ulq_Role q) (ulq_UserID q) e.
Proof.
  intros Hok Hu. destruct q as [user role after limit]. destruct which; cbn [ListUser].
  - intros Hrun. eapply listUser_items; [done| |exact Hrun]. intros id r e Hro [HP Hst]%andb_true_iff.
    destruct (row_user _ _ _ _ Hro Hu) as (Hs & Hrq & Hc). unfold has_status in Hst. rewrite Hs in Hst.
    split; [by apply Hrq|done].
  - intros Hrun. eapply listUser_items; [done| |exact Hrun]. intros id r e Hro [HP Hst]%andb_true_iff.
    destruct (row_user _ _ _ _ Hro Hu) as (Hs & Hrq & Hc). unfold has_status in Hst. rewrite Hs in Hst.
    split; [by apply Hc|done].
  - unfold ListHistory. simpl in *.
    assert (∀ r, (r = None ∧ role = HistoryAny) ∨ (r = Some role ∧ role ∈ [HistoryRequester; HistoryCourier]) → ∀ id row e,
      row_ok id row e → in_role r user row && has_status Terminal row = true → users HistoryList role user e) as HQ.
    { intros r Hr id row e Hro [HP Hst]%andb_true_iff. destruct (row_user _ _ _ _ Hro Hu) as (Hs & Hrq & Hc).
      unfold has_status in Hst. rewrite Hs in Hst. split; [done|].
      destruct Hr as [[-> ->]|[-> Hr]]; simpl in HP.
      - apply orb_true_iff in HP as [HP|HP]; [left; split; [done|by apply Hrq]|right; split; [done|by apply Hc]].
      - repeat (apply elem_of_cons in Hr as [->|Hr]); simpl in HP; [..|by apply elem_of_nil in Hr];
          rewrite ?orb_false_r in HP; [left; split; [done|by apply Hrq]|right; split; [done|by apply Hc]]. }
    case_bool_decide as H1; [|destruct (_ || _) eqn:H2; [|done]].
    + intros Hrun. eapply listUser_items; [done| |exact Hrun]. apply (HQ None). auto.
    + intros Hrun. eapply listUser_items; [done| |exact Hrun]. apply (HQ (Some role)). right. split; [done|].
      apply orb_true_iff in H2 as [H2|H2]; apply bool_decide_eq_true in H2; set_solver.
Qed.

End lists.
