(* ===== verification/StoreHistory.v ===== *)
(** * order-service: the history behind a stored errand

    Every committed change of the store is a sequence of single moves: an
    errand inserted, an errand moved by one decided transition, or a change
    that touches no errand.  From this, every errand that was ever stored is
    explained by a history row that is still there, an errand never changes
    hands between requesters, a version pins down what was stored, a courier
    named in a row accepted the errand, only a requester cancels, and an
    errand that ended has one last row. *)

From S2P Require Import Prelude GoText Json GoTime Errand ErrandState ErrandJson ErrandInv ErrandStore Fence OpsRepo StoreInv StoreSafe StoreSystem.

Section history.
Context `{Hpg : Postgres, Hpgok : !PostgresOk}.

(** ** Single moves *)

Inductive atom (db db' : ODB) : Prop :=
| atom_create clock e t actor input now :
    store_ok db → fresh e → toUUID (e_ID e) = Some (e_ID e) → db_errands db !! e_ID e = None →
    Next e EventSubmit actor input now = Ok t →
    moved clock (e_ID e) t (transition_row (e_ID e) e (canon (ApplyTo t e)) t) (canon (ApplyTo t e)) db db' →
    atom db db'
| atom_move clock e t ev actor input now :
    store_ok db → stored_as db (e_ID e) e → Next e ev actor input now = Ok t →
    moved clock (e_ID e) t (transition_row (e_ID e) e (canon (ApplyTo t e)) t) (canon (ApplyTo t e)) db db' →
    atom db db'
| atom_quiet :
    db_errands db' = db_errands db → db_transitions db' = db_transitions db →
    db_reviews db' = db_reviews db → atom db db'.

Lemma apply_batch_atoms clock seen decided locked db u db' :
  (∀ t, t ∈ decided → ∃ e ev actor input now, e ∈ seen ∧ input_ok input ∧
     Next e ev actor input now = Ok t) →
  (∀ id cur, locked !! id = Some cur → stored_as db id cur) →
  store_ok db → seen_inv db seen → apply_batch clock decided locked db = Ok (u, db') →
  rtc atom db db'.
Proof.
  revert locked db. induction decided as [|t decided IH]; intros locked db Hdec Hlocked Hok Hs; simpl.
  { intros [= <- <-]. done. }
  destruct (locked !! t_ErrandID t) as [cur|] eqn:Hl; [|done]. case_bool_decide; [done|].
  intros (stored & db1 & Happ & Hrun)%bind_Ok.
  destruct (Hdec t) as (e & ev & actor & input & now & He & Hin & Hnext); [by left|].
  destruct (Hs e He) as (Heok & _). destruct (Next_expected _ _ _ _ _ _ Heok Hnext) as (_ & Hti & _).
  pose proof (Hlocked _ _ Hl) as Hst. rewrite Hti in Hst, Hl.
  destruct (applyLocked_step _ _ _ _ _ _ _ _ _ _ _ _ Hok Hs He Hst Hin Hnext Happ)
    as (<- & -> & _ & _ & Hm & Hg).
  eapply rtc_l; [by eapply atom_move|]. eapply (IH (<[t_ErrandID t := canon (ApplyTo t e)]> locked) db1); [..|done].
  - intros t' Ht'. apply Hdec. by right.
  - intros id c. rewrite Hti. intros [[<- <-]|[Hne Hlk]]%lookup_insert_Some; [apply Hm|].
    destruct (Hlocked _ _ Hlk) as (row & Hr & Hro). exists row. by rewrite (mv_other _ _ _ _ _ _ _ Hm).
  - apply Hm.
  - by eapply seen_grows.
Qed.

Lemma batch_stored k skip now limit db batch e :
  store_ok db → errandsFromRows (claim_query k skip now limit db) = Ok batch → e ∈ batch → stored_as db (e_ID e) e.
Proof.
  intros Hok Hb He. destruct (errandsFromRows_inv _ _ _ Hb He) as (row & Hin & Hr).
  apply claim_query_stored in Hin as (id & Hl & _). apply elem_of_current; [done|].
  unfold current. apply list_elem_of_omap. exists (id, row). rewrite elem_of_map_to_list. simpl. by rewrite Hr.
Qed.

Lemma ClaimDue_atoms clock k skip now limit decide db n db' :
  store_ok db → decides_next decide → ClaimDue clock k skip now limit decide db = Ok (n, db') → rtc atom db db'.
Proof.
  intros Hok Hdec. unfold ClaimDue. destruct (limit <? 1); [done|].
  intros (rows & db0 & [= <- <-] & Hrun)%bind_Ok.
  apply bind_Ok in Hrun as (batch & ? & [Hb ->]%lift_Ok & Hrun).
  apply bind_Ok in Hrun as ([ts locked] & ? & [Hd ->]%lift_Ok & Hrun).
  apply bind_Ok in Hrun as (u & db1 & Happ & [= _ <-]).
  apply decide_batch_inv in Hd as [Hts Hlk].
  eapply (apply_batch_atoms clock (current db)); [| |done|by apply seen_current|done].
  - intros t Ht. destruct (Hts t Ht) as (e & He & Hde).
    destruct (Hdec e t Hde) as (ev & actor & input & now' & Hin & Hn). exists e, ev, actor, input, now'.
    split_and!; [|done|done]. apply elem_of_current; [done|]. by eapply batch_stored.
  - intros id cur [[Hin ->]|Hl]%Hlk; [by eapply batch_stored|]. by rewrite lookup_empty in Hl.
Qed.

Lemma RecordRejection_quiet clock r db u db' :
  RecordRejection clock r db = Ok (u, db') →
  db_errands db' = db_errands db ∧ db_transitions db' = db_transitions db ∧ db_reviews db' = db_reviews db.
Proof.
  unfold RecordRejection. destruct (negb _); [done|]. case_bool_decide; [done|].
  destruct (toUUID _); [|done]. intros (found & ? & [= <- <-] & Hr)%bind_Ok.
  destruct (db_errands db !! _); [|done]. destruct (enc_rejection _ _ _); [|done].
  apply bind_Ok in Hr as (n & db1 & Hins & [= _ <-]). unfold InsertOutboxIfAbsent in Hins.
  destruct (scan1 _ _); [by injection Hins as _ <-|].
  apply bind_Ok in Hins as (u1 & db2 & (_ & _ & ->)%InsertOutbox_inv & [= _ <-]). done.
Qed.

Lemma fences_only_quiet db db' : fences_only db db' → atom db db'.
Proof. intros (f & a & -> & _). by apply atom_quiet. Qed.

Lemma store_step_atoms seen db db' :
  store_ok db → seen_inv db seen → store_step seen db db' → rtc atom db db'.
Proof.
  intros Hok Hs Hstep. destruct Hstep as [clock db0 e t actor input now stored db' Hfr Hid Hin Hnext Hlock Hc
    |clock e t ev actor input now stored db' He Hin Hnext Ha
    |clock k skip now limit decide n db' Hd Hc|clock r u db' Hc Hr|db' Hd|actor op sup|actor op|actor op
    |clock k d status version b db' Hc Hv Hr|r db' Hr].
  - destruct (Create_sound _ _ _ _ _ _ _ _ _ _ Hok Hfr Hid Hin Hnext Hc) as (-> & Hnone & _ & Hm).
    apply rtc_once. by eapply atom_create.
  - destruct (Apply_step _ _ _ _ _ _ _ _ _ _ _ Hok Hs He Hin Hnext Ha) as (Hst & -> & _ & _ & Hm & _).
    apply rtc_once. by eapply atom_move.
  - by eapply ClaimDue_atoms.
  - apply rtc_once. apply RecordRejection_quiet in Hr as (? & ? & ?). by apply atom_quiet.
  - apply rtc_once. destruct Hd as (m & -> & _). by apply atom_quiet.
  - apply rtc_once, fences_only_quiet, Acquire_fences.
  - apply rtc_once, fences_only_quiet, close_fences.
  - apply rtc_once, fences_only_quiet, close_fences.
  - apply rtc_once. destruct (reminder_step _ _ _ _ _ _ _ _ Hok Hc Hv Hr) as (_ & _ & m & n & ->). by apply atom_quiet.
  - by eapply rtc_once, fences_only_quiet, audit_only.
Qed.

(** ** The row that explains an errand *)

Definition moved_by (ev : Event) (who : ActorType) (id : string) (tr : TransitionRow) : Prop :=
  tr_Event tr = ev ∧ tr_ActorType tr = who ∧ tr_ActorID tr = text id.

(** What brought the errand to its state, where only one person can have. *)
Definition arrived (tr : TransitionRow) (e : Errand) : Prop :=
  match e_Status e with
  | StatusAssigned => moved_by EventAccept ActorCourier (e_CourierID e) tr
  | StatusPickedUp => moved_by EventPickUp ActorCourier (e_CourierID e) tr
  | StatusDelivered => moved_by EventDeliver ActorCourier (e_CourierID e) tr
  | StatusCancelled => moved_by EventCancel ActorRequester (e_RequesterID e) tr
  | StatusReviewRequired =>
      match e_ReviewReason e with
      | ReviewCourierIssue => moved_by EventReportIssue ActorCourier (e_CourierID e) tr
      | ReviewRequesterDispute => moved_by EventDispute ActorRequester (e_RequesterID e) tr
      | _ => True
      end
  | _ => True
  end.

Definition explains (l : list TransitionRow) (e : Errand) : Prop :=
  ∃ tr, tr ∈ l ∧ tr_ErrandID tr = e_ID e ∧ tr_ErrandVersion tr = e_Version e ∧
    tr_ToStatus tr = e_Status e ∧ arrived tr e.

Lemma explains_more l l' e : l ⊆ l' → explains l e → explains l' e.
Proof. intros Hl (tr & Hin & ?). exists tr. split; [by apply Hl|done]. Qed.

(** The row of a decided transition explains where it leads. *)
Lemma Next_arrived e ev actor input now t id before after :
  errand_ok e → Next e ev actor input now = Ok t →
  arrived (transition_row id before after t) (canon (ApplyTo t e)) ∧
  (t_NewVersion t = e_Version e → t_To t = StatusOpen ∧ e_Status e = StatusOpen).
Proof.
  intros Hok (rule & [Hin Hf Hev Hact _ _ (t0 & Happ & ->)])%Next_inv.
  unfold applyEvent, newError in Happ. unfold arrived, moved_by, transition_row. rewrite ApplyTo_outbox.
  destruct e as [id0 st ver req cour det pd dd da vd rr ck pe ca ua].
  each_rule Hin; simpl in *; subst st; break_in Happ; simplify_eq/=;
    unfold drop_edit; simpl; try (destruct pe as [p0|]); simpl;
    (split; [|intros; solve [lia | done]]); try done;
    unfold checkActor in Hact; simpl in Hact; break_in Hact; bool_props; subst; split_and!; try congruence; done.
Qed.

(** ** What every reachable store satisfies *)

Record past_ok (db : ODB) : Prop := {
  po_explained id e : stored_as db id e → explains (db_transitions db) e;
}.

(** The errands stored before are still there, with the same requester and
    key, and every history row is kept. *)
Definition continues (db db' : ODB) : Prop :=
  db_transitions db ⊆ db_transitions db' ∧
  ∀ id e, stored_as db id e → ∃ e', stored_as db' id e' ∧ e_RequesterID e' = e_RequesterID e ∧
    e_CreateIdempotencyKey e' = e_CreateIdempotencyKey e.

#[export] Instance continues_pre : PreOrder continues.
Proof.
  split; [intros db; split; [done|eauto]|]. intros db1 db2 db3 [Ht1 H1] [Ht2 H2]. split; [by etrans|].
  intros id e (e2 & Hs2 & Hr2 & Hk2)%H1. apply H2 in Hs2 as (e3 & Hs3 & Hr3 & Hk3).
  exists e3. split_and!; congruence.
Qed.

Lemma moved_continues clock id t tr e e' db db' :
  moved clock id t tr e' db db' →
  (∀ e0, stored_as db id e0 → e_RequesterID e' = e_RequesterID e0 ∧
     e_CreateIdempotencyKey e' = e_CreateIdempotencyKey e0) →
  e = e' → continues db db'.
Proof.
  intros Hm Hsame ->. split.
  - rewrite (mv_transitions _ _ _ _ _ _ _ Hm). intros r Hr. apply elem_of_app. by left.
  - intros id2 e2 Hst. destruct (decide (id2 = id)) as [->|Hne].
    + exists e'. destruct (Hsame _ Hst). split_and!; [apply Hm|done|done].
    + exists e2. split; [|done]. destruct Hst as (row & Hl & Hro). exists row.
      by rewrite (mv_other _ _ _ _ _ _ _ Hm).
Qed.

Lemma moved_explained clock e t ev actor input now db db' :
  past_ok db → (e_Status e ≠ StatusNone → stored_as db (e_ID e) e) → errand_ok e →
  Next e ev actor input now = Ok t → toUUID (e_ID e) = Some (e_ID e) →
  moved clock (e_ID e) t (transition_row (e_ID e) e (canon (ApplyTo t e)) t) (canon (ApplyTo t e)) db db' →
  past_ok db'.
Proof.
  intros [Hex] Hst Hok Hnext Hid Hm. split. intros id e2 Hst2.
  pose proof (mv_transitions _ _ _ _ _ _ _ Hm) as Htr.
  assert (db_transitions db ⊆ db_transitions db') as Hsub by (rewrite Htr; set_solver).
  destruct (decide (id = e_ID e)) as [->|Hne].
  - rewrite (stored_as_fun _ _ _ _ Hst2 (mv_at _ _ _ _ _ _ _ Hm)).
    destruct (Next_arrived _ _ _ _ _ _ (e_ID e) e (canon (ApplyTo t e)) Hok Hnext) as [Harr Hsame].
    exists (transition_row (e_ID e) e (canon (ApplyTo t e)) t).
    split_and!; [rewrite Htr; apply elem_of_app; right; by left|..|done|done].
    + simpl. unfold canon_id. by rewrite Hid.
    + destruct (stored_as_id _ _ _ Hst2) as (_ & _ & _). simpl. apply wrap32_id.
      destruct (mv_at _ _ _ _ _ _ _ Hm) as (row & _ & Hro). apply Hro.
  - eapply explains_more; [done|]. apply (Hex id). destruct Hst2 as (row & Hl & Hro). exists row.
    by rewrite <- (mv_other _ _ _ _ _ _ _ Hm).
Qed.

Lemma atom_past db db' : past_ok db → atom db db' → past_ok db' ∧ continues db db'.
Proof.
  intros Hp [clock e t actor input now Hok Hfr Hid Hnone Hnext Hm
            |clock e t ev actor input now Hok Hst Hnext Hm|He Ht Hr].
  - split; [|eapply moved_continues; [done| |done]; intros e0 (row & Hl & _); congruence].
    eapply moved_explained; [done| |by apply fresh_ok|done|done|done].
    intros []. by destruct Hfr.
  - pose proof Hst as (row & Hl & Hro). split; [|eapply moved_continues; [done| |done]].
    + eapply moved_explained; [done|done|apply Hro|done|by eapply stored_as_id|done].
    + intros e0 Hst0. by rewrite (stored_as_fun _ _ _ _ Hst0 Hst).
  - split; [split; intros id e Hst|split; [by rewrite Ht|intros id e Hst]].
    + rewrite Ht. apply (po_explained _ Hp id). by eapply stored_as_ext.
    + exists e. split_and!; [by eapply stored_as_ext|done|done].
Qed.

Lemma atoms_past db db' : past_ok db → rtc atom db db' → past_ok db' ∧ continues db db'.
Proof.
  intros Hp. induction 1 as [db|db1 db2 db3 Ha _ IH]; [done|].
  destruct (atom_past _ _ Hp Ha) as [Hp2 Hc]. destruct (IH Hp2) as [Hp3 Hc3]. split; [done|by etrans].
Qed.

Lemma reachable_past db seen :
  reachable db seen → past_ok db ∧
  (∀ e, e ∈ seen → explains (db_transitions db) e ∧
     ∃ cur, stored_as db (e_ID e) cur ∧ e_RequesterID cur = e_RequesterID e ∧
       e_CreateIdempotencyKey cur = e_CreateIdempotencyKey e).
Proof.
  induction 1 as [|db seen db' Hr (Hp & Hseen) Hstep].
  { split; [split; by intros id e (row & Hl & _)|]. intros e. by rewrite elem_of_nil. }
  destruct (store_reachable_ok _ _ Hr) as (Hok & Hs & _).
  destruct (atoms_past _ _ Hp (store_step_atoms _ _ _ Hok Hs Hstep)) as [Hp' [Ht Hc]]. split; [done|].
  assert (store_ok db') as Hok' by by eapply store_step_sound.
  intros e [He|He]%elem_of_app.
  - apply elem_of_current in He; [|done]. split; [by eapply po_explained|]. eauto.
  - destruct (Hseen e He) as (Hex & cur & Hst & Hrq & Hk). split; [by eapply explains_more|].
    apply Hc in Hst as (cur' & Hst' & Hrq' & Hk'). exists cur'. split_and!; congruence.
Qed.

Lemma seen_range db seen e : reachable db seen → e ∈ seen → in_range e.
Proof.
  intros Hr. revert e. induction Hr as [|db seen db' Hr IH Hstep]; intros e; [by rewrite elem_of_nil|].
  destruct (store_reachable_ok _ _ (reach_step _ _ _ Hr Hstep)) as (Hok & _).
  rewrite elem_of_app. intros [(row & _ & Hro)%elem_of_current|He]; [apply Hro|done|by apply IH].
Qed.

(** ** A position pins down the errand *)

Lemma seen_unique db seen e1 e2 :
  reachable db seen → e1 ∈ seen → e2 ∈ seen → e_ID e1 = e_ID e2 → last_seq e1 = last_seq e2 → e1 = e2.
Proof.
  intros Hr. revert e1 e2. induction Hr as [|db seen db' Hr IH Hstep]; intros e1 e2; [by rewrite elem_of_nil|].
  destruct (store_reachable_ok _ _ (reach_step _ _ _ Hr Hstep)) as (Hok & Hs & _).
  assert (∀ a b, a ∈ current db' → b ∈ current db' ++ seen → e_ID a = e_ID b → last_seq a = last_seq b → a = b) as Hnew.
  { intros a b Ha Hb Hid Hl. apply elem_of_current in Ha; [|done].
    destruct (Hs b Hb) as (_ & cur & Hst & _ & Heq). rewrite Hid in Ha.
    pose proof (stored_as_fun _ _ _ _ Ha Hst) as <-. symmetry. by apply Heq. }
  rewrite !elem_of_app. intros [H1|H1] [H2|H2] Hid Hl;
    [by apply Hnew; try apply elem_of_app; auto| |symmetry|by apply IH]; apply Hnew; try apply elem_of_app; auto.
Qed.

(** Two readings of an errand past OPEN at one version are the same. *)
Lemma seen_version_unique db seen e1 e2 :
  reachable db seen → e1 ∈ seen → e2 ∈ seen → e_ID e1 = e_ID e2 → e_Version e1 = e_Version e2 →
  e_Status e1 ≠ StatusOpen → e_Status e2 ≠ StatusOpen → e1 = e2.
Proof.
  intros Hr H1 H2 Hid Hv Hs1 Hs2. destruct (store_reachable_ok _ _ Hr) as (_ & Hs & _).
  assert (∀ e, e ∈ seen → e_Status e ≠ StatusOpen → last_seq e = 2 * e_Version e - 1) as Hl.
  { intros e He Hne. destruct (Hs e He) as (Hok & _). unfold last_seq. pose proof (eo_pending _ Hok) as Hp.
    destruct (e_PendingEdit e); [|done]. by destruct (Hp _ eq_refl). }
  eapply seen_unique; [done..|]. rewrite !Hl by done. by rewrite Hv.
Qed.

Lemma seen_requester db seen e1 e2 :
  reachable db seen → e1 ∈ seen → e2 ∈ seen → e_ID e1 = e_ID e2 → e_RequesterID e1 = e_RequesterID e2.
Proof.
  intros Hr H1 H2 Hid. destruct (reachable_past _ _ Hr) as [_ Hseen].
  destruct (Hseen _ H1) as (_ & c1 & Hs1 & <- & _), (Hseen _ H2) as (_ & c2 & Hs2 & <- & _).
  rewrite Hid in Hs1. by rewrite (stored_as_fun _ _ _ _ Hs1 Hs2).
Qed.

End history.

Section record.
Context `{Hpg : Postgres, Hpgok : !PostgresOk}.

(** The user accepted the errand. *)
Definition is_accept (id user : string) (tr : TransitionRow) : Prop :=
  tr_ErrandID tr = id ∧ tr_Event tr = EventAccept ∧ tr_ActorID tr = Some user.

Definition accepted (db : ODB) (id user : string) : Prop := ∃ tr, tr ∈ db_transitions db ∧ is_accept id user tr.

(** The requester cancelled the errand. *)
Definition is_cancel (requester : string) (tr : TransitionRow) : Prop :=
  tr_Event tr = EventCancel ∧ tr_ActorType tr = ActorRequester ∧ tr_ActorID tr = Some requester.

Definition final (tr : TransitionRow) : Prop := Terminal (tr_ToStatus tr) = true.

Record record_ok (db : ODB) : Prop := {
  rc_courier id e : stored_as db id e → e_CourierID e ≠ "" → accepted db id (e_CourierID e);
  rc_named tr user : tr ∈ db_transitions db → tr_CourierID tr = Some user → accepted db (tr_ErrandID tr) user;
  rc_stored tr : tr ∈ db_transitions db → ∃ e, stored_as db (tr_ErrandID tr) e ∧
    (tr_ToStatus tr = StatusCancelled → is_cancel (e_RequesterID e) tr) ∧
    (final tr → e_Status e = tr_ToStatus tr);
  rc_last tr tr' : tr ∈ db_transitions db → tr' ∈ db_transitions db → tr_ErrandID tr = tr_ErrandID tr' →
    final tr → final tr' → tr = tr';
}.

(** What one decided transition writes. *)
Lemma Next_records e ev actor input now t id :
  errand_ok e → Next e ev actor input now = Ok t →
  let after := canon (ApplyTo t e) in let tr := transition_row id e after t in
  (∀ user, tr_CourierID tr = Some user → e_CourierID e = user ∨ (tr_Event tr = EventAccept ∧ tr_ActorID tr = Some user)) ∧
  (e_CourierID after ≠ "" → e_CourierID after = e_CourierID e ∨
     (tr_Event tr = EventAccept ∧ tr_ActorID tr = Some (e_CourierID after))) ∧
  (tr_ToStatus tr = StatusCancelled → is_cancel (e_RequesterID e) tr) ∧
  e_Status after = tr_ToStatus tr ∧ Terminal (e_Status e) = false.
Proof.
  intros Hok (rule & [Hin Hf Hev Hact _ _ (t0 & Happ & ->)])%Next_inv. cbv zeta.
  unfold applyEvent, newError in Happ. unfold is_cancel, transition_row. rewrite ApplyTo_outbox.
  pose proof (eo_courier _ Hok) as Hc.
  destruct e as [id0 st ver req cour det pd dd da vd rr ck pe ca ua].
  each_rule Hin; simpl in *; subst st; break_in Happ; simplify_eq/=;
    unfold drop_edit; simpl; try (destruct pe as [p0|]); simpl;
    unfold checkActor in Hact; simpl in Hact; break_in Hact; bool_props; subst;
    unfold orDefault, text; repeat case_bool_decide; simplify_eq/=;
    (split_and!; [try (intros user; intros; simplify_eq; by auto)..|done|done]);
    try done; try (by auto); intros; try congruence.
Qed.

Lemma is_accept_more db db' id user : db_transitions db ⊆ db_transitions db' → accepted db id user → accepted db' id user.
Proof. intros Hs (tr & Hin & ?). exists tr. split; [by apply Hs|done]. Qed.

(** A move of [e], stored or new, keeps the record. *)
Lemma moved_record clock e t ev actor input now db db' :
  record_ok db → errand_ok e → toUUID (e_ID e) = Some (e_ID e) → Next e ev actor input now = Ok t →
  stored_as db (e_ID e) e ∨ (db_errands db !! e_ID e = None ∧ e_CourierID e = "") →
  moved clock (e_ID e) t (transition_row (e_ID e) e (canon (ApplyTo t e)) t) (canon (ApplyTo t e)) db db' →
  record_ok db'.
Proof.
  intros [H1 H2 H3 H4] Hok Hid Hnext Hst Hm.
  destruct (Next_records _ _ _ _ _ _ (e_ID e) Hok Hnext) as (Hcour & Hafter & Hcan & Hto & Hlive).
  set (tr := transition_row _ _ _ _) in *. set (after := canon (ApplyTo t e)) in *.
  pose proof (mv_transitions _ _ _ _ _ _ _ Hm) as Htr. fold tr in Htr.
  assert (db_transitions db ⊆ db_transitions db') as Hsub by (rewrite Htr; intros ??; apply elem_of_app; by left).
  assert (tr ∈ db_transitions db') as Hnew by (rewrite Htr; apply elem_of_app; right; by left).
  assert (∀ x, x ∈ db_transitions db' → x ∈ db_transitions db ∨ x = tr) as Hsplit
    by (intros x; rewrite Htr; intros [?|?%list_elem_of_singleton]%elem_of_app; auto).
  assert (e_CourierID e ≠ "" → accepted db' (e_ID e) (e_CourierID e)) as Hbefore.
  { intros Hne. destruct Hst as [Hst|[_ ?]]; [|done]. by eapply is_accept_more, H1. }
  assert (∀ id e2, stored_as db' id e2 → id ≠ e_ID e → stored_as db id e2) as Hback.
  { intros id e2 (row & Hl & Hro) Hne. exists row. by rewrite <- (mv_other _ _ _ _ _ _ _ Hm). }
  assert (∀ id e2, stored_as db id e2 → id ≠ e_ID e → stored_as db' id e2) as Hforth.
  { intros id e2 (row & Hl & Hro) Hne. exists row. by rewrite (mv_other _ _ _ _ _ _ _ Hm). }
  assert (∀ x, x ∈ db_transitions db → final x → tr_ErrandID x ≠ e_ID e) as Hended.
  { intros x Hx Hfin Heq. destruct (H3 x Hx) as (e0 & Hst0 & _ & Hend). rewrite Heq in Hst0.
    destruct Hst as [Hst|[Hnone _]]; [|destruct Hst0 as (row & Hl & _); congruence].
    rewrite (stored_as_fun _ _ _ _ Hst0 Hst) in Hend. unfold final in Hfin. rewrite <- (Hend Hfin) in Hfin. congruence. }
  assert (e_RequesterID after = e_RequesterID e) as Hreq by (by destruct (Next_from _ _ _ _ _ _ Hnext)).
  split.
  - intros id e2 Hst2 Hne. destruct (decide (id = e_ID e)) as [->|Hother]; [|by eapply is_accept_more, H1, Hne; auto].
    rewrite (stored_as_fun _ _ _ _ Hst2 (mv_at _ _ _ _ _ _ _ Hm)) in Hne |- *.
    destruct (Hafter Hne) as [Heq|[Hacc Hactor]]; [fold after in Heq; rewrite Heq in Hne |- *; by apply Hbefore|].
    by exists tr.
  - intros x user [Hx| ->]%Hsplit Hu; [by eapply is_accept_more, H2|].
    destruct (Hcour _ Hu) as [Heq|[Hacc Hactor]]; [|by exists tr]. rewrite <- Heq. apply Hbefore. rewrite Heq.
    unfold tr, transition_row, text in Hu. simpl in Hu. case_bool_decide; [done|]. by injection Hu as <-.
  - intros x [Hx| ->]%Hsplit.
    + destruct (H3 x Hx) as (e0 & Hst0 & Hc0 & Hf0). destruct (decide (tr_ErrandID x = e_ID e)) as [Heq|Hne].
      * exists after. rewrite Heq in *. split; [apply Hm|]. destruct Hst as [Hst|[Hnone _]];
          [|destruct Hst0 as (row & Hl & _); congruence].
        rewrite (stored_as_fun _ _ _ _ Hst0 Hst) in Hc0. split; [by rewrite Hreq|]. intros Hfin. by destruct (Hended x Hx Hfin).
      * exists e0. auto.
    + exists after. split; [apply Hm|]. by rewrite Hreq.
  - intros x y [Hx| ->]%Hsplit [Hy| ->]%Hsplit Heq Hfx Hfy; [by apply H4|..|done].
    + by destruct (Hended x Hx Hfx).
    + by destruct (Hended y Hy Hfy).
Qed.

Lemma atom_record db db' : record_ok db → atom db db' → record_ok db'.
Proof.
  intros Hr [clock e t actor input now Hok Hfr Hid Hnone Hnext Hm|clock e t ev actor input now Hok Hst Hnext Hm|He Ht Hre].
  - eapply moved_record; try done; [by apply fresh_ok|]. right. split; [done|]. apply Hfr.
  - destruct (stored_as_id _ _ _ Hst) as (_ & Hid & _). pose proof Hst as (row & _ & Hro).
    eapply moved_record; try done; [apply Hro|by left].
  - destruct Hr as [H1 H2 H3 H4].
    assert (∀ id user, accepted db id user → accepted db' id user) as Hacc by (intros ??; apply is_accept_more; by rewrite Ht).
    split; rewrite ?Ht; [|by eauto| |done].
    + intros id e Hst Hne. apply Hacc, H1; [|done]. by eapply stored_as_ext.
    + intros tr Hin. destruct (H3 tr Hin) as (e & Hst & ?). exists e. split; [by eapply stored_as_ext|done].
Qed.

Lemma reachable_record db seen : reachable db seen → record_ok db.
Proof.
  induction 1 as [|db seen db' Hr IH Hstep].
  { split; simpl; try (intros *; by rewrite elem_of_nil). by intros id e (row & Hl & _). }
  destruct (store_reachable_ok _ _ Hr) as (Hok & Hs & _).
  pose proof (store_step_atoms _ _ _ Hok Hs Hstep) as Ha. clear -IH Ha Hpgok.
  induction Ha as [|db1 db2 db3 Ha _ IHa]; [done|]. by eapply IHa, atom_record.
Qed.

End record.
