(* ===== verification/ReminderRows.v ===== *)
(** * order-service: what the reminder query returns

    The candidates of [ListReminderCandidates] are the stored errands in the
    reminder's state with the deadline in the period and no reminder yet. *)

From S2P Require Import Prelude Keyset GoText Json GoTime Errand ErrandState ErrandJson ErrandInv ErrandStore Fence OpsRepo StoreInv StoreSafe StoreSystem.

Section rows.
Context `{Hpg : Postgres, Hpgok : !PostgresOk}.

Definition errand_deadline (kd : ReminderKind) (e : Errand) : option Z :=
  match kd with ReminderVerification => e_VerificationDeadline e | ReminderPickup => e_PickupDeadline e end.

(** A candidate and the errand it was read from. *)
Definition candidate_from (kd : ReminderKind) (e : Errand) (c : ReminderCandidate) : Prop :=
  e_Status e = reminder_status kd ∧ rc_ErrandID c = e_ID e ∧ rc_Version c = e_Version e ∧ rc_Status c = e_Status e ∧
  rc_RequesterID c = e_RequesterID e ∧ rc_CourierID c = e_CourierID e ∧ Some (rc_Deadline c) = errand_deadline kd e.

(** An errand that is due a reminder. *)
Definition due_for (kd : ReminderKind) (now before : Z) (e : Errand) : Prop :=
  e_Status e = reminder_status kd ∧
  ∃ d n b, errand_deadline kd e = Some d ∧ timestamp now = Some n ∧ timestamp before = Some b ∧ n < d ≤ b.

(** The outbox has the errand's reminder. *)
Definition reminded (kd : ReminderKind) (e : Errand) (db : ODB) : Prop :=
  ∃ o r, db_outbox db !! o = Some r ∧ or_IdempotencyKey r = reminder_key kd (e_ID e) (e_Version e).

Lemma candidate_row kd now before db id row e :
  row_ok id row e →
  (candidate kd now before db row = true ↔ due_for kd now before e ∧ ¬ reminded kd e db) ∧
  (due_for kd now before e → candidate_from kd e (candidate_of kd row)).
Proof.
  intros Hro. pose proof (ro_read _ _ _ Hro) as Hread. unfold errandFromRow in Hread.
  assert (e_ID e = er_ID row ∧ e_Status e = er_Status row ∧ e_Version e = er_Version row ∧
          e_RequesterID e = er_RequesterID row ∧ e_CourierID e = default "" (er_CourierID row) ∧
          errand_deadline kd e = reminder_deadline kd row) as (Hid & Hst & Hv & Hr & Hc & Hd).
  { destruct (er_PendingEdit row); [destruct (dec_details _); [|done]|]; injection Hread as <-; by destruct kd. }
  split.
  - unfold candidate, due_for, reminded. rewrite !andb_true_iff, bool_decide_eq_true, negb_true_iff, <- Hst, <- Hd, <- Hid, <- Hv.
    split.
    + intros [[Hs Hper] Hno]. destruct (errand_deadline kd e) as [d|], (timestamp now) as [n|], (timestamp before) as [b|]; try done.
      bool_props. split; [split; [done|]; by exists d, n, b|]. intros (o & r & Hl & Hk).
      assert (existsb (λ kv, has_key (reminder_key kd (e_ID e) (e_Version e)) kv.2) (map_to_list (db_outbox db)) = true) as Hex;
        [|congruence].
      apply existsb_exists. exists (o, r). split; [by apply list_elem_of_In, elem_of_map_to_list|]. unfold has_key. simpl.
      by apply bool_decide_eq_true.
    + intros [(Hs & d & n & b & -> & -> & -> & ?) Hno]. split_and!; [done|by apply andb_true_iff; split; [apply Z.ltb_lt|apply Z.leb_le]; lia|].
      apply not_true_is_false. intros ([o r] & Hin & Hk)%existsb_exists. apply Hno. exists o, r.
      split; [by apply elem_of_map_to_list, list_elem_of_In|]. unfold has_key in Hk. simpl in Hk. by bool_props.
  - intros (Hs & d & n & b & Hdl & _). unfold candidate_from, candidate_of. cbn [rc_ErrandID rc_Version rc_Status rc_RequesterID rc_CourierID rc_Deadline].
    rewrite <- Hd, Hdl. split_and!; first [done|congruence].
Qed.
(** The stored rows the query selects, in its order. *)
Definition candidate_rows (kd : ReminderKind) (now before limit : Z) (db : ODB) : list ErrandRow :=
  keyset pos_le (λ r, (default zero_time (reminder_deadline kd r), er_ID r)) None (Z.to_nat limit)
    (snd <$> scan (candidate kd now before db) (db_errands db)).

Lemma ListReminderCandidates_run kd now before limit db :
  0 < limit ≤ OpsRepo.MaxPageSize →
  ListReminderCandidates kd now before limit db = Ok (candidate_of kd <$> candidate_rows kd now before limit db, db).
Proof.
  intros Hl. unfold ListReminderCandidates, ops_checkLimit, bind, ops_lift, ret.
  by rewrite (proj2 (Z.leb_gt _ _)), (proj2 (Z.ltb_ge _ _)) by lia.
Qed.

Lemma ListReminderCandidates_inv kd now before limit db cs db' :
  ListReminderCandidates kd now before limit db = Ok (cs, db') →
  0 < limit ≤ OpsRepo.MaxPageSize ∧ db' = db ∧ cs = candidate_of kd <$> candidate_rows kd now before limit db.
Proof.
  unfold ListReminderCandidates, ops_checkLimit, bind, ops_lift, ret, fail.
  destruct (_ || _) eqn:Hl; [done|]. intros [= <- <-]. bool_props. by split_and!.
Qed.

Lemma candidate_rows_length kd now before limit db :
  0 < limit → Z.of_nat (length (candidate_rows kd now before limit db)) ≤ limit.
Proof. intros Hl. unfold candidate_rows, keyset. rewrite length_take. lia. Qed.

Lemma candidate_rows_stored kd now before limit db row :
  store_ok db → row ∈ candidate_rows kd now before limit db →
  ∃ e, db_errands db !! e_ID e = Some row ∧ row_ok (e_ID e) row e ∧ due_for kd now before e ∧ ¬ reminded kd e db.
Proof.
  intros Hok Hin. unfold candidate_rows, keyset in Hin. apply subseteq_take in Hin.
  rewrite merge_sort_Permutation in Hin. apply list_elem_of_In, filter_In in Hin as [Hin _].
  apply list_elem_of_In, list_elem_of_fmap in Hin as ([id r] & -> & [Hl Hc]%elem_of_scan).
  destruct (so_rows _ Hok _ _ Hl) as (e & Hro). assert (stored_as db id e) as Hst by by exists r.
  destruct (stored_as_id _ _ _ Hst) as (<- & _ & _). exists e. split; [done|]. split; [done|].
  by apply (candidate_row kd now before db _ _ _ Hro).
Qed.

(** What is read of the candidates. *)
Lemma candidates_read kd now before limit db cs db' :
  store_ok db → ListReminderCandidates kd now before limit db = Ok (cs, db') →
  Z.of_nat (length cs) ≤ limit ∧
  ∃ es, Forall2 (candidate_from kd) es cs ∧ ∀ e, e ∈ es → e ∈ current db.
Proof.
  intros Hok (Hl & _ & ->)%ListReminderCandidates_inv.
  split; [rewrite length_fmap; apply candidate_rows_length; lia|].
  pose proof (λ row, candidate_rows_stored kd now before limit db row Hok) as Hrows. revert Hrows.
  generalize (candidate_rows kd now before limit db) as rows. intros rows. induction rows as [|row rows IH]; intros Hrows.
  - exists []. split; [constructor|]. intros e He. by apply elem_of_nil in He.
  - destruct IH as (es & Hes & Hcur); [intros r Hr; apply Hrows; by right|].
    destruct (Hrows row ltac:(left)) as (e & Hst & Hro & Hdue & _). exists (e :: es). split.
    + constructor; [|done]. by apply (candidate_row kd now before db _ _ _ Hro).
    + intros e' [->|He]%elem_of_cons; [|by apply Hcur]. apply elem_of_current; [done|by exists row].
Qed.

(** While they fit in a batch, every errand that is due is a candidate. *)
Lemma candidate_rows_all kd now before limit db e :
  store_ok db → stored_as db (e_ID e) e → due_for kd now before e → ¬ reminded kd e db →
  Z.of_nat (length (scan (candidate kd now before db) (db_errands db))) ≤ limit →
  ∃ row, row ∈ candidate_rows kd now before limit db ∧ row_ok (e_ID e) row e.
Proof.
  intros Hok (row & Hl & Hro) Hdue Hno Hfit. exists row. split; [|done]. unfold candidate_rows, keyset.
  assert (List.filter (beyond pos_le (λ r, (default zero_time (reminder_deadline kd r), er_ID r)) None)
            (snd <$> scan (candidate kd now before db) (db_errands db))
          = snd <$> scan (candidate kd now before db) (db_errands db)) as ->.
  { generalize (snd <$> scan (candidate kd now before db) (db_errands db)) as l. intros l. 
    induction l as [|x l IH]; [done|]. simpl. by rewrite IH. }
  rewrite take_ge by (rewrite merge_sort_Permutation, length_fmap; lia).
  rewrite merge_sort_Permutation. apply list_elem_of_fmap. exists (e_ID e, row). split; [done|]. apply elem_of_scan.
  split; [done|]. by apply (candidate_row kd now before db _ _ _ Hro).
Qed.

End rows.
