(* ===== verification/StoreErrors.v ===== *)
(** * order-service: the errors that signal a bug never happen

    [applyLocked] on a transition that [Next] decided on the stored errand:
    the compare-and-swap matches, the table constraints hold, a review can be
    opened or resolved and no idempotency key is taken, so only the fence,
    malformed identifiers, a number out of range and an unwritable time remain. *)

From S2P Require Import Prelude GoText Json GoTime Errand ErrandState ErrandJson ErrandInv ErrandStore Fence OpsRepo StoreInv StoreSafe StoreSystem.

Section errors.
Context `{Hpg : Postgres, Hpgok : !PostgresOk}.

(** ** Table constraints *)

Lemma btrim_nonblank s : isBlank s = false → btrim_nonempty s = true.
Proof.
  intros Hb. destruct (btrim_nonempty s) eqn:Hn; [done|]. exfalso.
  assert (drop_spaces (decode_utf8 s) = []) as Hd.
  { clear Hb. induction s as [|a s IH]; [done|]. unfold btrim_nonempty in Hn. simpl in Hn. bool_props.
    subst a. simpl. by apply IH. }
  unfold isBlank, trim_space in Hb. rewrite Hd in Hb. by bool_props.
Qed.

Lemma text_Some s : s ≠ "" → text s = Some s.
Proof. intros Hs. unfold text. by rewrite bool_decide_false. Qed.

(** An edit brings the snapshot of its building. *)
Definition edit_complete (input : EventInput) : Prop :=
  ∀ d, i_Edit input = Some d → is_Some (d_DeliveryBuildingSnapshot d).

Definition has_snapshot (e : Errand) : Prop :=
  is_Some (d_DeliveryBuildingSnapshot (e_Details e)) ∧
  ∀ p, e_PendingEdit e = Some p → is_Some (d_DeliveryBuildingSnapshot (pe_Details p)).

Lemma errandFromRow_snapshot row e :
  errandFromRow row = Ok e → d_DeliveryBuildingSnapshot (e_Details e) = er_DeliveryBuildingSnapshot row.
Proof. unfold errandFromRow. intros H. by break_in H; simplify_eq/=. Qed.

Lemma Next_snapshot e ev actor input now t :
  Next e ev actor input now = Ok t → edit_complete input → has_snapshot e →
  is_Some (d_DeliveryBuildingSnapshot (e_Details (ApplyTo t e))).
Proof.
  intros (rule & [Hin Hf <- _ _ _ (t0 & Happ & ->)])%Next_inv Hed [Hs Hp]. rewrite ApplyTo_outbox.
  unfold applyEvent, newError in Happ.
  destruct e as [id st ver req cour det pd dd da vd rr ck pe ca ua].
  each_rule Hin; simpl in *; subst st; break_in Happ; simplify_eq/=;
    unfold drop_edit; simpl; try (destruct pe as [p0|]); simpl in *; simplify_eq/=; eauto.
Qed.

(** The constraints of [errands] follow from the invariant of errands. *)
Lemma errand_check_ok e params :
  errand_ok e → e_Status e ≠ StatusNone → in_range e →
  is_Some (d_DeliveryBuildingSnapshot (e_Details e)) → insertParams e = Ok params →
  errand_check (stored_row params) = true.
Proof.
  intros Hok Hns Hr [snap Hsnap] Hp.
  pose proof (eo_details _ Hok Hns) as (Hrw & (x & l & Hitems) & Hn & Hm).
  pose proof (eo_placed _ Hok) as Hv. rewrite bool_decide_false in Hv by done.
  pose proof (eo_courier _ Hok) as Hc. destruct Hr as (Hver & Hrwr & _).
  assert (Valid (e_Status e) = true) as Hval by (by destruct (eo_status _ Hok)).
  unfold insertParams, parseUUID in Hp.
  destruct (toUUID (e_ID e)), (toUUID (d_SupplierID (e_Details e))),
    (toUUID (d_SupplierVersionID (e_Details e))), (toUUID (d_DeliveryBuildingID (e_Details e))); try done.
  destruct (_ || _); [done|]. unfold errand_check.
  assert (negb (existsb (λ s, bool_decide (e_Status e = s))
      [StatusAssigned; StatusPickedUp; StatusDelivered; StatusReviewRequired])
      || bool_decide (is_Some (text (e_CourierID e))) = true) as Hcour.
  { destruct (existsb _ _) eqn:Hex; [|done]. simpl. apply bool_decide_eq_true.
    apply existsb_exists in Hex as (st & Hin & Hst). bool_props. rewrite Hst in Hc.
    simpl in Hin. destruct Hin as [<-|[<-|[<-|[<-|[]]]]]; destruct Hc as (Hne & _);
      rewrite text_Some by done; eauto. }
  destruct (e_PendingEdit e) as [p|]; [destruct (enc_details _); [|done]|]; injection Hp as <-; simpl.
  all: rewrite Hval, Hsnap, Hitems, !wrap32_id, !btrim_nonblank by (done || lia).
  all: rewrite !(proj2 (Z.leb_le _ _)), !(proj2 (Z.ltb_lt _ _)), (bool_decide_true (is_Some (Some _))) by (eauto || lia).
  all: simpl in Hcour; by rewrite Hcour.
Qed.

(** ** Outbox rows *)

Lemma Next_kinds e ev actor input now t row :
  Next e ev actor input now = Ok t → row ∈ t_Outbox t → kind_known (o_Kind row) = true.
Proof.
  intros (rule & [_ _ _ _ _ _ (t0 & _ & ->)])%Next_inv. simpl. unfold outboxRows.
  intros [Hin|(n & -> & _)%list_elem_of_fmap]%elem_of_app.
  - unfold credit_rows, credit_row in Hin.
    repeat (apply elem_of_app in Hin as [Hin|Hin]); repeat case_match;
      rewrite ?list_elem_of_singleton, ?elem_of_nil in Hin; subst; try done; by vm_compute.
  - unfold kind_known. apply orb_true_iff. right. by destruct n.
Qed.

Lemma insert_rows_errors clock rows db id f :
  toUUID id = Some id → is_Some (db_errands db !! id) → NoDup (o_IdempotencyKey <$> rows) →
  (∀ row, row ∈ rows → o_ErrandID row = id ∧ kind_known (o_Kind row) = true ∧
     ∀ i r, db_outbox db !! i = Some r → or_IdempotencyKey r ≠ o_IdempotencyKey row) →
  insert_rows clock rows db = Err f → f = FPlain "encode payload" ∧ ∃ row, row ∈ rows ∧ enc_payload (o_Payload row) = None.
Proof.
  intros Hu. revert db. induction rows as [|row rows IH]; intros db Hex Hnd Hrows; simpl; [done|].
  apply NoDup_cons in Hnd as [Hnin Hnd]. destruct (Hrows row) as (Hid & Hkind & Hkey); [by left|].
  destruct (enc_payload _) as [payload|] eqn:Henc; [|intros [= <-]; split; [done|]; exists row; split; [by left|done]].
  unfold parseUUID. rewrite Hid, Hu. simpl. unfold bind at 1. simpl. unfold bind at 1.
  unfold InsertOutbox. rewrite (proj2 (scan1_None _ _)); last first.
  { intros i r Hr. unfold has_key. apply bool_decide_false. by eapply Hkey. }
  rewrite Hkind. unfold errand_exists. rewrite bool_decide_true by done. simpl.
  intros Herr. assert (f = FPlain "encode payload" ∧ ∃ row, row ∈ rows ∧ enc_payload (o_Payload row) = None)
    as (-> & row' & ? & ?); [|split; [done|]; exists row'; split; [by right|done]].
  eapply IH; [| | |exact Herr]; [done|done|]. intros row' Hin. destruct (Hrows row') as (? & ? & Hkey'); [by right|].
  split_and!; [done|done|]. simpl. intros i r [[<- <-]|[_ Hr]]%lookup_insert_Some; [|by eapply Hkey'].
  simpl. intros Heq. apply Hnin. rewrite Heq. by apply list_elem_of_fmap_2.
Qed.

(** The keys of a decided transition are not taken. *)
Lemma Next_keys_fresh db id cur ev actor input now t :
  store_ok db → stored_as db id cur → Next cur ev actor input now = Ok t →
  NoDup (o_IdempotencyKey <$> t_Outbox t) ∧
  ∀ row i r, row ∈ t_Outbox t → db_outbox db !! i = Some r → or_IdempotencyKey r ≠ o_IdempotencyKey row.
Proof.
  intros Hok Hst Hnext. destruct (stored_as_id _ _ _ Hst) as (Hid & _ & Hnc).
  assert (errand_ok cur) as Hcur by (destruct Hst as (? & _ & Hro); apply Hro). split.
  - destruct (Next_tags _ _ _ _ _ _ Hcur Hnext) as (gs & -> & Hnd & Hall).
    apply NoDup_fmap_2_strong; [|done]. intros g g' Hg Hg' Heq.
    destruct (Hall _ Hg) as ([Hk _] & _ & Hv), (Hall _ Hg') as ([Hk' _] & _ & Hv').
    rewrite Hid in Heq. by apply tag_key_inj in Heq as [_ ?].
  - intros row i r Hin Hr Heq. destruct (Next_row_tags _ _ _ _ _ _ _ Hcur Hnext Hin) as (_ & g & Hg & [Hk _] & Hnt & Hv).
    destruct (oi_errand _ (so_outbox _ Hok) _ _ Hr) as (e2 & Hst2 & [(g2 & Hg2 & Hok2 & Hv2)|Hf]).
    + destruct (stored_as_id _ _ _ Hst2) as (Hid2 & _ & Hnc2). rewrite Heq, Hg, Hid, Hid2 in Hg2.
      apply tag_key_inj in Hg2 as [Hids ->]; [|done|done|done|apply Hok2|done|done].
      rewrite <- Hids in Hst2. by rewrite (stored_as_fun _ _ _ _ Hst2 Hst) in Hok2.
    + rewrite Heq, Hg, Hid in Hf. by eapply tag_key_not_foreign.
Qed.

(** ** Reviews *)

Lemma isBlank_empty : isBlank "" = true.
Proof. done. Qed.

(** Only an administrator who gave a reason resolves a review. *)
Lemma Next_resolution e ev actor input now t :
  Next e ev actor input now = Ok t → e_Status e = StatusReviewRequired →
  (t_To t = StatusCompleted ∨ t_To t = StatusRefunded) ∧ a_ID (t_Actor t) ≠ "" ∧ t_Reason t ≠ "".
Proof.
  intros (rule & [Hin Hf <- Ha _ Hn (t0 & Happ & ->)])%Next_inv Hst.
  destruct (drop_edit_frame e t0) as (_ & _ & Hto & _ & Hac & _).
  assert (t_Reason (drop_edit e t0) = t_Reason t0) as Hre.
  { unfold drop_edit. destruct (e_PendingEdit e); [case_bool_decide|]; done. }
  cbn [t_To t_Actor t_Reason with_outbox]. rewrite Hto, Hac, Hre. rewrite Hst in Hf.
  unfold applyEvent in Happ.
  each_rule Hin; simpl in *; try done; simplify_eq/=; specialize (Hn eq_refl);
    (split_and!; [auto| |intros Heq; by rewrite Heq in Hn]);
    unfold newError in Ha; break_in Ha; bool_props; done.
Qed.

Lemma review_rows_ok db id row' cur t ev actor input now u0 :
  store_ok db → stored_as db id cur → Next cur ev actor input now = Ok t →
  let db1 := set_transitions u0 (set_errands (<[id := row']> (db_errands db)) db) in
  ∃ db2, (if bool_decide (t_To t = StatusReviewRequired) then
         OpenReview id (e_ReviewReason (canon (ApplyTo t cur)))
           (text (if bool_decide (a_Type (t_Actor t) = ActorSystem) then "" else a_ID (t_Actor t)))
           (text (if bool_decide (trim_space (t_Reason t) = "") then "" else t_Reason t)) (t_At t)
       else if bool_decide (t_From t = StatusReviewRequired) then
         let! resolved := ResolveReview (t_To t) (text (a_ID (t_Actor t))) (text (t_Reason t)) (t_At t) id in
         if resolved =? 0 then plain "no open review to resolve" else ret tt
       else ret tt) db1 = Ok (tt, db2) ∧
    db_errands db2 = db_errands db1 ∧ db_outbox db2 = db_outbox db.
Proof.
  intros Hok Hst Hnext db1.
  assert (errand_ok cur) as Hcur by (destruct Hst as (? & _ & Hro); apply Hro).
  pose proof (Next_errand_ok _ _ _ _ _ _ Hcur Hnext) as Hok'.
  destruct (Next_from _ _ _ _ _ _ Hnext) as (Hfrom & _). rewrite Hfrom.
  case_bool_decide as Hto; [|case_bool_decide as Hrv].
  - pose proof (so_reviews _ Hok _ _ Hst) as Hcount. rewrite bool_decide_false in Hcount.
    2:{ intros Hrv. destruct (Next_resolution _ _ _ _ _ _ Hnext Hrv) as ([?|?] & _); congruence. }
    unfold OpenReview. rewrite bool_decide_false.
    2:{ pose proof (eo_review _ Hok') as Hr. change (e_Status (ApplyTo t cur)) with (t_To t) in Hr.
        rewrite Hto in Hr. by apply Hr. }
    unfold errand_exists. simpl. rewrite lookup_insert_eq, bool_decide_true by eauto. simpl.
    assert (existsb (open_review id) (db_reviews db) = false) as ->.
    { destruct (existsb _ _) eqn:Hex; [|done]. apply existsb_exists in Hex as (r & Hin & Ho).
      assert (In r (open_reviews db id)) as Hr by (by apply filter_In).
      destruct (open_reviews db id); [done|simpl in Hcount; lia]. }
    eexists. split; [reflexivity|]. done.
  - pose proof (so_reviews _ Hok _ _ Hst) as Hcount. rewrite bool_decide_true in Hcount by done.
    destruct (Next_resolution _ _ _ _ _ _ Hnext Hrv) as (Hres & Ha & Hre).
    unfold bind, ResolveReview. change (db_reviews db1) with (db_reviews db).
    unfold open_reviews in Hcount. rewrite Hcount, !text_Some by done. simpl.
    replace (bool_decide (t_To t = StatusCompleted) || bool_decide (t_To t = StatusRefunded)) with true.
    2:{ destruct Hres as [-> | ->]; done. }
    simpl. eexists. split; [reflexivity|]. done.
  - eexists. split; [reflexivity|]. done.
Qed.

(** ** The whole transaction *)

Lemma writeTransitionRows_errors clock db id row' cur t ev actor input now f :
  store_ok db → stored_as db id cur → Next cur ev actor input now = Ok t →
  row_ok id row' (canon (ApplyTo t cur)) →
  writeTransitionRows clock cur (canon (ApplyTo t cur)) t
    (set_errands (<[id := row']> (db_errands db)) db) = Err f →
  f = FPlain "encode payload" ∧ ∃ row, row ∈ t_Outbox t ∧ enc_payload (o_Payload row) = None.
Proof.
  intros Hok Hst Hnext Hro'. destruct (stored_as_id _ _ _ Hst) as (Hid & Hu & _).
  assert (errand_ok cur) as Hcur by (destruct Hst as (? & _ & Hro); apply Hro).
  assert (e_ID (canon (ApplyTo t cur)) = id) as Hid'.
  { destruct (errandFromRow_frame _ _ (ro_read _ _ _ Hro')) as (-> & _). apply Hro'. }
  unfold writeTransitionRows, parseUUID. rewrite Hid', Hu. cbn [lift]. unfold bind at 1, ret at 1.
  unfold bind at 1, InsertTransition at 1. cbn [tr_ErrandID tr_FromStatus tr_ToStatus tr_ErrandVersion].
  destruct (Next_from _ _ _ _ _ _ Hnext) as (Hfrom & _ & _ & Hto & _).
  assert (e_Status cur ≠ StatusNone ∧ Valid (e_Status cur) = true) as [Hns Hval].
  { destruct Hst as (row & _ & Hro). split; [apply Hro|].
    destruct (eo_status _ Hcur) as [Hn|?]; [by destruct (ro_status _ _ _ Hro)|done]. }
  rewrite Hfrom, (bool_decide_false (e_Status cur = StatusNone)), Hval by done.
  pose proof (ro_ok _ _ _ Hro') as Hok'. pose proof (ro_range _ _ _ Hro') as (Hver & _).
  pose proof (eo_placed _ Hok') as Hv. rewrite bool_decide_false in Hv by done.
  assert (Valid (t_To t) = true) as ->.
  { destruct (eo_status _ Hok') as [Hn|?]; [by destruct Hto|done]. }
  rewrite wrap32_id, (proj2 (Z.leb_le 1 _) Hv) by done.
  unfold errand_exists. cbn [db_errands set_errands]. rewrite lookup_insert_eq, bool_decide_true by eauto.
  cbn [andb]. rewrite <- Hfrom.
  match goal with |- context [set_transitions ?l (set_errands _ db)] => set (trs := l) end.
  destruct (review_rows_ok db id row' cur t ev actor input now trs Hok Hst Hnext) as (db2 & Hrv & He2 & Ho2).
  unfold bind at 1. rewrite Hrv. destruct (Next_keys_fresh _ _ _ _ _ _ _ _ Hok Hst Hnext) as [Hnd Hfresh].
  apply (insert_rows_errors _ _ _ id); [done|rewrite He2; simpl; rewrite lookup_insert_eq; eauto|done|].
  intros row Hin. rewrite Ho2. destruct (Next_row_tags _ _ _ _ _ _ _ Hcur Hnext Hin) as (Hre & _).
  split_and!; [congruence|by eapply Next_kinds|eauto].
Qed.

(** The ways a decided transition can still be refused. *)
Definition expected_failure (f : Failure) : Prop :=
  f = FApp (mkAppError SupplierDeletionInProgress []) ∨ f = FApp (mkAppError InvalidArgument []) ∨
  f = FPlain "encode pending edit" ∨ f = FPlain "encode payload".

Lemma insertParams_errors e f :
  insertParams e = Err f → f = FApp (mkAppError InvalidArgument []) ∨ f = FPlain "encode pending edit".
Proof. unfold insertParams, parseUUID. intros H. repeat case_match; simplify_eq; auto. Qed.

Lemma stored_pending_key id row cur :
  row_ok id row cur → er_PendingEditKey row = text (pending_key cur).
Proof.
  intros Hro. rewrite (ro_pending_key _ _ _ Hro). unfold pending_key.
  pose proof (eo_pending _ (ro_ok _ _ _ Hro)) as Hpe.
  destruct (e_PendingEdit cur) as [p|]; [|done]. destruct (Hpe _ eq_refl) as (_ & Hkey & _).
  simpl. rewrite text_Some; [done|]. rewrite Hkey. apply IdempotencyKey_nonempty.
Qed.

(** The compare-and-swap of a locked errand matches its row, and the new row
    satisfies the constraints. *)
Lemma UpdateErrand_matches db id cur t ev actor input now params :
  stored_as db id cur → input_ok input → edit_complete input →
  Next cur ev actor input now = Ok t → insertParams (ApplyTo t cur) = Ok params →
  ∃ row' db', UpdateErrand (mkUpdateParams params (t_From t) (wrap32 (t_ExpectedVersion t))
                (text (t_ExpectedPendingEditKey t))) db = Ok (Some row', db').
Proof.
  intros Hst Hin Hed Hnext Hp. destruct (stored_as_id _ _ _ Hst) as (Hid & Hu & _).
  pose proof Hst as (row & Hl & Hro). pose proof (ro_ok _ _ _ Hro) as Hcur.
  destruct (Next_expected _ _ _ _ _ _ Hcur Hnext) as (-> & _ & -> & ->).
  destruct (insertParams_inv _ _ Hp) as (_ & Hpid & _). change (e_ID (ApplyTo t cur)) with (e_ID cur) in Hpid.
  unfold UpdateErrand. simpl. assert (er_ID params = id) as -> by congruence. rewrite Hl.
  destruct (errandFromRow_frame _ _ (ro_read _ _ _ Hro)) as (_ & Hs & Hv & _).
  destruct (ro_range _ _ _ Hro) as (Hver & _).
  rewrite <- Hs, <- Hv, wrap32_id, Z.eqb_refl, bool_decide_true by done.
  rewrite bool_decide_true by by eapply stored_pending_key. simpl.
  change (errand_check (keep_columns row (stored_row params))) with (errand_check (stored_row params)).
  rewrite (errand_check_ok (ApplyTo t cur)); [eauto|by eapply Next_errand_ok|..|done].
  - by destruct (Next_from _ _ _ _ _ _ Hnext) as (_ & _ & _ & Hto & _).
  - eapply Next_in_range; eauto. by apply (ro_range _ _ _ Hro).
  - eapply Next_snapshot; [done|done|]. split; [|apply Hro].
    rewrite (errandFromRow_snapshot _ _ (ro_read _ _ _ Hro)). pose proof (ro_check _ _ _ Hro) as Hc.
    unfold errand_check in Hc. repeat (apply andb_true_iff in Hc as [Hc ?]). by bool_props.
Qed.

Lemma fence_check_inv cur t db r :
  match editTargetSupplier cur t with
  | Some to => let! id := lift (parseUUID to) in checkFence id
  | None => ret tt
  end db = r → r = Ok (tt, db) ∨ ∃ f, r = Err f ∧ expected_failure f.
Proof.
  unfold expected_failure. destruct (editTargetSupplier cur t) as [to|]; [|intros <-; by left].
  unfold parseUUID. destruct (toUUID to) as [s|]; [|intros <-; right; eauto].
  unfold lift, ret, bind, checkFence, SupplierFenced, bind, appErr, fail, ret.
  destruct (fenced s db); intros <-; [right; eauto|by left].
Qed.

(** A decided transition on the locked errand, after the fence check: only an
    identifier, a number or a document can be refused. *)
Lemma applyLocked_unfenced clock db id cur t ev actor input now f :
  store_ok db → stored_as db id cur → input_ok input → edit_complete input →
  Next cur ev actor input now = Ok t →
  match editTargetSupplier cur t with
  | Some to => let! id := lift (parseUUID to) in checkFence id
  | None => ret tt
  end db = Ok (tt, db) →
  applyLocked clock cur t db = Err f →
  insertParams (ApplyTo t cur) = Err f ∨
  (f = FPlain "encode payload" ∧ ∃ row, row ∈ t_Outbox t ∧ enc_payload (o_Payload row) = None).
Proof.
  intros Hok Hst Hin Hed Hnext Hfence. pose proof Hst as (row & Hl & Hro). pose proof (ro_ok _ _ _ Hro) as Hcur.
  destruct (Next_expected _ _ _ _ _ _ Hcur Hnext) as (Hfrom & _ & Hev & Hek).
  unfold applyLocked, bind at 1, compareAndSwap. fold (pending_key cur).
  rewrite Hfrom, Hev, Hek, bool_decide_true, Z.eqb_refl, bool_decide_true by done. simpl.
  unfold bind at 1. rewrite Hfence.
  unfold bind at 1, updateParams. destruct (insertParams (ApplyTo t cur)) as [params|f2] eqn:Hp; last first.
  { intros [= <-]. by left. }
  cbn [lift ret]. unfold bind at 1.
  destruct (UpdateErrand_matches _ _ _ _ _ _ _ _ _ Hst Hin Hed Hnext Hp) as (row' & db2 & Hup).
  rewrite Hup. destruct (updated_row_ok _ _ _ _ _ _ _ _ _ _ _ _ Hl Hro Hin Hnext Hp Hup) as (Hro' & -> & _).
  unfold bind at 1. rewrite (ro_read _ _ _ Hro'). cbn [lift ret]. unfold bind.
  destruct (writeTransitionRows _ _ _ _ _) as [[u3 db3]|f4] eqn:Hw; [done|]. intros [= <-]. right.
  by apply (writeTransitionRows_errors _ _ id row' cur t ev actor input now) in Hw.
Qed.

Lemma applyLocked_errors clock db id cur t ev actor input now f :
  store_ok db → stored_as db id cur → input_ok input → edit_complete input →
  Next cur ev actor input now = Ok t → applyLocked clock cur t db = Err f → expected_failure f.
Proof.
  intros Hok Hst Hin Hed Hnext Herr.
  match goal with _ => destruct (match editTargetSupplier cur t with
    | Some to => let! id := lift (parseUUID to) in checkFence id | None => ret tt end db) as [[u d]|f0] eqn:Hfence end.
  - pose proof (fence_check_inv _ _ _ _ Hfence) as [[= -> ->]|(f' & ? & _)]; [|done].
    destruct (applyLocked_unfenced _ _ _ _ _ _ _ _ _ _ Hok Hst Hin Hed Hnext Hfence Herr) as [Hp|[-> _]];
      unfold expected_failure; [|by auto].
    apply insertParams_errors in Hp as [->| ->]; auto.
  - pose proof (fence_check_inv _ _ _ _ Hfence) as [?|(f' & [= <-] & Hex)]; [done|].
    pose proof Hst as (row & Hl & Hro). destruct (Next_expected _ _ _ _ _ _ (ro_ok _ _ _ Hro) Hnext) as (Hfrom & _ & Hev & Hek).
    unfold applyLocked, bind at 1, compareAndSwap in Herr. fold (pending_key cur) in Herr.
    rewrite Hfrom, Hev, Hek, bool_decide_true, Z.eqb_refl, bool_decide_true in Herr by done. simpl in Herr.
    unfold bind at 1 in Herr. rewrite Hfence in Herr. by injection Herr as <-.
Qed.

End errors.
