(* ===== verification/StoreProps.v ===== *)
(** * order-service: properties of the errand store

    What the compare-and-swap of [Apply] guarantees to competing requests,
    the consistency of every reachable database, what a supplier fence keeps
    away, and the idempotence of [Create], each with a witness over a concrete
    server; and what [ClaimDue] does to the due errands. *)

From S2P Require Import Prelude GoText Json GoTime Errand ErrandState ErrandJson ErrandInv ErrandStore Fence OpsRepo StoreInv StoreSafe StoreSystem StoreErrors.

Section properties.
Context `{Hpg : Postgres, Hpgok : !PostgresOk}.

(** ** Consistency *)

(** C9: Every database that the order service's writers can lead to is
    consistent: every row is read back as an errand that satisfies the errand
    invariant and fits its columns, creation keys are unique per requester,
    outbox keys are unique and belong to the errand and a step it has made (or
    a rejection), and an errand has exactly one open review while it is under
    review and none otherwise. *)
Theorem store_always_consistent db seen : reachable db seen → store_ok db.
Proof. intros Hr. apply (store_reachable_ok _ _ Hr). Qed.

(** ** The compare-and-swap *)

Lemma seen_status db seen e : reachable db seen → e ∈ seen → e_Status e ≠ StatusNone.
Proof.
  intros Hr. induction Hr as [|db seen db' Hr IH Hstep]; [by rewrite elem_of_nil|].
  intros [He|He]%elem_of_app; [|auto].
  assert (store_ok db') as Hok by apply (store_reachable_ok _ _ (reach_step _ _ _ Hr Hstep)).
  apply elem_of_current in He as (row & _ & Hro); [|done]. apply Hro.
Qed.

Definition stale (f : Failure) : Prop :=
  f = FApp (mkAppError ErrandUnavailable []) ∨ f = FApp (mkAppError ErrandChanged []).

Lemma compareAndSwap_errors cur t db f : compareAndSwap cur t db = Err f → stale f.
Proof.
  unfold compareAndSwap, appErr, fail, ret, stale. intros H. repeat case_match; simplify_eq; auto.
Qed.

Lemma Apply_seen clock db seen e ev actor input now t :
  store_ok db → seen_inv db seen → e ∈ seen → e_Status e ≠ StatusNone →
  Next e ev actor input now = Ok t →
  ∃ cur, stored_as db (e_ID e) cur ∧ Apply clock t db = applyLocked clock cur t db.
Proof.
  intros Hok Hs He Hns Hnext. destruct (Hs e He) as (Heok & cur & Hst & _). exists cur. split; [done|].
  destruct (Next_expected _ _ _ _ _ _ Heok Hnext) as (Hf & Hid & _).
  pose proof Hst as (row & Hl & Hro). unfold Apply. rewrite Hf, bool_decide_false by done.
  rewrite Hid, (ro_id _ _ _ Hro).
  unfold GetErrandForUpdate, GetErrand, bind. rewrite Hl, (ro_read _ _ _ Hro). done.
Qed.

Lemma Apply_stale clock db seen e ev actor input now t :
  store_ok db → seen_inv db seen → e ∈ seen → e_Status e ≠ StatusNone →
  Next e ev actor input now = Ok t → ¬ stored_as db (e_ID e) e →
  ∃ f, Apply clock t db = Err f ∧ stale f.
Proof.
  intros Hok Hs He Hns Hnext Hnot.
  destruct (Apply_seen clock db seen e ev actor input now t) as (cur & Hst & ->); [done..|].
  unfold applyLocked, bind. destruct (compareAndSwap cur t db) as [[u db1]|f] eqn:Hc.
  - exfalso. apply Hnot. by pose proof (cas_same _ _ _ _ _ _ _ _ _ _ _ Hs He Hst Hnext Hc) as <-.
  - exists f. split; [done|]. by eapply compareAndSwap_errors.
Qed.

(** Why a decided transition is refused. *)
Lemma Apply_refused clock db seen e ev actor input now t f :
  reachable db seen → e ∈ seen → input_ok input → edit_complete input →
  Next e ev actor input now = Ok t → Apply clock t db = Err f →
  (¬ stored_as db (e_ID e) e ∧ stale f) ∨ (stored_as db (e_ID e) e ∧ expected_failure f).
Proof.
  intros Hr He Hin Hed Hnext Ha. pose proof (seen_status _ _ _ Hr He) as Hns.
  destruct (store_reachable_ok _ _ Hr) as (Hok & Hs & _).
  destruct (Apply_seen clock db seen e ev actor input now t) as (cur & Hst & Hap); [done..|].
  rewrite Hap in Ha. destruct (compareAndSwap cur t db) as [[u db1]|f'] eqn:Hc.
  - pose proof (cas_same _ _ _ _ _ _ _ _ _ _ _ Hs He Hst Hnext Hc) as <-. right. split; [done|].
    by eapply applyLocked_errors.
  - left. unfold applyLocked, bind in Ha. rewrite Hc in Ha. simplify_eq. split; [|by eapply compareAndSwap_errors].
    intros Hst'. pose proof (stored_as_fun _ _ _ _ Hst' Hst) as <-.
    destruct (Hs e He) as (Heok & _).
    destruct (Next_expected _ _ _ _ _ _ Heok Hnext) as (Hf & _ & Hv & Hk).
    unfold compareAndSwap in Hc. rewrite Hf, Hv, Hk, bool_decide_true in Hc by done. simpl in Hc.
    unfold pending_key in Hc. by rewrite Z.eqb_refl, bool_decide_true in Hc.
Qed.

(** C10: [Apply] is a compare-and-swap.  A transition decided on an errand that
    was read at any earlier time is applied only if the errand is still exactly
    what was read; then the stored errand is the transition's outcome, one
    history row and every outbox row of the transition are written, and every
    other transition decided on the same reading is refused from then on.  A
    refused transition fails with ERRAND_UNAVAILABLE or ERRAND_CHANGED when the
    errand has moved on, and otherwise only because the supplier is fenced, a
    column cannot hold the value, or a document cannot be encoded: the internal
    errors of the code are unreachable. *)
Theorem apply_is_compare_and_swap clock db seen e ev actor input now t :
  reachable db seen → e ∈ seen → input_ok input → edit_complete input →
  Next e ev actor input now = Ok t →
  match Apply clock t db with
  | Ok (stored, db') =>
      stored_as db (e_ID e) e ∧ stored = canon (ApplyTo t e) ∧
      moved clock (e_ID e) t (transition_row (e_ID e) e stored t) stored db db' ∧
      ∀ clock2 ev2 actor2 input2 now2 t2, Next e ev2 actor2 input2 now2 = Ok t2 →
        ∃ f, Apply clock2 t2 db' = Err f ∧ stale f
  | Err f => (¬ stored_as db (e_ID e) e ∧ stale f) ∨ (stored_as db (e_ID e) e ∧ expected_failure f)
  end.
Proof.
  intros Hr He Hin Hed Hnext. pose proof (seen_status _ _ _ Hr He) as Hns.
  destruct (store_reachable_ok _ _ Hr) as (Hok & Hs & _).
  destruct (Apply clock t db) as [[stored db']|f] eqn:Ha.
  - destruct (Apply_step _ _ _ _ _ _ _ _ _ _ _ Hok Hs He Hin Hnext Ha) as (Hst & -> & _ & _ & Hm & Hg).
    split_and!; [done..|]. intros clock2 ev2 actor2 input2 now2 t2 Hnext2.
    eapply (Apply_stale clock2 db' seen); [apply Hm|by eapply seen_grows|done..|].
    intros Hst'. pose proof (stored_as_fun _ _ _ _ Hst' (mv_at _ _ _ _ _ _ _ Hm)) as Heq.
    destruct (Hs e He) as (Heok & _). pose proof (Next_last_seq _ _ _ _ _ _ Heok Hnext) as Hlt.
    apply (f_equal last_seq) in Heq. rewrite canon_last_seq in Heq. lia.
  - by eapply Apply_refused.
Qed.

(** ** Fences *)

Lemma history_idle db seen db' seen' s :
  reachable db seen → no_active s db → history (λ d, fenced s d = true) db seen db' seen' →
  no_active s db' ∧ fence_kept (db_fences db) (db_fences db').
Proof.
  intros Hr Hna. induction 1 as [|db1 seen1 db2 Hh [IH Hk] Hf Hstep]; [split; [done|apply fence_kept_refl]|].
  destruct (store_reachable_ok _ _ (history_reachable _ _ _ _ _ Hr Hh)) as (Hok & Hs & _).
  destruct (store_step_sound _ _ _ Hok Hs Hstep) as (_ & _ & Hidle & Hk2).
  split; [by apply Hidle|by eapply fence_kept_trans].
Qed.

Lemma committed_blocks row : fr_State row = FenceCommitted → fence_blocks (fr_SupplierID row) row = true.
Proof. intros Hst. unfold fence_blocks. by rewrite Hst, bool_decide_true. Qed.

Lemma history_committed db seen db' seen' s o row :
  reachable db seen → db_fences db !! o = Some row → fr_State row = FenceCommitted →
  fr_SupplierID row = s → no_active s db → history (λ _, True) db seen db' seen' →
  fenced s db' = true ∧ no_active s db'.
Proof.
  intros Hr Hl Hst Hsup Hna Hh. enough (db_fences db' !! o = Some row ∧ no_active s db') as [Hl' Hna'].
  { split; [|done]. eapply fenced_insert; [done|]. rewrite <- Hsup. by apply committed_blocks. }
  induction Hh as [|db1 seen1 db2 Hh [Hl1 Hna1] _ Hstep]; [done|].
  destruct (store_reachable_ok _ _ (history_reachable _ _ _ _ _ Hr Hh)) as (Hok & Hs & _).
  destruct (store_step_sound _ _ _ Hok Hs Hstep) as (_ & _ & Hidle & Hk2).
  destruct (Hk2 _ _ Hl1) as (row' & Hl2 & _ & Hsame). rewrite Hsame in Hl2 by (rewrite Hst; done).
  split; [done|]. apply Hidle; [|done].
  eapply fenced_insert; [done|]. rewrite <- Hsup. by apply committed_blocks.
Qed.

(** C11: The supplier deletion protocol is safe.  Once a fence has been
    acquired and reported no active errands, no errand for the supplier, and no
    edit towards it, appears while the fence stands, whatever requests, jobs
    and messages run; and once the fence has been committed, no errand for the
    supplier appears ever again and the supplier stays fenced. *)
Theorem supplier_deletion_protocol actor op sup db seen f db1 db2 seen2 :
  reachable db seen → Acquire actor op sup db = (Ok f, db1) → fc_State f ≠ FenceReleased →
  fc_HasActiveErrands f = false →
  history (λ d, fenced (fc_SupplierID f) d = true) db1 (current db1 ++ seen) db2 seen2 →
  no_active (fc_SupplierID f) db2 ∧
  ∀ actor2 f2 db3 db4 seen4, Commit actor2 op db2 = (Ok f2, db3) →
    history (λ _, True) db3 (current db3 ++ seen2) db4 seen4 →
    fenced (fc_SupplierID f) db4 = true ∧ no_active (fc_SupplierID f) db4.
Proof.
  intros Hr Hacq Hst Hna Hh. destruct (store_reachable_ok _ _ Hr) as (Hok & _).
  destruct (Acquire_blocks _ _ _ _ _ _ Hok Hacq Hst Hna) as (_ & _ & Hidle & o & row & Ho & Hl & Hsup).
  assert (reachable db1 (current db1 ++ seen)) as Hr1.
  { eapply reach_step; [done|]. pose proof (step_acquire seen db actor op sup) as Hstep. by rewrite Hacq in Hstep. }
  destruct (history_idle _ _ _ _ _ Hr1 Hidle Hh) as [Hna2 Hk]. split; [done|].
  intros actor2 f2 db3 db4 seen4 Hcom Hh4.
  pose proof (history_reachable _ _ _ _ _ Hr1 Hh) as Hr2.
  assert (fences_only db2 db3) as Hfo.
  { replace db3 with (snd (Commit actor2 op db2)) by by rewrite Hcom. apply close_fences. }
  destruct (Commit_commits _ _ _ _ _ Hcom) as (o' & row3 & Ho' & Hl3 & Hst3). simplify_eq.
  destruct (fence_kept_trans _ _ _ Hk (fences_only_kept _ _ Hfo) _ _ Hl) as (row' & Hl' & Hs' & _). simplify_eq.
  eapply (history_committed db3 _ _ _ _ _ _); [|done|done|congruence|by eapply fences_quiet|done].
  eapply reach_step; [done|]. pose proof (step_commit seen2 db2 actor2 op) as Hstep. by rewrite Hcom in Hstep.
Qed.

(** ** Creation *)

Lemma byKey_stored db requester key row :
  store_ok db → snd <$> scan1 (same_create_key requester key) (db_errands db) = Some row →
  ∃ e, stored_as db (er_ID row) e ∧ e_RequesterID e = requester ∧ e_CreateIdempotencyKey e = key ∧
    errandFromRow row = Ok e.
Proof.
  intros Hok ([id row'] & Hs & ->)%fmap_Some. simpl. apply scan1_Some in Hs as [Hl Hk].
  destruct (so_rows _ Hok _ _ Hl) as (e & Hro). exists e. unfold same_create_key in Hk. bool_props.
  destruct (errandFromRow_frame _ _ (ro_read _ _ _ Hro)) as (_ & _ & _ & Hrq & Hck & _).
  split_and!; [|congruence|congruence|apply Hro]. rewrite (ro_key _ _ _ Hro). by exists row'.
Qed.

Lemma stored_by_key db id e :
  store_ok db → stored_as db id e →
  ∃ row, row_ok id row e ∧
    scan1 (same_create_key (e_RequesterID e) (e_CreateIdempotencyKey e)) (db_errands db) = Some (id, row).
Proof.
  intros Hok (row & Hl & Hro). exists row. split; [done|].
  destruct (errandFromRow_frame _ _ (ro_read _ _ _ Hro)) as (_ & _ & _ & -> & -> & _).
  apply scan1_unique; [done|by unfold same_create_key; rewrite !bool_decide_true|].
  intros id' row' Hl' Hk. unfold same_create_key in Hk. bool_props. by eapply so_create.
Qed.

Definition same_request (e e1 : Errand) : Prop :=
  e_RequesterID e1 = e_RequesterID e ∧ e_CreateIdempotencyKey e1 = e_CreateIdempotencyKey e.

(** An idempotency key creates at most one errand.  If an errand of the
    same requester and key is stored by the time [Create] inserts, whatever
    was stored when the request started, the request inserts nothing: it
    returns the stored errand and leaves the database as it is, or it fails
    with an error the caller can cause. *)
Theorem create_once clock db0 seen0 db1 seen1 id e1 e t :
  reachable db0 seen0 → reachable db1 seen1 → stored_as db1 id e1 → same_request e e1 →
  match Create clock (λ _, db1) e t db0 with
  | Ok ((stored, created), db') =>
      created = false ∧ same_request e stored ∧ ∃ id', stored_as db' id' stored ∧
        (db' = db0 ∨ (db' = db1 ∧ id' = id ∧ stored = e1))
  | Err f => expected_failure f
  end.
Proof.
  intros Hr0 Hr1 Hst (Hreq & Hkey). destruct (store_reachable_ok _ _ Hr0) as (Hok0 & _), (store_reachable_ok _ _ Hr1) as (Hok1 & _).
  unfold Create, expected_failure. destruct (_ || _); [simpl; auto|]. case_bool_decide; [simpl; auto|].
  destruct (insertParams (ApplyTo t e)) as [params|f] eqn:Hp; unfold bind; simpl;
    [|destruct (insertParams_errors _ _ Hp); auto].
  destruct (insertParams_inv _ _ Hp) as (_ & _ & _ & _ & Hrq & Hck & _).
  unfold Create_tx, GetErrandByCreateKey, bind.
  destruct (snd <$> scan1 _ (db_errands db0)) as [row|] eqn:Hk0.
  { apply byKey_stored in Hk0 as (e0 & Hst0 & Hrq0 & Hck0 & ->); [|done]. simpl. split_and!; [done..|]. eauto. }
  unfold checkFence, SupplierFenced, bind, appErr, fail, ret. destruct (fenced _ db0); [simpl; auto|].
  unfold InsertErrand. rewrite Hrq, Hck. simpl. rewrite <- Hreq, <- Hkey.
  destruct (stored_by_key _ _ _ Hok1 Hst) as (row & Hro & Hscan). rewrite Hscan. simpl.
  rewrite Hscan. simpl. rewrite (ro_read _ _ _ Hro). simpl.
  split_and!; [done..|]. exists id. eauto.
Qed.

End properties.

(** ** Witnesses *)

(** A server that reads UUIDs in their usual form, in either case, and keeps
    microseconds. *)
Module StoreScenario.

Definition read_uuid (s : string) : option string := if uuid_pattern s then Some (to_lower s) else None.

#[export] Instance pg : Postgres := {|
  toUUID := read_uuid;
  stored_time t := t / 1000 * 1000;
  uuid_cast := read_uuid;
|}.

Lemma hex_no_colon a : is_hex a = true ∨ is_dash a = true → bool_decide (a = ":"%char) = false.
Proof. intros Ha. apply bool_decide_eq_false. intros ->. by destruct Ha. Qed.

Lemma match_no_colon cs s :
  Forall (λ c : ascii → bool, ∀ a, c a = true → bool_decide (a = ":"%char) = false) cs →
  match_classes cs s = true → has_colon s = false.
Proof.
  intros Hcs. revert s. induction Hcs as [|c cs Hc _ IH]; intros [|a s]; simpl; try done.
  intros [Ha Hs]%andb_true_iff. rewrite (Hc _ Ha). by apply IH.
Qed.

Lemma uuid_no_colon s : uuid_pattern s = true → has_colon s = false.
Proof.
  apply match_no_colon. unfold uuid_classes.
  repeat (apply Forall_app; split); try apply Forall_replicate; repeat constructor;
    intros; apply hex_no_colon; auto.
Qed.

#[export] Instance pg_ok : PostgresOk.
Proof.
  assert (∀ s u, read_uuid s = Some u → uuid_pattern u = true ∧ u = to_lower s) as Hread.
  { intros s u. unfold read_uuid. destruct (uuid_pattern s) eqn:Hp; [|done]. intros [= <-].
    by rewrite uuid_lower. }
  split; simpl; try done.
  - intros s u [Hp ->]%Hread. unfold read_uuid. by rewrite Hp, to_lower_idem.
  - intros s u [Hp _]%Hread. by apply uuid_no_colon.
  - intros t. by rewrite Z.div_mul.
  - intros t. pose proof (Z.mul_div_le t 1000). lia.
  - intros t t' Hle. apply Z.mul_le_mono_nonneg_r; [lia|]. by apply Z.div_le_mono.
Qed.

Definition id1 := "00000000-0000-4000-8000-000000000001".
Definition sup := "00000000-0000-4000-8000-0000000000AA".
Definition sup2 := "00000000-0000-4000-8000-0000000000bb".
Definition op1 := "00000000-0000-4000-8000-0000000000f1".
Definition alice := "auth0|alice".
Definition bob := "auth0|bob".
Definition requester : Actor := mkActor ActorRequester alice.
Definition courier : Actor := mkActor ActorCourier bob.

Definition details (reward : Z) : Details :=
  mkDetails sup sup2 op1 (Some (JObj [("name", JStr "COM1")])) "lobby" (Some (JArr [JStr "coffee"])) ""
    "Alice" "91234567" reward (60 * minute).
Definition draft : Errand :=
  mkErrand id1 StatusNone 0 alice "" (details 40) None None None None ReviewNone "create-key" None 0 0.
Definition blank_input : EventInput := mkEventInput None "" false false DefaultDeadlineSettings "" false.

Definition no_transition : Transition :=
  mkTransition "" StatusNone StatusNone EventSubmit requester "" 0 "" 0 no_changes [] 0.
Definition decided (e : Errand) (ev : Event) (a : Actor) (now : Z) : Transition :=
  match Next e ev a blank_input now with Ok t => t | Err _ => no_transition end.
Definition run {A} (m : Op A) (db : ODB) : ODB := match m db with Ok (_, db') => db' | Err _ => db end.

(** Submitted, confirmed, then read by two couriers. *)
Definition submit := Eval vm_compute in decided draft EventSubmit requester 0.
Definition db1 := Eval vm_compute in run (Create 1 (λ _, empty_odb) draft submit) empty_odb.
Definition seen1 := Eval vm_compute in current db1 ++ [].
Definition reserved := Eval vm_compute in default draft (head seen1).
Definition confirm := Eval vm_compute in decided reserved EventReservationConfirmed SystemActor 2000.
Definition db2 := Eval vm_compute in run (Apply 3 confirm) db1.
Definition seen2 := Eval vm_compute in current db2 ++ seen1.
Definition opened := Eval vm_compute in default draft (head seen2).
Definition take_it := Eval vm_compute in decided opened EventAccept courier 4000.

Lemma step_to_db1 : store_step [] empty_odb db1.
Proof.
  eapply (step_create _ _ 1 empty_odb draft submit requester blank_input 0); try done.
  all: vm_compute; reflexivity.
Qed.
Lemma reach_db1 : reachable db1 seen1.
Proof.
  assert (seen1 = current db1 ++ []) as -> by (vm_compute; reflexivity).
  eapply reach_step; [apply reach_init|apply step_to_db1].
Qed.
Lemma reach_db2 : reachable db2 seen2.
Proof.
  assert (seen2 = current db2 ++ seen1) as -> by (vm_compute; reflexivity).
  eapply reach_step; [apply reach_db1|].
  eapply (step_apply _ _ 3 reserved confirm EventReservationConfirmed SystemActor blank_input 2000);
    [by left|done|vm_compute; reflexivity|vm_compute; reflexivity].
Qed.

(** A second supplier is fenced while the errand is open. *)
Definition acquired := Eval vm_compute in Acquire "admin" op1 sup2 db2.
Definition committed := Eval vm_compute in Commit "admin" op1 acquired.2.

End StoreScenario.
Import StoreScenario.

Lemma store_always_consistent_witness : store_ok db2.
Proof. apply (store_always_consistent db2 seen2), reach_db2. Defined.

Lemma apply_is_compare_and_swap_witness :
  ∃ stored db', Apply 5 take_it db2 = Ok (stored, db') ∧ e_Status stored = StatusAssigned ∧
    ∃ f, Apply 6 take_it db' = Err f ∧ stale f.
Proof.
  pose proof (apply_is_compare_and_swap 5 db2 seen2 opened EventAccept courier blank_input 4000 take_it) as H.
  assert (match Apply 5 take_it db2 with Ok (st, _) => e_Status st = StatusAssigned | Err _ => False end) as Hok
    by (vm_compute; reflexivity).
  assert (Next opened EventAccept courier blank_input 4000 = Ok take_it) as Hn by (vm_compute; reflexivity).
  destruct (Apply 5 take_it db2) as [[stored db']|]; [|destruct Hok].
  destruct H as (_ & _ & _ & Hagain); [apply reach_db2|by left|done|done|exact Hn|].
  exists stored, db'. split_and!; [reflexivity|exact Hok|]. by apply (Hagain 6 EventAccept courier blank_input 4000).
Defined.

Lemma supplier_deletion_protocol_witness :
  fenced sup2 committed.2 = true ∧ no_active sup2 committed.2.
Proof.
  destruct (supplier_deletion_protocol "admin" op1 sup2 db2 seen2 (mkFence op1 sup2 FenceOpen false) acquired.2
    acquired.2 (current acquired.2 ++ seen2)) as [_ H];
    [apply reach_db2|vm_compute; reflexivity|done|done|apply hist_refl|].
  apply (H "admin" (mkFence op1 sup2 FenceCommitted false) committed.2 committed.2 (current committed.2 ++ current acquired.2 ++ seen2));
    [vm_compute; reflexivity|apply hist_refl].
Defined.

Lemma create_once_witness :
  match Create 9 (λ _, db2) draft submit empty_odb with
  | Ok ((stored, created), db') => created = false ∧ stored = opened
  | Err _ => False
  end.
Proof.
  assert (stored_as db2 id1 opened) as Hst.
  { apply (elem_of_current db2 opened); [apply (store_reachable_ok _ _ reach_db2)|]. vm_compute. by left. }
  pose proof (create_once 9 empty_odb [] db2 seen2 id1 opened draft submit reach_init reach_db2 Hst) as H.
  assert (match Create 9 (λ _, db2) draft submit empty_odb with Ok _ => True | Err _ => False end) as Ht
    by (vm_compute; exact I).
  destruct (Create 9 (λ _, db2) draft submit empty_odb) as [[[stored created] db']|f]; [|destruct Ht].
  destruct H as (Hcr & _ & id' & Hst' & [-> | (_ & _ & Heq)]); [by split|..|by split].
  exfalso. destruct Hst' as (row & Hl & _). vm_compute in Hl. discriminate Hl.
Defined.

Section claims.
Context `{Hpg : Postgres, Hpgok : !PostgresOk}.

(** ** A batch of transitions on the errands it locked *)

(** A decision of [Next] on [e]. *)
Definition decision (e : Errand) (t : Transition) : Prop :=
  ∃ ev actor input now, input_ok input ∧ edit_complete input ∧ Next e ev actor input now = Ok t.

Lemma decision_plain e ev actor input now t :
  i_Edit input = None → Next e ev actor input now = Ok t → decision e t.
Proof. intros Hi Hn. exists ev, actor, input, now. split_and!; [intros d|intros d|]; congruence. Qed.

(** [t] was decided on the errand locked under its ID. *)
Definition decided_on (locked : gmap string Errand) (t : Transition) : Prop :=
  ∃ e, locked !! t_ErrandID t = Some e ∧ decision e t.

(** The outcome of [t] on [e] is stored, with the messages it emits. *)
Definition carried_out (clock : Z) (e : Errand) (t : Transition) (db' : ODB) : Prop :=
  stored_as db' (e_ID e) (canon (ApplyTo t e)) ∧
  ∀ row, row ∈ t_Outbox t → ∃ i payload, enc_payload (o_Payload row) = Some payload ∧
    db_outbox db' !! i = Some (new_orow clock i (o_Kind row) (o_IdempotencyKey row) (e_ID e) payload).

Lemma apply_batch_moves clock decided locked db :
  store_ok db → (∀ id cur, locked !! id = Some cur → stored_as db id cur) →
  NoDup (t_ErrandID <$> decided) → (∀ t, t ∈ decided → decided_on locked t) →
  match apply_batch clock decided locked db with
  | Ok (_, db') =>
      store_ok db' ∧ extends db db' ∧
      (∀ t e, t ∈ decided → locked !! t_ErrandID t = Some e → carried_out clock e t db') ∧
      ∀ id, id ∉ t_ErrandID <$> decided → db_errands db' !! id = db_errands db !! id
  | Err f => expected_failure f
  end.
Proof.
  revert locked db. induction decided as [|t decided IH]; intros locked db Hok Hlk Hnd Hdec; simpl.
  { split_and!; [done|done| |done]. intros t e. by rewrite elem_of_nil. }
  apply NoDup_cons in Hnd as [Hnin Hnd].
  destruct (Hdec t) as (e & Hl & ev & actor & input & now & Hin & Hed & Hnext); [by left|].
  rewrite Hl. pose proof (Hlk _ _ Hl) as Hst. pose proof Hst as (row0 & _ & Hro0).
  destruct (Next_expected _ _ _ _ _ _ (ro_ok _ _ _ Hro0) Hnext) as (Hf & Hti & _).
  rewrite bool_decide_false by (rewrite Hf; apply (ro_status _ _ _ Hro0)).
  unfold bind at 1. destruct (applyLocked clock e t db) as [[stored db1]|f] eqn:Happ;
    [|by eapply applyLocked_errors].
  destruct (applyLocked_sound _ _ _ _ _ _ _ _ _ _ _ Hok Hst Hin Hnext Happ) as (-> & _ & _ & Hm).
  specialize (IH (<[t_ErrandID t := canon (ApplyTo t e)]> locked) db1 (mv_ok _ _ _ _ _ _ _ Hm)).
  assert (∀ t', t' ∈ decided → t_ErrandID t' ≠ t_ErrandID t) as Hne.
  { intros t' Ht' Heq. apply Hnin. rewrite <- Heq. by apply list_elem_of_fmap_2. }
  assert (∀ t', t' ∈ decided → decided_on (<[t_ErrandID t := canon (ApplyTo t e)]> locked) t') as Hdec'.
  { intros t' Ht'. destruct (Hdec t') as (e' & ? & ?); [by right|].
    exists e'. by rewrite lookup_insert_ne by (apply not_eq_sym, Hne, Ht'). }
  assert (∀ id cur, <[t_ErrandID t := canon (ApplyTo t e)]> locked !! id = Some cur → stored_as db1 id cur) as Hlk'.
  { intros id cur [[<- <-]|[Hid Hc]]%lookup_insert_Some; [apply Hm|].
    destruct (Hlk _ _ Hc) as (row & Hrow & Hro). exists row. split; [|done].
    rewrite (mv_other _ _ _ _ _ _ _ Hm) by done. done. }
  specialize (IH Hlk' Hnd Hdec'). destruct (apply_batch clock decided _ db1) as [[u db']|f]; [|done].
  destruct IH as (Hok' & Hx' & Hmoved & Hother). split_and!; [done|etransitivity; [by eapply moved_extends|done]| |].
  - intros t' e' [->|Ht']%elem_of_cons; [|intros He'; apply Hmoved; [done|]; by rewrite lookup_insert_ne by (apply not_eq_sym, Hne, Ht')].
    rewrite Hl. intros [= <-]. rewrite Hti in Hm, Hnin. split.
    + destruct (mv_at _ _ _ _ _ _ _ Hm) as (row & Hrow & Hro). exists row. split; [by rewrite Hother|done].
    + intros row Hrow. destruct (mv_sent _ _ _ _ _ _ _ Hm _ Hrow) as (i & payload & Hp & Ho).
      exists i, payload. split; [done|]. eapply lookup_weaken; [done|apply Hx'].
  - intros id [Hid Hid']%not_elem_of_cons. rewrite Hother by done. by apply (mv_other _ _ _ _ _ _ _ Hm).
Qed.

(** ** Claiming *)

Lemma errandsFromRows_stored db rows :
  store_ok db → (∀ row, row ∈ rows → ∃ id, db_errands db !! id = Some row) →
  ∃ es, errandsFromRows rows = Ok es ∧ er_ID <$> rows = e_ID <$> es ∧
    ∀ e, e ∈ es → stored_as db (e_ID e) e ∧ ∃ row, row ∈ rows ∧ errandFromRow row = Ok e.
Proof.
  intros Hok. induction rows as [|row rows IH]; intros Hrows; cbn [errandsFromRows].
  { exists []. split_and!; [done..|]. intros e. by rewrite elem_of_nil. }
  destruct (Hrows row) as (id & Hl); [by left|]. destruct (so_rows _ Hok _ _ Hl) as (e & Hro).
  destruct IH as (es & Hes & Hids & Hall); [intros; apply Hrows; by right|].
  rewrite (ro_read _ _ _ Hro), Hes. exists (e :: es). split_and!; [done| |].
  - rewrite !fmap_cons, Hids. f_equal. by destruct (errandFromRow_frame _ _ (ro_read _ _ _ Hro)) as (-> & _).
  - assert (stored_as db id e) as Hst by by exists row.
    destruct (stored_as_id _ _ _ Hst) as (Hid & _).
    intros e' [->|He']%elem_of_cons.
    + rewrite Hid. split; [done|]. exists row. split; [by left|apply Hro].
    + destruct (Hall e' He') as (? & row' & ? & ?). split; [done|]. exists row'. split; [by right|done].
Qed.

(** What [decide_batch] collects. *)
Lemma decide_batch_choose decide (choose : Errand → option Transition) batch locked :
  (∀ e, e ∈ batch → decide e = Ok (choose e)) → NoDup (e_ID <$> batch) →
  ∃ locked', decide_batch decide batch locked = Ok (omap choose batch, locked') ∧
    (∀ e, e ∈ batch → locked' !! e_ID e = Some e) ∧
    ∀ id, id ∉ e_ID <$> batch → locked' !! id = locked !! id.
Proof.
  revert locked. induction batch as [|e batch IH]; intros locked Hdec Hnd; simpl.
  { exists locked. split_and!; [done| |done]. intros e. by rewrite elem_of_nil. }
  apply NoDup_cons in Hnd as [Hnin Hnd]. rewrite Hdec by by left.
  destruct (IH (<[e_ID e := e]> locked)) as (locked' & -> & Hin & Hout); [intros; apply Hdec; by right|done|].
  exists locked'. split_and!; [by destruct (choose e)| |].
  - intros e' [->|He']%elem_of_cons; [|by apply Hin]. rewrite Hout by done. by rewrite lookup_insert, decide_True.
  - intros id [Hid Hid']%not_elem_of_cons. rewrite Hout by done. by rewrite lookup_insert_ne.
Qed.

Lemma pending_at_present row v :
  errand_check row = true → er_PendingEdit row = Some v → ∃ at_, er_PendingEditAt row = Some at_.
Proof.
  unfold errand_check. intros [_ Hm]%andb_true_iff Hp. rewrite Hp in Hm.
  destruct (er_PendingEditKey row), (er_PendingEditAt row); eauto; done.
Qed.

(** A row is claimed when the errand is due. *)
Lemma row_due_Due k now id row e : row_ok id row e → row_due k now row = Due k e now.
Proof.
  intros Hro. unfold row_due, Due.
  assert (due_column k row = DueAt k e ∧ ∀ at_, DueAt k e = Some at_ → stored_time at_ = at_) as [-> Hst].
  { pose proof (ro_stored _ _ _ Hro) as Hs. pose proof (ro_read _ _ _ Hro) as Hr.
    pose proof (λ v, pending_at_present row v (ro_check _ _ _ Hro)) as Hpa.
    unfold errandFromRow in Hr. destruct row. unfold stored_row in Hs. simpl in *. injection Hs as Hs.
    break_in Hr; simplify_eq/=; unfold due_column, DueAt; simpl; destruct k; simpl;
      repeat case_bool_decide; split; try done; intros; simplify_eq/=; try done; try congruence.
    all: destruct (Hpa _ eq_refl) as [? ->]; simpl in *; congruence. }
  destruct (DueAt k e) as [at_|]; [|done]. specialize (Hst _ eq_refl).
  apply eq_true_iff_eq. rewrite !Z.leb_le. split.
  - intros. pose proof (stored_time_le now). lia.
  - intros Hle%stored_time_mono. lia.
Qed.

Lemma NoDup_claimed k skip now limit db :
  store_ok db → NoDup (er_ID <$> claim_query k skip now limit db).
Proof.
  intros Hok. unfold claim_query. set (P := λ r, _). rewrite fmap_take.
  enough (NoDup (er_ID <$> merge_sort (column_le k) ((scan P (db_errands db)).*2))) as Hnd.
  { rewrite <- (take_drop (Z.to_nat limit) (er_ID <$> _)) in Hnd. by apply NoDup_app in Hnd as (? & _). }
  rewrite merge_sort_Permutation, <- list_fmap_compose.
  erewrite list_fmap_ext; [apply (NoDup_scan_keys P (db_errands db))|].
  intros i [id row] Hi. simpl. apply list_elem_of_lookup_2, elem_of_scan in Hi as [Hl _].
  destruct (so_rows _ Hok _ _ Hl) as (e & Hro). apply Hro.
Qed.

(** A claim that is not full has taken every errand it could. *)
Lemma short_claim_all k skip now limit db id e :
  store_ok db → 1 ≤ limit ≤ max_int32 →
  Z.of_nat (length (claim_query k skip now (rowLimit limit) db)) < limit →
  stored_as db id e → Due k e now = true → skip id = false →
  id ∈ er_ID <$> claim_query k skip now (rowLimit limit) db.
Proof.
  intros Hok Hlim Hshort (row & Hl & Hro) Hdue Hfree. apply list_elem_of_fmap. exists row.
  split; [by rewrite (ro_key _ _ _ Hro)|]. unfold claim_query in *. set (due := merge_sort _ _) in *.
  unfold rowLimit in *. rewrite Z.min_l in * by lia.
  rewrite length_take in Hshort. rewrite take_ge by lia. unfold due.
  rewrite merge_sort_Permutation. apply list_elem_of_fmap. exists (id, row). split; [done|].
  apply elem_of_scan. split; [done|]. rewrite (row_due_Due _ _ _ _ _ Hro), Hdue, (ro_key _ _ _ Hro), Hfree. done.
Qed.

(** The transitions chosen for distinct errands are on distinct errands. *)
Lemma chosen_ids (choose : Errand → option Transition) es :
  (∀ e t, e ∈ es → choose e = Some t → t_ErrandID t = e_ID e) → NoDup (e_ID <$> es) →
  NoDup (t_ErrandID <$> omap choose es) ∧ t_ErrandID <$> omap choose es ⊆ e_ID <$> es.
Proof.
  intros Hid Hnd. induction es as [|e es IH]; simpl; [by split|].
  apply NoDup_cons in Hnd as [Hnin Hnd]. destruct IH as [IH Hsub]; [intros; apply Hid; [by right|done]|done|].
  destruct (choose e) as [t|] eqn:Hc; simpl; [|split; [done|set_solver]].
  rewrite (Hid e t) by (by left || done). split; [|set_solver].
  apply NoDup_cons. split; [|done]. intros Hin. apply Hnin. by apply Hsub.
Qed.

Lemma ClaimDue_spec clock k skip now limit decide (choose : Errand → option Transition) db :
  store_ok db → 1 ≤ limit →
  (∀ e, stored_as db (e_ID e) e → Due k e now = true →
     decide e = Ok (choose e) ∧ ∀ t, choose e = Some t → decision e t) →
  let claimed := claim_query k skip now (rowLimit limit) db in
  match ClaimDue clock k skip now limit decide db with
  | Ok (n, db') =>
      ∃ es, er_ID <$> claimed = e_ID <$> es ∧ n = Z.of_nat (length (omap choose es)) ∧
      store_ok db' ∧ extends db db' ∧
      (∀ e, e ∈ es → stored_as db (e_ID e) e ∧ Due k e now = true ∧
         match choose e with
         | Some t => carried_out clock e t db'
         | None => db_errands db' !! e_ID e = db_errands db !! e_ID e
         end) ∧
      ∀ id, id ∉ e_ID <$> es → db_errands db' !! id = db_errands db !! id
  | Err f => expected_failure f
  end.
Proof.
  intros Hok Hlim Hdec claimed.
  destruct (errandsFromRows_stored db claimed Hok) as (es & Hes & Hids & Hall).
  { intros row (id & Hl & _)%claim_query_stored. eauto. }
  assert (NoDup (e_ID <$> es)) as Hnd by (rewrite <- Hids; by apply NoDup_claimed).
  assert (∀ e, e ∈ es → stored_as db (e_ID e) e ∧ Due k e now = true) as Hdue.
  { intros e He. destruct (Hall e He) as (Hst & row & Hrow & Hread). split; [done|].
    apply claim_query_stored in Hrow as (id & Hl & Hd). destruct (so_rows _ Hok _ _ Hl) as (e' & Hro).
    rewrite (ro_read _ _ _ Hro) in Hread. simplify_eq. by rewrite <- (row_due_Due _ _ _ _ _ Hro). }
  destruct (decide_batch_choose decide choose es ∅) as (locked & Hdb & Hlk & Hout); [|done|].
  { intros e He. destruct (Hdue e He). by apply Hdec. }
  assert (∀ e t, e ∈ es → choose e = Some t → decision e t ∧ t_ErrandID t = e_ID e) as Hchosen.
  { intros e t He Ht. destruct (Hdue e He) as [Hst Hd]. destruct (Hdec e Hst Hd) as [_ Hc]. split; [by apply Hc|].
    destruct (Hc _ Ht) as (ev & actor & input & now' & _ & _ & Hnext). pose proof Hst as (row & _ & Hro).
    by destruct (Next_expected _ _ _ _ _ _ (ro_ok _ _ _ Hro) Hnext) as (_ & -> & _). }
  destruct (chosen_ids choose es) as [Hndt Hsub]; [intros; by apply Hchosen|done|].
  assert (∀ id cur, locked !! id = Some cur → stored_as db id cur) as Hlocked.
  { intros id cur Hc. destruct (decide_rel elem_of id (e_ID <$> es)) as [Hin|Hnin].
    - apply list_elem_of_fmap in Hin as (e & -> & He). rewrite (Hlk e He) in Hc. simplify_eq. by apply Hdue.
    - by rewrite Hout, lookup_empty in Hc. }
  assert (∀ t, t ∈ omap choose es → decided_on locked t) as Hon.
  { intros t (e & He & Ht)%list_elem_of_omap. destruct (Hchosen _ _ He Ht) as [? Hti]. exists e. split; [rewrite Hti; by apply Hlk|done]. }
  pose proof (apply_batch_moves clock _ locked db Hok Hlocked Hndt Hon) as Hbatch.
  unfold ClaimDue. destruct (limit <? 1) eqn:Hl1; [apply Z.ltb_lt in Hl1; lia|].
  unfold bind. fold claimed. rewrite Hes. simpl. rewrite Hdb. simpl.
  destruct (apply_batch _ _ _ _) as [[u db']|f]; [|done]. destruct Hbatch as (Hok' & Hx & Hmoved & Hother).
  exists es. split_and!; [done|done|done|done| |].
  - intros e He. destruct (Hdue e He) as [Hst Hd]. split_and!; [done|done|].
    destruct (choose e) as [t|] eqn:Ht.
    + destruct (Hchosen _ _ He Ht) as [_ Hti]. apply (Hmoved t e).
      * apply list_elem_of_omap. eauto.
      * rewrite Hti. by apply Hlk.
    + apply Hother. intros (t & Hti & (e' & He' & Ht')%list_elem_of_omap)%list_elem_of_fmap.
      destruct (Hchosen _ _ He' Ht') as [_ Hti']. rewrite Hti' in Hti.
      assert (e' = e) as ->; [|congruence]. pose proof (Hlk e He) as H1. rewrite Hti, (Hlk e' He') in H1. congruence.
  - intros id Hid. apply Hother. intros Hin. apply Hid. by apply Hsub.
Qed.

End claims.
