(* ===== verification/ErrandHttp.v ===== *)
(** * order-service: what the errand routes share

    [internal/errand/errandhttp]: reading a request body field by field
    ([validate.go]), the action bodies ([action.go]), the response views
    ([view.go]), error responses ([respond.go]) and the answer to a lost
    compare-and-swap ([duplicate.go]).  The routes are programs over the ports
    of [internal/errand/ports.go]. *)

From Stdlib Require Import SpecFloat.
From S2P Require Import Prelude Proc GoText Json GoTime Sha Errand Settings ErrandJson ErrandStore OpsRepo ErrandLists.

Open Scope Z_scope.

(** ** ports.go: what supplier-service knows *)

Record SupplierVersion := mkSupplierVersion {
  sv_SupplierID : string; sv_VersionID : string; sv_Name : string; sv_Type : string; sv_TypeID : string;
  sv_Building : string; sv_BuildingID : string; sv_Floor : string; sv_LocationDescription : string;
  sv_Latitude : spec_float; sv_Longitude : spec_float; sv_OpeningTime : string; sv_ClosingTime : string;
  sv_ImageURL : string; sv_Available : bool; sv_CreatedAt : Z }.

(** Go's zero value: what a map lookup that misses returns. *)
Definition no_version : SupplierVersion :=
  mkSupplierVersion "" "" "" "" "" "" "" "" "" (S754_zero false) (S754_zero false) "" "" "" false zero_time.

Record Building := mkBuilding { b_ID : string; b_Name : string; b_Retired : bool }.

(** [json.Marshal(building)] *)
Definition enc_building (b : Building) : json :=
  JObj [("id", JStr (b_ID b)); ("name", JStr (b_Name b)); ("retired", JBool (b_Retired b))].

(** ** Requests *)

(** A body: its length in bytes ([None] when reading it failed) and its text as
    one JSON value ([None] when it is not exactly one). *)
Record Body := mkBody { bd_Len : option Z; bd_JSON : option json }.

(** The [cursor] parameter: its length in bytes and the one JSON value that its
    base64 text holds, if it holds one. *)
Record Token := mkToken { tk_Len : Z; tk_JSON : option json }.

(** [url.Values], the cursor apart. *)
Record Query := mkQuery { qy_Values : list (string * string); qy_Cursor : option Token }.

(** [hq_Principal] is the caller's subject; the path value and the
    Idempotency-Key header come next. *)
Record HRequest := mkHRequest {
  hq_Principal : option string; hq_ErrandID : string; hq_IdempotencyKey : string; hq_Body : Body;
  hq_Query : Query }.

Definition appFailure (code : Code) : Failure := FApp (mkAppError code []).

(** [map[string]json.RawMessage]: the last member of a name wins. *)
Definition object_map (ms : list (string * json)) : gmap string json := list_to_map (reverse ms).

Definition DecodeObject (v : option json) : res Failure (gmap string json) :=
  match v with
  | Some (JObj ms) => Ok (object_map ms)
  | _ => Err (appFailure InvalidArgument)
  end.

Definition ReadObject (body : Body) (maxBytes : Z) : res Failure (gmap string json) :=
  match bd_Len body with
  | None => Err (appFailure InvalidArgument)
  | Some n => if maxBytes <? n then Err (appFailure InvalidArgument) else DecodeObject (bd_JSON body)
  end.

(** ** Validator *)

Record TextRule := mkTextRule { tr_Max : Z; tr_NotBlank : bool; tr_Contact : bool }.

Definition DeliveryDetailText : TextRule := mkTextRule 200 true false.
Definition NotesText : TextRule := mkTextRule 500 false false.
Definition ContactNameText : TextRule := mkTextRule 100 true true.
Definition ContactMobileText : TextRule := mkTextRule 32 true true.
Definition itemDescriptionText : TextRule := mkTextRule 200 true false.

Definition maxItems : nat := 20.
Definition maxItemQuantity : Z := 99.
Definition MaxErrandBodyBytes : Z := 65536.
Definition maxActionBytes : Z := 4096.

Record Validator := mkValidator { v_raw : gmap string json; v_prefix : string }.

Definition NewValidator (raw : gmap string json) : Validator := mkValidator raw "".

(** A value read and the field errors reading it added, in order. *)
Definition checked (A : Type) : Type := A * list Field.

Definition cret {A} (a : A) : checked A := (a, []).
Definition cbind {A B} (m : checked A) (k : A → checked B) : checked B :=
  let r := k m.1 in (r.1, m.2 ++ r.2).

Notation "'field!' x := m 'in' k" := (cbind m (λ x, k))
  (at level 10, x name, m at level 100, k at level 200) : foc_scope.

Definition qualified (v : Validator) (name : string) : string :=
  if bool_decide (v_prefix v = "") then name else v_prefix v +:+ "." +:+ name.

(** [Fail] *)
Definition vfail {A} (v : Validator) (name message : string) (a : A) : checked A :=
  (a, [mkField (qualified v name) message]).

Definition Has (v : Validator) (name : string) : bool :=
  match v_raw v !! name with
  | None | Some JNull => false
  | Some _ => true
  end.

Definition value (v : Validator) (name : string) (required : bool) : checked (option json) :=
  if negb (Has v name) then
    if required then vfail v name "is required" None else cret None
  else cret (v_raw v !! name).

(** [None] stands for [("", false)]. *)
Definition vstring (v : Validator) (name : string) (required : bool) : checked (option string) :=
  field! raw := value v name required in
  match raw with
  | None => cret None
  | Some (JStr s) => cret (Some s)
  | Some _ => vfail v name "must be a string" None
  end.

Definition vUUID (v : Validator) (name : string) (required : bool) : checked string :=
  field! s := vstring v name required in
  match s with
  | None => cret ""
  | Some s => if negb (uuid_pattern s) then vfail v name "must be a UUID" "" else cret (to_lower s)
  end.

Definition vText (v : Validator) (name : string) (required : bool) (rule : TextRule) : checked string :=
  field! s := vstring v name required in
  match s with
  | None => cret ""
  | Some s =>
      if tr_NotBlank rule && bool_decide (trim_space s = "") then vfail v name "must not be blank" ""
      else if tr_Max rule <? rune_count s then
        vfail v name ("must be at most " +:+ itoa (tr_Max rule) +:+ " characters") ""
      else if tr_Contact rule && existsb is_control (runes s) then
        vfail v name "must not contain control characters" ""
      else cret s
  end.

Definition vInteger (v : Validator) (name : string) (required : bool) (min max : Z) (message : string) :
    checked Z :=
  field! raw := value v name required in
  match raw with
  | None => cret 0
  | Some (JInt n) =>
      if negb (in_int64b n) || (n <? min) || (max <? n) then vfail v name message 0 else cret n
  | Some _ => vfail v name message 0
  end.

Definition vDateTime (v : Validator) (name : string) (required : bool) : checked (option Z * bool) :=
  field! s := vstring v name required in
  match s with
  | None => cret (None, negb (Has v name) && negb required)
  | Some s =>
      match parse_rfc3339 s with
      | None => vfail v name "must be an RFC 3339 date-time" (None, false)
      | Some t => cret (Some t, true)
      end
  end.

(** Every member not in [known], in name order. *)
Definition string_le (s t : string) : Prop := String.leb s t = true.
#[export] Instance string_le_dec s t : Decision (string_le s t).
Proof. unfold string_le. apply _. Defined.

Definition OnlyKnown (v : Validator) (known : list string) : checked unit :=
  let unknown := List.filter (λ name, negb (existsb (λ k, bool_decide (name = k)) known))
                   ((map_to_list (v_raw v)).*1) in
  (tt, (λ name, mkField (qualified v name) "is not allowed") <$> merge_sort string_le unknown).

(** One element of the items: the re-encoded item unless it has field errors. *)
Definition vItem (v : Validator) (at_ : string) (element : json) : checked (option json) :=
  match element with
  | JObj ms =>
      let member := mkValidator (object_map ms) (qualified v at_) in
      let r :=
        field! description := vText member "description" true itemDescriptionText in
        field! quantity := vInteger member "quantity" true 1 maxItemQuantity
          ("must be an integer from 1 to " +:+ itoa maxItemQuantity) in
        field! _known := OnlyKnown member ["description"; "quantity"] in
        cret (JObj [("description", JStr description); ("quantity", JInt quantity)]) in
      match r.2 with
      | [] => cret (Some r.1)
      | fields => (None, fields)
      end
  | _ => vfail v at_ "must be an object" None
  end.

(** The items from index [i] on, or [None] when one of them is invalid. *)
Fixpoint vItem_list (v : Validator) (name : string) (i : Z) (l : list json) : checked (option (list json)) :=
  match l with
  | [] => cret (Some [])
  | element :: l' =>
      field! x := vItem v (name +:+ "[" +:+ itoa i +:+ "]") element in
      field! xs := vItem_list v name (i + 1) l' in
      cret (match x, xs with Some x, Some xs => Some (x :: xs) | _, _ => None end)
  end.

Definition vItems (v : Validator) (name : string) (required : bool) : checked (option json) :=
  field! raw := value v name required in
  match raw with
  | None => cret None
  | Some (JArr l) =>
      if bool_decide (l = []) then vfail v name "must list at least one item" None
      else if (maxItems <? length l)%nat then
        vfail v name ("must list at most " +:+ itoa (Z.of_nat maxItems) +:+ " items") None
      else field! items := vItem_list v name 0 l in cret (JArr <$> items)
  | Some _ => vfail v name "must be an array" None
  end.

(** [Err]: VALIDATION_FAILED with every field recorded, or the value. *)
Definition verdict {A} (c : checked A) : res Failure A :=
  match c.2 with
  | [] => Ok c.1
  | fields => Err (FApp (mkAppError ValidationFailed fields))
  end.

(** ** action.go *)

Definition ErrandID (rq : HRequest) : res Failure string :=
  if negb (uuid_pattern (hq_ErrandID rq)) then Err (appFailure InvalidArgument)
  else Ok (to_lower (hq_ErrandID rq)).

Definition max_int32 : Z := 2147483647.

Definition ExpectedVersion (v : Validator) : checked Z :=
  vInteger v "expectedVersion" true 1 max_int32 "must be a positive integer".

Definition ReadVersionedAction (body : Body) : res Failure Z :=
  match ReadObject body maxActionBytes with
  | Err err => Err err
  | Ok raw =>
      let v := NewValidator raw in
      verdict (field! version := ExpectedVersion v in
               field! _known := OnlyKnown v ["expectedVersion"] in cret version)
  end.

Definition reasonText : TextRule := mkTextRule 500 true false.

Definition ReadReasonedAction (body : Body) : res Failure (Z * string) :=
  match ReadObject body maxActionBytes with
  | Err err => Err err
  | Ok raw =>
      let v := NewValidator raw in
      verdict (field! version := ExpectedVersion v in
               field! reason := vText v "reason" true reasonText in
               field! _known := OnlyKnown v ["expectedVersion"; "reason"] in cret (version, reason))
  end.

Definition RejectionRequestID (actorID : string) (expectedVersion : Z) : string :=
  hex_bytes (take 16 (sha256 (actorID +:+ String "000"%char (itoa expectedVersion)))).

(** ** view.go *)

Record Pickup := mkPickup {
  pk_Name : string; pk_Building : string; pk_Floor : string; pk_LocationDescription : string;
  pk_Latitude : spec_float; pk_Longitude : spec_float }.

Definition PickupOf (v : SupplierVersion) : Pickup :=
  mkPickup (sv_Name v) (sv_Building v) (sv_Floor v) (sv_LocationDescription v) (sv_Latitude v) (sv_Longitude v).

(** [errandhttp.Building] *)
Record BuildingView := mkBuildingView { bv_ID : string; bv_Name : string }.

(** [json.Unmarshal] into the struct of a name, the error ignored: a member of
    another type leaves the field as it is. *)
Definition snapshot_name (snapshot : option json) : string :=
  match snapshot with
  | Some (JObj ms) =>
      foldl (λ acc kv, if key_matches "name" kv.1 then match kv.2 with JStr s => s | _ => acc end else acc) "" ms
  | _ => ""
  end.

Definition BuildingOf (d : Details) : BuildingView :=
  mkBuildingView (d_DeliveryBuildingID d) (snapshot_name (d_DeliveryBuildingSnapshot d)).

Record Fields := mkFields {
  fl_ErrandID : string; fl_Version : Z; fl_Status : Status; fl_SupplierID : string;
  fl_SupplierVersionID : string; fl_Pickup : Pickup; fl_DeliveryBuilding : BuildingView;
  fl_DeliveryDetail : string; fl_Items : option json; fl_Notes : string; fl_Reward : Z;
  fl_CreatedAt : Z; fl_UpdatedAt : Z; fl_AcceptanceDeadline : Z; fl_PickupDeadline : option Z;
  fl_DeliveryDeadline : option Z; fl_DeliveredAt : option Z; fl_VerificationDeadline : option Z;
  fl_ReviewReason : ReviewReason }.

Definition FieldsOf (e : Errand) (pickup : SupplierVersion) : Fields :=
  let d := e_Details e in
  mkFields (e_ID e) (e_Version e) (e_Status e) (d_SupplierID d) (d_SupplierVersionID d) (PickupOf pickup)
    (BuildingOf d) (d_DeliveryDetail d) (d_Items d) (d_Notes d) (d_Reward d) (e_CreatedAt e) (e_UpdatedAt e)
    (d_AcceptanceDeadline d) (e_PickupDeadline e) (e_DeliveryDeadline e) (e_DeliveredAt e)
    (e_VerificationDeadline e) (e_ReviewReason e).

(** [errandhttp.PendingEdit] *)
Record PendingEditView := mkPendingEditView {
  pv_SupplierID : string; pv_SupplierVersionID : string; pv_Pickup : Pickup; pv_DeliveryBuilding : BuildingView;
  pv_DeliveryDetail : string; pv_Items : option json; pv_Notes : string; pv_ContactName : string;
  pv_ContactMobile : string; pv_Reward : Z; pv_AcceptanceDeadline : Z; pv_RequestedAt : Z }.

Record RequesterErrand := mkRequesterErrand {
  re_Fields : Fields; re_ViewerRole : string; re_ContactName : string; re_ContactMobile : string;
  re_PendingEdit : option PendingEditView }.

(** [Pickups]; a lookup that misses returns the zero value. *)
Definition Pickups : Type := gmap string SupplierVersion.
Definition pickup_of (pickups : Pickups) (id : string) : SupplierVersion := default no_version (pickups !! id).

Definition pending_view (pickups : Pickups) (p : PendingEdit) : PendingEditView :=
  let d := pe_Details p in
  mkPendingEditView (d_SupplierID d) (d_SupplierVersionID d) (PickupOf (pickup_of pickups (d_SupplierVersionID d)))
    (BuildingOf d) (d_DeliveryDetail d) (d_Items d) (d_Notes d) (d_ContactName d) (d_ContactMobile d)
    (d_Reward d) (d_AcceptanceDeadline d) (pe_At p).

Definition RequesterView (e : Errand) (pickups : Pickups) : RequesterErrand :=
  mkRequesterErrand (FieldsOf e (pickup_of pickups (d_SupplierVersionID (e_Details e)))) "REQUESTER"
    (d_ContactName (e_Details e)) (d_ContactMobile (e_Details e)) (pending_view pickups <$> e_PendingEdit e).

(** [errand.OpenErrandView]: the only errand shape that may be cached. *)
Record OpenErrandView := mkOpenErrandView {
  ov_ErrandID : string; ov_Version : Z; ov_SupplierID : string; ov_SupplierVersionID : string;
  ov_Pickup : Pickup; ov_DeliveryBuilding : json; ov_DeliveryDetail : string; ov_Items : option json;
  ov_Reward : Z; ov_CreatedAt : Z; ov_AcceptanceDeadline : Z }.

Definition enc_building_view (b : BuildingView) : json :=
  JObj [("id", JStr (bv_ID b)); ("name", JStr (bv_Name b))].

Definition OpenViewOf (e : Errand) (pickup : SupplierVersion) : OpenErrandView :=
  let d := e_Details e in
  mkOpenErrandView (e_ID e) (e_Version e) (d_SupplierID d) (d_SupplierVersionID d) (PickupOf pickup)
    (enc_building_view (BuildingOf d)) (d_DeliveryDetail d) (d_Items d) (d_Reward d) (e_CreatedAt e)
    (d_AcceptanceDeadline d).

Record OpenFields := mkOpenFields {
  of_ErrandID : string; of_Version : Z; of_SupplierID : string; of_SupplierVersionID : string;
  of_Pickup : Pickup; of_DeliveryBuilding : BuildingView; of_DeliveryDetail : string; of_Items : option json;
  of_Reward : Z; of_CreatedAt : Z; of_AcceptanceDeadline : Z }.

(** [json.Unmarshal] of a building projection, the error ignored. *)
Definition dec_building_view (v : json) : BuildingView :=
  let read name := match v with
    | JObj ms =>
        foldl (λ acc kv, if key_matches name kv.1 then match kv.2 with JStr s => s | _ => acc end else acc) "" ms
    | _ => ""
    end in
  mkBuildingView (read "id") (read "name").

Definition OpenFieldsOf (v : OpenErrandView) : OpenFields :=
  mkOpenFields (ov_ErrandID v) (ov_Version v) (ov_SupplierID v) (ov_SupplierVersionID v) (ov_Pickup v)
    (dec_building_view (ov_DeliveryBuilding v)) (ov_DeliveryDetail v) (ov_Items v) (ov_Reward v)
    (ov_CreatedAt v) (ov_AcceptanceDeadline v).

Record PublicErrand := mkPublicErrand { pu_Open : OpenFields; pu_ViewerRole : string }.

Definition PublicView (e : Errand) (pickups : Pickups) : PublicErrand :=
  mkPublicErrand (OpenFieldsOf (OpenViewOf e (pickup_of pickups (d_SupplierVersionID (e_Details e))))) "PUBLIC".

(** [""] stands for an omitted contact. *)
Record CourierErrand := mkCourierErrand {
  ce_Fields : Fields; ce_ViewerRole : string; ce_ContactName : string; ce_ContactMobile : string }.

Definition contactStatuses : list Status :=
  [StatusAssigned; StatusPickedUp; StatusDelivered; StatusReviewRequired].

Definition shows_contact (s : Status) : bool := existsb (λ s', bool_decide (s = s')) contactStatuses.

Definition CourierView (e : Errand) (pickups : Pickups) : CourierErrand :=
  let contact s := if shows_contact (e_Status e) then s else "" in
  mkCourierErrand (FieldsOf e (pickup_of pickups (d_SupplierVersionID (e_Details e)))) "COURIER"
    (contact (d_ContactName (e_Details e))) (contact (d_ContactMobile (e_Details e))).

(** ** The ports a route calls *)

(** [HShared] is the singleflight group of the open list: another request's
    load to share, or none. *)
Inductive heff : Type → Type :=
| HNow : heff Z                                                          (* Clock.Now *)
| HSettings : heff (res Failure SystemSettings)                          (* Settings.Get *)
| HGet (id : string) : heff (res Failure Errand)                         (* Store.Get *)
| HCourierHistory (errandID courierID : string) (since : Z) : heff (res Failure CourierHistoryResult)
| HApply (t : Transition) : heff (res Failure Errand)                    (* Store.Apply *)
| HCreate (e : Errand) (t : Transition) : heff (res Failure (Errand * bool))
| HRecordRejection (r : Rejection) : heff (res Failure unit)
| HListOpen (q : OpenQuery) : heff (res Failure (Page OpenCursor))       (* Store.ListOpen *)
| HListUser (which : UserList) (q : UserListQuery) : heff (res Failure (Page UserListCursor))
| HGetVersion (versionID : string) : heff (res Failure SupplierVersion)  (* SupplierGate *)
| HResolveForCreate (supplierID : string) (now : Z) : heff (res Failure SupplierVersion)
| HListBuildings : heff (res Failure (list Building))
| HCacheGet : heff (option (list OpenErrandView))                        (* OpenErrandCache *)
| HCacheSet (views : list OpenErrandView) (ttl : Z) : heff unit
| HShared : heff (option (res Failure (list OpenErrandView)))
| HOpenReviews (afterID limit : Z) : heff (res Failure (list OpenReviewRow))   (* opsrepo *)
| HTransitions (f : TransitionFilter) : heff (res Failure (list TransitionView))
| HWithdrawalCounts (since minCount limit : Z) : heff (res Failure (list ActivityCount))
| HCancellationCounts (since minCount limit : Z) : heff (res Failure (list ActivityCount))
| HAudit (r : AuditRow) : heff (res Failure unit)
| HReminderCandidates (k : ReminderKind) (now remindBefore limit : Z) : heff (res Failure (list ReminderCandidate))
| HRemind (row : ReminderRow) (status : Status) (version : Z) : heff (res Failure bool).

Abbreviation hproc := (proc heff).

(** ** Loading supplier versions *)

Fixpoint load_versions (ids : list string) (pickups : Pickups) : hproc (res Failure Pickups) :=
  match ids with
  | [] => PRet (Ok pickups)
  | id :: ids' =>
      match pickups !! id with
      | Some _ => load_versions ids' pickups
      | None =>
          await r := perform (HGetVersion id) in
          match r with
          | Ok v => load_versions ids' (<[id := v]> pickups)
          | Err (FApp e) =>
              if bool_decide (ae_Code e = SupplierUnavailable) then PRet (Err (FPlain "unknown supplier version"))
              else PRet (Err (FApp e))
          | Err f => PRet (Err f)
          end
      end
  end.

Definition version_ids (e : Errand) : list string :=
  d_SupplierVersionID (e_Details e)
  :: match e_PendingEdit e with Some p => [d_SupplierVersionID (pe_Details p)] | None => [] end.

Definition LoadPickups (errands : list Errand) : hproc (res Failure Pickups) :=
  load_versions (errands ≫= version_ids) ∅.

(** ** respond.go *)

(** [browse.openItem] *)
Record openItem := mkOpenItem { oi_Fields : OpenFields; oi_GroupKey : string; oi_DistanceMeters : option spec_float }.

(** An item of a user's list, and a response body; a page carries the JSON of
    its next cursor. *)
Inductive Item := IRequester (v : RequesterErrand) | ICourier (v : CourierErrand).

Inductive RBody :=
| BError (code : Code) (fields : list Field)
| BRequester (v : RequesterErrand)
| BCourier (v : CourierErrand)
| BPublic (v : PublicErrand)
| BPage (items : list Item) (next : option json)
| BOpenPage (items : list openItem) (next : option json).

Record HReply := mkHReply { hp_Status : Z; hp_Location : option string; hp_Body : RBody }.

Definition WriteError (code : Code) : HReply := mkHReply (HTTPStatus code) None (BError code []).

(** [Fail] *)
Definition FailReply (f : Failure) : HReply :=
  match f with
  | FApp e =>
      if bool_decide (ae_Code e = ValidationFailed)
      then mkHReply (HTTPStatus ValidationFailed) None (BError ValidationFailed (ae_Fields e))
      else WriteError (ae_Code e)
  | FPlain _ => WriteError Internal
  end.

Definition hfail (f : Failure) : hproc HReply := PRet (FailReply f).

(** [Caller]: the subject, or the 401 reply. *)
Definition Caller (rq : HRequest) : res HReply string :=
  match hq_Principal rq with
  | Some subject => if bool_decide (subject = "") then Err (WriteError Unauthenticated) else Ok subject
  | None => Err (WriteError Unauthenticated)
  end.

Definition OkCourier (e : Errand) (pickups : Pickups) : HReply := mkHReply 200 None (BCourier (CourierView e pickups)).
Definition RequesterReply (status : Z) (location : option string) (e : Errand) (pickups : Pickups) : HReply :=
  mkHReply status location (BRequester (RequesterView e pickups)).

(** ** duplicate.go *)

Definition code_of (f : Failure) : option Code :=
  match f with FApp e => Some (ae_Code e) | FPlain _ => None end.

Definition has_code (f : Failure) (codes : list Code) : bool :=
  match code_of f with Some c => existsb (λ c', bool_decide (c = c')) codes | None => false end.

Definition LostToDuplicate (errandID : string) (err : Failure) (done : Errand → bool) : hproc (option Errand) :=
  if negb (has_code err [ErrandChanged; ErrandUnavailable]) then PRet None
  else
    await r := perform (HGet errandID) in
    PRet (match r with Ok current => if done current then Some current else None | Err _ => None end).

(** The write of an action and the answer to it, as every handler does it: the
    errand stored, a duplicate's result, or the refusal. *)
Definition apply_or_duplicate (id : string) (t : Transition) (done : Errand → bool)
    (respond : Errand → hproc HReply) (refuse : Failure → hproc HReply) : hproc HReply :=
  await r := perform (HApply t) in
  match r with
  | Ok stored => respond stored
  | Err err =>
      await lost := LostToDuplicate id err done in
      match lost with
      | Some current => respond current
      | None => refuse err
      end
  end.

(** ** validate.go: the delivery building *)

Definition building_error (message : string) : Failure :=
  FApp (mkAppError ValidationFailed [mkField "deliveryBuildingId" message]).

(** The first building with the ID decides. *)
Fixpoint find_building (bs : list Building) (id : string) : res Failure Building :=
  match bs with
  | [] => Err (building_error "must be an existing building")
  | b :: bs' =>
      if negb (EqualFold (b_ID b) id) then find_building bs' id
      else if b_Retired b then Err (building_error "must not be a retired building")
      else Ok b
  end.

Definition DeliveryBuilding (id : string) : hproc (res Failure Building) :=
  await r := perform HListBuildings in
  PRet (match r with Ok bs => find_building bs id | Err f => Err f end).
