(* ===== verification/ErrandActions.v ===== *)
(** * order-service: the errand action routes

    [internal/errand/accept], [internal/errand/courier] and
    [internal/errand/requester] (cancel, confirm and dispute): each handler
    reads the request, the errand and what the decision needs, asks [Next],
    and persists the transition with the store's compare-and-swap. *)

From S2P Require Import Prelude Proc GoText Json GoTime Sha Errand Settings ErrandState ErrandJson ErrandStore ErrandLists ErrandHttp.

(** ** What the three packages share *)

Definition no_input (reason : string) (deadlines : DeadlineSettings) : EventInput :=
  mkEventInput None reason false false deadlines "" false.

Definition no_deadlines : DeadlineSettings := mkDeadlineSettings 0 0 0 0.

Definition staleVersion : Failure := appFailure ErrandChanged.

Definition isStateConflict : list Code := [ErrandChanged; ErrandUnavailable; InvalidTransition].

(** The rejection event of a refusal with one of [codes], best effort, then the
    refusal. *)
Definition refuse_with (announce : option RejectedAction) (codes : list Code) (actor : ActorType)
    (errandID caller : string) (expectedVersion now : Z) (err : Failure) : hproc HReply :=
  match announce, err with
  | Some action, FApp e =>
      if has_code err codes then
        await_ perform (HRecordRejection (mkRejection errandID action (mkActor actor caller) (ae_Code e)
                         (RejectionRequestID caller expectedVersion) now));
        hfail err
      else hfail err
  | _, _ => hfail err
  end.

Definition read_body (reasoned : bool) (body : Body) : res Failure (Z * string) :=
  if reasoned then ReadReasonedAction body
  else match ReadVersionedAction body with Ok version => Ok (version, "") | Err err => Err err end.

(** ** accept/handler.go *)

(** The reply of [respond]. *)
Definition respond_courier (e : Errand) : hproc HReply :=
  await r := LoadPickups [e] in
  match r with Ok pickups => PRet (OkCourier e pickups) | Err err => hfail err end.

Definition acceptedByCaller (courier : string) (expectedVersion : Z) (e : Errand) : bool :=
  bool_decide (e_Status e = StatusAssigned) && bool_decide (e_CourierID e = courier)
  && (e_Version e =? expectedVersion + 1).

Definition eligibility (errandID courier : string) (now : Z) : hproc (res Failure EventInput) :=
  await s := perform HSettings in
  match s with
  | Err err => PRet (Err err)
  | Ok settings =>
      let rule := ss_WithdrawalRestriction settings in
      await h := perform (HCourierHistory errandID courier (now - wr_Window rule)) in
      PRet (match h with
            | Err err => Err err
            | Ok history =>
                Ok (mkEventInput None "" (ch_WithdrewFromErrand history)
                      (wr_Count rule <=? ch_WithdrawalsSince history) (ss_Deadlines settings) "" false)
            end)
  end.

Definition accept_refuse (id courier : string) (expectedVersion now : Z) (err : Failure) : hproc HReply :=
  refuse_with (Some RejectedAccept) [ErrandChanged; ErrandUnavailable] ActorCourier id courier expectedVersion now err.

(** From the errand read on. *)
Definition accept_errand (courier id : string) (expectedVersion : Z) (e : Errand) : hproc HReply :=
  if acceptedByCaller courier expectedVersion e then respond_courier e
  else
    await now := perform HNow in
    await elig := eligibility (e_ID e) courier now in
    match elig with
    | Err err => hfail err
    | Ok input =>
        match Next e EventAccept (mkActor ActorCourier courier) input now with
        | Err err => accept_refuse id courier expectedVersion now (FApp err)
        | Ok t =>
            if negb (e_Version e =? expectedVersion)
            then accept_refuse id courier expectedVersion now staleVersion
            else apply_or_duplicate id t (acceptedByCaller courier expectedVersion) respond_courier
                   (accept_refuse id courier expectedVersion now)
        end
    end.

Definition accept (rq : HRequest) : hproc HReply :=
  match Caller rq with
  | Err reply => PRet reply
  | Ok courier =>
      match ErrandID rq with
      | Err err => hfail err
      | Ok id =>
          match ReadVersionedAction (hq_Body rq) with
          | Err err => hfail err
          | Ok expectedVersion =>
              await r := perform (HGet id) in
              match r with
              | Err err => hfail err
              | Ok e => accept_errand courier id expectedVersion e
              end
          end
      end
  end.

(** ** courier/handler.go *)

Record CourierAction := mkCourierAction {
  ca_Event : Event;
  ca_Reasoned : bool;
  ca_NeedsDeadlines : bool;
  ca_Done : Errand → string → Z → bool;
  ca_Announce : option RejectedAction }.

Definition withdrawAction : CourierAction :=
  mkCourierAction EventWithdraw false false
    (λ e _ expectedVersion, (bool_decide (e_Status e = StatusOpen) || bool_decide (e_Status e = StatusExpired))
       && (e_Version e =? expectedVersion + 1))
    None.

Definition pickUpAction : CourierAction :=
  mkCourierAction EventPickUp false false
    (λ e caller expectedVersion, bool_decide (e_Status e = StatusPickedUp) && bool_decide (e_CourierID e = caller)
       && (e_Version e =? expectedVersion + 1))
    (Some RejectedPickup).

Definition deliverAction : CourierAction :=
  mkCourierAction EventDeliver false true
    (λ e caller expectedVersion, bool_decide (e_Status e = StatusDelivered) && bool_decide (e_CourierID e = caller)
       && (e_Version e =? expectedVersion + 1))
    None.

Definition reportIssueAction : CourierAction :=
  mkCourierAction EventReportIssue true false
    (λ e caller expectedVersion, bool_decide (e_Status e = StatusReviewRequired)
       && bool_decide (e_ReviewReason e = ReviewCourierIssue) && bool_decide (e_CourierID e = caller)
       && (e_Version e =? expectedVersion + 1))
    None.

Definition courier_refuse (a : CourierAction) (id caller : string) (expectedVersion now : Z) (err : Failure) :
    hproc HReply :=
  refuse_with (ca_Announce a) isStateConflict ActorCourier id caller expectedVersion now err.

(** [formerCourier] *)
Definition formerCourier (errandID courier : string) : hproc (res Failure bool) :=
  await r := perform (HCourierHistory errandID courier zero_time) in
  PRet (match r with Ok history => Ok (ch_WithdrewFromErrand history) | Err err => Err err end).

Definition notCourier (a : CourierAction) (e : Errand) (caller : string) (expectedVersion now : Z) : hproc HReply :=
  await r := formerCourier (e_ID e) caller in
  match r with
  | Err err => hfail err
  | Ok former =>
      if negb former then hfail (appFailure Forbidden)
      else if ca_Done a e caller expectedVersion then respond_courier e
      else courier_refuse a (e_ID e) caller expectedVersion now (appFailure ErrandUnavailable)
  end.

(** The input of [Next]; settings are read only when it needs deadlines. *)
Definition courier_input (a : CourierAction) (reason : string) : hproc (res Failure EventInput) :=
  if ca_NeedsDeadlines a then
    await s := perform HSettings in
    PRet (match s with Ok settings => Ok (no_input reason (ss_Deadlines settings)) | Err err => Err err end)
  else PRet (Ok (no_input reason no_deadlines)).

Definition courier_errand (a : CourierAction) (id caller : string) (expectedVersion : Z) (reason : string)
    (e : Errand) : hproc HReply :=
  await now := perform HNow in
  if negb (bool_decide (e_CourierID e = caller)) then notCourier a e caller expectedVersion now
  else if ca_Done a e caller expectedVersion then respond_courier e
  else
    await input := courier_input a reason in
    match input with
    | Err err => hfail err
    | Ok input =>
        match Next e (ca_Event a) (mkActor ActorCourier caller) input now with
        | Err err => courier_refuse a id caller expectedVersion now (FApp err)
        | Ok t =>
            if negb (e_Version e =? expectedVersion)
            then courier_refuse a id caller expectedVersion now staleVersion
            else
              await loaded := LoadPickups [e] in
              match loaded with
              | Err err => hfail err
              | Ok pickups =>
                  apply_or_duplicate id t (λ current, ca_Done a current caller expectedVersion)
                    (λ stored, PRet (OkCourier stored pickups)) (courier_refuse a id caller expectedVersion now)
              end
        end
    end.

(** [transition] *)
Definition courier_transition (a : CourierAction) (rq : HRequest) : hproc HReply :=
  match Caller rq with
  | Err reply => PRet reply
  | Ok caller =>
      match ErrandID rq with
      | Err err => hfail err
      | Ok id =>
          match read_body (ca_Reasoned a) (hq_Body rq) with
          | Err err => hfail err
          | Ok (expectedVersion, reason) =>
              await r := perform (HGet id) in
              match r with
              | Err err => hfail err
              | Ok e => courier_errand a id caller expectedVersion reason e
              end
          end
      end
  end.

Definition withdraw : HRequest → hproc HReply := courier_transition withdrawAction.
Definition pickUp : HRequest → hproc HReply := courier_transition pickUpAction.
Definition deliver : HRequest → hproc HReply := courier_transition deliverAction.
Definition reportIssue : HRequest → hproc HReply := courier_transition reportIssueAction.

(** ** requester/handler.go and requester/actions.go *)

Definition ownErrand (id caller : string) : hproc (res Failure Errand) :=
  await r := perform (HGet id) in
  PRet (match r with
        | Err err => Err err
        | Ok e => if negb (bool_decide (e_RequesterID e = caller)) then Err (appFailure Forbidden) else Ok e
        end).

(** [respondLoaded] *)
Definition respond_requester (e : Errand) : hproc HReply :=
  await r := LoadPickups [e] in
  match r with Ok pickups => PRet (RequesterReply 200 None e pickups) | Err err => hfail err end.

Record RequesterAction := mkRequesterAction {
  ra_Event : Event;
  ra_Reasoned : bool;
  ra_Done : Errand → Z → bool;
  ra_Announce : option RejectedAction }.

Definition cancelAction : RequesterAction :=
  mkRequesterAction EventCancel false
    (λ e expectedVersion, bool_decide (e_Status e = StatusCancelled) && (e_Version e =? expectedVersion + 1))
    (Some RejectedCancel).

Definition confirmAction : RequesterAction :=
  mkRequesterAction EventConfirm false (λ e _, bool_decide (e_Status e = StatusCompleted)) None.

Definition disputeAction : RequesterAction :=
  mkRequesterAction EventDispute true
    (λ e expectedVersion, bool_decide (e_Status e = StatusReviewRequired)
       && bool_decide (e_ReviewReason e = ReviewRequesterDispute) && (e_Version e =? expectedVersion + 1))
    None.

Definition requester_refuse (a : RequesterAction) (id caller : string) (expectedVersion now : Z) (err : Failure) :
    hproc HReply :=
  refuse_with (ra_Announce a) isStateConflict ActorRequester id caller expectedVersion now err.

Definition requester_errand (a : RequesterAction) (id caller : string) (expectedVersion : Z) (reason : string)
    (e : Errand) : hproc HReply :=
  if ra_Done a e expectedVersion then respond_requester e
  else
    await now := perform HNow in
    match Next e (ra_Event a) (mkActor ActorRequester caller) (no_input reason no_deadlines) now with
    | Err err => requester_refuse a id caller expectedVersion now (FApp err)
    | Ok t =>
        if negb (e_Version e =? expectedVersion) then requester_refuse a id caller expectedVersion now staleVersion
        else
          await loaded := LoadPickups [e] in
          match loaded with
          | Err err => hfail err
          | Ok pickups =>
              apply_or_duplicate id t (λ current, ra_Done a current expectedVersion)
                (λ stored, PRet (RequesterReply 200 None stored pickups)) (requester_refuse a id caller expectedVersion now)
          end
    end.

(** [transition] *)
Definition requester_transition (a : RequesterAction) (rq : HRequest) : hproc HReply :=
  match Caller rq with
  | Err reply => PRet reply
  | Ok caller =>
      match ErrandID rq with
      | Err err => hfail err
      | Ok id =>
          match read_body (ra_Reasoned a) (hq_Body rq) with
          | Err err => hfail err
          | Ok (expectedVersion, reason) =>
              await r := ownErrand id caller in
              match r with
              | Err err => hfail err
              | Ok e => requester_errand a id caller expectedVersion reason e
              end
          end
      end
  end.

Definition cancel : HRequest → hproc HReply := requester_transition cancelAction.
Definition confirm : HRequest → hproc HReply := requester_transition confirmAction.
Definition dispute : HRequest → hproc HReply := requester_transition disputeAction.
