(* ===== verification/ErrandForms.v ===== *)
(** * order-service: creating and editing errands

    [internal/errand/create] (the errand ID of an idempotency key, the body,
    the handler) and [internal/errand/requester/edit.go]. *)

From S2P Require Import Prelude Proc GoText Json GoTime Sha Errand Settings ErrandState ErrandJson ErrandStore ErrandLists ErrandHttp ErrandActions.

(** ** create/id.go *)

Definition errandNamespace : list Z :=
  [0x6f; 0x1c; 0x2b; 0x8e; 0x4d; 0x3a; 0x4c; 0x59; 0x9e; 0x0b; 0x2a; 0x7d; 0x5f; 0x8c; 0x1e; 0x43].

Definition text_of_bytes (bs : list Z) : string := String.string_of_list_ascii ((λ b, ascii_of_N (Z.to_N b)) <$> bs).

(** What the hash is written, in order. *)
Definition errandID_input (requesterID key : string) : string :=
  text_of_bytes errandNamespace +:+ requesterID +:+ String "000"%char key.

Definition errandID (requesterID key : string) : string :=
  let u := take 16 (sha1 (errandID_input requesterID key)) in
  let u := alter (λ b, Z.lor (Z.land b 0x0f) 0x50) 6%nat u in
  let u := alter (λ b, Z.lor (Z.land b 0x3f) 0x80) 8%nat u in
  hex_bytes (take 4 u) +:+ "-" +:+ hex_bytes (take 2 (drop 4 u)) +:+ "-" +:+ hex_bytes (take 2 (drop 6 u))
  +:+ "-" +:+ hex_bytes (take 2 (drop 8 u)) +:+ "-" +:+ hex_bytes (take 6 (drop 10 u)).

(** ** create/input.go *)

Record Input := mkInput {
  in_SupplierID : string; in_DeliveryBuildingID : string; in_DeliveryDetail : string; in_Items : option json;
  in_Notes : string; in_ContactName : string; in_ContactMobile : string; in_Reward : Z;
  in_AcceptanceDeadline : Z }.

(** [acceptanceDeadline] *)
Definition readAcceptanceDeadline (v : Validator) (name : string) (now : Z) : checked Z :=
  field! requested := vDateTime v name false in
  if negb requested.2 then cret zero_time
  else match AcceptanceDeadline requested.1 now with
       | Err e => (zero_time, ae_Fields e)
       | Ok deadline => cret deadline
       end.

Definition create_fields : list string :=
  ["supplierId"; "deliveryBuildingId"; "deliveryDetail"; "items"; "notes"; "contactName"; "contactMobile";
   "reward"; "acceptanceDeadline"].

Definition readInput (v : Validator) (now : Z) : checked Input :=
  field! supplier := vUUID v "supplierId" true in
  field! building := vUUID v "deliveryBuildingId" true in
  field! detail := vText v "deliveryDetail" true DeliveryDetailText in
  field! items := vItems v "items" true in
  field! notes := vText v "notes" false NotesText in
  field! name := vText v "contactName" true ContactNameText in
  field! mobile := vText v "contactMobile" true ContactMobileText in
  field! reward := vInteger v "reward" true 1 max_int32 "must be a positive integer" in
  field! deadline := readAcceptanceDeadline v "acceptanceDeadline" now in
  field! _known := OnlyKnown v create_fields in
  cret (mkInput supplier building detail items notes name mobile reward deadline).

Definition parseInput (body : option json) (now : Z) : res Failure Input :=
  match DecodeObject body with
  | Err err => Err err
  | Ok raw => verdict (readInput (NewValidator raw) now)
  end.

(** ** create/handler.go *)

Definition idempotencyKey (rq : HRequest) : res HReply string :=
  let key := hq_IdempotencyKey rq in
  if bool_decide (key = "") then Err (WriteError InvalidArgument)
  else if negb (uuid_pattern key) then Err (WriteError InvalidArgument)
  else Ok (to_lower key).

(** [respond] without the supplier versions at hand. *)
Definition respond_replay (e : Errand) : hproc HReply := respond_requester e.

Definition new_errand (id requester key : string) (in_ : Input) (version : SupplierVersion) (b : Building) : Errand :=
  mkErrand id StatusNone 0 requester ""
    (mkDetails (in_SupplierID in_) (sv_VersionID version) (in_DeliveryBuildingID in_) (Some (enc_building b))
       (in_DeliveryDetail in_) (in_Items in_) (in_Notes in_) (in_ContactName in_) (in_ContactMobile in_)
       (in_Reward in_) (in_AcceptanceDeadline in_))
    None None None None ReviewNone key None zero_time zero_time.

(** From the input read on. *)
Definition create_errand (id requester key : string) (now : Z) (in_ : Input) : hproc HReply :=
  await found := DeliveryBuilding (in_DeliveryBuildingID in_) in
  match found with
  | Err err => hfail err
  | Ok building =>
      await resolved := perform (HResolveForCreate (in_SupplierID in_) now) in
      match resolved with
      | Err err => hfail err
      | Ok version =>
          let e := new_errand id requester key in_ version building in
          match Next e EventSubmit (mkActor ActorRequester requester) (no_input "" no_deadlines) now with
          | Err err => hfail (FApp err)
          | Ok t =>
              await r := perform (HCreate e t) in
              match r with
              | Err err => hfail err
              | Ok (stored, created) =>
                  if negb created then respond_replay stored
                  else PRet (RequesterReply 202 (Some ("/errands/" +:+ e_ID stored)) stored
                               {[ sv_VersionID version := version ]})
              end
          end
      end
  end.

Definition create (rq : HRequest) : hproc HReply :=
  match Caller rq with
  | Err reply => PRet reply
  | Ok requester =>
      match idempotencyKey rq with
      | Err reply => PRet reply
      | Ok key =>
          let id := errandID requester key in
          await existing := perform (HGet id) in
          match existing with
          | Ok e =>
              if negb (bool_decide (e_RequesterID e = requester)) || negb (bool_decide (e_CreateIdempotencyKey e = key))
              then hfail (FPlain "errand does not belong to this request")
              else respond_replay e
          | Err err =>
              if negb (has_code err [ErrandNotFound]) then hfail err
              else match bd_Len (hq_Body rq) with
              | None => PRet (WriteError InvalidArgument)
              | Some n =>
                  if MaxErrandBodyBytes <? n then PRet (WriteError InvalidArgument)
                  else
                    await now := perform HNow in
                    match parseInput (bd_JSON (hq_Body rq)) now with
                    | Err err => hfail err
                    | Ok in_ => create_errand id requester key now in_
                    end
              end
          end
      end
  end.

(** ** requester/edit.go *)

Record editInput := mkEditInput {
  ei_expectedVersion : Z; ei_supplierID : option string; ei_deliveryBuildingID : option string;
  ei_deliveryDetail : option string; ei_items : option json; ei_notes : option string;
  ei_contactName : option string; ei_contactMobile : option string; ei_reward : option Z;
  ei_acceptanceDeadline : option Z }.

Definition editableFields : list string :=
  ["supplierId"; "deliveryBuildingId"; "deliveryDetail"; "items"; "notes"; "contactName"; "contactMobile";
   "reward"; "acceptanceDeadline"].

(** A member that is present is required to be valid; an absent one is nil. *)
Definition optional {A} (v : Validator) (name : string) (read : checked A) : checked (option A) :=
  if Has v name then field! a := read in cret (Some a) else cret None.

Definition readEdit (v : Validator) : checked editInput :=
  field! version := ExpectedVersion v in
  field! supplier := optional v "supplierId" (vUUID v "supplierId" true) in
  field! building := optional v "deliveryBuildingId" (vUUID v "deliveryBuildingId" true) in
  field! detail := optional v "deliveryDetail" (vText v "deliveryDetail" true DeliveryDetailText) in
  field! items := vItems v "items" false in
  field! notes := optional v "notes" (vText v "notes" true NotesText) in
  field! name := optional v "contactName" (vText v "contactName" true ContactNameText) in
  field! mobile := optional v "contactMobile" (vText v "contactMobile" true ContactMobileText) in
  field! reward := optional v "reward" (vInteger v "reward" true 1 max_int32 "must be a positive integer") in
  field! deadline := vDateTime v "acceptanceDeadline" false in
  field! _known := OnlyKnown v ("expectedVersion" :: editableFields) in
  cret (mkEditInput version supplier building detail items notes name mobile reward deadline.1).

Definition parseEdit (raw : gmap string json) : res Failure editInput :=
  let v := NewValidator raw in
  match verdict (readEdit v) with
  | Err err => Err err
  | Ok in_ => if existsb (Has v) editableFields then Ok in_ else Err (appFailure InvalidArgument)
  end.

(** [editInput.applyTo] *)
Definition edit_details (in_ : editInput) (d : Details) : Details :=
  mkDetails (default (d_SupplierID d) (ei_supplierID in_)) (d_SupplierVersionID d)
    (default (d_DeliveryBuildingID d) (ei_deliveryBuildingID in_)) (d_DeliveryBuildingSnapshot d)
    (default (d_DeliveryDetail d) (ei_deliveryDetail in_))
    (match ei_items in_ with Some items => Some items | None => d_Items d end)
    (default (d_Notes d) (ei_notes in_)) (default (d_ContactName d) (ei_contactName in_))
    (default (d_ContactMobile d) (ei_contactMobile in_)) (default (d_Reward d) (ei_reward in_))
    (default (d_AcceptanceDeadline d) (ei_acceptanceDeadline in_)).

Definition with_snapshot (snapshot : json) (d : Details) : Details :=
  mkDetails (d_SupplierID d) (d_SupplierVersionID d) (d_DeliveryBuildingID d) (Some snapshot) (d_DeliveryDetail d)
    (d_Items d) (d_Notes d) (d_ContactName d) (d_ContactMobile d) (d_Reward d) (d_AcceptanceDeadline d).
Definition with_supplier_version (version : string) (d : Details) : Details :=
  mkDetails (d_SupplierID d) version (d_DeliveryBuildingID d) (d_DeliveryBuildingSnapshot d) (d_DeliveryDetail d)
    (d_Items d) (d_Notes d) (d_ContactName d) (d_ContactMobile d) (d_Reward d) (d_AcceptanceDeadline d).

Definition resolve_building (current edited : Details) : hproc (res Failure Details) :=
  if EqualFold (d_DeliveryBuildingID edited) (d_DeliveryBuildingID current) then PRet (Ok edited)
  else
    await b := DeliveryBuilding (d_DeliveryBuildingID edited) in
    PRet (match b with Ok b => Ok (with_snapshot (enc_building b) edited) | Err err => Err err end).

Definition resolve (current edited : Details) (now : Z) : hproc (res Failure Details) :=
  await r := resolve_building current edited in
  match r with
  | Err err => PRet (Err err)
  | Ok edited =>
      if EqualFold (d_SupplierID edited) (d_SupplierID current) then PRet (Ok edited)
      else
        await v := perform (HResolveForCreate (d_SupplierID edited) now) in
        PRet (match v with Ok v => Ok (with_supplier_version (sv_VersionID v) edited) | Err err => Err err end)
  end.

Definition edit_input (d : Details) : EventInput := mkEventInput (Some d) "" false false no_deadlines "" false.

(** From the details resolved on. *)
Definition edit_apply (e : Errand) (actor : Actor) (now : Z) (edited : Details) : hproc HReply :=
  match Next e EventEdit actor (edit_input edited) now with
  | Err err => hfail (FApp err)
  | Ok t =>
      await loaded := LoadPickups [ApplyTo t e] in
      match loaded with
      | Err err => hfail err
      | Ok pickups =>
          await r := perform (HApply t) in
          match r with
          | Err err => hfail err
          | Ok stored =>
              PRet (RequesterReply (match e_PendingEdit stored with Some _ => 202 | None => 200 end) None stored pickups)
          end
      end
  end.

Definition edit_errand (caller : string) (in_ : editInput) (e : Errand) : hproc HReply :=
  await now := perform HNow in
  let actor := mkActor ActorRequester caller in
  let edited := edit_details in_ (e_Details e) in
  match Next e EventEdit actor (edit_input edited) now with
  | Err err => hfail (FApp err)
  | Ok _ =>
      if negb (e_Version e =? ei_expectedVersion in_) then hfail staleVersion
      else
        await r := resolve (e_Details e) edited now in
        match r with
        | Err err => hfail err
        | Ok edited => edit_apply e actor now edited
        end
  end.

Definition edit (rq : HRequest) : hproc HReply :=
  match Caller rq with
  | Err reply => PRet reply
  | Ok caller =>
      match ErrandID rq with
      | Err err => hfail err
      | Ok id =>
          match ReadObject (hq_Body rq) MaxErrandBodyBytes with
          | Err err => hfail err
          | Ok raw =>
              match parseEdit raw with
              | Err err => hfail err
              | Ok in_ =>
                  await r := ownErrand id caller in
                  match r with
                  | Err err => hfail err
                  | Ok e => edit_errand caller in_ e
                  end
              end
          end
      end
  end.
