(* ===== verification/ErrandReads.v ===== *)
(** * order-service: the errand read routes

    [internal/errand/browse] (one errand, and the list of open errands) and
    [internal/errand/mine] (a user's own lists). *)

From Stdlib Require Import SpecFloat.
From S2P Require Import Prelude Proc Keyset GoText Json GoTime Sha Errand Settings ErrandJson ErrandStore ErrandLists ErrandHttp.

(** ** Query parameters *)

Definition qHas (q : Query) (name : string) : bool := existsb (λ kv, bool_decide (kv.1 = name)) (qy_Values q).

(** [values.Get]: the first value, or [""]. *)
Fixpoint first_value (name : string) (kvs : list (string * string)) : string :=
  match kvs with
  | [] => ""
  | (k, v) :: kvs' => if bool_decide (k = name) then v else first_value name kvs'
  end.
Definition qGet (q : Query) (name : string) : string := first_value name (qy_Values q).

(** [strconv.Atoi] *)
Fixpoint digits (s : string) (acc : Z) : option Z :=
  match s with
  | EmptyString => Some acc
  | String c s' => match digit_val c with Some d => digits s' (10 * acc + d) | None => None end
  end.

Definition Atoi (s : string) : option Z :=
  let num s := match s with EmptyString => None | _ => digits s 0 end in
  let r := match s with
           | String "-" s' => Z.opp <$> num s'
           | String "+" s' => num s'
           | _ => num s
           end in
  match r with Some n => if in_int64b n then Some n else None | None => None end.

Definition DefaultPageSize : Z := 25.
Definition MaxPageSize : Z := 100.
Definition maxCursorLength : Z := 512.

Definition parse_limit (q : Query) : res Failure Z :=
  if qHas q "limit" then
    match Atoi (qGet q "limit") with
    | Some limit => if (limit <? 1) || (MaxPageSize <? limit) then Err (appFailure InvalidArgument) else Ok limit
    | None => Err (appFailure InvalidArgument)
    end
  else Ok DefaultPageSize.

(** The JSON value of a cursor of acceptable length. *)
Definition cursor_json (t : Token) : option json :=
  if (tk_Len t =? 0) || (maxCursorLength <? tk_Len t) then None else tk_JSON t.

(** ** mine/query.go *)

Definition encodeCursor (name : string) (after : UserListCursor) : option json :=
  match format_rfc3339 (ucr_At after) with
  | Some at_ => Some (JObj [("l", JStr name); ("t", JStr at_); ("i", JStr (ucr_ID after))])
  | None => None
  end.

Definition decodeCursor (t : Token) (name : string) : option UserListCursor :=
  obind (cursor_json t) (λ v,
  obind (members v) (λ ms,
  obind (dec_field dec_string "l" ms "") (λ list_,
  obind (dec_field dec_time "t" ms zero_time) (λ at_,
  obind (dec_field dec_string "i" ms "") (λ id,
    if negb (bool_decide (list_ = name)) || IsZero at_ || negb (uuid_pattern id) then None
    else Some (mkUserListCursor at_ (to_lower id))))))).

Definition parseQuery (q : Query) (name : string) : res Failure UserListQuery :=
  match parse_limit q with
  | Err err => Err err
  | Ok limit =>
      match qy_Cursor q with
      | None => Ok (mkUserListQuery "" HistoryAny None limit)
      | Some t =>
          match decodeCursor t name with
          | Some after => Ok (mkUserListQuery "" HistoryAny (Some after) limit)
          | None => Err (appFailure InvalidArgument)
          end
      end
  end.

Definition parseRole (q : Query) : res Failure HistoryRole :=
  if negb (qHas q "role") then Ok HistoryAny
  else
    let role := qGet q "role" in
    if bool_decide (role = HistoryRequester) || bool_decide (role = HistoryCourier) then Ok role
    else Err (appFailure InvalidArgument).

(** ** mine/handler.go *)

Record MyList := mkMyList {
  ml_name : string; ml_role : HistoryRole; ml_load : UserList; ml_view : Errand → string → Pickups → Item }.

Definition requestedList : MyList :=
  mkMyList "requested" HistoryAny RequestedList (λ e _ pickups, IRequester (RequesterView e pickups)).
Definition deliveringList : MyList :=
  mkMyList "delivering" HistoryAny DeliveringList (λ e _ pickups, ICourier (CourierView e pickups)).
Definition historyList : MyList :=
  mkMyList "history" HistoryAny HistoryList (λ e caller pickups,
    if bool_decide (e_RequesterID e = caller) then IRequester (RequesterView e pickups)
    else ICourier (CourierView e pickups)).
Definition requesterHistoryList : MyList :=
  mkMyList "history:REQUESTER" HistoryRequester HistoryList (ml_view requestedList).
Definition courierHistoryList : MyList :=
  mkMyList "history:COURIER" HistoryCourier HistoryList (ml_view deliveringList).

(** [list] *)
Definition list_mine (l : MyList) (rq : HRequest) : hproc HReply :=
  match Caller rq with
  | Err reply => PRet reply
  | Ok caller =>
      match parseQuery (hq_Query rq) (ml_name l) with
      | Err err => hfail err
      | Ok q =>
          await r := perform (HListUser (ml_load l)
                       (mkUserListQuery caller (ml_role l) (ulq_After q) (ulq_Limit q))) in
          match r with
          | Err err => hfail err
          | Ok p =>
              await loaded := LoadPickups (pg_Items p) in
              match loaded with
              | Err err => hfail err
              | Ok pickups =>
                  PRet (mkHReply 200 None
                    (BPage ((λ e, ml_view l e caller pickups) <$> pg_Items p)
                       (match pg_Next p with Some c => encodeCursor (ml_name l) c | None => None end)))
              end
          end
      end
  end.

Definition requested : HRequest → hproc HReply := list_mine requestedList.
Definition delivering : HRequest → hproc HReply := list_mine deliveringList.
Definition history (rq : HRequest) : hproc HReply :=
  match parseRole (hq_Query rq) with
  | Err err => hfail err
  | Ok role =>
      if bool_decide (role = HistoryRequester) then list_mine requesterHistoryList rq
      else if bool_decide (role = HistoryCourier) then list_mine courierHistoryList rq
      else list_mine historyList rq
  end.

(** ** browse/handler.go: one errand *)

Definition get_errand (rq : HRequest) : hproc HReply :=
  match Caller rq with
  | Err reply => PRet reply
  | Ok caller =>
      match ErrandID rq with
      | Err err => hfail err
      | Ok id =>
          await r := perform (HGet id) in
          match r with
          | Err err => hfail err
          | Ok e =>
              let isRequester := bool_decide (caller = e_RequesterID e) in
              let isCourier := negb (bool_decide (e_CourierID e = "")) && bool_decide (caller = e_CourierID e) in
              if negb isRequester && negb isCourier && negb (bool_decide (e_Status e = StatusOpen))
              then PRet (WriteError ErrandNotFound)
              else
                await loaded := LoadPickups [e] in
                match loaded with
                | Err err => hfail err
                | Ok pickups =>
                    PRet (mkHReply 200 None
                      (if isRequester then BRequester (RequesterView e pickups)
                       else if isCourier then BCourier (CourierView e pickups)
                       else BPublic (PublicView e pickups)))
                end
          end
      end
  end.

(** ** browse/list.go *)

(** Package [math] and [strconv] on floats; [enc_float] and [dec_float] are the
    JSON of a float. *)
Class GoFloat := {
  ParseFloat : string → option spec_float;
  FormatFloat : spec_float → string;
  enc_float : spec_float → json;
  dec_float : json → option spec_float;
  math_Sin : spec_float → spec_float;
  math_Cos : spec_float → spec_float;
  math_Asin : spec_float → spec_float }.

Definition f_zero : spec_float := S754_zero false.
Definition f_of (z : Z) : spec_float := binary_normalize 53 1024 z 0 false.
Definition f_Pi : spec_float := S754_finite false 7074237752028440 (-51).
Definition earthRadiusMeters : spec_float := S754_finite false 6840818609632051 (-30).

Definition fadd : spec_float → spec_float → spec_float := SFadd 53 1024.
Definition fsub : spec_float → spec_float → spec_float := SFsub 53 1024.
Definition fmul : spec_float → spec_float → spec_float := SFmul 53 1024.
Definition fdiv : spec_float → spec_float → spec_float := SFdiv 53 1024.
Definition fsqrt : spec_float → spec_float := SFsqrt 53 1024.

(** [cmp.Compare]: a NaN equals a NaN and is less than any number. *)
Definition fcompare (a b : spec_float) : comparison :=
  match SFcompare a b with
  | Some c => c
  | None => match a, b with
            | S754_nan, S754_nan => Eq
            | S754_nan, _ => Lt
            | _, _ => Gt
            end
  end.

Definition math_Min1 (b : spec_float) : spec_float :=
  match b with S754_nan => S754_nan | _ => if SFltb b (f_of 1) then b else f_of 1 end.

Section browse.
Context `{GoFloat}.

Record point := mkPoint { p_lat : spec_float; p_lng : spec_float }.

Definition distance (a b : point) : spec_float :=
  let rad deg := fdiv (fmul deg f_Pi) (f_of 180) in
  let dLat := rad (fsub (p_lat b) (p_lat a)) in
  let dLng := rad (fsub (p_lng b) (p_lng a)) in
  let half x := fdiv x (f_of 2) in
  let sq x := fmul x x in
  let h := fadd (sq (math_Sin (half dLat)))
             (fmul (fmul (fmul (math_Cos (rad (p_lat a))) (math_Cos (rad (p_lat b)))) (math_Sin (half dLng)))
                (math_Sin (half dLng))) in
  fmul (fmul (f_of 2) earthRadiusMeters) (math_Asin (math_Min1 (fsqrt h))).

Record position := mkPosition { ps_Distance : spec_float; ps_Deadline : Z; ps_ID : string }.

Definition comparePositions (a b : position) : comparison :=
  match fcompare (ps_Distance a) (ps_Distance b) with
  | Eq => match ps_Deadline a ?= ps_Deadline b with
          | Eq => String.compare (ps_ID a) (ps_ID b)
          | c => c
          end
  | c => c
  end.

Record listQuery := mkListQuery {
  lq_supplierID : string; lq_at : option point; lq_limit : Z; lq_after : option position }.

Definition coordinate (s : string) (limit : Z) : option spec_float :=
  match ParseFloat s with
  | Some (S754_nan | S754_infinity _) | None => None
  | Some v => if SFltb v (f_of (- limit)) || SFltb (f_of limit) v then None else Some v
  end.

(** The digest that binds a cursor to the filters. *)
Definition filters (supplierID : string) (at_ : option point) : string :=
  let zero := String "000"%char "" in
  let text := supplierID +:+ match at_ with
                             | Some p => zero +:+ FormatFloat (p_lat p) +:+ zero +:+ FormatFloat (p_lng p)
                             | None => ""
                             end in
  hex_bytes (take 8 (sha256 text)).

(** A zero distance is omitted. *)
Definition encode_position (fs : string) (after : position) : option json :=
  match format_rfc3339 (ps_Deadline after) with
  | Some d =>
      Some (JObj [("f", JStr fs);
        ("a", JObj ((match ps_Distance after with S754_zero _ => [] | m => [("m", enc_float m)] end)
               ++ [("d", JStr d); ("i", JStr (ps_ID after))]))])
  | None => None
  end.

Definition dec_distance (acc : spec_float) (v : json) : option spec_float :=
  match v with JNull => Some acc | _ => dec_float v end.

Definition dec_position (acc : position) (v : json) : option position :=
  match v with
  | JNull => Some acc
  | _ =>
      obind (members v) (λ ms,
      obind (dec_field dec_distance "m" ms (ps_Distance acc)) (λ m,
      obind (dec_field dec_time "d" ms (ps_Deadline acc)) (λ d,
      obind (dec_field dec_string "i" ms (ps_ID acc)) (λ i, Some (mkPosition m d i)))))
  end.

Definition decode_position (t : Token) (fs : string) : option position :=
  obind (cursor_json t) (λ v,
  obind (members v) (λ ms,
  obind (dec_field dec_string "f" ms "") (λ f,
  obind (dec_field dec_position "a" ms (mkPosition f_zero zero_time "")) (λ after,
    if negb (bool_decide (f = fs)) || bool_decide (ps_ID after = "") || IsZero (ps_Deadline after)
       || SFltb (ps_Distance after) f_zero
    then None else Some after)))).

Definition parse_point (q : Query) : res Failure (option point) :=
  let lat := qHas q "lat" in
  if negb (Bool.eqb lat (qHas q "lng")) then Err (appFailure InvalidArgument)
  else if lat then
    match coordinate (qGet q "lat") 90, coordinate (qGet q "lng") 180 with
    | Some lat, Some lng => Ok (Some (mkPoint lat lng))
    | _, _ => Err (appFailure InvalidArgument)
    end
  else Ok None.

Definition parseListQuery (q : Query) : res Failure listQuery :=
  let supplier := qGet q "supplierId" in
  if qHas q "supplierId" && negb (uuid_pattern supplier) then Err (appFailure InvalidArgument)
  else
    let supplierID := if qHas q "supplierId" then to_lower supplier else "" in
    match parse_point q with
    | Err err => Err err
    | Ok at_ =>
        match parse_limit q with
        | Err err => Err err
        | Ok limit =>
            match qy_Cursor q with
            | None => Ok (mkListQuery supplierID at_ limit None)
            | Some t =>
                match decode_position t (filters supplierID at_) with
                | Some after => Ok (mkListQuery supplierID at_ limit (Some after))
                | None => Err (appFailure InvalidArgument)
                end
            end
        end
    end.

Definition groupWindow : Z := 15 * 60 * nsec.

(** [{supplierId}:{yyyy-MM-ddTHH:mmZ}] of the creation time truncated to the
    window; [Truncate] counts from the zero time. *)
Definition format_minute (t : Z) : string :=
  let s := t / nsec + unix_offset in
  let '(y, m, d) := date_of_days (s / 86400) in
  let sec := s mod 86400 in
  pad4 y (String "-" (pad2 m (String "-" (pad2 d (String "T"
    (pad2 (sec / 3600) (String ":" (pad2 (sec mod 3600 / 60) "Z")))))))).

Definition groupKey (v : OpenErrandView) : string :=
  ov_SupplierID v +:+ ":" +:+ format_minute (ov_CreatedAt v - (ov_CreatedAt v - zero_time) mod groupWindow).

Definition position_of (at_ : option point) (v : OpenErrandView) : position :=
  mkPosition (match at_ with
              | Some p => distance p (mkPoint (pk_Latitude (ov_Pickup v)) (pk_Longitude (ov_Pickup v)))
              | None => f_zero
              end) (ov_AcceptanceDeadline v) (ov_ErrandID v).

(** [comparePositions(a, b) <= 0] *)
Definition position_le (a b : position) : Prop := comparePositions a b ≠ Gt.
#[export] Instance position_le_dec : RelDecision position_le.
Proof. intros a b. unfold position_le. apply _. Defined.

(** What the filters keep of a view. *)
Definition listed_at (q : listQuery) (now : Z) (v : OpenErrandView) : bool :=
  (now <? ov_AcceptanceDeadline v)
  && (bool_decide (lq_supplierID q = "") || bool_decide (ov_SupplierID v = lq_supplierID q)).

(** [page] *)
Definition candidates (views : list OpenErrandView) (q : listQuery) (now : Z) : list OpenErrandView :=
  merge_sort (row_le position_le (position_of (lq_at q)))
    (List.filter (λ v, listed_at q now v && beyond position_le (position_of (lq_at q)) (lq_after q) v) views).

Definition open_item (at_ : option point) (v : OpenErrandView) : openItem :=
  mkOpenItem (OpenFieldsOf v) (groupKey v)
    (match at_ with Some _ => Some (ps_Distance (position_of at_ v)) | None => None end).

Definition open_page (views : list OpenErrandView) (q : listQuery) (now : Z) : list openItem * option json :=
  let cs := candidates views q now in
  let limit := Z.to_nat (lq_limit q) in
  (open_item (lq_at q) <$> take limit cs,
   if (limit <? length cs)%nat
   then match cs !! (limit - 1)%nat with
        | Some v => encode_position (filters (lq_supplierID q) (lq_at q)) (position_of (lq_at q) v)
        | None => None
        end
   else None).

(** ** browse/openset.go *)

Definition OpenSetTTL : Z := 2 * nsec.

(** Every page of the open errands; [fuel] bounds the pages read. *)
Fixpoint load_open (fuel : nat) (now : Z) (after : option OpenCursor) : hproc (res Failure (list Errand)) :=
  match fuel with
  | O => PRet (Err (FPlain "out of fuel"))
  | S fuel' =>
      await r := perform (HListOpen (mkOpenQuery now "" after MaxListLimit)) in
      match r with
      | Err err => PRet (Err err)
      | Ok p =>
          match pg_Next p with
          | None => PRet (Ok (pg_Items p))
          | Some c =>
              await rest := load_open fuel' now (Some c) in
              PRet (match rest with Ok es => Ok (pg_Items p ++ es) | Err err => Err err end)
          end
      end
  end.

(** Each errand's view with its supplier version; an errand of an unknown
    version is left out. *)
Fixpoint project_open (es : list Errand) (versions : Pickups) (unknown : list string) :
    hproc (res Failure (list OpenErrandView)) :=
  match es with
  | [] => PRet (Ok [])
  | e :: es' =>
      let id := d_SupplierVersionID (e_Details e) in
      let show v versions unknown :=
        await rest := project_open es' versions unknown in
        PRet (match rest with Ok views => Ok (OpenViewOf e v :: views) | Err err => Err err end) in
      if existsb (λ u, bool_decide (u = id)) unknown then project_open es' versions unknown
      else match versions !! id with
      | Some v => show v versions unknown
      | None =>
          await r := perform (HGetVersion id) in
          match r with
          | Ok v => show v (<[id := v]> versions) unknown
          | Err err =>
              if negb (has_code err [SupplierUnavailable]) then PRet (Err err)
              else project_open es' versions (id :: unknown)
          end
      end
  end.

(** [load] *)
Definition load_set (fuel : nat) : hproc (res Failure (list OpenErrandView)) :=
  await now := perform HNow in
  await r := load_open fuel now None in
  match r with
  | Err err => PRet (Err err)
  | Ok es => project_open es ∅ []
  end.

(** [openSet.get] *)
Definition open_set (fuel : nat) : hproc (res Failure (list OpenErrandView)) :=
  await hit := perform HCacheGet in
  match hit with
  | Some views => PRet (Ok views)
  | None =>
      await shared := perform HShared in
      match shared with
      | Some r => PRet r
      | None =>
          await r := load_set fuel in
          match r with
          | Err err => PRet (Err err)
          | Ok views => await_ perform (HCacheSet views OpenSetTTL); PRet (Ok views)
          end
      end
  end.

(** [GET /errands/open] *)
Definition list_open (fuel : nat) (rq : HRequest) : hproc HReply :=
  match Caller rq with
  | Err reply => PRet reply
  | Ok _ =>
      match parseListQuery (hq_Query rq) with
      | Err err => hfail err
      | Ok q =>
          await r := open_set fuel in
          match r with
          | Err err => hfail err
          | Ok views =>
              await now := perform HNow in
              let '(items, next) := open_page views q now in
              PRet (mkHReply 200 None (BOpenPage items next))
          end
      end
  end.

End browse.
