(* ===== verification/Review.v ===== *)
(** * order-service: the review routes

    [internal/review]: the queue of open reviews and their resolution by an
    administrator ([service.go], [handler.go], the queue's part of
    [cursor.go]), as programs over the store, opsrepo and supplier-service.
    Logging is left out. *)

From Stdlib Require Import SpecFloat.
From S2P Require Import Prelude Proc Keyset GoText Json GoTime Errand Settings ErrandState ErrandJson ErrandStore OpsRepo ErrandLists ErrandHttp ErrandActions ErrandReads.

(** ** service.go *)

Inductive Outcome := OutcomeCompleted | OutcomeRefunded | OutcomeOther (s : string).
#[export] Instance Outcome_eq_dec : EqDecision Outcome.
Proof. solve_decision. Defined.

(** [event] *)
Definition outcome_event (o : Outcome) : option Event :=
  match o with
  | OutcomeCompleted => Some EventAdminComplete
  | OutcomeRefunded => Some EventAdminRefund
  | OutcomeOther _ => None
  end.

Record Resolution := mkResolution { rs_Outcome : Outcome; rs_Reason : string; rs_ExpectedVersion : Z }.

(** [Resolution] is [StatusNone] while the review is open. *)
Record Review := mkReview {
  rw_Reason : ReviewReason; rw_ReporterID : string; rw_Note : string; rw_CreatedAt : Z;
  rw_Resolution : Status; rw_ResolverID : string; rw_ResolutionReason : string; rw_ResolvedAt : option Z }.

Record AdminErrand := mkAdminErrand { ad_Errand : Errand; ad_Pickup : SupplierVersion; ad_Review : Review }.

(** [Reason] is [ReviewNone] for every reason, [After] 0 for the first page. *)
Record ListQuery := mkListQuery { lq_Reason : ReviewReason; lq_After : Z; lq_Limit : Z }.

Record ReviewPage := mkReviewPage { rp_Items : list AdminErrand; rp_Next : Z }.

Definition AuditTargetType : string := "errand".
Definition auditAction (o : Outcome) : string :=
  if bool_decide (o = OutcomeCompleted) then "errand_review.complete" else "errand_review.refund".

Definition openReview (open : OpenReviewRow) : Review :=
  mkReview (orv_Reason open) (orv_ReporterID open) (orv_Note open) (orv_CreatedAt open) StatusNone "" "" None.

(** [fmt.Errorf(what + ": %w", err)]: [errors.As] still finds an application
    error. *)
Definition wrapped (what : string) (err : Failure) : Failure :=
  match err with FApp e => FApp e | FPlain _ => FPlain what end.

(** [pickup] *)
Definition review_pickup (e : Errand) : hproc (res Failure SupplierVersion) :=
  await r := perform (HGetVersion (d_SupplierVersionID (e_Details e))) in
  PRet (match r with
        | Ok v => Ok v
        | Err err => if has_code err [DependencyUnavailable] then Err err
                     else Err (wrapped "read supplier version of errand" err)
        end).

(** The answer is the error whether or not the audit row was written. *)
Definition review_refuse (adminID action errandID : string) (err : Failure) : hproc (res Failure AdminErrand) :=
  match code_of err with
  | None => PRet (Err err)
  | Some code =>
      await _audited := perform (HAudit (mkAuditRow adminID action AuditTargetType errandID
                                          (text (Code_string code)) AuditRejected)) in
      PRet (Err err)
  end.

(** The first row for the errand, or the last row's ID. *)
Fixpoint find_row (errandID : string) (batch : list OpenReviewRow) (after : Z) : OpenReviewRow + Z :=
  match batch with
  | [] => inr after
  | open :: batch' =>
      if bool_decide (orv_ErrandID open = errandID) then inl open else find_row errandID batch' (orv_ID open)
  end.

Fixpoint find_open (fuel : nat) (errandID : string) (after : Z) : hproc (res Failure OpenReviewRow) :=
  match fuel with
  | O => PRet (Err (FPlain "out of fuel"))
  | S fuel =>
      await r := perform (HOpenReviews after OpsRepo.MaxPageSize) in
      match r with
      | Err err => PRet (Err (wrapped "list open reviews" err))
      | Ok batch =>
          match find_row errandID batch after with
          | inl open => PRet (Ok open)
          | inr after' =>
              if (length batch <? Z.to_nat OpsRepo.MaxPageSize)%nat
              then PRet (Err (appFailure ErrandUnavailable))
              else find_open fuel errandID after'
          end
      end
  end.

Definition findOpenReview (fuel : nat) (errandID : string) : hproc (res Failure OpenReviewRow) :=
  find_open fuel errandID 0.

Definition resolved_review (open : OpenReviewRow) (stored : Errand) (adminID reason : string) (at_ : Z) : Review :=
  mkReview (orv_Reason open) (orv_ReporterID open) (orv_Note open) (orv_CreatedAt open) (e_Status stored) adminID reason
    (Some at_).

(** [Resolve] from the errand read on. *)
Definition resolve_errand (fuel : nat) (adminID errandID : string) (rs : Resolution) (event : Event)
    (current : Errand) : hproc (res Failure AdminErrand) :=
  let action := auditAction (rs_Outcome rs) in
  let refuse := review_refuse adminID action errandID in
  await now := perform HNow in
  match Next current event (mkActor ActorAdmin adminID) (no_input (rs_Reason rs) no_deadlines) now with
  | Err err => refuse (FApp err)
  | Ok transition =>
      if negb (e_Version current =? rs_ExpectedVersion rs) then refuse (appFailure ErrandChanged)
      else
        await found := findOpenReview fuel errandID in
        match found with
        | Err err => refuse err
        | Ok open =>
            await pickup := review_pickup current in
            match pickup with
            | Err err => refuse err
            | Ok pickup =>
                await applied := perform (HApply transition) in
                match applied with
                | Err err => refuse err
                | Ok stored =>
                    await _audited := perform (HAudit (mkAuditRow adminID action AuditTargetType errandID
                                                        (text (rs_Reason rs)) AuditSucceeded)) in
                    PRet (Ok (mkAdminErrand stored pickup
                                (resolved_review open stored adminID (rs_Reason rs) (t_At transition))))
                end
            end
        end
  end.

Definition Resolve (fuel : nat) (adminID errandID : string) (rs : Resolution) : hproc (res Failure AdminErrand) :=
  match outcome_event (rs_Outcome rs) with
  | None => PRet (Err (FApp (mkAppError ValidationFailed [mkField "outcome" "must be COMPLETED or REFUNDED"])))
  | Some event =>
      await r := perform (HGet errandID) in
      match r with
      | Err err => review_refuse adminID (auditAction (rs_Outcome rs)) errandID err
      | Ok current => resolve_errand fuel adminID errandID rs event current
      end
  end.

(** [listItem]: the item, or [None] when the errand has left the queue. *)
Definition listItem (open : OpenReviewRow) (versions : Pickups) : hproc (res Failure (option AdminErrand * Pickups)) :=
  await r := perform (HGet (orv_ErrandID open)) in
  match r with
  | Err err => PRet (Err (wrapped "read errand" err))
  | Ok current =>
      if negb (bool_decide (e_Status current = StatusReviewRequired)) then PRet (Ok (None, versions))
      else
        let versionID := d_SupplierVersionID (e_Details current) in
        match versions !! versionID with
        | Some pickup => PRet (Ok (Some (mkAdminErrand current pickup (openReview open)), versions))
        | None =>
            await r := review_pickup current in
            match r with
            | Err err => PRet (Err err)
            | Ok pickup =>
                PRet (Ok (Some (mkAdminErrand current pickup (openReview open)), <[versionID := pickup]> versions))
            end
        end
  end.

(** Where [List] stands: the page, its last review, the last row read. *)
Record Cut := mkCut { ct_Items : list AdminErrand; ct_Last : Z; ct_After : Z; ct_Versions : Pickups }.

(** One batch: the finished page, or where to go on. *)
Fixpoint list_batch (q : ListQuery) (batch : list OpenReviewRow) (c : Cut) : hproc (res Failure (ReviewPage + Cut)) :=
  match batch with
  | [] => PRet (Ok (inr c))
  | open :: batch' =>
      let c := mkCut (ct_Items c) (ct_Last c) (orv_ID open) (ct_Versions c) in
      if negb (bool_decide (lq_Reason q = ReviewNone)) && negb (bool_decide (orv_Reason open = lq_Reason q))
      then list_batch q batch' c
      else if Z.of_nat (length (ct_Items c)) =? lq_Limit q then PRet (Ok (inl (mkReviewPage (ct_Items c) (ct_Last c))))
      else
        await r := listItem open (ct_Versions c) in
        match r with
        | Err err => PRet (Err err)
        | Ok (Some item, versions) =>
            list_batch q batch' (mkCut (ct_Items c ++ [item]) (orv_ID open) (ct_After c) versions)
        | Ok (None, versions) => list_batch q batch' (mkCut (ct_Items c) (ct_Last c) (ct_After c) versions)
        end
  end.

Fixpoint list_reviews (fuel : nat) (q : ListQuery) (c : Cut) : hproc (res Failure ReviewPage) :=
  match fuel with
  | O => PRet (Err (FPlain "out of fuel"))
  | S fuel =>
      let batchSize := lq_Limit q + 1 in
      await r := perform (HOpenReviews (ct_After c) batchSize) in
      match r with
      | Err err => PRet (Err (wrapped "list open reviews" err))
      | Ok batch =>
          await r := list_batch q batch c in
          match r with
          | Err err => PRet (Err err)
          | Ok (inl page) => PRet (Ok page)
          | Ok (inr c') =>
              if Z.of_nat (length batch) <? batchSize then PRet (Ok (mkReviewPage (ct_Items c') 0))
              else list_reviews fuel q c'
          end
      end
  end.

Definition List_ (fuel : nat) (q : ListQuery) : hproc (res Failure ReviewPage) :=
  if (lq_Limit q <? 1) || (MaxPageSize <? lq_Limit q) then PRet (Err (appFailure InvalidArgument))
  else list_reviews fuel q (mkCut [] 0 (lq_After q) ∅).

(** ** handler.go *)

Definition maxReasonLength : Z := 500.

(** An administrator's request: [aq_Body] is what the JSON decoder reads from
    the body, when it is one value within [maxBodyBytes]. *)
Record ARequest := mkARequest {
  aq_Principal : option string; aq_ErrandID : string; aq_Body : option json; aq_Query : Query }.

Record AdminView := mkAdminView {
  av_Fields : Fields; av_RequesterID : string; av_CourierID : string;
  av_Review : Review }.

(** [transitionResponse]: the courier is no part of it. *)
Record TransitionResponse := mkTransitionResponse {
  tn_ID : Z; tn_ErrandID : string; tn_FromStatus : Status; tn_ToStatus : Status; tn_Event : Event;
  tn_ActorType : ActorType; tn_ActorID : string; tn_Reason : string; tn_ErrandVersion : Z; tn_At : Z }.

(** [flagResponse]: the window in seconds. *)
Record FlagResponse := mkFlagResponse {
  fr_UserID : string; fr_Kind : string; fr_Count : Z; fr_Threshold : Z; fr_Window : Z; fr_Since : Z; fr_Summary : string }.

(** [settingsBody]: durations in whole seconds. *)
Record SettingsBody := mkSettingsBody {
  sb_PickupAfter : Z; sb_DeliveryAfter : Z; sb_VerificationAfter : Z; sb_VerificationReminderAfter : Z;
  sb_WithdrawalRestriction : Z * Z * Z; sb_CancellationFlag : Z * Z;
  sb_ReservationTimeout : Z; sb_EditTimeout : Z; sb_OutboxConfirmTimeout : Z }.

Inductive ABody :=
| AError (code : Code) (fields : list Field)
| AErrand (v : AdminView)
| AQueue (items : list AdminView) (next : option json)
| AEvents (items : list TransitionResponse) (next : option json)
| AFlags (items : list FlagResponse)
| ASettings (s : SettingsBody).

Record AReply := mkAReply { ap_Status : Z; ap_Body : ABody }.

Definition a_error (code : Code) : AReply := mkAReply (HTTPStatus code) (AError code []).
Definition a_invalid (fields : list Field) : AReply := mkAReply (HTTPStatus ValidationFailed) (AError ValidationFailed fields).

(** [fail] *)
Definition a_fail (f : Failure) : AReply :=
  match f with
  | FApp e => if bool_decide (ae_Code e = ValidationFailed) then a_invalid (ae_Fields e) else a_error (ae_Code e)
  | FPlain _ => a_error Internal
  end.

(** [adminErrandBody] *)
Definition adminErrandBody (item : AdminErrand) : AdminView :=
  let e := ad_Errand item in
  mkAdminView (FieldsOf e (ad_Pickup item)) (e_RequesterID e) (e_CourierID e) (ad_Review item).

Definition adminID (principal : option string) : res AReply string :=
  match principal with
  | Some subject => if bool_decide (subject = "") then Err (a_error Unauthenticated) else Ok subject
  | None => Err (a_error Unauthenticated)
  end.

(** [resolveRequest]; a pointer left nil is [None]. *)
Record resolveRequest := mkResolveRequest {
  rq_Outcome : option string; rq_Reason : option string; rq_ExpectedVersion : option Z }.

(** A member of a wrong type or an unknown one does not stop the decoder; the
    first is the error. *)
Fixpoint resolve_members (ms : list (string * json)) (acc : resolveRequest) (bad : option Field) :
    resolveRequest * option Field :=
  match ms with
  | [] => (acc, bad)
  | (key, v) :: ms' =>
      let go acc err := resolve_members ms' acc (match bad with Some _ => bad | None => err end) in
      let '(mkResolveRequest o r e) := acc in
      if key_matches "outcome" key then
        match v with
        | JStr s => go (mkResolveRequest (Some s) r e) None
        | JNull => go (mkResolveRequest None r e) None
        | _ => go acc (Some (mkField "outcome" "must be a string"))
        end
      else if key_matches "reason" key then
        match v with
        | JStr s => go (mkResolveRequest o (Some s) e) None
        | JNull => go (mkResolveRequest o None e) None
        | _ => go acc (Some (mkField "reason" "must be a string"))
        end
      else if key_matches "expectedVersion" key then
        match v with
        | JInt z => if in_int64b z then go (mkResolveRequest o r (Some z)) None
                    else go acc (Some (mkField "expectedVersion" "must be a positive integer"))
        | JNull => go (mkResolveRequest o r None) None
        | _ => go acc (Some (mkField "expectedVersion" "must be a positive integer"))
        end
      else go acc (Some (mkField key "is not allowed"))
  end.

Definition parse_outcome (o : option string) : Outcome * list Field :=
  match o with
  | None => (OutcomeOther "", [mkField "outcome" "is required"])
  | Some s =>
      if bool_decide (s = "COMPLETED") then (OutcomeCompleted, [])
      else if bool_decide (s = "REFUNDED") then (OutcomeRefunded, [])
      else (OutcomeOther "", [mkField "outcome" "must be COMPLETED or REFUNDED"])
  end.

Definition parse_reason (o : option string) : string * list Field :=
  match o with
  | None => ("", [mkField "reason" "is required"])
  | Some s =>
      if bool_decide (trim_space s = "") then ("", [mkField "reason" "must not be blank"])
      else if maxReasonLength <? rune_count s then ("", [mkField "reason" "must be at most 500 characters"])
      else (s, [])
  end.

Definition parse_version (o : option Z) : Z * list Field :=
  match o with
  | None => (0, [mkField "expectedVersion" "is required"])
  | Some v => if v <? 1 then (0, [mkField "expectedVersion" "must be a positive integer"]) else (v, [])
  end.

Definition decodeResolution (body : option json) : res AReply Resolution :=
  match body ≫= members with
  | None => Err (a_error InvalidArgument)
  | Some ms =>
      match resolve_members ms (mkResolveRequest None None None) None with
      | (_, Some field) => Err (a_invalid [field])
      | (mkResolveRequest o r v, None) =>
          let outcome := parse_outcome o in
          let reason := parse_reason r in
          let version := parse_version v in
          match outcome.2 ++ reason.2 ++ version.2 with
          | [] => Ok (mkResolution outcome.1 reason.1 version.1)
          | fields => Err (a_invalid fields)
          end
      end
  end.

(** [resolve] *)
Definition resolve_review (fuel : nat) (rq : ARequest) : hproc AReply :=
  match adminID (aq_Principal rq) with
  | Err reply => PRet reply
  | Ok admin =>
      if negb (uuid_pattern (aq_ErrandID rq)) then PRet (a_error InvalidArgument)
      else
        let errandID := to_lower (aq_ErrandID rq) in
        match decodeResolution (aq_Body rq) with
        | Err reply => PRet reply
        | Ok resolution =>
            await r := Resolve fuel admin errandID resolution in
            PRet (match r with
                  | Ok resolved => mkAReply 200 (AErrand (adminErrandBody resolved))
                  | Err err => a_fail err
                  end)
        end
  end.

Definition validReviewReason (s : string) : option ReviewReason :=
  if bool_decide (s = "COURIER_ISSUE") then Some ReviewCourierIssue
  else if bool_decide (s = "REQUESTER_DISPUTE") then Some ReviewRequesterDispute
  else if bool_decide (s = "DELIVERY_OVERDUE") then Some ReviewDeliveryOverdue
  else None.

(** *** cursor.go *)

Definition encode_review_cursor (after : Z) (reason : ReviewReason) : json :=
  JObj (("a", JInt after) :: enc_str_omit "r" (ReviewReason_string reason)).

Definition decode_review_cursor (t : Token) (reason : ReviewReason) : option Z :=
  if maxCursorLength <? tk_Len t then None
  else
    obind (tk_JSON t) (λ v,
    obind (members v) (λ ms,
    obind (dec_field dec_int64 "a" ms 0) (λ after,
    obind (dec_field dec_string "r" ms "") (λ r,
    if (after <? 1) || negb (bool_decide (r = ReviewReason_string reason)) then None else Some after)))).

(** [parseListQuery] *)
Definition parse_review_query (q : Query) : res AReply ListQuery :=
  let reason := if qHas q "reason"
                then match validReviewReason (qGet q "reason") with Some r => Ok r | None => Err (a_error InvalidArgument) end
                else Ok ReviewNone in
  match reason, parse_limit q with
  | Err reply, _ => Err reply
  | _, Err _ => Err (a_error InvalidArgument)
  | Ok reason, Ok limit =>
      match qy_Cursor q with
      | None => Ok (mkListQuery reason 0 limit)
      | Some t => match decode_review_cursor t reason with
                  | Some after => Ok (mkListQuery reason after limit)
                  | None => Err (a_error InvalidArgument)
                  end
      end
  end.

Definition list_queue (fuel : nat) (rq : ARequest) : hproc AReply :=
  match adminID (aq_Principal rq) with
  | Err reply => PRet reply
  | Ok _ =>
      match parse_review_query (aq_Query rq) with
      | Err reply => PRet reply
      | Ok q =>
          await r := List_ fuel q in
          PRet (match r with
                | Err err => a_fail err
                | Ok page =>
                    mkAReply 200 (AQueue (adminErrandBody <$> rp_Items page)
                      (if 0 <? rp_Next page then Some (encode_review_cursor (rp_Next page) (lq_Reason q)) else None))
                end)
      end
  end.
