(* ===== verification/AdminReads.v ===== *)
(** * order-service: the event log and the activity flags

    [internal/review]: [events.go] and [flags.go], their routes in
    [admin_handler.go] and the event log's part of [cursor.go]. *)

From S2P Require Import Prelude Proc Keyset GoText Json GoTime Sha Errand Settings ErrandState ErrandJson ErrandStore Fence OpsRepo ErrandLists ErrandHttp ErrandActions ErrandReads Review.

(** ** events.go *)

Record EventQuery := mkEventQuery {
  ev_UserID : string; ev_ErrandID : string; ev_Type : Status; ev_From : Z; ev_To : Z;
  ev_Before : option TransitionCursor; ev_Limit : Z }.

Record EventPage := mkEventPage { ep_Items : list TransitionView; ep_Next : option TransitionCursor }.

Definition event_filter (q : EventQuery) : TransitionFilter :=
  mkTransitionFilter (ev_ErrandID q) (ev_UserID q) (ev_Type q) (ev_From q) (ev_To q) (ev_Before q) (ev_Limit q + 1).

(** One row more than the page shows whether another page exists. *)
Definition event_page (limit : Z) (rows : list TransitionView) : EventPage :=
  let n := Z.to_nat limit in
  if (n <? length rows)%nat
  then mkEventPage (take n rows)
         (match rows !! (n - 1)%nat with Some t => Some (mkTransitionCursor (tv_At t) (tv_ID t)) | None => None end)
  else mkEventPage rows None.

(** [EventService.List] *)
Definition list_events_service (q : EventQuery) : hproc (res Failure EventPage) :=
  if (ev_Limit q <? 1) || (MaxPageSize <? ev_Limit q) then PRet (Err (appFailure InvalidArgument))
  else
    await r := perform (HTransitions (event_filter q)) in
    PRet (match r with Ok rows => Ok (event_page (ev_Limit q) rows) | Err err => Err err end).

(** ** cursor.go: the event log *)

(** [t.UTC().Format(time.RFC3339Nano)], outside the years 0 to 9999 too. *)
Definition year_text (y : Z) (rest : string) : string :=
  if in_year_range y then pad4 y rest
  else if y <? 0 then "-" +:+ pad4 (- y) rest
  else itoa y +:+ rest.

Definition Format_nano (t : Z) : string :=
  let s := t / nsec + unix_offset in
  let '(y, m, d) := date_of_days (s / 86400) in
  let sec := s mod 86400 in
  year_text y (String "-" (pad2 m (String "-" (pad2 d (String "T"
    (pad2 (sec / 3600) (String ":" (pad2 (sec mod 3600 / 60) (String ":" (pad2 (sec mod 60)
    (format_frac (t mod nsec) "Z"))))))))))).

Definition eventFilterHash (q : EventQuery) : string :=
  let zero := String "000"%char "" in
  let bound t := if IsZero t then "" else Format_nano t in
  hex_bytes (take 8 (sha256 (String.concat zero
    [ev_UserID q; ev_ErrandID q; Status_string (ev_Type q); bound (ev_From q); bound (ev_To q)]))).

(** A time that cannot be marshalled leaves the cursor empty. *)
Definition encodeEventCursor (last : TransitionCursor) (q : EventQuery) : option json :=
  match format_rfc3339 (tc_At last) with
  | Some at_ => Some (JObj [("t", JStr at_); ("i", JInt (tc_ID last)); ("f", JStr (eventFilterHash q))])
  | None => None
  end.

Definition decodeEventCursor (t : Token) (q : EventQuery) : option TransitionCursor :=
  if maxCursorLength <? tk_Len t then None
  else
    obind (tk_JSON t) (λ v,
    obind (members v) (λ ms,
    obind (dec_field dec_time "t" ms zero_time) (λ at_,
    obind (dec_field dec_int64 "i" ms 0) (λ id,
    obind (dec_field dec_string "f" ms "") (λ fs,
      if (id <? 1) || IsZero at_ || negb (bool_decide (fs = eventFilterHash q)) then None
      else Some (mkTransitionCursor at_ id)))))).

(** ** admin_handler.go: GET /admin/errand-events *)

Definition maxUserIDLength : Z := 255.

(** [errand.Status(s)] where it is valid. *)
Definition valid_status (s : string) : option Status :=
  snd <$> list_find (λ st, Status_string st = s) Statuses.

(** [time.Parse(time.RFC3339Nano, ...)]; an absent bound is the zero time. *)
Definition parse_bound (q : Query) (name : string) : res AReply Z :=
  if qHas q name then
    match parse_rfc3339 (qGet q name) with Some t => Ok t | None => Err (a_error InvalidArgument) end
  else Ok zero_time.

Definition parse_user (q : Query) : res AReply string :=
  if qHas q "userId" then
    let user := qGet q "userId" in
    if bool_decide (user = "") || (maxUserIDLength <? len user) then Err (a_error InvalidArgument) else Ok user
  else Ok "".

Definition parse_errand (q : Query) : res AReply string :=
  if qHas q "errandId" then
    if uuid_pattern (qGet q "errandId") then Ok (to_lower (qGet q "errandId")) else Err (a_error InvalidArgument)
  else Ok "".

Definition parse_type (q : Query) : res AReply Status :=
  if qHas q "type" then
    match valid_status (qGet q "type") with Some s => Ok s | None => Err (a_error InvalidArgument) end
  else Ok StatusNone.

Definition parseEventQuery (q : Query) : res AReply EventQuery :=
  match parse_user q with Err reply => Err reply | Ok user =>
  match parse_errand q with Err reply => Err reply | Ok errand =>
  match parse_type q with Err reply => Err reply | Ok type =>
  match parse_bound q "from" with Err reply => Err reply | Ok from =>
  match parse_bound q "to" with Err reply => Err reply | Ok to =>
    if negb (IsZero from) && negb (IsZero to) && negb (from <? to) then Err (a_error InvalidArgument)
    else
      match parse_limit q with
      | Err _ => Err (a_error InvalidArgument)
      | Ok limit =>
          let query before := mkEventQuery user errand type from to before limit in
          match qy_Cursor q with
          | None => Ok (query None)
          | Some t => match decodeEventCursor t (query None) with
                      | Some before => Ok (query (Some before))
                      | None => Err (a_error InvalidArgument)
                      end
          end
      end
  end end end end end.

Definition transition_response (t : TransitionView) : TransitionResponse :=
  mkTransitionResponse (tv_ID t) (tv_ErrandID t) (tv_FromStatus t) (tv_ToStatus t) (tv_Event t) (tv_ActorType t)
    (tv_ActorID t) (tv_Reason t) (tv_ErrandVersion t) (tv_At t).

Definition listEvents (rq : ARequest) : hproc AReply :=
  match adminID (aq_Principal rq) with
  | Err reply => PRet reply
  | Ok _ =>
      match parseEventQuery (aq_Query rq) with
      | Err reply => PRet reply
      | Ok q =>
          await r := list_events_service q in
          PRet (match r with
                | Err err => a_fail err
                | Ok page =>
                    mkAReply 200 (AEvents (transition_response <$> ep_Items page)
                      (match ep_Next page with Some c => encodeEventCursor c q | None => None end))
                end)
      end
  end.

(** ** flags.go *)

Inductive FlagKind := FlagCourierWithdrawals | FlagRequesterCancellations.
#[export] Instance FlagKind_eq_dec : EqDecision FlagKind.
Proof. solve_decision. Defined.

Definition FlagKind_string (k : FlagKind) : string :=
  match k with FlagCourierWithdrawals => "COURIER_WITHDRAWALS" | FlagRequesterCancellations => "REQUESTER_CANCELLATIONS" end.

Definition MaxFlags : Z := MaxActivityRows.

Record Flag := mkFlag {
  fg_UserID : string; fg_Kind : FlagKind; fg_Count : Z; fg_Threshold : Z; fg_Window : Z; fg_Since : Z;
  fg_Summary : string }.

(** Go's [/] and [%] round towards zero. *)
Definition formatWindow (d : Z) : string :=
  if (hour <=? d) && (Z.rem d hour =? 0) then itoa (Z.quot d hour) +:+ " h"
  else if (minute <=? d) && (Z.rem d minute =? 0) then itoa (Z.quot d minute) +:+ " min"
  else itoa (Z.quot d nsec) +:+ " s".

Definition flag_of (kind : FlagKind) (what : string) (threshold window since : Z) (c : ActivityCount) : Flag :=
  mkFlag (ac_UserID c) kind (ac_Count c) threshold window since
    ("High " +:+ what +:+ " rate, " +:+ itoa (ac_Count c) +:+ " in " +:+ formatWindow window).

(** The comparison of [slices.SortFunc]: no two flags compare equal. *)
Definition flag_key (f : Flag) : Z * (string * string) := (- fg_Count f, (fg_UserID f, FlagKind_string (fg_Kind f))).
Definition text_pair_le (a b : string * string) : Prop :=
  (String.le a.1 b.1 ∧ a.1 ≠ b.1) ∨ (a.1 = b.1 ∧ String.le a.2 b.2).
#[export] Instance text_pair_le_dec : RelDecision text_pair_le.
Proof. intros a b. unfold text_pair_le. apply _. Defined.

(** Most events first, then by user and kind, at most [MaxFlags]. *)
Definition sort_flags (flags : list Flag) : list Flag :=
  take (Z.to_nat MaxFlags) (merge_sort (row_le (lex_le text_pair_le) flag_key) flags).

Definition flags_of (settings : SystemSettings) (now : Z) (couriers requesters : list ActivityCount) : list Flag :=
  let w := ss_WithdrawalRestriction settings in
  let c := ss_CancellationFlag settings in
  sort_flags
    ((flag_of FlagCourierWithdrawals "withdrawal" (wr_Count w) (wr_Window w) (now - wr_Window w) <$> couriers)
     ++ (flag_of FlagRequesterCancellations "cancellation" (cf_Count c) (cf_Window c) (now - cf_Window c) <$> requesters)).

(** [FlagService.List] *)
Definition list_flags_service : hproc (res Failure (list Flag)) :=
  await s := perform HSettings in
  match s with
  | Err err => PRet (Err err)
  | Ok settings =>
      await now := perform HNow in
      let w := ss_WithdrawalRestriction settings in
      await couriers := perform (HWithdrawalCounts (now - wr_Window w) (wr_Count w) MaxFlags) in
      match couriers with
      | Err err => PRet (Err err)
      | Ok couriers =>
          let c := ss_CancellationFlag settings in
          await requesters := perform (HCancellationCounts (now - cf_Window c) (cf_Count c + 1) MaxFlags) in
          PRet (match requesters with
                | Err err => Err err
                | Ok requesters => Ok (flags_of settings now couriers requesters)
                end)
      end
  end.

(** ** admin_handler.go: GET /admin/flags *)

Definition flag_response (f : Flag) : FlagResponse :=
  mkFlagResponse (fg_UserID f) (FlagKind_string (fg_Kind f)) (fg_Count f) (fg_Threshold f) (Z.quot (fg_Window f) nsec)
    (fg_Since f) (fg_Summary f).

Definition listFlags (rq : ARequest) : hproc AReply :=
  match adminID (aq_Principal rq) with
  | Err reply => PRet reply
  | Ok _ =>
      await r := list_flags_service in
      PRet (match r with
            | Err err => a_fail err
            | Ok flags => mkAReply 200 (AFlags (flag_response <$> flags))
            end)
  end.
