(* ===== verification/SettingsStore.v ===== *)
(** * order-service: the stored settings

    [internal/database/opsrepo/settings.go], the settings part of
    [internal/review] ([settings.go] and the routes of [admin_handler.go]).
    A setting is one row of the [settings] table; the audit rows are those of
    the rest of the database.  Logging is left out. *)

From S2P Require Import Prelude Proc GoText Json GoTime GoDuration Errand Settings ErrandState ErrandJson ErrandStore Fence ErrandHttp ErrandActions Review.

(** ** The fields *)

(** A [*time.Duration] or an [*int] of the settings. *)
Inductive FieldRef :=
| DurationRef (get : SystemSettings → Z) (set : Z → SystemSettings → SystemSettings)
| CountRef (get : SystemSettings → Z) (set : Z → SystemSettings → SystemSettings).

Definition set_deadlines (f : DeadlineSettings → DeadlineSettings) (s : SystemSettings) : SystemSettings :=
  mkSystemSettings (f (ss_Deadlines s)) (ss_WithdrawalRestriction s) (ss_CancellationFlag s) (ss_ReservationTimeout s)
    (ss_EditTimeout s) (ss_OutboxConfirmTimeout s).
Definition set_restriction (f : WithdrawalRestriction → WithdrawalRestriction) (s : SystemSettings) : SystemSettings :=
  mkSystemSettings (ss_Deadlines s) (f (ss_WithdrawalRestriction s)) (ss_CancellationFlag s) (ss_ReservationTimeout s)
    (ss_EditTimeout s) (ss_OutboxConfirmTimeout s).
Definition set_flag (f : CancellationFlag → CancellationFlag) (s : SystemSettings) : SystemSettings :=
  mkSystemSettings (ss_Deadlines s) (ss_WithdrawalRestriction s) (f (ss_CancellationFlag s)) (ss_ReservationTimeout s)
    (ss_EditTimeout s) (ss_OutboxConfirmTimeout s).
Definition set_timeouts (reservation edit confirm : Z → Z) (s : SystemSettings) : SystemSettings :=
  mkSystemSettings (ss_Deadlines s) (ss_WithdrawalRestriction s) (ss_CancellationFlag s)
    (reservation (ss_ReservationTimeout s)) (edit (ss_EditTimeout s)) (confirm (ss_OutboxConfirmTimeout s)).

(** Every key with its field. *)
Definition settingFields : list (string * FieldRef) :=
  [ ("pickupAfter", DurationRef (λ s, ds_PickupAfter (ss_Deadlines s))
      (λ v, set_deadlines (λ d, mkDeadlineSettings v (ds_DeliveryAfter d) (ds_VerificationAfter d) (ds_VerificationReminderAfter d))));
    ("deliveryAfter", DurationRef (λ s, ds_DeliveryAfter (ss_Deadlines s))
      (λ v, set_deadlines (λ d, mkDeadlineSettings (ds_PickupAfter d) v (ds_VerificationAfter d) (ds_VerificationReminderAfter d))));
    ("verificationAfter", DurationRef (λ s, ds_VerificationAfter (ss_Deadlines s))
      (λ v, set_deadlines (λ d, mkDeadlineSettings (ds_PickupAfter d) (ds_DeliveryAfter d) v (ds_VerificationReminderAfter d))));
    ("verificationReminderAfter", DurationRef (λ s, ds_VerificationReminderAfter (ss_Deadlines s))
      (λ v, set_deadlines (λ d, mkDeadlineSettings (ds_PickupAfter d) (ds_DeliveryAfter d) (ds_VerificationAfter d) v)));
    ("withdrawalRestriction.count", CountRef (λ s, wr_Count (ss_WithdrawalRestriction s))
      (λ v, set_restriction (λ w, mkWithdrawalRestriction v (wr_Window w) (wr_Duration w))));
    ("withdrawalRestriction.window", DurationRef (λ s, wr_Window (ss_WithdrawalRestriction s))
      (λ v, set_restriction (λ w, mkWithdrawalRestriction (wr_Count w) v (wr_Duration w))));
    ("withdrawalRestriction.duration", DurationRef (λ s, wr_Duration (ss_WithdrawalRestriction s))
      (λ v, set_restriction (λ w, mkWithdrawalRestriction (wr_Count w) (wr_Window w) v)));
    ("cancellationFlag.count", CountRef (λ s, cf_Count (ss_CancellationFlag s))
      (λ v, set_flag (λ c, mkCancellationFlag v (cf_Window c))));
    ("cancellationFlag.window", DurationRef (λ s, cf_Window (ss_CancellationFlag s))
      (λ v, set_flag (λ c, mkCancellationFlag (cf_Count c) v)));
    ("reservationTimeout", DurationRef ss_ReservationTimeout (λ v, set_timeouts (λ _, v) id id));
    ("editTimeout", DurationRef ss_EditTimeout (λ v, set_timeouts id (λ _, v) id));
    ("outboxConfirmTimeout", DurationRef ss_OutboxConfirmTimeout (λ v, set_timeouts id id (λ _, v))) ].

Definition field_get (f : FieldRef) : SystemSettings → Z :=
  match f with DurationRef get _ | CountRef get _ => get end.
Definition field_set (f : FieldRef) : Z → SystemSettings → SystemSettings :=
  match f with DurationRef _ set | CountRef _ set => set end.

Definition encodeSetting (f : FieldRef) (s : SystemSettings) : json :=
  match f with
  | DurationRef get _ => JStr (Duration_String (get s))
  | CountRef get _ => JInt (get s)
  end.

(** [json.Unmarshal] of [null] leaves its target as it is. *)
Definition decodeSetting (value : json) (f : FieldRef) (s : SystemSettings) : option SystemSettings :=
  match f with
  | DurationRef _ set => obind (dec_string "" value) (λ text, obind (ParseDuration text) (λ d, Some (set d s)))
  | CountRef get set => obind (dec_int64 (get s) value) (λ n, Some (set n s))
  end.

(** ** The table *)

Record SettingRow := mkSettingRow { st_Value : json; st_UpdatedBy : option string; st_UpdatedAt : Z }.

(** The settings and the rest of the database. *)
Record SDB := mkSDB { sd_settings : gmap string SettingRow; sd_ops : ODB }.

Abbreviation SOp := (M SDB Failure).

(** [IS DISTINCT FROM] on the values the writers store, strings and integers. *)
Definition same_value (a b : json) : bool :=
  match a, b with
  | JStr s, JStr t => bool_decide (s = t)
  | JInt x, JInt y => x =? y
  | _, _ => false
  end.

Definition ListSettings : SOp (gmap string SettingRow) := λ db, Ok (sd_settings db, db).

Definition SeedSetting (clock : Z) (key : string) (value : json) : SOp Z :=
  λ db,
    match sd_settings db !! key with
    | Some _ => Ok (0, db)
    | None => Ok (1, mkSDB (<[key := mkSettingRow value None clock]> (sd_settings db)) (sd_ops db))
    end.

Definition UpsertSetting (clock : Z) (key : string) (value : json) (updatedBy : string) : SOp Z :=
  λ db,
    let written := mkSDB (<[key := mkSettingRow value (text updatedBy) clock]> (sd_settings db)) (sd_ops db) in
    match sd_settings db !! key with
    | Some row => if same_value (st_Value row) value then Ok (0, db) else Ok (1, written)
    | None => Ok (1, written)
    end.

(** ** opsrepo/settings.go *)

(** The rows over the settings so far. *)
Fixpoint decode_rows (fields : list (string * FieldRef)) (stored : gmap string SettingRow) (s : SystemSettings) :
    option SystemSettings :=
  match fields with
  | [] => Some s
  | (key, f) :: fields' =>
      match stored !! key with
      | None => decode_rows fields' stored s
      | Some row => obind (decodeSetting (st_Value row) f s) (decode_rows fields' stored)
      end
  end.

(** An error that wraps an application error is one. *)
Definition GetSettings : SOp SystemSettings :=
  let! stored := ListSettings in
  match decode_rows settingFields stored DefaultSystemSettings with
  | None => fail (FPlain "setting")
  | Some settings =>
      match ValidateSettings settings with
      | Ok _ => ret settings
      | Err e => fail (FApp e)
      end
  end.

Fixpoint upsert_all (clock : Z) (fields : list (string * FieldRef)) (s : SystemSettings) (updatedBy : string) : SOp unit :=
  match fields with
  | [] => ret tt
  | (key, f) :: fields' =>
      do! UpsertSetting clock key (encodeSetting f s) updatedBy;
      upsert_all clock fields' s updatedBy
  end.

Definition UpdateSettings (clock : Z) (s : SystemSettings) (updatedBy : string) : SOp unit :=
  if bool_decide (updatedBy = "") then fail (FPlain "updatedBy is required")
  else match ValidateSettings s with
       | Err e => fail (FApp e)
       | Ok _ => upsert_all clock settingFields s updatedBy
       end.

Fixpoint seed_all (clock : Z) (fields : list (string * FieldRef)) (inserted : Z) : SOp Z :=
  match fields with
  | [] => ret inserted
  | (key, f) :: fields' =>
      let! affected := SeedSetting clock key (encodeSetting f DefaultSystemSettings) in
      seed_all clock fields' (inserted + affected)
  end.

Definition SeedDefaults (clock : Z) : SOp Z := seed_all clock settingFields 0.

(** ** review/settings.go *)

(** An audit row of opsrepo; its errors carry no code. *)
Definition insert_audit (r : AuditRow) : SOp unit :=
  λ db, match InsertAudit r (sd_ops db) with
        | Ok (_, ops) => Ok (tt, mkSDB (sd_settings db) ops)
        | Err _ => Err (FPlain "opsrepo")
        end.

Definition UpdateAudited (clock : Z) (s : SystemSettings) (updatedBy : string) (r : AuditRow) : SOp unit :=
  do! UpdateSettings clock s updatedBy;
  insert_audit r.

(** What the settings routes call. *)
Inductive seff : Type → Type :=
| SGet : seff (res Failure SystemSettings)                                            (* SettingsStore.Get *)
| SUpdateAudited (s : SystemSettings) (updatedBy : string) (r : AuditRow) : seff (res Failure unit)
| SInsertAudit (r : AuditRow) : seff (res Failure unit).                              (* AuditWriter *)

Abbreviation sproc := (proc seff).

(** [settingValues] lists the fields in the order of [settingFields]. *)
Definition settingValues (s : SystemSettings) : list (string * Z) :=
  (λ '(key, f), (key, field_get f s)) <$> settingFields.

Definition auditNoSettingChange : string := "no change".

Definition changed_names (before after : SystemSettings) : list string :=
  omap (λ '((name, old), (_, updated)), if negb (old =? updated) then Some name else None)
    (zip (settingValues before) (settingValues after)).

Definition changeSummary (before after : SystemSettings) : string :=
  match changed_names before after with
  | [] => auditNoSettingChange
  | changed => "changed: " +:+ String.concat ", " changed
  end.

Definition settings_audit (adminID reason : string) (outcome : AuditOutcome) : AuditRow :=
  mkAuditRow adminID "settings.update" "settings" "settings" (text reason) outcome.

(** The code of an application error, [INTERNAL] of another. *)
Definition auditRejected (adminID : string) (err : Failure) : sproc unit :=
  await _audited := perform (SInsertAudit (settings_audit adminID
                      (Code_string (default Internal (code_of err))) AuditRejected)) in
  PRet tt.

Definition get_settings : sproc (res Failure SystemSettings) :=
  await r := perform SGet in
  PRet r.

Definition put_settings (adminID : string) (settings : SystemSettings) : sproc (res Failure SystemSettings) :=
  match ValidateSettings settings with
  | Err e => await _logged := auditRejected adminID (FApp e) in PRet (Err (FApp e))
  | Ok _ =>
      await current := perform SGet in
      let reason := match current with
                    | Ok current => changeSummary current settings
                    | Err _ => "changed: all (the stored settings could not be read)"
                    end in
      await r := perform (SUpdateAudited settings adminID (settings_audit adminID reason AuditSucceeded)) in
      match r with
      | Ok _ => PRet (Ok settings)
      | Err err =>
          match code_of err with
          | Some _ => await _logged := auditRejected adminID err in PRet (Err err)
          | None => PRet (Err err)
          end
      end
  end.

(** ** admin_handler.go *)

Definition maxSettingSeconds : Z := max_int64 / nsec.
Definition maxSettingCount : Z := 2147483647.
Definition min_int32 : Z := -2147483648.

(** [int64(d / time.Second)] *)
Definition seconds_of (d : Z) : Z := Z.quot d nsec.

Definition settingsResponse (s : SystemSettings) : SettingsBody :=
  let d := ss_Deadlines s in
  let w := ss_WithdrawalRestriction s in
  let c := ss_CancellationFlag s in
  mkSettingsBody (seconds_of (ds_PickupAfter d)) (seconds_of (ds_DeliveryAfter d)) (seconds_of (ds_VerificationAfter d))
    (seconds_of (ds_VerificationReminderAfter d))
    (wr_Count w, seconds_of (wr_Window w), seconds_of (wr_Duration w)) (cf_Count c, seconds_of (cf_Window c))
    (seconds_of (ss_ReservationTimeout s)) (seconds_of (ss_EditTimeout s)) (seconds_of (ss_OutboxConfirmTimeout s)).

(** The [*int64] members a request has, by the path of the field; a pointer
    to a nested struct that is not nil has its name in [sr_Objects]. *)
Record settingsRequest := mkSettingsRequest { sr_Ints : gmap string Z; sr_Objects : gset string }.

Definition set_int (path : string) (v : option Z) (r : settingsRequest) : settingsRequest :=
  mkSettingsRequest (match v with Some z => <[path := z]> (sr_Ints r) | None => delete path (sr_Ints r) end) (sr_Objects r).

(** Decoding a member into an [*int64] field. *)
Definition int_member (path : string) (v : json) (r : settingsRequest) : settingsRequest * option Field :=
  match v with
  | JInt z => if in_int64b z then (set_int path (Some z) r, None) else (r, Some (mkField path "must be an integer"))
  | JNull => (set_int path None r, None)
  | _ => (r, Some (mkField path "must be an integer"))
  end.

(** How a struct decodes the value of a member. *)
Abbreviation member_decoder := (json → settingsRequest → settingsRequest * option Field).

Fixpoint find_field (key : string) (fields : list (string * member_decoder)) : option member_decoder :=
  match fields with
  | [] => None
  | (name, f) :: fields' => if key_matches name key then Some f else find_field key fields'
  end.

(** The members of a struct; the first error is the one reported. *)
Fixpoint struct_members (fields : list (string * member_decoder))
    (ms : list (string * json)) (r : settingsRequest) (bad : option Field) : settingsRequest * option Field :=
  match ms with
  | [] => (r, bad)
  | (key, v) :: ms' =>
      let '(r, err) :=
        match find_field key fields with
        | Some f => f v r
        | None => (r, Some (mkField key "is not allowed"))
        end in
      struct_members fields ms' r (match bad with Some _ => bad | None => err end)
  end.

Definition withdrawal_fields : list (string * member_decoder) :=
  [("count", int_member "withdrawalRestriction.count"); ("window", int_member "withdrawalRestriction.window");
   ("duration", int_member "withdrawalRestriction.duration")].
Definition cancellation_fields : list (string * member_decoder) :=
  [("count", int_member "cancellationFlag.count"); ("window", int_member "cancellationFlag.window")].

(** A pointer to a struct: [null] makes it nil, an object is decoded into the
    struct it already points to. *)
Definition object_member (name : string)
    (fields : list (string * member_decoder)) (v : json) (r : settingsRequest) :
    settingsRequest * option Field :=
  match v with
  | JNull => (mkSettingsRequest (foldr (λ f, delete (name +:+ "." +:+ f.1)) (sr_Ints r) fields) (sr_Objects r ∖ {[name]}), None)
  | JObj ms => struct_members fields ms (mkSettingsRequest (sr_Ints r) ({[name]} ∪ sr_Objects r)) None
  | _ => (r, Some (mkField name "must be an object"))
  end.

Definition request_fields : list (string * member_decoder) :=
  [("pickupAfter", int_member "pickupAfter"); ("deliveryAfter", int_member "deliveryAfter");
   ("verificationAfter", int_member "verificationAfter");
   ("verificationReminderAfter", int_member "verificationReminderAfter");
   ("withdrawalRestriction", object_member "withdrawalRestriction" withdrawal_fields);
   ("cancellationFlag", object_member "cancellationFlag" cancellation_fields);
   ("reservationTimeout", int_member "reservationTimeout"); ("editTimeout", int_member "editTimeout");
   ("outboxConfirmTimeout", int_member "outboxConfirmTimeout")].

(** [seconds]: the product is an [int64]. *)
Definition read_seconds (name : string) (value : option Z) : Z * list Field :=
  match value with
  | None => (0, [mkField name "is required"])
  | Some v => if maxSettingSeconds <? v then (0, [mkField name "is too large"]) else (wrap64 (v * nsec), [])
  end.

Definition read_count (name : string) (value : option Z) : Z * list Field :=
  match value with
  | None => (0, [mkField name "is required"])
  | Some v => if (maxSettingCount <? v) || (v <? min_int32) then (0, [mkField name "is too large"]) else (v, [])
  end.

(** A field of a nested struct is read when the struct is there. *)
Definition parent (key : string) : string :=
  if has_prefix key "withdrawalRestriction." then "withdrawalRestriction"
  else if has_prefix key "cancellationFlag." then "cancellationFlag" else "".

Definition read_field (r : settingsRequest) (key : string) (f : FieldRef) : Z * list Field :=
  if bool_decide (parent key = "") || bool_decide (parent key ∈ sr_Objects r) then
    match f with
    | DurationRef _ _ => read_seconds key (sr_Ints r !! key)
    | CountRef _ _ => read_count key (sr_Ints r !! key)
    end
  else if bool_decide (key = parent key +:+ ".count") then (0, [mkField (parent key) "is required"]) else (0, []).

(** The fields in order, from the zero settings. *)
Fixpoint read_fields (fields : list (string * FieldRef)) (r : settingsRequest) (s : SystemSettings) :
    SystemSettings * list Field :=
  match fields with
  | [] => (s, [])
  | (key, f) :: fields' =>
      let v := read_field r key f in
      let rest := read_fields fields' r (field_set f v.1 s) in
      (rest.1, v.2 ++ rest.2)
  end.

Definition zero_system_settings : SystemSettings :=
  mkSystemSettings (mkDeadlineSettings 0 0 0 0) (mkWithdrawalRestriction 0 0 0) (mkCancellationFlag 0 0) 0 0 0.

Definition decodeSettings (body : option json) : res AReply SystemSettings :=
  match body ≫= members with
  | None => Err (a_error InvalidArgument)
  | Some ms =>
      match struct_members request_fields ms (mkSettingsRequest ∅ ∅) None with
      | (_, Some field) => Err (a_invalid [field])
      | (r, None) =>
          match read_fields settingFields r zero_system_settings with
          | (s, []) => Ok s
          | (_, fields) => Err (a_invalid fields)
          end
      end
  end.

Definition getSettings (rq : ARequest) : sproc AReply :=
  match adminID (aq_Principal rq) with
  | Err reply => PRet reply
  | Ok _ =>
      await r := get_settings in
      PRet (match r with Ok s => mkAReply 200 (ASettings (settingsResponse s)) | Err err => a_fail err end)
  end.

Definition putSettings (rq : ARequest) : sproc AReply :=
  match adminID (aq_Principal rq) with
  | Err reply => PRet reply
  | Ok admin =>
      match decodeSettings (aq_Body rq) with
      | Err reply => PRet reply
      | Ok settings =>
          await r := put_settings admin settings in
          PRet (match r with Ok s => mkAReply 200 (ASettings (settingsResponse s)) | Err err => a_fail err end)
      end
  end.
