(* ===== verification/HttpSystem.v ===== *)
(** * order-service: routes running against the store

    A request's program runs one port call at a time; between two calls any
    other writer of the store may commit, and every store call may fail
    without or after taking effect.  A weakest precondition tracks what the
    request read and what it committed; it is adequate for every run. *)

From S2P Require Import Prelude Proc GoText Json GoTime Errand Settings ErrandState ErrandJson ErrandInv ErrandStore Fence OpsRepo StoreInv StoreSafe StoreSystem ErrandLists StoreHistory ReminderRows StoreErrors StoreProps ErrandHttp ErrandActions ErrandForms.

Section system.
Context `{Hpg : Postgres, Hpgok : !PostgresOk, Hrow : RowIds, Hcol : Collation}.

(** ** Answers *)

(** A lost connection: the call may or may not have taken effect. *)
Definition lost {A} (r : res Failure A) : Prop := ∃ what, r = Err (FPlain what).

(** The supplier gate's contract: the codes of its application errors. *)
Definition gate_codes {A} (codes : list Code) (r : res Failure A) : Prop :=
  ∀ e, r = Err (FApp e) → ae_Code e ∈ codes.

(** [Create]'s insert, which sees [db]; the fence was checked on an earlier
    [db0], and the shared lock kept the supplier from being fenced since. *)
Definition creates (db : ODB) (e : Errand) (t : Transition) (stored : Errand) (db' : ODB) : Prop :=
  ∃ clock db0,
    (∀ s, toUUID (d_SupplierID (e_Details (ApplyTo t e))) = Some s → fenced s db0 = false → fenced s db = false) ∧
    Create clock (λ _, db) e t db0 = Ok ((stored, true), db').

(** Views of errands that were read while they were open. *)
Definition views_of (es : list Errand) (views : list OpenErrandView) : Prop :=
  ∀ v, v ∈ views → ∃ e pickup, e ∈ es ∧ e_Status e = StatusOpen ∧ v = OpenViewOf e pickup.

(** An error of opsrepo is no application error to its callers. *)
Definition ops_answer {A} (r : res OpsError A) : res Failure A :=
  match r with Ok a => Ok a | Err _ => Err (FPlain "opsrepo") end.

(** The answer of a call at [db], and the database it leaves when it commits a
    change.  [seen] is every errand read so far, by anyone: the cache and the
    shared load hold what some request put there. *)
Definition answers (db : ODB) (seen : list Errand) {X} (c : heff X) : X → option ODB → Prop :=
  match c in heff X return X → option ODB → Prop with
  | HNow => λ _ o, o = None
  | HSettings => λ _ o, o = None
  | HGet id => λ r o, o = None ∧ (r = fst (inTx (Get id) db) ∨ lost r)
  | HCourierHistory errandID courierID since => λ r o,
      o = None ∧ (r = fst (inTx (CourierHistory errandID courierID since) db) ∨ lost r)
  | HApply t => λ r o,
      (∃ clock stored db', Apply clock t db = Ok (stored, db') ∧ o = Some db' ∧ (r = Ok stored ∨ lost r)) ∨
      (o = None ∧ ((∃ clock f, Apply clock t db = Err f ∧ r = Err f) ∨ lost r))
  | HCreate e t => λ r o,
      (∃ stored db', creates db e t stored db' ∧ o = Some db' ∧ (r = Ok (stored, true) ∨ lost r)) ∨
      (o = None ∧
        ((∃ clock stored, Create clock (λ d, d) e t db = Ok ((stored, false), db) ∧ r = Ok (stored, false)) ∨
         (∃ clock db0 f, Create clock (λ _, db) e t db0 = Err f ∧ r = Err f) ∨ lost r))
  | HRecordRejection rj => λ r o,
      (∃ clock db', RecordRejection clock rj db = Ok (tt, db') ∧ o = Some db' ∧ (r = Ok tt ∨ lost r)) ∨
      (o = None ∧ ((∃ clock f, RecordRejection clock rj db = Err f ∧ r = Err f) ∨ lost r))
  | HListOpen q => λ r o, o = None ∧ (r = fst (inTx (ListOpen q) db) ∨ lost r)
  | HListUser which q => λ r o, o = None ∧ (r = fst (inTx (ListUser which q) db) ∨ lost r)
  | HGetVersion _ => λ r o, o = None ∧ gate_codes [SupplierUnavailable; DependencyUnavailable] r
  | HResolveForCreate _ _ => λ r o, o = None ∧ gate_codes [SupplierUnavailable; DependencyUnavailable] r
  | HListBuildings => λ r o, o = None ∧ gate_codes [DependencyUnavailable] r
  | HCacheGet => λ r o, o = None ∧ (∀ views, r = Some views → views_of seen views)
  | HCacheSet _ _ => λ _ o, o = None
  | HShared => λ r o, o = None ∧ (∀ views, r = Some (Ok views) → views_of seen views)
  | HOpenReviews after limit => λ r o, o = None ∧ (r = ops_answer (fst (inTx (ListOpenReviews after limit) db)) ∨ lost r)
  | HTransitions f => λ r o, o = None ∧ (r = ops_answer (fst (inTx (ListTransitions f) db)) ∨ lost r)
  | HWithdrawalCounts since least limit => λ r o,
      o = None ∧ (r = ops_answer (fst (inTx (ListWithdrawalCounts since least limit) db)) ∨ lost r)
  | HCancellationCounts since least limit => λ r o,
      o = None ∧ (r = ops_answer (fst (inTx (ListCancellationCounts since least limit) db)) ∨ lost r)
  | HAudit a => λ r o,
      (∃ db', InsertAudit a db = Ok (tt, db') ∧ o = Some db' ∧ (r = Ok tt ∨ lost r)) ∨
      (o = None ∧ ((∃ f, InsertAudit a db = Err f ∧ r = Err (FPlain "opsrepo")) ∨ lost r))
  | HReminderCandidates kd now before limit => λ r o,
      o = None ∧ (r = ops_answer (fst (inTx (ListReminderCandidates kd now before limit) db)) ∨ lost r)
  | HRemind row status version => λ r o,
      (∃ clock db', InsertCurrentReminder clock row status version db = Ok (true, db') ∧ o = Some db' ∧
                    (r = Ok true ∨ lost r)) ∨
      (o = None ∧ ((∃ clock, InsertCurrentReminder clock row status version db = Ok (false, db) ∧ r = Ok false) ∨
                   (∃ clock f, InsertCurrentReminder clock row status version db = Err f ∧ r = Err (FPlain "opsrepo")) ∨
                   lost r))
  end.

(** ** Runs *)

(** What a request committed. *)
Inductive own :=
| OApply (t : Transition) | OCreate (e : Errand) (t : Transition) | OReject (r : Rejection) | OAudit (r : AuditRow)
| ORemind (row : ReminderRow).

Definition own_of {X} (c : heff X) : option own :=
  match c with
  | HApply t => Some (OApply t)
  | HCreate e t => Some (OCreate e t)
  | HRecordRejection r => Some (OReject r)
  | HAudit r => Some (OAudit r)
  | HRemind row _ _ => Some (ORemind row)
  | _ => None
  end.

Definition log_of {X} (c : heff X) (log : list own) : list own :=
  match own_of c with Some w => w :: log | None => log end.

(** [hrun db seen p log a db' seen']: started on [db], the program [p] returns
    [a] in [db'], having committed [log] in this order. *)
Inductive hrun {A} : ODB → list Errand → hproc A → list own → A → ODB → list Errand → Prop :=
| run_ret db seen a : hrun db seen (PRet a) [] a db seen
| run_other db seen db1 p log a db' seen' :
    store_step seen db db1 → hrun db1 (current db1 ++ seen) p log a db' seen' →
    hrun db seen p log a db' seen'
| run_read db seen {X} (c : heff X) k x log a db' seen' :
    answers db seen c x None → hrun db seen (k x) log a db' seen' →
    hrun db seen (PVis c k) log a db' seen'
| run_write db seen {X} (c : heff X) k x db1 log a db' seen' :
    answers db seen c x (Some db1) → hrun db1 (current db1 ++ seen) (k x) log a db' seen' →
    hrun db seen (PVis c k) (log_of c log) a db' seen'.

(** ** What a request knows *)

(** The errands it read, the withdrawals it learnt of (errand and courier),
    and what it committed. *)
Record know := mkKnow { k_read : list Errand; k_former : list (string * string); k_log : list own }.

Definition nothing : know := mkKnow [] [] [].
Definition reads_all (es : list Errand) (k : know) : know := mkKnow (es ++ k_read k) (k_former k) (k_log k).
Definition reads (e : Errand) (k : know) : know := mkKnow (e :: k_read k) (k_former k) (k_log k).
Definition withdrew (id courier : string) (k : know) : know :=
  mkKnow (k_read k) ((id, courier) :: k_former k) (k_log k).
Definition commits (w : own) (k : know) : know := mkKnow (k_read k) (k_former k) (k_log k ++ [w]).

(** An edit's reward is a Go [int] read from a body, or the errand's own. *)
Definition input_fits (e : Errand) (input : EventInput) : Prop :=
  ∀ d, i_Edit input = Some d → in_int64 (d_Reward d) ∨ d_Reward d = d_Reward (e_Details e).

Definition decided_on (k : know) (t : Transition) : Prop :=
  ∃ e ev actor input now, e ∈ k_read k ∧ input_fits e input ∧ Next e ev actor input now = Ok t.

(** [d] is the reminder of kind [kd] about the errand [e] as it is. *)
Definition about_errand (kd : ReminderKind) (e : Errand) (d : ReminderData) : Prop :=
  e_Status e = reminder_status kd ∧ rd_ErrandID d = e_ID e ∧ rd_ErrandVersion d = e_Version e ∧
  rd_Status d = e_Status e ∧ rd_RequesterID d = e_RequesterID e ∧ rd_CourierID d = e_CourierID e ∧
  Some (rd_Deadline d) = errand_deadline kd e.

(** [row] is a reminder about [e]. *)
Definition reminds (e : Errand) (row : ReminderRow) : Prop :=
  ∃ kd d, row = reminder_row kd d ∧ about_errand kd e d.

Definition allowed {X} (k : know) (c : heff X) : Prop :=
  match c with
  | HApply t => decided_on k t
  | HCreate e t => fresh e ∧ toUUID (e_ID e) = Some (e_ID e) ∧
      ∃ actor input now, input_ok input ∧ Next e EventSubmit actor input now = Ok t
  | HRecordRejection r => has_colon (rj_ErrandID r) = false
  | HListUser _ q => ulq_UserID q ≠ ""
  | HCacheSet views _ => views_of (k_read k) views
  | HRemind row status version => ∃ e, e ∈ k_read k ∧ reminds e row ∧ status = e_Status e ∧ version = e_Version e
  | _ => True
  end.

(** What an answer tells, and what was committed. *)
Definition learns (k : know) {X} (c : heff X) : X → know → Prop :=
  match c in heff X return X → know → Prop with
  | HGet id => λ r k', match r with
      | Ok e => toUUID id = Some (e_ID e) ∧ k' = reads e k
      | Err f => k' = k ∧ (∀ e, f = FApp e → ae_Code e = ErrandNotFound) end
  | HCourierHistory errandID courierID _ => λ r k', match r with
      | Ok h => if ch_WithdrewFromErrand h then ∃ u, toUUID errandID = Some u ∧ k' = withdrew u courierID k else k' = k
      | Err _ => k' = k end
  | HListOpen q => λ r k', match r with
      | Ok p => k' = reads_all (pg_Items p) k ∧ ∀ e, e ∈ pg_Items p → open_for (opq_Now q) (opq_SupplierID q) e
      | Err _ => k' = k end
  | HListUser which q => λ r k', match r with
      | Ok p => k' = reads_all (pg_Items p) k ∧ ∀ e, e ∈ pg_Items p → users which (ulq_Role q) (ulq_UserID q) e
      | Err _ => k' = k end
  | HCacheGet => λ r k', match r with
      | Some views => ∃ es, k' = reads_all es k ∧ views_of es views
      | None => k' = k end
  | HShared => λ r k', match r with
      | Some (Ok views) => ∃ es, k' = reads_all es k ∧ views_of es views
      | _ => k' = k end
  | HApply t => λ r k', match r with
      | Ok stored => (∃ e ev actor input now, e ∈ k_read k ∧ Next e ev actor input now = Ok t ∧
            stored = canon (ApplyTo t e)) ∧ k' = commits (OApply t) (reads stored k)
      | Err (FApp _) => k' = k
      | Err (FPlain _) => k' = k ∨ k' = commits (OApply t) k end
  | HCreate e t => λ r k', match r with
      | Ok (stored, true) => stored = canon (ApplyTo t e) ∧ k' = commits (OCreate e t) (reads stored k)
      | Ok (stored, false) => e_RequesterID stored = e_RequesterID e ∧
          e_CreateIdempotencyKey stored = e_CreateIdempotencyKey e ∧ k' = reads stored k
      | Err (FApp _) => k' = k
      | Err (FPlain _) => k' = k ∨ k' = commits (OCreate e t) k end
  | HRecordRejection rj => λ r k', match r with
      | Ok _ => k' = commits (OReject rj) k
      | Err _ => k' = k ∨ k' = commits (OReject rj) k end
  | HAudit a => λ r k', match r with
      | Ok _ => k' = commits (OAudit a) k
      | Err _ => k' = k ∨ k' = commits (OAudit a) k end
  | HReminderCandidates kd now before limit => λ r k', match r with
      | Ok cs => ∃ es, k' = reads_all es k ∧ Forall2 (candidate_from kd) es cs ∧ Z.of_nat (length cs) ≤ limit
      | Err _ => k' = k end
  | HRemind row _ _ => λ r k', match r with
      | Ok true => k' = commits (ORemind row) k
      | Ok false => k' = k
      | Err _ => k' = k ∨ k' = commits (ORemind row) k end
  | HGetVersion _ => λ r k', k' = k ∧ gate_codes [SupplierUnavailable; DependencyUnavailable] r
  | HResolveForCreate _ _ => λ r k', k' = k ∧ gate_codes [SupplierUnavailable; DependencyUnavailable] r
  | HListBuildings => λ r k', k' = k ∧ gate_codes [DependencyUnavailable] r
  | _ => λ _ k', k' = k
  end.

Fixpoint hwp {A} (p : hproc A) (k : know) (Q : A → know → Prop) : Prop :=
  match p with
  | PRet a => Q a k
  | PVis c kont => allowed k c ∧ ∀ x k', learns k c x k' → hwp (kont x) k' Q
  end.

Lemma reads_all_nil k : reads_all [] k = k.
Proof. by destruct k. Qed.

(** What is known stays known. *)
Definition knows_more (k k' : know) : Prop := k_read k ⊆ k_read k' ∧ k_former k ⊆ k_former k'.

#[export] Instance knows_more_pre : PreOrder knows_more.
Proof. split; [by intros k|]. intros k1 k2 k3 [? ?] [? ?]. split; by etrans. Qed.

Lemma reads_all_more es k : knows_more k (reads_all es k).
Proof. split; [|done]. intros e He. simpl. apply elem_of_app. by right. Qed.

Lemma learns_more k {X} (c : heff X) x k' : learns k c x k' → knows_more k k'.
Proof.
  pose proof (λ es, reads_all_more es k) as Hall.
  assert (∀ e, knows_more k (reads e k)) as Hone by (intros e; split; simpl; set_solver).
  assert (∀ id c, knows_more k (withdrew id c k)) as Hwd by (intros id c0; split; simpl; set_solver).
  destruct c; simpl; intros Hl; repeat case_match; naive_solver (solve [done | apply Hall | apply Hone | apply Hwd | split; simpl; set_solver]).
Qed.

Lemma hwp_mono {A} (p : hproc A) k (Q R : A → know → Prop) :
  (∀ a k', Q a k' → R a k') → hwp p k Q → hwp p k R.
Proof.
  intros HQR. revert k. induction p as [a|X c kont IH]; intros k; simpl; [auto|].
  intros [Ha Hk]. split; [done|]. intros x k' Hl. by apply IH, Hk.
Qed.

Lemma hwp_and {A} (p : hproc A) k (Q R : A → know → Prop) :
  hwp p k Q → hwp p k R → hwp p k (λ a k', Q a k' ∧ R a k').
Proof.
  revert k. induction p as [a|X c kont IH]; intros k; simpl; [by split|].
  intros [Ha Hk] [_ Hk']. split; [done|]. intros x k' Hl. by apply IH; [apply Hk|apply Hk'].
Qed.

(** A program forgets nothing. *)
Lemma hwp_keeps {A} (p : hproc A) k (Q : A → know → Prop) :
  hwp p k Q → hwp p k (λ a k', Q a k' ∧ knows_more k k').
Proof.
  revert k. induction p as [a|X c kont IH]; intros k; simpl; [by split|].
  intros [Ha Hk]. split; [done|]. intros x k' Hl. eapply hwp_mono; [|by apply IH, Hk].
  intros a k2 [HQ Hm]. split; [done|]. etrans; [by eapply learns_more|done].
Qed.

Lemma hwp_bind {A B} (p : hproc A) (f : A → hproc B) k Q :
  hwp p k (λ a k', hwp (f a) k' Q) → hwp (pbind p f) k Q.
Proof.
  revert k. induction p as [a|X c kont IH]; intros k; simpl; [done|].
  intros [Ha Hk]. split; [done|]. intros x k' Hl. by apply IH, Hk.
Qed.

Lemma hwp_then {A B} (p : hproc A) (f : A → hproc B) k (R : A → know → Prop) Q :
  hwp p k R → (∀ a k', R a k' → hwp (f a) k' Q) → hwp (pbind p f) k Q.
Proof. intros Hp Hf. apply hwp_bind. by eapply hwp_mono. Qed.

(** ** Adequacy *)

(** A committed change is in the history. *)
Definition recorded (db : ODB) (w : own) : Prop :=
  match w with
  | OApply t => ∃ e ev actor input now tr, errand_ok e ∧ Next e ev actor input now = Ok t ∧
      tr ∈ db_transitions db ∧ tr = transition_row (e_ID e) e (canon (ApplyTo t e)) t
  | OCreate e t => ∃ tr, tr ∈ db_transitions db ∧ tr_ErrandID tr = e_ID e ∧ tr_Event tr = EventSubmit
  | OReject _ | OAudit _ => True
  | ORemind row => ∃ e clock db0 db1, reminds e row ∧ stored_as db0 (e_ID e) e ∧
      InsertCurrentReminder clock row (e_Status e) (e_Version e) db0 = Ok (true, db1) ∧
      store_ok db0 ∧ continues db1 db
  end.

(** A withdrawal of the courier from the errand, voluntary or forced. *)
Definition has_withdrawn (db : ODB) (id courier : string) : Prop :=
  ∃ tr, tr ∈ db_transitions db ∧ is_withdrawal courier tr = true ∧ tr_ErrandID tr = id.

Definition truthful (db : ODB) (seen : list Errand) (k : know) : Prop :=
  k_read k ⊆ seen ∧ (∀ id c, (id, c) ∈ k_former k → has_withdrawn db id c) ∧ ∀ w, w ∈ k_log k → recorded db w.

Lemma recorded_kept db db' w : continues db db' → recorded db w → recorded db' w.
Proof.
  intros [Ht Ht2]. destruct w as [t|e t|r|r|row]; [| |done..|].
  - intros (e & ev & actor & input & now & tr & ? & ? & Hin & ?). exists e, ev, actor, input, now, tr.
    split_and!; auto.
  - intros (tr & Hin & ?). exists tr. auto.
  - intros (e & clock & db0 & db1 & Hrm & Hst & Hi & Hok & Hc). exists e, clock, db0, db1.
    split_and!; [done..|]. etrans; [done|]. by split.
Qed.

Lemma step_continues db seen db' :
  reachable db seen → store_step seen db db' → continues db db'.
Proof.
  intros Hr Hstep. destruct (store_reachable_ok _ _ Hr) as (Hok & Hs & _).
  by eapply atoms_past, store_step_atoms; [apply (reachable_past _ _ Hr)|..].
Qed.

Lemma history_continues P db seen db' seen' :
  reachable db seen → history P db seen db' seen' → continues db db'.
Proof.
  intros Hr. induction 1 as [|db1 seen1 db2 Hh IH _ Hstep]; [done|]. etrans; [done|].
  eapply step_continues; [by eapply history_reachable|done].
Qed.

Lemma truthful_step db seen db' k :
  reachable db seen → store_step seen db db' → truthful db seen k → truthful db' (current db' ++ seen) k.
Proof.
  intros Hr Hstep (Hread & Hformer & Hlog). pose proof (step_continues _ _ _ Hr Hstep) as Hc.
  split_and!; [set_solver| |].
  - intros id c (tr & Hin & ?)%Hformer. exists tr. split; [by apply Hc|done].
  - intros w Hw. by eapply recorded_kept; [|apply Hlog].
Qed.

Lemma Get_read id db e db' :
  store_ok db → Get id db = Ok (e, db') → toUUID id = Some (e_ID e) ∧ e ∈ current db.
Proof.
  intros Hok. unfold Get, notFound, appErr, fail. destruct (toUUID id) as [u|] eqn:Hu; [|done].
  intros (found & ? & [= <- <-] & Hrun)%bind_Ok. destruct (db_errands db !! u) as [row|] eqn:Hl; [|done].
  apply lift_Ok in Hrun as [Hread ->]. destruct (so_rows _ Hok _ _ Hl) as (e0 & Hro).
  rewrite (ro_read _ _ _ Hro) in Hread. injection Hread as ->.
  assert (stored_as db u e) as Hst by by exists row. destruct (stored_as_id _ _ _ Hst) as (<- & _ & _).
  split; [done|]. by apply elem_of_current.
Qed.

Lemma Get_failed id db f : store_ok db → Get id db = Err f → ∀ e, f = FApp e → ae_Code e = ErrandNotFound.
Proof.
  intros Hok. unfold Get, notFound, appErr, fail, bind. destruct (toUUID id) as [u|]; [|by intros [= <-] e [= <-]].
  unfold GetErrand. destruct (db_errands db !! u) as [row|] eqn:Hl; [|by intros [= <-] e [= <-]].
  destruct (so_rows _ Hok _ _ Hl) as (e0 & Hro). rewrite (ro_read _ _ _ Hro). done.
Qed.

Lemma InsertErrand_conflict p db db' :
  InsertErrand p db = Ok (None, db') →
  db' = db ∧ is_Some (scan1 (same_create_key (er_RequesterID p) (er_CreateIdempotencyKey p)) (db_errands db)).
Proof.
  unfold InsertErrand. destruct (scan1 _ _) as [kv|]; [by intros [= <-]; eauto|].
  case_bool_decide; [done|]. by destruct (negb _).
Qed.

(** The errand a repeated creation returns was stored under its key. *)
Lemma Create_replay clock e t db stored :
  store_ok db → Create clock (λ d, d) e t db = Ok ((stored, false), db) →
  stored_as db (e_ID stored) stored ∧ e_RequesterID stored = e_RequesterID e ∧
  e_CreateIdempotencyKey stored = e_CreateIdempotencyKey e.
Proof.
  intros Hok. unfold Create, Create_tx. destruct (_ || _); [done|]. case_bool_decide; [done|].
  intros (params & ? & [Hp ->]%lift_Ok & Hc)%bind_Ok.
  apply bind_Ok in Hc as (existing & ? & Hg & Hc). unfold GetErrandByCreateKey in Hg. injection Hg as Hg <-.
  destruct existing as [row|].
  - destruct (byKey_stored _ _ _ _ Hok Hg) as (e0 & Hst & Hrq & Hck & Hrd). rewrite Hrd in Hc.
    apply bind_Ok in Hc as (? & ? & [[= <-] ->]%lift_Ok & Hc). injection Hc as <-.
    split; [|done]. by destruct (stored_as_id _ _ _ Hst) as (-> & _).
  - exfalso. apply bind_Ok in Hc as (u1 & d1 & [-> _]%checkFence_inv & Hc).
    apply bind_Ok in Hc as (u2 & d2 & [= _ <-] & Hc). apply bind_Ok in Hc as (ins & d3 & Hins & Hc).
    destruct ins as [row|].
    + apply bind_Ok in Hc as (? & ? & _ & Hc). apply bind_Ok in Hc as (? & ? & _ & Hc). by injection Hc.
    + destruct (InsertErrand_conflict _ _ _ Hins) as [-> Hscan].
      destruct (insertParams_inv _ _ Hp) as (_ & _ & _ & _ & Hrq & Hck & _).
      simpl in Hrq, Hck. rewrite Hrq, Hck in Hscan. unfold GetErrandByCreateKey in Hc.
      destruct Hscan as [kv Hscan]. simpl in Hc. rewrite Hscan in Hg. discriminate Hg.
Qed.

Lemma CourierHistory_withdrew id courier since db h d :
  CourierHistory id courier since db = Ok (h, d) → ch_WithdrewFromErrand h = true →
  ∃ u, toUUID id = Some u ∧ has_withdrawn db u courier.
Proof.
  unfold CourierHistory. intros [= <- <-]. simpl. intros (tr & [Hin Hw]%filter_In & Hm)%existsb_exists.
  destruct (toUUID id) as [u|]; [|done]. apply bool_decide_eq_true in Hm. exists u. split; [done|].
  exists tr. split_and!; [by apply list_elem_of_In|done..].
Qed.

(** A read keeps the database and tells what it says. *)
Lemma read_learns db seen k {X} (c : heff X) x :
  reachable db seen → truthful db seen k → allowed k c → answers db seen c x None →
  ∃ k', learns k c x k' ∧ truthful db seen k' ∧ k_log k' = k_log k.
Proof.
  intros Hr Ht Hal Hans. destruct (store_reachable_ok _ _ Hr) as (Hok & Hs & Hcur).
  assert (∀ e, e ∈ current db → truthful db seen (reads e k)) as Hreads.
  { intros e He. destruct Ht as (Hread & ?). split; [|done]. simpl. set_solver. }
  assert (∀ es, es ⊆ seen → truthful db seen (reads_all es k)) as Hmany.
  { intros es He. destruct Ht as (Hread & ?). split; [|done]. simpl. set_solver. }
  assert (∀ P : know → Prop, P k → ∃ k', P k' ∧ truthful db seen k' ∧ k_log k' = k_log k) as Hstay
    by (intros P HP; by exists k).
  destruct c as [| |id|errandID courierID since|t|e t|rj|q|which q|v|s n| | |vs ttl| |after limit|f|since least limit|since least limit|a|kd now before limit|row status version]; cbn [answers learns allowed] in *;
    try (by apply (Hstay (λ k', k' = k)));
    try (by destruct Hans as [_ Hg]; apply (Hstay (λ k', k' = k ∧ _))).
  - destruct Hans as [_ [->|(what & ->)]]; [|by apply (Hstay (λ k', k' = k ∧ _))].
    unfold inTx. destruct (Get id db) as [[e d]|f] eqn:Hg; simpl.
    + destruct (Get_read _ _ _ _ Hok Hg) as [Hu Hc]. exists (reads e k). auto 10.
    + apply (Hstay (λ k', k' = k ∧ _)). split; [done|]. by eapply Get_failed.
  - destruct Hans as [_ [->|(what & ->)]]; [|by apply (Hstay (λ k', k' = k))]. unfold inTx.
    destruct (CourierHistory errandID courierID since db) as [[h d]|f] eqn:Hh; cbn [fst]; [|by apply (Hstay (λ k', k' = k))].
    destruct (ch_WithdrewFromErrand h) eqn:Hw; [|by apply (Hstay (λ k', k' = k))].
    destruct (CourierHistory_withdrew _ _ _ _ _ _ Hh Hw) as (u & Hu & Hhas). exists (withdrew u courierID k).
    split; [by exists u|]. split; [|done]. destruct Ht as (Hread & Hformer & Hlog). split_and!; [done| |done].
    simpl. intros id c [[= -> ->]|Hin]%elem_of_cons; [done|]. by apply Hformer.
  - destruct Hans as [(? & ? & ? & _ & ? & _)|[_ [(clock & f & Ha & ->)|(what & ->)]]]; [done|..].
    + destruct f; [by apply (Hstay (λ k', k' = k))|by apply (Hstay (λ k', k' = k ∨ _)); left].
    + by apply (Hstay (λ k', k' = k ∨ _)); left.
  - destruct Hans as [(? & ? & _ & ? & _)|[_ [(clock & stored & Hc & ->)|[(clock & db0 & f & Hc & ->)|(what & ->)]]]].
    + done.
    + destruct (Create_replay _ _ _ _ _ Hok Hc) as (Hst & Hrq & Hck). exists (reads stored k).
      split_and!; [done|done|done| |done]. by apply Hreads, elem_of_current.
    + destruct f; [by apply (Hstay (λ k', k' = k))|by apply (Hstay (λ k', k' = k ∨ _)); left].
    + by apply (Hstay (λ k', k' = k ∨ _)); left.
  - destruct Hans as [(? & ? & _ & ? & _)|[_ [(clock & f & _ & ->)|(what & ->)]]]; [done|..];
      by apply (Hstay (λ k', k' = k ∨ _)); left.
  - destruct Hans as [_ [->|(what & ->)]]; [|by apply (Hstay (λ k', k' = k))]. unfold inTx.
    destruct (ListOpen q db) as [[p d]|f] eqn:Hl; simpl; [|by apply (Hstay (λ k', k' = k))].
    destruct (ListOpen_items _ _ _ _ Hok Hl) as [-> Hitems]. exists (reads_all (pg_Items p) k).
    split_and!; [done|intros; by apply Hitems| |done]. apply Hmany. intros e He. by apply Hcur, Hitems.
  - destruct Hans as [_ [->|(what & ->)]]; [|by apply (Hstay (λ k', k' = k))]. unfold inTx.
    destruct (ListUser which q db) as [[p d]|f] eqn:Hl; simpl; [|by apply (Hstay (λ k', k' = k))].
    destruct (ListUser_items _ _ _ _ _ Hok Hal Hl) as [-> Hitems]. exists (reads_all (pg_Items p) k).
    split_and!; [done|intros; by apply Hitems| |done]. apply Hmany. intros e He. by apply Hcur, Hitems.
  - destruct Hans as [_ Hv]. destruct x as [views|]; [|by apply (Hstay (λ k', k' = k))].
    exists (reads_all seen k). split_and!; [by eauto|by apply Hmany|done].
  - destruct Hans as [_ Hv]. destruct x as [[views|f]|]; try by apply (Hstay (λ k', k' = k)).
    exists (reads_all seen k). split_and!; [by eauto|by apply Hmany|done].
  - destruct Hans as [(? & _ & ? & _)|[_ [(f & _ & ->)|(what & ->)]]]; [done|..];
      by apply (Hstay (λ k', k' = k ∨ _)); left.
  - destruct Hans as [_ [->|(what & ->)]]; [|by apply (Hstay (λ k', k' = k))]. unfold inTx.
    destruct (ListReminderCandidates kd now before limit db) as [[cs d]|f] eqn:Hl; simpl; [|by apply (Hstay (λ k', k' = k))].
    destruct (candidates_read _ _ _ _ _ _ _ Hok Hl) as (Hlen & es & Hes & Hin). exists (reads_all es k).
    split_and!; [by exists es|apply Hmany; intros e He; by apply Hcur, Hin|done].
  - destruct Hans as [(? & ? & _ & ? & _)|[_ [(clock & _ & ->)|[(clock & f & _ & ->)|(what & ->)]]]]; [done|..].
    + by apply (Hstay (λ k', k' = k)).
    + by apply (Hstay (λ k', k' = k ∨ _)); left.
    + by apply (Hstay (λ k', k' = k ∨ _)); left.
Qed.

(** A reminder is inserted while the errand is as it was read. *)
Lemma remind_stored clock db seen e row db1 :
  reachable db seen → e ∈ seen → reminds e row →
  InsertCurrentReminder clock row (e_Status e) (e_Version e) db = Ok (true, db1) →
  store_step seen db db1 ∧ stored_as db (e_ID e) e.
Proof.
  intros Hr He Hrm Hi. destruct (store_reachable_ok _ _ Hr) as (Hok & Hs & Hcur).
  destruct (Hs e He) as (Heok & cur & Hst & Hle & Heq).
  destruct Hrm as (kd & d & -> & Ha). pose proof Ha as (Hstat & Hid & Hv & _).
  destruct (stored_as_id _ _ _ Hst) as (Hcid & Hu & Hcolon).
  destruct (seen_range _ _ _ Hr He) as (Hrange & _).
  assert (0 < e_Version e) as Hpos.
  { pose proof (eo_version _ Heok) as Hver. rewrite Hstat in Hver. destruct kd; simpl in Hver; lia. }
  assert (store_step seen db db1) as Hstep.
  { eapply (step_remind seen db clock kd d); [by rewrite Hid|by rewrite Hv|exact Hi]. }
  split; [done|].
  pose proof (InsertCurrentReminder_inv _ _ _ _ _ _ _ Hi) as (id & payload & Hp & [[? _]|(r & _ & Hl & Hrs & Hrv & _)]); [done|].
  assert (id = e_ID e) as ->.
  { unfold reminderParams in Hp. destruct (negb _); [done|]. case_bool_decide; [done|].
    change (rm_ErrandID (reminder_row kd d)) with (rd_ErrandID d) in Hp. rewrite Hid, Hu in Hp.
    destruct (enc_reminder _); [|done]. by injection Hp as ->. }
  rewrite (wrap32_id _ Hrange) in Hrv.
  destruct Hst as (row & Hl' & Hro). assert (row = r) as -> by congruence.
  assert (e_Status cur = er_Status r ∧ e_Version cur = er_Version r) as [Hcs Hcv].
  { pose proof (ro_read _ _ _ Hro) as Hread. unfold errandFromRow in Hread.
    destruct (er_PendingEdit r); [destruct (dec_details _); [|done]|]; by injection Hread as <-. }
  assert (∀ x, errand_ok x → e_Status x = reminder_status kd → pending_key x = "") as Hnp.
  { intros x Hx Hxs. unfold pending_key. destruct (e_PendingEdit x) as [p|] eqn:Hpe; [|done].
    destruct (eo_pending _ Hx _ Hpe) as (Ho & _). rewrite Ho in Hxs. by destruct kd. }
  assert (e = cur) as <-.
  { apply Heq, cas_position; [done|apply Hro|done|congruence|]. 
    rewrite !Hnp; [done|done|done|apply Hro|congruence]. }
  by exists r.
Qed.

Lemma remind_step clock db seen e row db1 :
  reachable db seen → e ∈ seen → reminds e row →
  InsertCurrentReminder clock row (e_Status e) (e_Version e) db = Ok (true, db1) →
  store_step seen db db1 ∧ recorded db1 (ORemind row).
Proof.
  intros Hr He Hrm Hi. destruct (remind_stored _ _ _ _ _ _ Hr He Hrm Hi) as [Hstep Hst]. split; [done|].
  exists e, clock, db, db1. split_and!; [done..|apply (store_reachable_ok _ _ Hr)|done].
Qed.

(** What a call committed is a step of the store. *)
Lemma write_learns db seen k {X} (c : heff X) x db1 :
  reachable db seen → truthful db seen k → allowed k c → answers db seen c x (Some db1) →
  store_step seen db db1 ∧
  ∃ k', learns k c x k' ∧ truthful db1 (current db1 ++ seen) k' ∧ k_log k' = k_log k ++ log_of c [].
Proof.
  intros Hr Ht Hal Hans. destruct (store_reachable_ok _ _ Hr) as (Hok & Hs & Hcur).
  assert (∀ w e, store_step seen db db1 → recorded db1 w → e ∈ current db1 →
            truthful db1 (current db1 ++ seen) (commits w (reads e k))) as Hcommit.
  { intros w e Hstep Hw He. destruct (truthful_step _ _ _ _ Hr Hstep Ht) as (Hread & Hformer & Hlog).
    split_and!; simpl; [set_solver|done|]. intros w'. rewrite elem_of_app. intros [Hin|Hin%list_elem_of_singleton].
    - by apply Hlog.
    - by subst w'. }
  assert (∀ w, store_step seen db db1 → recorded db1 w → truthful db1 (current db1 ++ seen) (commits w k)) as Hlost.
  { intros w Hstep Hw. destruct (truthful_step _ _ _ _ Hr Hstep Ht) as (Hread & Hformer & Hlog).
    split_and!; simpl; [done..|]. intros w'. rewrite elem_of_app. intros [Hin|Hin%list_elem_of_singleton].
    - by apply Hlog.
    - by subst w'. }
  destruct c as [| |id|errandID courierID since|t|e t|rj|q|which q|v|s n| | |vs ttl| |after limit|f|since least limit|since least limit|a|kd now before limit|row status version]; simpl in Hans; try done; try (by destruct Hans as [? _]).
  - destruct Hans as [(clock & stored & db' & Ha & [= <-] & Hx)|[? _]]; [|done].
    destruct Hal as (e & ev & actor & input & now & He & Hfits & Hnext).
    assert (input_ok input) as Hin.
    { intros d [?|Hd]%Hfits; [done|]. rewrite Hd. destruct (seen_range _ _ e Hr) as (_ & Hrw & _); [by apply Ht|].
      unfold in_int64, min_int64, max_int64, ErrandStore.max_int32 in *. lia. }
    assert (store_step seen db db1) as Hstep by (eapply step_apply; [by apply Ht|done..]).
    destruct (Apply_step _ _ _ _ _ _ _ _ _ _ _ Hok Hs (proj1 Ht _ He) Hin Hnext Ha) as (Hst & Heq & _ & _ & Hm & _).
    assert (recorded db1 (OApply t)) as Hrec.
    { exists e, ev, actor, input, now, (transition_row (e_ID e) e (canon (ApplyTo t e)) t).
      split_and!; [by apply Hs, Ht|done| |done]. rewrite (mv_transitions _ _ _ _ _ _ _ Hm), Heq.
      apply elem_of_app. right. by left. }
    assert (stored ∈ current db1) as Hc1.
    { pose proof (mv_at _ _ _ _ _ _ _ Hm) as Hat. apply elem_of_current; [apply Hm|].
      by destruct (stored_as_id _ _ _ Hat) as (-> & _). }
    split; [done|]. destruct Hx as [->|(what & ->)].
    + exists (commits (OApply t) (reads stored k)). split; [|split; [by apply Hcommit|done]].
      split; [|done]. exists e, ev, actor, input, now. done.
    + exists (commits (OApply t) k). split; [by right|]. split; [by apply Hlost|done].
  - destruct Hans as [(stored & db' & (clock & db0 & Hlock & Hc) & [= <-] & Hx)|[? _]]; [|done].
    destruct Hal as (Hfr & Hid & actor & input & now & Hin & Hnext).
    assert (store_step seen db db1) as Hstep by by eapply step_create.
    destruct (Create_sound _ _ _ _ _ _ _ _ _ _ Hok Hfr Hid Hin Hnext Hc) as (Heq & _ & _ & Hm).
    assert (recorded db1 (OCreate e t)) as Hrec.
    { exists (transition_row (e_ID e) e stored t). destruct (Next_from _ _ _ _ _ _ Hnext) as (_ & _ & _ & _ & _).
      split_and!; [|done|simpl; by apply (Next_changes _ _ _ _ _ _ Hnext)].
      rewrite (mv_transitions _ _ _ _ _ _ _ Hm). apply elem_of_app. right. by left. }
    assert (stored ∈ current db1) as Hc1.
    { pose proof (mv_at _ _ _ _ _ _ _ Hm) as Hat. apply elem_of_current; [apply Hm|].
      by destruct (stored_as_id _ _ _ Hat) as (-> & _). }
    split; [done|]. destruct Hx as [->|(what & ->)].
    + exists (commits (OCreate e t) (reads stored k)). split; [done|]. split; [by apply Hcommit|done].
    + exists (commits (OCreate e t) k). split; [by right|]. split; [by apply Hlost|done].
  - destruct Hans as [(clock & db' & Hrj & [= <-] & Hx)|[? _]]; [|done].
    assert (store_step seen db db1) as Hstep by by eapply step_reject.
    split; [done|]. exists (commits (OReject rj) k). split; [|split; [by apply Hlost|done]].
    destruct Hx as [->|(what & ->)]; [done|by right].
  - destruct Hans as [(db' & Ha & [= <-] & Hx)|[? _]]; [|done].
    assert (store_step seen db db1) as Hstep by by eapply step_audit.
    split; [done|]. exists (commits (OAudit a) k). split; [|split; [by apply Hlost|done]].
    destruct Hx as [->|(what & ->)]; [done|by right].
  - destruct Hans as [(clock & db' & Hi & [= <-] & Hx)|[? _]]; [|done].
    destruct Hal as (e & He & Hrm & -> & ->).
    assert (store_step seen db db1 ∧ recorded db1 (ORemind row)) as [Hstep Hrec]
      by (eapply remind_step; [done|by apply Ht|done..]).
    split; [done|]. exists (commits (ORemind row) k). split; [|split; [by apply Hlost|done]].
    destruct Hx as [->|(what & ->)]; [done|by right].
Qed.

Lemma log_of_app {X} (c : heff X) l log : l ++ log_of c log = (l ++ log_of c []) ++ log.
Proof. unfold log_of. destruct (own_of c); [by rewrite <- app_assoc|by rewrite app_nil_r]. Qed.

(** Every run of a program ends in what its precondition promises. *)
Lemma hwp_adequate {A} db seen (p : hproc A) log a db' seen' k Q :
  hrun db seen p log a db' seen' → reachable db seen → truthful db seen k → hwp p k Q →
  ∃ k', Q a k' ∧ truthful db' seen' k' ∧ k_log k' = k_log k ++ log ∧
    reachable db' seen' ∧ continues db db' ∧ seen ⊆ seen'.
Proof.
  intros Hrun. revert k. induction Hrun as [db seen a|db seen db1 p log a db' seen' Hstep Hrun IH
    |db seen X c kont x log a db' seen' Hans Hrun IH|db seen X c kont x db1 log a db' seen' Hans Hrun IH];
    intros k Hr Ht Hwp.
  - exists k. rewrite app_nil_r. done.
  - pose proof (reach_step _ _ _ Hr Hstep) as Hr1.
    destruct (IH k Hr1) as (k' & ? & ? & ? & ? & Hc & Hsub); [by eapply truthful_step|done|].
    exists k'. split_and!; [done..|by etrans; [eapply step_continues|]|set_solver].
  - destruct Hwp as [Hal Hk]. destruct (read_learns _ _ _ _ _ Hr Ht Hal Hans) as (k1 & Hl & Ht1 & Hlog).
    destruct (IH k1 Hr Ht1) as (k' & ? & ? & Hlog' & ?); [by apply Hk|].
    exists k'. split; [done|]. split; [done|]. split; [by rewrite Hlog', Hlog|done].
  - destruct Hwp as [Hal Hk]. destruct (write_learns _ _ _ _ _ _ Hr Ht Hal Hans) as (Hstep & k1 & Hl & Ht1 & Hlog).
    pose proof (reach_step _ _ _ Hr Hstep) as Hr1.
    destruct (IH k1 Hr1 Ht1) as (k' & ? & ? & Hlog' & ? & Hc & Hsub); [by apply Hk|].
    exists k'. split; [done|]. split; [done|]. split; [by rewrite Hlog', Hlog, <- log_of_app|].
    split_and!; [done|by etrans; [eapply step_continues|]|set_solver].
Qed.

Lemma nothing_truthful db seen : truthful db seen nothing.
Proof. split_and!; simpl; [set_solver|intros id c Hin; by apply elem_of_nil in Hin|intros w Hw; by apply elem_of_nil in Hw]. Qed.

Lemma route_run {A} db seen (p : hproc A) log a db' seen' Q :
  reachable db seen → hrun db seen p log a db' seen' → hwp p nothing Q →
  ∃ k, Q a k ∧ k_log k = log ∧ truthful db' seen' k ∧ reachable db' seen'.
Proof.
  intros Hr Hrun Hwp.
  destruct (hwp_adequate _ _ _ _ _ _ _ _ _ Hrun Hr (nothing_truthful _ _) Hwp) as (k & HQ & Ht & Hlog & Hr' & _).
  by exists k.
Qed.

(** ** A run of its own *)

(** What answers a request when nobody interferes and no answer is lost. *)
Record Env := mkEnv {
  en_Now : Z;
  en_Settings : SystemSettings;
  en_Version : string → res Failure SupplierVersion;
  en_Resolve : string → Z → res Failure SupplierVersion;
  en_Buildings : res Failure (list Building) }.

Definition committed {A B} (ok : A → B) (err : Failure → B) (m : res Failure (A * ODB)) : B * option ODB :=
  match m with Ok (a, db') => (ok a, Some db') | Err f => (err f, None) end.

Definition alone (env : Env) (db : ODB) {X} (c : heff X) : X * option ODB :=
  match c in heff X return X * option ODB with
  | HNow => (en_Now env, None)
  | HSettings => (Ok (en_Settings env), None)
  | HGet id => (fst (inTx (Get id) db), None)
  | HCourierHistory errandID courierID since => (fst (inTx (CourierHistory errandID courierID since) db), None)
  | HApply t => committed Ok Err (Apply (en_Now env) t db)
  | HCreate e t =>
      match Create (en_Now env) (λ d, d) e t db with
      | Ok ((stored, true), db') => (Ok (stored, true), Some db')
      | Ok ((stored, false), _) => (Ok (stored, false), None)
      | Err f => (Err f, None)
      end
  | HRecordRejection r => committed Ok Err (RecordRejection (en_Now env) r db)
  | HListOpen q => (fst (inTx (ListOpen q) db), None)
  | HListUser which q => (fst (inTx (ListUser which q) db), None)
  | HGetVersion v => (en_Version env v, None)
  | HResolveForCreate s now => (en_Resolve env s now, None)
  | HListBuildings => (en_Buildings env, None)
  | HCacheGet => (None, None)
  | HCacheSet _ _ => (tt, None)
  | HShared => (None, None)
  | HOpenReviews after limit => (ops_answer (fst (inTx (ListOpenReviews after limit) db)), None)
  | HTransitions f => (ops_answer (fst (inTx (ListTransitions f) db)), None)
  | HWithdrawalCounts since least limit => (ops_answer (fst (inTx (ListWithdrawalCounts since least limit) db)), None)
  | HCancellationCounts since least limit =>
      (ops_answer (fst (inTx (ListCancellationCounts since least limit) db)), None)
  | HAudit a =>
      match InsertAudit a db with
      | Ok (_, db') => (Ok tt, Some db')
      | Err _ => (Err (FPlain "opsrepo"), None)
      end
  | HReminderCandidates kd now before limit =>
      (ops_answer (fst (inTx (ListReminderCandidates kd now before limit) db)), None)
  | HRemind row status version =>
      match InsertCurrentReminder (en_Now env) row status version db with
      | Ok (true, db') => (Ok true, Some db')
      | Ok (false, _) => (Ok false, None)
      | Err _ => (Err (FPlain "opsrepo"), None)
      end
  end.

Fixpoint play {A} (env : Env) (db : ODB) (seen : list Errand) (p : hproc A) : list own * A * ODB * list Errand :=
  match p with
  | PRet a => ([], a, db, seen)
  | PVis c kont =>
      let r := alone env db c in
      match r.2 with
      | None => play env db seen (kont r.1)
      | Some db1 =>
          let '(log, a, db', seen') := play env db1 (current db1 ++ seen) (kont r.1) in
          (log_of c log, a, db', seen')
      end
  end.

Lemma play_bind {A B} env db seen (p : hproc A) (f : A → hproc B) log a db1 seen1 :
  play env db seen p = (log, a, db1, seen1) →
  play env db seen (pbind p f) =
  let '(log', b, db2, seen2) := play env db1 seen1 (f a) in (log ++ log', b, db2, seen2).
Proof.
  revert db seen log. induction p as [a0|X c kont IH]; intros db seen log; cbn [play pbind].
  - intros [= <- <- <- <-]. by destruct (play env db seen (f a0)) as [[[? ?] ?] ?].
  - destruct (alone env db c) as [x [db'|]]; cbn [fst snd]; [|by apply IH].
    destruct (play env db' _ (kont x)) as [[[log1 a1] db1'] seen1'] eqn:Hp. intros [= <- <- <- <-].
    rewrite (IH _ _ _ _ Hp). destruct (play env db1' seen1' (f a1)) as [[[? ?] ?] ?].
    unfold log_of. by destruct (own_of c).
Qed.

Definition env_ok (env : Env) : Prop :=
  (∀ v, gate_codes [SupplierUnavailable; DependencyUnavailable] (en_Version env v)) ∧
  (∀ s now, gate_codes [SupplierUnavailable; DependencyUnavailable] (en_Resolve env s now)) ∧
  gate_codes [DependencyUnavailable] (en_Buildings env).

(** A creation that waits for nobody sees one database throughout. *)
Lemma Create_alone clock e t db : Create clock (λ d, d) e t db = Create clock (λ _, db) e t db.
Proof.
  unfold Create. destruct (_ || _); [done|]. case_bool_decide; [done|].
  unfold bind at 1, lift at 1. symmetry. unfold bind at 1, lift at 1.
  destruct (insertParams _) as [params|f]; [|done]. cbn [ret fail].
  unfold Create_tx. unfold bind at 1. symmetry. unfold bind at 1.
  destruct (GetErrandByCreateKey _ _ db) as [[existing d]|f] eqn:Hg; [|done].
  assert (d = db) as -> by (unfold GetErrandByCreateKey in Hg; by injection Hg).
  destruct existing as [row|]; [done|]. unfold bind at 1. symmetry. unfold bind at 1.
  destruct (checkFence _ db) as [[u d]|f] eqn:Hf; [|done]. by apply checkFence_inv in Hf as [-> _].
Qed.

Lemma Create_kept clock e t db stored db' :
  Create clock (λ d, d) e t db = Ok ((stored, false), db') → db' = db.
Proof.
  unfold Create, Create_tx. destruct (_ || _); [done|]. case_bool_decide; [done|].
  intros (params & ? & [_ ->]%lift_Ok & Hc)%bind_Ok. apply bind_Ok in Hc as (existing & ? & Hg & Hc).
  unfold GetErrandByCreateKey in Hg. injection Hg as Hg <-. destruct existing as [row|].
  - apply bind_Ok in Hc as (? & ? & [_ ->]%lift_Ok & Hc). by injection Hc.
  - apply bind_Ok in Hc as (u1 & d1 & [-> _]%checkFence_inv & Hc). apply bind_Ok in Hc as (u2 & d2 & [= _ <-] & Hc).
    apply bind_Ok in Hc as (ins & d3 & Hins & Hc). destruct ins as [row|].
    + apply bind_Ok in Hc as (? & ? & _ & Hc). apply bind_Ok in Hc as (? & ? & _ & Hc). by injection Hc.
    + apply bind_Ok in Hc as (ex & d4 & Hk & Hc). unfold GetErrandByCreateKey in Hk. injection Hk as _ <-.
      destruct ex as [row|]; [|done]. apply bind_Ok in Hc as (? & ? & [_ ->]%lift_Ok & Hc). injection Hc as _ <-.
      by destruct (InsertErrand_conflict _ _ _ Hins).
Qed.

Lemma alone_answers env db seen {X} (c : heff X) :
  env_ok env → answers db seen c (alone env db c).1 (alone env db c).2.
Proof.
  intros (Hv & Hr & Hb). destruct c; cbn [answers alone fst snd]; try done; try (by auto).
  - destruct (Apply _ t db) as [[stored db']|f] eqn:Ha; cbn [committed fst snd]; [left|right]; eauto 10.
  - destruct (Create _ _ e t db) as [[[stored []] db']|f] eqn:Hc; cbn [fst snd].
    + left. exists stored, db'. split_and!; [|done|by left]. exists (en_Now env), db. split; [done|].
      by rewrite <- Create_alone.
    + right. split; [done|]. left. exists (en_Now env), stored. split; [|done].
      by rewrite Hc, (Create_kept _ _ _ _ _ _ Hc).
    + right. split; [done|]. right. left. exists (en_Now env), db, f. split; [|done]. by rewrite <- Create_alone.
  - destruct (RecordRejection _ r db) as [[[] db']|f] eqn:Ha; cbn [committed fst snd]; [left|right]; eauto 10.
  - destruct (InsertAudit r db) as [[[] db']|f] eqn:Ha; cbn [fst snd]; [left|right]; eauto 10.
  - destruct (InsertCurrentReminder _ row status version db) as [[[] db']|f] eqn:Hi; cbn [fst snd];
      [left; by eauto 10|right..]; (split; [done|]).
    + left. exists (en_Now env). split; [|done].
      by pose proof (InsertCurrentReminder_inv _ _ _ _ _ _ _ Hi) as (? & ? & _ & [[_ ->]|(? & ? & _)]).
    + right. left. eauto.
Qed.

Lemma play_run {A} env db seen (p : hproc A) log a db' seen' :
  env_ok env → play env db seen p = (log, a, db', seen') → hrun db seen p log a db' seen'.
Proof.
  intros Hok. revert db seen log. induction p as [a0|X c kont IH]; intros db seen log; cbn [play].
  - intros [= <- <- <- <-]. constructor.
  - pose proof (alone_answers env db seen c Hok) as Ha. destruct (alone env db c) as [x [db1|]]; cbn [fst snd] in *.
    + destruct (play env db1 _ (kont x)) as [[[log1 a1] db1'] seen1'] eqn:Hp. intros [= <- <- <- <-].
      eapply run_write; [exact Ha|]. by apply IH.
    + intros Hp. eapply run_read; [exact Ha|]. by apply IH.
Qed.

End system.
