(* ===== verification/HttpLogic.v ===== *)
(** * order-service: what the action routes guarantee

    Preconditions of the parts every action handler is built from, and of the
    handlers: an answer 200 shows an errand that was stored and bears the
    effect of the request, a request commits at most one transition, its own,
    and one that is refused commits none. *)

From S2P Require Import Prelude Proc GoText Json GoTime Sha Errand Settings ErrandState ErrandJson ErrandInv ErrandStore Fence OpsRepo StoreInv StoreSafe StoreSystem ErrandLists StoreHistory StoreProps ErrandHttp ErrandActions ErrandForms HttpSystem.

Section logic.
Context `{Hpg : Postgres, Hpgok : !PostgresOk, Hrow : RowIds, Hcol : Collation}.

(** ** Replies *)

Definition refused (reply : HReply) : Prop := 400 ≤ hp_Status reply < 500.
Definition broken (reply : HReply) : Prop := 500 ≤ hp_Status reply.
Definition answered (reply : HReply) : Prop := hp_Status reply < 400.

Definition is_error (b : RBody) : Prop := match b with BError _ _ => True | _ => False end.

Lemma FailReply_error f : is_error (hp_Body (FailReply f)).
Proof. destruct f as [e|w]; simpl; [by case_bool_decide|done]. Qed.

Lemma WriteError_status code : 400 ≤ hp_Status (WriteError code).
Proof. by destruct code. Qed.

Lemma FailReply_status f : 400 ≤ hp_Status (FailReply f).
Proof.
  destruct f as [e|w]; simpl; [|done]. case_bool_decide; [done|]. apply WriteError_status.
Qed.

Lemma FailReply_plain what : broken (FailReply (FPlain what)).
Proof. done. Qed.

Lemma FailReply_dependency e : ae_Code e = DependencyUnavailable → broken (FailReply (FApp e)).
Proof. intros He. unfold FailReply. rewrite He. done. Qed.

Lemma not_answered f : ¬ answered (FailReply f).
Proof. unfold answered. pose proof (FailReply_status f). lia. Qed.

(** ** The shared parts *)

(** Loading supplier versions changes nothing, and fails as a server error. *)
Definition loaded_ok (r : res Failure Pickups) : Prop := ∀ f, r = Err f → broken (FailReply f).

Lemma load_versions_spec ids pickups k :
  hwp (load_versions ids pickups) k (λ r k', k' = k ∧ loaded_ok r).
Proof.
  revert pickups. induction ids as [|id ids IH]; intros pickups; simpl; [done|].
  destruct (pickups !! id); [apply IH|]. simpl. split; [done|]. intros r k' [-> Hgate].
  destruct r as [v|[e|w]]; simpl; [apply IH| |].
  - case_bool_decide; simpl; split; try done; intros f [= <-]; [done|].
    apply FailReply_dependency. specialize (Hgate e eq_refl). set_solver.
  - split; [done|]. by intros f [= <-].
Qed.

Lemma LoadPickups_spec es k : hwp (LoadPickups es) k (λ r k', k' = k ∧ loaded_ok r).
Proof. apply load_versions_spec. Qed.

(** [view] of [e], unless the supplier versions could not be read. *)
Definition shows (view : Errand → Pickups → HReply) (e : Errand) (reply : HReply) : Prop :=
  (∃ pickups, reply = view e pickups) ∨ (∃ f, reply = FailReply f ∧ broken reply).

Lemma respond_courier_spec e k :
  hwp (respond_courier e) k (λ reply k', k' = k ∧ shows OkCourier e reply).
Proof.
  eapply hwp_then; [apply LoadPickups_spec|]. intros [pickups|f] k' [-> Hl]; simpl; (split; [done|]).
  - left. by exists pickups.
  - right. exists f. split; [done|]. by apply Hl.
Qed.

Lemma respond_requester_spec e k :
  hwp (respond_requester e) k (λ reply k', k' = k ∧ shows (RequesterReply 200 None) e reply).
Proof.
  eapply hwp_then; [apply LoadPickups_spec|]. intros [pickups|f] k' [-> Hl]; simpl; (split; [done|]).
  - left. by exists pickups.
  - right. exists f. split; [done|]. by apply Hl.
Qed.

(** A refusal may leave a notice behind, but only when it is a conflict. *)
Definition noticed (k k' : know) : Prop := k' = k ∨ ∃ r, k' = commits (OReject r) k.

Lemma refuse_with_spec announce codes actor id caller v now err k :
  has_colon id = false →
  hwp (refuse_with announce codes actor id caller v now err) k
    (λ reply k', reply = FailReply err ∧ noticed k k' ∧ ((∃ w, err = FPlain w) → k' = k)).
Proof.
  intros Hid. unfold refuse_with. destruct announce as [a|]; [|simpl; unfold noticed; auto].
  destruct err as [e|w]; [|simpl; unfold noticed; auto]. destruct (has_code _ _); [|simpl; unfold noticed; auto].
  simpl. split; [done|]. intros [u|f] k'; simpl; intros Hk; (split_and!; [done| |by intros (? & ?)]);
    unfold noticed; [by eauto|]. destruct Hk; eauto.
Qed.

Lemma LostToDuplicate_spec id err done k :
  hwp (LostToDuplicate id err done) k (λ o k',
    match o with
    | Some e => toUUID id = Some (e_ID e) ∧ done e = true ∧ k' = reads e k ∧ (∀ w, err ≠ FPlain w)
    | None => k_log k' = k_log k
    end).
Proof.
  unfold LostToDuplicate. destruct (has_code err _) eqn:Hc; [|done]. simpl. split; [done|].
  intros [e|f] k'; simpl; [|by intros [-> _]]. intros [Hid ->]. destruct (done e) eqn:Hd; [|done].
  split_and!; try done. by intros w ->.
Qed.

(** ** Outcomes *)

Section outcome.
Context (id : string) (done : Errand → bool) (view : Errand → Pickups → HReply) (mine : Transition → Prop).

(** What a handler may have done by the time it answers. *)
Record outcome (reply : HReply) (k : know) : Prop := {
  oc_done : answered reply → ∃ e pickups, e ∈ k_read k ∧ toUUID id = Some (e_ID e) ∧ done e = true ∧
    reply = view e pickups;
  oc_log : k_log k = [] ∨ (∃ r, k_log k = [OReject r]) ∨ ∃ t, mine t ∧ k_log k = [OApply t];
  oc_refused : refused reply → ∀ t, OApply t ∉ k_log k;
  oc_error : ¬ answered reply → is_error (hp_Body reply);
}.

Lemma outcome_failed f k : k_log k = [] → outcome (FailReply f) k.
Proof.
  intros Hl. split; [by intros []%not_answered|by left| |intros _; apply FailReply_error].
  intros _ t. rewrite Hl. apply not_elem_of_nil.
Qed.

Lemma outcome_noticed f k k' : k_log k = [] → noticed k k' → outcome (FailReply f) k'.
Proof.
  intros Hl [->|(r & ->)]; [by apply outcome_failed|]. split; [by intros []%not_answered|..]; simpl; rewrite ?Hl.
  - right. left. by exists r.
  - intros _ t. simpl. intros Hin%list_elem_of_singleton. done.
  - intros _. apply FailReply_error.
Qed.

(** Showing an errand that bears the effect, after nothing or after the write. *)
Lemma outcome_shows e reply k :
  shows view e reply → (∀ e p, answered (view e p)) → e ∈ k_read k → toUUID id = Some (e_ID e) →
  done e = true → k_log k = [] ∨ (∃ t, mine t ∧ k_log k = [OApply t]) → outcome reply k.
Proof.
  intros Hsh Hview He Hid Hd Hl. split.
  - intros Ha. destruct Hsh as [(p & ->)|(f & -> & Hb)]; [eauto 10|]. by apply not_answered in Ha.
  - destruct Hl as [?|(t & ?)]; eauto.
  - unfold refused. destruct Hsh as [(p & ->)|(f & -> & Hb)]; [|unfold broken in Hb; lia].
    specialize (Hview e p). unfold answered in Hview. lia.
  - intros Hna. destruct Hsh as [(p & ->)|(f & -> & Hb)]; [by destruct Hna|apply FailReply_error].
Qed.

Lemma apply_or_duplicate_spec t e ev actor input now respond refuse k :
  e ∈ k_read k → input_fits e input → Next e ev actor input now = Ok t → toUUID id = Some (e_ID e) →
  mine t → k_log k = [] → (∀ e p, answered (view e p)) →
  done (canon (ApplyTo t e)) = true →
  (∀ e k, hwp (respond e) k (λ reply k', k' = k ∧ shows view e reply)) →
  (∀ err k, hwp (refuse err) k (λ reply k', reply = FailReply err ∧ noticed k k' ∧ ((∃ w, err = FPlain w) → k' = k))) →
  (∀ e' ev' actor' input' now', e' ∈ k_read k → Next e' ev' actor' input' now' = Ok t → e' = e) →
  hwp (apply_or_duplicate id t done respond refuse) k outcome.
Proof.
  intros He Hin Hnext Hid Hmine Hl Hview Hdone Hresp Hrefuse Honly. unfold apply_or_duplicate. simpl.
  split; [by exists e, ev, actor, input, now|]. intros [stored|f] k'.
  - intros ((e' & ev' & actor' & input' & now' & He' & Hn' & ->) & ->).
    rewrite (Honly _ _ _ _ _ He' Hn') in *. eapply hwp_mono; [|apply Hresp]. intros reply k' [-> Hsh].
    eapply outcome_shows; [done|done|by left| |done|].
    + destruct (Next_from _ _ _ _ _ _ Hnext) as (_ & _ & _). simpl. unfold canon_id.
      by rewrite (toUUID_canonical _ _ Hid).
    + right. exists t. simpl. by rewrite Hl.
  - intros Hk. eapply hwp_then; [apply LostToDuplicate_spec|]. intros [cur|] k1.
    + intros (Hid1 & Hd & -> & Hnp). destruct f as [a|w]; [|by edestruct Hnp]. subst k'.
      eapply hwp_mono; [|apply Hresp]. intros reply k' [-> Hsh].
      eapply outcome_shows; [done|done|by left|done|done|]. left. done.
    + intros Hlog. eapply hwp_mono; [|apply Hrefuse]. intros reply k2 (-> & Hno & Hplain).
      destruct f as [a|w].
      * subst k'. apply (outcome_noticed _ k1); [congruence|done].
      * rewrite (Hplain (ex_intro _ w eq_refl)). split; [by intros []%not_answered|rewrite Hlog|by intros []; done|done].
        destruct Hk as [->| ->]; [by left|]. right. right. exists t. simpl. by rewrite Hl.
Qed.

End outcome.

(** ** The effect of an action *)

Inductive Action := AAccept | AWithdraw | APickUp | ADeliver | AReportIssue | ACancel | AConfirm | ADispute.

Definition handler (a : Action) : HRequest → hproc HReply :=
  match a with
  | AAccept => accept
  | AWithdraw => withdraw
  | APickUp => pickUp
  | ADeliver => deliver
  | AReportIssue => reportIssue
  | ACancel => cancel
  | AConfirm => confirm
  | ADispute => dispute
  end.

Definition action_event (a : Action) : Event :=
  match a with
  | AAccept => EventAccept | AWithdraw => EventWithdraw | APickUp => EventPickUp | ADeliver => EventDeliver
  | AReportIssue => EventReportIssue | ACancel => EventCancel | AConfirm => EventConfirm | ADispute => EventDispute
  end.

Definition by_requester (a : Action) : bool :=
  match a with ACancel | AConfirm | ADispute => true | _ => false end.

Definition action_actor (a : Action) (caller : string) : Actor :=
  mkActor (if by_requester a then ActorRequester else ActorCourier) caller.

Definition reasoned (a : Action) : bool := match a with AReportIssue | ADispute => true | _ => false end.

Definition action_done (a : Action) (caller : string) (v : Z) (e : Errand) : bool :=
  match a with
  | AAccept => acceptedByCaller caller v e
  | AWithdraw => ca_Done withdrawAction e caller v
  | APickUp => ca_Done pickUpAction e caller v
  | ADeliver => ca_Done deliverAction e caller v
  | AReportIssue => ca_Done reportIssueAction e caller v
  | ACancel => ra_Done cancelAction e v
  | AConfirm => ra_Done confirmAction e v
  | ADispute => ra_Done disputeAction e v
  end.

Definition action_view (a : Action) : Errand → Pickups → HReply :=
  if by_requester a then RequesterReply 200 None else OkCourier.

Lemma action_view_ok a e p : answered (action_view a e p).
Proof. unfold action_view. by destruct (by_requester a). Qed.

(** A transition decided for this caller, errand and version. *)
Definition own_move (a : Action) (id caller : string) (v : Z) (t : Transition) : Prop :=
  ∃ e input now, toUUID id = Some (e_ID e) ∧ e_Version e = v ∧
    Next e (action_event a) (action_actor a caller) input now = Ok t.

(** A transition of the action bears its effect. *)
Lemma Next_done a caller e input now t :
  Next e (action_event a) (action_actor a caller) input now = Ok t →
  action_done a caller (e_Version e) (canon (ApplyTo t e)) = true.
Proof.
  intros (rule & [Hin Hf Hev Hact _ _ (t0 & Happ & ->)])%Next_inv.
  unfold applyEvent, newError in Happ. rewrite ApplyTo_outbox.
  destruct e as [id0 st ver req cour det pd dd da vd rr ck pe ca ua].
  each_rule Hin; simpl in Hev; (destruct a; try discriminate Hev); simpl in *; subst st; break_in Happ; simplify_eq/=;
    unfold drop_edit; simpl; try (destruct pe as [p0|]); simpl;
    unfold checkActor in Hact; simpl in Hact; break_in Hact; bool_props; simplify_eq/=;
    unfold acceptedByCaller; simpl; rewrite ?bool_decide_true by first [done | congruence]; simpl;
    rewrite ?Z.eqb_refl; done.
Qed.

(** ** The handlers *)

Definition action_outcome (a : Action) (id caller : string) (v : Z) : HReply → know → Prop :=
  outcome id (action_done a caller v) (action_view a) (own_move a id caller v).

(** The write, for an errand that was read and nothing else. *)
Lemma action_apply_spec a id caller v e input now t respond refuse k :
  k_read k = [e] → k_log k = [] → i_Edit input = None → toUUID id = Some (e_ID e) → e_Version e = v →
  Next e (action_event a) (action_actor a caller) input now = Ok t →
  (∀ e k, hwp (respond e) k (λ reply k', k' = k ∧ shows (action_view a) e reply)) →
  (∀ err k, hwp (refuse err) k (λ reply k', reply = FailReply err ∧ noticed k k' ∧ ((∃ w, err = FPlain w) → k' = k))) →
  hwp (apply_or_duplicate id t (action_done a caller v) respond refuse) k (action_outcome a id caller v).
Proof.
  intros Hr Hl Hin Hid <- Hnext Hresp Href.
  eapply (apply_or_duplicate_spec id (action_done a caller (e_Version e)) (action_view a) _ t e); try done.
  - rewrite Hr. by left.
  - intros d. by rewrite Hin.
  - by exists e, input, now.
  - apply action_view_ok.
  - by eapply Next_done.
  - intros e' ev' actor' input' now' He' _. rewrite Hr in He'. by apply list_elem_of_singleton in He'.
Qed.

Lemma refusal_outcome a id caller v announce codes actor now err k :
  has_colon id = false → k_log k = [] →
  hwp (refuse_with announce codes actor id caller v now err) k (action_outcome a id caller v).
Proof.
  intros Hc Hl. eapply hwp_mono; [|by apply refuse_with_spec]. intros reply k' (-> & Hn & _).
  by eapply outcome_noticed.
Qed.

Lemma shown_outcome a id caller v e reply k :
  shows (action_view a) e reply → e ∈ k_read k → toUUID id = Some (e_ID e) → k_log k = [] →
  action_done a caller v e = true → action_outcome a id caller v reply k.
Proof. intros. eapply outcome_shows; eauto using action_view_ok. Qed.

#[local] Arguments refuse_with : simpl never.
#[local] Arguments apply_or_duplicate : simpl never.
#[local] Arguments respond_courier : simpl never.
#[local] Arguments Next : simpl never.
#[local] Arguments LoadPickups : simpl never.

(** What a history read leaves known. *)
Lemma history_answer id courier k (r : res Failure CourierHistoryResult) k' :
  match r with
  | Ok h => if ch_WithdrewFromErrand h then ∃ u, toUUID id = Some u ∧ k' = withdrew u courier k else k' = k
  | Err _ => k' = k
  end → k_read k' = k_read k ∧ k_log k' = k_log k.
Proof. destruct r as [h|f]; [destruct (ch_WithdrewFromErrand h)|]; naive_solver. Qed.

Lemma accept_errand_spec courier id v e k :
  k_read k = [e] → k_log k = [] → has_colon id = false → toUUID id = Some (e_ID e) →
  hwp (accept_errand courier id v e) k (action_outcome AAccept id courier v).
Proof.
  intros Hr Hl Hc Hid. unfold accept_errand, accept_refuse. destruct (acceptedByCaller courier v e) eqn:Hd.
  { eapply hwp_mono; [|apply respond_courier_spec]. intros reply k' [-> Hsh].
    eapply shown_outcome; [done| |done..]. rewrite Hr. by left. }
  simpl. split; [done|]. intros now k' ->. split; [done|]. intros [settings|f] k' ->; simpl.
  2:{ by apply outcome_failed. }
  split; [done|]. intros r k' [Hr' Hl']%history_answer. rewrite <- Hr' in Hr. rewrite <- Hl' in Hl.
  destruct r as [h|f]; simpl; [|by apply outcome_failed].
  match goal with |- context [Next e EventAccept _ ?i _] => destruct (Next e EventAccept _ i now) as [t|err] eqn:Hn end.
  2:{ by apply (refusal_outcome AAccept). }
  destruct (e_Version e =? v) eqn:Hv; cbn [negb]; [|by apply (refusal_outcome AAccept)]. apply Z.eqb_eq in Hv.
  eapply (action_apply_spec AAccept _ _ _ e); [done|done| |done|done|apply Hn|..].
  - done.
  - intros. apply respond_courier_spec.
  - intros. by apply refuse_with_spec.
Qed.

Definition courier_action (a : Action) : CourierAction :=
  match a with APickUp => pickUpAction | ADeliver => deliverAction | AReportIssue => reportIssueAction | _ => withdrawAction end.

Definition requester_action (a : Action) : RequesterAction :=
  match a with AConfirm => confirmAction | ADispute => disputeAction | _ => cancelAction end.

Definition by_courier (a : Action) : bool :=
  match a with AWithdraw | APickUp | ADeliver | AReportIssue => true | _ => false end.

(** The caller carries the errand, or is known to have withdrawn from it. *)
Definition carried (id caller : string) (k : know) : Prop :=
  (∃ e, e ∈ k_read k ∧ toUUID id = Some (e_ID e) ∧ e_CourierID e = caller) ∨
  (∃ u, toUUID id = Some u ∧ (u, caller) ∈ k_former k).

Lemma carried_more id caller k k' : knows_more k k' → carried id caller k → carried id caller k'.
Proof. intros [Hr Hf] [(e & ? & ?)|(u & ? & ?)]; [left; exists e|right; exists u]; auto. Qed.

(** Refused with nothing written, not even a notice. *)
Definition turned_away (reply : HReply) (k : know) : Prop := k_log k = [] ∧ ¬ answered reply.

Lemma turned_away_failed f k : k_log k = [] → turned_away (FailReply f) k.
Proof. intros Hl. split; [done|apply not_answered]. Qed.

Lemma current_courier_spec a id caller v reason e k now :
  by_courier a = true → k_read k = [e] → k_log k = [] → has_colon id = false → toUUID id = Some (e_ID e) →
  action_done a caller v e = false →
  hwp (await input := courier_input (courier_action a) reason in
       match input with
       | Err err => hfail err
       | Ok input =>
           match Next e (ca_Event (courier_action a)) (mkActor ActorCourier caller) input now with
           | Err err => courier_refuse (courier_action a) id caller v now (FApp err)
           | Ok t =>
               if negb (e_Version e =? v) then courier_refuse (courier_action a) id caller v now staleVersion
               else
                 await loaded := LoadPickups [e] in
                 match loaded with
                 | Err err => hfail err
                 | Ok pickups =>
                     apply_or_duplicate id t (λ current, ca_Done (courier_action a) current caller v)
                       (λ stored, PRet (OkCourier stored pickups)) (courier_refuse (courier_action a) id caller v now)
                 end
           end
       end) k (action_outcome a id caller v).
Proof.
  intros Ha Hr Hl Hc Hid Hd. unfold courier_refuse, courier_input.
  assert (ca_Event (courier_action a) = action_event a) as Hev by (by destruct a).
  assert (action_actor a caller = mkActor ActorCourier caller) as Hact by (by destruct a).
  assert (action_view a = OkCourier) as Hview by (by destruct a).
  eapply (hwp_then _ _ _ (λ r k', k' = k ∧ (∀ i, r = Ok i → i_Edit i = None))).
  { destruct (ca_NeedsDeadlines _); simpl; [|split; [done|by intros i [= <-]]]. split; [done|].
    intros [s|f] k' ->; (split; [done|]); [by intros i [= <-]|done]. }
  intros [input|f] k' [-> Hin]; [|by apply outcome_failed]. rewrite Hev, <- Hact.
  destruct (Next e (action_event a) (action_actor a caller) input now) as [t|err] eqn:Hn.
  2:{ by apply (refusal_outcome a). }
  destruct (e_Version e =? v) eqn:Hv; cbn [negb]; [|by apply (refusal_outcome a)]. apply Z.eqb_eq in Hv.
  eapply hwp_then; [apply LoadPickups_spec|]. intros [pickups|f] k' [-> Hlo]; [|by apply outcome_failed].
  replace (λ current, ca_Done (courier_action a) current caller v) with (action_done a caller v)
    by (by destruct a).
  eapply (action_apply_spec a _ _ _ e); [done|done| |done|done|apply Hn|..].
  - by apply Hin.
  - intros e' k'. split; [done|]. left. exists pickups. by rewrite Hview.
  - intros. by apply refuse_with_spec.
Qed.

Lemma courier_errand_spec a id caller v reason e k :
  by_courier a = true → k_read k = [e] → k_log k = [] → has_colon id = false → toUUID id = Some (e_ID e) →
  hwp (courier_errand (courier_action a) id caller v reason e) k (λ reply k',
    action_outcome a id caller v reply k' ∧ (carried id caller k' ∨ turned_away reply k')).
Proof.
  intros Ha Hr Hl Hc Hid.
  assert (∀ e, ca_Done (courier_action a) e caller v = action_done a caller v e) as Hdone by (by destruct a).
  assert (action_view a = OkCourier) as Hview by (by destruct a).
  assert (∀ k', k_read k' = k_read k → k_log k' = k_log k → action_done a caller v e = true →
    hwp (respond_courier e) k' (λ reply k2, action_outcome a id caller v reply k2 ∧ k2 = k')) as Hshow.
  { intros k' Hr' Hl' Hd. eapply hwp_mono; [|apply respond_courier_spec]. intros reply k2 [-> Hsh].
    split; [|done]. eapply shown_outcome; [by rewrite Hview| |done| |done]; [|congruence].
    rewrite Hr', Hr. by left. }
  unfold courier_errand. simpl. split; [done|]. intros now k' ->.
  case_bool_decide as Hcour; cbn [negb].
  - assert (carried id caller k) as Hcar by (left; exists e; rewrite Hr; split; [by left|done]).
    rewrite Hdone. destruct (action_done a caller v e) eqn:Hd.
    + eapply hwp_mono; [|by apply Hshow]. intros reply k2 [? ->]. auto.
    + eapply hwp_mono; [|by apply hwp_keeps, current_courier_spec]. intros reply k2 [? Hm].
      split; [done|]. left. by eapply carried_more.
  - unfold notCourier, courier_refuse, formerCourier. simpl. split; [done|]. intros r k' Hk.
    destruct (history_answer _ _ _ _ _ Hk) as [Hr' Hl']. rewrite Hl in Hl'.
    assert (∀ f, action_outcome a id caller v (FailReply f) k' ∧
      (carried id caller k' ∨ turned_away (FailReply f) k')) as Haway.
    { intros f. split; [by apply outcome_failed|right; by apply turned_away_failed]. }
    destruct r as [h|f]; simpl; [|apply Haway].
    destruct (ch_WithdrewFromErrand h); cbn [negb]; [|apply Haway]. rewrite Hdone.
    assert (carried id caller k') as Hcar.
    { right. destruct Hk as (u & Hu & ->). exists u. simpl. split; [|by left].
      by rewrite Hid, <- Hu, (toUUID_canonical _ _ Hid). }
    destruct (action_done a caller v e) eqn:Hd.
    + eapply hwp_mono; [|apply Hshow; by rewrite ?Hl]. intros reply k2 [? ->]. auto.
    + eapply hwp_mono; [|apply hwp_keeps, refuse_with_spec; by eapply toUUID_no_colon].
      intros reply k2 [(-> & Hn & _) Hm]. split; [by eapply outcome_noticed|]. left. by eapply carried_more.
Qed.

Lemma requester_errand_spec a id caller v reason e k :
  by_requester a = true → k_read k = [e] → k_log k = [] → has_colon id = false → toUUID id = Some (e_ID e) →
  hwp (requester_errand (requester_action a) id caller v reason e) k (action_outcome a id caller v).
Proof.
  intros Ha Hr Hl Hc Hid.
  assert (∀ e, ra_Done (requester_action a) e v = action_done a caller v e) as Hdone by (by destruct a).
  assert (ra_Event (requester_action a) = action_event a) as Hev by (by destruct a).
  assert (action_actor a caller = mkActor ActorRequester caller) as Hact by (by destruct a).
  assert (action_view a = RequesterReply 200 None) as Hview by (by destruct a).
  unfold requester_errand, requester_refuse. rewrite Hdone. destruct (action_done a caller v e) eqn:Hd.
  { eapply hwp_mono; [|apply respond_requester_spec]. intros reply k' [-> Hsh].
    eapply shown_outcome; [by rewrite Hview| |done..]. rewrite Hr. by left. }
  simpl. split; [done|]. intros now k' ->. rewrite Hev, <- Hact.
  destruct (Next e (action_event a) (action_actor a caller) _ now) as [t|err] eqn:Hn.
  2:{ by apply (refusal_outcome a). }
  destruct (e_Version e =? v) eqn:Hv; cbn [negb]; [|by apply (refusal_outcome a)]. apply Z.eqb_eq in Hv.
  eapply hwp_then; [apply LoadPickups_spec|]. intros [pickups|f] k' [-> Hlo]; [|by apply outcome_failed].
  replace (λ current, ra_Done (requester_action a) current v) with (action_done a caller v)
    by (by destruct a).
  eapply (action_apply_spec a _ _ _ e); [done|done| |done|done|apply Hn|..].
  - done.
  - intros e' k'. split; [done|]. left. exists pickups. by rewrite Hview.
  - intros. by apply refuse_with_spec.
Qed.

(** ** Whole requests *)

(** The caller, the errand and the expected version of a well-formed request. *)
Definition command_of (a : Action) (rq : HRequest) : option (string * string * Z) :=
  match Caller rq, ErrandID rq, read_body (reasoned a) (hq_Body rq) with
  | Ok caller, Ok id, Ok (v, _) => Some (caller, id, v)
  | _, _, _ => None
  end.

(** What the caller must be to the errand. *)
Definition standing (a : Action) (id caller : string) (k : know) : Prop :=
  if by_requester a then ∃ e, e ∈ k_read k ∧ toUUID id = Some (e_ID e) ∧ e_RequesterID e = caller
  else if by_courier a then carried id caller k
  else True.

Definition request_outcome (a : Action) (rq : HRequest) (reply : HReply) (k : know) : Prop :=
  match command_of a rq with
  | Some (caller, id, v) =>
      action_outcome a id caller v reply k ∧ (standing a id caller k ∨ turned_away reply k)
  | None => refused reply ∧ is_error (hp_Body reply) ∧ k_log k = []
  end.

Lemma verdict_refused {A} (c : checked A) f : verdict c = Err f → refused (FailReply f).
Proof. unfold verdict. destruct c.2; [done|]. by intros [= <-]. Qed.

Lemma ReadObject_refused body n f : ReadObject body n = Err f → refused (FailReply f).
Proof.
  unfold ReadObject, DecodeObject. destruct (bd_Len body) as [m|]; [|by intros [= <-]].
  destruct (n <? m); [by intros [= <-]|]. destruct (bd_JSON body) as [[]|]; by intros [= <-].
Qed.

Lemma read_body_refused b body f : read_body b body = Err f → refused (FailReply f).
Proof.
  unfold read_body, ReadReasonedAction, ReadVersionedAction. destruct b.
  - destruct (ReadObject body maxActionBytes) as [raw|] eqn:Hr; [apply verdict_refused|].
    intros [= <-]. by eapply ReadObject_refused.
  - destruct (ReadObject body maxActionBytes) as [raw|] eqn:Hr.
    + destruct (verdict _) eqn:Hv; [done|]. intros [= <-]. by eapply verdict_refused.
    + intros [= <-]. by eapply ReadObject_refused.
Qed.

Lemma ErrandID_ok rq id : ErrandID rq = Ok id → has_colon id = false.
Proof.
  unfold ErrandID. destruct (uuid_pattern (hq_ErrandID rq)) eqn:Hp; simpl; [|done]. intros [= <-].
  apply StoreScenario.uuid_no_colon. by rewrite uuid_lower.
Qed.

Lemma Caller_refused rq reply : Caller rq = Err reply → refused reply ∧ is_error (hp_Body reply).
Proof. unfold Caller. destruct (hq_Principal rq); [case_bool_decide|]; by intros [= <-]. Qed.

#[local] Arguments accept_errand : simpl never.
#[local] Arguments courier_errand : simpl never.
#[local] Arguments requester_errand : simpl never.
#[local] Arguments read_body : simpl never.
#[local] Arguments ReadVersionedAction : simpl never.
#[local] Arguments FailReply : simpl never.

Lemma accept_spec rq : hwp (accept rq) nothing (request_outcome AAccept rq).
Proof.
  unfold accept, request_outcome, command_of, read_body. cbn [reasoned].
  destruct (Caller rq) as [caller|reply] eqn:Hc; [|simpl; by destruct (Caller_refused _ _ Hc)].
  destruct (ErrandID rq) as [id|f] eqn:Hi; [|simpl; unfold ErrandID in Hi; by break_in Hi].
  destruct (ReadVersionedAction (hq_Body rq)) as [v|f] eqn:Hb.
  2:{ simpl. split; [|split; [apply FailReply_error|done]]. apply (read_body_refused false (hq_Body rq)).
      unfold read_body. by rewrite Hb. }
  simpl. split; [done|]. intros [e|f] k'; simpl.
  - intros [Hid ->]. eapply hwp_mono; [|apply accept_errand_spec; try done; by eapply ErrandID_ok].
    intros reply k Ho. split; [done|]. by left.
  - intros [-> _]. split; [by apply outcome_failed|]. by left.
Qed.

Lemma courier_spec a rq : by_courier a = true → hwp (handler a rq) nothing (request_outcome a rq).
Proof.
  intros Ha.
  assert (handler a rq = courier_transition (courier_action a) rq) as -> by (by destruct a).
  assert (by_requester a = false) as Hnr by (by destruct a).
  assert (ca_Reasoned (courier_action a) = reasoned a) as Hre by (by destruct a).
  unfold courier_transition, request_outcome, command_of, standing. rewrite Hre, Ha, Hnr.
  destruct (Caller rq) as [caller|reply] eqn:Hc; [|simpl; by destruct (Caller_refused _ _ Hc)].
  destruct (ErrandID rq) as [id|f] eqn:Hi; [|simpl; unfold ErrandID in Hi; by break_in Hi].
  destruct (read_body (reasoned a) (hq_Body rq)) as [[v reason]|f] eqn:Hb.
  2:{ simpl. split; [by eapply read_body_refused|split; [apply FailReply_error|done]]. }
  simpl. split; [done|]. intros [e|f] k'; simpl.
  - intros [Hid ->]. apply courier_errand_spec; try done. by eapply ErrandID_ok.
  - intros [-> _]. split; [by apply outcome_failed|]. right. by apply turned_away_failed.
Qed.

Lemma requester_spec a rq : by_requester a = true → hwp (handler a rq) nothing (request_outcome a rq).
Proof.
  intros Ha.
  assert (handler a rq = requester_transition (requester_action a) rq) as -> by (by destruct a).
  assert (ra_Reasoned (requester_action a) = reasoned a) as Hre by (by destruct a).
  unfold requester_transition, request_outcome, command_of, standing. rewrite Hre, Ha.
  destruct (Caller rq) as [caller|reply] eqn:Hc; [|simpl; by destruct (Caller_refused _ _ Hc)].
  destruct (ErrandID rq) as [id|f] eqn:Hi; [|simpl; unfold ErrandID in Hi; by break_in Hi].
  destruct (read_body (reasoned a) (hq_Body rq)) as [[v reason]|f] eqn:Hb.
  2:{ simpl. split; [by eapply read_body_refused|split; [apply FailReply_error|done]]. }
  simpl. split; [done|]. intros [e|f] k'; simpl.
  - intros [Hid ->]. case_bool_decide as Hq; simpl.
    + eapply hwp_mono; [|apply hwp_keeps, requester_errand_spec; try done; by eapply ErrandID_ok].
      intros reply k [Ho [Hm _]]. split; [done|]. left. exists e. split; [apply Hm; by left|done].
    + split; [by apply outcome_failed|]. right. by apply turned_away_failed.
  - intros [-> _]. split; [by apply outcome_failed|]. right. by apply turned_away_failed.
Qed.

(** Every action, from the request to the answer. *)
Lemma handler_spec a rq : hwp (handler a rq) nothing (request_outcome a rq).
Proof.
  destruct a; first [apply accept_spec | apply courier_spec; done | apply requester_spec; done].
Qed.

End logic.
