(* ===== verification/HttpForms.v ===== *)
(** * order-service: what creating and editing guarantee

    The validator accepts exactly what the API describes field by field, and
    what it accepts the state machine does not refuse.  Preconditions of
    [PATCH /errands/{errandId}] and [POST /errands], and the errand ID that
    makes creation idempotent. *)

From S2P Require Import Prelude Proc GoText Json GoTime Sha Errand Settings ErrandState ErrandJson ErrandInv ErrandProps ErrandStore Fence OpsRepo StoreInv StoreSafe StoreSystem ErrandLists StoreHistory StoreProps ErrandHttp ErrandActions ErrandForms HttpSystem HttpLogic.

(** ** One field at a time *)

Lemma cbind_nil {A B} (m : checked A) (k : A → checked B) : (cbind m k).2 = [] ↔ m.2 = [] ∧ (k m.1).2 = [].
Proof. unfold cbind. simpl. split; [apply app_eq_nil|by intros [-> ->]]. Qed.

Lemma value_required v name : (value v name true).2 = [] → ∃ j, (value v name true).1 = Some j ∧ v_raw v !! name = Some j.
Proof.
  unfold value, Has, vfail, cret. destruct (v_raw v !! name) as [[]|]; simpl; try done; eauto.
Qed.

Lemma value_optional v name : (value v name false).1 = None ∨ ∃ j, (value v name false).1 = Some j.
Proof. destruct (value v name false).1; eauto. Qed.

Lemma vstring_required v name :
  (vstring v name true).2 = [] → ∃ s, (vstring v name true).1 = Some s.
Proof.
  unfold vstring. intros [Hv Hs]%cbind_nil. destruct (value_required _ _ Hv) as (j & Hj & _).
  unfold cbind. cbn [fst snd]. rewrite Hj in *. destruct j; simpl in *; try done. eauto.
Qed.

Lemma vUUID_ok v name : (vUUID v name true).2 = [] →
  uuid_pattern (vUUID v name true).1 = true ∧ to_lower (vUUID v name true).1 = (vUUID v name true).1.
Proof.
  unfold vUUID. intros [Hv Hs]%cbind_nil. destruct (vstring_required _ _ Hv) as (s & Hj).
  unfold cbind. cbn [fst]. rewrite Hj in *. destruct (uuid_pattern s) eqn:Hp; cbn [negb] in *; [|done].
  cbn [cret fst]. by rewrite uuid_lower, to_lower_idem.
Qed.

(** What a text rule asks. *)
Definition text_ok (rule : TextRule) (s : string) : Prop :=
  (tr_NotBlank rule = true → trim_space s ≠ "") ∧ rune_count s ≤ tr_Max rule ∧
  (tr_Contact rule = true → existsb is_control (runes s) = false).

Lemma vText_value v name required rule s :
  (vText v name required rule).2 = [] → (vstring v name required).1 = Some s →
  (vText v name required rule).1 = s ∧ text_ok rule s.
Proof.
  unfold vText, vfail. intros [Hv Hs]%cbind_nil Hj. unfold cbind. cbn [fst snd]. rewrite Hj in *. unfold text_ok.
  destruct (tr_NotBlank rule && _) eqn:H1; [done|]. destruct (tr_Max rule <? rune_count s) eqn:H2; [done|].
  destruct (tr_Contact rule && _) eqn:H3; [done|]. split; [done|]. apply Z.ltb_ge in H2.
  split_and!; [|done|].
  - intros Hb. rewrite Hb in H1. by apply bool_decide_eq_false in H1.
  - intros Hc. by rewrite Hc in H3.
Qed.

Lemma vText_ok v name rule : (vText v name true rule).2 = [] → text_ok rule (vText v name true rule).1.
Proof.
  intros Hn. pose proof Hn as [Hv _]%cbind_nil. destruct (vstring_required _ _ Hv) as (s & Hj).
  destruct (vText_value _ _ _ _ _ Hn Hj) as [-> ?]. done.
Qed.

(** An optional text may be missing. *)
Lemma vText_optional v name rule :
  (vText v name false rule).2 = [] → (vText v name false rule).1 = "" ∨ text_ok rule (vText v name false rule).1.
Proof.
  intros Hn. destruct (vstring v name false).1 as [s|] eqn:Hj.
  - destruct (vText_value _ _ _ _ _ Hn Hj) as [-> ?]. by right.
  - left. unfold vText, cbind. cbn [fst snd]. by rewrite Hj.
Qed.

Lemma vInteger_ok v name lo hi message :
  (vInteger v name true lo hi message).2 = [] → lo ≤ (vInteger v name true lo hi message).1 ≤ hi.
Proof.
  unfold vInteger. intros [Hv Hs]%cbind_nil. destruct (value_required _ _ Hv) as (j & Hj & _).
  unfold cbind. cbn [fst snd]. rewrite Hj in *. destruct j; simpl in *; try done.
  destruct (_ || _) eqn:Hb; simpl in *; [done|]. bool_props. lia.
Qed.

(** ** Items *)

(** [{description, quantity}] as it is stored. *)
Definition item_ok (j : json) : Prop :=
  ∃ description quantity, j = JObj [("description", JStr description); ("quantity", JInt quantity)] ∧
    text_ok itemDescriptionText description ∧ 1 ≤ quantity ≤ maxItemQuantity.

Definition items_ok (items : option json) : Prop :=
  ∃ l, items = Some (JArr l) ∧ (1 ≤ length l ≤ maxItems)%nat ∧ Forall item_ok l.

Lemma vItem_ok v at_ element : (vItem v at_ element).2 = [] → ∃ j, (vItem v at_ element).1 = Some j ∧ item_ok j.
Proof.
  unfold vItem. destruct element; try done. match goal with |- context [match (cbind ?m ?k).2 with _ => _ end] =>
    set (r := cbind m k) end.
  destruct r.2 eqn:Hr; [|done]. intros _. exists r.1. split; [done|]. unfold r in Hr.
  apply cbind_nil in Hr as [Hd [Hq _]%cbind_nil]. eexists _, _. split; [reflexivity|].
  split; [by apply vText_ok|by apply vInteger_ok].
Qed.

Lemma vItem_list_ok v name i l :
  (vItem_list v name i l).2 = [] → ∃ l', (vItem_list v name i l).1 = Some l' ∧ length l' = length l ∧ Forall item_ok l'.
Proof.
  revert i. induction l as [|x l IH]; intros i; cbn [vItem_list]; [by exists []|].
  intros [Hx [Hl _]%cbind_nil]%cbind_nil. destruct (vItem_ok _ _ _ Hx) as (j & Hj & Hok).
  destruct (IH _ Hl) as (l' & Hl' & Hlen & Hall). exists (j :: l'). unfold cbind. cbn [fst snd]. rewrite Hj, Hl'.
  split_and!; [done|simpl; congruence|by constructor].
Qed.

Lemma vItems_ok v name : (vItems v name true).2 = [] → items_ok (vItems v name true).1.
Proof.
  unfold vItems. intros [Hv Hs]%cbind_nil. destruct (value_required _ _ Hv) as (j & Hj & _).
  unfold cbind in *. cbn [fst snd] in *. rewrite Hj in *. destruct j as [| | | | |l|]; simpl in *; try done.
  case_bool_decide as Hne; [done|]. destruct (maxItems <? length l)%nat eqn:Hmax; [done|]. apply Nat.ltb_ge in Hmax.
  simpl in *. rewrite app_nil_r in Hs. destruct (vItem_list_ok _ _ _ _ Hs) as (l' & -> & Hlen & Hall).
  exists l'. split; [done|]. split; [|done]. rewrite Hlen. destruct l; [done|]. simpl in *. lia.
Qed.

(** ** The deadline *)

Lemma vDateTime_ok v name : (vDateTime v name false).2 = [] → (vDateTime v name false).1.2 = true.
Proof.
  unfold vDateTime. intros [Hv Hs]%cbind_nil. unfold cbind. cbn [fst snd].
  destruct (vstring v name false).1 as [s|] eqn:Hj.
  - unfold vfail in *. destruct (parse_rfc3339 s); [done|]. done.
  - cbn [cret fst snd]. rewrite andb_true_r. apply negb_true_iff. revert Hv Hj. unfold vstring, cbind, vfail. cbn [fst snd].
    unfold value. destruct (Has v name) eqn:Hh; cbn [negb]; [|done]. unfold Has in Hh.
    by destruct (v_raw v !! name) as [[]|].
Qed.

Lemma readAcceptanceDeadline_ok v name now :
  (readAcceptanceDeadline v name now).2 = [] →
  acceptanceDeadlineProblem (readAcceptanceDeadline v name now).1 now = None.
Proof.
  unfold readAcceptanceDeadline. intros [Hv Hs]%cbind_nil. unfold cbind. cbn [fst snd].
  rewrite (vDateTime_ok _ _ Hv) in *. cbn [negb] in *.
  unfold AcceptanceDeadline in *. destruct (vDateTime v name false).1.1 as [r|]; cbn [fst snd cret] in *.
  - unfold ValidateAcceptanceDeadline, validationError in *.
    destruct (acceptanceDeadlineProblem r now) eqn:Hp; [done|]. done.
  - unfold acceptanceDeadlineProblem, DefaultAcceptanceWindow, MinAcceptanceWindow, MaxAcceptanceWindow, hour, minute, nsec.
    repeat match goal with |- context [?a <? ?b] => destruct (Z.ltb_spec a b); try lia end. done.
Qed.

(** ** The whole body *)

(** What the API asks of each field. *)
Record input_well_formed (in_ : Input) (now : Z) : Prop := {
  iw_supplier : uuid_pattern (in_SupplierID in_) = true ∧ to_lower (in_SupplierID in_) = in_SupplierID in_;
  iw_building : uuid_pattern (in_DeliveryBuildingID in_) = true ∧
    to_lower (in_DeliveryBuildingID in_) = in_DeliveryBuildingID in_;
  iw_detail : text_ok DeliveryDetailText (in_DeliveryDetail in_);
  iw_items : items_ok (in_Items in_);
  iw_notes : text_ok NotesText (in_Notes in_);
  iw_name : text_ok ContactNameText (in_ContactName in_);
  iw_mobile : text_ok ContactMobileText (in_ContactMobile in_);
  iw_reward : 1 ≤ in_Reward in_ ≤ max_int32;
  iw_deadline : acceptanceDeadlineProblem (in_AcceptanceDeadline in_) now = None;
}.

Lemma parseInput_well_formed body now in_ : parseInput body now = Ok in_ → input_well_formed in_ now.
Proof.
  unfold parseInput, verdict. destruct (DecodeObject body) as [raw|]; [|done]. set (v := NewValidator raw).
  destruct (readInput v now).2 eqn:Hr; [|done]. intros [= <-]. unfold readInput in Hr.
  apply cbind_nil in Hr as [H1 Hr]. apply cbind_nil in Hr as [H2 Hr]. apply cbind_nil in Hr as [H3 Hr].
  apply cbind_nil in Hr as [H4 Hr]. apply cbind_nil in Hr as [H5 Hr]. apply cbind_nil in Hr as [H6 Hr].
  apply cbind_nil in Hr as [H7 Hr]. apply cbind_nil in Hr as [H8 Hr]. apply cbind_nil in Hr as [H9 _].
  split.
  - by apply (vUUID_ok v "supplierId").
  - by apply (vUUID_ok v "deliveryBuildingId").
  - by apply (vText_ok v "deliveryDetail").
  - by apply (vItems_ok v "items").
  - destruct (vText_optional v "notes" NotesText H5) as [Hn|Hn]; [|exact Hn].
    change (text_ok NotesText (vText v "notes" false NotesText).1). rewrite Hn. by split_and!.
  - by apply (vText_ok v "contactName").
  - by apply (vText_ok v "contactMobile").
  - by apply (vInteger_ok v "reward" 1 max_int32 "must be a positive integer").
  - by apply (readAcceptanceDeadline_ok v "acceptanceDeadline").
Qed.

Lemma contact_field_ok name s max : text_ok (mkTextRule max true true) s → contact_field name s max = [].
Proof.
  intros (Hb & Hm & Hc). simpl in *. unfold contact_field, contactProblem, isBlank.
  rewrite (bool_decide_false (trim_space s = "")) by by apply Hb. rewrite (proj2 (Z.ltb_ge _ _)) by done. by rewrite Hc.
Qed.

Lemma well_formed_validates in_ now d :
  input_well_formed in_ now → d_Reward d = in_Reward in_ → d_Items d = in_Items in_ →
  d_ContactName d = in_ContactName in_ → d_ContactMobile d = in_ContactMobile in_ →
  d_AcceptanceDeadline d = in_AcceptanceDeadline in_ → validateDetails d now true = Ok tt.
Proof.
  intros [_ _ _ (l & Hi & [Hl _] & _) _ Hn Hm Hr Hd] Er Ei En Em Ed. unfold validateDetails.
  rewrite Er, Ei, En, Em, Ed, Hi, Hd. rewrite (proj2 (Z.leb_gt _ _)) by lia.
  rewrite (contact_field_ok _ _ _ Hn), (contact_field_ok _ _ _ Hm). simpl. by destruct l; [simpl in Hl; lia|].
Qed.

(** Whatever the building and the supplier version turn out to be. *)
Lemma well_formed_submits id requester key in_ now version building :
  id ≠ "" → requester ≠ "" → input_well_formed in_ now →
  ∃ t, Next (new_errand id requester key in_ version building) EventSubmit (mkActor ActorRequester requester)
         (no_input "" no_deadlines) now = Ok t ∧ t_To t = StatusPendingReservation.
Proof.
  intros Hid Hq Hin. set (e := new_errand _ _ _ _ _ _).
  assert (validateDetails (e_Details e) now true = Ok tt) as Hv by by eapply well_formed_validates.
  edestruct (Next_moves e EventSubmit (mkActor ActorRequester requester) (no_input "" no_deadlines) now)
    as (t & Ht & _ & Hto); [by left|done|rules_for|..].
  - unfold checkActor. simpl. rewrite (bool_decide_false (requester = "")) by done. simpl. by rewrite bool_decide_true by done.
  - reflexivity.
  - done.
  - simpl. unfold applyEvent. cbn -[validateDetails]. rewrite (bool_decide_false (id = "")) by done.
    cbn -[validateDetails] in Hv. rewrite Hv. reflexivity.
  - reflexivity.
  - by exists t.
Qed.

(** ** The errand ID *)

Lemma is_hex_digit n : 0 ≤ n < 16 → is_hex (hex_digit n) = true ∧ lower_ascii (hex_digit n) = hex_digit n.
Proof.
  intros Hn. assert (n = 0 ∨ n = 1 ∨ n = 2 ∨ n = 3 ∨ n = 4 ∨ n = 5 ∨ n = 6 ∨ n = 7 ∨ n = 8 ∨ n = 9 ∨ n = 10 ∨
    n = 11 ∨ n = 12 ∨ n = 13 ∨ n = 14 ∨ n = 15) as Hin by lia.
  destruct_or! Hin; by subst n.
Qed.

(** A byte is two lower-case hexadecimal digits. *)
Lemma match_hex_bytes bs cs rest :
  Forall is_byte bs →
  match_classes (replicate (2 * length bs) is_hex ++ cs) (hex_bytes bs +:+ rest) = match_classes cs rest ∧
  to_lower (hex_bytes bs +:+ rest) = hex_bytes bs +:+ to_lower rest.
Proof.
  induction 1 as [|b bs Hb _ [IH1 IH2]]; [done|].
  assert (0 ≤ Z.land (Z.shiftr b 4) 15 < 16 ∧ 0 ≤ Z.land b 15 < 16) as [H1 H2].
  { change 15 with (Z.ones 4). rewrite !Z.land_ones by lia. split; apply Z.mod_pos_bound; lia. }
  destruct (is_hex_digit _ H1) as [Hx1 Hl1], (is_hex_digit _ H2) as [Hx2 Hl2].
  replace (2 * length (b :: bs))%nat with (S (S (2 * length bs))) by (simpl; lia).
  cbn [replicate app hex_bytes foldr]. unfold hex_byte at 1 3 5. rewrite !sapp_cons. cbn [match_classes to_lower].
  change (("" +:+ foldr (λ b acc, hex_byte b +:+ acc) "" bs) +:+ rest) with (hex_bytes bs +:+ rest).
  rewrite Hx1, Hx2, Hl1, Hl2, IH2. cbn [andb]. by rewrite IH1.
Qed.

(** The 16 bytes of the ID, the version and the variant set. *)
Definition id_bytes (requesterID key : string) : list Z :=
  let u := take 16 (sha1 (errandID_input requesterID key)) in
  alter (λ b, Z.lor (Z.land b 0x3f) 0x80) 8%nat (alter (λ b, Z.lor (Z.land b 0x0f) 0x50) 6%nat u).

Lemma lor_byte b m x : is_byte b → is_byte m → is_byte x → is_byte (Z.lor (Z.land b m) x).
Proof.
  unfold is_byte. intros Hb Hm Hx.
  assert (∀ z, 0 ≤ z < 256 ↔ 0 ≤ z ∧ Z.shiftr z 8 = 0) as Heq.
  { intros z. rewrite Z.shiftr_div_pow2 by lia. split; intros [? Hz]; (split; [lia|]).
    - apply Z.div_small. lia.
    - apply Z.div_small_iff in Hz; lia. }
  apply Heq in Hb as [Hb Hb'], Hx as [Hx Hx'], Hm as [Hm _]. apply Heq. split.
  - apply Z.lor_nonneg. split; [|lia]. apply Z.land_nonneg. lia.
  - rewrite Z.shiftr_lor, Z.shiftr_land, Hb', Hx'. by rewrite Z.land_0_l.
Qed.

Lemma id_bytes_shape requester key : Forall is_byte (id_bytes requester key) ∧ length (id_bytes requester key) = 16%nat.
Proof.
  destruct (sha1_shape (errandID_input requester key)) as [Hb Hl]. unfold id_bytes. split.
  - apply Forall_alter; [apply Forall_alter; [by apply Forall_take|]|].
    + intros b _ Hby. apply lor_byte; [done|unfold is_byte; lia..].
    + intros b _ Hby. apply lor_byte; [done|unfold is_byte; lia..].
  - rewrite !length_alter, length_take, Hl. lia.
Qed.

Lemma errandID_bytes requester key (u := id_bytes requester key) :
  errandID requester key =
  hex_bytes (take 4 u) +:+ "-" +:+ hex_bytes (take 2 (drop 4 u)) +:+ "-" +:+ hex_bytes (take 2 (drop 6 u))
  +:+ "-" +:+ hex_bytes (take 2 (drop 8 u)) +:+ "-" +:+ hex_bytes (take 6 (drop 10 u)) +:+ "".
Proof. unfold u. by rewrite sapp_nil. Qed.

(** Every errand ID is a UUID in lower case. *)
Lemma errandID_uuid requester key :
  uuid_pattern (errandID requester key) = true ∧ to_lower (errandID requester key) = errandID requester key.
Proof.
  rewrite errandID_bytes. destruct (id_bytes_shape requester key) as [Hb Hl].
  set (u := id_bytes requester key) in *.
  assert (∀ k n, Forall is_byte (take n (drop k u))) as Hpart by (intros; by apply Forall_take, Forall_drop).
  assert (∀ k n cs rest, (k + n ≤ 16)%nat →
    match_classes (replicate (2 * n) is_hex ++ cs) (hex_bytes (take n (drop k u)) +:+ rest) = match_classes cs rest ∧
    to_lower (hex_bytes (take n (drop k u)) +:+ rest) = hex_bytes (take n (drop k u)) +:+ to_lower rest) as Hmatch.
  { intros k n cs rest Hk. destruct (match_hex_bytes (take n (drop k u)) cs rest (Hpart k n)) as [Hm Hlo].
    rewrite length_take, length_drop, Hl, Nat.min_l in Hm by lia. done. }
  assert (∀ cs rest, match_classes ([is_dash] ++ cs) ("-" +:+ rest) = match_classes cs rest) as Hdash by done.
  assert (∀ rest, to_lower ("-" +:+ rest) = "-" +:+ to_lower rest) as Hdash' by done.
  change (take 4 u) with (take 4 (drop 0 u)). split.
  - unfold uuid_pattern, uuid_classes.
    rewrite (proj1 (Hmatch 0%nat 4%nat _ _ ltac:(lia))), Hdash,
      (proj1 (Hmatch 4%nat 2%nat _ _ ltac:(lia))), Hdash,
      (proj1 (Hmatch 6%nat 2%nat _ _ ltac:(lia))), Hdash,
      (proj1 (Hmatch 8%nat 2%nat _ _ ltac:(lia))), Hdash.
    rewrite <- (app_nil_r (replicate 12 is_hex)).
    by rewrite (proj1 (Hmatch 10%nat 6%nat _ _ ltac:(lia))).
  - rewrite (proj2 (Hmatch 0%nat 4%nat [] _ ltac:(lia))), Hdash',
      (proj2 (Hmatch 4%nat 2%nat [] _ ltac:(lia))), Hdash',
      (proj2 (Hmatch 6%nat 2%nat [] _ ltac:(lia))), Hdash',
      (proj2 (Hmatch 8%nat 2%nat [] _ ltac:(lia))), Hdash'.
    by rewrite (proj2 (Hmatch 10%nat 6%nat [] _ ltac:(lia))).
Qed.

Lemma version_digit b : hex_digit (Z.land (Z.shiftr (Z.lor (Z.land b 0x0f) 0x50) 4) 15) = "5"%char.
Proof.
  rewrite Z.shiftr_lor, Z.shiftr_land. change (Z.shiftr 0x0f 4) with 0. by rewrite Z.land_0_r.
Qed.

Lemma variant_digit b :
  hex_digit (Z.land (Z.shiftr (Z.lor (Z.land b 0x3f) 0x80) 4) 15) ∈ ["8"%char; "9"%char; "a"%char; "b"%char].
Proof.
  rewrite Z.shiftr_lor, Z.shiftr_land. change (Z.shiftr 0x3f 4) with (Z.ones 2). rewrite Z.land_ones by lia.
  pose proof (Z.mod_pos_bound (Z.shiftr b 4) (2 ^ 2) ltac:(lia)) as Hb. change (2 ^ 2) with 4 in *.
  assert (Z.shiftr b 4 mod 4 = 0 ∨ Z.shiftr b 4 mod 4 = 1 ∨ Z.shiftr b 4 mod 4 = 2 ∨ Z.shiftr b 4 mod 4 = 3) as Hc by lia.
  destruct_or! Hc; rewrite Hc; cbn; set_solver.
Qed.

(** The digits where a UUID says its version and its variant. *)
Lemma errandID_version requester key :
  String.get 14 (errandID requester key) = Some "5"%char ∧
  ∃ c, String.get 19 (errandID requester key) = Some c ∧ c ∈ ["8"%char; "9"%char; "a"%char; "b"%char].
Proof.
  rewrite errandID_bytes. unfold id_bytes. destruct (sha1_shape (errandID_input requester key)) as [_ Hlen].
  assert (length (take 16 (sha1 (errandID_input requester key))) = 16%nat) as Hlen16 by (rewrite length_take; lia).
  destruct (take 16 _) as [|b0 [|b1 [|b2 [|b3 [|b4 [|b5 [|b6 [|b7 [|b8 [|b9 [|b10 [|b11 [|b12 [|b13 [|b14
    [|b15 []]]]]]]]]]]]]]]]]; try discriminate Hlen16. clear.
  cbn [alter list_alter take drop hex_bytes foldr]. unfold hex_byte.
  repeat rewrite ?sapp_cons, ?sapp_assoc. cbn [String.append String.get].
  rewrite version_digit. split; [done|]. eexists. split; [reflexivity|]. apply variant_digit.
Qed.

(** What the driver documents of a UUID: the 36-character form of either case
    is read, and written in lower case. *)
Class UUIDs `{Postgres} : Prop := toUUID_text s : uuid_pattern s = true → toUUID s = Some (to_lower s).

Section logic.
Context `{Hpg : Postgres, Hpgok : !PostgresOk, Hrow : RowIds, Hcol : Collation}.

#[local] Arguments Next : simpl never.
#[local] Arguments LoadPickups : simpl never.
#[local] Arguments FailReply : simpl never.
#[local] Arguments edit_errand : simpl never.
#[local] Arguments create_errand : simpl never.
#[local] Arguments errandID : simpl never.
#[local] Arguments parseInput : simpl never.

(** ** Editing *)

(** The caller, the errand and the input of a well-formed edit. *)
Definition edit_command (rq : HRequest) : option (string * string * editInput) :=
  match Caller rq, ErrandID rq, ReadObject (hq_Body rq) MaxErrandBodyBytes with
  | Ok caller, Ok id, Ok raw =>
      match parseEdit raw with Ok in_ => Some (caller, id, in_) | Err _ => None end
  | _, _, _ => None
  end.

Definition edit_view (e : Errand) (pickups : Pickups) : HReply :=
  RequesterReply (match e_PendingEdit e with Some _ => 202 | None => 200 end) None e pickups.

Lemma edit_view_ok e p : answered (edit_view e p).
Proof. unfold edit_view. by destruct (e_PendingEdit e). Qed.

(** An edit of this requester, errand and version. *)
Definition edit_move (id caller : string) (v : Z) (t : Transition) : Prop :=
  ∃ e input now, toUUID id = Some (e_ID e) ∧ e_Version e = v ∧ e_RequesterID e = caller ∧
    Next e EventEdit (mkActor ActorRequester caller) input now = Ok t.

Definition edit_outcome (id caller : string) (v : Z) : HReply → know → Prop :=
  outcome id (λ _, true) edit_view (edit_move id caller v).

Lemma vInteger_int64 v name required lo hi message :
  in_int64 lo → in_int64 hi → in_int64 (vInteger v name required lo hi message).1.
Proof.
  intros Hlo Hhi. unfold vInteger, cbind. simpl. assert (in_int64 0) by done.
  destruct (value v name required).1 as [[]|]; simpl; try done.
  destruct (_ || _) eqn:Hb; simpl; [done|]. apply orb_false_iff in Hb as [[Hb _]%orb_false_iff _].
  apply negb_false_iff in Hb. by apply in_int64b_spec.
Qed.

Lemma parseEdit_reward raw in_ r : parseEdit raw = Ok in_ → ei_reward in_ = Some r → in_int64 r.
Proof.
  unfold parseEdit, verdict. destruct (readEdit (NewValidator raw)).2; [|done]. destruct (existsb _ _); [|done].
  intros [= <-]. change (ei_reward (readEdit (NewValidator raw)).1) with
    (optional (NewValidator raw) "reward"
       (vInteger (NewValidator raw) "reward" true 1 max_int32 "must be a positive integer")).1.
  unfold optional. generalize (vInteger_int64 (NewValidator raw) "reward" true 1 max_int32 "must be a positive integer").
  destruct (vInteger _ _ _ _ _ _) as [n fs]. simpl. intros Hn.
  destruct (Has (NewValidator raw) "reward"); simpl; [|done]. intros [= <-]. by apply Hn.
Qed.

Lemma parseEdit_refused raw f : parseEdit raw = Err f → refused (FailReply f).
Proof.
  unfold parseEdit. destruct (verdict _) eqn:Hv; [|intros [= <-]; by eapply verdict_refused].
  destruct (existsb _ _); [done|]. by intros [= <-].
Qed.

Lemma resolve_spec current edited now k :
  hwp (resolve current edited now) k (λ r k', k' = k ∧ ∀ d, r = Ok d → d_Reward d = d_Reward edited).
Proof.
  unfold resolve. eapply (hwp_then _ _ _ (λ r k', k' = k ∧ ∀ d, r = Ok d → d_Reward d = d_Reward edited)).
  - unfold resolve_building. destruct (EqualFold _ _); [split; [done|by intros d [= <-]]|].
    unfold DeliveryBuilding. simpl. split; [done|]. intros r k' [-> _]. split; [done|].
    destruct r as [bs|f]; [|done]. destruct (find_building bs _); [by intros d [= <-]|done].
  - intros [d|f] k' [-> Hd]; [|done]. destruct (EqualFold _ _); [split; [done|]; by intros d' [= <-]; apply Hd|].
    simpl. split; [done|]. intros r k' [-> _]. split; [done|]. destruct r as [v|f]; [|done].
    intros d' [= <-]. simpl. by apply Hd.
Qed.

Lemma edit_apply_spec id caller v e now edited k :
  k_read k = [e] → k_log k = [] → toUUID id = Some (e_ID e) → e_Version e = v → e_RequesterID e = caller →
  (in_int64 (d_Reward edited) ∨ d_Reward edited = d_Reward (e_Details e)) →
  hwp (edit_apply e (mkActor ActorRequester caller) now edited) k (edit_outcome id caller v).
Proof.
  intros Hr Hl Hid Hv Hrq Hrw. unfold edit_apply.
  destruct (Next e EventEdit _ _ now) as [t|err] eqn:Hn; [|by apply outcome_failed].
  eapply hwp_then; [apply LoadPickups_spec|]. intros [pickups|f] k' [-> Hlo]; [|by apply outcome_failed].
  assert (edit_move id caller v t) as Hmove by (by exists e, (edit_input edited), now).
  simpl. split.
  { exists e, EventEdit, (mkActor ActorRequester caller), (edit_input edited), now.
    rewrite Hr. split_and!; [by left| |done]. intros d [= <-]. done. }
  intros [stored|f] k'; simpl.
  - intros ((e' & ev' & actor' & input' & now' & He' & Hn' & ->) & ->).
    rewrite Hr in He'. apply list_elem_of_singleton in He' as ->.
    eapply (outcome_shows _ _ edit_view); [left; by exists pickups|apply edit_view_ok|by left| |done|].
    + simpl. unfold canon_id. destruct (Next_from _ _ _ _ _ _ Hn) as (_ & _ & _).
      by rewrite (toUUID_canonical _ _ Hid).
    + right. exists t. simpl. by rewrite Hl.
  - destruct f as [a|w]; [intros ->; by apply outcome_failed|]. intros Hk.
    split; [by intros []%not_answered| | |intros _; apply FailReply_error].
    + destruct Hk as [->| ->]; [by left|]. right. right. exists t. simpl. by rewrite Hl.
    + by intros [].
Qed.

Lemma edit_errand_spec id caller in_ e k :
  k_read k = [e] → k_log k = [] → toUUID id = Some (e_ID e) → e_RequesterID e = caller →
  (∀ r, ei_reward in_ = Some r → in_int64 r) →
  hwp (edit_errand caller in_ e) k (edit_outcome id caller (ei_expectedVersion in_)).
Proof.
  intros Hr Hl Hid Hrq Hrw. unfold edit_errand. simpl. split; [done|]. intros now k' ->.
  destruct (Next e EventEdit _ _ now) as [t|err]; [|by apply outcome_failed].
  destruct (e_Version e =? ei_expectedVersion in_) eqn:Hv; cbn [negb]; [|by apply outcome_failed].
  apply Z.eqb_eq in Hv. eapply hwp_then; [apply resolve_spec|]. intros [edited|f] k' [-> Hed]; [|by apply outcome_failed].
  apply edit_apply_spec; try done. rewrite (Hed _ eq_refl). simpl. destruct (ei_reward in_) as [r|]; simpl; eauto.
Qed.

Lemma edit_spec rq :
  hwp (edit rq) nothing (λ reply k,
    match edit_command rq with
    | Some (caller, id, in_) =>
        edit_outcome id caller (ei_expectedVersion in_) reply k ∧
        ((∃ e, e ∈ k_read k ∧ toUUID id = Some (e_ID e) ∧ e_RequesterID e = caller) ∨ turned_away reply k)
    | None => refused reply ∧ is_error (hp_Body reply) ∧ k_log k = []
    end).
Proof.
  unfold edit, edit_command.
  destruct (Caller rq) as [caller|reply] eqn:Hc; [|simpl; by destruct (Caller_refused _ _ Hc)].
  destruct (ErrandID rq) as [id|f] eqn:Hi; [|simpl; unfold ErrandID in Hi; by break_in Hi].
  destruct (ReadObject (hq_Body rq) MaxErrandBodyBytes) as [raw|f] eqn:Hb.
  2:{ split; [by eapply ReadObject_refused|]. split; [apply FailReply_error|done]. }
  destruct (parseEdit raw) as [in_|f] eqn:Hp.
  2:{ split; [by eapply parseEdit_refused|]. split; [apply FailReply_error|done]. }
  simpl. split; [done|]. intros [e|f] k'; cbn [learns].
  - intros [Hid ->]. case_bool_decide as Hq; cbn [negb].
    + eapply hwp_mono; [|apply hwp_keeps, (edit_errand_spec id); try done; intros; by eapply parseEdit_reward].
      intros reply k [Ho [Hm _]]. split; [done|]. left. exists e. split; [apply Hm; by left|done].
    + split; [by apply outcome_failed|]. right. by apply turned_away_failed.
  - intros [-> _]. split; [by apply outcome_failed|]. right. by apply turned_away_failed.
Qed.

(** ** Creating *)

(** What one [POST /errands] may have done by the time it answers. *)
Record created (requester key : string) (reply : HReply) (k : know) : Prop := {
  cr_done : answered reply → ∃ e status location pickups, e ∈ k_read k ∧ e_RequesterID e = requester ∧
    e_CreateIdempotencyKey e = key ∧ reply = RequesterReply status location e pickups;
  cr_log : k_log k = [] ∨ ∃ e t actor input now, k_log k = [OCreate e t] ∧ e_ID e = errandID requester key ∧
    e_RequesterID e = requester ∧ e_CreateIdempotencyKey e = key ∧ Next e EventSubmit actor input now = Ok t;
  cr_refused : refused reply → k_log k = [];
  cr_error : ¬ answered reply → is_error (hp_Body reply);
}.

Lemma created_failed requester key f k : k_log k = [] → created requester key (FailReply f) k.
Proof. intros Hl. split; [by intros []%not_answered|by left|done|intros _; apply FailReply_error]. Qed.

Lemma created_replay requester key e k :
  e ∈ k_read k → k_log k = [] → e_RequesterID e = requester → e_CreateIdempotencyKey e = key →
  hwp (respond_replay e) k (created requester key).
Proof.
  intros He Hl Hrq Hk. eapply hwp_mono; [|apply respond_requester_spec].
  intros reply k' [-> [(p & ->)|(f & -> & Hb)]]; [|by apply created_failed].
  split; [|by left|by intros []|by intros []]. intros _. by exists e, 200, None, p.
Qed.

Context `{Htext : !UUIDs}.

Lemma create_errand_spec requester key now in_ k :
  k_log k = [] → in_int64 (in_Reward in_) →
  hwp (create_errand (errandID requester key) requester key now in_) k (created requester key).
Proof.
  intros Hl Hrw. unfold create_errand, DeliveryBuilding. simpl. split; [done|]. intros [bs|f] k' [-> _]; simpl.
  2:{ by apply created_failed. }
  destruct (find_building _ _) as [b|f]; simpl; [|by apply created_failed].
  split; [done|]. intros [v|f] k' [-> _]; simpl; [|by apply created_failed].
  destruct (Next _ EventSubmit _ _ now) as [t|err] eqn:Hn; [|by apply created_failed].
  set (e := new_errand (errandID requester key) requester key in_ v b) in *.
  destruct (errandID_uuid requester key) as [Hpat Hlow]. simpl. split.
  { split_and!; [done|by rewrite toUUID_text, Hlow by done|]. by exists (mkActor ActorRequester requester), (no_input "" no_deadlines), now. }
  assert (∀ k', k_log k' = [OCreate e t] → ∃ e t actor input now, k_log k' = [OCreate e t] ∧
    e_ID e = errandID requester key ∧ e_RequesterID e = requester ∧ e_CreateIdempotencyKey e = key ∧
    Next e EventSubmit actor input now = Ok t) as Hlog.
  { intros k' Hk'. exists e, t, (mkActor ActorRequester requester), (no_input "" no_deadlines), now. done. }
  intros [[stored []]|f] k'; simpl.
  - intros [-> ->]. split.
    + intros _. eexists _, _, _, _. split; [by left|]. split; [|split; [|done]].
      * destruct (Next_from _ _ _ _ _ _ Hn) as (_ & _ & _). done.
      * done.
    + right. apply Hlog. simpl. by rewrite Hl.
    + by intros [].
    + by intros [].
  - intros (Hrq & Hk & ->). apply created_replay; [by left|done..].
  - destruct f as [a|w]; [intros ->; by apply created_failed|]. intros Hk.
    split; [by intros []%not_answered| |by intros []|intros _; apply FailReply_error].
    destruct Hk as [->| ->]; [by left|]. right. apply Hlog. simpl. by rewrite Hl.
Qed.

Lemma parseInput_reward body now in_ : parseInput body now = Ok in_ → in_int64 (in_Reward in_).
Proof.
  unfold parseInput, verdict. destruct (DecodeObject body) as [raw|]; [|done].
  destruct (readInput (NewValidator raw) now).2; [|done]. intros [= <-].
  apply (vInteger_int64 (NewValidator raw) "reward" true 1 max_int32 "must be a positive integer"); done.
Qed.

Lemma create_spec rq :
  hwp (create rq) nothing (λ reply k,
    match Caller rq, idempotencyKey rq with
    | Ok requester, Ok key => created requester key reply k
    | _, _ => refused reply ∧ is_error (hp_Body reply) ∧ k_log k = []
    end).
Proof.
  unfold create.
  destruct (Caller rq) as [requester|reply] eqn:Hc; [|simpl; by destruct (Caller_refused _ _ Hc)].
  destruct (idempotencyKey rq) as [key|reply] eqn:Hk.
  2:{ unfold idempotencyKey in Hk. by break_in Hk. }
  simpl. split; [done|]. intros [e|f] k'; simpl.
  - intros [Hid ->]. destruct (_ || _) eqn:Hm; [by apply created_failed|].
    apply orb_false_iff in Hm as [Hrq%negb_false_iff Hck%negb_false_iff].
    apply bool_decide_eq_true in Hrq, Hck. apply created_replay; [by left|done..].
  - intros [-> _]. destruct (negb _); [by apply created_failed|].
    assert (created requester key (WriteError InvalidArgument) nothing) as Hbad
      by by apply (created_failed requester key (appFailure InvalidArgument)).
    destruct (bd_Len (hq_Body rq)) as [n|]; [|apply Hbad]. destruct (MaxErrandBodyBytes <? n); [apply Hbad|].
    simpl. split; [done|]. intros now k' ->. destruct (parseInput _ now) as [in_|err] eqn:Hp; [|by apply created_failed].
    apply create_errand_spec; [done|]. by eapply parseInput_reward.
Qed.

End logic.
