(* ===== verification/HttpReads.v ===== *)
(** * order-service: what the routes show, and to whom

    Every view in an answer is of an errand that was read, and only a
    requester gets a requester's view, only a courier of the errand, past or
    present, a courier's; anyone else sees open errands. *)

From Stdlib Require Import SpecFloat.
From S2P Require Import Prelude Proc Keyset GoText Json GoTime Sha Errand Settings ErrandState ErrandJson ErrandInv ErrandStore Fence OpsRepo StoreInv StoreSafe StoreSystem ErrandLists StoreHistory StoreProps ErrandHttp ErrandActions ErrandForms ErrandReads HttpSystem HttpLogic HttpForms.

Section reads.
Context `{Hpg : Postgres, Hpgok : !PostgresOk, Hrow : RowIds, Hcol : Collation, Hfl : GoFloat}.

(** ** The views *)

(** [es] are the errands read; [former id] says the caller once withdrew. *)
Section shown.
Context (caller : string) (es : list Errand) (former : string → Prop).

Definition owns (e : Errand) : Prop := ∃ e0, e0 ∈ es ∧ e_ID e0 = e_ID e ∧ e_RequesterID e0 = caller.
Definition carries (e : Errand) : Prop :=
  (∃ e0, e0 ∈ es ∧ e_ID e0 = e_ID e ∧ e_CourierID e0 = caller) ∨ former (e_ID e).

Definition requester_shown (v : RequesterErrand) : Prop := ∃ e p, e ∈ es ∧ owns e ∧ v = RequesterView e p.
Definition courier_shown (v : CourierErrand) : Prop := ∃ e p, e ∈ es ∧ carries e ∧ v = CourierView e p.
Definition open_shown (v : OpenFields) : Prop :=
  ∃ e p, e ∈ es ∧ e_Status e = StatusOpen ∧ v = OpenFieldsOf (OpenViewOf e p).

Definition item_shown (i : Item) : Prop :=
  match i with IRequester v => requester_shown v | ICourier v => courier_shown v end.

Definition shown (b : RBody) : Prop :=
  match b with
  | BError _ _ => True
  | BRequester v => requester_shown v
  | BCourier v => courier_shown v
  | BPublic v => open_shown (pu_Open v)
  | BPage items _ => ∀ i, i ∈ items → item_shown i
  | BOpenPage items _ => ∀ i, i ∈ items → open_shown (oi_Fields i)
  end.

Lemma error_shown b : is_error b → shown b.
Proof. by destruct b. Qed.

Lemma FailReply_shown f : shown (hp_Body (FailReply f)).
Proof. apply error_shown, FailReply_error. Qed.

Lemma owns_self e : e ∈ es → e_RequesterID e = caller → owns e.
Proof. by exists e. Qed.

Lemma carries_self e : e ∈ es → e_CourierID e = caller → carries e.
Proof. left. by exists e. Qed.

End shown.

Definition shown_to (caller : string) (k : know) : RBody → Prop :=
  shown caller (k_read k) (λ id, (id, caller) ∈ k_former k).

(** ** Actions, edits and creation *)

Lemma action_shown a rq reply k :
  request_outcome a rq reply k → match Caller rq with Ok caller => shown_to caller k (hp_Body reply) | Err _ => True end.
Proof.
  unfold request_outcome, command_of.
  destruct (Caller rq) as [caller|r]; [|done].
  destruct (ErrandID rq) as [id|f]; [|intros (_ & He & _); by apply error_shown].
  destruct (read_body _ _) as [[v reason]|f]; [|intros (_ & He & _); by apply error_shown].
  intros [[Hd _ _ Herr] Hst]. destruct (decide (answered reply)) as [Ha|Ha]; [|by apply error_shown, Herr].
  destruct (Hd Ha) as (e & p & He & Hid & Hdone & ->). destruct Hst as [Hst|[_ Hna]]; [|done].
  unfold standing in Hst. unfold action_view, shown_to.
  destruct (by_requester a) eqn:Hr.
  - destruct Hst as (e0 & He0 & Hid0 & Hq). exists e, p. split; [done|]. split; [|done].
    exists e0. split_and!; [done| |done]. congruence.
  - exists e, p. split; [done|]. split; [|done]. destruct (by_courier a) eqn:Hc.
    + destruct Hst as [(e0 & He0 & Hid0 & Hq)|(u & Hu & Hin)].
      * left. exists e0. split_and!; [done| |done]. congruence.
      * right. assert (u = e_ID e) as <- by congruence. done.
    + apply carries_self; [done|]. destruct a; try done. simpl in Hdone. unfold acceptedByCaller in Hdone.
      by bool_props.
Qed.

Lemma edit_shown rq reply k :
  match edit_command rq with
  | Some (caller, id, in_) =>
      edit_outcome id caller (ei_expectedVersion in_) reply k ∧
      ((∃ e, e ∈ k_read k ∧ toUUID id = Some (e_ID e) ∧ e_RequesterID e = caller) ∨ turned_away reply k)
  | None => refused reply ∧ is_error (hp_Body reply) ∧ k_log k = []
  end → match Caller rq with Ok caller => shown_to caller k (hp_Body reply) | Err _ => True end.
Proof.
  unfold edit_command. destruct (Caller rq) as [caller|r]; [|done].
  destruct (ErrandID rq) as [id|f]; [|intros (_ & He & _); by apply error_shown].
  destruct (ReadObject _ _) as [raw|f]; [|intros (_ & He & _); by apply error_shown].
  destruct (parseEdit raw) as [in_|f]; [|intros (_ & He & _); by apply error_shown].
  intros [[Hd _ _ Herr] Hst]. destruct (decide (answered reply)) as [Ha|Ha]; [|by apply error_shown, Herr].
  destruct (Hd Ha) as (e & p & He & Hid & _ & ->). destruct Hst as [(e0 & He0 & Hid0 & Hq)|[_ Hna]]; [|done].
  exists e, p. split; [done|]. split; [|done]. exists e0. split_and!; [done| |done]. congruence.
Qed.

Lemma create_shown requester key reply k :
  created requester key reply k → shown_to requester k (hp_Body reply).
Proof.
  intros [Hd _ _ Herr]. destruct (decide (answered reply)) as [Ha|Ha]; [|by apply error_shown, Herr].
  destruct (Hd Ha) as (e & s & l & p & He & Hq & _ & ->). exists e, p. split; [done|].
  split; [by apply owns_self|done].
Qed.

(** ** Reading one errand *)

Definition silent (Q : HReply → know → Prop) (reply : HReply) (k : know) : Prop := k_log k = [] ∧ Q reply k.

Definition shown_spec (rq : HRequest) : HReply → know → Prop :=
  silent (λ reply k, match Caller rq with Ok caller => shown_to caller k (hp_Body reply) | Err _ => True end).

#[local] Arguments LoadPickups : simpl never.
#[local] Arguments FailReply : simpl never.

Lemma get_spec rq : hwp (get_errand rq) nothing (shown_spec rq).
Proof.
  unfold get_errand, shown_spec, silent. destruct (Caller rq) as [caller|reply]; [|done].
  destruct (ErrandID rq) as [id|f]; [|split; [done|apply FailReply_shown]].
  simpl. split; [done|]. intros [e|f] k'; [|intros [-> _]; split; [done|apply FailReply_shown]].
  intros [_ ->]. destruct (_ && _) eqn:Hno; [done|].
  eapply hwp_then; [apply LoadPickups_spec|]. intros [pickups|f] k' [-> _]; [|split; [done|apply FailReply_shown]].
  split; [done|]. cbn [hp_Body].
  destruct (bool_decide (caller = e_RequesterID e)) eqn:Hq; cbn [negb andb] in Hno.
  { apply bool_decide_eq_true in Hq. exists e, pickups. split; [by left|]. split; [|done].
    apply owns_self; [by left|done]. }
  destruct (negb (bool_decide (e_CourierID e = "")) && bool_decide (caller = e_CourierID e)) eqn:Hc;
    cbn [negb andb] in Hno.
  { exists e, pickups. split; [by left|]. split; [|done]. apply carries_self; [by left|].
    apply andb_true_iff in Hc as [_ Hc]. by apply bool_decide_eq_true in Hc. }
  exists e, (pickup_of pickups (d_SupplierVersionID (e_Details e))). split; [by left|].
  apply negb_false_iff, bool_decide_eq_true in Hno. done.
Qed.

(** ** A user's lists *)

Definition my_lists : list MyList :=
  [requestedList; deliveringList; historyList; requesterHistoryList; courierHistoryList].

Lemma Caller_nonempty rq caller : Caller rq = Ok caller → caller ≠ "".
Proof. unfold Caller. destruct (hq_Principal rq); [|done]. case_bool_decide; by intros [= <-]. Qed.

(** An item is the view its list may show of an errand it holds. *)
Lemma view_shown l e caller pickups k :
  l ∈ my_lists → e ∈ k_read k → users (ml_load l) (ml_role l) caller e →
  item_shown caller (k_read k) (λ id, (id, caller) ∈ k_former k) (ml_view l e caller pickups).
Proof.
  intros Hl He Hu.
  assert (e_RequesterID e = caller → requester_shown caller (k_read k) (RequesterView e pickups)) as Hreq.
  { intros Hq. exists e, pickups. split; [done|]. split; [by apply owns_self|done]. }
  assert (e_CourierID e = caller → courier_shown caller (k_read k) (λ id, (id, caller) ∈ k_former k)
    (CourierView e pickups)) as Hcou.
  { intros Hq. exists e, pickups. split; [done|]. split; [by apply carries_self|done]. }
  unfold my_lists in Hl. rewrite !elem_of_cons, elem_of_nil in Hl. destruct_or! Hl; subst l; simpl in *; try done.
  - apply Hreq, Hu.
  - apply Hcou, Hu.
  - case_bool_decide; simpl; [by apply Hreq|]. apply Hcou. naive_solver.
  - apply Hreq. naive_solver.
  - apply Hcou. naive_solver.
Qed.

Lemma list_mine_spec l rq : l ∈ my_lists → hwp (list_mine l rq) nothing (shown_spec rq).
Proof.
  intros Hl. unfold list_mine, shown_spec, silent. destruct (Caller rq) as [caller|reply] eqn:Hc; [|done].
  destruct (parseQuery _ _) as [q|f]; [|split; [done|apply FailReply_shown]].
  simpl. split; [by eapply Caller_nonempty|]. intros [p|f] k'; [|intros ->; split; [done|apply FailReply_shown]].
  intros [-> Hu]. eapply hwp_then; [apply LoadPickups_spec|].
  intros [pickups|f] k' [-> _]; [|split; [done|apply FailReply_shown]].
  split; [done|]. cbn [hp_Body]. intros i (e & -> & He)%list_elem_of_fmap.
  apply (view_shown _ _ _ _ (reads_all (pg_Items p) nothing)); [done|simpl; set_solver|]. by apply Hu.
Qed.

Lemma history_spec rq : hwp (history rq) nothing (shown_spec rq).
Proof.
  unfold history. destruct (parseRole _) as [role|f].
  - case_bool_decide; [|case_bool_decide]; apply list_mine_spec; unfold my_lists; set_solver.
  - split; [done|]. destruct (Caller rq); [apply FailReply_shown|done].
Qed.

(** ** The open list *)

Lemma load_open_spec fuel now after k :
  hwp (load_open fuel now after) k (λ r k', k_log k' = k_log k ∧ knows_more k k' ∧
    ∀ es, r = Ok es → ∀ e, e ∈ es → e ∈ k_read k' ∧ e_Status e = StatusOpen).
Proof.
  revert after k. induction fuel as [|fuel IH]; intros after k; simpl; [done|]. split; [done|].
  intros [p|f] k'; [|by intros ->]. intros [-> Hopen].
  pose proof (reads_all_more (pg_Items p) k) as Hmore.
  assert (∀ e, e ∈ pg_Items p → e ∈ k_read (reads_all (pg_Items p) k) ∧ e_Status e = StatusOpen) as Hp.
  { intros e He. split; [simpl; apply elem_of_app; by left|]. by apply Hopen. }
  destruct (pg_Next p) as [c|].
  - eapply hwp_then; [apply IH|]. intros r k' (Hlog & Hm & Hr). simpl. split; [done|]. split; [by etrans|].
    destruct r as [es|f]; [|done]. intros es' [= <-] e [He|He]%elem_of_app; [|by eapply Hr].
    destruct (Hp e He) as [Hin Hs]. split; [by apply Hm|done].
  - split; [done|]. split; [done|]. by intros es [= <-].
Qed.

Lemma project_open_spec es versions unknown k :
  (∀ e, e ∈ es → e ∈ k_read k ∧ e_Status e = StatusOpen) →
  hwp (project_open es versions unknown) k (λ r k', k' = k ∧ ∀ views, r = Ok views → views_of (k_read k) views).
Proof.
  revert versions unknown. induction es as [|e es IH]; intros versions unknown Hes; simpl.
  { split; [done|]. intros views [= <-] v Hv. by apply elem_of_nil in Hv. }
  assert (∀ e, e ∈ es → e ∈ k_read k ∧ e_Status e = StatusOpen) as Hes' by (intros; apply Hes; by right).
  assert (∀ v versions unknown, hwp (await rest := project_open es versions unknown in
    PRet (match rest with Ok views => Ok (OpenViewOf e v :: views) | Err err => Err err end)) k
    (λ r k', k' = k ∧ ∀ views, r = Ok views → views_of (k_read k) views)) as Hshow.
  { intros v vs u. eapply hwp_then; [by apply IH|]. intros r k' [-> Hr]. simpl. split; [done|].
    destruct r as [views|f]; [|done]. intros views' [= <-] w [->|Hw]%elem_of_cons; [|by eapply Hr].
    exists e, v. destruct (Hes e) as [He Hs]; [by left|]. done. }
  destruct (existsb _ unknown); [by apply IH|]. destruct (versions !! _) as [v|]; [apply Hshow|].
  simpl. split; [done|]. intros [v|f] k' [-> _]; [apply Hshow|]. destruct (negb _); [done|]. by apply IH.
Qed.

#[local] Arguments load_open : simpl never.
#[local] Arguments project_open : simpl never.

Lemma views_more es es' views : es ⊆ es' → views_of es views → views_of es' views.
Proof. intros Hes Hv v Hin. destruct (Hv v Hin) as (e & p & ? & ?). exists e, p. auto. Qed.

Lemma open_set_spec fuel k :
  hwp (open_set fuel) k (λ r k', k_log k' = k_log k ∧ ∀ views, r = Ok views → views_of (k_read k') views).
Proof.
  unfold open_set. simpl. split; [done|]. intros [views|] k'.
  { intros (es & -> & Hv). split; [done|]. intros views' [= <-]. eapply views_more; [|done]. simpl. set_solver. }
  intros ->. split; [done|]. intros [[views|f]|] k'; simpl.
  { intros (es & -> & Hv). split; [done|]. intros views' [= <-]. eapply views_more; [|done]. simpl. set_solver. }
  { by intros ->. }
  intros ->. unfold load_set. simpl. split; [done|]. intros now k' ->.
  apply hwp_bind. eapply hwp_then; [apply load_open_spec|]. intros [es|f] k' (Hlog & _ & Hes); [|simpl; done].
  eapply hwp_mono; [|apply project_open_spec; intros; by eapply Hes].
  intros [views|f] k2 [-> Hv]; simpl; [|done]. split; [by apply Hv|]. intros _ k2 ->. split; [done|].
  intros views' [= <-]. by apply Hv.
Qed.

#[local] Arguments open_set : simpl never.
#[local] Arguments open_page : simpl never.

Lemma candidates_in views q now v : v ∈ candidates views q now → v ∈ views.
Proof.
  unfold candidates. rewrite merge_sort_Permutation. intros Hv. apply list_elem_of_In, filter_In in Hv as [Hv _].
  by apply list_elem_of_In.
Qed.

Lemma list_open_spec fuel rq : hwp (list_open fuel rq) nothing (shown_spec rq).
Proof.
  unfold list_open, shown_spec, silent. destruct (Caller rq) as [caller|reply]; [|done].
  destruct (parseListQuery _) as [q|f]; [|split; [done|apply FailReply_shown]].
  eapply hwp_then; [apply open_set_spec|]. intros [views|f] k [Hlog Hv]; [|split; [done|apply FailReply_shown]].
  simpl. split; [done|]. intros now k' ->. destruct (open_page views q now) as [items next] eqn:Hp.
  split; [done|]. simpl. unfold open_page in Hp. injection Hp as <- _.
  intros i (v & -> & Hin)%list_elem_of_fmap. apply elem_of_take in Hin as (j & Hin & _).
  apply list_elem_of_lookup_2, candidates_in in Hin. destruct (Hv _ eq_refl v Hin) as (e & p & He & Hs & ->).
  by exists e, p.
Qed.

End reads.
