(* ===== verification/HttpProps.v ===== *)
(** * order-service: properties of the errand routes

    Whole requests, run against a store that others keep changing and that may
    lose any answer: what a request may write, what its answer proves, who
    wins a race, and what an answer may show to whom. *)

From Stdlib Require Import SpecFloat.
From S2P Require Import Prelude Proc Keyset GoText Json GoTime Sha Errand Settings ErrandState ErrandJson ErrandInv ErrandStore Fence OpsRepo StoreInv StoreSafe StoreSystem ErrandLists StoreHistory StoreProps ErrandHttp ErrandActions ErrandForms ErrandReads HttpSystem HttpLogic HttpForms HttpReads.

Section properties.
Context `{Hpg : Postgres, Hpgok : !PostgresOk, Hrow : RowIds, Hcol : Collation, Hfl : GoFloat, Hid : !UUIDs}.

(** ** What an action writes *)

(** C12: Whatever other writers do and whichever answers are lost, a request of
    any of the eight actions commits at most one change to the errand, the
    transition its own event, caller, errand and expected version call for;
    otherwise at most a rejection notice; and answered 4xx (or malformed) it
    has not changed the errand. *)
Theorem action_commits_its_own db seen a rq log reply db' seen' :
  reachable db seen → hrun db seen (handler a rq) log reply db' seen' →
  match command_of a rq with
  | Some (caller, id, v) =>
      (log = [] ∨ (∃ r, log = [OReject r]) ∨ ∃ t, own_move a id caller v t ∧ log = [OApply t]) ∧
      (refused reply → ∀ t, OApply t ∉ log)
  | None => refused reply ∧ log = []
  end.
Proof.
  intros Hr Hrun. destruct (route_run _ _ _ _ _ _ _ _ Hr Hrun (handler_spec a rq)) as (k & Ho & <- & _).
  unfold request_outcome in Ho. destruct (command_of a rq) as [[[caller id] v]|].
  - destruct Ho as [[_ Hl Href _] _]. by split.
  - by destruct Ho as (? & _ & ?).
Qed.

(** ** What an answer proves *)

(** The actions whose result names who brought it about. *)
Definition attributed (a : Action) : bool := match a with AWithdraw | AConfirm => false | _ => true end.

Definition action_role (a : Action) : ActorType := a_Type (action_actor a "").

(** C13: A caller answered 2xx has done what was asked: the history of the
    errand holds the event, by this caller, at the version after the one the
    request expected.  (Withdrawing and confirming are left out: their
    duplicate check does not look at who acted.) *)
Theorem success_is_recorded db seen a rq log reply db' seen' caller id v :
  reachable db seen → hrun db seen (handler a rq) log reply db' seen' → attributed a = true →
  command_of a rq = Some (caller, id, v) → answered reply →
  ∃ tr, tr ∈ db_transitions db' ∧ toUUID id = Some (tr_ErrandID tr) ∧ tr_ErrandVersion tr = v + 1 ∧
    moved_by (action_event a) (action_role a) caller tr.
Proof.
  intros Hr Hrun Ha Hc Hans.
  destruct (route_run _ _ _ _ _ _ _ _ Hr Hrun (handler_spec a rq)) as (k & Ho & _ & (Hread & _) & Hr').
  unfold request_outcome in Ho. rewrite Hc in Ho. destruct Ho as [[Hd _ _ _] [Hst|[_ Hna]]]; [|done].
  destruct (Hd Hans) as (e & p & He & Hid' & Hdone & _).
  destruct (reachable_past _ _ Hr') as [_ Hpast].
  destruct (Hpast e (Hread _ He)) as [(tr & Htr & Htid & Htv & _ & Harr) _].
  exists tr. split; [done|]. split; [by rewrite Htid|].
  unfold arrived in Harr. rewrite Htv. unfold standing in Hst.
  destruct a; try discriminate Ha; simpl in Hdone; unfold acceptedByCaller in Hdone;
    repeat (apply andb_true_iff in Hdone as [Hdone ?]); bool_props;
    repeat match goal with H : e_Status e = _ |- _ => rewrite H in Harr end;
    repeat match goal with H : e_ReviewReason e = _ |- _ => rewrite H in Harr end;
    (split; [lia|]); unfold action_role; simpl in *; try congruence.
  all: destruct Hst as (e0 & He0 & Hid0 & <-).
  all: rewrite (seen_requester _ _ e0 e Hr'); [done|by apply Hread..|congruence].
Qed.

(** ** Who wins a race *)

(** C14: Of all the couriers who try to accept one version of an errand, at most
    one is ever told it succeeded: two accept requests answered 200 for the
    same errand and version, anywhere in the past of one store, come from the
    same courier. *)
Theorem one_courier_wins db seen
    db1 s1 rq1 log1 reply1 db1' s1' c1 i1 db2 s2 rq2 log2 reply2 db2' s2' c2 i2 v :
  reachable db1 s1 → hrun db1 s1 (accept rq1) log1 reply1 db1' s1' →
  reachable db2 s2 → hrun db2 s2 (accept rq2) log2 reply2 db2' s2' →
  reachable db seen → s1' ⊆ seen → s2' ⊆ seen →
  command_of AAccept rq1 = Some (c1, i1, v) → command_of AAccept rq2 = Some (c2, i2, v) →
  toUUID i1 = toUUID i2 → answered reply1 → answered reply2 → c1 = c2.
Proof.
  intros Hr1 Hrun1 Hr2 Hrun2 Hr Hs1 Hs2 Hc1 Hc2 Hi Ha1 Ha2.
  destruct (route_run _ _ _ _ _ _ _ _ Hr1 Hrun1 (handler_spec AAccept rq1)) as (k1 & Ho1 & _ & (Hk1 & _) & _).
  destruct (route_run _ _ _ _ _ _ _ _ Hr2 Hrun2 (handler_spec AAccept rq2)) as (k2 & Ho2 & _ & (Hk2 & _) & _).
  unfold request_outcome in Ho1, Ho2. rewrite Hc1 in Ho1. rewrite Hc2 in Ho2.
  destruct Ho1 as [[Hd1 _ _ _] _], Ho2 as [[Hd2 _ _ _] _].
  destruct (Hd1 Ha1) as (e1 & p1 & He1 & Hid1 & Hdone1 & _), (Hd2 Ha2) as (e2 & p2 & He2 & Hid2 & Hdone2 & _).
  simpl in Hdone1, Hdone2. unfold acceptedByCaller in Hdone1, Hdone2. bool_props.
  assert (e1 = e2) as <-; [|congruence]. apply (seen_version_unique db seen); try congruence; auto; lia.
Qed.

(** ** Who is turned away *)

(** Has nothing to do with the errand [u]. *)
Definition stranger (a : Action) (caller u : string) (db : ODB) (seen : list Errand) : Prop :=
  if by_requester a then ∀ e, e ∈ seen → e_ID e = u → e_RequesterID e ≠ caller
  else (∀ e, e ∈ seen → e_ID e = u → e_CourierID e ≠ caller) ∧ ¬ has_withdrawn db u caller.

(** C15: Only an errand's requester can cancel, confirm or dispute it, and only
    who carries it or once did can pick it up, deliver, report or withdraw:
    anyone else is refused and the request writes nothing, not even a notice. *)
Theorem strangers_change_nothing db seen a rq log reply db' seen' caller id v :
  reachable db seen → hrun db seen (handler a rq) log reply db' seen' → a ≠ AAccept →
  command_of a rq = Some (caller, id, v) → (∀ u, toUUID id = Some u → stranger a caller u db' seen') →
  log = [] ∧ ¬ answered reply.
Proof.
  intros Hr Hrun Ha Hc Hstr.
  destruct (route_run _ _ _ _ _ _ _ _ Hr Hrun (handler_spec a rq)) as (k & Ho & <- & (Hread & Hformer & _) & _).
  unfold request_outcome in Ho. rewrite Hc in Ho. destruct Ho as [_ [Hst|[? ?]]]; [exfalso|done].
  unfold standing, stranger in *. destruct (by_requester a) eqn:Hq.
  - destruct Hst as (e & He & Hide & Hreq). by apply (Hstr _ Hide e); [apply Hread| |].
  - destruct (by_courier a) eqn:Hb; [|by destruct a].
    destruct Hst as [(e & He & Hide & Hcour)|(u & Hu & Hin)]; [|by apply (Hstr _ Hu), Hformer].
    by eapply (proj1 (Hstr _ Hide) e); [apply Hread| |].
Qed.

(** ** What an answer shows *)

Inductive Route :=
| RAction (a : Action) | REdit | RCreate | RGet | RRequested | RDelivering | RHistory | ROpen (fuel : nat).

Definition serve (r : Route) : HRequest → hproc HReply :=
  match r with
  | RAction a => handler a
  | REdit => edit
  | RCreate => create
  | RGet => get_errand
  | RRequested => requested
  | RDelivering => delivering
  | RHistory => history
  | ROpen fuel => list_open fuel
  end.

(** An errand without what only its requester may see, and one without what
    only its requester and its courier may see. *)
Definition for_courier (e : Errand) : Errand :=
  let d := e_Details e in
  let contact s := if shows_contact (e_Status e) then s else "" in
  mkErrand (e_ID e) (e_Status e) (e_Version e) "" ""
    (mkDetails (d_SupplierID d) (d_SupplierVersionID d) (d_DeliveryBuildingID d) (d_DeliveryBuildingSnapshot d)
       (d_DeliveryDetail d) (d_Items d) (d_Notes d) (contact (d_ContactName d)) (contact (d_ContactMobile d))
       (d_Reward d) (d_AcceptanceDeadline d))
    (e_PickupDeadline e) (e_DeliveryDeadline e) (e_DeliveredAt e) (e_VerificationDeadline e) (e_ReviewReason e)
    "" None (e_CreatedAt e) (e_UpdatedAt e).

Definition for_anyone (e : Errand) : Errand :=
  let d := e_Details e in
  mkErrand (e_ID e) StatusOpen (e_Version e) "" ""
    (mkDetails (d_SupplierID d) (d_SupplierVersionID d) (d_DeliveryBuildingID d) (d_DeliveryBuildingSnapshot d)
       (d_DeliveryDetail d) (d_Items d) "" "" "" (d_Reward d) (d_AcceptanceDeadline d))
    None None None None ReviewNone "" None (e_CreatedAt e) zero_time.

Section disclosed.
Context (caller : string) (db : ODB) (seen : list Errand).

(** The caller carries the errand, carried it, or withdrew from it. *)
Definition courier_of (e : Errand) : Prop :=
  (∃ e0, e0 ∈ seen ∧ e_ID e0 = e_ID e ∧ e_CourierID e0 = caller) ∨ has_withdrawn db (e_ID e) caller.

Definition requester_may (v : RequesterErrand) : Prop :=
  ∃ e p, e ∈ seen ∧ e_RequesterID e = caller ∧ v = RequesterView e p.
Definition courier_may (v : CourierErrand) : Prop :=
  ∃ e p, e ∈ seen ∧ courier_of e ∧ v = CourierView (for_courier e) p.
Definition anyone_may (v : OpenFields) : Prop :=
  ∃ e p, e ∈ seen ∧ e_Status e = StatusOpen ∧ v = OpenFieldsOf (OpenViewOf (for_anyone e) p).

Definition disclosed (b : RBody) : Prop :=
  match b with
  | BError _ _ => True
  | BRequester v => requester_may v
  | BCourier v => courier_may v
  | BPublic v => anyone_may (pu_Open v)
  | BPage items _ => ∀ i, i ∈ items → match i with IRequester v => requester_may v | ICourier v => courier_may v end
  | BOpenPage items _ => ∀ i, i ∈ items → anyone_may (oi_Fields i)
  end.

End disclosed.

(** A contact is hidden once, not twice. *)
Lemma CourierView_redacted e p : CourierView e p = CourierView (for_courier e) p.
Proof.
  unfold CourierView, for_courier. cbn [e_Status e_Details d_ContactName d_ContactMobile].
  by destruct (shows_contact (e_Status e)).
Qed.

Lemma shown_disclosed caller db seen k b :
  reachable db seen → truthful db seen k → shown_to caller k b → disclosed caller db seen b.
Proof.
  intros Hr (Hread & Hformer & _).
  assert (∀ v, requester_shown caller (k_read k) v → requester_may caller seen v) as H1.
  { intros v (e & p & He & (e0 & He0 & Hid0 & Hq) & ->). exists e, p. split_and!; [by apply Hread| |done].
    rewrite <- Hq. symmetry. by apply (seen_requester _ _ _ _ Hr); [apply Hread..|]. }
  assert (∀ v, courier_shown caller (k_read k) (λ id, (id, caller) ∈ k_former k) v → courier_may caller db seen v) as H2.
  { intros v (e & p & He & Hc & ->). exists e, p. split_and!; [by apply Hread| |apply CourierView_redacted].
    destruct Hc as [(e0 & He0 & ?)|Hf]; [left; exists e0; auto|right; by apply Hformer]. }
  assert (∀ v, open_shown (k_read k) v → anyone_may seen v) as H3.
  { intros v (e & p & He & Hs & ->). exists e, p. split_and!; [by apply Hread|done|done]. }
  unfold shown_to, shown. destruct b as [| | | |items next|items next]; simpl; [done|apply H1|apply H2|apply H3|..].
  - intros Hi i Hin. specialize (Hi i Hin). destruct i; simpl in Hi; auto.
  - intros Hi i Hin. by apply H3, Hi.
Qed.

Lemma serve_shown r rq :
  hwp (serve r rq) nothing (λ reply k,
    match Caller rq with Ok caller => shown_to caller k (hp_Body reply) | Err _ => True end).
Proof.
  destruct r as [a| | | | | | |fuel]; cbn [serve].
  - eapply hwp_mono; [|apply handler_spec]. intros reply k. apply action_shown.
  - eapply hwp_mono; [|apply edit_spec]. intros reply k. apply edit_shown.
  - eapply hwp_mono; [|apply create_spec]. intros reply k. simpl. destruct (Caller rq) as [caller|]; [|done].
    destruct (idempotencyKey rq) as [key|]; [apply create_shown|]. intros (_ & He & _). by apply error_shown.
  - eapply hwp_mono; [|apply get_spec]. by intros reply k [_ ?].
  - eapply hwp_mono; [|apply list_mine_spec; unfold my_lists; set_solver]. by intros reply k [_ ?].
  - eapply hwp_mono; [|apply list_mine_spec; unfold my_lists; set_solver]. by intros reply k [_ ?].
  - eapply hwp_mono; [|apply history_spec]. by intros reply k [_ ?].
  - eapply hwp_mono; [|apply list_open_spec]. by intros reply k [_ ?].
Qed.

(** C16: Nobody is shown what is not theirs, on any route: a requester's view is
    of an errand the caller requested; a courier's view is of one the caller
    carries or once carried, and depends on neither the requester's identity,
    the pending edit nor, outside a delivery, the contact person; everyone
    else sees open errands only, without requester, notes, contact or
    courier. *)
Theorem nobody_sees_more db seen r rq log reply db' seen' caller :
  reachable db seen → hrun db seen (serve r rq) log reply db' seen' → Caller rq = Ok caller →
  disclosed caller db' seen' (hp_Body reply).
Proof.
  intros Hr Hrun Hc. destruct (route_run _ _ _ _ _ _ _ _ Hr Hrun (serve_shown r rq)) as (k & Hs & _ & Ht & Hr').
  rewrite Hc in Hs. by eapply shown_disclosed.
Qed.

(** ** Creation *)

Lemma seen_create_key db seen e1 e2 :
  reachable db seen → e1 ∈ seen → e2 ∈ seen → e_RequesterID e1 = e_RequesterID e2 →
  e_CreateIdempotencyKey e1 = e_CreateIdempotencyKey e2 → e_ID e1 = e_ID e2.
Proof.
  intros Hr H1 H2 Hq Hk. destruct (store_reachable_ok _ _ Hr) as (Hok & _). destruct (reachable_past _ _ Hr) as [_ Hp].
  destruct (Hp _ H1) as (_ & c1 & (row1 & Hl1 & Hro1) & Hq1 & Hk1), (Hp _ H2) as (_ & c2 & (row2 & Hl2 & Hro2) & Hq2 & Hk2).
  destruct (errandFromRow_frame _ _ (ro_read _ _ _ Hro1)) as (_ & _ & _ & R1 & K1 & _).
  destruct (errandFromRow_frame _ _ (ro_read _ _ _ Hro2)) as (_ & _ & _ & R2 & K2 & _).
  apply (so_create _ Hok _ _ _ _ Hl1 Hl2); congruence.
Qed.

(** The errand an answer is about. *)
Definition reply_errand (b : RBody) : option string :=
  match b with BRequester v => Some (fl_ErrandID (re_Fields v)) | _ => None end.

(** C17: One idempotency key creates one errand: a creation inserts at most one
    errand, under the ID derived from the requester and the key, and writes
    nothing when it is refused; and any two creations of a requester with one
    key that succeed, whatever their bodies, answer with the same errand. *)
Theorem creation_is_idempotent db seen db1 s1 rq1 log1 reply1 db1' s1' db2 s2 rq2 log2 reply2 db2' s2' requester key :
  reachable db1 s1 → hrun db1 s1 (create rq1) log1 reply1 db1' s1' →
  reachable db2 s2 → hrun db2 s2 (create rq2) log2 reply2 db2' s2' →
  reachable db seen → s1' ⊆ seen → s2' ⊆ seen →
  Caller rq1 = Ok requester → idempotencyKey rq1 = Ok key → Caller rq2 = Ok requester → idempotencyKey rq2 = Ok key →
  (log1 = [] ∨ ∃ e t, log1 = [OCreate e t] ∧ e_ID e = errandID requester key) ∧
  (refused reply1 → log1 = []) ∧
  (answered reply1 → answered reply2 → is_Some (reply_errand (hp_Body reply1)) ∧
     reply_errand (hp_Body reply1) = reply_errand (hp_Body reply2)).
Proof.
  intros Hr1 Hrun1 Hr2 Hrun2 Hr Hs1 Hs2 Hc1 Hk1 Hc2 Hk2.
  destruct (route_run _ _ _ _ _ _ _ _ Hr1 Hrun1 (create_spec rq1)) as (k1 & Ho1 & <- & (Hread1 & _) & _).
  destruct (route_run _ _ _ _ _ _ _ _ Hr2 Hrun2 (create_spec rq2)) as (k2 & Ho2 & _ & (Hread2 & _) & _).
  rewrite Hc1, Hk1 in Ho1. rewrite Hc2, Hk2 in Ho2.
  destruct Ho1 as [Hd1 Hl1 Href1 _], Ho2 as [Hd2 _ _ _]. split_and!; [naive_solver|done|].
  intros Ha1 Ha2. destruct (Hd1 Ha1) as (e1 & st1 & l1 & p1 & He1 & Hq1 & Hy1 & ->).
  destruct (Hd2 Ha2) as (e2 & st2 & l2 & p2 & He2 & Hq2 & Hy2 & ->). simpl. split; [eauto|]. f_equal.
  apply (seen_create_key db seen); try congruence; auto.
Qed.

(** A body the validator accepts is what the API describes (UUIDs, bounded
    texts, one to twenty items of one to ninety-nine, a reward that fits, a
    deadline in the window), and the state machine never refuses the errand
    made from it. *)
Theorem accepted_body_is_submitted body now in_ requester key version building :
  parseInput body now = Ok in_ → requester ≠ "" →
  input_well_formed in_ now ∧
  ∃ t, Next (new_errand (errandID requester key) requester key in_ version building) EventSubmit
         (mkActor ActorRequester requester) (no_input "" no_deadlines) now = Ok t ∧ t_To t = StatusPendingReservation.
Proof.
  intros Hp Hq. pose proof (parseInput_well_formed _ _ _ Hp) as Hw. split; [done|].
  apply well_formed_submits; [|done..]. intros Hempty. destruct (errandID_uuid requester key) as [Hu _].
  by rewrite Hempty in Hu.
Qed.

(** C32: Whatever the requester and the key, the errand ID is a UUID in lower
    case of version 5 and the standard variant. *)
Theorem errandID_is_uuid5 requester key :
  uuid_pattern (errandID requester key) = true ∧ to_lower (errandID requester key) = errandID requester key ∧
  String.get 14 (errandID requester key) = Some "5"%char ∧
  ∃ c, String.get 19 (errandID requester key) = Some c ∧ c ∈ ["8"%char; "9"%char; "a"%char; "b"%char].
Proof.
  destruct (errandID_uuid requester key) as [Hp Hl]. split; [done|]. split; [done|].
  apply errandID_version.
Qed.

(** ** Lists *)

(** Following the cursors of the open list of a store that does not change
    reads every open errand whose acceptance deadline has not passed, of the
    supplier asked for, exactly once and in order of deadline, whatever the
    page size. *)
Theorem open_pages_list_everything db seen now supplier limit fuel :
  reachable db seen → 1 ≤ limit ≤ MaxListLimit → (size (db_errands db) < fuel)%nat →
  (supplier = "" ∨ is_Some (toUUID supplier)) →
  ∃ es, walk fuel (λ after, answer (ListOpen (mkOpenQuery now supplier after limit) db)) None = Some es ∧
    listing db (open_for now supplier)
      (λ a b, pos_le (d_AcceptanceDeadline (e_Details a), e_ID a) (d_AcceptanceDeadline (e_Details b), e_ID b)) es.
Proof. intros Hr. apply ListOpen_walk. by destruct (store_reachable_ok _ _ Hr). Qed.

(** The same of a user's own lists: the requested, the delivering and the
    history list (of either role or both) hold every errand of the user that
    belongs there exactly once, newest first. *)
Theorem user_pages_list_everything db seen which user role limit fuel :
  reachable db seen → 1 ≤ limit ≤ MaxListLimit → (size (db_errands db) < fuel)%nat → user ≠ "" →
  role ∈ [HistoryAny; HistoryRequester; HistoryCourier] →
  ∃ es, walk fuel (λ after, answer (ListUser which (mkUserListQuery user role after limit) db)) None = Some es ∧
    listing db (users which role user) (λ a b, pos_ge (list_time which a, e_ID a) (list_time which b, e_ID b)) es.
Proof. intros Hr. apply ListUser_walk. by destruct (store_reachable_ok _ _ Hr). Qed.

(** ** Retries *)

Lemma Get_stored id u e db : toUUID id = Some u → stored_as db u e → Get id db = Ok (e, db).
Proof.
  intros Hu (row & Hl & Hro). unfold Get. rewrite Hu. unfold bind, GetErrand. rewrite Hl. unfold lift.
  by rewrite (ro_read _ _ _ Hro).
Qed.

Lemma load_versions_play env db seen ids pickups :
  (∀ id, id ∈ ids → ∃ v, en_Version env id = Ok v) →
  ∃ pickups', play env db seen (load_versions ids pickups) = ([], Ok pickups', db, seen).
Proof.
  revert pickups. induction ids as [|id ids IH]; intros pickups Hids; simpl; [by exists pickups|].
  destruct (pickups !! id); [apply IH; intros; apply Hids; by right|].
  destruct (Hids id) as (v & Hv); [by left|]. simpl. rewrite Hv. apply IH. intros. apply Hids. by right.
Qed.

Lemma respond_courier_play env db seen e :
  (∀ id, id ∈ version_ids e → ∃ v, en_Version env id = Ok v) →
  ∃ p, play env db seen (respond_courier e) = ([], OkCourier e p, db, seen).
Proof.
  intros Hv. unfold respond_courier, LoadPickups.
  destruct (load_versions_play env db seen ([e] ≫= version_ids) ∅) as (p & Hp).
  { intros id Hin. apply Hv. simpl in Hin. by rewrite app_nil_r in Hin. }
  exists p. by rewrite (play_bind _ _ _ _ _ _ _ _ _ Hp).
Qed.

Lemma respond_requester_play env db seen e :
  (∀ id, id ∈ version_ids e → ∃ v, en_Version env id = Ok v) →
  ∃ p, play env db seen (respond_requester e) = ([], RequesterReply 200 None e p, db, seen).
Proof.
  intros Hv. unfold respond_requester, LoadPickups.
  destruct (load_versions_play env db seen ([e] ≫= version_ids) ∅) as (p & Hp).
  { intros id Hin. apply Hv. simpl in Hin. by rewrite app_nil_r in Hin. }
  exists p. by rewrite (play_bind _ _ _ _ _ _ _ _ _ Hp).
Qed.

(** The caller's part in the errand, as the store has it. *)
Definition party (a : Action) (caller : string) (db : ODB) (e : Errand) : Prop :=
  if by_requester a then e_RequesterID e = caller
  else if by_courier a then e_CourierID e = caller ∨ has_withdrawn db (e_ID e) caller
  else True.

#[local] Arguments respond_courier : simpl never.
#[local] Arguments respond_requester : simpl never.

Lemma shown_play env db seen (a : Action) e (p : hproc HReply) :
  p = (if by_requester a then respond_requester e else respond_courier e) →
  (∀ id, id ∈ version_ids e → ∃ v, en_Version env id = Ok v) →
  ∃ pickups, play env db seen p = ([], action_view a e pickups, db, seen).
Proof.
  intros -> Hv. unfold action_view. destruct (by_requester a); [by apply respond_requester_play|by apply respond_courier_play].
Qed.

(** What the handlers do with an errand that bears the effect. *)
Lemma accept_again env db seen caller id v e :
  acceptedByCaller caller v e = true → (∀ id, id ∈ version_ids e → ∃ v, en_Version env id = Ok v) →
  ∃ pickups, play env db seen (accept_errand caller id v e) = ([], OkCourier e pickups, db, seen).
Proof. intros Hd Hv. unfold accept_errand. rewrite Hd. by apply respond_courier_play. Qed.

Lemma courier_again env db seen a caller id v reason e :
  ca_Done a e caller v = true → toUUID (e_ID e) = Some (e_ID e) →
  e_CourierID e = caller ∨ has_withdrawn db (e_ID e) caller →
  (∀ id, id ∈ version_ids e → ∃ v, en_Version env id = Ok v) →
  ∃ pickups, play env db seen (courier_errand a id caller v reason e) = ([], OkCourier e pickups, db, seen).
Proof.
  intros Hd Hu Hp Hv. unfold courier_errand. cbn [play pbind perform alone fst snd].
  case_bool_decide as Hc; cbn [negb]; [rewrite Hd; by apply respond_courier_play|].
  destruct Hp as [?|(tr & Hin & Hw & Hid')]; [done|].
  unfold notCourier, formerCourier. cbn [play pbind perform alone fst snd].
  unfold inTx, CourierHistory. cbn [fst snd play pbind].
  assert (existsb (λ r, match toUUID (e_ID e) with Some u => bool_decide (tr_ErrandID r = u) | None => false end)
    (List.filter (is_withdrawal caller) (db_transitions db)) = true) as ->.
  { apply existsb_exists. exists tr. rewrite Hu. split; [|by apply bool_decide_eq_true].
    apply filter_In. split; [by apply list_elem_of_In|done]. }
  cbn [ch_WithdrewFromErrand negb play pbind]. rewrite Hd. by apply respond_courier_play.
Qed.

Lemma requester_again env db seen a caller id v reason e :
  ra_Done a e v = true → (∀ id, id ∈ version_ids e → ∃ v, en_Version env id = Ok v) →
  ∃ pickups, play env db seen (requester_errand a id caller v reason e) = ([], RequesterReply 200 None e pickups, db, seen).
Proof. intros Hd Hv. unfold requester_errand. rewrite Hd. by apply respond_requester_play. Qed.

(** A lost answer is safe to retry: once an action has had its effect, the
    same request is answered 200 with the errand as it is now, and writes
    nothing, for every one of the eight actions. *)
Theorem retry_is_answered env db seen a rq caller id v e :
  reachable db seen → stored_as db (e_ID e) e → command_of a rq = Some (caller, id, v) →
  toUUID id = Some (e_ID e) → action_done a caller v e = true → party a caller db e →
  (∀ id, id ∈ version_ids e → ∃ v, en_Version env id = Ok v) →
  ∃ pickups, play env db seen (handler a rq) = ([], action_view a e pickups, db, seen).
Proof.
  intros Hr Hst Hc Hu Hd Hp Hv. unfold command_of in Hc.
  destruct (Caller rq) as [c|] eqn:HC; [|done]. destruct (ErrandID rq) as [i|] eqn:HI; [|done].
  destruct (read_body (reasoned a) (hq_Body rq)) as [[w reason]|] eqn:HB; [|done]. injection Hc as -> -> ->.
  pose proof (Get_stored _ _ _ _ Hu Hst) as Hget. destruct (stored_as_id _ _ _ Hst) as (_ & Hself & _).
  destruct a; cbn [handler];
    unfold withdraw, pickUp, deliver, reportIssue, cancel, confirm, dispute, accept, courier_transition, requester_transition, ownErrand;
    rewrite HC, HI; unfold party in Hp; cbn [reasoned by_requester by_courier ca_Reasoned ra_Reasoned] in *.
  1: { unfold read_body in HB. destruct (ReadVersionedAction _); [|done]. injection HB as -> _.
       cbn [play pbind perform alone fst snd]. unfold inTx. rewrite Hget. cbn [fst snd play pbind]. by apply accept_again. }
  1-4: cbn [ca_Reasoned withdrawAction pickUpAction deliverAction reportIssueAction]; rewrite HB;
    cbn [play pbind perform alone fst snd]; unfold inTx; rewrite Hget; cbn [fst snd play pbind]; by apply courier_again.
  all: cbn [ra_Reasoned cancelAction confirmAction disputeAction]; rewrite HB;
    cbn [play pbind perform alone fst snd]; unfold inTx; rewrite Hget; cbn [fst snd play pbind];
    rewrite bool_decide_true by done; cbn [negb play pbind]; by apply requester_again.
Qed.

End properties.

(** ** Witnesses *)

(** Bob accepts Alice's errand, twice; Carol tries to pick it up. *)
Module RouteScenario.
Export StoreScenario.

(** The float functions play no part here. *)
#[export] Instance floats : GoFloat := {|
  ParseFloat _ := None; FormatFloat _ := ""; enc_float _ := JNull; dec_float _ := None;
  math_Sin x := x; math_Cos x := x; math_Asin x := x |}.

#[export] Instance row_ids : RowIds := serial.
#[export] Instance collation : Collation := bytewise.
#[export] Instance uuids : UUIDs.
Proof. intros s Hs. simpl. unfold read_uuid. by rewrite Hs. Qed.

Definition kopi : SupplierVersion :=
  mkSupplierVersion sup sup2 "Kopi" "cafe" "" "COM1" op1 "1" "by the lift" f_zero f_zero "08:00" "20:00" "" true 0.
Definition env (now : Z) : Env :=
  mkEnv now DefaultSystemSettings (λ _, Ok kopi) (λ _ _, Ok kopi) (Ok [mkBuilding op1 "COM1" false]).

Lemma env_is_ok now : env_ok (env now).
Proof. by split_and!. Qed.

Definition carol := "auth0|carol".
Definition no_query : Query := mkQuery [] None.
Definition ask (who : string) (v : Z) : HRequest :=
  mkHRequest (Some who) id1 "" (mkBody (Some 21) (Some (JObj [("expectedVersion", JInt v)]))) no_query.

(** The result of playing [p]. *)
Definition played {A} (r : list own * A * ODB * list Errand) : list own * A := (r.1.1.1, r.1.1.2).
Definition to_db {A} (r : list own * A * ODB * list Errand) : ODB := r.1.2.
Definition to_seen {A} (r : list own * A * ODB * list Errand) : list Errand := r.2.

Definition accepting := Eval vm_compute in play (env 4000) db2 seen2 (accept (ask bob 2)).
Definition db3 := Eval vm_compute in to_db accepting.
Definition seen3 := Eval vm_compute in to_seen accepting.
Definition again := Eval vm_compute in play (env 5000) db3 seen3 (accept (ask bob 2)).
Definition intruding := Eval vm_compute in play (env 5000) db3 seen3 (pickUp (ask carol 3)).

Lemma accepting_run : hrun db2 seen2 (accept (ask bob 2)) (played accepting).1 (played accepting).2 db3 seen3.
Proof. apply (play_run (env 4000)); [apply env_is_ok|]. vm_compute. reflexivity. Qed.

Lemma again_run : hrun db3 seen3 (accept (ask bob 2)) (played again).1 (played again).2 db3 seen3.
Proof. apply (play_run (env 5000)); [apply env_is_ok|]. vm_compute. reflexivity. Qed.

Lemma reach_db3 : reachable db3 seen3.
Proof.
  destruct (route_run _ _ _ _ _ _ _ _ reach_db2 accepting_run (handler_spec AAccept (ask bob 2))) as (k & _ & _ & _ & Hr).
  exact Hr.
Qed.

Lemma intruding_run : hrun db3 seen3 (pickUp (ask carol 3)) (played intruding).1 (played intruding).2 db3 seen3.
Proof. apply (play_run (env 5000)); [apply env_is_ok|]. vm_compute. reflexivity. Qed.

(** Carol looks at the open errand. *)
Definition looking := Eval vm_compute in play (env 5000) db2 seen2 (get_errand (ask carol 0)).
Lemma looking_run : hrun db2 seen2 (get_errand (ask carol 0)) (played looking).1 (played looking).2 db2 seen2.
Proof. apply (play_run (env 5000)); [apply env_is_ok|]. vm_compute. reflexivity. Qed.

(** Alice creates an errand, and sends the request again. *)
Definition order_body : option json :=
  Some (JObj [("supplierId", JStr sup); ("deliveryBuildingId", JStr op1); ("deliveryDetail", JStr "lobby");
    ("items", JArr [JObj [("description", JStr "coffee"); ("quantity", JInt 2)]]);
    ("contactName", JStr "Alice"); ("contactMobile", JStr "91234567"); ("reward", JInt 40)]).
Definition order : HRequest := mkHRequest (Some alice) "" id1 (mkBody (Some 200) order_body) no_query.
Definition ordering := Eval vm_compute in play (env 0) empty_odb [] (create order).
Definition reordering := Eval vm_compute in play (env 1) (to_db ordering) (to_seen ordering) (create order).

Lemma ordering_run : hrun empty_odb [] (create order) (played ordering).1 (played ordering).2 (to_db ordering) (to_seen ordering).
Proof. apply (play_run (env 0)); [apply env_is_ok|]. vm_compute. reflexivity. Qed.
Lemma reordering_run : hrun (to_db ordering) (to_seen ordering) (create order) (played reordering).1
  (played reordering).2 (to_db ordering) (to_seen ordering).
Proof. apply (play_run (env 1)); [apply env_is_ok|]. vm_compute. reflexivity. Qed.
Lemma reach_ordered : reachable (to_db ordering) (to_seen ordering).
Proof.
  destruct (route_run _ _ _ _ _ _ _ _ reach_init ordering_run (create_spec order)) as (k & _ & _ & _ & Hr).
  exact Hr.
Qed.

End RouteScenario.
Import RouteScenario.

Lemma action_commits_its_own_witness :
  (played accepting).1 ≠ [] ∧ ∀ t, OApply t ∈ (played accepting).1 → own_move AAccept id1 bob 2 t.
Proof.
  pose proof (action_commits_its_own db2 seen2 AAccept (ask bob 2) _ _ _ _ reach_db2 accepting_run) as H.
  assert (command_of AAccept (ask bob 2) = Some (bob, id1, 2)) as Hc by (vm_compute; reflexivity).
  rewrite Hc in H. destruct H as [[H|[(r & H)|(t & Ht & H)]] _]; [vm_compute in H; discriminate H..|].
  rewrite H. split; [done|]. intros t' [= ->]%list_elem_of_singleton. exact Ht.
Defined.

Lemma success_is_recorded_witness :
  ∃ tr, tr ∈ db_transitions db3 ∧ tr_ErrandVersion tr = 3 ∧ moved_by EventAccept ActorCourier bob tr.
Proof.
  destruct (success_is_recorded db2 seen2 AAccept (ask bob 2) _ _ _ _ bob id1 2 reach_db2 accepting_run)
    as (tr & Htr & _ & Hv & Hm); [reflexivity|vm_compute; reflexivity|vm_compute; reflexivity|].
  exists tr. split; [exact Htr|]. split; [exact Hv|exact Hm].
Defined.

Lemma one_courier_wins_witness : answered (played accepting).2 ∧ answered (played again).2 ∧ bob = bob.
Proof.
  split; [vm_compute; reflexivity|]. split; [vm_compute; reflexivity|].
  apply (one_courier_wins db3 seen3 db2 seen2 (ask bob 2) _ _ _ _ bob id1 db3 seen3 (ask bob 2) _ _ _ _ bob id1 2
    reach_db2 accepting_run reach_db3 again_run reach_db3); vm_compute; try reflexivity; auto.
Defined.

Lemma strangers_change_nothing_witness : (played intruding).1 = [] ∧ ¬ answered (played intruding).2.
Proof.
  apply (strangers_change_nothing db3 seen3 APickUp (ask carol 3) _ _ _ _ carol id1 3 reach_db3 intruding_run);
    [done|vm_compute; reflexivity|].
  intros u Hu. assert (Some id1 = Some u) as Hu' by (rewrite <- Hu; vm_compute; reflexivity).
  injection Hu' as <-. split.
  - intros e He _. assert (Forall (λ e, e_CourierID e ≠ carol) seen3) as Hall by (repeat constructor; vm_compute; discriminate).
    rewrite Forall_forall in Hall. by apply Hall.
  - intros (tr & Htr & Hw & _). assert (Forall (λ tr, is_withdrawal carol tr = false) (db_transitions db3)) as Hall
      by (repeat constructor).
    rewrite Forall_forall in Hall. rewrite (Hall tr Htr) in Hw. discriminate Hw.
Defined.

Lemma nobody_sees_more_witness :
  disclosed carol db2 seen2 (hp_Body (played looking).2) ∧ hp_Status (played looking).2 = 200.
Proof.
  split; [|vm_compute; reflexivity].
  by apply (nobody_sees_more db2 seen2 RGet (ask carol 0) _ _ _ _ carol reach_db2 looking_run).
Defined.

Lemma creation_is_idempotent_witness :
  is_Some (reply_errand (hp_Body (played ordering).2)) ∧
  reply_errand (hp_Body (played ordering).2) = reply_errand (hp_Body (played reordering).2).
Proof.
  destruct (creation_is_idempotent (to_db ordering) (to_seen ordering) empty_odb [] order _ _ _ _
    (to_db ordering) (to_seen ordering) order _ _ _ _ alice id1 reach_init ordering_run reach_ordered reordering_run
    reach_ordered) as (_ & _ & H); try (vm_compute; reflexivity); auto.
  all: try apply H; vm_compute; reflexivity.
Defined.

Lemma accepted_body_is_submitted_witness :
  match parseInput order_body 0 with
  | Ok in_ => ∃ t, Next (new_errand (errandID alice id1) alice id1 in_ kopi (mkBuilding op1 "COM1" false)) EventSubmit
                     (mkActor ActorRequester alice) (no_input "" no_deadlines) 0 = Ok t
  | Err _ => False
  end.
Proof.
  assert (match parseInput order_body 0 with Ok _ => True | Err _ => False end) as Ht by (vm_compute; exact I).
  destruct (parseInput order_body 0) as [in_|] eqn:Hp; [|exact Ht].
  destruct (accepted_body_is_submitted order_body 0 in_ alice id1 kopi (mkBuilding op1 "COM1" false) Hp) as (_ & t & Ht' & _);
    [discriminate|]. exists t. exact Ht'.
Defined.

Lemma open_pages_list_everything_witness :
  ∃ es, walk 2 (λ after, answer (ListOpen (mkOpenQuery 3000 "" after 1) db2)) None = Some es ∧ opened ∈ es.
Proof.
  destruct (open_pages_list_everything db2 seen2 3000 "" 1 2 reach_db2) as (es & Hw & Hl);
    [vm_compute; split; discriminate|vm_compute; repeat constructor|by left|].
  exists es. split; [exact Hw|]. apply (ls_all _ _ _ _ Hl). split.
  - apply elem_of_current; [apply (store_reachable_ok _ _ reach_db2)|]. vm_compute. by left.
  - split; [reflexivity|]. split; [vm_compute; reflexivity|]. intros Hne. by destruct Hne.
Defined.

Lemma user_pages_list_everything_witness :
  ∃ es, walk 2 (λ after, answer (ListUser DeliveringList (mkUserListQuery bob HistoryAny after 1) db3)) None = Some es ∧
    listing db3 (users DeliveringList HistoryAny bob)
      (λ a b, pos_ge (list_time DeliveringList a, e_ID a) (list_time DeliveringList b, e_ID b)) es.
Proof.
  apply (user_pages_list_everything db3 seen3 DeliveringList bob HistoryAny 1 2 reach_db3);
    [vm_compute; split; discriminate|vm_compute; repeat constructor|discriminate|by left].
Defined.

Lemma retry_is_answered_witness :
  ∃ e pickups, e ∈ current db3 ∧ e_Status e = StatusAssigned ∧
    play (env 5000) db3 seen3 (accept (ask bob 2)) = ([], OkCourier e pickups, db3, seen3).
Proof.
  set (e := default opened (head (current db3))).
  assert (e ∈ current db3) as He by (vm_compute; by left).
  destruct (retry_is_answered (env 5000) db3 seen3 AAccept (ask bob 2) bob id1 2 e reach_db3) as (p & Hp).
  - apply elem_of_current; [apply (store_reachable_ok _ _ reach_db3)|exact He].
  - vm_compute. reflexivity.
  - vm_compute. reflexivity.
  - vm_compute. reflexivity.
  - exact I.
  - intros id _. by exists kopi.
  - exists e, p. split; [exact He|]. split; [vm_compute; reflexivity|exact Hp].
Defined.
