(* ===== verification/ReviewProps.v ===== *)
(** * order-service: properties of the review routes

    Preconditions of the parts of [Review], and one specification each for the
    resolution of a review and for the queue; what resolving a review writes
    and proves, that an errand has one verdict, and that a valid resolution
    takes effect, each with a witness. *)

From S2P Require Import Prelude Proc Keyset GoText Json GoTime Errand Settings ErrandState ErrandJson ErrandInv ErrandProps ErrandStore Fence OpsRepo StoreInv StoreSafe StoreSystem ErrandLists StoreHistory StoreErrors StoreProps ErrandHttp ErrandActions ErrandForms ErrandReads Review HttpSystem HttpLogic HttpForms HttpReads HttpProps.

Section review.
Context `{Hpg : Postgres, Hpgok : !PostgresOk, Hrow : RowIds, Hcol : Collation}.

(** ** Resolving a review *)

(** The transition a resolution asks for, decided on [e]. *)
Definition verdict (admin id : string) (rs : Resolution) (e : Errand) (t : Transition) : Prop :=
  toUUID id = Some (e_ID e) ∧ e_Version e = rs_ExpectedVersion rs ∧
  ∃ ev now, outcome_event (rs_Outcome rs) = Some ev ∧
    Next e ev (mkActor ActorAdmin admin) (no_input (rs_Reason rs) no_deadlines) now = Ok t.

Definition own_audit (admin id : string) (rs : Resolution) (a : AuditRow) : Prop :=
  au_ActorID a = admin ∧ au_Action a = auditAction (rs_Outcome rs) ∧ au_TargetID a = id.

(** At most the verdict, then at most one audit row; it says SUCCEEDED only
    after the verdict. *)
Definition resolution_log (admin id : string) (rs : Resolution) (log : list own) : Prop :=
  ∃ moves audits, log = moves ++ audits ∧
    (moves = [] ∨ ∃ e t, verdict admin id rs e t ∧ moves = [OApply t]) ∧
    (audits = [] ∨ ∃ a, own_audit admin id rs a ∧ audits = [OAudit a] ∧ (au_Outcome a = AuditSucceeded → moves ≠ [])).

(** What an audit row says of the answer: the reason given, or the code the
    caller is shown. *)
Definition audit_tells (rs : Resolution) (r : res Failure AdminErrand) (a : AuditRow) : Prop :=
  match r with
  | Ok _ => au_Outcome a = AuditSucceeded ∧ au_Reason a = text (rs_Reason rs)
  | Err err => au_Outcome a = AuditRejected ∧
      ∃ code, code_of err = Some code ∧ au_Reason a = text (Code_string code)
  end.

Record resolution_outcome (admin id : string) (rs : Resolution) (r : res Failure AdminErrand) (k : know) : Prop := {
  rz_done ad : r = Ok ad → ∃ e t, verdict admin id rs e t ∧ OApply t ∈ k_log k ∧
    ad_Errand ad = canon (ApplyTo t e) ∧ ad_Errand ad ∈ k_read k ∧
    rw_Resolution (ad_Review ad) = e_Status (ad_Errand ad) ∧ rw_ResolverID (ad_Review ad) = admin ∧
    rw_ResolutionReason (ad_Review ad) = rs_Reason rs;
  rz_log : resolution_log admin id rs (k_log k);
  rz_refused e t : r = Err (FApp e) → OApply t ∉ k_log k;
  rz_audit a : OAudit a ∈ k_log k → audit_tells rs r a;
}.

Definition audited (a : AuditRow) (k k' : know) : Prop := k' = k ∨ k' = commits (OAudit a) k.

Lemma learns_audited a k r k' : learns k (HAudit a) r k' → audited a k k'.
Proof. unfold audited. destruct r; simpl; [auto|]. intros []; auto. Qed.

Lemma review_refuse_spec admin action id err k :
  hwp (review_refuse admin action id err) k (λ r k', r = Err err ∧
    (k' = k ∨ ∃ code, code_of err = Some code ∧
       k' = commits (OAudit (mkAuditRow admin action AuditTargetType id (text (Code_string code)) AuditRejected)) k)).
Proof.
  unfold review_refuse. destruct (code_of err) as [code|]; [|simpl; auto].
  cbn [hwp pbind perform]. split; [done|]. intros r k' [->| ->]%learns_audited; simpl; (split; [done|]); [by left|right; by exists code].
Qed.

Lemma find_open_spec fuel id after k :
  hwp (find_open fuel id after) k (λ r k', k' = k).
Proof.
  revert after. induction fuel as [|fuel IH]; intros after; [done|]. cbn [find_open]. simpl. split; [done|].
  intros [batch|f] k' ->; [|done]. destruct (find_row _ _ _) as [open|after']; [done|].
  case_match; [done|]. apply IH.
Qed.

Lemma review_pickup_spec e k : hwp (review_pickup e) k (λ r k', k' = k).
Proof. unfold review_pickup. simpl. split; [done|]. by intros r k' [-> _]. Qed.

(** Refusing before the write. *)
Lemma refused_outcome admin id rs err k :
  k_log k = [] →
  hwp (review_refuse admin (auditAction (rs_Outcome rs)) id err) k (resolution_outcome admin id rs).
Proof.
  intros Hl. eapply hwp_mono; [|apply review_refuse_spec]. intros r k' [-> [->|(code & Hcode & ->)]].
  - split; [done| |by intros e t _; rewrite Hl; apply not_elem_of_nil|intros a Ha; rewrite Hl in Ha; by apply elem_of_nil in Ha].
    exists [], []. rewrite Hl. auto.
  - split; [done| | |].
    + simpl. rewrite Hl. eexists [], _. split; [done|]. split; [by left|]. right. eexists. split; [|split; [done|done]]. done.
    + intros e t _. simpl. rewrite Hl. simpl. by intros ?%list_elem_of_singleton.
    + intros a. simpl. rewrite Hl. simpl. intros [= ->]%list_elem_of_singleton. split; [done|]. by exists code.
Qed.

Lemma resolve_errand_spec fuel admin id rs ev e k :
  k_log k = [] → k_read k = [e] → toUUID id = Some (e_ID e) → outcome_event (rs_Outcome rs) = Some ev →
  hwp (resolve_errand fuel admin id rs ev e) k (resolution_outcome admin id rs).
Proof.
  intros Hl Hr Hid Hev. unfold resolve_errand. cbn [hwp pbind perform allowed learns]. split; [done|].
  intros now k' ->. destruct (Next e ev _ _ now) as [t|err] eqn:Hnext; [|by apply refused_outcome].
  destruct (Z.eqb_spec (e_Version e) (rs_ExpectedVersion rs)) as [Hv|_]; cbn [negb]; [|by apply refused_outcome].
  assert (verdict admin id rs e t) as Hver by (split_and!; eauto).
  eapply hwp_then; [apply find_open_spec|]. intros [open|err] k1 ->; [|by apply refused_outcome].
  eapply hwp_then; [apply review_pickup_spec|]. intros [pickup|err] k1 ->; [|by apply refused_outcome].
  cbn [hwp pbind perform]. split.
  { exists e, ev, (mkActor ActorAdmin admin), (no_input (rs_Reason rs) no_deadlines), now. rewrite Hr. split_and!; [by left|done|done]. }
  intros [stored|[err|w]] k1; cbn [learns].
  - intros ((e' & ? & ? & ? & ? & He' & Hn' & ->) & ->). rewrite Hr in He'. apply list_elem_of_singleton in He' as ->.
    split; [done|]. intros r k2 Hk2%learns_audited. split.
    + intros ad [= <-]. exists e, t. split; [done|]. destruct Hk2 as [->| ->]; simpl; rewrite Hl; simpl;
        (split_and!; [by left|done|by left|done..]).
    + destruct Hk2 as [->| ->]; simpl; rewrite Hl; simpl.
      * exists [OApply t], []. split; [done|]. split; [right; by exists e, t|by left].
      * eexists [OApply t], [_]. split; [done|]. split; [right; by exists e, t|]. right. eexists.
        split; [|split; [done|done]]. done.
    + done.
    + intros a. destruct Hk2 as [->| ->]; simpl; rewrite Hl; simpl; [by intros ?%list_elem_of_singleton|].
      intros [?|[= ->]%list_elem_of_singleton]%elem_of_cons; done.
  - intros ->. by apply refused_outcome.
  - intros Hk. unfold review_refuse. cbn [code_of hwp]. split; [done| |done|].
    + destruct Hk as [->| ->]; simpl; rewrite Hl; simpl.
      * exists [], []. auto.
      * exists [OApply t], []. split; [done|]. split; [right; by exists e, t|by left].
    + intros a. destruct Hk as [->| ->]; simpl; rewrite Hl; simpl; intros Ha; [by apply elem_of_nil in Ha|by apply list_elem_of_singleton in Ha].
Qed.

Lemma Resolve_spec fuel admin id rs :
  hwp (Resolve fuel admin id rs) nothing (resolution_outcome admin id rs).
Proof.
  unfold Resolve. destruct (outcome_event _) as [ev|] eqn:Hev.
  - cbn [hwp pbind perform]. split; [done|]. intros [e|err] k'; cbn [learns].
    + intros [Hid ->]. by apply resolve_errand_spec.
    + intros [-> _]. by apply refused_outcome.
  - simpl. split; [done| |intros e t _; apply not_elem_of_nil|intros a Ha; by apply elem_of_nil in Ha]. exists [], []. auto.
Qed.

(** ** The route *)

(** Who asks for which resolution of which errand. *)
Definition resolution_of (rq : ARequest) : option (string * string * Resolution) :=
  match adminID (aq_Principal rq), decodeResolution (aq_Body rq) with
  | Ok admin, Ok rs => if uuid_pattern (aq_ErrandID rq) then Some (admin, to_lower (aq_ErrandID rq), rs) else None
  | _, _ => None
  end.

Definition a_refused (reply : AReply) : Prop := 400 ≤ ap_Status reply < 500.
Definition a_answered (reply : AReply) : Prop := ap_Status reply < 400.

Lemma a_error_status code : 400 ≤ ap_Status (a_error code).
Proof. by destruct code. Qed.

Lemma a_fail_status f : 400 ≤ ap_Status (a_fail f).
Proof. destruct f as [e|w]; simpl; [case_bool_decide; [done|apply a_error_status]|done]. Qed.


Lemma adminID_refused p reply : adminID p = Err reply → a_refused reply.
Proof. unfold adminID. destruct p; [case_bool_decide|]; intros [= <-]; done. Qed.

Lemma decodeResolution_refused body reply : decodeResolution body = Err reply → a_refused reply.
Proof.
  unfold decodeResolution. destruct (body ≫= members) as [ms|]; [|by intros [= <-]].
  destruct (resolve_members _ _ _) as [[o r v] [f|]]; [by intros [= <-]|]. case_match; [done|]. by intros [= <-].
Qed.

(** Every member of a decoded resolution was given and checked. *)
Lemma decodeResolution_ok body rs :
  decodeResolution body = Ok rs →
  is_Some (outcome_event (rs_Outcome rs)) ∧ trim_space (rs_Reason rs) ≠ "" ∧
  rune_count (rs_Reason rs) ≤ maxReasonLength ∧ 1 ≤ rs_ExpectedVersion rs.
Proof.
  unfold decodeResolution. destruct (body ≫= members) as [ms|]; [|done].
  destruct (resolve_members _ _ _) as [[o r v] [f|]]; [done|].
  destruct (_ ++ _) as [|f fs] eqn:Hf; [|done]. intros [= <-]. cbn [rs_Outcome rs_Reason rs_ExpectedVersion].
  apply app_eq_nil in Hf as [Ho [Hr Hv]%app_eq_nil]. split_and!.
  - unfold parse_outcome in *. destruct o; [|done]. repeat (case_bool_decide; [by eauto|]). done.
  - unfold parse_reason in *. destruct r; [|done]. case_bool_decide; [done|]. by case_match.
  - unfold parse_reason in *. destruct r; [|done]. case_bool_decide; [done|]. case_match eqn:Hlen; [done|]. simpl. lia.
  - unfold parse_version in *. destruct v; [|done]. case_match eqn:Hlt; [done|]. simpl. lia.
Qed.

Definition review_outcome (rq : ARequest) (reply : AReply) (k : know) : Prop :=
  match resolution_of rq with
  | Some (admin, id, rs) => ∃ r, resolution_outcome admin id rs r k ∧
      reply = match r with Ok ad => mkAReply 200 (AErrand (adminErrandBody ad)) | Err err => a_fail err end
  | None => a_refused reply ∧ k_log k = []
  end.

Lemma resolve_review_spec fuel rq : hwp (resolve_review fuel rq) nothing (review_outcome rq).
Proof.
  unfold resolve_review, review_outcome, resolution_of.
  destruct (adminID _) as [admin|reply] eqn:Ha; [|simpl; split; [by eapply adminID_refused|done]].
  destruct (uuid_pattern _); cbn [negb].
  - destruct (decodeResolution _) as [rs|reply] eqn:Hd; [|simpl; split; [by eapply decodeResolution_refused|done]].
    eapply hwp_then; [apply Resolve_spec|]. intros r k' Hr. simpl. by exists r.
  - destruct (decodeResolution _); done.
Qed.

End review.

Section properties.
Context `{Hpg : Postgres, Hpgok : !PostgresOk, Hrow : RowIds, Hcol : Collation}.

(** ** Verdicts *)

Definition outcome_status (o : Outcome) : Status :=
  match o with OutcomeCompleted => StatusCompleted | OutcomeRefunded => StatusRefunded | OutcomeOther _ => StatusNone end.

(** The row a verdict leaves. *)
Record verdict_row (admin id : string) (rs : Resolution) (tr : TransitionRow) : Prop := {
  vr_errand : toUUID id = Some (tr_ErrandID tr);
  vr_version : tr_ErrandVersion tr = rs_ExpectedVersion rs + 1;
  vr_event : outcome_event (rs_Outcome rs) = Some (tr_Event tr);
  vr_to : tr_ToStatus tr = outcome_status (rs_Outcome rs);
  vr_actor : tr_ActorType tr = ActorAdmin ∧ tr_ActorID tr = text admin;
  vr_reason : tr_Reason tr = text (rs_Reason rs);
}.

Lemma verdict_fields admin id rs e t :
  verdict admin id rs e t →
  outcome_event (rs_Outcome rs) = Some (t_Event t) ∧ t_Actor t = mkActor ActorAdmin admin ∧
  t_Reason t = rs_Reason rs ∧ t_To t = outcome_status (rs_Outcome rs) ∧ t_NewVersion t = rs_ExpectedVersion rs + 1 ∧
  e_Status e = StatusReviewRequired.
Proof.
  intros (_ & <- & ev & now & Hev & (rule & [Hin Hf Hre Hact _ _ (t0 & Happ & ->)])%Next_inv).
  unfold applyEvent, newError in Happ. destruct rs as [o r v]. cbn [rs_Outcome rs_Reason] in *.
  destruct e as [id0 st ver req cour det pd dd da vd rr ck pe ca ua].
  destruct o; simplify_eq/=; each_rule Hin; simpl in *; simplify_eq/=; try (break_in Happ; simplify_eq/=);
    unfold drop_edit; simpl; destruct pe; simpl; by split_and!.
Qed.

Lemma verdict_recorded db seen admin id rs e t :
  reachable db seen → verdict admin id rs e t → recorded db (OApply t) → canon (ApplyTo t e) ∈ seen →
  ∃ tr, tr ∈ db_transitions db ∧ verdict_row admin id rs tr.
Proof.
  intros Hr Hv (e' & ev & actor & input & now & tr & _ & Hnext' & Hin & ->) Hseen.
  destruct (verdict_fields _ _ _ _ _ Hv) as (Hev & Hact & Hre & Hto & Hnew & _).
  destruct Hv as (Hid & _ & ev0 & now0 & _ & Hnext).
  eexists. split; [exact Hin|]. unfold transition_row. rewrite Hact, Hre.
  destruct (Next_from _ _ _ _ _ _ Hnext) as (_ & Hi & _), (Next_from _ _ _ _ _ _ Hnext') as (_ & Hi' & _).
  split; cbn [tr_ErrandID tr_ErrandVersion tr_Event tr_ToStatus tr_ActorType tr_ActorID tr_Reason]; try done.
  - by rewrite <- Hi', Hi.
  - change (e_Version (canon (ApplyTo t e'))) with (t_NewVersion t).
    rewrite wrap32_id; [lia|]. apply (seen_range _ _ _ Hr Hseen).
Qed.

(** ** What a resolution writes *)


(** ** One verdict *)

Lemma text_inj s s' : text s = text s' → s = s'.
Proof. unfold text. repeat case_bool_decide; congruence. Qed.

Lemma outcome_event_inj o o' ev : outcome_event o = Some ev → outcome_event o' = Some ev → o = o'.
Proof. by destruct o, o'; intros [= <-]. Qed.

(** C19: An errand has one verdict: any two resolutions of an errand that are
    answered 200, at whatever time and however they interleave, are the same
    outcome, for the same reason, by the same administrator. *)
Theorem one_verdict db seen seen0 f1 db1 s1 rq1 log1 reply1 db1' s1' f2 db2 s2 rq2 log2 reply2 db2' s2'
    admin1 id1 rs1 admin2 id2 rs2 :
  reachable db1 s1 → hrun db1 s1 (resolve_review f1 rq1) log1 reply1 db1' s1' →
  StoreSystem.history (λ _, True) db1' s1' db seen → resolution_of rq1 = Some (admin1, id1, rs1) → a_answered reply1 →
  reachable db2 s2 → hrun db2 s2 (resolve_review f2 rq2) log2 reply2 db2' s2' →
  StoreSystem.history (λ _, True) db2' s2' db seen0 → resolution_of rq2 = Some (admin2, id2, rs2) → a_answered reply2 →
  toUUID id1 = toUUID id2 → admin1 = admin2 ∧ rs_Outcome rs1 = rs_Outcome rs2 ∧ rs_Reason rs1 = rs_Reason rs2.
Proof.
  assert (∀ f db0 s0 rq log reply db0' s0' sn admin id rs,
    reachable db0 s0 → hrun db0 s0 (resolve_review f rq) log reply db0' s0' →
    StoreSystem.history (λ _, True) db0' s0' db sn → resolution_of rq = Some (admin, id, rs) → a_answered reply →
    reachable db sn ∧ ∃ tr, tr ∈ db_transitions db ∧ final tr ∧ verdict_row admin id rs tr) as Hone.
  { intros f db0 s0 rq log reply db0' s0' sn admin id rs Hr Hrun Hh Hrq Ha.
    destruct (route_run _ _ _ _ _ _ _ _ Hr Hrun (resolve_review_spec f rq)) as (k & Ho & _ & Ht & Hr').
    split; [by eapply history_reachable|]. unfold review_outcome in Ho. rewrite Hrq in Ho.
    destruct Ho as ([ad|err] & [Hd _ _ _] & ->); [|pose proof (a_fail_status err); unfold a_answered in Ha; lia].
    destruct (Hd ad eq_refl) as (e & t & Hv & Hlog & Had & Hread & _). rewrite Had in Hread.
    destruct Ht as (Hsub & _ & Hrec).
    destruct (verdict_recorded _ _ _ _ _ _ _ Hr' Hv (Hrec _ Hlog) (Hsub _ Hread)) as (tr & Htr & Hrow').
    exists tr. split; [by apply (history_continues _ _ _ _ _ Hr' Hh)|]. split; [|done]. unfold final.
    rewrite (vr_to _ _ _ _ Hrow'). pose proof (vr_event _ _ _ _ Hrow') as Hev. by destruct (rs_Outcome rs). }
  intros Hr1 Hrun1 Hh1 Hq1 Ha1 Hr2 Hrun2 Hh2 Hq2 Ha2 Hid'.
  destruct (Hone _ _ _ _ _ _ _ _ _ _ _ _ Hr1 Hrun1 Hh1 Hq1 Ha1) as (Hr & tr1 & Hin1 & Hf1 & [I1 _ E1 _ [_ A1] R1]).
  destruct (Hone _ _ _ _ _ _ _ _ _ _ _ _ Hr2 Hrun2 Hh2 Hq2 Ha2) as (_ & tr2 & Hin2 & Hf2 & [I2 _ E2 _ [_ A2] R2]).
  assert (tr1 = tr2) as <- by (apply (rc_last _ (reachable_record _ _ Hr)); try done; congruence).
  split_and!; [apply text_inj; congruence| |apply text_inj; congruence]. by eapply outcome_event_inj.
Qed.

(** ** A resolution takes effect *)

Lemma stored_uuids db id e :
  stored_as db id e → let d := e_Details e in
  toUUID (d_SupplierID d) = Some (d_SupplierID d) ∧ toUUID (d_SupplierVersionID d) = Some (d_SupplierVersionID d) ∧
  toUUID (d_DeliveryBuildingID d) = Some (d_DeliveryBuildingID d).
Proof.
  intros (row & _ & Hro) d. pose proof (ro_columns _ _ _ Hro) as Hu. pose proof (ro_read _ _ _ Hro) as Hread.
  unfold errandFromRow in Hread. break_in Hread; by simplify_eq/=.
Qed.

Lemma resolution_decided e ev admin reason now :
  errand_ok e → e_Status e = StatusReviewRequired → ev = EventAdminComplete ∨ ev = EventAdminRefund →
  admin ≠ "" → trim_space reason ≠ "" →
  ∃ t, Next e ev (mkActor ActorAdmin admin) (no_input reason no_deadlines) now = Ok t.
Proof.
  intros Hok Hst Hev Ha Hre.
  assert (∃ t, Next e ev (mkActor ActorAdmin admin) (no_input reason no_deadlines) now = Ok t ∧
    t_Actor t = mkActor ActorAdmin admin ∧
    t_To t = if bool_decide (ev = EventAdminComplete) then StatusCompleted else StatusRefunded) as (t & ? & _); [|by exists t].
  destruct Hev as [-> | ->].
  all: eapply Next_moves; [by rewrite Hst; right|by rewrite Hst|rewrite Hst; rules_for|..].
  all: try (by simpl; rewrite ?bool_decide_false by done); try reflexivity.
  all: intros _; unfold isBlank; simpl; by rewrite bool_decide_false.
Qed.

(** Its documents can be written, and its row can be stored. *)
Lemma resolution_encodes admin id rs e t now row s :
  errand_ok e → verdict admin id rs e t → row ∈ t_Outbox t → t_At t = now → format_rfc3339 now = Some s →
  enc_payload (o_Payload row) ≠ None.
Proof.
  intros Hok (_ & _ & ev & now' & Hev & (rule & [Hin Hf Hre _ _ _ (t0 & Happ & ->)])%Next_inv) Hr Hat Hs.
  assert (e_PendingEdit e = None) as Hpe.
  { destruct (e_PendingEdit e) as [p|] eqn:Hp; [|done]. destruct (eo_pending _ Hok _ Hp) as (Hst & _).
    rewrite Hst in Hf. destruct rs as [[] r v]; simplify_eq/=; each_rule Hin; simpl in *; congruence. }
  unfold applyEvent, newError in Happ. destruct rs as [o r v]. cbn [rs_Outcome rs_Reason] in *.
  destruct e as [id0 st ver req cour det pd dd da vd rr ck pe ca ua]. simpl in Hpe. subst pe.
  destruct o; simplify_eq/=; each_rule Hin; simpl in *; simplify_eq/=; try (break_in Happ; simplify_eq/=).
  all: repeat (apply elem_of_cons in Hr as [->|Hr]); try (by apply elem_of_nil in Hr).
  all: simpl; unfold enc_event; simpl; by rewrite ?Hs.
Qed.

(** An errand under review can be stored with its verdict. *)
Lemma resolution_stored db admin id rs e t :
  stored_as db (e_ID e) e → e_Version e < ErrandStore.max_int32 → verdict admin id rs e t →
  ∃ params, insertParams (ApplyTo t e) = Ok params.
Proof.
  intros Hst Hver Hv. destruct (verdict_fields _ _ _ _ _ Hv) as (_ & _ & _ & Hto & Hnew & _).
  pose proof Hv as (_ & Hexp & ev & now & Hev & Hnext).
  pose proof Hst as (row & _ & Hro). destruct (ro_range _ _ _ Hro) as (_ & Hrw & _).
  pose proof (Next_errand_ok _ _ _ _ _ _ (ro_ok _ _ _ Hro) Hnext) as Hok'.
  assert (e_PendingEdit (ApplyTo t e) = None) as Hpe'.
  { destruct (e_PendingEdit (ApplyTo t e)) as [p|] eqn:Hp; [|done]. destruct (eo_pending _ Hok' _ Hp) as (Hs & _).
    change (e_Status (ApplyTo t e)) with (t_To t) in Hs. rewrite Hto in Hs. by destruct (rs_Outcome rs). }
  assert (e_Details (ApplyTo t e) = e_Details e) as Hde.
  { destruct (Next_changes _ _ _ _ _ _ Hnext) as (_ & _ & [Hn|[->|(p & Hp & _)]] & _).
    - unfold ApplyTo, applyTo. simpl. by rewrite Hn.
    - by destruct (rs_Outcome rs).
    - destruct (eo_pending _ (ro_ok _ _ _ Hro) _ Hp) as (Hs & _).
      destruct (verdict_fields _ _ _ _ _ Hv) as (_ & _ & _ & _ & _ & Hs'). congruence. }
  destruct (stored_uuids _ _ _ Hst) as (U1 & U2 & U3). destruct (stored_as_id _ _ _ Hst) as (_ & U0 & _).
  unfold insertParams, parseUUID. rewrite Hde, Hpe'. change (e_ID (ApplyTo t e)) with (e_ID e).
  change (e_Version (ApplyTo t e)) with (t_NewVersion t). rewrite U0, U1, U2, U3, Hnew, <- Hexp.
  rewrite !(proj2 (Z.ltb_ge _ _)) by lia. eexists. reflexivity.
Qed.

Lemma resolution_applies clock db admin id rs e t :
  store_ok db → stored_as db (e_ID e) e → e_Version e < ErrandStore.max_int32 → verdict admin id rs e t →
  is_Some (format_rfc3339 (t_At t)) → ∃ stored db', Apply clock t db = Ok (stored, db').
Proof.
  intros Hok Hst Hver Hv [s Hs]. pose proof Hv as (_ & _ & ev & now & Hev & Hnext).
  pose proof Hst as (row & Hl & Hro). pose proof (ro_ok _ _ _ Hro) as Hcur.
  destruct (Next_expected _ _ _ _ _ _ Hcur Hnext) as (Hf & Hi & _).
  assert (Apply clock t db = applyLocked clock e t db) as ->.
  { unfold Apply. rewrite Hf, bool_decide_false by apply Hro. rewrite Hi.
    destruct (stored_as_id _ _ _ Hst) as (_ & Hu & _). rewrite Hu.
    unfold GetErrandForUpdate, GetErrand, bind. by rewrite Hl, (ro_read _ _ _ Hro). }
  destruct (applyLocked clock e t db) as [[stored db']|f] eqn:Ha; [by eauto|exfalso].
  eapply applyLocked_unfenced in Ha; [|done|done| | |done|].
  - destruct Ha as [Ha|(_ & row' & Hr & He)].
    + destruct (resolution_stored _ _ _ _ _ _ Hst Hver Hv) as [x Hx]. congruence.
    + by eapply resolution_encodes in He.
  - by intros d.
  - by intros d.
  - unfold editTargetSupplier. destruct (Next_changes _ _ _ _ _ _ Hnext) as (-> & _).
    rewrite bool_decide_false; [done|]. by destruct (rs_Outcome rs); simplify_eq/=.
Qed.

(** *** Finding the review *)

Lemma find_row_inl id batch after open : find_row id batch after = inl open → open ∈ batch ∧ orv_ErrandID open = id.
Proof.
  revert after. induction batch as [|o batch IH]; intros after; simpl; [done|]. case_bool_decide.
  - intros [= <-]. split; [by left|done].
  - intros [? ?]%IH. split; [by right|done].
Qed.

Lemma find_row_inr id batch after after' :
  find_row id batch after = inr after' →
  (∀ o, o ∈ batch → orv_ErrandID o ≠ id) ∧ after' = match last batch with Some o => orv_ID o | None => after end.
Proof.
  revert after. induction batch as [|o batch IH]; intros after; cbn [find_row].
  - intros [= <-]. split; [intros o Ho; by apply elem_of_nil in Ho|done].
  - case_bool_decide as Ho; [done|]. intros [Hn ->]%IH. split.
    + intros o' [->|?]%elem_of_cons; auto.
    + rewrite last_cons. by destruct (last batch).
Qed.

Lemma open_review_row db id :
  store_ok db → (0 < length (open_reviews db id))%nat → ∃ o, o ∈ open_review_rows db ∧ orv_ErrandID o = id.
Proof.
  intros Hok Hl. destruct (open_reviews db id) as [|r l] eqn:Hr; [simpl in Hl; lia|].
  assert (In r (open_reviews db id)) as [Hin Ho]%filter_In by (rewrite Hr; by left).
  apply list_elem_of_In in Hin. destruct (so_review_errand _ Hok _ Hin) as [row Hrow'].
  apply list_elem_of_lookup in Hin as [i Hi]. unfold open_review in Ho. bool_props.
  eexists (mkOpenReviewRow (review_id i) (rv_ErrandID r) _ _ _ _ _). split; [|done].
  unfold open_review_rows. apply list_elem_of_omap. exists (review_id i, r).
  split; [|by destruct (rv_Resolution r); [|rewrite Hrow']]. unfold with_ids. apply list_elem_of_lookup. exists i.
  by rewrite list_lookup_imap, Hi.
Qed.

Context `{Hids : !RowIdsOk}.

Lemma open_review_rows_ids db :
  NoDup (orv_ID <$> open_review_rows db) ∧ ∀ o, o ∈ open_review_rows db → 0 < orv_ID o.
Proof.
  unfold open_review_rows, with_ids.
  match goal with |- context [omap ?g (imap _ _)] => set (f := g) end.
  assert (∀ p o, f p = Some o → orv_ID o = p.1) as Hf.
  { intros [i r] o. unfold f. repeat case_match; by intros [= <-]. }
  clearbody f. split.
  - assert (∀ n, NoDup (orv_ID <$> omap f (imap (λ i a, (review_id (n + i), a)) (db_reviews db))) ∧
      ∀ o, o ∈ omap f (imap (λ i a, (review_id (n + i), a)) (db_reviews db)) → ∃ i, (n ≤ i)%nat ∧ orv_ID o = review_id i)
      as Hall; [|by destruct (Hall 0%nat)].
    induction (db_reviews db) as [|r l IH]; intros n.
    { simpl. split; [constructor|intros o Ho; by apply elem_of_nil in Ho]. }
    rewrite imap_cons. rewrite (imap_ext _ (λ i a, (review_id (S n + i), a))).
    2:{ intros i a _. simpl. do 2 f_equal. lia. }
    destruct (IH (S n)) as [Hnd Hin]. cbn [omap list_omap].
    assert (∀ o, o ∈ omap f (imap (λ i a, (review_id (S n + i), a)) l) → ∃ i, (n ≤ i)%nat ∧ orv_ID o = review_id i) as Hin'.
    { intros o (i & ? & ?)%Hin. exists i. split; [lia|done]. }
    destruct (f _) as [o|] eqn:Ho; [|by split]. apply Hf in Ho. simpl in Ho. rewrite Nat.add_0_r in Ho. split.
    + rewrite fmap_cons. apply NoDup_cons. split; [|done]. intros (o' & Heq & (i & Hi & Hid')%Hin)%list_elem_of_fmap.
      rewrite Ho, Hid' in Heq. apply review_id_inj in Heq. lia.
    + intros o' [->|Ho']%elem_of_cons; [by exists n|by apply Hin'].
  - intros o (p & Hp & Ho)%list_elem_of_omap. rewrite (Hf _ _ Ho). apply list_elem_of_lookup in Hp as [i Hi].
    rewrite list_lookup_imap in Hi. destruct (db_reviews db !! i); simplify_eq/=. apply review_id_pos.
Qed.

Lemma find_open_play env db seen fuel id after l1 l2 :
  let rows := open_review_rows db in let sorted := merge_sort (row_le Z.le orv_ID) in
  sorted rows = l1 ++ l2 →
  sorted (List.filter (beyond Z.le orv_ID (if 0 <? after then Some after else None)) rows) = l2 →
  (length l2 < fuel)%nat → (∃ o, o ∈ l2 ∧ orv_ErrandID o = id) →
  ∃ o, play env db seen (find_open fuel id after) = ([], Ok o, db, seen) ∧ orv_ErrandID o = id.
Proof.
  intros rows sorted. revert after l1 l2. induction fuel as [|fuel IH]; intros after l1 l2 Hsort Hbey Hf Hex; [lia|].
  cbn [find_open play pbind perform alone fst snd]. unfold inTx, ListOpenReviews, ops_lift. cbn [ops_checkLimit].
  unfold bind, ret. cbn [fst snd ops_answer]. unfold keyset. fold rows. fold sorted.
  change (ops_checkLimit OpsRepo.MaxPageSize) with (@Ok OpsError unit tt). cbn [fst ops_answer]. fold rows. rewrite Hbey.
  set (batch := take _ l2). destruct (find_row id batch after) as [o|after'] eqn:Hfind.
  { destruct (find_row_inl _ _ _ _ Hfind) as [_ Hid']. exists o. done. }
  destruct (find_row_inr _ _ _ _ Hfind) as [Hnone Hafter].
  destruct Hex as (o & Ho & Hoid). rewrite <- (take_drop (Z.to_nat OpsRepo.MaxPageSize) l2) in Ho.
  apply elem_of_app in Ho as [Ho|Ho]; [by destruct (Hnone o)|].
  assert (Z.to_nat OpsRepo.MaxPageSize < length l2)%nat as Hlen.
  { destruct (decide (Z.to_nat OpsRepo.MaxPageSize < length l2)%nat) as [|Hn]; [done|].
    rewrite drop_ge in Ho by lia. by apply elem_of_nil in Ho. }
  assert (length batch = Z.to_nat OpsRepo.MaxPageSize) as Hb by (unfold batch; rewrite length_take; lia).
  rewrite Hb, (proj2 (Nat.ltb_ge _ _)) by lia.
  destruct (last batch) as [x|] eqn:Hlast; [|apply last_None in Hlast; rewrite Hlast in Hb; discriminate Hb].
  apply last_Some in Hlast as [l' Hl'].
  destruct (open_review_rows_ids db) as [Hnd Hpos].
  assert (sorted rows = (l1 ++ l') ++ x :: drop (Z.to_nat OpsRepo.MaxPageSize) l2) as Hsplit.
  { rewrite Hsort, <- (take_drop (Z.to_nat OpsRepo.MaxPageSize) l2) at 1. fold batch. by rewrite Hl', <- !app_assoc. }
  assert (x ∈ rows) as Hx.
  { rewrite <- (merge_sort_Permutation (row_le Z.le orv_ID) rows). fold sorted. rewrite Hsplit. set_solver. }
  subst after'. apply (IH _ ((l1 ++ l') ++ [x]) (drop (Z.to_nat OpsRepo.MaxPageSize) l2)).
  - by rewrite Hsplit, <- !app_assoc.
  - rewrite (proj2 (Z.ltb_lt _ _)) by by apply Hpos. by apply (sorted_beyond _ _ _ (l1 ++ l')).
  - rewrite length_drop. change (Z.to_nat OpsRepo.MaxPageSize) with 200%nat in *. lia.
  - by exists o.
Qed.

Lemma findOpenReview_play env db seen fuel id :
  store_ok db → (0 < length (open_reviews db id))%nat → (length (db_reviews db) < fuel)%nat →
  ∃ o, play env db seen (findOpenReview fuel id) = ([], Ok o, db, seen) ∧ orv_ErrandID o = id.
Proof.
  intros Hok Hl Hf. unfold findOpenReview.
  apply (find_open_play _ _ _ _ _ _ [] (merge_sort (row_le Z.le orv_ID) (open_review_rows db))).
  - done.
  - change (if 0 <? 0 then Some 0 else None) with (@None Z). f_equal.
    induction (open_review_rows db) as [|o l IH]; simpl; [done|by rewrite IH].
  - rewrite (Permutation_length (merge_sort_Permutation _ _)). eapply Nat.le_lt_trans; [|exact Hf].
    unfold open_review_rows, with_ids. rewrite <- (length_imap (λ i a, (review_id i, a)) (db_reviews db)).
    generalize (imap (λ i a, (review_id i, a)) (db_reviews db)). intros l.
    match goal with |- context [omap ?f l] => induction l as [|x l IH]; cbn [omap list_omap length]; [|destruct (f x); simpl]; lia end.
  - destruct (open_review_row _ _ Hok Hl) as (o & Ho & Hid'). exists o. split; [|done].
    by rewrite merge_sort_Permutation.
Qed.

Context `{Huu : !UUIDs}.

Lemma resolution_of_inv rq admin id rs :
  resolution_of rq = Some (admin, id, rs) →
  adminID (aq_Principal rq) = Ok admin ∧ admin ≠ "" ∧ uuid_pattern (aq_ErrandID rq) = true ∧
  id = to_lower (aq_ErrandID rq) ∧ decodeResolution (aq_Body rq) = Ok rs.
Proof.
  unfold resolution_of. destruct (adminID _) as [a|] eqn:Ha; [|done].
  destruct (decodeResolution _) as [r|] eqn:Hd; [|done]. destruct (uuid_pattern _) eqn:Hp; [|done].
  intros [= <- <- <-]. split_and!; try done. unfold adminID in Ha. destruct (aq_Principal rq); [|done].
  by case_bool_decide; simplify_eq.
Qed.

(** The database after the verdict and its audit row. *)
Definition audited_as (admin id : string) (rs : Resolution) : AuditRow :=
  mkAuditRow admin (auditAction (rs_Outcome rs)) AuditTargetType id (text (rs_Reason rs)) AuditSucceeded.

Lemma InsertAudit_ok admin id rs db :
  admin ≠ "" → id ≠ "" →
  InsertAudit (audited_as admin id rs) db = Ok (tt, set_audit (db_audit db ++ [audited_as admin id rs]) db).
Proof.
  intros Ha Hi. unfold InsertAudit, audited_as, auditAction. cbn [au_ActorID au_Action au_TargetType au_TargetID].
  rewrite !bool_decide_false by (done || by case_bool_decide). done.
Qed.

(** A review can always be resolved: on a store where the errand is under
    review at the version the administrator saw, and nobody interferes, a
    valid request with readable supplier data is answered 200; the errand is
    then completed or refunded, its review closed, and the audit says so. *)
Theorem review_takes_effect env db seen fuel rq admin id rs e pickup :
  reachable db seen → stored_as db (e_ID e) e → e_Status e = StatusReviewRequired →
  resolution_of rq = Some (admin, id, rs) → toUUID id = Some (e_ID e) → e_Version e = rs_ExpectedVersion rs →
  e_Version e < ErrandStore.max_int32 → en_Version env (d_SupplierVersionID (e_Details e)) = Ok pickup →
  is_Some (format_rfc3339 (en_Now env)) → (length (db_reviews db) < fuel)%nat →
  ∃ t review db1 db' seen', verdict admin id rs e t ∧
    play env db seen (resolve_review fuel rq) =
      ([OApply t; OAudit (audited_as admin id rs)],
       mkAReply 200 (AErrand (adminErrandBody (mkAdminErrand (canon (ApplyTo t e)) pickup review))), db', seen') ∧
    moved (en_Now env) (e_ID e) t (transition_row (e_ID e) e (canon (ApplyTo t e)) t) (canon (ApplyTo t e)) db db1 ∧
    db' = set_audit (db_audit db1 ++ [audited_as admin id rs]) db1 ∧
    stored_as db' (e_ID e) (canon (ApplyTo t e)) ∧ t_To t = outcome_status (rs_Outcome rs) ∧
    open_reviews db' (e_ID e) = [].
Proof.
  intros Hr Hst Hs Hrq Hu Hv Hmax Hpick Htime Hfuel.
  destruct (resolution_of_inv _ _ _ _ Hrq) as (Hadm & Hane & Hpat & -> & Hdec).
  destruct (decodeResolution_ok _ _ Hdec) as ([ev Hev] & Hre & _).
  destruct (store_reachable_ok _ _ Hr) as (Hok & Hseen & Hcur).
  pose proof Hst as (row & Hl & Hro). pose proof (ro_ok _ _ _ Hro) as Heok.
  rewrite toUUID_text, to_lower_idem in Hu by by rewrite uuid_lower. assert (to_lower (aq_ErrandID rq) = e_ID e) as Hid by congruence. clear Hu.
  assert (ev = EventAdminComplete ∨ ev = EventAdminRefund) as Hevs.
  { destruct (rs_Outcome rs); simplify_eq/=; auto. }
  destruct (resolution_decided e ev admin (rs_Reason rs) (en_Now env) Heok Hs Hevs Hane Hre) as [t Hnext].
  assert (verdict admin (to_lower (aq_ErrandID rq)) rs e t) as Hver.
  { split_and!; [|done|by exists ev, (en_Now env)]. rewrite Hid. by apply (stored_as_id _ _ _ Hst). }
  destruct (verdict_fields _ _ _ _ _ Hver) as (_ & _ & _ & Hto & _).
  assert (t_At t = en_Now env) as Hat.
  { destruct (Next_inv _ _ _ _ _ _ Hnext) as (rule & [_ _ _ _ _ _ (t0 & Happ & ->)]). simpl.
    destruct (drop_edit_frame e t0) as (_ & _ & _ & _ & _ & -> & _).
    by apply applyEvent_frame in Happ as (_ & _ & _ & _ & _ & -> & _). }
  destruct (resolution_applies (en_Now env) db _ _ _ e t Hok Hst Hmax Hver) as (stored & db1 & Hap); [by rewrite Hat|].
  assert (input_ok (no_input (rs_Reason rs) no_deadlines)) as Hin by (by intros d).
  destruct (Apply_step _ _ _ _ _ _ _ _ _ _ _ Hok Hseen (Hcur e (proj2 (elem_of_current _ _ Hok) Hst)) Hin Hnext Hap)
    as (_ & -> & _ & _ & Hm & _).
  destruct (findOpenReview_play env db seen fuel (e_ID e) Hok) as (open & Hfind & _); [|done|].
  { rewrite (so_reviews _ Hok _ _ Hst), bool_decide_true by done. lia. }
  eexists t, (resolved_review open (canon (ApplyTo t e)) admin (rs_Reason rs) (t_At t)), db1, _, _.
  split; [done|]. split; [|split; [exact Hm|split; [reflexivity|]]].
  - unfold resolve_review. rewrite Hadm, Hpat, Hdec, Hid. cbn [negb].
    match goal with |- context [pbind ?p _] => assert (play env db seen p = ([OApply t; OAudit (audited_as admin (e_ID e) rs)],
      Ok (mkAdminErrand (canon (ApplyTo t e)) pickup (resolved_review open (canon (ApplyTo t e)) admin (rs_Reason rs) (t_At t))),
      set_audit (db_audit db1 ++ [audited_as admin (e_ID e) rs]) db1,
      current (set_audit (db_audit db1 ++ [audited_as admin (e_ID e) rs]) db1) ++ current db1 ++ seen)) as Hplay end.
    2:{ rewrite (play_bind _ _ _ _ _ _ _ _ _ Hplay). reflexivity. }
    unfold Resolve. rewrite Hev. cbn [play pbind perform alone fst snd]. unfold inTx.
    rewrite (Get_stored _ (e_ID e) e); [|by apply (stored_as_id _ _ _ Hst)|done].
    cbn [fst snd]. unfold resolve_errand. cbn [play pbind perform alone fst snd]. rewrite Hnext, Hv, Z.eqb_refl.
    cbn [negb]. rewrite (play_bind _ _ _ _ _ _ _ _ _ Hfind).
    cbn [review_pickup play pbind perform alone fst snd]. rewrite Hpick. cbn [play pbind perform alone fst snd].
    rewrite Hap. cbn [committed fst snd play pbind perform alone].
    change (mkAuditRow admin (auditAction (rs_Outcome rs)) AuditTargetType (e_ID e) (text (rs_Reason rs)) AuditSucceeded)
      with (audited_as admin (e_ID e) rs).
    rewrite InsertAudit_ok; [reflexivity|done|]. intros Hn. rewrite <- Hid in Hn.
    assert (uuid_pattern (to_lower (aq_ErrandID rq)) = true) as Hp by by rewrite uuid_lower. by rewrite Hn in Hp.
  - split; [|split; [done|]].
    + eapply stored_as_ext; [|apply Hm]. done.
    + pose proof (so_reviews _ (mv_ok _ _ _ _ _ _ _ Hm) _ _ (mv_at _ _ _ _ _ _ _ Hm)) as Hn.
      change (e_Status (canon (ApplyTo t e))) with (t_To t) in Hn.
      rewrite bool_decide_false in Hn by (rewrite Hto; by destruct (rs_Outcome rs)).
      unfold open_reviews in *. cbn [db_reviews set_audit]. by destruct (List.filter _ _).
Qed.

End properties.

(** ** Witnesses *)

(** Bob picks the errand up and reports an issue; an administrator refunds
    Alice. *)
Module ReviewScenario.
Export RouteScenario.

#[export] Instance serial_ids_ok : RowIdsOk := serial_ok.

Definition say (who : string) (v : Z) (reason : string) : HRequest :=
  mkHRequest (Some who) id1 "" (mkBody (Some 42) (Some (JObj [("expectedVersion", JInt v); ("reason", JStr reason)]))) no_query.

Definition picking := Eval vm_compute in play (env 6000) db3 seen3 (pickUp (ask bob 3)).
Definition db4 := Eval vm_compute in to_db picking.
Definition seen4 := Eval vm_compute in to_seen picking.
Definition reporting := Eval vm_compute in play (env 7000) db4 seen4 (reportIssue (say bob 4 "the shop burnt down")).
Definition db5 := Eval vm_compute in to_db reporting.
Definition seen5 := Eval vm_compute in to_seen reporting.
Definition reviewed := Eval vm_compute in default opened (head (current db5)).

Lemma reach_db5 : reachable db5 seen5.
Proof.
  assert (hrun db3 seen3 (pickUp (ask bob 3)) (played picking).1 (played picking).2 db4 seen4) as H4.
  { apply (play_run (env 6000)); [apply env_is_ok|]. vm_compute. reflexivity. }
  destruct (route_run _ _ _ _ _ _ _ _ reach_db3 H4 (handler_spec APickUp (ask bob 3))) as (_ & _ & _ & _ & Hr4).
  assert (hrun db4 seen4 (reportIssue (say bob 4 "the shop burnt down")) (played reporting).1 (played reporting).2 db5 seen5) as H5.
  { apply (play_run (env 7000)); [apply env_is_ok|]. vm_compute. reflexivity. }
  by destruct (route_run _ _ _ _ _ _ _ _ Hr4 H5 (handler_spec AReportIssue (say bob 4 "the shop burnt down")))
    as (_ & _ & _ & _ & Hr5).
Qed.

Definition admin := "auth0|admin".
Definition verdict_body : option json :=
  Some (JObj [("outcome", JStr "REFUNDED"); ("reason", JStr "shop closed"); ("expectedVersion", JInt 5)]).
Definition refund_it : ARequest := mkARequest (Some admin) id1 verdict_body no_query.
Definition refunding := Eval vm_compute in play (env 8000) db5 seen5 (resolve_review 5 refund_it).
Definition db6 := Eval vm_compute in to_db refunding.
Definition seen6 := Eval vm_compute in to_seen refunding.

Lemma refunding_run :
  hrun db5 seen5 (resolve_review 5 refund_it) (played refunding).1 (played refunding).2 db6 seen6.
Proof. apply (play_run (env 8000)); [apply env_is_ok|]. vm_compute. reflexivity. Qed.

Definition refund : Resolution := mkResolution OutcomeRefunded "shop closed" 5.

Lemma refund_read : resolution_of refund_it = Some (admin, id1, refund).
Proof. vm_compute. reflexivity. Qed.

Lemma reviewed_stored : stored_as db5 (e_ID reviewed) reviewed.
Proof. apply elem_of_current; [apply (store_reachable_ok _ _ reach_db5)|]. vm_compute. by left. Qed.

End ReviewScenario.
Import ReviewScenario.


(** The supplier version cannot be read: 422, the errand as it was, one
    REJECTED audit row. *)
Definition gone_version : Env :=
  mkEnv 8000 (en_Settings (env 8000)) (λ _, Err (FApp (mkAppError SupplierUnavailable []))) (en_Resolve (env 8000))
    (en_Buildings (env 8000)).

Lemma unreadable_pickup_refused :
  (play gone_version db5 seen5 (resolve_review 5 refund_it)).1.1 =
    ([OAudit (mkAuditRow admin "errand_review.refund" AuditTargetType id1 (Some "SUPPLIER_UNAVAILABLE") AuditRejected)],
     mkAReply 422 (AError SupplierUnavailable [])).
Proof. vm_compute. reflexivity. Qed.

Lemma one_verdict_witness : a_answered (played refunding).2 ∧ admin = admin ∧ rs_Outcome refund = rs_Outcome refund.
Proof.
  assert (a_answered (played refunding).2) as Ha by (vm_compute; reflexivity). split; [exact Ha|].
  destruct (one_verdict db6 seen6 seen6 5 db5 seen5 refund_it _ _ db6 seen6 5 db5 seen5 refund_it _ _ db6 seen6
    admin id1 refund admin id1 refund reach_db5 refunding_run (hist_refl _ _ _) refund_read Ha
    reach_db5 refunding_run (hist_refl _ _ _) refund_read Ha eq_refl) as (H1 & H2 & _).
  split; [exact H1|exact H2].
Defined.

Lemma review_takes_effect_witness :
  ∃ t review db' seen', play (env 8000) db5 seen5 (resolve_review 5 refund_it) =
    ([OApply t; OAudit (audited_as admin id1 refund)],
     mkAReply 200 (AErrand (adminErrandBody (mkAdminErrand (canon (ApplyTo t reviewed)) kopi review))), db', seen') ∧
    open_reviews db' id1 = [].
Proof.
  destruct (review_takes_effect (env 8000) db5 seen5 5 refund_it admin id1 refund reviewed kopi reach_db5 reviewed_stored)
    as (t & review & db1' & db' & seen' & _ & Hp & _ & _ & _ & _ & Ho);
    [vm_compute; reflexivity..|eexists; vm_compute; reflexivity|vm_compute; repeat constructor|].
  exists t, review, db', seen'. by split.
Defined.
