(* ===== verification/AdminProps.v ===== *)
(** * order-service: properties of the event log and the activity flags

    The four queries behind the event log are one query, its cursors lead
    through every event once, and a courier is flagged exactly when accepting
    is refused, each with a witness. *)

From S2P Require Import Prelude Proc Keyset GoText Json GoTime Sha Errand Settings ErrandState ErrandJson ErrandInv ErrandStore Fence OpsRepo StoreInv StoreSafe StoreSystem ErrandLists StoreHistory StoreProps ErrandHttp ErrandActions ErrandForms ErrandReads Review AdminReads HttpSystem HttpLogic HttpForms HttpReads HttpProps ReviewProps.

Section events.
Context `{Hpg : Postgres, Hpgok : !PostgresOk, Hrow : RowIds, Hcol : Collation}.

(** ** One query *)

(** The user caused the event, carried the errand at that time, or requested it. *)
Definition concerns (user : string) (db : ODB) (r : TransitionRow) : bool :=
  caused_by user r || courier_was user r || requester_is user db r.

(** Every filter that is set holds. *)
Definition log_matches (f : TransitionFilter) (db : ODB) (r : TransitionRow) : bool :=
  (bool_decide (tf_ErrandID f = "") || bool_decide (tr_ErrandID r = tf_ErrandID f))
  && (bool_decide (tf_UserID f = "") || concerns (tf_UserID f) db r)
  && to_status (tf_ToStatus f) r && in_period (tf_From f) (tf_To f) r.

Lemma with_ids_elem {A} (id : nat → Z) (l : list A) p : p ∈ with_ids id l ↔ ∃ i, l !! i = Some p.2 ∧ p.1 = id i.
Proof.
  unfold with_ids. rewrite list_elem_of_lookup. split.
  - intros [i Hi]. rewrite list_lookup_imap in Hi. destruct (l !! i) eqn:Hl; simplify_eq/=. by exists i.
  - intros (i & Hi & Hid). exists i. rewrite list_lookup_imap, Hi. simpl. destruct p. by simplify_eq/=.
Qed.

Lemma filter_ext_in {A} (P Q : A → bool) l : (∀ x, x ∈ l → P x = Q x) → List.filter P l = List.filter Q l.
Proof.
  induction l as [|x l IH]; intros H; simpl; [done|]. rewrite (H x) by by left.
  rewrite IH; [done|]. intros. apply H. by right.
Qed.

Lemma newest_first_ext P Q before limit db :
  (∀ r, r ∈ db_transitions db → P r = Q r) → newest_first P before limit db = newest_first Q before limit db.
Proof.
  intros HPQ. unfold newest_first.
  rewrite (filter_ext_in (λ r, P r.2) (λ r, Q r.2)); [done|]. intros [i r] (j & Hj & _)%with_ids_elem. apply HPQ.
  by eapply list_elem_of_lookup_2.
Qed.

Lemma accepted_errands_elem user db id : accepted db id user → id ∈ accepted_errands user db.
Proof.
  intros (tr & Hin & <- & Hev & Ha). unfold accepted_errands. apply list_elem_of_fmap_2, list_elem_of_In, filter_In.
  split; [by apply list_elem_of_In|]. unfold caused_by. by rewrite !bool_decide_true.
Qed.

(** The event log has four SQL queries (by errand, by user, by resulting
    status, by time); whichever one the filters select, it returns the rows
    that satisfy every filter that is set.  In particular the query by user,
    which looks for the user's errands as a courier only among those the user
    accepted, misses none. *)
Theorem event_log_matches db seen f :
  reachable db seen → 1 ≤ tf_Limit f ≤ OpsRepo.MaxPageSize →
  tf_ToStatus f = StatusNone ∨ Valid (tf_ToStatus f) = true →
  tf_ErrandID f = "" ∨ toUUID (tf_ErrandID f) = Some (tf_ErrandID f) →
  ListTransitions f db = Ok (transition_of <$> newest_first (log_matches f db) (tf_Before f) (tf_Limit f) db, db).
Proof.
  intros Hr Hlim Hty He. unfold ListTransitions, ops_checkLimit, ops_lift.
  rewrite (proj2 (Z.leb_gt _ _)), (proj2 (Z.ltb_ge _ _)) by lia. cbn [orb]. unfold bind at 1. cbn [ret].
  assert (negb (bool_decide (tf_ToStatus f = StatusNone)) && negb (Valid (tf_ToStatus f)) = false) as ->.
  { destruct Hty as [->| ->]; [done|by rewrite andb_false_r]. }
  assert (∀ user, user ≠ "" → ∀ r, r ∈ db_transitions db →
    caused_by user r || requester_is user db r || courier_was user r && bool_decide (tr_ErrandID r ∈ accepted_errands user db)
    = concerns user db r) as Huser.
  { intros user Hu r Hin. unfold concerns. destruct (courier_was user r) eqn:Hc; [|by rewrite andb_false_l, !orb_false_r].
    rewrite bool_decide_true; [by rewrite !orb_true_r|]. unfold courier_was in Hc. bool_props.
    apply accepted_errands_elem. by apply (rc_named _ (reachable_record _ _ Hr)). }
  case_bool_decide as Hid; cbn [negb].
  - case_bool_decide as Hu; cbn [negb].
    + case_bool_decide as Ht; cbn [negb]; unfold bind, ret; do 3 f_equal; apply newest_first_ext; intros r _;
        unfold log_matches, to_status; rewrite Hid, Hu, Ht || rewrite Hid, Hu; [done|].
      by rewrite (bool_decide_false _ Ht).
    + unfold bind, ret. do 3 f_equal. apply newest_first_ext. intros r Hin.
      unfold log_matches. rewrite Hid, (bool_decide_false _ Hu), <- (Huser _ Hu r Hin). cbn [orb andb].
      rewrite (bool_decide_true ("" = "")) by done. cbn [orb andb].
      by destruct (_ || _), (in_period _ _ r), (to_status _ r).
  - destruct He as [?|He]; [done|]. unfold ops_parseUUID. rewrite He. unfold bind, ret. do 3 f_equal.
    apply newest_first_ext. intros r Hin. unfold log_matches, concerns. rewrite (bool_decide_false _ Hid). cbn [orb].
    destruct (bool_decide (tr_ErrandID r = _)), (in_period _ _ r), (to_status _ r), (bool_decide (tf_UserID f = "")),
      (caused_by _ r), (courier_was _ r), (requester_is _ _ r); done.
Qed.

(** ** Following the cursors *)

(** Rows are dated as the column stores them. *)
Lemma reachable_dates db seen :
  reachable db seen → ∀ r, r ∈ db_transitions db → stored_time (tr_At r) = tr_At r.
Proof.
  assert (∀ d d', rtc atom d d' → (∀ r, r ∈ db_transitions d → stored_time (tr_At r) = tr_At r) →
    ∀ r, r ∈ db_transitions d' → stored_time (tr_At r) = tr_At r) as Hatoms.
  { intros d d'. induction 1 as [|d d1 d2 Ha _ IH]; [done|]. intros Hd. apply IH. intros r.
    destruct Ha as [clock e t actor input now _ _ _ _ _ Hm|clock e t ev actor input now _ _ _ Hm|_ -> _]; [| |by apply Hd].
    all: rewrite (mv_transitions _ _ _ _ _ _ _ Hm); intros [Hin| ->%list_elem_of_singleton]%elem_of_app; [by apply Hd|];
      apply stored_time_idem. }
  induction 1 as [|db seen db' Hr IH Hstep]; [intros r Hr; by apply elem_of_nil in Hr|].
  destruct (store_reachable_ok _ _ Hr) as (Hok & Hs & _). by eapply Hatoms, IH; apply (store_step_atoms seen).
Qed.

Definition with_before (b : option TransitionCursor) (q : EventQuery) : EventQuery :=
  mkEventQuery (ev_UserID q) (ev_ErrandID q) (ev_Type q) (ev_From q) (ev_To q) b (ev_Limit q).

(** A later page repeats the parameters with the cursor. *)
Lemma parseEventQuery_cursor vals q t :
  parseEventQuery (mkQuery vals None) = Ok q →
  parseEventQuery (mkQuery vals (Some t)) =
    match decodeEventCursor t q with Some b => Ok (with_before (Some b) q) | None => Err (a_error InvalidArgument) end ∧
  ev_Before q = None.
Proof.
  unfold parseEventQuery.
  change (parse_user (mkQuery vals (Some t))) with (parse_user (mkQuery vals None)).
  change (parse_errand (mkQuery vals (Some t))) with (parse_errand (mkQuery vals None)).
  change (parse_type (mkQuery vals (Some t))) with (parse_type (mkQuery vals None)).
  change (parse_bound (mkQuery vals (Some t))) with (parse_bound (mkQuery vals None)).
  change (parse_limit (mkQuery vals (Some t))) with (parse_limit (mkQuery vals None)).
  destruct (parse_user _) as [user|]; [|done]. destruct (parse_errand _) as [errand|]; [|done].
  destruct (parse_type _) as [type|]; [|done]. destruct (parse_bound _ "from") as [from|]; [|done].
  destruct (parse_bound _ "to") as [to|]; [|done]. destruct (_ && _); [done|].
  destruct (parse_limit _) as [limit|]; [|done]. cbn [qy_Cursor]. by intros [= <-].
Qed.

(** What the validated query says. *)
Lemma parseEventQuery_ok query q :
  parseEventQuery query = Ok q →
  1 ≤ ev_Limit q ≤ MaxPageSize ∧ (ev_Type q = StatusNone ∨ Valid (ev_Type q) = true) ∧
  (ev_ErrandID q = "" ∨ (uuid_pattern (ev_ErrandID q) = true ∧ to_lower (ev_ErrandID q) = ev_ErrandID q)).
Proof.
  unfold parseEventQuery. destruct (parse_user query) as [user|]; [|done].
  destruct (parse_errand query) as [errand|] eqn:He; [|done]. destruct (parse_type query) as [type|] eqn:Ht; [|done].
  destruct (parse_bound query "from") as [from|]; [|done]. destruct (parse_bound query "to") as [to|]; [|done].
  destruct (_ && _); [done|]. destruct (parse_limit query) as [limit|] eqn:Hl; [|done]. intros Hq.
  assert (ev_Limit q = limit ∧ ev_Type q = type ∧ ev_ErrandID q = errand) as (-> & -> & ->).
  { destruct (qy_Cursor query); [destruct (decodeEventCursor _ _); [|done]|]; injection Hq as <-; done. }
  split; [|split].
  - unfold parse_limit in Hl. destruct (qHas _ _); [|injection Hl as <-; done].
    destruct (Atoi _); [|done]. destruct (_ || _) eqn:Hb; [done|]. injection Hl as <-. bool_props. lia.
  - unfold parse_type in Ht. destruct (qHas _ _); [|injection Ht as <-; by left]. unfold valid_status in Ht.
    destruct (list_find _ _) as [[i s]|] eqn:Hf; [|done]. injection Ht as <-. right.
    apply list_find_Some in Hf as (Hs & _). apply list_elem_of_lookup_2 in Hs. unfold Statuses in Hs.
    repeat (apply elem_of_cons in Hs as [->|Hs]; [done|]). by apply elem_of_nil in Hs.
  - unfold parse_errand in He. destruct (qHas _ _); [|injection He as <-; by left].
    destruct (uuid_pattern _) eqn:Hp; [|done]. injection He as <-. right. by rewrite uuid_lower, to_lower_idem.
Qed.

(** A cursor is read back as it was written, for the same filters. *)
Lemma eventCursor_roundtrip q c j n :
  encodeEventCursor c q = Some j → n ≤ maxCursorLength → 1 ≤ tc_ID c ≤ max_int64 → IsZero (tc_At c) = false →
  decodeEventCursor (mkToken n (Some j)) q = Some c.
Proof.
  unfold encodeEventCursor. destruct (format_rfc3339 (tc_At c)) as [at_|] eqn:Hf; [|done]. intros [= <-] Hn Hid Hz.
  unfold decodeEventCursor. cbn [tk_Len tk_JSON obind members]. rewrite (proj2 (Z.ltb_ge _ _)) by done.
  rewrite (dec_field_time _ _ _ _ _ Hf). assert (in_int64 (tc_ID c)) by (unfold in_int64, min_int64; lia).
  autorewrite with json. cbn [obind].
  rewrite Hz, bool_decide_true, (proj2 (Z.ltb_ge _ _)) by (done || lia). cbn [negb orb]. by destruct c.
Qed.

(** Later requests carry the [nextCursor] of the answer before; [size j] is the
    length of the cursor made of [j]. *)
Fixpoint walk_events (size : json → Z) (env : Env) (db : ODB) (seen : list Errand) (admin : string)
    (params : list (string * string)) (fuel : nat) (cursor : option json) : option (list TransitionResponse) :=
  match fuel with
  | O => None
  | S fuel =>
      let token := (λ j, mkToken (size j) (Some j)) <$> cursor in
      match (play env db seen (listEvents (mkARequest (Some admin) "" None (mkQuery params token)))).1.1.2 with
      | mkAReply 200 (AEvents items None) => Some items
      | mkAReply 200 (AEvents items (Some next)) => app items <$> walk_events size env db seen admin params fuel (Some next)
      | _ => None
      end
  end.

(** The rows the filters select. *)
Definition events_matching (q : EventQuery) (db : ODB) : list (Z * TransitionRow) :=
  List.filter (λ r, log_matches (event_filter q) db r.2) (with_ids transition_id (db_transitions db)).

Section walking.
Context (size : json → Z) (env : Env) (db : ODB) (seen : list Errand) (admin : string).
Context (params : list (string * string)) (q : EventQuery) `{Hids : !RowIdsOk, Huu : !UUIDs}.
Hypothesis Hreach : reachable db seen.
Hypothesis Hadmin : admin ≠ "".
Hypothesis Hparse : parseEventQuery (mkQuery params None) = Ok q.
Hypothesis Hsize : ∀ c j, encodeEventCursor c q = Some j → size j ≤ maxCursorLength.

Let rows := events_matching q db.

(** Their dates and IDs can be written in a cursor. *)
Hypothesis Hwritable : ∀ r, r ∈ rows → is_Some (format_rfc3339 (tr_At r.2)) ∧ IsZero (tr_At r.2) = false ∧ r.1 ≤ max_int64.

Definition position_at (c : TransitionCursor) : Z * Z := (tc_At c, tc_ID c).

Definition good_cursor (c : TransitionCursor) : Prop :=
  IsZero (tc_At c) = false ∧ stored_time (tc_At c) = tc_At c ∧ 1 ≤ tc_ID c ≤ max_int64.

Lemma listEvents_play token b :
  parseEventQuery (mkQuery params token) = Ok (with_before b q) → (∀ c, b = Some c → good_cursor c) →
  let page := event_page (ev_Limit q)
    (transition_of <$> keyset (lex_ge Z.le) transition_key (position_at <$> b) (Z.to_nat (ev_Limit q) + 1) rows) in
  play env db seen (listEvents (mkARequest (Some admin) "" None (mkQuery params token))) =
    ([], mkAReply 200 (AEvents (transition_response <$> ep_Items page)
           (match ep_Next page with Some c => encodeEventCursor c q | None => None end)), db, seen).
Proof.
  intros Hp Hb page. destruct (parseEventQuery_ok _ _ Hparse) as (Hlim & Hty & He). unfold MaxPageSize in Hlim.
  unfold listEvents, adminID. cbn [aq_Principal aq_Query]. rewrite bool_decide_false by done. rewrite Hp.
  unfold list_events_service. cbn [ev_Limit with_before].
  rewrite (proj2 (Z.ltb_ge _ _)), (proj2 (Z.ltb_ge _ _)) by (unfold MaxPageSize; lia). cbn [orb].
  cbn [play pbind perform alone fst snd]. unfold inTx.
  rewrite (event_log_matches _ _ _ Hreach); cbn [event_filter with_before tf_Limit tf_ToStatus tf_ErrandID tf_Before ev_Limit ev_Type ev_ErrandID ev_Before].
  - cbn [fst ops_answer play pbind]. f_equal. f_equal. f_equal. unfold page.
    assert (newest_first (log_matches (event_filter (with_before b q)) db) b (ev_Limit q + 1) db =
      keyset (lex_ge Z.le) transition_key (position_at <$> b) (Z.to_nat (ev_Limit q) + 1) rows) as ->.
    { unfold newest_first. replace (Z.to_nat (ev_Limit q + 1)) with (Z.to_nat (ev_Limit q) + 1)%nat by lia.
      change (log_matches (event_filter (with_before b q)) db) with (log_matches (event_filter q) db).
      fold (events_matching q db). fold rows.
      destruct b as [c|]; [|done]. destruct (Hb c eq_refl) as (Hz & Hst & _). unfold timestamp. by rewrite Hz, Hst. }
    done.
  - change OpsRepo.MaxPageSize with 200. lia.
  - done.
  - destruct He as [?|[Hp' Hl']]; [by left|right]. by rewrite toUUID_text, Hl'.
Qed.

Lemma walk_from fuel b cursor l :
  pages (lex_ge Z.le) transition_key fuel (Z.to_nat (ev_Limit q)) (position_at <$> b) rows = Some l →
  (match b with None => cursor = None | Some c => good_cursor c ∧ ∃ j, cursor = Some j ∧ encodeEventCursor c q = Some j end) →
  walk_events size env db seen admin params fuel cursor = Some (transition_response <$> (transition_of <$> l)).
Proof.
  destruct (parseEventQuery_ok _ _ Hparse) as (Hlim & _). unfold MaxPageSize in Hlim.
  revert b cursor l. induction fuel as [|fuel IH]; intros b cursor l Hp Hb; [done|]. cbn [pages walk_events] in *.
  rewrite (listEvents_play _ b).
  2:{ destruct b as [c|]; [|subst cursor].
      - destruct Hb as [Hg (j & -> & Hj)]. cbn [fmap option_fmap option_map].
        destruct (parseEventQuery_cursor _ _ (mkToken (size j) (Some j)) Hparse) as [-> _].
        destruct Hg as (? & _ & ?). rewrite (eventCursor_roundtrip q c j); [done|done|by eapply Hsize|done|done].
      - cbn [fmap option_fmap option_map]. rewrite Hparse. destruct (parseEventQuery_cursor _ _ (mkToken 0 None) Hparse) as [_ Hnone]. unfold with_before.
        rewrite <- Hnone. by destruct q. }
  2:{ intros c ->. by destruct Hb. }
  cbn [fst snd]. set (found := keyset _ _ _ _ _) in *. unfold event_page. rewrite length_fmap.
  destruct (Z.to_nat (ev_Limit q) <? length found)%nat eqn:Hlt; cbn [ep_Items ep_Next]; [|by injection Hp as <-; rewrite take_ge by (apply Nat.ltb_ge in Hlt; lia)].
  apply Nat.ltb_lt in Hlt. rewrite last_lookup, length_take, lookup_take_lt in Hp by lia.
  replace (pred (Z.to_nat (ev_Limit q) `min` length found)) with (Z.to_nat (ev_Limit q) - 1)%nat in Hp by lia.
  rewrite list_lookup_fmap. destruct (found !! (Z.to_nat (ev_Limit q) - 1)%nat) as [r|] eqn:Hr; [|done]. cbn [fmap option_fmap option_map].
  assert (r ∈ rows) as Hin.
  { apply list_elem_of_lookup_2 in Hr. unfold found, keyset in Hr. apply elem_of_take in Hr as (k & Hr & _).
    apply list_elem_of_lookup_2 in Hr. rewrite merge_sort_Permutation in Hr.
    apply list_elem_of_In, filter_In in Hr as [Hr _]. by apply list_elem_of_In. }
  destruct (Hwritable _ Hin) as ([s Hs] & Hz & Hmax).
  assert (r.2 ∈ db_transitions db ∧ 0 < r.1) as [Hdb Hpos].
  { unfold rows, events_matching in Hin. apply list_elem_of_In, filter_In in Hin as [Hin _]. apply list_elem_of_In, with_ids_elem in Hin as (k & Hk & ->).
    split; [by eapply list_elem_of_lookup_2|apply transition_id_pos]. }
  unfold encodeEventCursor at 1. cbn [tc_At tc_ID tv_At tv_ID transition_of]. rewrite Hs.
  destruct (pages _ _ fuel _ _ rows) as [rest|] eqn:Hrest; [|done]. injection Hp as <-.
  erewrite (IH (Some (mkTransitionCursor (tr_At r.2) r.1)) _ rest); [|exact Hrest|].
  - cbn [fmap option_fmap option_map]. rewrite <- !fmap_take, !fmap_app. done.
  - split; [|eexists; split; [reflexivity|]; unfold encodeEventCursor; cbn [tc_At tc_ID]; by rewrite Hs].
    split; [done|]. split; [by apply (reachable_dates _ _ Hreach)|simpl; lia].
Qed.

End walking.

Lemma events_matching_keys `{!RowIdsOk} q db : NoDup (transition_key <$> events_matching q db).
Proof.
  unfold events_matching. assert (NoDup (fst <$> with_ids transition_id (db_transitions db))) as Hnd.
  { unfold with_ids. rewrite fmap_imap. apply NoDup_alt. intros i j x. rewrite !list_lookup_imap.
    destruct (_ !! i), (_ !! j); simpl; try done. intros [= <-] [= Heq]. by apply transition_id_inj in Heq. }
  induction (with_ids _ _) as [|r l IH]; simpl in *; [constructor|]. apply NoDup_cons in Hnd as [Hn Hnd].
  destruct (log_matches _ _ _); [|by apply IH]. rewrite fmap_cons. apply NoDup_cons. split; [|by apply IH].
  intros (r' & Heq & Hin)%list_elem_of_fmap. apply Hn. apply list_elem_of_In, filter_In in Hin as [Hin _].
  apply list_elem_of_fmap. exists r'. split; [|by apply list_elem_of_In]. unfold transition_key in Heq. congruence.
Qed.

(** An administrator who reads the event log from its first page and
    follows each [nextCursor] reads, on a store that does not change, every
    event that satisfies the filters exactly once, newest first, whatever the
    filters and the page size; every cursor is accepted. *)
Theorem event_pages_list_everything `{!RowIdsOk, !UUIDs} size env db seen admin params q fuel :
  reachable db seen → admin ≠ "" → parseEventQuery (mkQuery params None) = Ok q →
  (∀ c j, encodeEventCursor c q = Some j → size j ≤ maxCursorLength) →
  (∀ r, r ∈ events_matching q db → is_Some (format_rfc3339 (tr_At r.2)) ∧ IsZero (tr_At r.2) = false ∧ r.1 ≤ max_int64) →
  (length (db_transitions db) < fuel)%nat →
  ∃ l, walk_events size env db seen admin params fuel None = Some (transition_response <$> (transition_of <$> l)) ∧
    l ≡ₚ events_matching q db ∧ StronglySorted (λ a b, lex_ge Z.le (transition_key a) (transition_key b)) l.
Proof.
  intros Hr Ha Hp Hsize Hw Hf. destruct (parseEventQuery_ok _ _ Hp) as (Hlim & _).
  exists (merge_sort (row_le (lex_ge Z.le) transition_key) (events_matching q db)). split; [|split].
  - apply (walk_from size env db seen admin params q Hr Ha Hp Hsize Hw fuel None); [|done].
    apply pages_all; [apply _..|apply events_matching_keys|lia|].
    eapply Nat.le_lt_trans; [|exact Hf]. unfold events_matching. rewrite <- (length_imap (λ i a, (transition_id i, a)) (db_transitions db)).
    unfold with_ids. apply filter_length_le.
  - by rewrite merge_sort_Permutation.
  - apply (rows_sorted (lex_ge Z.le) transition_key).
Qed.

End events.

Section flags.
Context `{Hpg : Postgres, Hpgok : !PostgresOk, Hrow : RowIds, Hcol : Collation}.

(** ** Flags *)

(** What is cut off a list leaves it full. *)
Lemma take_or_full {A} n (l : list A) x : x ∈ l → x ∈ take n l ∨ length (take n l) = n.
Proof.
  intros Hx. destruct (decide (n ≤ length l)%nat); [right; rewrite length_take; lia|left; by rewrite take_ge by lia].
Qed.

Lemma count_withdrawals since db courier :
  count_of (withdrawal_users since db) courier =
  Z.of_nat (length (List.filter (λ r, stored_time since <=? tr_At r) (List.filter (is_withdrawal courier) (db_transitions db)))).
Proof.
  unfold count_of, withdrawal_users, is_withdrawal. f_equal. induction (db_transitions db) as [|r l IH]; [done|].
  cbn [omap list_omap List.filter].
  destruct (bool_decide (tr_Event r = EventWithdraw) || bool_decide (tr_Event r = EventPickupDeadlinePassed)) eqn:He.
  - destruct (stored_time since <=? tr_At r) eqn:Ht; rewrite ?andb_true_r, ?andb_false_r.
    + destruct (tr_CourierID r) as [c|]; cbn [List.filter].
      * rewrite (bool_decide_ext (c = courier) (Some c = Some courier)) by (split; congruence).
        destruct (bool_decide (Some c = Some courier)); cbn [andb List.filter]; rewrite ?Ht; cbn [length]; [f_equal|]; exact IH.
      * rewrite bool_decide_false by done. exact IH.
    + destruct (bool_decide (tr_CourierID r = Some courier)); cbn [andb List.filter]; rewrite ?Ht; exact IH.
  - rewrite !andb_false_r. exact IH.
Qed.

Lemma activity_elem users least limit c :
  c ∈ activity users least limit → ac_Count c = count_of users (ac_UserID c) ∧ least ≤ ac_Count c.
Proof.
  unfold activity. intros (k & Hc & _)%elem_of_take. apply list_elem_of_lookup_2 in Hc.
  rewrite merge_sort_Permutation in Hc. apply list_elem_of_In, filter_In in Hc as [Hc Hl].
  apply list_elem_of_In, list_elem_of_fmap in Hc as (u & -> & _). simpl in *. split; [done|lia].
Qed.

Lemma activity_all users least limit u :
  1 ≤ least → least ≤ count_of users u →
  mkActivityCount u (count_of users u) ∈ activity users least limit ∨
  length (activity users least limit) = Z.to_nat limit.
Proof.
  intros Hl Hc. unfold activity. apply take_or_full. rewrite merge_sort_Permutation.
  apply list_elem_of_In, filter_In. split; [|simpl; lia]. apply list_elem_of_In, list_elem_of_fmap. exists u. split; [done|].
  apply elem_of_remove_dups. unfold count_of in Hc. destruct (List.filter _ users) as [|x l] eqn:Hf; [simpl in Hc; lia|].
  assert (In x (List.filter (λ u0, bool_decide (u0 = u)) users)) as [Hx Hu]%filter_In by (rewrite Hf; by left).
  bool_props. subst x. by apply list_elem_of_In.
Qed.

(** What the flags are computed from. *)
Lemma list_flags_play env db seen flags db' seen' log :
  play env db seen list_flags_service = (log, Ok flags, db', seen') →
  let w := ss_WithdrawalRestriction (en_Settings env) in let c := ss_CancellationFlag (en_Settings env) in
  1 ≤ wr_Count w ∧
  flags = take 500 (merge_sort (row_le (lex_le text_pair_le) flag_key)
    ((flag_of FlagCourierWithdrawals "withdrawal" (wr_Count w) (wr_Window w) (en_Now env - wr_Window w) <$>
        activity (withdrawal_users (en_Now env - wr_Window w) db) (wr_Count w) 500) ++
     (flag_of FlagRequesterCancellations "cancellation" (cf_Count c) (cf_Window c) (en_Now env - cf_Window c) <$>
        activity (cancellation_users (en_Now env - cf_Window c) db) (cf_Count c + 1) 500))).
Proof.
  assert (∀ since least, checkActivityArgs since least MaxFlags =
    if IsZero since || (least <? 1) then Err OpsInvalidArgument else Ok tt) as Hcheck.
  { intros since least. unfold checkActivityArgs. by rewrite !orb_false_r. }
  unfold list_flags_service. set (w := ss_WithdrawalRestriction (en_Settings env)). set (c := ss_CancellationFlag (en_Settings env)).
  cbn [play pbind perform alone fst snd]. fold w. fold c. unfold inTx, ListWithdrawalCounts, ops_lift.
  rewrite Hcheck. destruct (IsZero (en_Now env - wr_Window w) || (wr_Count w <? 1)) eqn:Hb; [done|]. cbn [fst ret bind ops_answer play pbind perform alone snd].
  unfold inTx, ListCancellationCounts, ops_lift. rewrite Hcheck.
  destruct (IsZero (en_Now env - cf_Window c) || (cf_Count c + 1 <? 1)); [done|].
  unfold bind at 1. cbn [fst ret ops_answer play pbind]. intros [= <- <- <- <-]. split; [|done].
  apply orb_false_iff in Hb as [_ Hb]. lia.
Qed.

(** C20: The activity report and the accept route apply one rule: at any moment
    a courier flagged for withdrawals is refused as restricted, with exactly
    the reported number of withdrawals counted against the courier; and a
    courier who is restricted is flagged, unless the report is full. *)
Theorem flagged_is_restricted env db seen flags id courier :
  reachable db seen → play env db seen list_flags_service = ([], Ok flags, db, seen) →
  ∃ input, play env db seen (eligibility id courier (en_Now env)) = ([], Ok input, db, seen) ∧
    (∀ f, f ∈ flags → fg_Kind f = FlagCourierWithdrawals → fg_UserID f = courier →
       i_Restricted input = true ∧
       ∃ h, CourierHistory id courier (en_Now env - fg_Window f) db = Ok (h, db) ∧ fg_Count f = ch_WithdrawalsSince h) ∧
    (i_Restricted input = true →
       (∃ f, f ∈ flags ∧ fg_Kind f = FlagCourierWithdrawals ∧ fg_UserID f = courier) ∨ length flags = 500%nat) ∧
    ∀ e t, Next e EventAccept (mkActor ActorCourier courier) input (en_Now env) = Ok t → i_Restricted input = false.
Proof.
  intros Hr Hp. destruct (list_flags_play _ _ _ _ _ _ _ Hp) as [Hone ->]. clear Hp.
  set (w := ss_WithdrawalRestriction (en_Settings env)) in *.
  eexists. split; [|split; [|split]].
  - unfold eligibility. cbn [play pbind perform alone fst snd]. unfold inTx, CourierHistory. cbn [fst play pbind].
    reflexivity.
  - cbn [i_Restricted ch_WithdrawalsSince]. fold w. rewrite <- count_withdrawals. intros f Hf Hk Hu.
    apply elem_of_take in Hf as (k & Hf & _). apply list_elem_of_lookup_2 in Hf. rewrite merge_sort_Permutation in Hf.
    apply elem_of_app in Hf as [(c & -> & Hc)%list_elem_of_fmap|(c & -> & _)%list_elem_of_fmap]; [|done].
    destruct (activity_elem _ _ _ _ Hc) as [Hcount Hleast]. cbn [fg_UserID fg_Count fg_Window flag_of] in *.
    rewrite <- Hu, <- Hcount. split; [by apply Z.leb_le|]. eexists. split; [reflexivity|].
    cbn [ch_WithdrawalsSince]. by rewrite <- count_withdrawals.
  - cbn [i_Restricted ch_WithdrawalsSince]. fold w. rewrite <- count_withdrawals. intros Hres%Z.leb_le.
    match goal with |- context [merge_sort ?R (?A ++ ?B)] => set (couriers := A); set (requesters := B); set (le := R) end.
    destruct (activity_all (withdrawal_users (en_Now env - wr_Window w) db) (wr_Count w) 500 courier Hone Hres) as [Hin|Hfull].
    + match type of Hin with ?c ∈ _ => assert (flag_of FlagCourierWithdrawals "withdrawal" (wr_Count w) (wr_Window w)
        (en_Now env - wr_Window w) c ∈ merge_sort le (couriers ++ requesters)) as Hflag end.
      { rewrite merge_sort_Permutation. apply elem_of_app. left. by apply list_elem_of_fmap_2. }
      apply (take_or_full 500) in Hflag as [Hflag|Hfull]; [left|by right]. eexists. by split.
    + right. rewrite length_take, (Permutation_length (merge_sort_Permutation le _)), length_app. unfold couriers.
      rewrite length_fmap, Hfull. change (Z.to_nat 500) with 500%nat. lia.
  - intros e t (rule & [Hin Hf Hev Hact _ _ _])%Next_inv.
    assert (r_Actor rule = RelEligibleCourier) as Hrel by (clear -Hin Hev; each_rule Hin; done).
    rewrite Hrel in Hact. by apply checkActor_courier in Hact as (_ & _ & _ & _ & ?).
Qed.

End flags.

(** ** Witnesses *)

(** Alice's errand from the request to the accept; then Bob withdraws. *)
Module LogScenario.
Export ReviewScenario.

Lemma transitions_writable q :
  ∀ r, r ∈ events_matching q db6 → is_Some (format_rfc3339 (tr_At r.2)) ∧ IsZero (tr_At r.2) = false ∧ r.1 ≤ max_int64.
Proof.
  assert (forallb (λ r, bool_decide (is_Some (format_rfc3339 (tr_At r.2))) && negb (IsZero (tr_At r.2)) && (r.1 <=? max_int64))
    (with_ids transition_id (db_transitions db6)) = true) as Hall by (vm_compute; reflexivity).
  intros r Hin. apply list_elem_of_In, filter_In in Hin as [Hin _]. rewrite forallb_forall in Hall.
  specialize (Hall r Hin). bool_props. by split_and!.
Qed.

(** The events of Bob's, two at a time. *)
Definition bobs_events : list (string * string) := [("userId", bob); ("limit", "2")].
Definition bobs_query : EventQuery := mkEventQuery bob "" StatusNone zero_time zero_time None 2.

Lemma reach_db6 : reachable db6 seen6.
Proof.
  by destruct (route_run _ _ _ _ _ _ _ _ reach_db5 refunding_run (resolve_review_spec 5 refund_it)) as (_ & _ & _ & _ & Hr).
Qed.

Definition withdrawing := Eval vm_compute in play (env 6000) db3 seen3 (withdraw (ask bob 3)).
Definition db_w := Eval vm_compute in to_db withdrawing.
Definition seen_w := Eval vm_compute in to_seen withdrawing.

Lemma reach_w : reachable db_w seen_w.
Proof.
  assert (hrun db3 seen3 (withdraw (ask bob 3)) (played withdrawing).1 (played withdrawing).2 db_w seen_w) as H.
  { apply (play_run (env 6000)); [apply env_is_ok|]. vm_compute. reflexivity. }
  by destruct (route_run _ _ _ _ _ _ _ _ reach_db3 H (handler_spec AWithdraw (ask bob 3)))
    as (_ & _ & _ & _ & Hr).
Qed.

(** One withdrawal in the last quarter of an hour restricts. *)
Definition strict (now : Z) : Env :=
  mkEnv now (mkSystemSettings DefaultDeadlineSettings (mkWithdrawalRestriction 1 (15 * minute) (15 * minute))
    (mkCancellationFlag 20 hour) (5 * minute) (5 * minute) (10 * minute)) (λ _, Ok kopi) (λ _ _, Ok kopi) (Ok []).
Definition flagging := Eval vm_compute in play (strict 7000) db_w seen_w list_flags_service.
Definition flagged : list Flag := Eval vm_compute in match flagging.1.1.2 with Ok l => l | Err _ => [] end.

Lemma flagging_run : play (strict 7000) db_w seen_w list_flags_service = ([], Ok flagged, db_w, seen_w).
Proof. vm_compute. reflexivity. Qed.

End LogScenario.
Import LogScenario.

Lemma event_log_matches_witness :
  let f := event_filter bobs_query in
  ListTransitions f db6 = Ok (transition_of <$> newest_first (log_matches f db6) None 3 db6, db6).
Proof.
  apply (event_log_matches db6 seen6 (event_filter bobs_query) reach_db6);
    [vm_compute; split; discriminate|by left|by left].
Defined.

Lemma event_pages_list_everything_witness :
  ∃ l, walk_events (λ _, 100) (env 9000) db6 seen6 admin bobs_events 9 None
         = Some (transition_response <$> (transition_of <$> l)) ∧
    l ≡ₚ events_matching bobs_query db6 ∧ length l = 4%nat.
Proof.
  destruct (event_pages_list_everything (λ _, 100) (env 9000) db6 seen6 admin bobs_events bobs_query 9 reach_db6)
    as (l & Hw & Hl & _); [discriminate|vm_compute; reflexivity|intros; discriminate|apply transitions_writable|
      vm_compute; repeat constructor|].
  exists l. split; [exact Hw|]. split; [exact Hl|]. rewrite (Permutation_length Hl). vm_compute. reflexivity.
Defined.

Lemma flagged_is_restricted_witness :
  ∃ input, play (strict 7000) db_w seen_w (eligibility id1 bob 7000) = ([], Ok input, db_w, seen_w) ∧
    i_Restricted input = true.
Proof.
  destruct (flagged_is_restricted (strict 7000) db_w seen_w flagged id1 bob reach_w flagging_run)
    as (input & Hp & Hf & _). exists input. split; [exact Hp|].
  assert (∃ f, f ∈ flagged ∧ fg_Kind f = FlagCourierWithdrawals ∧ fg_UserID f = bob) as (f & Hin & Hk & Hu).
  { unfold flagged. eexists. split; [by left|]. split; reflexivity. }
  by destruct (Hf f Hin Hk Hu).
Defined.
