(* ===== verification/SettingsProps.v ===== *)
(** * order-service: the settings table and its routes

    What an update leaves in the table, what a read makes of it, and the
    histories of the table with the value they give it.  PUT and GET
    /admin/settings running while other administrators do the same and while
    answers get lost: what is stored, what is refused, and what the whole
    seconds of the API become. *)

From S2P Require Import Prelude Proc GoText Json GoTime GoDuration Errand Settings ErrandState ErrandJson ErrandStore Fence StoreSystem ErrandHttp ErrandActions Review SettingsStore.

(** ** Fields *)

(** Fields of a list read what was written and nothing else. *)
Definition fields_ok (fields : list (string * FieldRef)) : Prop :=
  Forall (λ kf, ∀ a, field_set kf.2 (field_get kf.2 a) a = a ∧ ∀ v, field_get kf.2 (field_set kf.2 v a) = v) fields ∧
  ForallOrdPairs (λ kf kg, kf.1 ≠ kg.1 ∧ ∀ v a,
    field_get kg.2 (field_set kf.2 v a) = field_get kg.2 a ∧ field_get kf.2 (field_set kg.2 v a) = field_get kf.2 a) fields.

Lemma settingFields_ok : fields_ok settingFields.
Proof.
  split.
  - unfold settingFields. repeat constructor; intros; try (by destruct a as [[] [] [] ? ? ?]).
  - unfold settingFields. repeat constructor; intros; done.
Qed.

Lemma fields_ok_cons kf fields :
  fields_ok (kf :: fields) ↔
  (∀ a, field_set kf.2 (field_get kf.2 a) a = a ∧ ∀ v, field_get kf.2 (field_set kf.2 v a) = v) ∧
  (∀ kg, kg ∈ fields → kf.1 ≠ kg.1 ∧ ∀ v a,
    field_get kg.2 (field_set kf.2 v a) = field_get kg.2 a ∧ field_get kf.2 (field_set kg.2 v a) = field_get kf.2 a) ∧
  fields_ok fields.
Proof.
  unfold fields_ok. split.
  - intros [[Hg Hgs]%Forall_cons Ho]. inversion_clear Ho as [|? ? Hx Hr]. split_and!; try done.
    intros kg Hin. rewrite Forall_forall in Hx. by apply Hx.
  - intros (Hg & Hx & Hgs & Hr). split; [by constructor|]. constructor; [|done].
    apply Forall_forall. exact Hx.
Qed.

(** Copy the fields of [s]. *)
Definition assign (fields : list (string * FieldRef)) (s acc : SystemSettings) : SystemSettings :=
  foldl (λ a kf, field_set kf.2 (field_get kf.2 s) a) acc fields.

Lemma assign_all s acc : assign settingFields s acc = s.
Proof. by destruct s as [[] [] [] ? ? ?]. Qed.

(** Two settings with the same fields are the same. *)
Lemma settings_ext s t : (∀ key f, (key, f) ∈ settingFields → field_get f s = field_get f t) → s = t.
Proof.
  intros Heq. rewrite <- (assign_all s DefaultSystemSettings), <- (assign_all t DefaultSystemSettings).
  assert (∀ fields acc, (∀ key f, (key, f) ∈ fields → field_get f s = field_get f t) →
            assign fields s acc = assign fields t acc) as Hgen; [|by apply Hgen].
  intros fields. induction fields as [|[key f] fields IH]; intros acc Hf; [done|]. simpl.
  rewrite (Hf key f) by left. apply IH. intros key' f' Hin. apply (Hf key'). by right.
Qed.

(** ** Values that survive the table *)

(** Whole seconds and Go [int]s. *)
Definition storable_field (f : FieldRef) (s : SystemSettings) : Prop :=
  match f with
  | DurationRef get _ => ∃ k, get s = k * nsec ∧ min_int64 < get s ≤ max_int64
  | CountRef get _ => in_int64 (get s)
  end.

Definition storable (s : SystemSettings) : Prop := ∀ key f, (key, f) ∈ settingFields → storable_field f s.

Definition storable_fieldb (s : SystemSettings) (kf : string * FieldRef) : bool :=
  let v := field_get kf.2 s in
  match kf.2 with
  | DurationRef _ _ => (v mod nsec =? 0) && (min_int64 <? v) && (v <=? max_int64)
  | CountRef _ _ => in_int64b v
  end.

Lemma storable_check s : forallb (storable_fieldb s) settingFields = true → storable s.
Proof.
  intros Hall key f Hin. rewrite forallb_forall in Hall. specialize (Hall (key, f) (proj1 (list_elem_of_In _ _) Hin)).
  unfold storable_fieldb in Hall. destruct f as [get set|get set]; simpl in *; [|by apply in_int64b_spec].
  bool_props. exists (get s / nsec). split; [|done]. rewrite Z.mul_comm. apply Z_div_exact_full_2; [done|lia].
Qed.

Lemma decode_encode f s acc :
  storable_field f s → decodeSetting (encodeSetting f s) f acc = Some (field_set f (field_get f s) acc).
Proof.
  destruct f as [get set|get set]; simpl; unfold obind.
  - intros (k & -> & Hk). by rewrite ParseDuration_String.
  - intros Hin%in_int64b_spec. unfold dec_int64. by rewrite Hin.
Qed.

Lemma same_value_eq a b : same_value a b = true → a = b.
Proof. destruct a, b; simpl; try done; intros ?; bool_props; congruence. Qed.

(** ** The table holds a value *)

Definition holds_field (m : gmap string SettingRow) (s : SystemSettings) (kf : string * FieldRef) : Prop :=
  match m !! kf.1 with
  | Some row => st_Value row = encodeSetting kf.2 s
  | None => field_get kf.2 s = field_get kf.2 DefaultSystemSettings
  end.

Definition table_holds (m : gmap string SettingRow) (s : SystemSettings) : Prop :=
  ∀ kf, kf ∈ settingFields → holds_field m s kf.

Lemma decode_rows_holds fields m s acc :
  fields_ok fields → (∀ kf, kf ∈ fields → holds_field m s kf ∧ storable_field kf.2 s) →
  (∀ kf, kf ∈ fields → field_get kf.2 acc = field_get kf.2 DefaultSystemSettings) →
  decode_rows fields m acc = Some (assign fields s acc).
Proof.
  revert acc. induction fields as [|[key f] fields IH]; intros acc Hok Hh Hd; [done|].
  apply fields_ok_cons in Hok as (Hgs & Hind & Hok). cbn [decode_rows].
  destruct (Hh (key, f) ltac:(left)) as [Hf Hst]. unfold holds_field in Hf. simpl in Hf, Hgs.
  assert (decode_rows fields m (field_set f (field_get f s) acc) = Some (assign ((key, f) :: fields) s acc)) as Hrest.
  { apply IH; [done|intros; apply Hh; by right|]. intros kf Hin. destruct (Hind kf Hin) as [_ Hfr].
    simpl in Hfr. rewrite (proj1 (Hfr _ _)). apply Hd. by right. }
  destruct (m !! key) as [row|] eqn:Hm.
  - rewrite Hf, decode_encode by done. exact Hrest.
  - specialize (Hd (key, f) ltac:(left)). simpl in Hd. rewrite Hf, <- Hd, (proj1 (Hgs acc)) in Hrest. exact Hrest.
Qed.

Lemma GetSettings_holds db s :
  table_holds (sd_settings db) s → storable s → ValidateSettings s = Ok tt → GetSettings db = Ok (s, db).
Proof.
  intros Hh Hst Hv. unfold GetSettings, bind, ListSettings.
  rewrite (decode_rows_holds _ _ s) by (done || apply settingFields_ok || by intros [key f] ?; split; [by apply Hh|by eapply Hst]).
  by rewrite assign_all, Hv.
Qed.

(** ** Writers *)

Lemma UpsertSetting_inv clock key value by_ db n db' :
  UpsertSetting clock key value by_ db = Ok (n, db') →
  sd_ops db' = sd_ops db ∧ (∀ k, k ≠ key → sd_settings db' !! k = sd_settings db !! k) ∧
  ∃ row, sd_settings db' !! key = Some row ∧ st_Value row = value.
Proof.
  unfold UpsertSetting. destruct (sd_settings db !! key) as [row|] eqn:Hk;
    [destruct (same_value _ _) eqn:Hs|]; intros [= _ <-]; (split; [done|]); simpl.
  - split; [done|]. exists row. split; [done|]. by apply same_value_eq.
  - split; [intros; by apply lookup_insert_ne|]. eexists. split; [apply lookup_insert_eq|done].
  - split; [intros; by apply lookup_insert_ne|]. eexists. split; [apply lookup_insert_eq|done].
Qed.

Lemma upsert_all_inv clock fields s by_ db db' :
  fields_ok fields → upsert_all clock fields s by_ db = Ok (tt, db') →
  sd_ops db' = sd_ops db ∧ (∀ k, k ∉ fields.*1 → sd_settings db' !! k = sd_settings db !! k) ∧
  ∀ kf, kf ∈ fields → holds_field (sd_settings db') s kf.
Proof.
  revert db. induction fields as [|[key f] fields IH]; intros db Hok.
  - intros [= <-]. split_and!; [done..|]. intros kf Hin. by apply elem_of_nil in Hin.
  - apply fields_ok_cons in Hok as (_ & Hind & Hok). cbn [upsert_all].
    intros (n & db1 & (Hops & Hother & row & Hrow & Hval)%UpsertSetting_inv & Hrest)%bind_Ok.
    destruct (IH _ Hok Hrest) as (Hops' & Hk & Hf). split; [congruence|].
    assert (key ∉ fields.*1) as Hnk.
    { intros ([key' f'] & Heq & Hin)%list_elem_of_fmap. by apply (Hind _ Hin). }
    split; [intros k Hnin; cbn in Hnin; rewrite Hk, Hother; set_solver|].
    intros kf [->|Hin]%elem_of_cons; [|by apply Hf]. unfold holds_field. cbn [fst snd]. by rewrite (Hk _ Hnk), Hrow.
Qed.

Lemma UpdateSettings_inv clock s by_ db db' :
  UpdateSettings clock s by_ db = Ok (tt, db') →
  by_ ≠ "" ∧ ValidateSettings s = Ok tt ∧ sd_ops db' = sd_ops db ∧ table_holds (sd_settings db') s.
Proof.
  unfold UpdateSettings. case_bool_decide; [done|]. destruct (ValidateSettings s) as [[]|e]; [|done].
  intros (Hops & _ & Hf)%upsert_all_inv; [|apply settingFields_ok]. by split_and!.
Qed.

Lemma UpdateAudited_inv clock s by_ r db db' :
  UpdateAudited clock s by_ r db = Ok (tt, db') →
  by_ ≠ "" ∧ ValidateSettings s = Ok tt ∧ table_holds (sd_settings db') s ∧
  InsertAudit r (sd_ops db) = Ok (tt, sd_ops db').
Proof.
  intros ([] & db1 & (Hb & Hv & Hops & Hh)%UpdateSettings_inv & Ha)%bind_Ok. unfold insert_audit in Ha.
  rewrite Hops in Ha. destruct (InsertAudit r (sd_ops db)) as [[[] ops]|]; [|done]. by injection Ha as <-.
Qed.

(** An update fails for the settings' own fault, for a missing name, or in the
    audit. *)
Lemma upsert_all_total clock fields s by_ db : ∃ db', upsert_all clock fields s by_ db = Ok (tt, db').
Proof.
  revert db. induction fields as [|[key f] fields IH]; intros db; [by eexists|]. cbn [upsert_all]. unfold bind.
  assert (∃ n db1, UpsertSetting clock key (encodeSetting f s) by_ db = Ok (n, db1)) as (n & db1 & ->).
  { unfold UpsertSetting. destruct (sd_settings db !! key); [destruct (same_value _ _)|]; eauto. }
  apply IH.
Qed.

Lemma UpdateAudited_fails clock s by_ r db f :
  UpdateAudited clock s by_ r db = Err f → ValidateSettings s = Ok tt → code_of f = None.
Proof.
  unfold UpdateAudited, bind, UpdateSettings. intros Hu Hv. rewrite Hv in Hu.
  case_bool_decide; [by injection Hu as <-|].
  destruct (upsert_all_total clock settingFields s by_ db) as [db1 Heq]. rewrite Heq in Hu.
  unfold insert_audit in Hu. destruct (InsertAudit r (sd_ops db1)) as [[]|]; [done|]. by injection Hu as <-.
Qed.

Lemma seed_all_holds clock fields inserted s db n db' :
  fields_ok fields → (∀ kf, kf ∈ fields → kf ∈ settingFields) → table_holds (sd_settings db) s →
  seed_all clock fields inserted db = Ok (n, db') → sd_ops db' = sd_ops db ∧ table_holds (sd_settings db') s.
Proof.
  revert inserted db. induction fields as [|[key f] fields IH]; intros inserted db Hok Hsub Hh.
  - by intros [= _ <-].
  - apply fields_ok_cons in Hok as (_ & _ & Hok). cbn [seed_all]. unfold bind at 1, SeedSetting.
    assert (∀ kf, kf ∈ fields → kf ∈ settingFields) as Hsub' by (intros; apply Hsub; by right).
    destruct (sd_settings db !! key) as [row|] eqn:Hk; [by apply IH|].
    intros Hrest. apply IH in Hrest; [|done..|]; [done|]. simpl. intros kf Hin.
    unfold holds_field. pose proof (Hh kf Hin) as Hkf. unfold holds_field in Hkf.
    destruct (decide (kf.1 = key)) as [Heq|Hne]; [|by rewrite lookup_insert_ne].
    rewrite Heq, lookup_insert_eq. rewrite Heq, Hk in Hkf. simpl.
    assert (kf = (key, f)) as ->.
    { assert (NoDup settingFields.*1) as Hnd by (apply (bool_decide_unpack _); vm_compute; exact I).
      assert ((key, f) ∈ settingFields) as Hin2 by (apply Hsub; left).
      destruct kf as [key' f']. simpl in Heq. subst key'. f_equal.
      apply list_elem_of_lookup in Hin as [i Hi]. apply list_elem_of_lookup in Hin2 as [j Hj].
      assert (i = j) as <-; [|congruence].
      eapply NoDup_lookup; [done|rewrite list_lookup_fmap, Hi; done|rewrite list_lookup_fmap, Hj; done]. }
    simpl in Hkf. destruct f; simpl in *; by rewrite Hkf.
Qed.

(** ** Histories *)

(** A history of the table, and the settings it gives: the defaults, until
    somebody stores others. *)
Inductive settings_history : SDB → SystemSettings → Prop :=
| sh_empty ops : settings_history (mkSDB ∅ ops) DefaultSystemSettings
| sh_update clock s0 s by_ r db db' :
    settings_history db s0 → storable s → UpdateAudited clock s by_ r db = Ok (tt, db') → settings_history db' s
| sh_seed clock n s db db' :
    settings_history db s → SeedDefaults clock db = Ok (n, db') → settings_history db' s
| sh_other s db ops : settings_history db s → settings_history (mkSDB (sd_settings db) ops) s.

Lemma default_storable : storable DefaultSystemSettings.
Proof. apply storable_check. vm_compute. reflexivity. Qed.

Lemma settings_history_holds db s :
  settings_history db s → table_holds (sd_settings db) s ∧ storable s ∧ ValidateSettings s = Ok tt.
Proof.
  induction 1 as [ops|clock s0 s by_ r db db' _ _ Hst Hu|clock n s db db' _ (Hh & Hst & Hv) Hseed|s db ops _ IH]; [..|done].
  - split_and!; [|apply default_storable|done]. intros kf _. unfold holds_field. simpl. by rewrite lookup_empty.
  - apply UpdateAudited_inv in Hu as (_ & Hv & Hh & _). done.
  - split_and!; [|done..]. by eapply seed_all_holds in Hseed as [_ Hh']; [|apply settingFields_ok|..].
Qed.

(** ** Runs *)

Definition lost_answer {A} (r : res Failure A) : Prop := ∃ what, r = Err (FPlain what).

(** What a call answers at [db], and the database when it commits a change. *)
Definition settings_answers (db : SDB) {X} (c : seff X) : X → option SDB → Prop :=
  match c in seff X return X → option SDB → Prop with
  | SGet => λ r o, o = None ∧ (r = fst (inTx GetSettings db) ∨ lost_answer r)
  | SUpdateAudited s by_ a => λ r o,
      (∃ clock db', UpdateAudited clock s by_ a db = Ok (tt, db') ∧ o = Some db' ∧ (r = Ok tt ∨ lost_answer r)) ∨
      (o = None ∧ ((∃ clock f, UpdateAudited clock s by_ a db = Err f ∧ r = Err f) ∨ lost_answer r))
  | SInsertAudit a => λ r o,
      (∃ db', insert_audit a db = Ok (tt, db') ∧ o = Some db' ∧ (r = Ok tt ∨ lost_answer r)) ∨
      (o = None ∧ ((∃ f, insert_audit a db = Err f ∧ r = Err f) ∨ lost_answer r))
  end.

(** What a request committed. *)
Inductive sown := WSettings (s : SystemSettings) (by_ : string) (a : AuditRow) | WAudit (a : AuditRow).

Definition settings_log {X} (c : seff X) (log : list sown) : list sown :=
  match c with
  | SGet => log
  | SUpdateAudited s by_ a => WSettings s by_ a :: log
  | SInsertAudit a => WAudit a :: log
  end.

(** [srun db p log a db']: started on [db], the program returns [a] in [db'],
    having committed [log]; anybody may change the database in between. *)
Inductive srun {A} : SDB → sproc A → list sown → A → SDB → Prop :=
| srun_ret db a : srun db (PRet a) [] a db
| srun_other db db1 p log a db' : srun db1 p log a db' → srun db p log a db'
| srun_read db {X} (c : seff X) k x log a db' :
    settings_answers db c x None → srun db (k x) log a db' → srun db (PVis c k) log a db'
| srun_write db {X} (c : seff X) k x db1 log a db' :
    settings_answers db c x (Some db1) → srun db1 (k x) log a db' → srun db (PVis c k) (settings_log c log) a db'.

Lemma srun_ret_inv {A} db (a b : A) log db' : srun db (PRet a) log b db' → b = a ∧ log = [].
Proof.
  intros Hr. remember (PRet a) as p eqn:Hp. revert Hp.
  induction Hr as [| | |]; intros Hp; [by injection Hp as ->|by auto|done|done].
Qed.

(** What holds of every answer and of what was committed by then. *)
Fixpoint swp {A} (p : sproc A) (Q : A → list sown → Prop) : Prop :=
  match p with
  | PRet a => Q a []
  | PVis c k => ∀ db x o, settings_answers db c x o →
      swp (k x) (λ a log, Q a (match o with Some _ => settings_log c log | None => log end))
  end.

Lemma swp_adequate {A} db (p : sproc A) log a db' (Q : A → list sown → Prop) :
  srun db p log a db' → swp p Q → Q a log.
Proof.
  intros Hr. revert Q. induction Hr as [|db db1 p log a db' _ IH|db X c k x log a db' Ha _ IH|db X c k x db1 log a db' Ha _ IH];
    intros Q; simpl; [done|apply IH|intros Hw..].
  - exact (IH _ (Hw _ _ _ Ha)).
  - exact (IH _ (Hw _ _ _ Ha)).
Qed.

Lemma swp_mono {A} (p : sproc A) (Q R : A → list sown → Prop) : (∀ a log, Q a log → R a log) → swp p Q → swp p R.
Proof.
  revert Q R. induction p as [a|X c k IH]; intros Q R HQR; simpl; [apply HQR|].
  intros Hw db x o Ha. eapply IH; [|by eapply Hw]. intros a log. apply HQR.
Qed.

Lemma swp_bind {A B} (p : sproc A) (f : A → sproc B) Q :
  swp p (λ a log, swp (f a) (λ b log', Q b (log ++ log'))) → swp (pbind p f) Q.
Proof.
  revert Q. induction p as [a|X c k IH]; intros Q; simpl; [done|]. intros Hw db x o Ha. apply IH.
  eapply swp_mono; [|by eapply Hw]. intros a log Hf. eapply swp_mono; [|exact Hf]. intros b log' HQ.
  destruct o; [|done]. by destruct c.
Qed.

(** *** A run of its own *)

Definition settings_alone (clock : Z) (db : SDB) {X} (c : seff X) : X * option SDB :=
  match c in seff X return X * option SDB with
  | SGet => (fst (inTx GetSettings db), None)
  | SUpdateAudited s by_ a =>
      match UpdateAudited clock s by_ a db with Ok (_, db') => (Ok tt, Some db') | Err f => (Err f, None) end
  | SInsertAudit a => match insert_audit a db with Ok (_, db') => (Ok tt, Some db') | Err f => (Err f, None) end
  end.

Fixpoint settings_play {A} (clock : Z) (db : SDB) (p : sproc A) : list sown * A * SDB :=
  match p with
  | PRet a => ([], a, db)
  | PVis c k =>
      match settings_alone clock db c with
      | (x, None) => settings_play clock db (k x)
      | (x, Some db1) => let '(log, a, db') := settings_play clock db1 (k x) in (settings_log c log, a, db')
      end
  end.

Lemma settings_alone_answers clock db {X} (c : seff X) :
  settings_answers db c (settings_alone clock db c).1 (settings_alone clock db c).2.
Proof.
  destruct c as [|s by_ a|a]; cbn [settings_alone settings_answers]; [by auto|..].
  - destruct (UpdateAudited clock s by_ a db) as [[[] db']|f] eqn:Hu; cbn [fst snd]; [left|right]; eauto 10.
  - destruct (insert_audit a db) as [[[] db']|f] eqn:Hu; cbn [fst snd]; [left|right]; eauto 10.
Qed.

Lemma settings_play_run {A} clock db (p : sproc A) log a db' :
  settings_play clock db p = (log, a, db') → srun db p log a db'.
Proof.
  revert db log. induction p as [a0|X c k IH]; intros db log; cbn [settings_play].
  - intros [= <- <- <-]. constructor.
  - pose proof (settings_alone_answers clock db c) as Ha. destruct (settings_alone clock db c) as [x [db1|]]; cbn [fst snd] in Ha.
    + destruct (settings_play clock db1 (k x)) as [[log1 a1] db2] eqn:Hp. intros [= <- <- <-].
      eapply srun_write; [exact Ha|]. by apply IH.
    + intros Hp. eapply srun_read; [exact Ha|]. by apply IH.
Qed.

(** ** What a PUT does *)

Definition settings_stored (s : SystemSettings) (admin : string) (log : list sown) : Prop :=
  ∃ reason, log = [WSettings s admin (settings_audit admin reason AuditSucceeded)].

Definition put_outcome (rq : ARequest) (reply : AReply) (log : list sown) : Prop :=
  match adminID (aq_Principal rq) with
  | Err refusal => reply = refusal ∧ log = []
  | Ok admin =>
      match decodeSettings (aq_Body rq) with
      | Err refusal => reply = refusal ∧ log = []
      | Ok s =>
          match ValidateSettings s with
          | Err e => reply = a_fail (FApp e) ∧ ap_Status reply = HTTPStatus ValidationFailed ∧
              (log = [] ∨ log = [WAudit (settings_audit admin (Code_string ValidationFailed) AuditRejected)])
          | Ok _ =>
              (reply = mkAReply 200 (ASettings (settingsResponse s)) ∧ settings_stored s admin log) ∨
              (reply = a_error Internal ∧ (log = [] ∨ settings_stored s admin log))
          end
      end
  end.

Lemma ValidateSettings_code s e : ValidateSettings s = Err e → ae_Code e = ValidationFailed.
Proof. unfold ValidateSettings. match goal with |- match ?l with _ => _ end = _ → _ => destruct l end; [done|]. by intros [= <-]. Qed.

Lemma putSettings_spec rq : swp (putSettings rq) (put_outcome rq).
Proof.
  unfold putSettings, put_outcome. destruct (adminID (aq_Principal rq)) as [admin|refusal]; [|done].
  destruct (decodeSettings (aq_Body rq)) as [s|refusal]; [|done]. unfold put_settings.
  destruct (ValidateSettings s) as [[]|e] eqn:Hv.
  - cbn [pbind perform swp]. intros db1 x1 o1 [-> _] db2 x2 o2 Hu. apply swp_bind.
    assert (code_of_none : ∀ f, x2 = Err f → code_of f = None).
    { intros f ->. destruct Hu as [(clock & db' & _ & _ & [?|[w [= ->]]])|[_ [(clock & f' & Hf & [= ->])|[w [= ->]]]]]; try done.
      by eapply UpdateAudited_fails. }
    destruct x2 as [[]|f].
    + cbn [swp app]. destruct Hu as [(clock & db' & _ & -> & _)|[-> [(? & ? & _ & ?)|[? ?]]]]; [|done..].
      left. split; [done|]. by eexists.
    + specialize (code_of_none f eq_refl). rewrite code_of_none. cbn [swp app].
      right. split; [by destruct f|]. destruct o2; [right; by eexists|by left].
  - unfold auditRejected. cbn [code_of default from_option]. unfold id. rewrite (ValidateSettings_code _ _ Hv). cbn [pbind perform swp].
    intros db1 x1 o1 Ha. unfold a_fail. rewrite (bool_decide_true (ae_Code e = _)) by (by eapply ValidateSettings_code).
    split_and!; [done|done|]. destruct o1; [by right|by left].
Qed.

(** ** The body *)

(** [settingsBody] as JSON; it is what a GET answers and a PUT expects. *)
Definition settings_json (b : SettingsBody) : json :=
  let '(count, window, duration) := sb_WithdrawalRestriction b in
  let '(flag_count, flag_window) := sb_CancellationFlag b in
  JObj [("pickupAfter", JInt (sb_PickupAfter b)); ("deliveryAfter", JInt (sb_DeliveryAfter b));
        ("verificationAfter", JInt (sb_VerificationAfter b));
        ("verificationReminderAfter", JInt (sb_VerificationReminderAfter b));
        ("withdrawalRestriction", JObj [("count", JInt count); ("window", JInt window); ("duration", JInt duration)]);
        ("cancellationFlag", JObj [("count", JInt flag_count); ("window", JInt flag_window)]);
        ("reservationTimeout", JInt (sb_ReservationTimeout b)); ("editTimeout", JInt (sb_EditTimeout b));
        ("outboxConfirmTimeout", JInt (sb_OutboxConfirmTimeout b))].

(** The numbers of a body in the order of [settingFields]. *)
Definition body_values (b : SettingsBody) : list Z :=
  let '(count, window, duration) := sb_WithdrawalRestriction b in
  let '(flag_count, flag_window) := sb_CancellationFlag b in
  [sb_PickupAfter b; sb_DeliveryAfter b; sb_VerificationAfter b; sb_VerificationReminderAfter b; count; window; duration;
   flag_count; flag_window; sb_ReservationTimeout b; sb_EditTimeout b; sb_OutboxConfirmTimeout b].

Definition body_fits (b : SettingsBody) : Prop := Forall in_int64 (body_values b).

Lemma body_fits_check b : forallb in_int64b (body_values b) = true → body_fits b.
Proof.
  intros Hall. unfold body_fits. apply Forall_forall. intros v Hv. apply in_int64b_spec.
  rewrite forallb_forall in Hall. by apply Hall, list_elem_of_In.
Qed.

(** What the decoder makes of such a body. *)
Definition request_of (b : SettingsBody) : settingsRequest :=
  let '(count, window, duration) := sb_WithdrawalRestriction b in
  let '(flag_count, flag_window) := sb_CancellationFlag b in
  mkSettingsRequest
    (<["outboxConfirmTimeout" := sb_OutboxConfirmTimeout b]> (<["editTimeout" := sb_EditTimeout b]>
    (<["reservationTimeout" := sb_ReservationTimeout b]> (<["cancellationFlag.window" := flag_window]>
    (<["cancellationFlag.count" := flag_count]> (<["withdrawalRestriction.duration" := duration]>
    (<["withdrawalRestriction.window" := window]> (<["withdrawalRestriction.count" := count]>
    (<["verificationReminderAfter" := sb_VerificationReminderAfter b]>
    (<["verificationAfter" := sb_VerificationAfter b]> (<["deliveryAfter" := sb_DeliveryAfter b]>
    (<["pickupAfter" := sb_PickupAfter b]> ∅))))))))))))
    ({["cancellationFlag"]} ∪ ({["withdrawalRestriction"]} ∪ ∅)).

Lemma struct_members_step fields key v ms r f :
  find_field key fields = Some f →
  struct_members fields ((key, v) :: ms) r None = struct_members fields ms (f v r).1 (f v r).2.
Proof. intros Hf. cbn [struct_members]. rewrite Hf. by destruct (f v r). Qed.

Lemma struct_members_nil fields r bad : struct_members fields [] r bad = (r, bad).
Proof. done. Qed.

Lemma int_member_fits path z r : in_int64 z → int_member path (JInt z) r = (set_int path (Some z) r, None).
Proof. intros Hz%in_int64b_spec. unfold int_member. by rewrite Hz. Qed.

Lemma object_member_obj name fields ms r :
  object_member name fields (JObj ms) r =
  struct_members fields ms (mkSettingsRequest (sr_Ints r) ({[name]} ∪ sr_Objects r)) None.
Proof. done. Qed.

Ltac match_keys :=
  repeat match goal with
  | |- context [key_matches ?a ?b] => let v := eval vm_compute in (key_matches a b) in change (key_matches a b) with v
  end.
Ltac decode_step := erewrite struct_members_step by (cbn [find_field]; match_keys; reflexivity).

Lemma decode_request b :
  body_fits b →
  ∃ ms, members (settings_json b) = Some ms ∧
    struct_members request_fields ms (mkSettingsRequest ∅ ∅) None = (request_of b, None).
Proof.
  destruct b as [p d v vr [[wc ww] wd] [cc cw] rt et ot]. unfold body_fits, body_values. simpl.
  intros Hall. repeat rewrite Forall_cons in Hall. destruct_and! Hall.
  eexists. split; [reflexivity|]. unfold request_fields.
  do 4 (decode_step; rewrite int_member_fits by done; cbn [fst snd]).
  decode_step. rewrite object_member_obj. unfold withdrawal_fields.
  do 3 (decode_step; rewrite int_member_fits by done; cbn [fst snd]). rewrite struct_members_nil; cbn [fst snd].
  decode_step. rewrite object_member_obj. unfold cancellation_fields.
  do 2 (decode_step; rewrite int_member_fits by done; cbn [fst snd]). rewrite struct_members_nil; cbn [fst snd].
  do 3 (decode_step; rewrite int_member_fits by done; cbn [fst snd]). reflexivity.
Qed.

Definition read_value (key : string) (f : FieldRef) (v : Z) : Z * list Field :=
  match f with DurationRef _ _ => read_seconds key (Some v) | CountRef _ _ => read_count key (Some v) end.

Lemma read_field_top r key f v : parent key = "" → sr_Ints r !! key = Some v → read_field r key f = read_value key f v.
Proof. intros Hp Hv. unfold read_field, read_value. rewrite Hp, bool_decide_true, Hv by done. by destruct f. Qed.

Lemma read_field_nested r key f v :
  parent key ∈ sr_Objects r → sr_Ints r !! key = Some v → read_field r key f = read_value key f v.
Proof.
  intros Hp Hv. unfold read_field, read_value. rewrite (bool_decide_true (parent key ∈ _)), orb_true_r, Hv by done.
  by destruct f.
Qed.

Lemma read_field_request b i key f v :
  settingFields !! i = Some (key, f) → body_values b !! i = Some v →
  read_field (request_of b) key f = read_value key f v.
Proof.
  destruct b as [p d va vr [[wc ww] wd] [cc cw] rt et ot].
  unfold settingFields, body_values, request_of. simpl.
  do 12 (destruct i as [|i]; [intros [= <- <-] [= <-];
    first [apply read_field_top; [reflexivity|by simplify_map_eq]
          |apply read_field_nested; [simpl; set_solver|by simplify_map_eq]]|simpl]).
  done.
Qed.

Lemma read_fields_other g fields r acc :
  (∀ kf, kf ∈ fields → ∀ v a, field_get g (field_set kf.2 v a) = field_get g a) →
  field_get g (read_fields fields r acc).1 = field_get g acc.
Proof.
  revert acc. induction fields as [|[key f] fields IH]; intros acc Hg; [done|]. cbn [read_fields fst snd].
  rewrite IH by (intros kf Hin; apply Hg; by right). apply (Hg (key, f)). left.
Qed.

(** Without errors, every field holds what was read for it. *)
Lemma read_fields_get fields r acc key f :
  fields_ok fields → (key, f) ∈ fields → (read_fields fields r acc).2 = [] →
  (read_field r key f).2 = [] ∧ field_get f (read_fields fields r acc).1 = (read_field r key f).1.
Proof.
  revert acc. induction fields as [|[key' f'] fields IH]; intros acc Hok Hin; [by apply elem_of_nil in Hin|].
  apply fields_ok_cons in Hok as (Hgs & Hind & Hok). cbn [read_fields fst snd]. intros [Hv Hrest]%app_eq_nil.
  apply elem_of_cons in Hin as [[= -> ->]|Hin]; [|by apply IH]. split; [done|].
  rewrite read_fields_other; [apply Hgs|]. intros kg Hg v a. destruct (Hind kg Hg) as [_ Hfr]. simpl in Hfr. apply Hfr.
Qed.

Lemma decodeSettings_fields b s :
  body_fits b → decodeSettings (Some (settings_json b)) = Ok s →
  ∀ i key f v, settingFields !! i = Some (key, f) → body_values b !! i = Some v →
    (read_value key f v).2 = [] ∧ field_get f s = (read_value key f v).1.
Proof.
  intros (ms & Hms & Hdec)%decode_request. unfold decodeSettings. cbn [mbind option_bind]. rewrite Hms, Hdec.
  destruct (read_fields settingFields (request_of b) zero_system_settings) as [s' fs] eqn:Hr. destruct fs; [|done].
  intros [= <-] i key f v Hi Hv. rewrite <- (read_field_request b i key f v Hi Hv).
  change s' with (s', @nil Field).1. rewrite <- Hr.
  apply read_fields_get; [apply settingFields_ok|by eapply list_elem_of_lookup_2|by rewrite Hr].
Qed.

(** A body whose numbers are all acceptable is decoded. *)
Lemma read_fields_total fields r acc :
  (∀ kf, kf ∈ fields → (read_field r kf.1 kf.2).2 = []) → (read_fields fields r acc).2 = [].
Proof.
  revert acc. induction fields as [|[key f] fields IH]; intros acc Hf; [done|]. cbn [read_fields fst snd].
  pose proof (Hf (key, f) ltac:(left)) as Hhd. cbn [fst snd] in Hhd. rewrite Hhd. apply IH. intros kf Hin. apply Hf. by right.
Qed.

Lemma decodeSettings_total b :
  body_fits b →
  (∀ i key f v, settingFields !! i = Some (key, f) → body_values b !! i = Some v → (read_value key f v).2 = []) →
  ∃ s, decodeSettings (Some (settings_json b)) = Ok s.
Proof.
  intros Hb Hall. destruct (decode_request _ Hb) as (ms & Hms & Hdec). unfold decodeSettings. cbn [mbind option_bind].
  rewrite Hms, Hdec. destruct (read_fields settingFields (request_of b) zero_system_settings) as [s' fs] eqn:Hr.
  assert (fs = []) as ->; [|by eexists]. change fs with (s', fs).2. rewrite <- Hr. apply read_fields_total.
  intros [key f] [i Hi]%list_elem_of_lookup. simpl.
  assert (∃ v, body_values b !! i = Some v) as [v Hv].
  { apply lookup_lt_Some in Hi. assert (length (body_values b) = length settingFields) as Hlen.
    { by destruct b as [? ? ? ? [[? ?] ?] [? ?] ? ? ?]. }
    rewrite <- Hlen in Hi. by apply lookup_lt_is_Some in Hi. }
  rewrite (read_field_request b i key f v Hi Hv). by eapply Hall.
Qed.

(** *** Theorems *)

(** A PUT of settings, whatever else happens in the database meanwhile, is
    decided by its body: a request that is not an administrator's or whose body
    is malformed changes nothing; settings that do not validate are refused as
    VALIDATION_FAILED, store nothing and are audited as rejected at most once;
    valid settings are answered 200 exactly when they were stored, all of them
    and in the transaction of their audit row, and the only other answer, an
    internal error, is a failed or lost write. *)
Theorem settings_request_decides rq db log reply db' :
  srun db (putSettings rq) log reply db' → put_outcome rq reply log.
Proof. intros Hrun. exact (swp_adequate _ _ _ _ _ _ Hrun (putSettings_spec rq)). Qed.

(** C21: The settings table is one register of settings.  Over every history of
    updates to whole seconds, seedings and other changes of the database, a
    read succeeds and gives the settings stored last, the defaults before that,
    and they are valid; an update is stored with its audit row or not at all. *)
Theorem settings_register db s :
  settings_history db s →
  GetSettings db = Ok (s, db) ∧ ValidateSettings s = Ok tt ∧
  ∀ clock s' by_ a db', storable s' → UpdateAudited clock s' by_ a db = Ok (tt, db') →
    GetSettings db' = Ok (s', db') ∧ db_audit (sd_ops db') = db_audit (sd_ops db) ++ [a].
Proof.
  intros Hh. destruct (settings_history_holds _ _ Hh) as (Ht & Hst & Hv).
  split; [by apply GetSettings_holds|]. split; [done|]. intros clock s' by_ a db' Hst' Hu.
  destruct (UpdateAudited_inv _ _ _ _ _ _ Hu) as (_ & Hv' & Ht' & Ha). split; [by apply GetSettings_holds|].
  by rewrite (InsertAudit_inv _ _ _ Ha).
Qed.

(** What a GET answers for a field. *)
Definition response_value (s : SystemSettings) (kf : string * FieldRef) : Z :=
  match kf.2 with DurationRef get _ => seconds_of (get s) | CountRef get _ => get s end.

Lemma response_values s : body_values (settingsResponse s) = response_value s <$> settingFields.
Proof. by destruct s as [[] [] [] ? ? ?]. Qed.

Lemma seconds_of_whole k : seconds_of (k * nsec) = k.
Proof. unfold seconds_of. by rewrite Z.quot_mul. Qed.

Lemma maxSettingSeconds_value : maxSettingSeconds = 9223372036.
Proof. reflexivity. Qed.

(** The counts the API accepts. *)
Definition counts_fit (s : SystemSettings) : Prop :=
  min_int32 ≤ wr_Count (ss_WithdrawalRestriction s) ≤ maxSettingCount ∧
  min_int32 ≤ cf_Count (ss_CancellationFlag s) ≤ maxSettingCount.

Lemma counts_fit_field s key get set :
  counts_fit s → (key, CountRef get set) ∈ settingFields → min_int32 ≤ get s ≤ maxSettingCount.
Proof.
  intros [Hw Hc] Hin. unfold settingFields in Hin.
  repeat (apply elem_of_cons in Hin as [Heq|Hin]; [first [discriminate Heq|injection Heq as -> -> ->; done]|]).
  by apply elem_of_nil in Hin.
Qed.

Lemma read_value_response s key f :
  storable s → counts_fit s → (key, f) ∈ settingFields →
  in_int64 (response_value s (key, f)) ∧ read_value key f (response_value s (key, f)) = (field_get f s, []).
Proof.
  intros Hst Hc Hin. specialize (Hst key f Hin). unfold response_value, read_value. cbn [snd].
  destruct f as [get set|get set]; simpl in *.
  - destruct Hst as (k & Hk & Hr). rewrite Hk, seconds_of_whole in *.
    unfold read_seconds. rewrite maxSettingSeconds_value. unfold in_int64, min_int64, max_int64, nsec in *.
    split; [lia|]. rewrite (proj2 (Z.ltb_ge _ _)) by lia. rewrite wrap64_id; [done|]. unfold in_int64, min_int64, max_int64. lia.
  - pose proof (counts_fit_field _ _ _ _ Hc Hin) as Hg. split; [done|]. unfold read_count.
    by rewrite (proj2 (Z.ltb_ge _ _)), (proj2 (Z.ltb_ge _ min_int32)) by lia.
Qed.

(** What GET /admin/settings answers is accepted by PUT and means the same
    settings: for settings of whole seconds and 32-bit counts, the JSON of the
    response is decoded to exactly these settings. *)
Theorem settings_body_roundtrip s :
  storable s → counts_fit s → decodeSettings (Some (settings_json (settingsResponse s))) = Ok s.
Proof.
  intros Hst Hc.
  assert (body_fits (settingsResponse s)) as Hb.
  { unfold body_fits. rewrite response_values. apply Forall_fmap, Forall_forall. intros [key f] Hin.
    by apply read_value_response. }
  assert (∀ i key f v, settingFields !! i = Some (key, f) → body_values (settingsResponse s) !! i = Some v →
            read_value key f v = (field_get f s, [])) as Hread.
  { intros i key f v Hi. rewrite response_values, list_lookup_fmap, Hi. intros [= <-].
    apply read_value_response; [done..|]. by eapply list_elem_of_lookup_2. }
  destruct (decodeSettings_total _ Hb) as [t Ht].
  { intros i key f v Hi Hv. by rewrite (Hread i key f v Hi Hv). }
  rewrite Ht. f_equal. apply settings_ext. intros key f [i Hi]%list_elem_of_lookup.
  assert (∃ v, body_values (settingsResponse s) !! i = Some v) as [v Hv].
  { rewrite response_values, list_lookup_fmap, Hi. by eexists. }
  destruct (decodeSettings_fields _ _ Hb Ht i key f v Hi Hv) as [_ ->]. by rewrite (Hread i key f v Hi Hv).
Qed.

(** C22: The numbers of an accepted body and the settings stored for it.  A
    count is stored as it is and fits 32 bits; a duration is at most
    [maxSettingSeconds] and is stored as the [int64] product with a second,
    which is exact down to [- maxSettingSeconds] only: no lower bound is
    checked, so a negative number of seconds may be stored as a positive
    duration, and validation accepts it. *)
Theorem settings_seconds :
  (∀ b s i key f v, body_fits b → decodeSettings (Some (settings_json b)) = Ok s →
    settingFields !! i = Some (key, f) → body_values b !! i = Some v →
    match f with
    | DurationRef get _ => v ≤ maxSettingSeconds ∧ get s = wrap64 (v * nsec) ∧
        (- maxSettingSeconds ≤ v → get s = v * nsec)
    | CountRef get _ => min_int32 ≤ v ≤ maxSettingCount ∧ get s = v
    end) ∧
  ∃ b s, body_fits b ∧ sb_PickupAfter b = -18446744073 ∧ decodeSettings (Some (settings_json b)) = Ok s ∧
    ValidateSettings s = Ok tt ∧ ds_PickupAfter (ss_Deadlines s) = 709551616.
Proof.
  split.
  - intros b s i key f v Hb Hd Hi Hv. destruct (decodeSettings_fields _ _ Hb Hd i key f v Hi Hv) as [He Hg].
    destruct f as [get set|get set]; simpl in *; unfold read_seconds, read_count in *.
    + rewrite maxSettingSeconds_value in *. destruct (Z.ltb_spec 9223372036 v) as [?|Hle]; [done|]. split_and!; [lia|done|]. intros Hlo. rewrite Hg. simpl.
      apply wrap64_id. unfold in_int64, min_int64, max_int64, nsec. lia.
    + destruct (_ || _) eqn:Hr; [done|]. bool_props. done.
  - exists (mkSettingsBody (-18446744073) 7200 1800 300 (3, 900, 900) (20, 3600) 300 300 600).
    eexists. split_and!; [apply body_fits_check; vm_compute; reflexivity|done|vm_compute; reflexivity..].
Qed.

Module SettingsScenario.

(** An administrator restricts couriers after two withdrawals in ten minutes. *)
Definition strict : SystemSettings :=
  mkSystemSettings DefaultDeadlineSettings (mkWithdrawalRestriction 2 (600 * nsec) (600 * nsec))
    (mkCancellationFlag 20 hour) (300 * nsec) (300 * nsec) (600 * nsec).

Definition before : SDB := mkSDB ∅ empty_odb.
Definition ada_puts : ARequest :=
  mkARequest (Some "ada") "" (Some (settings_json (settingsResponse strict))) (mkQuery [] None).
Definition played : list sown * AReply * SDB := settings_play 1 before (putSettings ada_puts).

Lemma strict_storable : storable strict.
Proof. apply storable_check. vm_compute. reflexivity. Qed.

Lemma played_run : srun before (putSettings ada_puts) played.1.1 played.1.2 played.2.
Proof. apply (settings_play_run 1). unfold played. by destruct (settings_play 1 before (putSettings ada_puts)) as [[? ?] ?]. Qed.

Definition row : AuditRow :=
  settings_audit "ada" "changed: withdrawalRestriction.count, withdrawalRestriction.window, withdrawalRestriction.duration"
    AuditSucceeded.

End SettingsScenario.

Lemma settings_request_decides_witness :
  ap_Status SettingsScenario.played.1.2 = 200 ∧
  put_outcome SettingsScenario.ada_puts SettingsScenario.played.1.2 SettingsScenario.played.1.1.
Proof.
  split; [vm_compute; reflexivity|].
  apply (settings_request_decides SettingsScenario.ada_puts SettingsScenario.before _ _ SettingsScenario.played.2).
  apply SettingsScenario.played_run.
Defined.

Lemma settings_register_witness :
  SettingsScenario.played.1.1 = [WSettings SettingsScenario.strict "ada" SettingsScenario.row] ∧
  GetSettings SettingsScenario.played.2 = Ok (SettingsScenario.strict, SettingsScenario.played.2).
Proof.
  split; [vm_compute; reflexivity|]. apply (settings_register SettingsScenario.played.2 SettingsScenario.strict).
  apply (sh_update 1 DefaultSystemSettings _ "ada" SettingsScenario.row SettingsScenario.before).
  - apply sh_empty.
  - apply SettingsScenario.strict_storable.
  - vm_compute. reflexivity.
Defined.

Lemma settings_body_roundtrip_witness :
  decodeSettings (Some (settings_json (settingsResponse SettingsScenario.strict))) = Ok SettingsScenario.strict.
Proof.
  apply (settings_body_roundtrip SettingsScenario.strict).
  - apply SettingsScenario.strict_storable.
  - vm_compute. repeat split; congruence.
Defined.

Lemma settings_seconds_witness :
  ds_PickupAfter (ss_Deadlines SettingsScenario.strict) = wrap64 (7200 * nsec).
Proof.
  assert (body_fits (settingsResponse SettingsScenario.strict)) as Hb.
  { apply body_fits_check. vm_compute. reflexivity. }
  assert (decodeSettings (Some (settings_json (settingsResponse SettingsScenario.strict))) = Ok SettingsScenario.strict) as Hd
    by (vm_compute; reflexivity).
  destruct (proj1 settings_seconds _ _ 0%nat "pickupAfter" _ 7200 Hb Hd eq_refl eq_refl) as (_ & Hs & _). exact Hs.
Defined.
