(* ===== verification/Scheduler.v ===== *)
(** * order-service: the scheduler

    [internal/scheduler]: the deadline jobs, the decision they make on a
    locked errand, one batch and the drain loop that runs batches while they
    come back full; the two reminder jobs, as programs over opsrepo, the
    settings and the clock.  The clock, the server's clock, the rows other
    transactions have locked and the cancellation of the context are read from
    a list of [Tick]s, one per iteration.  Counters, logs and the ticker that
    calls the loop are left out; nothing here panics. *)

From S2P Require Import Prelude Proc GoText Json GoTime Errand Settings ErrandState ErrandJson ErrandStore Fence OpsRepo ErrandHttp.

(** The zero [EventInput]. *)
Definition zero_settings : DeadlineSettings := mkDeadlineSettings 0 0 0 0.
Definition zero_input : EventInput := mkEventInput None "" false false zero_settings "" false.

(** The deadline jobs [New] registers. *)
Definition deadline_jobs : list (DueKind * Event) :=
  [ (AcceptanceExpiry, EventAcceptanceDeadlinePassed);
    (DuePickup, EventPickupDeadlinePassed);
    (DueDelivery, EventDeliveryDeadlinePassed);
    (VerificationLapse, EventVerificationLapsed) ].

Definition DefaultBatchSize : Z := 100.

(** [withDefaults], the batch size. *)
Definition batch_size (configured : Z) : Z := if configured <=? 0 then DefaultBatchSize else configured.

Record BatchResult := mkBatchResult { Seen : Z; Applied : Z }.

Record Tick := mkTick {
  tk_cancelled : bool;        (* ctx.Err() != nil *)
  tk_now : Z;                 (* the service's clock *)
  tk_clock : Z;               (* the server's clock *)
  tk_locked : string → bool;  (* rows locked by others *)
}.

Inductive DrainEnd :=
| Drained                        (* the last batch was not full, or applied nothing *)
| DrainCancelled
| BatchFailed (f : Failure)
| StillFull.                     (* the ticks ran out *)

Section scheduler.
Context `{Postgres}.

(** A skipped errand does not abort the batch. *)
Definition sched_decide (kind : DueKind) (ev : Event) (now : Z) (e : Errand) : option Transition :=
  if negb (Due kind e now) then None
  else match Next e ev SystemActor zero_input now with
       | Ok t => Some t
       | Err _ => None
       end.

(** [decide] is called once for every claimed errand and never fails. *)
Definition runDeadline (limit : Z) (kind : DueKind) (ev : Event) (tick : Tick) : Op BatchResult :=
  λ db,
    match ClaimDue (tk_clock tick) kind (tk_locked tick) (tk_now tick) limit
            (λ e, Ok (sched_decide kind ev (tk_now tick) e)) db with
    | Err f => Err f
    | Ok (applied, db') =>
        let seen := claim_query kind (tk_locked tick) (tk_now tick) (rowLimit limit) db in
        Ok (mkBatchResult (Z.of_nat (length seen)) applied, db')
    end.

Fixpoint drain (limit : Z) (kind : DueKind) (ev : Event) (ticks : list Tick) (db : ODB) :
    DrainEnd * list Tick * ODB :=
  match ticks with
  | [] => (StillFull, [], db)
  | tick :: ticks' =>
      if tk_cancelled tick then (DrainCancelled, ticks, db)
      else match runDeadline limit kind ev tick db with
           | Err f => (BatchFailed f, ticks, db)
           | Ok (res, db') =>
               if (Seen res <? limit) || (Applied res =? 0) then (Drained, ticks, db')
               else drain limit kind ev ticks' db'
           end
  end.

End scheduler.

(** [reminder]: the event and the operation of the key follow from the kind.
    [rm_lead] is how far ahead of the deadline to remind; it has the settings
    where [rm_needsSettings] is set. *)
Record reminder := mkReminder {
  rm_kind : ReminderKind; rm_lead : option SystemSettings → Z; rm_needsSettings : bool }.

Definition verificationReminder : reminder :=
  mkReminder ReminderVerification
    (λ s, match s with
          | Some s => ds_VerificationAfter (ss_Deadlines s) - ds_VerificationReminderAfter (ss_Deadlines s)
          | None => 0
          end) true.

Definition pickupReminder (lead : Z) : reminder := mkReminder ReminderPickup (λ _, lead) false.

(** [addReminderJob]: the job's batch size. *)
Definition reminder_limit (batchSize : Z) : Z := Z.min batchSize OpsRepo.MaxPageSize.

(** The payload of a candidate's reminder. *)
Definition reminder_data (now : Z) (c : ReminderCandidate) : ReminderData :=
  mkReminderData (rc_ErrandID c) (rc_Version c) (rc_Status c) (rc_RequesterID c) (rc_CourierID c) (rc_Deadline c) now.

Fixpoint raise_all (k : ReminderKind) (now : Z) (candidates : list ReminderCandidate) (r : BatchResult) :
    hproc (res Failure BatchResult) :=
  match candidates with
  | [] => PRet (Ok r)
  | c :: candidates' =>
      await inserted := perform (HRemind (reminder_row k (reminder_data now c)) (rc_Status c) (rc_Version c)) in
      match inserted with
      | Err err => PRet (Err err)
      | Ok false => raise_all k now candidates' r
      | Ok true => raise_all k now candidates' (mkBatchResult (Seen r) (Applied r + 1))
      end
  end.

(** From the clock on. *)
Definition remind_now (limit : Z) (r : reminder) (settings : option SystemSettings) : hproc (res Failure BatchResult) :=
  await now := perform HNow in
  await found := perform (HReminderCandidates (rm_kind r) now (now + rm_lead r settings) limit) in
  match found with
  | Err err => PRet (Err err)
  | Ok candidates => raise_all (rm_kind r) now candidates (mkBatchResult (Z.of_nat (length candidates)) 0)
  end.

Definition runReminder (limit : Z) (r : reminder) : hproc (res Failure BatchResult) :=
  if rm_needsSettings r then
    await s := perform HSettings in
    match s with
    | Err err => PRet (Err err)
    | Ok settings => remind_now limit r (Some settings)
    end
  else remind_now limit r None.
