(* ===== verification/SchedulerProps.v ===== *)
(** * order-service: the deadline jobs make progress

    A batch moves every errand it claims, so the drain loop ends after at most
    one batch per waiting errand and leaves nothing due behind. *)

From S2P Require Import Prelude GoText Json GoTime Errand ErrandState ErrandJson ErrandInv ErrandProps ErrandStore StoreInv StoreSafe StoreSystem StoreErrors StoreProps Scheduler.

Section batches.
Context `{Hpg : Postgres, Hpgok : !PostgresOk}.

(** ** The deadline jobs *)

(** The status a job takes errands out of. *)
Definition waiting_status (k : DueKind) : Status :=
  match k with
  | AcceptanceExpiry => StatusOpen
  | DuePickup => StatusAssigned
  | DueDelivery => StatusPickedUp
  | VerificationLapse => StatusDelivered
  | _ => StatusNone
  end.

Lemma deadline_next k ev e now :
  (k, ev) ∈ deadline_jobs → Due k e now = true →
  e_Status e = waiting_status k ∧
  ∃ t, Next e ev SystemActor zero_input now = Ok t ∧ t_To t ≠ waiting_status k.
Proof.
  intros Hjob Hdue. unfold Due, DueAt in Hdue.
  assert (e_Status e = waiting_status k) as Hst.
  { repeat (apply elem_of_cons in Hjob as [[= -> ->]|Hjob]); [..|by apply elem_of_nil in Hjob].
    all: by case_bool_decide. }
  split; [done|].
  enough (∃ to, (∃ t, Next e ev SystemActor zero_input now = Ok t ∧ t_Actor t = SystemActor ∧ t_To t = to) ∧
                to ≠ waiting_status k) as (to & (t & ? & _ & <-) & ?) by by exists t.
  repeat (apply elem_of_cons in Hjob as [[= -> ->]|Hjob]); [..|by apply elem_of_nil in Hjob].
  all: simpl in Hst; rewrite bool_decide_true in Hdue by done.
  2: destruct (e_PickupDeadline e) as [d|] eqn:Hd; [|done]; destruct (Passed (d_AcceptanceDeadline (e_Details e)) now) eqn:Hacc.
  4: destruct (e_DeliveryDeadline e) as [d|] eqn:Hd; [|done].
  5: destruct (e_VerificationDeadline e) as [d|] eqn:Hd; [|done].
  all: apply Z.leb_le, Passed_true in Hdue.
  all: eexists; split;
    [eapply Next_moves; [by rewrite Hst; right|by rewrite Hst|rewrite Hst; rules_for|reflexivity|..]|];
    [cbn [chooseRule choose first_failing guardHolds r_Guards]; rewrite ?Hd, ?Hdue, ?Hacc; reflexivity
    |done|reflexivity|reflexivity|done].
Qed.

(** What a batch does: every claimed errand leaves its status. *)
Lemma runDeadline_batch k ev limit tick db :
  (k, ev) ∈ deadline_jobs → store_ok db → 1 ≤ limit →
  let claimed := claim_query k (tk_locked tick) (tk_now tick) (rowLimit limit) db in
  match runDeadline limit k ev tick db with
  | Ok (res, db') =>
      store_ok db' ∧ Seen res = Z.of_nat (length claimed) ∧ Applied res = Seen res ∧
      (∀ row, row ∈ claimed → db_errands db !! er_ID row = Some row ∧ er_Status row = waiting_status k ∧
         ∃ row', db_errands db' !! er_ID row = Some row' ∧ er_Status row' ≠ waiting_status k) ∧
      ∀ id, id ∉ er_ID <$> claimed → db_errands db' !! id = db_errands db !! id
  | Err f => expected_failure f
  end.
Proof.
  intros Hjob Hok Hlim claimed.
  assert (∀ e, Due k e (tk_now tick) = true → ∃ t, sched_decide k ev (tk_now tick) e = Some t ∧
    e_Status e = waiting_status k ∧ t_To t ≠ waiting_status k ∧ decision e t) as Hdec.
  { intros e Hdue. destruct (deadline_next _ _ _ _ Hjob Hdue) as (Hs & t & Hnext & Hto).
    exists t. unfold sched_decide. rewrite Hdue, Hnext. split_and!; [done..|]. (eapply decision_plain; [|done]; done). }
  pose proof (ClaimDue_spec (tk_clock tick) k (tk_locked tick) (tk_now tick) limit
    (λ e, Ok (sched_decide k ev (tk_now tick) e)) (sched_decide k ev (tk_now tick)) db Hok Hlim) as Hspec.
  unfold runDeadline. destruct (ClaimDue _ _ _ _ _ _ db) as [[n db']|f]; [|apply Hspec];
    [|intros e _ (t & Ht & _ & _ & Hd)%Hdec; split; [done|]; congruence].
  destruct Hspec as (es & Hids & -> & Hok' & _ & Hmoved & Hother).
  { intros e _ (t & Ht & _ & _ & Hd)%Hdec. split; [done|]. congruence. }
  fold claimed in Hids |- *.
  assert (length (omap (sched_decide k ev (tk_now tick)) es) = length claimed) as Hlen.
  { rewrite <- (length_fmap er_ID), Hids, length_fmap. clear -Hmoved Hdec. induction es as [|e es IH]; [done|]. simpl.
    destruct (Hmoved e) as (_ & Hdue & _); [by left|]. destruct (Hdec e Hdue) as (t & -> & _). simpl. f_equal.
    apply IH. intros e' He'. apply Hmoved. by right. }
  simpl. rewrite Hlen. split_and!; [done|done|done| |by rewrite Hids].
  intros row Hrow. assert (er_ID row ∈ e_ID <$> es) as (e & Hid & He)%list_elem_of_fmap
    by (rewrite <- Hids; by apply list_elem_of_fmap_2).
  pose proof Hrow as (id & Hl & _)%claim_query_stored. destruct (so_rows _ Hok _ _ Hl) as (e' & Hro).
  rewrite <- (ro_key _ _ _ Hro) in Hl.
  destruct (Hmoved e He) as ((row2 & Hl2 & Hro2) & Hdue & Hm). destruct (Hdec e Hdue) as (t & Ht & Hs & Hto & _).
  rewrite Ht in Hm. rewrite Hid, Hl2 in Hl. simplify_eq.
  split_and!; [by rewrite Hid|by destruct (errandFromRow_frame _ _ (ro_read _ _ _ Hro2)) as (_ & <- & _)|].
  destruct Hm as [(row' & Hl' & Hro') _]. exists row'. rewrite Hid. split; [done|].
  destruct (errandFromRow_frame _ _ (ro_read _ _ _ Hro')) as (_ & <- & _). done.
Qed.

(** ** Draining *)

(** The errands in the job's status: what is left to do at most. *)
Definition waiting (k : DueKind) (db : ODB) : gmap string ErrandRow :=
  filter (λ kr, er_Status kr.2 = waiting_status k) (db_errands db).

Lemma batch_measure k ev limit tick db res db' :
  (k, ev) ∈ deadline_jobs → store_ok db → 1 ≤ limit → runDeadline limit k ev tick db = Ok (res, db') →
  Applied res ≠ 0 → (size (waiting k db') < size (waiting k db))%nat.
Proof.
  intros Hjob Hok Hlim Hrun Hne. pose proof (runDeadline_batch k ev limit tick db Hjob Hok Hlim) as Hb.
  rewrite Hrun in Hb. simpl in Hb. destruct Hb as (_ & Hseen & Happ & Hin & Hout).
  apply map_subset_size. set (claimed := claim_query _ _ _ _ _) in *.
  assert (waiting k db' ⊆ waiting k db) as Hsub.
  { apply map_subseteq_spec. intros id row [Hl Hs]%map_lookup_filter_Some. simpl in Hs.
    apply map_lookup_filter_Some. split; [|done].
    destruct (decide (id ∈ er_ID <$> claimed)) as [Hid|Hid]; [|by rewrite <- Hout].
    apply list_elem_of_fmap in Hid as (row0 & -> & Hrow0).
    destruct (Hin row0 Hrow0) as (_ & _ & row' & Hl' & Hs'). by simplify_eq. }
  split; [done|]. intros Hrev. destruct claimed as [|row0 rows] eqn:Hc; [simpl in Hseen; lia|].
  destruct (Hin row0) as (Hl0 & Hs0 & row' & Hl' & Hs'); [by left|].
  assert (waiting k db !! er_ID row0 = Some row0) as Hw by by apply map_lookup_filter_Some.
  eapply lookup_weaken in Hw; [|exact Hrev]. apply map_lookup_filter_Some in Hw as [Hw _]. congruence.
Qed.

(** A batch that was not full leaves nothing due. *)
Lemma short_batch_clears k ev limit tick db res db' id e :
  (k, ev) ∈ deadline_jobs → store_ok db → 1 ≤ limit ≤ max_int32 →
  runDeadline limit k ev tick db = Ok (res, db') → Seen res < limit →
  stored_as db' id e → tk_locked tick id = false → Due k e (tk_now tick) = false.
Proof.
  intros Hjob Hok Hlim Hrun Hshort (row & Hl & Hro) Hfree.
  pose proof (runDeadline_batch k ev limit tick db Hjob Hok ltac:(lia)) as Hb.
  rewrite Hrun in Hb. simpl in Hb. destruct Hb as (_ & Hseen & _ & Hin & Hout).
  destruct (Due k e (tk_now tick)) eqn:Hdue; [exfalso|done].
  destruct (deadline_next _ _ _ _ Hjob Hdue) as (Hs & _).
  destruct (errandFromRow_frame _ _ (ro_read _ _ _ Hro)) as (_ & Hst & _).
  destruct (decide (id ∈ er_ID <$> claim_query k (tk_locked tick) (tk_now tick) (rowLimit limit) db)) as [Hid|Hid].
  { apply list_elem_of_fmap in Hid as (row0 & -> & Hrow0).
    destruct (Hin row0 Hrow0) as (_ & _ & row' & Hl' & Hs'). simplify_eq. congruence. }
  rewrite Hout in Hl by done. apply Hid. eapply short_claim_all; [done|done|lia|by exists row|done|done].
Qed.

(** C35: The scheduler's drain loop ends and does its work: run often enough to
    take one batch per errand, it always stops by itself, and when it stops
    without an error no errand that other transactions had not locked is still
    past the deadline of the job.  A batch fails only because a document cannot
    be encoded or a column cannot hold a value, and then changes nothing. *)
Theorem drain_clears k ev limit ticks db seen :
  reachable db seen → (k, ev) ∈ deadline_jobs → 1 ≤ limit ≤ max_int32 →
  (size (db_errands db) < length ticks)%nat →
  match drain limit k ev ticks db with
  | (Drained, rest, db') =>
      store_ok db' ∧ ∃ tick rest', rest = tick :: rest' ∧
        ∀ id e, stored_as db' id e → tk_locked tick id = false → Due k e (tk_now tick) = false
  | (DrainCancelled, _, db') => store_ok db'
  | (BatchFailed f, _, db') => store_ok db' ∧ expected_failure f
  | (StillFull, _, _) => False
  end.
Proof.
  intros Hr Hjob Hlim Hlen. destruct (store_reachable_ok _ _ Hr) as (Hok & _). clear Hr.
  assert (size (waiting k db) < length ticks)%nat as Hm.
  { eapply Nat.le_lt_trans; [|exact Hlen]. apply map_subseteq_size, map_filter_subseteq. }
  clear Hlen. revert db Hok Hm. induction ticks as [|tick ticks IH]; intros db Hok Hm; simpl in *; [lia|].
  destruct (tk_cancelled tick); [done|].
  pose proof (runDeadline_batch k ev limit tick db Hjob Hok ltac:(lia)) as Hb.
  destruct (runDeadline limit k ev tick db) as [[res db']|f] eqn:Hrun; [|done].
  destruct Hb as (Hok' & Hseen & Happ & _).
  destruct (Seen res <? limit) eqn:Hshort; simpl.
  { apply Z.ltb_lt in Hshort. split; [done|]. exists tick, ticks. split; [done|]. intros id e.
    exact (short_batch_clears k ev limit tick db res db' id e Hjob Hok Hlim Hrun Hshort). }
  apply Z.ltb_ge in Hshort. destruct (Applied res =? 0) eqn:Hz; [apply Z.eqb_eq in Hz; lia|].
  apply Z.eqb_neq in Hz. apply IH; [done|].
  pose proof (batch_measure k ev limit tick db res db' Hjob Hok ltac:(lia) Hrun Hz). lia.
Qed.

End batches.

(** ** Witness *)

Import StoreScenario.

(** One open errand, taken an hour later. *)
Definition late : Tick := mkTick false (61 * minute) 7 (λ _, false).

Lemma drain_clears_witness :
  match drain 1 AcceptanceExpiry EventAcceptanceDeadlinePassed [late; late] db2 with
  | (end_, _, db') => end_ = Drained ∧ er_Status <$> db_errands db' !! id1 = Some StatusExpired ∧ store_ok db'
  end.
Proof.
  pose proof (drain_clears AcceptanceExpiry EventAcceptanceDeadlinePassed 1 [late; late] db2 seen2 reach_db2) as H.
  assert (match drain 1 AcceptanceExpiry EventAcceptanceDeadlinePassed [late; late] db2 with
          | (end_, _, db') => end_ = Drained ∧ er_Status <$> db_errands db' !! id1 = Some StatusExpired end) as Hrun
    by (vm_compute; split; reflexivity).
  destruct (drain 1 AcceptanceExpiry EventAcceptanceDeadlinePassed [late; late] db2) as [[end_ rest] db'].
  destruct Hrun as [-> Hst]. destruct H as [Hok _]; [by left|vm_compute; by split|vm_compute; lia|].
  split; [reflexivity|]. split; [exact Hst|exact Hok].
Defined.
