(* ===== verification/RemindersProps.v ===== *)
(** * order-service: what the reminder jobs raise

    A reminder job runs while requests and other jobs change the store: what it
    writes is about an errand that is in the reminded state at that moment, and
    a run of its own reminds everybody who is due. *)

From S2P Require Import Prelude Proc Keyset GoText Json GoTime Errand Settings ErrandState ErrandJson ErrandInv ErrandStore Fence OpsRepo StoreInv StoreSafe StoreSystem StoreHistory ReminderRows StoreErrors StoreProps ErrandHttp HttpSystem HttpProps Scheduler.

Section reminders.
Context `{Hpg : Postgres, Hpgok : !PostgresOk, Hrow : RowIds, Hcol : Collation}.

(** ** What a run writes *)

(** A reminder of the job, raised at [now], about an errand it read. *)
Definition raised (kd : ReminderKind) (now : Z) (es : list Errand) (row : ReminderRow) : Prop :=
  ∃ e d, e ∈ es ∧ row = reminder_row kd d ∧ about_errand kd e d ∧ rd_At d = now.

Lemma about_candidate kd now e c : candidate_from kd e c → about_errand kd e (reminder_data now c).
Proof. intros (? & ? & ? & ? & ? & ? & ?). by split_and!. Qed.

Lemma raise_all_spec kd now cs es es0 k r :
  Forall2 (candidate_from kd) es cs → es ⊆ es0 → es0 ⊆ k_read k →
  hwp (raise_all kd now cs r) k (λ a k', ∃ rows, k_log k' = k_log k ++ (ORemind <$> rows) ∧
    Forall (raised kd now es0) rows ∧ (length rows ≤ length cs)%nat ∧
    match a with Ok b => Seen b = Seen r ∧ Applied b = Applied r + Z.of_nat (length rows) | Err _ => True end).
Proof.
  intros Hes. revert k r. induction Hes as [|e c es cs Hc _ IH]; intros k r Hsub Hk.
  - cbn. exists []. rewrite app_nil_r. split_and!; first [done|by constructor|simpl; lia].
  - cbn [raise_all pbind perform hwp]. pose proof (about_candidate kd now e c Hc) as Ha.
    destruct Hc as (Hst & Hid & Hv & Hcs & _).
    assert (e ∈ es0) as He by (apply Hsub; left). split.
    { exists e. split_and!; [by apply Hk|by exists kd, (reminder_data now c)|congruence..]. }
    assert (raised kd now es0 (reminder_row kd (reminder_data now c))) as Hr by by exists e, (reminder_data now c).
    assert (es ⊆ es0) as Hsub' by set_solver.
    intros [[]|err] k' Hl; cbn [learns] in Hl.
    + subst k'. eapply hwp_mono; [|by apply IH]. intros a k'. cbn [commits k_log]. intros (rows & Hlog & Hrows & Hlen & Ha').
      exists (reminder_row kd (reminder_data now c) :: rows). rewrite Hlog, <- app_assoc.
      split_and!; [done|by constructor|simpl; lia|]. destruct a as [b|]; [|done]. simpl in *. lia.
    + subst k'. eapply hwp_mono; [|by apply IH]. intros a k'. intros (rows & Hlog & Hrows & Hlen & Ha').
      exists rows. split_and!; [done..|simpl; lia|done].
    + cbn [hwp]. destruct Hl as [->| ->]; [exists []; rewrite app_nil_r|exists [reminder_row kd (reminder_data now c)]];
        (split_and!; [done|by repeat constructor|simpl; lia|done]).
Qed.

Lemma remind_now_spec limit r settings k :
  0 < limit ≤ OpsRepo.MaxPageSize → k_log k = [] →
  hwp (remind_now limit r settings) k (λ a k', ∃ rows now, k_log k' = ORemind <$> rows ∧
    Forall (raised (rm_kind r) now (k_read k')) rows ∧
    match a with
    | Ok b => Applied b = Z.of_nat (length rows) ∧ Applied b ≤ Seen b ≤ limit
    | Err _ => True
    end).
Proof.
  intros Hl Hk. unfold remind_now. cbn [pbind perform hwp]. split; [done|]. intros now k2 Hn. cbn [learns] in Hn. subst k2. cbn [allowed]. split; [done|].
  intros [cs|err] k1 Hc; cbn [learns] in Hc; [|subst k1; exists [], now; by split_and!].
  destruct Hc as (es & -> & Hes & Hlen). cbn [pbind].
  eapply hwp_mono; [|apply hwp_keeps, (raise_all_spec _ _ _ es es); [done|done|]].
  - intros a k' [(rows & Hlog & Hrows & Hn & Ha) [Hmore _]]. exists rows, now. simpl in Hlog, Hmore. rewrite Hk in Hlog.
    split; [done|]. split.
    + eapply Forall_impl; [exact Hrows|]. intros row (e & d & He & ? & ? & ?). exists e, d. split_and!; [|done..].
      apply Hmore, elem_of_app. by left.
    + destruct a as [b|]; [|done]. simpl in Ha. destruct Ha as [-> ->]. lia.
  - intros e He. simpl. apply elem_of_app. by left.
Qed.

Lemma runReminder_spec limit r :
  0 < limit ≤ OpsRepo.MaxPageSize →
  hwp (runReminder limit r) nothing (λ a k', ∃ rows now, k_log k' = ORemind <$> rows ∧
    Forall (raised (rm_kind r) now (k_read k')) rows ∧
    match a with
    | Ok b => Applied b = Z.of_nat (length rows) ∧ Applied b ≤ Seen b ≤ limit
    | Err _ => True
    end).
Proof.
  intros Hl. unfold runReminder. destruct (rm_needsSettings r); [|by apply remind_now_spec].
  cbn [pbind perform hwp]. split; [done|]. intros [s|err] k Hn; cbn [learns] in Hn; subst k; [by apply remind_now_spec|].
  cbn [hwp]. exists [], 0. by split_and!.
Qed.

Lemma reminder_key_of kd d : 0 < rd_ErrandVersion d →
  rm_IdempotencyKey (reminder_row kd d) = reminder_key kd (rd_ErrandID d) (rd_ErrandVersion d).
Proof.
  intros Hv. cbn [reminder_row rm_IdempotencyKey]. unfold IdempotencyKey, reminder_key.
  rewrite (proj2 (Z.ltb_lt _ _) Hv). by rewrite !sapp_assoc.
Qed.

Lemma reminder_row_inj kd d kd' d' : reminder_row kd d = reminder_row kd' d' → kd = kd' ∧ d = d'.
Proof. intros [= Hk _ _ ->]. split; [|done]. by destruct kd, kd'. Qed.

(** Inserting a reminder for a row in its state. *)
Lemma InsertCurrentReminder_true clock row status version db db' :
  InsertCurrentReminder clock row status version db = Ok (true, db') →
  db_errands db' = db_errands db ∧
  (∀ o r, db_outbox db !! o = Some r → or_IdempotencyKey r ≠ rm_IdempotencyKey row) ∧
  ∃ id payload, db_outbox db' = <[db_next_outbox db :=
      new_orow clock (db_next_outbox db) (rm_Kind row) (rm_IdempotencyKey row) id payload]> (db_outbox db).
Proof.
  intros (id & payload & _ & [[? _]|(r & _ & _ & _ & _ & Hi)])%InsertCurrentReminder_inv; [done|].
  apply InsertOutbox_inv in Hi as (Hfree & _ & ->). split_and!; [done|done|]. by exists id, payload.
Qed.
(** *** The writes of a run *)

(** [wrote w db0 db1 db seen p log a db' seen']: in a run of [p] from [db] to
    [db'], the program's call that committed [w] found [db0] and left [db1]. *)
Inductive wrote {A} (w : own) (db0 db1 : ODB) :
    ODB → list Errand → hproc A → list own → A → ODB → list Errand → Prop :=
| wrote_now seen {X} (c : heff X) k x log a db' seen' :
    own_of c = Some w → answers db0 seen c x (Some db1) →
    hrun db1 (current db1 ++ seen) (k x) log a db' seen' →
    wrote w db0 db1 db0 seen (PVis c k) (w :: log) a db' seen'
| wrote_after_other db seen db2 p log a db' seen' :
    store_step seen db db2 → wrote w db0 db1 db2 (current db2 ++ seen) p log a db' seen' →
    wrote w db0 db1 db seen p log a db' seen'
| wrote_after_read db seen {X} (c : heff X) k x log a db' seen' :
    answers db seen c x None → wrote w db0 db1 db seen (k x) log a db' seen' →
    wrote w db0 db1 db seen (PVis c k) log a db' seen'
| wrote_after_write db seen {X} (c : heff X) k x db2 log a db' seen' :
    answers db seen c x (Some db2) → wrote w db0 db1 db2 (current db2 ++ seen) (k x) log a db' seen' →
    wrote w db0 db1 db seen (PVis c k) (log_of c log) a db' seen'.

Lemma wrote_run {A} w db0 db1 db seen (p : hproc A) log a db' seen' :
  wrote w db0 db1 db seen p log a db' seen' → hrun db seen p log a db' seen' ∧ w ∈ log.
Proof.
  induction 1 as [seen X c k x log a db' seen' Ho Hans Hrun|db seen db2 p log a db' seen' Hs _ [IH Hin]
    |db seen X c k x log a db' seen' Hans _ [IH Hin]|db seen X c k x db2 log a db' seen' Hans _ [IH Hin]].
  - split; [|by left]. replace (w :: log) with (log_of c log) by (unfold log_of; by rewrite Ho). by eapply run_write.
  - split; [by eapply run_other|done].
  - split; [by eapply run_read|done].
  - split; [by eapply run_write|]. unfold log_of. destruct (own_of c); [by right|done].
Qed.

(** Every logged write happened somewhere in the run. *)
Lemma run_wrote {A} w db seen (p : hproc A) log a db' seen' :
  hrun db seen p log a db' seen' → w ∈ log → ∃ db0 db1, wrote w db0 db1 db seen p log a db' seen'.
Proof.
  induction 1 as [|db seen db2 p log a db' seen' Hs Hrun IH|db seen X c k x log a db' seen' Hans Hrun IH
    |db seen X c k x db2 log a db' seen' Hans Hrun IH]; intros Hin.
  - by apply elem_of_nil in Hin.
  - destruct (IH Hin) as (db0 & db1 & Hw). exists db0, db1. by eapply wrote_after_other.
  - destruct (IH Hin) as (db0 & db1 & Hw). exists db0, db1. by eapply wrote_after_read.
  - assert (w ∈ log → ∃ db0 db1, wrote w db0 db1 db seen (PVis c k) (log_of c log) a db' seen') as Hlater.
    { intros (db0 & db1 & Hw)%IH. exists db0, db1. by eapply wrote_after_write. }
    unfold log_of in *. destruct (own_of c) as [w0|] eqn:Ho; [|by apply Hlater].
    apply elem_of_cons in Hin as [<-|Hin]; [|by apply Hlater].
    exists db, db2. by eapply wrote_now.
Qed.

(** At its write a program with a precondition was allowed to make it. *)
Lemma wrote_allowed {A} w db0 db1 db seen (p : hproc A) log a db' seen' k Q :
  wrote w db0 db1 db seen p log a db' seen' → reachable db seen → truthful db seen k → hwp p k Q →
  ∃ seen0 k0 X (c : heff X) x, reachable db0 seen0 ∧ truthful db0 seen0 k0 ∧ allowed k0 c ∧
    own_of c = Some w ∧ answers db0 seen0 c x (Some db1).
Proof.
  intros Hw. revert k. induction Hw as [seen X c kont x log a db' seen' Ho Hans Hrun|db seen db2 p log a db' seen' Hs _ IH
    |db seen X c kont x log a db' seen' Hans _ IH|db seen X c kont x db2 log a db' seen' Hans _ IH]; intros k Hr Ht Hwp.
  - destruct Hwp as [Hal _]. by exists seen, k, X, c, x.
  - eapply IH; [by eapply reach_step|by eapply truthful_step|done].
  - destruct Hwp as [Hal Hk]. destruct (read_learns _ _ _ _ _ Hr Ht Hal Hans) as (k1 & Hl & Ht1 & _).
    eapply IH; [done|done|by apply Hk].
  - destruct Hwp as [Hal Hk]. destruct (write_learns _ _ _ _ _ _ Hr Ht Hal Hans) as (Hstep & k1 & Hl & Ht1 & _).
    eapply IH; [by eapply reach_step|done|by apply Hk].
Qed.

(** *** Theorem *)

(** The write of a reminder that takes [db0] to [db1]: the errand [e] it is
    about is stored in [db0], in the reminded state and version, without a
    reminder for it; [db1] has the reminder and the same errands. *)
Definition current_reminder (kd : ReminderKind) (w : own) (db0 db1 : ODB) : Prop :=
  ∃ d e, w = ORemind (reminder_row kd d) ∧ about_errand kd e d ∧ stored_as db0 (e_ID e) e ∧
    ¬ reminded kd e db0 ∧ reminded kd e db1 ∧ db_errands db1 = db_errands db0.

Lemma inserted_current clock kd d e db0 db1 :
  about_errand kd e d → stored_as db0 (e_ID e) e →
  InsertCurrentReminder clock (reminder_row kd d) (e_Status e) (e_Version e) db0 = Ok (true, db1) →
  current_reminder kd (ORemind (reminder_row kd d)) db0 db1.
Proof.
  intros Ha Hst Hi. pose proof Ha as (Hstat & Hid & Hv & _).
  assert (0 < rd_ErrandVersion d) as Hpos.
  { destruct Hst as (row & _ & Hro). pose proof (eo_version _ (ro_ok _ _ _ Hro)) as Hver. rewrite Hstat in Hver.
    rewrite Hv. destruct kd; simpl in Hver; lia. }
  apply InsertCurrentReminder_true in Hi as (Herr & Hfree & id & payload & Hout).
  rewrite (reminder_key_of kd d Hpos), Hid, Hv in Hfree, Hout.
  exists d, e. split_and!; try done.
  - intros (o & r & Hl & Hk). by apply (Hfree o r).
  - exists (db_next_outbox db0). eexists. split; [rewrite Hout; apply lookup_insert_eq|done].
Qed.

Lemma wrote_current limit r db seen w db0 db1 log a db' seen' :
  0 < limit ≤ OpsRepo.MaxPageSize → reachable db seen →
  wrote w db0 db1 db seen (runReminder limit r) log a db' seen' → current_reminder (rm_kind r) w db0 db1.
Proof.
  intros Hl Hr Hw. destruct (wrote_run _ _ _ _ _ _ _ _ _ _ Hw) as [Hrun Hin].
  destruct (route_run _ _ _ _ _ _ _ _ Hr Hrun (runReminder_spec limit r Hl)) as (k & (rows & now & Hlog & Hrows & _) & Hk & _).
  rewrite Hk in Hlog. rewrite Hlog in Hin. apply list_elem_of_fmap in Hin as (row & -> & Hin).
  destruct (proj1 (Forall_forall _ _) Hrows row Hin) as (e' & d & _ & -> & _).
  destruct (wrote_allowed _ _ _ _ _ _ _ _ _ _ _ _ Hw Hr (nothing_truthful _ _) (runReminder_spec limit r Hl))
    as (seen0 & k0 & X & c & x & Hr0 & (Hread & _) & Hal & Ho & Hans).
  destruct c as [| |id|errandID courierID since|t|e t|rj|q|which q|v|s n| | |vs ttl| |after lim|f|since least lim|since least lim|au|kd now' before lim|row status version];
    try discriminate Ho. injection Ho as ->.
  destruct Hans as [(clock & db2 & Hi & [= <-] & _)|[? _]]; [|done].
  destruct Hal as (e & He & Hrm & -> & ->).
  destruct (remind_stored _ _ _ _ _ _ Hr0 (Hread _ He) Hrm Hi) as [_ Hst].
  destruct Hrm as (kd & d' & Heq & Ha). apply reminder_row_inj in Heq as [<- <-]. by eapply inserted_current.
Qed.

(** C23: Whatever requests, deadlines and other jobs do while a reminder job
    runs, each call of the run that commits something is the insertion of a
    reminder for an errand that the store has, at that call, in the reminded
    state and version, with the requester, courier and deadline of the reminder
    and without a reminder for them; after the call the reminder is there and
    no errand has changed.  The log of the run is exactly these writes, the
    batch counts them, and in the end no errand version has two reminders of a
    kind. *)
Theorem reminders_are_current limit r db seen log a db' seen' :
  0 < limit ≤ OpsRepo.MaxPageSize → reachable db seen → hrun db seen (runReminder limit r) log a db' seen' →
  (∀ w, w ∈ log → ∃ db0 db1, wrote w db0 db1 db seen (runReminder limit r) log a db' seen') ∧
  (∀ w db0 db1, wrote w db0 db1 db seen (runReminder limit r) log a db' seen' →
     current_reminder (rm_kind r) w db0 db1) ∧
  (∀ b, a = Ok b → Applied b = Z.of_nat (length log) ∧ Applied b ≤ Seen b ≤ limit) ∧
  ∀ kd e o1 o2 r1 r2, db_outbox db' !! o1 = Some r1 → db_outbox db' !! o2 = Some r2 →
    or_IdempotencyKey r1 = reminder_key kd (e_ID e) (e_Version e) →
    or_IdempotencyKey r2 = reminder_key kd (e_ID e) (e_Version e) → o1 = o2.
Proof.
  intros Hl Hr Hrun. split; [intros w; by apply run_wrote|]. split; [intros w db0 db1; by apply wrote_current|].
  destruct (route_run _ _ _ _ _ _ _ _ Hr Hrun (runReminder_spec limit r Hl))
    as (k & (rows & now & Hlog & _ & Ha) & Hk & _ & Hr').
  rewrite Hk in Hlog. split.
  - intros b ->. by rewrite Hlog, length_fmap.
  - destruct (store_reachable_ok _ _ Hr') as (Hok & _). intros kd e o1 o2 r1 r2 H1 H2 K1 K2.
    eapply (oi_unique _ (so_outbox _ Hok)); [done..|congruence].
Qed.

(** ** A run of its own *)

Lemma days_before_year_mono y z : y ≤ z → days_before_year y ≤ days_before_year z.
Proof.
  intros Hle. replace z with (y + Z.of_nat (Z.to_nat (z - y))) by lia. generalize (Z.to_nat (z - y)) as n. clear Hle.
  induction n as [|n IH]; [by rewrite Z.add_0_r|]. pose proof (year_length (y + Z.of_nat n)) as Hy.
  replace (y + Z.of_nat (S n)) with (y + Z.of_nat n + 1) by lia. etrans; [exact IH|].
  generalize dependent (days_before_year (y + Z.of_nat n + 1)). intros x. destruct (is_leap (y + Z.of_nat n)); lia.
Qed.

(** The times JSON can hold are an interval. *)
Lemma format_between a t b :
  is_Some (format_rfc3339 a) → is_Some (format_rfc3339 b) → a ≤ t ≤ b → is_Some (format_rfc3339 t).
Proof.
  assert (∀ t, is_Some (format_rfc3339 t) ↔
            0 ≤ year_of_day ((t / nsec + unix_offset) / 86400) ≤ 9999) as Hyear.
  { intros x. unfold format_rfc3339, date_of_days. cbn zeta. unfold in_year_range.
    destruct (_ && _) eqn:Hb; bool_props; [by split|]. split; [by intros []|]. intros [H1 H2].
    by rewrite (proj2 (Z.leb_le _ _) H1), (proj2 (Z.leb_le _ _) H2) in Hb. }
  rewrite !Hyear. intros Ha Hb Ht.
  set (da := (a / nsec + unix_offset) / 86400) in *. set (d := (t / nsec + unix_offset) / 86400) in *.
  set (dz := (b / nsec + unix_offset) / 86400) in *.
  assert (da ≤ d ≤ dz) as Hd.
  { unfold da, d, dz. pose proof (Z.div_le_mono a t nsec ltac:(done) ltac:(lia)).
    pose proof (Z.div_le_mono t b nsec ltac:(done) ltac:(lia)). split; apply Z.div_le_mono; lia. }
  pose proof (year_of_day_spec da) as Sa. pose proof (year_of_day_spec d) as Sd. pose proof (year_of_day_spec dz) as Sz.
  cbn zeta in Sa, Sd, Sz. clearbody d da dz.
  split.
  - destruct (Z.le_gt_cases 0 (year_of_day d)) as [|Hlt]; [done|exfalso].
    pose proof (days_before_year_mono (year_of_day d + 1) (year_of_day da) ltac:(lia)). lia.
  - destruct (Z.le_gt_cases (year_of_day d) 9999) as [|Hlt]; [done|exfalso].
    pose proof (days_before_year_mono (year_of_day dz + 1) (year_of_day d) ltac:(lia)). lia.
Qed.

Lemma reminder_key_inj kd id v kd' id' v' :
  has_colon id = false → has_colon id' = false → reminder_key kd id v = reminder_key kd' id' v' → id = id'.
Proof. unfold reminder_key. intros Hi Hi' Heq. by apply split_colon in Heq as [-> _]. Qed.

(** A candidate still in its state and without a reminder gets one. *)
Lemma insert_reminds kd now clock db row e (c := candidate_of kd row) :
  store_ok db → db_errands db !! e_ID e = Some row → row_ok (e_ID e) row e → candidate_from kd e c →
  ¬ reminded kd e db → is_Some (enc_reminder (reminder_data now c)) →
  ∃ db1, InsertCurrentReminder clock (reminder_row kd (reminder_data now c)) (rc_Status c) (rc_Version c) db = Ok (true, db1) ∧
    store_ok db1 ∧ db_errands db1 = db_errands db ∧ reminded kd e db1 ∧
    (∀ e', reminded kd e' db → reminded kd e' db1) ∧
    (∀ e', has_colon (e_ID e') = false → e_ID e' ≠ e_ID e → reminded kd e' db1 → reminded kd e' db).
Proof.
  intros Hok Hl Hro Hc Hno [payload Henc]. pose proof Hc as (Hst & Hid & Hv & Hcs & _).
  assert (0 < e_Version e) as Hpos.
  { pose proof (eo_version _ (ro_ok _ _ _ Hro)) as Hver. rewrite Hst in Hver. destruct kd; simpl in Hver; lia. }
  assert (has_colon (e_ID e) = false) as Hcolon by (eapply toUUID_no_colon, Hro).
  assert (er_Status row = e_Status e ∧ er_Version row = e_Version e) as [Hrs Hrv] by by split.
  assert (∀ o r, db_outbox db !! o = Some r → or_IdempotencyKey r ≠ rm_IdempotencyKey (reminder_row kd (reminder_data now c))) as Hfree.
  { intros o r Hlo Hk. apply Hno. exists o, r. split; [done|]. rewrite Hk, reminder_key_of; simpl; [by f_equal|lia]. }
  assert (scan1 (has_key (rm_IdempotencyKey (reminder_row kd (reminder_data now c)))) (db_outbox db) = None) as Hscan.
  { apply scan1_None. intros o r Hlo. unfold has_key. apply bool_decide_eq_false. by eapply Hfree. }
  assert (∃ db1, InsertCurrentReminder clock (reminder_row kd (reminder_data now c)) (rc_Status c) (rc_Version c) db
            = Ok (true, db1)) as [db1 Hi].
  { unfold InsertCurrentReminder, reminderParams, bind at 1, ops_lift.
    assert (isReminderKind (rm_Kind (reminder_row kd (reminder_data now c))) = true) as -> by by destruct kd.
    rewrite bool_decide_false by apply IdempotencyKey_nonempty.
    change (rm_ErrandID (reminder_row kd (reminder_data now c))) with (rc_ErrandID c).
    change (rm_Payload (reminder_row kd (reminder_data now c))) with (reminder_data now c).
    rewrite Hid, (ro_id _ _ _ Hro), Henc. cbn [negb]. unfold bind, sql_InsertCurrentReminder. unfold ret at 1. cbn [fst snd].
    rewrite Hl, Hcs, Hv, Hrs, Hrv, wrap32_id, bool_decide_true, Z.eqb_refl by (done || apply Hro). cbn [andb].
    unfold sql_InsertReminder, InsertOutboxIfAbsent. rewrite Hscan. unfold bind, InsertOutbox. rewrite Hscan.
    assert (errand_exists (e_ID e) db = true) as -> by (unfold errand_exists; by rewrite Hl).
    assert (kind_known (rm_Kind (reminder_row kd (reminder_data now c))) = true) as -> by by destruct kd.
    by eexists. }
  exists db1. split; [done|].
  assert (has_colon (rd_ErrandID (reminder_data now c)) = false) as Hdc by (simpl; by rewrite <- (ro_key _ _ _ Hro) in Hcolon).
  destruct (reminder_step _ _ _ _ _ _ _ _ Hok Hdc ltac:(simpl in *; lia) Hi) as (Hok1 & _).
  apply InsertCurrentReminder_true in Hi as (Herr & _ & id & pl & Hout).
  rewrite reminder_key_of in Hout by (simpl in *; lia). simpl rd_ErrandID in Hout. simpl rd_ErrandVersion in Hout.
  change (er_ID row) with (rc_ErrandID c) in Hout. change (er_Version row) with (rc_Version c) in Hout. rewrite Hid, Hv in Hout.
  split; [done|]. split; [done|]. split; [|split].
  - exists (db_next_outbox db). eexists. split; [rewrite Hout; apply lookup_insert_eq|done].
  - intros e' (o & r & Hlo & Hk). exists o, r. split; [|done]. rewrite Hout, lookup_insert_ne; [done|].
    intros <-. apply (so_outbox _ Hok) in Hlo. lia.
  - intros e' Hc' Hne (o & r & Hlo & Hk). rewrite Hout in Hlo. apply lookup_insert_Some in Hlo as [[<- <-]|[_ Hlo]]; [|by exists o, r].
    simpl in Hk. by apply reminder_key_inj in Hk.
Qed.

(** A candidate row that can be reminded about. *)
Definition remindable (kd : ReminderKind) (now : Z) (db : ODB) (row : ErrandRow) (e : Errand) : Prop :=
  db_errands db !! e_ID e = Some row ∧ row_ok (e_ID e) row e ∧ candidate_from kd e (candidate_of kd row) ∧
  ¬ reminded kd e db ∧ is_Some (enc_reminder (reminder_data now (candidate_of kd row))).

Lemma raise_all_play kd now env rows db seen r :
  store_ok db → (∀ row, row ∈ rows → ∃ e, remindable kd now db row e) → NoDup rows →
  ∃ log db' seen',
    play env db seen (raise_all kd now (candidate_of kd <$> rows) r) =
      (log, Ok (mkBatchResult (Seen r) (Applied r + Z.of_nat (length rows))), db', seen') ∧
    db_errands db' = db_errands db ∧ (∀ e, reminded kd e db → reminded kd e db') ∧
    (∀ row e, row ∈ rows → row_ok (e_ID e) row e → reminded kd e db').
Proof.
  revert db seen r. induction rows as [|row rows IH]; intros db seen r Hok Hrows Hnd.
  - exists [], db, seen. cbn. rewrite Z.add_0_r. split_and!; [by destruct r|done..|]. intros row e Hin. by apply elem_of_nil in Hin.
  - apply NoDup_cons in Hnd as [Hnin Hnd].
    destruct (Hrows row ltac:(left)) as (e & Hl & Hro & Hc & Hno & Henc).
    destruct (insert_reminds kd now (en_Now env) db row e Hok Hl Hro Hc Hno Henc)
      as (db1 & Hi & Hok1 & Herr & Hrem & Hkeep & Hnew).
    destruct (IH db1 (current db1 ++ seen) (mkBatchResult (Seen r) (Applied r + 1)) Hok1) as (log & db' & seen' & Hp & Herr' & Hkeep' & Hall);
      [|done|].
    { intros row' Hin. destruct (Hrows row' ltac:(by right)) as (e' & Hl' & Hro' & Hc' & Hno' & Henc').
      exists e'. split_and!; [by rewrite Herr|done..| |done]. intros Hr. apply Hno'.
      apply Hnew; [by eapply toUUID_no_colon, Hro'| |done]. intros Heq. rewrite Heq, Hl in Hl'. injection Hl' as ->. done. }
    exists (ORemind (reminder_row kd (reminder_data now (candidate_of kd row))) :: log), db', seen'.
    cbn [fmap list_fmap raise_all pbind perform play alone]. rewrite Hi. cbn [fst snd log_of own_of].
    cbn [fmap list_fmap] in Hp. rewrite Hp. cbn [Seen Applied length]. split_and!.
    + by replace (Applied r + 1 + Z.of_nat (length rows)) with (Applied r + Z.of_nat (S (length rows))) by lia.
    + congruence.
    + intros e' He. by apply Hkeep', Hkeep.
    + intros row' e' [->|Hin]%elem_of_cons Hro'; [|by eapply Hall].
      apply Hkeep'. pose proof (ro_key _ _ _ Hro) as K. pose proof (ro_key _ _ _ Hro') as K'.
      rewrite K in K'. rewrite <- K' in Hro'. by rewrite <- (row_ok_fun _ _ _ _ Hro Hro').
Qed.

Lemma candidate_rows_NoDup kd now before limit db : store_ok db → NoDup (candidate_rows kd now before limit db).
Proof.
  intros Hok. unfold candidate_rows, keyset. eapply sublist_NoDup; [|apply sublist_take].
  rewrite merge_sort_Permutation. apply (NoDup_ListNoDup _), List.NoDup_filter, NoDup_ListNoDup.
  apply NoDup_fmap_2_strong.
  - intros [i x] [j y] [Hi _]%elem_of_scan [Hj _]%elem_of_scan. simpl. intros ->.
    destruct (so_rows _ Hok _ _ Hi) as (e & Hro). destruct (so_rows _ Hok _ _ Hj) as (e' & Hro').
    f_equal. rewrite <- (ro_key _ _ _ Hro), <- (ro_key _ _ _ Hro'). done.
  - unfold scan. apply (NoDup_ListNoDup _), List.NoDup_filter, NoDup_ListNoDup, NoDup_map_to_list.
Qed.

Lemma reminded_dec kd e db : reminded kd e db ∨ ¬ reminded kd e db.
Proof.
  set (key := reminder_key kd (e_ID e) (e_Version e)).
  destruct (existsb (λ kv, has_key key kv.2) (map_to_list (db_outbox db))) eqn:Hx; [left|right].
  - apply existsb_exists in Hx as ([o r] & Hin & Hk). exists o, r. unfold has_key in Hk. simpl in Hk. bool_props.
    split; [by apply elem_of_map_to_list, list_elem_of_In|done].
  - intros (o & r & Hlo & Hk). apply not_true_iff_false in Hx. apply Hx, existsb_exists. exists (o, r).
    split; [by apply list_elem_of_In, elem_of_map_to_list|]. by apply bool_decide_eq_true.
Qed.

(** A run of a reminder job that nobody disturbs reminds everybody who is
    due: when the errands due fit in one batch and the times can be written as
    JSON, the batch succeeds, writes a reminder for each of them, and every
    stored errand in the reminded state whose deadline lies within the lead
    has its reminder afterwards and is itself unchanged. *)
Theorem reminders_raised limit r env db seen (now := en_Now env)
    (before := now + rm_lead r (if rm_needsSettings r then Some (en_Settings env) else None)) :
  reachable db seen → 0 < limit ≤ OpsRepo.MaxPageSize →
  is_Some (format_rfc3339 now) → is_Some (format_rfc3339 (stored_time now)) → is_Some (format_rfc3339 (stored_time before)) →
  Z.of_nat (length (scan (candidate (rm_kind r) now before db) (db_errands db))) ≤ limit →
  ∃ log n db' seen', play env db seen (runReminder limit r) = (log, Ok (mkBatchResult n n), db', seen') ∧
    ∀ e, stored_as db (e_ID e) e → due_for (rm_kind r) now before e →
      stored_as db' (e_ID e) e ∧ reminded (rm_kind r) e db'.
Proof.
  intros Hr Hl Hfn Hfs Hfb Hfit. destruct (store_reachable_ok _ _ Hr) as (Hok & _).
  set (rows := candidate_rows (rm_kind r) now before limit db).
  assert (∀ row, row ∈ rows → ∃ e, remindable (rm_kind r) now db row e) as Hrows.
  { intros row Hin. destruct (candidate_rows_stored _ _ _ _ _ _ Hok Hin) as (e & Hlk & Hro & Hdue & Hno).
    exists e. pose proof (proj2 (candidate_row (rm_kind r) now before db _ _ _ Hro) Hdue) as Hc. split_and!; [done..|].
    destruct Hdue as (_ & d & n & b & Hd & Hn & Hb & Hper). destruct Hc as (_ & _ & _ & _ & _ & _ & Hcd).
    rewrite Hd in Hcd. injection Hcd as Hcd.
    unfold timestamp in Hn, Hb. destruct (IsZero now); [done|]. destruct (IsZero before); [done|].
    injection Hn as <-. injection Hb as <-.
    destruct (format_between _ d _ Hfs Hfb ltac:(lia)) as [sd Hsd]. destruct Hfn as [sn Hsn].
    unfold enc_reminder. cbn [reminder_data rd_Deadline rd_At candidate_of rc_Deadline]. rewrite Hcd, Hsd, Hsn. by eexists. }
  destruct (raise_all_play (rm_kind r) now env rows db seen (mkBatchResult (Z.of_nat (length rows)) 0) Hok Hrows)
    as (log & db' & seen' & Hp & Herr & Hkeep & Hall); [by apply candidate_rows_NoDup|].
  exists log, (Z.of_nat (length rows)), db', seen'. split.
  - assert (∀ settings, before = now + rm_lead r settings →
              play env db seen (remind_now limit r settings)
              = (log, Ok (mkBatchResult (Z.of_nat (length rows)) (Z.of_nat (length rows))), db', seen')) as Hnow.
    { intros settings Hbefore. unfold remind_now. cbn [pbind perform play alone fst snd]. fold now. rewrite <- Hbefore.
      unfold inTx. rewrite ListReminderCandidates_run by done. cbn [fst ops_answer]. rewrite length_fmap. exact Hp. }
    unfold runReminder. destruct (rm_needsSettings r); [cbn [pbind perform play alone fst snd]|]; by apply Hnow.
  - intros e Hst Hdue. split; [by eapply stored_as_ext|].
    destruct (reminded_dec (rm_kind r) e db) as [Hyes|Hno]; [by apply Hkeep|].
    destruct (candidate_rows_all _ _ _ _ _ _ Hok Hst Hdue Hno Hfit) as (row & Hin & Hro). by eapply Hall.
Qed.

End reminders.

(** Bob accepted at 4000; at 5000 he is warned of the pickup deadline two hours
    ahead. *)
Module ReminderScenario.
Export RouteScenario.

Definition warn : reminder := pickupReminder (7200 * nsec).
Definition warning := Eval vm_compute in play (env 5000) db3 seen3 (runReminder 100 warn).

Lemma warning_run :
  hrun db3 seen3 (runReminder 100 warn) (played warning).1 (played warning).2 (to_db warning) (to_seen warning).
Proof. apply (play_run (env 5000)); [apply env_is_ok|]. vm_compute. reflexivity. Qed.

Definition accepted_errand : Errand := Eval vm_compute in hd draft (current db3).

Lemma accepted_stored : stored_as db3 (e_ID accepted_errand) accepted_errand.
Proof. apply elem_of_current; [apply (store_reachable_ok _ _ reach_db3)|]. vm_compute. by left. Qed.

Lemma accepted_due : due_for ReminderPickup 5000 (5000 + 7200 * nsec) accepted_errand.
Proof. split; [reflexivity|]. do 3 eexists. split_and!; [reflexivity..| |]; vm_compute; congruence. Qed.

End ReminderScenario.
Import ReminderScenario.

Lemma reminders_are_current_witness :
  length (played warning).1 = 1%nat ∧
  ∀ w, w ∈ (played warning).1 → ∃ db0 db1, current_reminder ReminderPickup w db0 db1.
Proof.
  split; [vm_compute; reflexivity|].
  destruct (reminders_are_current 100 warn db3 seen3 _ (played warning).2 (to_db warning) (to_seen warning)
           ltac:(vm_compute; by split) reach_db3 warning_run) as (Hw & Hc & _).
  intros w (db0 & db1 & H)%Hw. exists db0, db1. by apply Hc.
Defined.

Lemma reminders_raised_witness :
  ∃ log n db' seen', play (env 5000) db3 seen3 (runReminder 100 warn) = (log, Ok (mkBatchResult n n), db', seen') ∧
    reminded ReminderPickup accepted_errand db'.
Proof.
  destruct (reminders_raised 100 warn (env 5000) db3 seen3 reach_db3 ltac:(vm_compute; by split)) as (log & n & db' & seen' & Hp & Hall).
  - vm_compute. by eexists.
  - vm_compute. by eexists.
  - vm_compute. by eexists.
  - vm_compute. congruence.
  - exists log, n, db', seen'. split; [exact Hp|]. apply Hall; [apply accepted_stored|apply accepted_due].
Defined.
