(* ===== verification/Resilience.v ===== *)
(** * order-service: backoff, circuit breaker and guarded calls

    [internal/resilience]: [BackoffPolicy.Ceiling] and [Backoff], the
    [Breaker] with its tickets, and [Do].  The clock, the random source and
    the outcome of the guarded call are arguments; a breaker method holds the
    mutex for its whole body, so methods run one after another. *)

From S2P Require Import Prelude.

(** ** backoff.go *)

Record BackoffPolicy := mkBackoffPolicy { bp_Base : Z; bp_Cap : Z }.

Definition DefaultBackoffPolicy : BackoffPolicy :=
  mkBackoffPolicy (2 * 1000000000) (5 * 60 * 1000000000).

Definition policy_valid (p : BackoffPolicy) : bool :=
  negb (bp_Base p <=? 0) && negb (bp_Cap p <? bp_Base p).

(** The loop of [Ceiling] with [n] rounds left; [Z.quot] is Go's division. *)
Fixpoint ceiling_loop (n : nat) (d cap : Z) : Z :=
  match n with
  | O => d
  | S n' =>
      if negb (d <? cap) then d
      else if Z.quot cap 2 <? d then cap
      else ceiling_loop n' (wrap64 (d * 2)) cap
  end.

Definition Ceiling (p : BackoffPolicy) (attempt : Z) : Z :=
  Z.min (ceiling_loop (Z.to_nat (attempt - 1)) (bp_Base p) (bp_Cap p)) (bp_Cap p).

(** [Backoff]; [rand n] is a value in [0, n). *)
Definition policy_Backoff (rand : Z → Z) (p : BackoffPolicy) (attempt : Z) : Z :=
  let n := Ceiling p attempt in
  if n <=? 0 then 0
  else rand (if n <? max_int64 then n + 1 else n).

(** ** breaker.go *)

Inductive BState := StateClosed | StateOpen | StateHalfOpen.
#[export] Instance BState_eq_dec : EqDecision BState.
Proof. solve_decision. Defined.

Record BreakerConfig := mkBreakerConfig {
  bc_Name : string; bc_FailureThreshold : Z; bc_CoolDown : Z }.

Definition DefaultBreakerConfig (name : string) : BreakerConfig :=
  mkBreakerConfig name 5 (30 * 1000000000).

Definition breaker_Validate (c : BreakerConfig) : res string unit :=
  if bool_decide (bc_Name c = "") then Err "resilience: breaker name is required"
  else if bc_FailureThreshold c <? 1 then Err "resilience: breaker failure threshold must be at least 1"
  else if bc_CoolDown c <=? 0 then Err "resilience: breaker cool-down must be positive"
  else Ok tt.

Record Breaker := mkBreaker {
  br_state : BState;
  br_failures : Z;
  br_openedAt : Z;
  br_trial : bool;
  br_generation : Z;     (* uint64 *)
}.

Definition NewBreaker (c : BreakerConfig) : res string Breaker :=
  match breaker_Validate c with
  | Err e => Err e
  | Ok _ => Ok (mkBreaker StateClosed 0 0 false 0)
  end.

Inductive outcome := outcomeSuccess | outcomeFailure | outcomeIgnored.

Record ticket := mkTicket { tk_generation : Z; tk_trial : bool }.

Definition wrap_uint64 (x : Z) : Z := x mod 2 ^ 64.

Definition setStateLocked (now : Z) (s : BState) (b : Breaker) : Breaker :=
  mkBreaker s 0 (if bool_decide (s = StateOpen) then now else br_openedAt b) false
    (wrap_uint64 (br_generation b + 1)).

Definition coolDownLocked (cfg : BreakerConfig) (now : Z) (b : Breaker) : Breaker :=
  if bool_decide (br_state b = StateOpen) && negb (now <? br_openedAt b + bc_CoolDown cfg)
  then setStateLocked now StateHalfOpen b else b.

(** [State] *)
Definition breaker_State (cfg : BreakerConfig) (now : Z) (b : Breaker) : BState * Breaker :=
  let b := coolDownLocked cfg now b in (br_state b, b).

(** [None] is [ErrCircuitOpen]. *)
Definition allow (cfg : BreakerConfig) (now : Z) (b : Breaker) : option ticket * Breaker :=
  let b := coolDownLocked cfg now b in
  match br_state b with
  | StateOpen => (None, b)
  | StateHalfOpen =>
      if br_trial b then (None, b)
      else (Some (mkTicket (br_generation b) true),
            mkBreaker (br_state b) (br_failures b) (br_openedAt b) true (br_generation b))
  | StateClosed => (Some (mkTicket (br_generation b) false), b)
  end.

Definition record (cfg : BreakerConfig) (now : Z) (t : ticket) (o : outcome) (b : Breaker) : Breaker :=
  if negb (tk_generation t =? br_generation b) then b
  else if tk_trial t then
    match o with
    | outcomeSuccess => setStateLocked now StateClosed b
    | outcomeFailure => setStateLocked now StateOpen b
    | outcomeIgnored => mkBreaker (br_state b) (br_failures b) (br_openedAt b) false (br_generation b)
    end
  else
    match o with
    | outcomeSuccess => mkBreaker (br_state b) 0 (br_openedAt b) (br_trial b) (br_generation b)
    | outcomeFailure =>
        let b := mkBreaker (br_state b) (br_failures b + 1) (br_openedAt b) (br_trial b) (br_generation b) in
        if bc_FailureThreshold cfg <=? br_failures b then setStateLocked now StateOpen b else b
    | outcomeIgnored => b
    end.

(** ** do.go *)

(** How the guarded function ended: its error, and whether the caller's
    context and the per-call context were done by then; or a panic. *)
Inductive CallEnd (E : Type) := Returned (err : option E) (ctx_done call_done : bool) | Panicked.
Arguments Returned {E}. Arguments Panicked {E}.

Inductive DoError (E : Type) := ErrCircuitOpen | ErrTimeout (e : E) | CallError (e : E) | CallPanic.
Arguments ErrCircuitOpen {E}. Arguments ErrTimeout {E}. Arguments CallError {E}. Arguments CallPanic {E}.

(** What [Do] records and returns once [fn] has ended. *)
Definition settle_call {E} (isFailure : E → bool) (r : CallEnd E) : outcome * res (DoError E) unit :=
  match r with
  | Panicked => (outcomeFailure, Err CallPanic)
  | Returned None _ _ => (outcomeSuccess, Ok tt)
  | Returned (Some e) ctx_done call_done =>
      if ctx_done then (outcomeIgnored, Err (CallError e))
      else if call_done then (outcomeFailure, Err (ErrTimeout e))
      else if isFailure e then (outcomeFailure, Err (CallError e))
      else (outcomeIgnored, Err (CallError e))
  end.

(** [Do] with no other call in between: [fn] is not called when the breaker
    refuses. *)
Definition Do {E} (cfg : BreakerConfig) (isFailure : E → bool) (started ended : Z) (fn : CallEnd E)
    (b : Breaker) : res (DoError E) unit * Breaker :=
  match allow cfg started b with
  | (None, b) => (Err ErrCircuitOpen, b)
  | (Some t, b) =>
      let '(o, r) := settle_call isFailure fn in (r, record cfg ended t o b)
  end.

(** ** Backoff *)

Lemma pow2_step n d : d * 2 ^ Z.of_nat (S n) = d * 2 * 2 ^ Z.of_nat n.
Proof. rewrite Nat2Z.inj_succ, Z.pow_succ_r by lia. lia. Qed.

Lemma ceiling_loop_spec n d cap :
  0 < d ≤ cap → cap ≤ max_int64 → Z.min (ceiling_loop n d cap) cap = Z.min (d * 2 ^ Z.of_nat n) cap.
Proof.
  revert d. induction n as [|n IH]; intros d Hd Hcap; [simpl; f_equal; lia|].
  pose proof (Z.pow_pos_nonneg 2 (Z.of_nat n)). rewrite pow2_step. cbn [ceiling_loop].
  destruct (d <? cap) eqn:Hlt; cbn [negb]; bool_props; [|nia].
  destruct (Z.quot cap 2 <? d) eqn:Hhalf; bool_props.
  - rewrite Z.quot_div_nonneg in Hhalf by lia. pose proof (Z.mul_succ_div_gt cap 2). nia.
  - rewrite Z.quot_div_nonneg in Hhalf by lia. pose proof (Z.mul_div_le cap 2).
    rewrite wrap64_id by (unfold in_int64, min_int64, max_int64 in *; lia). apply IH; lia.
Qed.

(** The optimised backoff ceiling, which stops doubling before it can
    overflow, is min(Cap, Base * 2^(attempt-1)) for every attempt number and
    every valid policy, and the jittered delay lies between zero and it. *)
Theorem backoff_ceiling_exact p attempt rand :
  policy_valid p = true → bp_Cap p ≤ max_int64 → 1 ≤ attempt → (∀ n, 0 < n → 0 ≤ rand n < n) →
  Ceiling p attempt = Z.min (bp_Base p * 2 ^ (attempt - 1)) (bp_Cap p) ∧
  0 ≤ policy_Backoff rand p attempt ≤ Ceiling p attempt.
Proof.
  intros Hv Hcap Ha Hr. unfold policy_valid in Hv. bool_props.
  assert (Ceiling p attempt = Z.min (bp_Base p * 2 ^ (attempt - 1)) (bp_Cap p)) as Heq.
  { unfold Ceiling. rewrite ceiling_loop_spec by lia. by rewrite Z2Nat.id by lia. }
  split; [done|]. assert (0 < Ceiling p attempt ≤ max_int64) as Hc.
  { rewrite Heq. pose proof (Z.pow_pos_nonneg 2 (attempt - 1)). nia. }
  unfold policy_Backoff. destruct (Ceiling p attempt <=? 0) eqn:Hz; bool_props; [lia|].
  destruct (Ceiling p attempt <? max_int64); [specialize (Hr (Ceiling p attempt + 1))|specialize (Hr (Ceiling p attempt))]; lia.
Qed.

(** ** The breaker under concurrent calls *)

Section breaker.
Variable cfg : BreakerConfig.

(** [n] methods have run; [calls] holds the tickets of the calls in flight. *)
Inductive breaker_run : Z → Breaker → list ticket → Prop :=
| run_new b : NewBreaker cfg = Ok b → breaker_run 0 b []
| run_state n b calls now : breaker_run n b calls → breaker_run (n + 1) (snd (breaker_State cfg now b)) calls
| run_allow n b calls now t b' : breaker_run n b calls → allow cfg now b = (Some t, b') →
    breaker_run (n + 1) b' (t :: calls)
| run_refuse n b calls now b' : breaker_run n b calls → allow cfg now b = (None, b') →
    breaker_run (n + 1) b' calls
| run_record n b calls t calls' o now : breaker_run n b calls → calls ≡ₚ t :: calls' →
    breaker_run (n + 1) (record cfg now t o b) calls'.

(** The calls admitted since the breaker last changed state. *)
Definition current_calls (b : Breaker) (calls : list ticket) : list ticket :=
  List.filter (λ t, tk_generation t =? br_generation b) calls.

Record breaker_ok (n : Z) (b : Breaker) (calls : list ticket) : Prop := {
  bk_cfg : 1 ≤ bc_FailureThreshold cfg ∧ 0 < bc_CoolDown cfg;
  bk_gen : 0 ≤ br_generation b ≤ n;
  bk_calls t : t ∈ calls → 0 ≤ tk_generation t ≤ br_generation b;
  bk_failures : 0 ≤ br_failures b < bc_FailureThreshold cfg;
  bk_state :
    match br_state b with
    | StateClosed => br_trial b = false ∧ Forall (λ t, tk_trial t = false) (current_calls b calls)
    | StateOpen => br_trial b = false ∧ br_failures b = 0 ∧ current_calls b calls = []
    | StateHalfOpen => br_failures b = 0 ∧
        current_calls b calls = if br_trial b then [mkTicket (br_generation b) true] else []
    end;
}.

Lemma no_current b calls g :
  (∀ t, t ∈ calls → 0 ≤ tk_generation t ≤ g) → br_generation b = g + 1 → current_calls b calls = [].
Proof.
  intros Hle Hg. unfold current_calls. induction calls as [|t calls IH]; [done|]. simpl.
  assert (tk_generation t ≠ br_generation b) as ->%Z.eqb_neq by (pose proof (Hle t ltac:(by left)); lia).
  apply IH. intros t' Ht'. apply Hle. by right.
Qed.

(** A change of state leaves every call in flight behind. *)
Lemma set_state_ok n b calls0 calls now s :
  breaker_ok n b calls0 → calls ⊆ calls0 → n + 1 < 2 ^ 64 →
  breaker_ok (n + 1) (setStateLocked now s b) calls.
Proof.
  intros [Hcfg Hg Hc0 Hf _] Hsub Hn.
  assert (∀ t, t ∈ calls → 0 ≤ tk_generation t ≤ br_generation b) as Hc by auto.
  assert (br_generation (setStateLocked now s b) = br_generation b + 1) as Hgen.
  { simpl. unfold wrap_uint64. apply Z.mod_small. lia. }
  pose proof (no_current _ _ _ Hc Hgen) as Hnone.
  split; rewrite ?Hgen; [done|lia|intros t Ht; specialize (Hc t Ht); lia|simpl; lia|].
  rewrite Hnone. simpl. destruct s; split_and!; try done.
Qed.

Lemma breaker_ok_mono n m b calls : breaker_ok n b calls → n ≤ m → breaker_ok m b calls.
Proof. intros [? ? ? ? ?] ?. split; auto. lia. Qed.

Lemma breaker_ok_perm n b calls calls' : calls ≡ₚ calls' → breaker_ok n b calls → breaker_ok n b calls'.
Proof.
  intros Hp [? ? Hc ? Hs]. split; auto.
  { intros t Ht. apply Hc. by rewrite Hp. }
  assert (current_calls b calls ≡ₚ current_calls b calls') as Hcp.
  { unfold current_calls. clear -Hp. induction Hp; simpl; repeat case_match; try constructor; try done; etransitivity; eauto. }
  destruct (br_state b).
  - by rewrite <- Hcp.
  - destruct Hs as (? & ? & Hs). split_and!; [done..|]. rewrite Hs in Hcp. by apply Permutation_nil_l in Hcp.
  - destruct Hs as (? & Hs). split; [done|]. rewrite Hs in Hcp. destruct (br_trial b).
    + by apply Permutation_singleton_l in Hcp.
    + by apply Permutation_nil_l in Hcp.
Qed.

Lemma cool_down_ok n b calls now :
  breaker_ok n b calls → n + 1 < 2 ^ 64 → breaker_ok (n + 1) (coolDownLocked cfg now b) calls.
Proof.
  intros Hok Hn. unfold coolDownLocked. destruct (_ && _); [by eapply set_state_ok|].
  eapply breaker_ok_mono; [done|lia].
Qed.

Lemma allow_ok n b calls now r b' :
  breaker_ok n b calls → n + 1 < 2 ^ 64 → allow cfg now b = (r, b') →
  match r with
  | Some t => breaker_ok (n + 1) b' (t :: calls) ∧ tk_generation t = br_generation b'
  | None => breaker_ok (n + 1) b' calls
  end.
Proof.
  intros Hok Hn. pose proof (cool_down_ok _ _ _ now Hok Hn) as [Hcfg Hg Hc Hf Hs]. unfold allow.
  set (b1 := coolDownLocked cfg now b) in *. destruct (br_state b1) eqn:Hst.
  - intros [= <- <-]. split; [|done]. split; auto.
    + intros t [->|Ht]%elem_of_cons; [simpl; lia|auto].
    + rewrite Hst. unfold current_calls in *. simpl. rewrite Z.eqb_refl. destruct Hs. split; [done|]. by constructor.
  - intros [= <- <-]. split; auto. by rewrite Hst.
  - destruct Hs as [Hf0 Hcur]. destruct (br_trial b1) eqn:Htr; intros [= <- <-].
    + split; auto. by rewrite Hst, Htr.
    + split; [|done]. split; auto; simpl.
      * intros t [->|Ht]%elem_of_cons; [simpl; lia|auto].
      * split; [done|]. unfold current_calls in *. simpl. rewrite Z.eqb_refl. by rewrite Hcur.
Qed.

Lemma record_ok n b t calls o now :
  breaker_ok n b (t :: calls) → n + 1 < 2 ^ 64 → breaker_ok (n + 1) (record cfg now t o b) calls.
Proof.
  intros Hok Hn. pose proof Hok as [Hcfg Hg Hc Hf Hs]. unfold record.
  assert (calls ⊆ t :: calls) as Hsub by (intros ? ?; by right).
  assert (∀ t', t' ∈ calls → 0 ≤ tk_generation t' ≤ br_generation b) as Hc' by (intros; apply Hc; by right).
  destruct (tk_generation t =? br_generation b) eqn:Hgen; simpl; last first.
  { unfold current_calls in *. simpl in Hs. rewrite Hgen in Hs. split; auto. lia. }
  assert (current_calls b (t :: calls) = t :: current_calls b calls) as Hcur.
  { unfold current_calls. simpl. by rewrite Hgen. }
  rewrite Hcur in Hs. destruct (tk_trial t) eqn:Htr.
  - destruct o; [by eapply set_state_ok|by eapply set_state_ok|]. split; simpl; auto; [lia|].
    change (current_calls _ calls) with (current_calls b calls).
    destruct (br_state b).
    + destruct Hs as [_ Hall]. apply Forall_cons in Hall as [? _]. congruence.
    + by destruct Hs as (_ & _ & ?).
    + destruct (br_trial b); [|by destruct Hs]. destruct Hs as (? & [= _ ?]). done.
  - assert (br_state b = StateClosed ∧ br_trial b = false ∧
            Forall (λ t, tk_trial t = false) (current_calls b calls)) as (Hst & Hbt & Hall).
    { destruct (br_state b); [|by destruct Hs as (_ & _ & ?)|].
      - destruct Hs as [? Hall]. by apply Forall_cons in Hall as [_ ?].
      - destruct (br_trial b); [|by destruct Hs]. destruct Hs as (_ & [= -> _]). done. }
    destruct o.
    + split; simpl; auto; [lia|lia|]. by rewrite Hst.
    + simpl. destruct (_ <=? _) eqn:Hth; bool_props.
      * eapply (set_state_ok n (mkBreaker (br_state b) (bc_FailureThreshold cfg - 1) (br_openedAt b)
          (br_trial b) (br_generation b)) (t :: calls)); [|done|done].
        split; auto; simpl; [lia|]. rewrite Hst.
        split; [done|]. assert (Forall (λ t, tk_trial t = false) (current_calls b (t :: calls))) as Hx by (rewrite Hcur; auto). exact Hx.
      * split; simpl; auto; [lia|lia|]. by rewrite Hst.
    + split; auto; [lia|]. by rewrite Hst.
Qed.

Lemma run_ok n b calls : breaker_run n b calls → n < 2 ^ 64 → breaker_ok n b calls.
Proof.
  induction 1 as [b Hnew|n b calls now Hr IH|n b calls now t b' Hr IH Ha|n b calls now b' Hr IH Ha
    |n b calls t calls' o now Hr IH Hp]; intros Hn.
  - unfold NewBreaker, breaker_Validate in Hnew. break_in Hnew. break_in E. bool_props.
    split; simpl; [lia|lia|intros t; by rewrite elem_of_nil|lia|by split].
  - apply cool_down_ok; [apply IH; lia|lia].
  - apply (allow_ok n b calls now (Some t) b'); [apply IH; lia|lia|done].
  - apply (allow_ok n b calls now None b'); [apply IH; lia|lia|done].
  - apply record_ok; [|lia]. eapply breaker_ok_perm; [done|]. apply IH. lia.
Qed.

(** However calls overlap, the breaker protects the dependency and never
    gets stuck.  While open it refuses every call until the cool-down has
    passed since it opened.  Once half-open it has at most one call in flight
    that it admitted since then, and refuses others meanwhile.  And whenever no
    call is in flight, a call made after the cool-down is admitted. *)
Theorem breaker_admission n b calls now :
  breaker_run n b calls → n + 1 < 2 ^ 64 →
  (br_state b = StateOpen → now < br_openedAt b + bc_CoolDown cfg → (allow cfg now b).1 = None) ∧
  (br_state b = StateHalfOpen → (length (current_calls b calls) ≤ 1)%nat ∧
     (current_calls b calls ≠ [] → (allow cfg now b).1 = None)) ∧
  (calls = [] → br_openedAt b + bc_CoolDown cfg ≤ now → is_Some ((allow cfg now b).1)).
Proof.
  intros Hr Hn. apply run_ok in Hr as [Hcfg Hg Hc Hf Hs]; [|lia]. split_and!.
  - intros Hst Hlt. unfold allow, coolDownLocked. rewrite Hst. simpl.
    apply Z.ltb_lt in Hlt. rewrite Hlt. simpl. by rewrite Hst.
  - intros Hst. rewrite Hst in Hs. destruct Hs as [_ ->]. unfold allow, coolDownLocked. rewrite Hst. simpl.
    rewrite Hst. destruct (br_trial b); simpl; split; [lia|done|lia|done].
  - intros -> Hle. unfold allow, coolDownLocked.
    assert ((now <? br_openedAt b + bc_CoolDown cfg) = false) as -> by by apply Z.ltb_ge.
    destruct (br_state b) eqn:Hst; simpl; rewrite ?Hst; eauto.
    destruct Hs as [_ Hcur]. unfold current_calls in Hcur. simpl in Hcur. destruct (br_trial b); eauto. done.
Qed.

(** ** When the breaker opens *)

(** The consecutive failures at the end of a history; an ignored outcome is
    no verdict. *)
Definition trail (f : Z) (o : outcome) : Z :=
  match o with outcomeSuccess => 0 | outcomeFailure => f + 1 | outcomeIgnored => f end.
Definition trailing_failures (os : list outcome) : Z := foldl trail 0 os.

(** A closed breaker, and the outcomes of calls it admitted. *)
Definition record_all (b : Breaker) (os : list (outcome * Z)) : Breaker :=
  foldl (λ b' on, record cfg on.2 (mkTicket (br_generation b) false) on.1 b') b os.

Lemma foldl_snoc {A B} (f : A → B → A) a l x : foldl f a (l ++ [x]) = f (foldl f a l) x.
Proof. by rewrite foldl_app. Qed.

(** A closed breaker opens exactly when the outcomes of the calls it
    admitted contain the threshold of failures in a row (ignoring calls without
    a verdict), and then at that very call; until then it counts them. *)
Theorem breaker_opens_on_threshold b os :
  breaker_Validate cfg = Ok tt → br_state b = StateClosed → br_failures b = 0 →
  0 ≤ br_generation b → br_generation b + 1 < 2 ^ 64 →
  let opened := ∃ os1 os2, os = os1 ++ os2 ∧ trailing_failures (os1.*1) = bc_FailureThreshold cfg in
  let b' := record_all b os in
  (opened → br_state b' = StateOpen) ∧
  (¬ opened → br_state b' = StateClosed ∧ br_failures b' = trailing_failures (os.*1)).
Proof.
  intros Hval Hst Hf Hg Hg2 opened b'. unfold breaker_Validate in Hval. break_in Hval. bool_props.
  enough ((opened ∧ br_state b' = StateOpen ∧ br_generation b' ≠ br_generation b) ∨
          (¬ opened ∧ br_state b' = StateClosed ∧ br_generation b' = br_generation b ∧
           br_failures b' = trailing_failures (os.*1) ∧ trailing_failures (os.*1) < bc_FailureThreshold cfg)).
  { clear -H. intuition. }
  subst opened b'. induction os as [|[o now] os IH] using rev_ind.
  { right. split_and!; [|done..|unfold trailing_failures; simpl; lia].
    intros (os1 & os2 & Heq & Ht). symmetry in Heq. apply app_nil in Heq as [-> _].
    unfold trailing_failures in Ht. simpl in Ht. lia. }
  unfold record_all in *. rewrite foldl_snoc. unfold trailing_failures in *. rewrite fmap_app, foldl_app. simpl.
  set (b1 := foldl _ b os) in *. destruct IH as [((os1 & os2 & -> & Ht) & Hs & Hne)|(Hno & Hs & Hgen & Hfl & Hlt)].
  { left. split; [exists os1, (os2 ++ [(o, now)]); by rewrite app_assoc|].
    unfold record. simpl. assert ((br_generation b =? br_generation b1) = false) as -> by by apply Z.eqb_neq. done. }
  set (f := foldl trail 0 (os.*1)) in *.
  assert (∀ P : Prop, (∃ os1 os2, os ++ [(o, now)] = os1 ++ os2 ∧ foldl trail 0 (os1.*1) = bc_FailureThreshold cfg) →
    trail f o ≠ bc_FailureThreshold cfg → P) as Hprefix.
  { intros P (os1 & os2 & Heq & Ht) Hne. exfalso. destruct os2 as [|x os2 _] using rev_ind.
    - rewrite app_nil_r in Heq. subst os1. rewrite fmap_app, foldl_app in Ht. done.
    - rewrite app_assoc in Heq. apply app_inj_tail in Heq as [-> _]. apply Hno. eauto. }
  unfold record. simpl. rewrite Hgen, Z.eqb_refl. simpl. destruct o; simpl.
  - right. split_and!; [intros Hx; apply (Hprefix _ Hx); simpl; lia|done..|lia].
  - destruct (_ <=? _) eqn:Hth; bool_props.
    + left. split_and!; [|done|].
      * exists (os ++ [(outcomeFailure, now)]), []. split; [by rewrite app_nil_r|].
        rewrite fmap_app, foldl_app. simpl. fold f. lia.
      * simpl. unfold wrap_uint64. rewrite Z.mod_small; lia.
    + right. split_and!; [intros Hx; apply (Hprefix _ Hx); simpl; lia|done..|simpl; lia|lia].
  - right. split_and!; [intros Hx; apply (Hprefix _ Hx); simpl; lia|done..].
Qed.

End breaker.

(** ** Witnesses *)

Lemma backoff_ceiling_exact_witness :
  Ceiling DefaultBackoffPolicy 8 = 256 * 1000000000 ∧ Ceiling DefaultBackoffPolicy 200 = 300 * 1000000000.
Proof.
  destruct (backoff_ceiling_exact DefaultBackoffPolicy 8 (λ _, 0)) as [-> _]; [done|done|lia|lia|].
  destruct (backoff_ceiling_exact DefaultBackoffPolicy 200 (λ _, 0)) as [-> _]; [done|done|lia|lia|].
  vm_compute. by split.
Defined.

Definition sample_cfg : BreakerConfig := mkBreakerConfig "supplier-service" 2 30.
Definition fresh_breaker : Breaker := mkBreaker StateClosed 0 0 false 0.
Definition tripped : Breaker := Eval vm_compute in
  record sample_cfg 7 (mkTicket 0 false) outcomeFailure
    (record sample_cfg 6 (mkTicket 0 false) outcomeFailure fresh_breaker).

Lemma breaker_admission_witness :
  br_state tripped = StateOpen ∧ (allow sample_cfg 36 tripped).1 = None ∧
  is_Some ((allow sample_cfg 37 tripped).1).
Proof.
  assert (breaker_run sample_cfg 4 tripped []) as Hrun.
  { change tripped with (record sample_cfg 7 (mkTicket 0 false) outcomeFailure
      (record sample_cfg 6 (mkTicket 0 false) outcomeFailure fresh_breaker)).
    change 4 with (0 + 1 + 1 + 1 + 1).
    eapply (run_record _ _ _ [mkTicket 0 false]); [|done].
    eapply (run_record _ _ _ [mkTicket 0 false; mkTicket 0 false]); [|done].
    eapply (run_allow _ _ fresh_breaker _ 1); [|done]. eapply (run_allow _ _ fresh_breaker _ 1); [|done].
    by apply run_new. }
  destruct (breaker_admission sample_cfg 4 tripped [] 36 Hrun) as (H1 & _ & _); [lia|].
  destruct (breaker_admission sample_cfg 4 tripped [] 37 Hrun) as (_ & _ & H2); [lia|].
  split_and!; [done|apply H1; [done|vm_compute; done]|apply H2; [done|vm_compute; done]].
Defined.

Lemma breaker_opens_on_threshold_witness :
  br_state (record_all sample_cfg fresh_breaker
    [(outcomeFailure, 1); (outcomeIgnored, 2); (outcomeFailure, 3)]) = StateOpen.
Proof.
  apply (breaker_opens_on_threshold sample_cfg fresh_breaker); [done|done|done|done|done|].
  by exists [(outcomeFailure, 1); (outcomeIgnored, 2); (outcomeFailure, 3)], [].
Defined.
