(* ===== verification/OrderOutbox.v ===== *)
(** * order-service: outbox delivery

    [internal/database/msgrepo] (the delivery state of outbox rows),
    [internal/messaging]: [MessageFromOutbox], [encode], and the dispatcher
    with its unconfirmed sweep.  [clock] is the value of [clock_timestamp()]
    in a statement, [skip] the rows other transactions have locked, [order]
    the order in which the server returns the rows of a claim.  The broker's
    answer and the random jitter are arguments.  Metrics and logs are left
    out. *)

From S2P Require Import Prelude GoText Json GoTime Errand ErrandState ErrandJson ErrandStore Resilience.

(** ** msgrepo *)

Inductive MsgError := MsgInvalid (what : string) | ErrLeaseLost | MsgNotFound | MsgNotFailed | MsgPg (what : string)
| MsgCancelled.   (* ctx.Err() *)
#[export] Instance MsgError_eq_dec : EqDecision MsgError.
Proof. solve_decision. Defined.

Abbreviation MsgOp := (M ODB MsgError).

Definition maxBatch : Z := 500.

(** [time.Duration.Microseconds], as nanoseconds. *)
Definition micros (d : Z) : Z := Z.quot d 1000 * 1000.

(** The delivery columns of a row. *)
Definition set_delivery (r : ORow) (status : OStatus) (attempts next : Z) (owner : option string)
    (expires : option Z) (code : option string) (sentAt confirmedAt : option Z) : ORow :=
  mkORow (or_ID r) (or_Kind r) (or_IdempotencyKey r) (or_ErrandID r) (or_Payload r) status attempts next
    owner expires code (or_CreatedAt r) sentAt confirmedAt.

(** [UPDATE outbox SET ... WHERE ...] and the number of rows it changed. *)
Definition sql_update (P : ORow → bool) (f : ORow → ORow) : MsgOp Z :=
  λ db, Ok (Z.of_nat (length (scan P (db_outbox db))),
            set_outbox ((λ r, if P r then f r else r) <$> db_outbox db) (db_next_outbox db) db).

Definition in_family (credit : bool) (r : ORow) : bool :=
  if credit then is_credit (or_Kind r) else is_event (or_Kind r).

Definition outbox_due (clock : Z) (credit : bool) (r : ORow) : bool :=
  bool_decide (or_Status r = OPending) && (or_NextAttemptAt r <=? clock) && in_family credit r.

Definition lease_free (clock : Z) (r : ORow) : bool :=
  match or_LeaseExpiresAt r with None => true | Some e => e <=? clock end.

(** [ORDER BY next_attempt_at, id] *)
Definition attempt_le (r r' : ORow) : Prop :=
  or_NextAttemptAt r < or_NextAttemptAt r' ∨
  (or_NextAttemptAt r = or_NextAttemptAt r' ∧ or_ID r ≤ or_ID r').
#[export] Instance attempt_le_dec r r' : Decision (attempt_le r r').
Proof. unfold attempt_le. apply _. Defined.

Definition claimable (clock : Z) (credit : bool) (skip : Z → bool) (r : ORow) : bool :=
  outbox_due clock credit r && lease_free clock r && negb (skip (or_ID r)).

Definition claim_leased (clock lease : Z) (worker : string) (r : ORow) : ORow :=
  set_delivery r (or_Status r) (or_Attempts r + 1) (or_NextAttemptAt r) (Some worker)
    (Some (clock + micros lease)) (or_LastFailureCode r) (or_SentAt r) (or_ConfirmedAt r).

Definition claimed_rows (clock : Z) (credit : bool) (skip : Z → bool) (limit : Z) (db : ODB) : list ORow :=
  take (Z.to_nat limit) (merge_sort attempt_le (snd <$> scan (claimable clock credit skip) (db_outbox db))).

Definition ClaimOutbox (clock : Z) (skip : Z → bool) (order : list ORow → list ORow) (worker : string)
    (credit : bool) (limit lease : Z) : MsgOp (list ORow) :=
  λ db,
    let due := claimed_rows clock credit skip limit db in
    let ids := or_ID <$> due in
    if existsb (λ r, max_int32 <? or_Attempts r + 1) due then Err (MsgPg "integer out of range")
    else Ok (order (claim_leased clock lease worker <$> due),
             set_outbox ((λ r, if bool_decide (or_ID r ∈ ids) then claim_leased clock lease worker r else r)
                           <$> db_outbox db) (db_next_outbox db) db).

(** The condition of the lease-guarded updates, for the claim [row]. *)
Definition holds_lease (clock : Z) (row r : ORow) : bool :=
  (or_ID r =? or_ID row) && bool_decide (or_Status r = OPending)
  && bool_decide (or_LeaseOwner r = or_LeaseOwner row) && bool_decide (is_Some (or_LeaseOwner r))
  && (or_Attempts r =? or_Attempts row)
  && match or_LeaseExpiresAt r with Some e => clock <? e | None => false end.

Definition MarkOutboxSent (clock : Z) (row : ORow) : MsgOp Z :=
  sql_update (holds_lease clock row)
    (λ r, set_delivery r OSent (or_Attempts r) (or_NextAttemptAt r) None None None (Some clock) (or_ConfirmedAt r)).

Definition RescheduleOutbox (clock delay : Z) (code : string) (row : ORow) : MsgOp Z :=
  sql_update (holds_lease clock row)
    (λ r, set_delivery r (or_Status r) (or_Attempts r) (clock + micros delay) None None (Some code)
            (or_SentAt r) (or_ConfirmedAt r)).

Definition MarkOutboxFailed (clock : Z) (code : string) (row : ORow) : MsgOp Z :=
  sql_update (holds_lease clock row)
    (λ r, set_delivery r OFailed (or_Attempts r) (or_NextAttemptAt r) None None (Some code)
            (or_SentAt r) (or_ConfirmedAt r)).

Definition unsettled_credit (key : string) (r : ORow) : bool :=
  has_key key r && is_credit (or_Kind r)
  && (bool_decide (or_Status r = OPending) || bool_decide (or_Status r = OSent)).

Definition ConfirmOutboxByKey (clock : Z) (key : string) : MsgOp Z :=
  sql_update (unsettled_credit key)
    (λ r, set_delivery r OConfirmed (or_Attempts r) (or_NextAttemptAt r) None None None (or_SentAt r) (Some clock)).

Definition FailOutboxByKey (key code : string) : MsgOp Z :=
  sql_update (unsettled_credit key)
    (λ r, set_delivery r OFailed (or_Attempts r) (or_NextAttemptAt r) None None (Some code)
            (or_SentAt r) (or_ConfirmedAt r)).

Definition sent_le (r r' : ORow) : Prop := default 0 (or_SentAt r) ≤ default 0 (or_SentAt r').
#[export] Instance sent_le_dec r r' : Decision (sent_le r r').
Proof. unfold sent_le. apply _. Defined.

Definition unconfirmed (clock timeout : Z) (skip : Z → bool) (r : ORow) : bool :=
  bool_decide (or_Status r = OSent) && is_credit (or_Kind r)
  && match or_SentAt r with Some at_ => at_ <=? clock - micros timeout | None => false end
  && negb (skip (or_ID r)).

(** The rows moved back to PENDING. *)
Definition ResendUnconfirmedOutbox (clock : Z) (skip : Z → bool) (timeout limit : Z) : MsgOp (list ORow) :=
  λ db,
    let stale := take (Z.to_nat limit)
      (merge_sort sent_le (snd <$> scan (unconfirmed clock timeout skip) (db_outbox db))) in
    let ids := or_ID <$> stale in
    let again r := set_delivery r OPending (or_Attempts r) clock None None (or_LastFailureCode r)
                     (or_SentAt r) (or_ConfirmedAt r) in
    Ok (again <$> stale,
        set_outbox ((λ r, if bool_decide (or_ID r ∈ ids) then again r else r) <$> db_outbox db)
          (db_next_outbox db) db).

Definition GetOutboxByKey (key : string) (db : ODB) : option ORow :=
  snd <$> scan1 (has_key key) (db_outbox db).

Definition RequeueOutbox (clock id : Z) : MsgOp (option ORow) :=
  λ db,
    match db_outbox db !! id with
    | Some r =>
        if bool_decide (or_Status r = OFailed) then
          let r' := set_delivery r OPending 0 clock None None (or_LastFailureCode r) (or_SentAt r) (or_ConfirmedAt r) in
          Ok (Some r', set_outbox (<[id := r']> (db_outbox db)) (db_next_outbox db) db)
        else Ok (None, db)
    | None => Ok (None, db)
    end.

(** repository.go *)

Definition msg_Claim (clock : Z) (skip : Z → bool) (order : list ORow → list ORow) (worker : string)
    (credit : bool) (limit lease : Z) : MsgOp (list ORow) :=
  if bool_decide (worker = "") || (limit <? 1) || (maxBatch <? limit) || (lease <? 1000)
  then fail (MsgInvalid "msgrepo: invalid claim parameters")
  else ClaimOutbox clock skip order worker credit limit lease.

(** [leased] *)
Definition require_leased (m : MsgOp Z) : MsgOp unit :=
  let! n := m in if n =? 0 then fail ErrLeaseLost else ret tt.

Definition msg_MarkSent (clock : Z) (row : ORow) : MsgOp unit := require_leased (MarkOutboxSent clock row).

Definition msg_Reschedule (clock : Z) (row : ORow) (delay : Z) (code : string) : MsgOp unit :=
  if (delay <? 0) || bool_decide (code = "") then fail (MsgInvalid "msgrepo: invalid retry parameters")
  else require_leased (RescheduleOutbox clock delay code row).

Definition msg_MarkFailed (clock : Z) (row : ORow) (code : string) : MsgOp unit :=
  if bool_decide (code = "") then fail (MsgInvalid "msgrepo: failure code is required")
  else require_leased (MarkOutboxFailed clock code row).

Definition ConfirmByKey (clock : Z) (key : string) : MsgOp bool :=
  if bool_decide (key = "") then fail (MsgInvalid "msgrepo: command key is required")
  else let! n := ConfirmOutboxByKey clock key in ret (0 <? n).

Definition MarkFailedByKey (key code : string) : MsgOp bool :=
  if bool_decide (key = "") || bool_decide (code = "")
  then fail (MsgInvalid "msgrepo: command key and failure code are required")
  else let! n := FailOutboxByKey key code in ret (0 <? n).

Definition ResendUnconfirmed (clock : Z) (skip : Z → bool) (timeout limit : Z) : MsgOp (list ORow) :=
  if (timeout <? 1000) || (limit <? 1) || (maxBatch <? limit)
  then fail (MsgInvalid "msgrepo: invalid resend parameters")
  else ResendUnconfirmedOutbox clock skip timeout limit.

Definition CountDue (clock : Z) (credit : bool) (db : ODB) : Z :=
  Z.of_nat (length (scan (outbox_due clock credit) (db_outbox db))).

Definition GetByKey (key : string) : MsgOp ORow :=
  λ db, match GetOutboxByKey key db with Some r => Ok (r, db) | None => Err MsgNotFound end.

Definition Requeue (clock id : Z) : MsgOp ORow :=
  let! row := RequeueOutbox clock id in
  match row with
  | Some r => ret r
  | None => λ db, match db_outbox db !! id with None => Err MsgNotFound | Some _ => Err MsgNotFailed end
  end.

Definition InsertRequeueAudit (actorID : string) (id : Z) (reason : string) (outcome : AuditOutcome) : MsgOp unit :=
  if bool_decide (actorID = "") || (id <? 1) then fail (MsgInvalid "msgrepo: audit actor and row are required")
  else λ db, Ok (tt, set_audit (db_audit db ++
         [mkAuditRow actorID "OUTBOX_REQUEUE" "OUTBOX" (itoa id) (text reason) outcome]) db).

(** ** Messages *)

Inductive OPublishError := PubUnpublishable | PubUnroutable | PubBrokerUnavailable | PubDeadlineExceeded | PubOther.
#[export] Instance OPublishError_eq_dec : EqDecision OPublishError.
Proof. solve_decision. Defined.

Record OEnvelope := mkOEnvelope {
  oe_MessageID : string; oe_CorrelationID : string; oe_Type : string; oe_OccurredAt : Z;
  oe_ErrandID : string; oe_ErrandVersion : Z; oe_Data : option json }.

Record Message := mkMessage { m_Exchange : string; m_RoutingKey : string; m_Envelope : OEnvelope }.

Definition ExchangeEvents := "foc.events".
Definition ExchangeCommands := "foc.commands".

Definition CreditCommands : list string :=
  [KindCreditReserve; KindCreditAdjust; KindCreditRelease; KindCreditTransfer].

(** [EventNames], as routing keys: the transition events, the rejection events
    and the two reminders. *)
Definition EventNames : list string :=
  (event_string <$>
    [ErrandPlaced; ErrandOpened; ErrandRejected; ErrandEdited; ErrandEditRequested; ErrandEditRejected;
     ErrandAccepted; ErrandCancelled; ErrandWithdrawn; ErrandExpired; ErrandPickedUp; ErrandDelivered;
     ErrandReviewRequired; ErrandCompleted; ErrandRefunded; ErrandAcceptRejected; ErrandCancelRejected;
     ErrandPickupRejected])
  ++ ["errand.verification_reminder"; "errand.pickup_deadline_approaching"].

(** [json.Unmarshal] of a [CreditCommand]. *)
Definition dec_command (v : json) : option CreditCommand :=
  obind (members v) (λ ms,
  obind (dec_field dec_string "errandId" ms "") (λ eid,
  obind (dec_field dec_int64 "errandVersion" ms 0) (λ ver,
  obind (dec_field dec_string "requesterId" ms "") (λ req,
  obind (dec_field dec_string "courierId" ms "") (λ cou,
  obind (dec_field dec_int64 "amount" ms 0) (λ am,
  obind (dec_field dec_int64 "newAmount" ms 0) (λ na,
  obind (dec_field dec_int64 "seq" ms 0) (λ q,
    Some (mkCreditCommand eid ver req cou am na q))))))))).

(** [json.Marshal(envelope)] *)
Definition enc_envelope (e : OEnvelope) : option json :=
  obind (format_rfc3339 (oe_OccurredAt e)) (λ t,
    Some (JObj ([("messageId", JStr (oe_MessageID e))]
                ++ enc_str_omit "correlationId" (oe_CorrelationID e)
                ++ [("type", JStr (oe_Type e)); ("occurredAt", JStr t);
                    ("errandId", JStr (oe_ErrandID e)); ("errandVersion", JInt (oe_ErrandVersion e));
                    ("data", default JNull (oe_Data e))]))).

(** The credit-specific part of [encode]. *)
Definition command_ok (routingKey : string) (e : OEnvelope) (data : json) : bool :=
  match dec_command data with
  | None => false
  | Some c =>
      bool_decide (cc_ErrandID c = oe_ErrandID e) && (cc_ErrandVersion c =? oe_ErrandVersion e)
      && negb (bool_decide (cc_RequesterID c = ""))
      && (if bool_decide (routingKey = KindCreditReserve) || bool_decide (routingKey = KindCreditTransfer)
          then (0 <? cc_Amount c)
               && negb (bool_decide (routingKey = KindCreditTransfer) && bool_decide (cc_CourierID c = ""))
          else if bool_decide (routingKey = KindCreditAdjust)
          then (0 <? cc_NewAmount c) && (0 <? cc_Seq c)
          else true)
  end.

(** [encode]: the body, or [ErrUnpublishable]. *)
Definition encode_message (m : Message) : option json :=
  let e := m_Envelope m in
  let validRoute :=
    (bool_decide (m_Exchange m = ExchangeCommands) && bool_decide (m_RoutingKey m ∈ CreditCommands))
    || (bool_decide (m_Exchange m = ExchangeEvents) && bool_decide (m_RoutingKey m ∈ EventNames)) in
  match oe_Data e with
  | Some ((JObj _) as data) =>
      if negb validRoute || negb (bool_decide (oe_Type e = m_RoutingKey m)) || bool_decide (oe_MessageID e = "")
         || (255 <? len (oe_MessageID e)) || (255 <? len (oe_CorrelationID e))
         || bool_decide (oe_ErrandID e = "") || (oe_ErrandVersion e <? 1) || IsZero (oe_OccurredAt e)
      then None
      else if bool_decide (m_Exchange m = ExchangeCommands) && negb (command_ok (m_RoutingKey m) e data)
      then None
      else enc_envelope e
  | _ => None
  end.

(** The members [MessageFromOutbox] reads: errandId, errandVersion, at. *)
Definition dec_identity (v : json) : option (string * Z * Z) :=
  obind (members v) (λ ms,
  obind (dec_field dec_string "errandId" ms "") (λ eid,
  obind (dec_field dec_int64 "errandVersion" ms 0) (λ ver,
  obind (dec_field dec_time "at" ms zero_time) (λ at_, Some (eid, ver, at_))))).

(** [strings.TrimPrefix(kind, "event.")] when the prefix is there. *)
Definition event_routing_key (kind : string) : option string :=
  if is_event kind then Some (String.substring 6 (String.length kind - 6) kind) else None.

(** [None] is [ErrUnpublishable]. *)
Definition MessageFromOutbox (row : ORow) : option Message :=
  match dec_identity (or_Payload row) with
  | None => None
  | Some (eid, ver, at_) =>
      if negb (bool_decide (eid = or_ErrandID row)) || (ver <? 1) then None
      else
        let built :=
          let env key occurred :=
            mkOEnvelope (or_IdempotencyKey row) "" key occurred (or_ErrandID row) ver (Some (or_Payload row)) in
          if bool_decide (or_Kind row ∈ CreditCommands) then
            Some (mkMessage ExchangeCommands (or_Kind row) (env (or_Kind row) (or_CreatedAt row)))
          else match event_routing_key (or_Kind row) with
               | Some key =>
                   if bool_decide (key ∈ EventNames) then
                     if IsZero at_ then None else Some (mkMessage ExchangeEvents key (env key at_))
                   else None
               | None => None
               end in
        match built with
        | None => None
        | Some m => match encode_message m with Some _ => Some m | None => None end
        end
  end.

(** ** dispatcher.go *)

Record ODispatcherConfig := mkODispatcherConfig {
  od_WorkerID : string; od_PollInterval : Z; od_BatchSize : Z; od_Lease : Z; od_PublishTimeout : Z;
  od_MaxAttempts : Z; od_SweepInterval : Z; od_SweepLimit : Z; od_Backoff : BackoffPolicy }.

Definition ODefaultDispatcherConfig : ODispatcherConfig :=
  mkODispatcherConfig "" nsec 10 (120 * nsec) (10 * nsec) 10 (60 * nsec) 100 DefaultBackoffPolicy.

(** [withDefaults]; [newWorkerID] is [NewWorkerID()].  The product in the lease
    condition wraps around like Go's. *)
Definition owithDefaults (newWorkerID : string) (c : ODispatcherConfig) : res string ODispatcherConfig :=
  let def := ODefaultDispatcherConfig in
  let or0 x d := if x =? 0 then d else x in
  let c := mkODispatcherConfig
    (if bool_decide (od_WorkerID c = "") then newWorkerID else od_WorkerID c)
    (or0 (od_PollInterval c) (od_PollInterval def)) (or0 (od_BatchSize c) (od_BatchSize def))
    (or0 (od_Lease c) (od_Lease def)) (or0 (od_PublishTimeout c) (od_PublishTimeout def))
    (or0 (od_MaxAttempts c) (od_MaxAttempts def)) (or0 (od_SweepInterval c) (od_SweepInterval def))
    (or0 (od_SweepLimit c) (od_SweepLimit def))
    (if (bp_Base (od_Backoff c) =? 0) && (bp_Cap (od_Backoff c) =? 0) then od_Backoff def else od_Backoff c) in
  if (od_PollInterval c <? 0) || (od_SweepInterval c <? 0) || (od_PublishTimeout c <? 0)
  then Err "messaging: dispatcher intervals must be positive"
  else if (od_BatchSize c <? 1) || (500 <? od_BatchSize c) || (od_SweepLimit c <? 1) || (500 <? od_SweepLimit c)
  then Err "messaging: batch size and sweep limit must be between 1 and 500"
  else if od_MaxAttempts c <? 1 then Err "messaging: max attempts must be positive"
  else if od_Lease c <=? wrap64 (od_BatchSize c * od_PublishTimeout c)
  then Err "messaging: lease must exceed batch size times publish timeout"
  else if negb (policy_valid (od_Backoff c)) then Err "resilience: invalid backoff"
  else Ok c.

Definition ofailureCode (e : OPublishError) : string :=
  match e with
  | PubUnpublishable => "UNPUBLISHABLE" | PubUnroutable => "UNROUTABLE"
  | PubBrokerUnavailable => "BROKER_UNAVAILABLE" | PubDeadlineExceeded => "PUBLISH_TIMEOUT"
  | PubOther => "PUBLISH_FAILED"
  end.

(** [settle]: a lost lease is not an error. *)
Definition osettle (m : MsgOp unit) : MsgOp unit :=
  λ db, match m db with
        | Err ErrLeaseLost => Ok (tt, db)
        | r => r
        end.

Section dispatcher.
Context (cfg : ODispatcherConfig) (rand : Z → Z) (publish : Message → option OPublishError).

Definition ohandle (clock : Z) (row : ORow) : MsgOp unit :=
  if od_MaxAttempts cfg <? or_Attempts row
  then osettle (msg_MarkFailed clock row "ATTEMPTS_EXHAUSTED")
  else
    let failed := match MessageFromOutbox row with
                  | None => Some PubUnpublishable
                  | Some m => publish m
                  end in
    match failed with
    | None => osettle (msg_MarkSent clock row)
    | Some err =>
        if bool_decide (err = PubUnpublishable) || (od_MaxAttempts cfg <=? or_Attempts row)
        then osettle (msg_MarkFailed clock row (ofailureCode err))
        else osettle (msg_Reschedule clock row
                        (policy_Backoff rand (od_Backoff cfg) (or_Attempts row)) (ofailureCode err))
    end.

(** [handBack]: an error is only logged. *)
Fixpoint ohand_back (rows : list (ORow * Z * bool)) (db : ODB) : ODB :=
  match rows with
  | [] => db
  | (row, clock, _) :: rows' =>
      ohand_back rows' (snd (inTx (osettle (msg_Reschedule clock row 0 "WORKER_STOPPED")) db))
  end.

(** The loop of [dispatch] over (row, the server's clock at its update, whether
    the context was cancelled before it).  Each row's update commits on its
    own. *)
Fixpoint ohandle_all (rows : list (ORow * Z * bool)) (db : ODB) : option MsgError * ODB :=
  match rows with
  | [] => (None, db)
  | (row, clock, stopped) :: rows' =>
      if stopped then (Some MsgCancelled, ohand_back rows db)
      else match inTx (ohandle clock row) db with
           | (Err e, db') => (Some e, db')
           | (Ok _, db') => ohandle_all rows' db'
           end
  end.

(** [dispatch]: whether the batch was full, and the error that ended it. *)
Definition odispatch (clock : Z) (skip : Z → bool) (order : list ORow → list ORow) (credit : bool)
    (clocks : ORow → Z) (stopped : ORow → bool) (db : ODB) : (bool * option MsgError) * ODB :=
  match inTx (msg_Claim clock skip order (od_WorkerID cfg) credit (od_BatchSize cfg) (od_Lease cfg)) db with
  | (Err e, db) => ((false, Some e), db)
  | (Ok rows, db) =>
      let '(err, db) := ohandle_all ((λ r, (r, clocks r, stopped r)) <$> rows) db in
      ((bool_decide (err = None) && (Z.of_nat (length rows) =? od_BatchSize cfg), err), db)
  end.

(** The sweep's loop over [ResendUnconfirmed], one clock per query. *)
Fixpoint osweep (timeout : Z) (queries : list (Z * (Z → bool))) (db : ODB) : option MsgError * ODB * bool :=
  match queries with
  | [] => (None, db, false)
  | (clock, skip) :: queries' =>
      match inTx (ResendUnconfirmed clock skip timeout (od_SweepLimit cfg)) db with
      | (Err e, db') => (Some e, db', true)
      | (Ok resent, db') =>
          if Z.of_nat (length resent) <? od_SweepLimit cfg then (None, db', true)
          else osweep timeout queries' db'
      end
  end.

End dispatcher.
