(* ===== verification/OutboxAdmin.v ===== *)
(** * order-service: outbox administration

    [internal/outboxadmin]: the page of failed outbox rows and the audited
    replay of one, with [msgrepo]'s [ListFailed].  Every call of the store is
    one statement or one transaction.  Logging is left out. *)

From S2P Require Import Prelude Keyset GoText Json GoTime Errand ErrandState ErrandJson ErrandStore ErrandLists ErrandHttp ErrandReads Review OrderOutbox.

(** ** msgrepo *)

(** [WHERE status = 'FAILED' AND id > after_id ORDER BY id LIMIT row_limit] *)
Definition ListFailedOutbox (afterID limit : Z) (db : ODB) : list ORow :=
  keyset Z.le or_ID (Some afterID) (Z.to_nat limit)
    (snd <$> scan (λ r, bool_decide (or_Status r = OFailed)) (db_outbox db)).

Definition ListFailed (limit afterID : Z) : MsgOp (list ORow) :=
  if (limit <? 1) || (maxBatch <? limit) || (afterID <? 0) then fail (MsgInvalid "msgrepo: invalid page parameters")
  else λ db, Ok (ListFailedOutbox afterID limit db, db).

(** ** The store *)

(** [PostgresStore.Requeue]: the replay and its audit commit together, and so
    does the audit of a refusal. *)
Definition store_Requeue (clock : Z) (actor : string) (id : Z) (reason : string) (db : ODB) : res MsgError ORow * ODB :=
  let '(row, db1) := inTx (Requeue clock id) db in
  match row with
  | Err e =>
      if bool_decide (e = MsgNotFound) || bool_decide (e = MsgNotFailed) then
        match InsertRequeueAudit actor id reason AuditRejected db1 with
        | Ok (_, db2) => (row, db2)
        | Err e' => (Err e', db)
        end
      else (Err e, db)
  | Ok _ =>
      match InsertRequeueAudit actor id reason AuditSucceeded db1 with
      | Ok (_, db2) => (row, db2)
      | Err e' => (Err e', db)
      end
  end.

(** ** The handlers *)

Record rowResponse := mkRowResponse {
  rp_ID : Z; rp_Kind : string; rp_ErrandID : string; rp_Status : OStatus; rp_Attempts : Z; rp_LastFailureCode : string;
  rp_CreatedAt : Z; rp_NextAttemptAt : Z; rp_SentAt : option Z }.

(** A time that was never set is left out. *)
Definition project (r : ORow) : rowResponse :=
  mkRowResponse (or_ID r) (or_Kind r) (or_ErrandID r) (or_Status r) (or_Attempts r) (default "" (or_LastFailureCode r))
    (or_CreatedAt r) (or_NextAttemptAt r)
    (match or_SentAt r with Some t => if IsZero t then None else Some t | None => None end).

Inductive OBody :=
| OPage (items : list rowResponse) (nextCursor : string)
| ORowBody (row : rowResponse)
| OFailure (code : Code).

Record OReply := mkOReply { orp_Status : Z; orp_Body : OBody }.

Definition o_error (code : Code) : OReply := mkOReply (HTTPStatus code) (OFailure code).

(** Every query parameter, the cursor too, is in [qy_Values]. *)
Definition failed_limit (q : Query) : option Z :=
  if qHas q "limit" then
    match Atoi (qGet q "limit") with
    | Some n => if (n <? 1) || (100 <? n) then None else Some n
    | None => None
    end
  else Some 25.

Definition failed_after (q : Query) : option Z :=
  if qHas q "cursor" then
    match Atoi (qGet q "cursor") with
    | Some n => if n <? 1 then None else Some n
    | None => None
    end
  else Some 0.

(** [list]; one row more than the page shows whether another page exists. *)
Definition list_failed (q : Query) (db : ODB) : OReply :=
  match failed_limit q, failed_after q with
  | Some limit, Some after =>
      match fst (inTx (ListFailed (limit + 1) after) db) with
      | Err _ => o_error Internal
      | Ok rows =>
          let n := Z.to_nat limit in
          let next := if (n <? length rows)%nat
                      then match rows !! (n - 1)%nat with Some r => itoa (or_ID r) | None => "" end else "" in
          mkOReply 200 (OPage (project <$> take n rows) next)
      end
  | _, _ => o_error InvalidArgument
  end.

(** A request: the subject of the principal, the path value, and what the JSON
    decoder reads from the body when it is one value within the limit. *)
Record ORequest := mkORequest { oq_Principal : option string; oq_ID : string; oq_Body : option json }.

Fixpoint reason_members (ms : list (string * json)) (reason : string) : option string :=
  match ms with
  | [] => Some reason
  | (key, v) :: ms' =>
      if key_matches "reason" key then
        match v with
        | JStr s => reason_members ms' s
        | JNull => reason_members ms' reason
        | _ => None
        end
      else None
  end.

Definition decode_reason (body : option json) : option string :=
  match body ≫= members with
  | None => None
  | Some ms =>
      match reason_members ms "" with
      | Some reason => if bool_decide (trim_space reason = "") || (500 <? rune_count reason) then None else Some reason
      | None => None
      end
  end.

Definition requeue_row (clock : Z) (rq : ORequest) (db : ODB) : OReply * ODB :=
  match Atoi (oq_ID rq) with
  | None => (o_error InvalidArgument, db)
  | Some id =>
      if id <? 1 then (o_error InvalidArgument, db)
      else
        match decode_reason (oq_Body rq) with
        | None => (mkOReply 400 (OFailure ValidationFailed), db)
        | Some reason =>
            let '(row, db') := store_Requeue clock (default "" (oq_Principal rq)) id reason db in
            match row with
            | Ok r => (mkOReply 200 (ORowBody (project r)), db')
            | Err MsgNotFound => (o_error OutboxRowNotFound, db')
            | Err MsgNotFailed => (o_error InvalidTransition, db')
            | Err _ => (o_error Internal, db')
            end
        end
  end.
