(* ===== verification/OutboxAdminProps.v ===== *)
(** * order-service: what the outbox routes guarantee

    A replay is audited and changes one delivery state; paging through the
    failed rows shows each of them once. *)

From S2P Require Import Prelude Keyset GoText Json GoTime Errand Settings ErrandState ErrandJson ErrandInv ErrandStore Fence OpsRepo StoreInv StoreSafe StoreSystem ErrandLists ErrandHttp ErrandReads Review HttpSystem HttpProps OrderOutbox OutboxAdmin.

Open Scope Z_scope.

(** ** Replays *)

(** A row put back in the queue at [clock]. *)
Definition replayed (clock : Z) (r : ORow) : ORow :=
  set_delivery r OPending 0 clock None None (or_LastFailureCode r) (or_SentAt r) (or_ConfirmedAt r).

Lemma Requeue_inv clock id db :
  match Requeue clock id db with
  | Ok (r', db') => ∃ r, db_outbox db !! id = Some r ∧ or_Status r = OFailed ∧ r' = replayed clock r ∧
      db' = set_outbox (<[id := r']> (db_outbox db)) (db_next_outbox db) db
  | Err MsgNotFound => db_outbox db !! id = None
  | Err MsgNotFailed => ∃ r, db_outbox db !! id = Some r ∧ or_Status r ≠ OFailed
  | Err _ => False
  end.
Proof.
  unfold Requeue, bind, RequeueOutbox. destruct (db_outbox db !! id) as [r|] eqn:Hl.
  - case_bool_decide as Hs; simpl; [by exists r|]. rewrite Hl. by exists r.
  - by rewrite Hl.
Qed.

Definition requeue_audit (actor : string) (id : Z) (reason : string) (outcome : AuditOutcome) : AuditRow :=
  mkAuditRow actor "OUTBOX_REQUEUE" "OUTBOX" (itoa id) (text reason) outcome.

(** What a replay request does to the database, by its answer. *)
Definition requeue_outcome (clock : Z) (rq : ORequest) (db : ODB) (reply : OReply) (db' : ODB) : Prop :=
  match orp_Status reply with
  | 200 => ∃ actor id reason r, oq_Principal rq = Some actor ∧ Atoi (oq_ID rq) = Some id ∧ decode_reason (oq_Body rq) = Some reason ∧
      db_outbox db !! id = Some r ∧ or_Status r = OFailed ∧
      orp_Body reply = ORowBody (project (replayed clock r)) ∧
      db' = set_audit (db_audit db ++ [requeue_audit actor id reason AuditSucceeded])
              (set_outbox (<[id := replayed clock r]> (db_outbox db)) (db_next_outbox db) db) ∧
      lease_free clock (replayed clock r) = true ∧
      ∀ credit, in_family credit r = true → outbox_due clock credit (replayed clock r) = true
  | 404 => ∃ actor id reason, oq_Principal rq = Some actor ∧ Atoi (oq_ID rq) = Some id ∧ decode_reason (oq_Body rq) = Some reason ∧
      db_outbox db !! id = None ∧ db' = set_audit (db_audit db ++ [requeue_audit actor id reason AuditRejected]) db
  | 409 => ∃ actor id reason r, oq_Principal rq = Some actor ∧ Atoi (oq_ID rq) = Some id ∧ decode_reason (oq_Body rq) = Some reason ∧
      db_outbox db !! id = Some r ∧ or_Status r ≠ OFailed ∧
      db' = set_audit (db_audit db ++ [requeue_audit actor id reason AuditRejected]) db
  | _ => db' = db
  end.

Lemma InsertRequeueAudit_run actor id reason outcome db :
  InsertRequeueAudit actor id reason outcome db =
  if bool_decide (actor = "") || (id <? 1) then Err (MsgInvalid "msgrepo: audit actor and row are required")
  else Ok (tt, set_audit (db_audit db ++ [requeue_audit actor id reason outcome]) db).
Proof. unfold InsertRequeueAudit. by destruct (_ || _). Qed.

Lemma requeue_row_spec clock rq db :
  requeue_outcome clock rq db (requeue_row clock rq db).1 (requeue_row clock rq db).2.
Proof.
  unfold requeue_row. destruct (Atoi (oq_ID rq)) as [id|] eqn:Hid; [|done]. destruct (id <? 1) eqn:Hpos; [done|].
  destruct (decode_reason (oq_Body rq)) as [reason|] eqn:Hb; [|done]. unfold store_Requeue, inTx.
  pose proof (Requeue_inv clock id db) as Hr.
  assert (∀ actor, default "" (oq_Principal rq) = actor → bool_decide (actor = "") = false → oq_Principal rq = Some actor) as Hactor.
  { intros actor Ha Hne. bool_props. destruct (oq_Principal rq); simpl in Ha; congruence. }
  destruct (Requeue clock id db) as [[r' db1]|e]; [|destruct e; try done];
    rewrite InsertRequeueAudit_run, Hpos, orb_false_r; cbn [bool_decide orb];
    try rewrite bool_decide_true by done; try rewrite orb_true_r; destruct (bool_decide (default "" (oq_Principal rq) = "")) eqn:Hne; try done.
  - destruct Hr as (r & Hl & Hs & -> & ->). cbn. exists (default "" (oq_Principal rq)), id, reason, r.
    split_and!; try done; [by apply Hactor|].
    intros credit Hf. unfold outbox_due. cbn. rewrite Z.leb_refl. by destruct credit.
  - cbn. exists (default "" (oq_Principal rq)), id, reason. by split_and!; [apply Hactor|..].
  - destruct Hr as (r & Hl & Hs). cbn. exists (default "" (oq_Principal rq)), id, reason, r. by split_and!; [apply Hactor|..].
Qed.

(** ** Decimal numbers *)

Lemma pretty_digit_val (d : N) : (d < 10)%N → digit_val (pretty_N_char d) = Some (Z.of_N d).
Proof.
  intros Hd. assert (d ∈ [0; 1; 2; 3; 4; 5; 6; 7; 8; 9]%N) as Hin by (rewrite !elem_of_cons; lia).
  apply list_elem_of_In in Hin. simpl in Hin. by destruct_or?; subst d.
Qed.

Lemma pretty_digits (x : N) s : digits (pretty_N_go x s) 0 = digits s (Z.of_N x).
Proof.
  revert s. induction (N.lt_wf_0 x) as [x _ IH]. intros s. destruct (decide (0 < x)%N) as [Hx|Hx].
  - rewrite pretty_N_go_step by done. rewrite IH by (apply N.div_lt; lia). cbn [digits].
    rewrite pretty_digit_val by (apply N.mod_lt; lia). f_equal.
    rewrite (N.div_mod x 10) at 3 by lia. lia.
  - assert (x = 0%N) as -> by lia. by rewrite pretty_N_go_0.
Qed.

(** A positive ID reads back from its decimal form. *)
Lemma Atoi_itoa n : 0 < n → in_int64 n → Atoi (itoa n) = Some n.
Proof.
  intros Hn Hr. destruct n as [|p|p]; try lia.
  assert (digits (itoa (Z.pos p)) 0 = Some (Z.pos p)) as Hd.
  { unfold itoa. change (pretty (Z.pos p)) with (pretty_N_go (N.pos p) ""). by rewrite pretty_digits. }
  assert (in_int64b (Z.pos p) = true) as Hb by (unfold in_int64, in_int64b in *; rewrite andb_true_iff, !Z.leb_le; lia).
  unfold Atoi. destruct (itoa (Z.pos p)) as [|c s] eqn:Hs; [done|].
  assert (c ≠ "-"%char ∧ c ≠ "+"%char) as [Hm Hpl].
  { split; intros ->; by cbn in Hd. }
  assert (∀ (x y : option Z), (match String c s with String "-" s' => x | String "+" s' => y | _ => digits (String c s) 0 end) = Some (Z.pos p)) as Hmatch.
  { intros x y. destruct c as [[] [] [] [] [] [] [] []]; done. }
  destruct c as [[] [] [] [] [] [] [] []]; try done; rewrite Hd, Hb; done.
Qed.

Lemma itoa_nonempty n : 0 < n → in_int64 n → itoa n ≠ "".
Proof. intros Hn Hr Hs. pose proof (Atoi_itoa n Hn Hr) as Ha. by rewrite Hs in Ha. Qed.

Section outbox_admin.
Context `{Hpg : Postgres, Hpgok : !PostgresOk}.

Lemma requeue_audit_reach db seen actor id reason outcome :
  reachable db seen → actor ≠ "" → 0 < id → in_int64 id →
  ∃ seen', reachable (set_audit (db_audit db ++ [requeue_audit actor id reason outcome]) db) seen'.
Proof.
  intros Hr Ha Hid Hw. eexists. eapply reach_step; [done|]. eapply step_audit. unfold InsertAudit, requeue_audit. cbn [au_ActorID au_Action au_TargetType au_TargetID].
  rewrite !bool_decide_false; [done|by apply itoa_nonempty|done..].
Qed.

Lemma replayed_delivery clock id r db :
  db_outbox db !! id = Some r →
  delivery_only db (set_outbox (<[id := replayed clock r]> (db_outbox db)) (db_next_outbox db) db).
Proof.
  intros Hl. eexists. split; [done|]. intros i. destruct (decide (i = id)) as [->|Hne].
  - by rewrite lookup_insert_eq, Hl.
  - by rewrite lookup_insert_ne.
Qed.

Lemma requeue_reaches clock rq db seen :
  reachable db seen → ∃ seen', reachable (requeue_row clock rq db).2 seen'.
Proof.
  intros Hr. unfold requeue_row. destruct (Atoi (oq_ID rq)) as [id|] eqn:Hid; [|by exists seen].
  destruct (id <? 1) eqn:Hpos; [by exists seen|]. apply Z.ltb_ge in Hpos.
  destruct (decode_reason (oq_Body rq)) as [reason|]; [|by exists seen].
  assert (in_int64 id) as Hw.
  { unfold Atoi in Hid. destruct (match oq_ID rq with String "-" s' => _ | _ => _ end) as [n|]; [|done].
    destruct (in_int64b n) eqn:Hb; [|done]. simplify_eq. unfold in_int64b in Hb. bool_props. by split. }
  unfold store_Requeue, inTx. pose proof (Requeue_inv clock id db) as Hq.
  destruct (Requeue clock id db) as [[r' db1]|e].
  - destruct Hq as (r & Hl & _ & -> & ->). rewrite InsertRequeueAudit_run.
    destruct (bool_decide _ || _) eqn:Ha; [by exists seen|]. bool_props.
    eapply requeue_audit_reach; [|done|lia|done]. eapply reach_step; [done|]. by eapply step_deliver, replayed_delivery.
  - destruct (bool_decide _ || bool_decide (e = _)) eqn:He; [|by exists seen; destruct e].
    rewrite InsertRequeueAudit_run. destruct (bool_decide (default "" _ = "") || _) eqn:Ha; [by exists seen|].
    bool_props. assert (∀ o : OReply, ∃ seen', reachable (o, set_audit (db_audit db ++ [requeue_audit (default "" (oq_Principal rq)) id reason AuditRejected]) db).2 seen') as Hgo.
    { intros o. simpl. eapply requeue_audit_reach; [done..|lia|done]. }
    destruct e; apply Hgo.
Qed.

(** A replay asked for by an administrator is audited and changes one
    delivery state.  It is accepted (200) exactly for a FAILED row: the row
    becomes PENDING with no attempts, free and due at once, its message as it
    was, and one SUCCEEDED audit row with the reason is written with it.  A row
    that does not exist (404) or is not FAILED (409) leaves only a REJECTED
    audit row.  Any other answer changes nothing, and the database reached
    satisfies the store's invariants. *)
Theorem requeue_is_audited clock rq db seen reply db' :
  reachable db seen → requeue_row clock rq db = (reply, db') →
  requeue_outcome clock rq db reply db' ∧ ∃ seen', reachable db' seen'.
Proof.
  intros Hr Heq. pose proof (requeue_row_spec clock rq db) as Hs. pose proof (requeue_reaches clock rq db seen Hr) as Hreach.
  by rewrite Heq in Hs, Hreach.
Qed.

(** ** Pages *)

Definition failed_query (params : list (string * string)) (cursor : string) : Query :=
  mkQuery (if bool_decide (cursor = "") then params else ("cursor", cursor) :: params) None.

(** Follow [nextCursor] until it is empty. *)
Fixpoint walk_failed (db : ODB) (params : list (string * string)) (fuel : nat) (cursor : string) : option (list rowResponse) :=
  match fuel with
  | O => None
  | S fuel =>
      match list_failed (failed_query params cursor) db with
      | mkOReply 200 (OPage items next) =>
          if bool_decide (next = "") then Some items else app items <$> walk_failed db params fuel next
      | _ => None
      end
  end.

Definition failed_rows (db : ODB) : list ORow := snd <$> scan (λ r, bool_decide (or_Status r = OFailed)) (db_outbox db).

Lemma failed_rows_ids db seen r : reachable db seen → r ∈ failed_rows db → 1 ≤ or_ID r < db_next_outbox db.
Proof.
  intros Hr. unfold failed_rows. intros ([i r'] & -> & [Hl _]%elem_of_scan)%list_elem_of_fmap.
  destruct (store_reachable_ok _ _ Hr) as (Hok & _). by destruct (oi_id _ (so_outbox _ Hok) _ _ Hl) as [<- ?].
Qed.

Lemma failed_rows_keys db seen : reachable db seen → NoDup (or_ID <$> failed_rows db).
Proof.
  intros Hr. destruct (store_reachable_ok _ _ Hr) as (Hok & _).
  assert (∀ kr, kr ∈ scan (λ r, bool_decide (or_Status r = OFailed)) (db_outbox db) → or_ID kr.2 = kr.1) as Hid.
  { intros [i r] [Hl _]%elem_of_scan. by destruct (oi_id _ (so_outbox _ Hok) _ _ Hl). }
  assert (or_ID <$> failed_rows db = fst <$> scan (λ r, bool_decide (or_Status r = OFailed)) (db_outbox db)) as ->.
  { unfold failed_rows. rewrite <- list_fmap_compose. by apply list_fmap_ext; intros ? kr ?%list_elem_of_lookup_2; apply Hid. }
  unfold scan. pose proof (NoDup_fst_map_to_list (db_outbox db)) as Hnd.
  induction (map_to_list _) as [|kr l IH]; [constructor|]. rewrite fmap_cons in Hnd. apply NoDup_cons in Hnd as [Hn Hnd].
  cbn [List.filter]. destruct (bool_decide _); [|by apply IH]. rewrite fmap_cons. apply NoDup_cons. split; [|by apply IH].
  intros (kr' & Heq & Hin)%list_elem_of_fmap. apply Hn, list_elem_of_fmap. exists kr'. split; [done|].
  by apply list_elem_of_In, filter_In in Hin as [Hin%list_elem_of_In _].
Qed.

Lemma failed_limit_cursor params cursor : failed_limit (failed_query params cursor) = failed_limit (mkQuery params None).
Proof. unfold failed_limit, failed_query, qHas, qGet. by case_bool_decide. Qed.

Lemma failed_limit_bounds q limit : failed_limit q = Some limit → 1 ≤ limit ≤ 100.
Proof.
  unfold failed_limit. destruct (qHas q "limit"); [|by intros [= <-]]. destruct (Atoi _) as [n|]; [|done].
  destruct (_ || _) eqn:Hn; [done|]. intros [= <-]. bool_props. lia.
Qed.

Lemma failed_after_cursor params n :
  1 ≤ n → in_int64 n → failed_after (failed_query params (itoa n)) = Some n.
Proof.
  intros Hn Hw. unfold failed_after, failed_query, qHas, qGet. rewrite bool_decide_false by (apply itoa_nonempty; [lia|done]).
  cbn [qy_Values existsb fst first_value]. rewrite !bool_decide_true by done. cbn [orb]. rewrite Atoi_itoa by (done || lia). by rewrite (proj2 (Z.ltb_ge n 1)) by lia.
Qed.

Lemma list_failed_page params cursor limit after db :
  failed_limit (mkQuery params None) = Some limit → failed_after (failed_query params cursor) = Some after → 0 ≤ after →
  list_failed (failed_query params cursor) db =
    let rows := keyset Z.le or_ID (Some after) (Z.to_nat limit + 1) (failed_rows db) in
    mkOReply 200 (OPage (project <$> take (Z.to_nat limit) rows)
      (if (Z.to_nat limit <? length rows)%nat
       then match rows !! (Z.to_nat limit - 1)%nat with Some r => itoa (or_ID r) | None => "" end else "")).
Proof.
  intros Hl Ha Hpos. pose proof (failed_limit_bounds _ _ Hl) as Hb. unfold list_failed. rewrite failed_limit_cursor, Hl, Ha.
  unfold ListFailed. rewrite (proj2 (Z.ltb_ge (limit + 1) 1)), (proj2 (Z.ltb_ge maxBatch _)), (proj2 (Z.ltb_ge after 0)) by (unfold maxBatch; lia).
  cbn [orb inTx fst]. unfold ListFailedOutbox. by replace (Z.to_nat (limit + 1)) with (Z.to_nat limit + 1)%nat by lia.
Qed.

Lemma walk_failed_from db seen params limit fuel cursor after l :
  reachable db seen → db_next_outbox db ≤ max_int64 → failed_limit (mkQuery params None) = Some limit →
  failed_after (failed_query params cursor) = Some after → 0 ≤ after →
  pages Z.le or_ID fuel (Z.to_nat limit) (Some after) (failed_rows db) = Some l →
  walk_failed db params fuel cursor = Some (project <$> l).
Proof.
  intros Hr Hmax Hl. pose proof (failed_limit_bounds _ _ Hl) as Hb. revert cursor after l.
  induction fuel as [|fuel IH]; intros cursor after l Ha Hpos Hp; [done|]. cbn [pages walk_failed] in *.
  rewrite (list_failed_page _ _ _ _ _ Hl Ha Hpos). cbv zeta. set (rows := keyset _ _ _ _ _) in *.
  destruct (_ <? _)%nat eqn:Hlt; [|by injection Hp as <-].
  apply Nat.ltb_lt in Hlt. rewrite last_lookup, length_take, lookup_take_lt in Hp by lia.
  replace (pred (Z.to_nat limit `min` length rows)) with (Z.to_nat limit - 1)%nat in Hp by lia.
  destruct (rows !! (Z.to_nat limit - 1)%nat) as [r|] eqn:Hlr; [|done].
  assert (r ∈ failed_rows db) as Hin.
  { apply list_elem_of_lookup_2 in Hlr. unfold rows, keyset in Hlr. apply elem_of_take in Hlr as (k & Hlr & _).
    apply list_elem_of_lookup_2 in Hlr. rewrite merge_sort_Permutation in Hlr.
    apply list_elem_of_In, filter_In in Hlr as [Hlr _]. by apply list_elem_of_In. }
  pose proof (failed_rows_ids _ _ _ Hr Hin) as Hid.
  assert (in_int64 (or_ID r)) as Hw by (unfold in_int64, min_int64 in *; lia).
  rewrite bool_decide_false by (apply itoa_nonempty; [lia|done]).
  destruct (pages _ _ fuel _ _ _) as [rest|] eqn:Hrest; [|done]. injection Hp as <-.
  rewrite (IH _ _ _ (failed_after_cursor params _ (proj1 Hid) Hw) ltac:(lia) Hrest). simpl. by rewrite fmap_app.
Qed.

(** An administrator who reads the failed rows from the first page and
    follows each [nextCursor] reads, on a store that does not change, every
    FAILED row exactly once, in the order of their IDs, whatever the page size;
    every cursor is accepted. *)
Theorem failed_pages_list_everything db seen params limit fuel :
  reachable db seen → db_next_outbox db ≤ max_int64 →
  failed_limit (mkQuery params None) = Some limit → qHas (mkQuery params None) "cursor" = false →
  (length (failed_rows db) < fuel)%nat →
  ∃ l, walk_failed db params fuel "" = Some (project <$> l) ∧ StronglySorted (λ r r', or_ID r ≤ or_ID r') l ∧
    l ≡ₚ snd <$> map_to_list (filter (λ kr, or_Status kr.2 = OFailed) (db_outbox db)).
Proof.
  intros Hr Hmax Hl Hc Hf. exists (merge_sort (row_le Z.le or_ID) (failed_rows db)). split_and!.
  - eapply (walk_failed_from _ _ _ _ _ _ 0); [done..| |lia|].
    { unfold failed_after, failed_query. by rewrite bool_decide_true, Hc. }
    pose proof (failed_limit_bounds _ _ Hl) as Hb.
    apply (pages_from Z.le or_ID _ _ _ _ [] _); [by eapply failed_rows_keys|lia|by rewrite merge_sort_Permutation|done|].
    f_equal. assert (∀ r, r ∈ failed_rows db → 1 ≤ or_ID r) as Hpos by (intros r Hin; by apply (failed_rows_ids _ _ _ Hr Hin)).
    induction (failed_rows db) as [|r rows IH]; [done|]. cbn [List.filter]. pose proof (Hpos r ltac:(by left)).
    unfold beyond at 1. rewrite bool_decide_false by lia. cbn [negb]. f_equal. apply IH; [simpl in Hf; lia|].
    intros. apply Hpos. by right.
  - apply (rows_sorted Z.le or_ID).
  - rewrite merge_sort_Permutation. unfold failed_rows. f_equiv. apply NoDup_Permutation.
    + apply NoDup_scan.
    + apply NoDup_map_to_list.
    + intros [i r]. by rewrite elem_of_scan, elem_of_map_to_list, map_lookup_filter_Some, bool_decide_eq_true.
Qed.

End outbox_admin.

(** ** Witnesses *)

Module OutboxScenario.
Export RouteScenario.

(** The messages of the accepted errand, none of which could be delivered. *)
Definition failed_row (r : ORow) : ORow := set_delivery r OFailed 9 (or_NextAttemptAt r) None None (Some "BROKER") None None.
Definition undelivered : ODB := Eval vm_compute in set_outbox (failed_row <$> db_outbox db3) (db_next_outbox db3) db3.

Lemma reach_undelivered : reachable undelivered (current undelivered ++ seen3).
Proof.
  eapply reach_step; [apply reach_db3|]. apply step_deliver. exists (failed_row <$> db_outbox db3).
  split; [vm_compute; reflexivity|]. intros i. rewrite lookup_fmap. by destruct (db_outbox db3 !! i).
Qed.

Definition replay_second : ORequest := mkORequest (Some "auth0|admin") "2" (Some (JObj [("reason", JStr "broker is back")])).
Definition after_replay : OReply * ODB := Eval vm_compute in requeue_row 9000 replay_second undelivered.
End OutboxScenario.
Import OutboxScenario.

Lemma requeue_is_audited_witness :
  orp_Status after_replay.1 = 200 ∧ or_Status <$> db_outbox after_replay.2 !! 2 = Some OPending ∧
  requeue_outcome 9000 replay_second undelivered after_replay.1 after_replay.2.
Proof.
  split; [reflexivity|]. split; [vm_compute; reflexivity|].
  apply (requeue_is_audited 9000 replay_second undelivered (current undelivered ++ seen3) after_replay.1 after_replay.2);
    [apply reach_undelivered|vm_compute; reflexivity].
Defined.

(** One row a page. *)
Definition one_a_page : list (string * string) := [("limit", "1")].

Lemma failed_pages_list_everything_witness :
  (1 < length (failed_rows undelivered))%nat ∧
  ∃ l, walk_failed undelivered one_a_page 50 "" = Some (project <$> l) ∧ StronglySorted (λ r r', or_ID r ≤ or_ID r') l ∧
    l ≡ₚ snd <$> map_to_list (filter (λ kr, or_Status kr.2 = OFailed) (db_outbox undelivered)).
Proof.
  split; [apply Nat.ltb_lt; vm_compute; reflexivity|].
  apply (failed_pages_list_everything undelivered (current undelivered ++ seen3) one_a_page 1 50);
    [apply reach_undelivered|apply Z.leb_le; vm_compute; reflexivity|reflexivity|reflexivity
    |apply Nat.ltb_lt; vm_compute; reflexivity].
Defined.
