(* ===== verification/DeliveryProps.v ===== *)
(** * order-service: properties of outbox delivery

    The statements of msgrepo change delivery states only, a confirmed row
    never changes, a claim that has been overtaken can no longer write, a batch
    whose updates run before its lease expires settles every row it claimed
    and no other, and the unconfirmed sweep ends with nothing overdue left
    behind. *)

From S2P Require Import Prelude GoText Json GoTime Errand ErrandState ErrandJson ErrandInv ErrandStore Fence StoreInv StoreSafe StoreSystem StoreErrors StoreProps Resilience OrderOutbox.

(** Rows are stored under their ids. *)
Definition ids_ok (db : ODB) : Prop := ∀ i r, db_outbox db !! i = Some r → or_ID r = i.

(** ** What the updates may do to a row *)

(** A relation between a row and what delivery makes of it. *)
Class RowRel (R : ORow → ORow → Prop) : Prop := {
  rr_preorder :: PreOrder R;
  rr_message r r' : R r r' → message r' = message r;
  rr_set r st at_ nx ow ex code sent conf :
    or_Status r ≠ OConfirmed → or_Attempts r ≤ at_ → R r (set_delivery r st at_ nx ow ex code sent conf);
}.

(** Nothing to its message, and nothing at all once it is confirmed. *)
Definition row_kept (r r' : ORow) : Prop :=
  message r' = message r ∧ (or_Status r = OConfirmed → r' = r).

(** Claims are counted. *)
Definition row_counted (r r' : ORow) : Prop := row_kept r r' ∧ or_Attempts r ≤ or_Attempts r'.

#[export] Instance row_kept_rel : RowRel row_kept.
Proof.
  split.
  - split; [by intros r|]. intros r1 r2 r3 [H1 H1'] [H2 H2']. split; [congruence|].
    intros Hs. rewrite <- (H1' Hs). apply H2'. by rewrite H1'.
  - by intros r r' [? _].
  - intros * Hs _. split; [done|]. congruence.
Qed.

#[export] Instance row_counted_rel : RowRel row_counted.
Proof.
  split.
  - split; [intros r; split; [by split|lia]|]. intros r1 r2 r3 [H1 ?] [H2 ?]. split; [by etransitivity|lia].
  - by intros r r' [[? _] _].
  - intros * Hs Ha. split; [|done]. split; [done|]. congruence.
Qed.

Section rel.
Context (R : ORow → ORow → Prop) `{!RowRel R}.

Definition rows_rel (db db' : ODB) : Prop :=
  ∃ m, db' = set_outbox m (db_next_outbox db) db ∧ ∀ i, option_relation R (λ _, False) (λ _, False) (db_outbox db !! i) (m !! i).

Lemma rows_rel_refl db : rows_rel db db.
Proof. exists (db_outbox db). split; [by destruct db|]. intros i. by destruct (_ !! _); simpl. Qed.
Lemma rows_rel_trans db1 db2 db3 : rows_rel db1 db2 → rows_rel db2 db3 → rows_rel db1 db3.
Proof.
  intros (m & -> & Hm) (m' & -> & Hm'). exists m'. split; [done|]. intros i. specialize (Hm i). specialize (Hm' i).
  simpl in Hm'. destruct (db_outbox db1 !! i), (m !! i), (m' !! i); simpl in *; try done. by etransitivity.
Qed.

Lemma rows_rel_lookup db db' i r :
  rows_rel db db' → db_outbox db !! i = Some r → ∃ r', db_outbox db' !! i = Some r' ∧ R r r'.
Proof. intros (m & -> & Hm) Hr. specialize (Hm i). rewrite Hr in Hm. destruct (m !! i) eqn:Hi; [|done]. eauto. Qed.

Lemma rows_rel_delivery db db' : rows_rel db db' → delivery_only db db'.
Proof.
  intros (m & -> & Hm). exists m. split; [done|]. intros i. specialize (Hm i).
  destruct (db_outbox db !! i), (m !! i); try done. simpl in *. f_equal. by apply rr_message.
Qed.

Lemma rows_rel_map db (f : ORow → ORow) :
  (∀ i r, db_outbox db !! i = Some r → R r (f r)) →
  rows_rel db (set_outbox (f <$> db_outbox db) (db_next_outbox db) db).
Proof.
  intros Hf. eexists. split; [done|]. intros i. rewrite lookup_fmap. destruct (db_outbox db !! i) eqn:Hi; [|done].
  simpl. by eapply Hf.
Qed.

Lemma rows_rel_ids db db' : rows_rel db db' → ids_ok db → ids_ok db'.
Proof.
  intros (m & -> & Hm) Hids i r Hr. simpl in Hr. specialize (Hm i). rewrite Hr in Hm.
  destruct (db_outbox db !! i) as [r0|] eqn:Hr0; [|done]. simpl in Hm. apply rr_message in Hm as [= -> _ _ _ _ _]. by apply Hids.
Qed.

(** An operation that respects [R], whatever it returns. *)
Definition keeps {A} (m : MsgOp A) : Prop :=
  ∀ db a db', ids_ok db → m db = Ok (a, db') → rows_rel db db'.

Lemma keeps_ret {A} (a : A) : keeps (ret a).
Proof. intros db b db' _ [= _ <-]. apply rows_rel_refl. Qed.
Lemma keeps_fail {A} e : keeps (fail e : MsgOp A).
Proof. by intros db b db'. Qed.
Lemma keeps_bind {A B} (m : MsgOp A) (k : A → MsgOp B) : keeps m → (∀ a, keeps (k a)) → keeps (bind m k).
Proof.
  intros Hm Hk db b db'' Hids (a & db' & H1 & H2)%bind_Ok. pose proof (Hm _ _ _ Hids H1) as Hk1.
  eapply rows_rel_trans; [done|]. eapply Hk; [|done]. by eapply rows_rel_ids.
Qed.

Lemma keeps_update P f : (∀ r, P r = true → R r (f r)) → keeps (sql_update P f).
Proof.
  intros Hf db n db' _ [= _ <-]. apply rows_rel_map. intros i r _. destruct (P r) eqn:HP; [auto|reflexivity].
Qed.

End rel.

Lemma holds_lease_pending clock row r : holds_lease clock row r = true → or_Status r ≠ OConfirmed.
Proof. unfold holds_lease. intros. bool_props. congruence. Qed.
Lemma unsettled_not_confirmed key r : unsettled_credit key r = true → or_Status r ≠ OConfirmed.
Proof.
  unfold unsettled_credit. intros Hu. bool_props. apply orb_true_iff in H0 as [?|?]; bool_props; congruence.
Qed.

Create HintDb keeps.
#[local] Hint Resolve keeps_ret keeps_fail holds_lease_pending unsettled_not_confirmed Z.le_refl : keeps.

(** ** Rows chosen by a sorted subquery *)

Lemma elem_of_chosen {A} `{∀ r r' : ORow, Decision (A r r')} (P : ORow → bool) n db r :
  ids_ok db → r ∈ take n (merge_sort A (snd <$> scan P (db_outbox db))) →
  db_outbox db !! or_ID r = Some r ∧ P r = true.
Proof.
  intros Hok Hin. apply elem_of_take in Hin as (k & Hk & _).
  apply list_elem_of_lookup_2 in Hk. rewrite merge_sort_Permutation in Hk.
  apply list_elem_of_fmap in Hk as ([i u] & -> & [Hi Hd]%elem_of_scan). simpl in *. by rewrite (Hok _ _ Hi).
Qed.

Section ops.
Context (R : ORow → ORow → Prop) `{!RowRel R}.

Lemma keeps_chosen {A} `{∀ r r' : ORow, Decision (A r r')} (P : ORow → bool) n f db :
  ids_ok db → (∀ r, P r = true → R r (f r)) →
  let ids := or_ID <$> take n (merge_sort A (snd <$> scan P (db_outbox db))) in
  rows_rel R db (set_outbox ((λ r, if bool_decide (or_ID r ∈ ids) then f r else r) <$> db_outbox db)
                  (db_next_outbox db) db).
Proof.
  intros Hok Hf ids. apply rows_rel_map. intros i r Hr. case_bool_decide as Hin; [|reflexivity].
  apply list_elem_of_fmap in Hin as (r' & Heq & [Hl HP]%elem_of_chosen); [|done].
  rewrite <- Heq, (Hok _ _ Hr), Hr in Hl. simplify_eq. auto.
Qed.

Lemma keeps_ClaimOutbox clock skip order worker credit limit lease :
  keeps R (ClaimOutbox clock skip order worker credit limit lease).
Proof.
  intros db a db' Hids. unfold ClaimOutbox. destruct (existsb _ _); [done|]. intros [= _ <-].
  apply keeps_chosen; [done|]. intros r Hr. apply rr_set; [|lia].
  unfold claimable, outbox_due in Hr. bool_props. congruence.
Qed.

Lemma keeps_Resend clock skip timeout limit : keeps R (ResendUnconfirmedOutbox clock skip timeout limit).
Proof.
  intros db a db' Hids [= _ <-]. apply keeps_chosen; [done|]. intros r Hr. apply rr_set; [|lia].
  unfold unconfirmed in Hr. bool_props. congruence.
Qed.

Lemma keeps_updates :
  (∀ clock row, keeps R (MarkOutboxSent clock row)) ∧
  (∀ clock delay code row, keeps R (RescheduleOutbox clock delay code row)) ∧
  (∀ clock code row, keeps R (MarkOutboxFailed clock code row)) ∧
  (∀ clock key, keeps R (ConfirmOutboxByKey clock key)) ∧
  (∀ key code, keeps R (FailOutboxByKey key code)).
Proof.
  split_and!; intros; apply keeps_update; try done; intros r Hr; apply rr_set; eauto with keeps.
Qed.

End ops.
#[local] Hint Resolve keeps_ClaimOutbox keeps_Resend : keeps.

(** ** The repository's operations *)

(** The operations on delivery states; with [counting] without the
    administrator's replay, which starts the count of attempts again. *)
Inductive delivery_op (counting : bool) : ∀ {A}, MsgOp A → Prop :=
| op_claim clock skip order worker credit limit lease :
    delivery_op counting (msg_Claim clock skip order worker credit limit lease)
| op_sent clock row : delivery_op counting (msg_MarkSent clock row)
| op_reschedule clock row delay code : delivery_op counting (msg_Reschedule clock row delay code)
| op_failed clock row code : delivery_op counting (msg_MarkFailed clock row code)
| op_confirm clock key : delivery_op counting (ConfirmByKey clock key)
| op_fail_key key code : delivery_op counting (MarkFailedByKey key code)
| op_resend clock skip timeout limit : delivery_op counting (ResendUnconfirmed clock skip timeout limit)
| op_requeue clock id : counting = false → delivery_op counting (Requeue clock id).

Lemma Requeue_keeps clock id : keeps row_kept (Requeue clock id).
Proof.
  apply keeps_bind; [apply _| |intros [r|]; [apply keeps_ret, _|]; intros db a db' _; by case_match].
  intros db a db' Hids. unfold RequeueOutbox.
  destruct (db_outbox db !! id) as [r|] eqn:Hr; [case_bool_decide|]; intros [= _ <-];
    try apply (rows_rel_refl row_kept).
  eexists. split; [done|]. intros i. destruct (decide (i = id)) as [->|Hne].
  - rewrite Hr, lookup_insert, decide_True by done. simpl. split; [done|]. congruence.
  - rewrite lookup_insert_ne by done. by destruct (db_outbox db !! i); simpl.
Qed.

Lemma delivery_op_rel R `{!RowRel R} counting {A} (m : MsgOp A) :
  (counting = false → ∀ clock id, keeps R (Requeue clock id)) → delivery_op counting m → keeps R m.
Proof.
  intros Hrq Hop. destruct (keeps_updates R) as (? & ? & ? & ? & ?). destruct Hop; [..|auto];
    unfold msg_Claim, msg_MarkSent, msg_Reschedule, msg_MarkFailed, ConfirmByKey, MarkFailedByKey,
      ResendUnconfirmed, require_leased;
    repeat first [solve [eauto with keeps] | apply keeps_bind; [done| |intros] | case_match].
Qed.

Lemma delivery_op_kept counting {A} (m : MsgOp A) : delivery_op counting m → keeps row_kept m.
Proof. apply (delivery_op_rel row_kept). auto using Requeue_keeps. Qed.
Lemma delivery_op_counted {A} (m : MsgOp A) : delivery_op true m → keeps row_counted m.
Proof. by apply (delivery_op_rel row_counted). Qed.

(** ** Claims *)

Lemma claim_lookup clock skip order worker credit limit lease db rows db' row :
  ids_ok db → (∀ l, order l ≡ₚ l) → msg_Claim clock skip order worker credit limit lease db = Ok (rows, db') →
  row ∈ rows →
  ∃ r, db_outbox db !! or_ID row = Some r ∧ claimable clock credit skip r = true ∧
    row = claim_leased clock lease worker r ∧ db_outbox db' !! or_ID row = Some row.
Proof.
  intros Hids Hord. unfold msg_Claim. destruct (_ || _); [done|]. unfold ClaimOutbox. destruct (existsb _ _); [done|].
  intros [= <- <-]. rewrite Hord. intros (r & -> & Hr)%list_elem_of_fmap.
  pose proof Hr as [Hl HP]%elem_of_chosen; [|done]. exists r. split_and!; [done..|]. simpl.
  rewrite lookup_fmap, Hl. simpl. rewrite bool_decide_true; [done|]. by apply list_elem_of_fmap_2.
Qed.

(** ** Histories of delivery *)

(** A step of delivery that does not replay row [id]: replays of other rows are
    allowed. *)
Inductive step_sparing (id : Z) (db db' : ODB) : Prop :=
| spare_delivery A (m : MsgOp A) a : delivery_op true m → m db = Ok (a, db') → step_sparing id db db'
| spare_requeue clock id' r : id' ≠ id → Requeue clock id' db = Ok (r, db') → step_sparing id db db'.

Definition row_counted_on (id : Z) (db db' : ODB) : Prop :=
  ids_ok db' ∧ ∀ r, db_outbox db !! id = Some r → ∃ r', db_outbox db' !! id = Some r' ∧ row_counted r r'.

Lemma Requeue_other clock id' db r db' i :
  Requeue clock id' db = Ok (r, db') → i ≠ id' → db_outbox db' !! i = db_outbox db !! i.
Proof.
  intros (row & db1 & Hq & H)%bind_Ok Hne. assert (db' = db1) as ->.
  { destruct row; [by injection H|]. by case_match. }
  unfold RequeueOutbox in Hq. destruct (db_outbox db !! id'); [case_bool_decide|]; injection Hq as _ <-; try done.
  simpl. by rewrite lookup_insert_ne.
Qed.

Lemma step_sparing_counted id db db' : ids_ok db → step_sparing id db db' → row_counted_on id db db'.
Proof.
  intros Hids [A m a Hop Hm|clock id' r Hne Hq].
  - pose proof (delivery_op_counted _ Hop _ _ _ Hids Hm) as Hr.
    split; [by eapply (rows_rel_ids row_counted)|]. intros r Hl. by eapply (rows_rel_lookup row_counted).
  - split; [by eapply (rows_rel_ids row_kept), Hids; eapply Requeue_keeps|].
    intros r0 Hl. exists r0. by rewrite (Requeue_other _ _ _ _ _ id Hq).
Qed.

Lemma steps_sparing_counted id db db' : ids_ok db → rtc (step_sparing id) db db' → row_counted_on id db db'.
Proof.
  intros Hids Hs. revert Hids. induction Hs as [db|db1 db2 db3 Hstep _ IH]; intros Hids.
  - split; [done|]. intros r Hl. by exists r.
  - destruct (step_sparing_counted _ _ _ Hids Hstep) as [Hids2 Hl1]. destruct (IH Hids2) as [Hids3 Hl2].
    split; [done|]. intros r (r2 & Hr2 & Hc)%Hl1. destruct (Hl2 _ Hr2) as (r3 & Hr3 & Hc').
    exists r3. split; [done|]. by etrans.
Qed.

(** The writes a claim entitles to. *)
Definition guarded_write (row : ORow) (m : MsgOp unit) : Prop :=
  (∃ clock, m = msg_MarkSent clock row) ∨
  (∃ clock delay code, m = msg_Reschedule clock row delay code ∧ 0 ≤ delay ∧ code ≠ "") ∨
  (∃ clock code, m = msg_MarkFailed clock row code ∧ code ≠ "").

Lemma scan_none {V} (P : V → bool) (m : gmap Z V) : (∀ i r, m !! i = Some r → P r = false) → scan P m = [].
Proof.
  intros Hno. destruct (scan P m) as [|[i r] l] eqn:Hs; [done|].
  assert ((i, r) ∈ scan P m) as [Hi HP]%elem_of_scan by (rewrite Hs; left). by rewrite (Hno _ _ Hi) in HP.
Qed.

Lemma guarded_write_lost row m db r :
  ids_ok db → guarded_write row m → db_outbox db !! or_ID row = Some r → or_Attempts r ≠ or_Attempts row →
  m db = Err ErrLeaseLost.
Proof.
  intros Hids Hm Hr Ha.
  assert (∀ clock f, require_leased (sql_update (holds_lease clock row) f) db = Err ErrLeaseLost) as Hlost.
  { intros clock f. unfold require_leased, sql_update, bind. rewrite scan_none; [done|].
    intros i r' Hr'. unfold holds_lease. destruct (or_ID r' =? or_ID row) eqn:Hid; [|done]. bool_props.
    rewrite (Hids _ _ Hr') in Hid. subst i. rewrite Hr in Hr'. simplify_eq.
    apply Z.eqb_neq in Ha. rewrite Ha. by rewrite !andb_false_r. }
  destruct Hm as [(clock & ->)|[(clock & delay & code & -> & Hd & Hc)|(clock & code & -> & Hc)]].
  - apply Hlost.
  - unfold msg_Reschedule. destruct (delay <? 0) eqn:Hneg; bool_props; [lia|]. rewrite bool_decide_false by done. apply Hlost.
  - unfold msg_MarkFailed. rewrite bool_decide_false by done. apply Hlost.
Qed.

(** A guarded write that succeeds found its own claim. *)
Lemma guarded_write_found row m db u db' :
  ids_ok db → guarded_write row m → m db = Ok (u, db') →
  ∃ r, db_outbox db !! or_ID row = Some r ∧ or_Status r = OPending ∧
    or_LeaseOwner r = or_LeaseOwner row ∧ or_Attempts r = or_Attempts row.
Proof.
  intros Hids Hm Hrun.
  assert (∃ clock f, require_leased (sql_update (holds_lease clock row) f) db = Ok (u, db')) as (clock & f & Hup).
  { destruct Hm as [(clock & ->)|[(clock & delay & code & -> & Hd & Hc)|(clock & code & -> & Hc)]].
    - by do 2 eexists.
    - unfold msg_Reschedule in Hrun. destruct (_ || _); [done|]. by do 2 eexists.
    - unfold msg_MarkFailed in Hrun. destruct (bool_decide _); [done|]. by do 2 eexists. }
  unfold require_leased, sql_update, bind in Hup.
  destruct (scan (holds_lease clock row) (db_outbox db)) as [|[i r] l] eqn:Hs; [done|].
  assert ((i, r) ∈ scan (holds_lease clock row) (db_outbox db)) as [Hi Hh]%elem_of_scan by (rewrite Hs; left).
  unfold holds_lease in Hh. bool_props. exists r. rewrite (Hids _ _ Hi) in *. by subst i.
Qed.

Section safety.
Context `{Hpg : Postgres, Hpgok : !PostgresOk}.

Lemma reachable_ids db seen : reachable db seen → ids_ok db.
Proof. intros Hr i r Hi. by destruct (oi_id _ (so_outbox _ (proj1 (store_reachable_ok _ _ Hr))) _ _ Hi). Qed.

(** Delivery changes delivery states only.  In every reachable database,
    each operation of the dispatcher, of the result handler and of the
    administrator's replay leads to a reachable database, leaves errands,
    history, fences and every message as they are, and never touches a row
    that is already CONFIRMED. *)
Theorem delivery_keeps_messages counting {A} (m : MsgOp A) db seen a db' :
  reachable db seen → delivery_op counting m → m db = Ok (a, db') →
  reachable db' (current db' ++ seen) ∧
  db' = set_outbox (db_outbox db') (db_next_outbox db) db ∧
  ∀ i r, db_outbox db !! i = Some r →
    ∃ r', db_outbox db' !! i = Some r' ∧ message r' = message r ∧ (or_Status r = OConfirmed → r' = r).
Proof.
  intros Hr Hop Hm. pose proof (delivery_op_kept _ _ Hop _ _ _ (reachable_ids _ _ Hr) Hm) as Hk. split_and!.
  - eapply reach_step; [done|]. by eapply step_deliver, (rows_rel_delivery row_kept).
  - by destruct Hk as (mm & -> & _).
  - intros i r Hi. by eapply (rows_rel_lookup row_kept).
Qed.

(** C36: A claim that has been overtaken cannot write.  If a row claimed by one
    worker is later claimed again, by any worker, the first claim's MarkSent,
    Reschedule and MarkFailed are refused with ErrLeaseLost from then on,
    whatever delivery does before and after the second claim, replays of other
    rows included, unless an administrator replays this very row.  And in every
    state whatever, replayed or not, such a write succeeds only on a row that
    is pending, leased to the worker that makes it and at the attempt it was
    claimed for, so a row that another worker holds is out of its reach.  (A
    replay starts the count of attempts again: after one, a claim by the same
    worker can have the number of its overtaken claim, see
    [replayed_claim_writes].) *)
Theorem overtaken_claim_cannot_write db seen clock skip order worker credit limit lease rows db1 row m :
  reachable db seen → (∀ l, order l ≡ₚ l) →
  msg_Claim clock skip order worker credit limit lease db = Ok (rows, db1) → row ∈ rows → guarded_write row m →
  (∀ db2 clock2 skip2 order2 worker2 credit2 limit2 lease2 rows2 db3 db4 row2,
     rtc (step_sparing (or_ID row)) db1 db2 → (∀ l, order2 l ≡ₚ l) →
     msg_Claim clock2 skip2 order2 worker2 credit2 limit2 lease2 db2 = Ok (rows2, db3) → row2 ∈ rows2 →
     or_ID row2 = or_ID row → rtc (step_sparing (or_ID row)) db3 db4 →
     m db4 = Err ErrLeaseLost) ∧
  (∀ later seen' u db', reachable later seen' → m later = Ok (u, db') →
     ∃ r, db_outbox later !! or_ID row = Some r ∧ or_Status r = OPending ∧
       or_LeaseOwner r = Some worker ∧ or_Attempts r = or_Attempts row).
Proof.
  intros Hr Ho1 Hc1 Hin1 Hm. pose proof (reachable_ids _ _ Hr) as Hids.
  destruct (claim_lookup _ _ _ _ _ _ _ _ _ _ _ Hids Ho1 Hc1 Hin1) as (r0 & _ & _ & Hrow & Hl1). split.
  - intros db2 clock2 skip2 order2 worker2 credit2 limit2 lease2 rows2 db3 db4 row2 H12 Ho2 Hc2 Hin2 Hid H34.
    assert (∀ c sk o w cr li le d l d', ids_ok d → msg_Claim c sk o w cr li le d = Ok (l, d') → ids_ok d') as Hclaim.
    { intros * Hd Hcl. eapply (rows_rel_ids row_counted); [|exact Hd]. by eapply delivery_op_counted; [constructor|..]. }
    pose proof (Hclaim _ _ _ _ _ _ _ _ _ _ Hids Hc1) as Hids1.
    destruct (steps_sparing_counted _ _ _ Hids1 H12) as [Hids2 Hk12].
    pose proof (Hclaim _ _ _ _ _ _ _ _ _ _ Hids2 Hc2) as Hids3.
    destruct (steps_sparing_counted _ _ _ Hids3 H34) as [Hids4 Hk34].
    destruct (Hk12 _ Hl1) as (r1 & Hl2 & _ & Ha2).
    destruct (claim_lookup _ _ _ _ _ _ _ _ _ _ _ Hids2 Ho2 Hc2 Hin2) as (r2 & Hl2' & _ & Hrow2 & Hl3).
    rewrite Hid in Hl2', Hl3. destruct (Hk34 _ Hl3) as (r4 & Hl4 & _ & Ha4).
    eapply guarded_write_lost; [exact Hids4|exact Hm|exact Hl4|].
    assert (r2 = r1) as -> by congruence. rewrite Hrow2 in Ha4. simpl in Ha4. lia.
  - intros later seen' u db' Hr' Hok.
    destruct (guarded_write_found _ _ _ _ _ (reachable_ids _ _ Hr') Hm Hok) as (r & Hl & Hst & Hown & Hat).
    exists r. split_and!; [done|done| |done]. by rewrite Hown, Hrow.
Qed.

End safety.

(** ** Witnesses *)

Import StoreScenario.

Definition reserve_key : string := IdempotencyKey id1 "reserve" 0.
Definition run_msg {A} (m : MsgOp A) (db : ODB) : ODB := match m db with Ok (_, db') => db' | Err _ => db end.
Definition rows_of (m : MsgOp (list ORow)) (db : ODB) : list ORow := match m db with Ok (l, _) => l | Err _ => [] end.

Lemma delivery_keeps_messages_witness :
  reachable (run_msg (ConfirmByKey 9 reserve_key) db2) (current (run_msg (ConfirmByKey 9 reserve_key) db2) ++ seen2).
Proof.
  eapply (delivery_keeps_messages true (ConfirmByKey 9 reserve_key) db2 seen2 true); [apply reach_db2|constructor|].
  vm_compute. reflexivity.
Defined.

(** The lease of the first claim lasts one microsecond. *)
Definition claim1 : MsgOp (list ORow) := msg_Claim 1000 (λ _, false) (λ l, l) "w1" true 10 1000.
Definition claim2 : MsgOp (list ORow) := msg_Claim 5000 (λ _, false) (λ l, l) "w2" true 10 1000.
Definition held : list ORow := Eval vm_compute in rows_of claim1 db2.
Definition db_held : ODB := Eval vm_compute in run_msg claim1 db2.
Definition taken : list ORow := Eval vm_compute in rows_of claim2 db_held.
Definition db_taken : ODB := Eval vm_compute in run_msg claim2 db_held.

Lemma overtaken_claim_cannot_write_witness :
  match held, taken with
  | row :: _, row2 :: _ => or_ID row2 = or_ID row ∧ msg_MarkSent 5500 row db_taken = Err ErrLeaseLost
  | _, _ => False
  end.
Proof.
  unfold held, taken. split; [reflexivity|].
  match goal with |- msg_MarkSent _ ?row _ = _ =>
    destruct (overtaken_claim_cannot_write db2 seen2 1000 (λ _, false) (λ l, l) "w1" true 10 1000 held db_held row
                (msg_MarkSent 5500 row)) as [H _];
      [apply reach_db2|done|vm_compute; reflexivity|left|left; by eexists|] end.
  eapply (H db_held 5000 (λ _, false) (λ l, l) "w2" true 10 1000 taken db_taken db_taken);
    [apply rtc_refl|done|vm_compute; reflexivity|left|reflexivity|apply rtc_refl].
Defined.

(** The proviso of C36: the same worker claims the row a second time after its
    command failed and was replayed, and the first claim's write succeeds. *)
Definition claim_again : MsgOp (list ORow) := msg_Claim 5000 (λ _, false) (λ l, l) "w1" true 10 1000.
Definition db_replayed : ODB :=
  Eval vm_compute in
    run_msg claim_again (run_msg (Requeue 3000 1) (run_msg (MarkFailedByKey reserve_key "REFUSED") db_held)).

Lemma replayed_claim_writes :
  match held with
  | row :: _ => match msg_MarkSent 5500 row db_replayed with Ok _ => True | Err _ => False end
  | [] => False
  end.
Proof. vm_compute. exact I. Qed.

(** ** Batches *)

Section batch.
Context (cfg : ODispatcherConfig) (rand : Z → Z) (publish : Message → option OPublishError).

(** What becomes of a claimed row: SENT when the broker confirmed it, FAILED
    when it can never be sent or its attempts are used up, due again after the
    backoff otherwise. *)
Definition settled_row (clock : Z) (row : ORow) : ORow :=
  let set st nx code sent := set_delivery row st (or_Attempts row) nx None None code sent (or_ConfirmedAt row) in
  let failed code := set OFailed (or_NextAttemptAt row) (Some code) (or_SentAt row) in
  if od_MaxAttempts cfg <? or_Attempts row then failed "ATTEMPTS_EXHAUSTED"
  else match MessageFromOutbox row with
       | None => failed "UNPUBLISHABLE"
       | Some m =>
           match publish m with
           | None => set OSent (or_NextAttemptAt row) None (Some clock)
           | Some err =>
               if bool_decide (err = PubUnpublishable) || (od_MaxAttempts cfg <=? or_Attempts row)
               then failed (ofailureCode err)
               else set OPending (clock + micros (policy_Backoff rand (od_Backoff cfg) (or_Attempts row)))
                      (Some (ofailureCode err)) (or_SentAt row)
           end
       end.

(** A row under a lease that has not expired. *)
Definition under_lease (clock : Z) (row : ORow) : Prop :=
  or_Status row = OPending ∧ is_Some (or_LeaseOwner row) ∧ ∃ e, or_LeaseExpiresAt row = Some e ∧ clock < e.

Lemma update_one clock row f db :
  ids_ok db → db_outbox db !! or_ID row = Some row → under_lease clock row →
  require_leased (sql_update (holds_lease clock row) f) db
  = Ok (tt, set_outbox (<[or_ID row := f row]> (db_outbox db)) (db_next_outbox db) db).
Proof.
  intros Hids Hrow (Hst & Hown & e & Hex & Hlt).
  assert (holds_lease clock row row = true) as Hh.
  { unfold holds_lease. rewrite Z.eqb_refl, Hst, Hex, !bool_decide_true, Z.eqb_refl by done. by apply Z.ltb_lt in Hlt. }
  assert (∀ i r, db_outbox db !! i = Some r → holds_lease clock row r = true → i = or_ID row ∧ r = row) as Honly.
  { intros i r Hr Hhr. unfold holds_lease in Hhr. bool_props. rewrite (Hids _ _ Hr) in *. subst i.
    split; [done|]. congruence. }
  unfold require_leased, sql_update, bind. destruct (Z.of_nat _ =? 0) eqn:Hn; bool_props.
  { destruct (scan _ _) as [|[i r] l] eqn:Hs; [|simpl in Hn; lia].
    assert ((or_ID row, row) ∈ scan (holds_lease clock row) (db_outbox db)) as Hin by by apply elem_of_scan.
    rewrite Hs in Hin. by apply elem_of_nil in Hin. }
  unfold ret. do 3 f_equal. apply map_eq. intros i. rewrite lookup_fmap.
  destruct (decide (i = or_ID row)) as [->|Hne].
  - rewrite Hrow, lookup_insert, decide_True by done. simpl. by rewrite Hh.
  - rewrite lookup_insert_ne by done. destruct (db_outbox db !! i) as [r|] eqn:Hr; [|done]. simpl.
    destruct (holds_lease clock row r) eqn:Hhr; [|done]. by destruct (Honly _ _ Hr Hhr).
Qed.

Hypothesis Hbackoff : ∀ n, 0 ≤ policy_Backoff rand (od_Backoff cfg) n.

Lemma ofailureCode_nonempty e : ofailureCode e ≠ "".
Proof. by destruct e. Qed.

Lemma ohandle_settles clock row db :
  ids_ok db → db_outbox db !! or_ID row = Some row → under_lease clock row →
  ohandle cfg rand publish clock row db
  = Ok (tt, set_outbox (<[or_ID row := settled_row clock row]> (db_outbox db)) (db_next_outbox db) db).
Proof.
  intros Hids Hrow Hlease. pose proof (λ f, update_one clock row f db Hids Hrow Hlease) as Hup.
  assert (or_Status row = OPending) as Hst by apply Hlease.
  assert (∀ code, code ≠ "" → osettle (msg_MarkFailed clock row code) db
    = Ok (tt, set_outbox (<[or_ID row := set_delivery row OFailed (or_Attempts row) (or_NextAttemptAt row) None None
        (Some code) (or_SentAt row) (or_ConfirmedAt row)]> (db_outbox db)) (db_next_outbox db) db)) as Hfail.
  { intros code Hc. unfold osettle, msg_MarkFailed, MarkOutboxFailed. rewrite bool_decide_false by done. by rewrite Hup. }
  unfold ohandle, settled_row. destruct (od_MaxAttempts cfg <? or_Attempts row); [by apply Hfail|].
  destruct (MessageFromOutbox row) as [m|]; [|by apply Hfail].
  destruct (publish m) as [err|]; [|unfold osettle, msg_MarkSent, MarkOutboxSent; by rewrite Hup].
  destruct (bool_decide (err = PubUnpublishable) || (od_MaxAttempts cfg <=? or_Attempts row));
    [apply Hfail, ofailureCode_nonempty|].
  unfold osettle, msg_Reschedule, RescheduleOutbox. destruct (_ <? 0) eqn:Hneg; bool_props.
  { specialize (Hbackoff (or_Attempts row)). lia. }
  rewrite bool_decide_false by apply ofailureCode_nonempty. simpl. by rewrite Hup, Hst.
Qed.

Lemma ohandle_all_settles rows db (clocks : ORow → Z) :
  ids_ok db → NoDup (or_ID <$> rows) →
  (∀ r, r ∈ rows → db_outbox db !! or_ID r = Some r ∧ under_lease (clocks r) r) →
  ∃ db', ohandle_all cfg rand publish ((λ r, (r, clocks r, false)) <$> rows) db = (None, db') ∧
    (∀ r, r ∈ rows → db_outbox db' !! or_ID r = Some (settled_row (clocks r) r)) ∧
    ∀ i, i ∉ or_ID <$> rows → db_outbox db' !! i = db_outbox db !! i.
Proof.
  revert db. induction rows as [|r rows IH]; intros db Hids Hnd Hrows.
  { exists db. split_and!; [done| |done]. intros r. by rewrite elem_of_nil. }
  apply NoDup_cons in Hnd as [Hnin Hnd]. destruct (Hrows r) as [Hl Hlease]; [by left|].
  rewrite fmap_cons. cbn [ohandle_all]. unfold inTx. rewrite (ohandle_settles _ _ _ Hids Hl Hlease).
  cbn zeta. set (db1 := set_outbox _ _ db).
  assert (∀ i, i ≠ or_ID r → db_outbox db1 !! i = db_outbox db !! i) as Hother
    by (intros; simpl; by rewrite lookup_insert_ne).
  assert (or_ID (settled_row (clocks r) r) = or_ID r) as Hsid.
  { unfold settled_row. repeat case_match; done. }
  destruct (IH db1) as (db' & -> & Hin & Hout); [| |intros r' Hr'|].
  - intros i u. simpl. intros [[<- <-]|[? Hu]]%lookup_insert_Some; [done|by apply Hids].
  - done.
  - destruct (Hrows r') as [Hl' Hlease']; [by right|]. split; [|done]. rewrite Hother; [done|].
    intros Heq. apply Hnin. rewrite <- Heq. by apply list_elem_of_fmap_2.
  - exists db'. split_and!; [done| |].
    + intros r' [->|Hr']%elem_of_cons; [|by apply Hin]. rewrite Hout by done. simpl. by rewrite lookup_insert, decide_True.
    + intros i [Hi Hi']%not_elem_of_cons. rewrite Hout by done. by apply Hother.
Qed.

End batch.

Lemma NoDup_scan_ids (P : ORow → bool) (db : ODB) : ids_ok db → NoDup (or_ID <$> (snd <$> scan P (db_outbox db))).
Proof.
  intros Hids. rewrite <- list_fmap_compose. erewrite list_fmap_ext; [apply (NoDup_scan_keys P)|].
  intros i [id row] Hi. simpl. apply list_elem_of_lookup_2, elem_of_scan in Hi as [Hl _]. by apply Hids.
Qed.

(** ** The sweep *)

Definition sent_rows (db : ODB) : gmap Z ORow := filter (λ kr, or_Status kr.2 = OSent) (db_outbox db).

Lemma resend_result clock skip timeout limit db resent db' :
  ids_ok db → ResendUnconfirmed clock skip timeout limit db = Ok (resent, db') →
  ids_ok db' ∧ (resent ≠ [] → (size (sent_rows db') < size (sent_rows db))%nat) ∧
  (Z.of_nat (length resent) < limit → ∀ i r, db_outbox db' !! i = Some r → unconfirmed clock timeout skip r = false).
Proof.
  intros Hids Hres.
  assert (ids_ok db') as Hids'.
  { eapply (rows_rel_ids row_counted); [|exact Hids].
    eapply (delivery_op_counted (ResendUnconfirmed clock skip timeout limit)); [constructor|done|done]. }
  split; [done|]. unfold ResendUnconfirmed in Hres.
  destruct (_ || _) eqn:Hp; [done|]. bool_props. unfold ResendUnconfirmedOutbox in Hres.
  set (due := merge_sort sent_le _) in *. set (ids := or_ID <$> take (Z.to_nat limit) due) in *.
  set (again := λ r, set_delivery r OPending _ _ _ _ _ _ _) in *. injection Hres as <- <-.
  assert (∀ r, r ∈ take (Z.to_nat limit) due → db_outbox db !! or_ID r = Some r ∧ unconfirmed clock timeout skip r = true) as Hin.
  { intros r. by apply elem_of_chosen. }
  split.
  - intros Hne. apply map_subset_size. split.
    + apply map_subseteq_spec. intros i r [Hl Hs]%map_lookup_filter_Some. simpl in Hl, Hs.
      rewrite lookup_fmap in Hl. destruct (db_outbox db !! i) as [r0|] eqn:Hr0; [|done]. simpl in Hl.
      case_bool_decide; simplify_eq. by apply map_lookup_filter_Some.
    + destruct (take (Z.to_nat limit) due) as [|r0 l] eqn:Ht; [done|]. intros Hrev.
      destruct (Hin r0) as [Hl Hu]; [by left|]. unfold unconfirmed in Hu. bool_props.
      assert (sent_rows db !! or_ID r0 = Some r0) as Hs by by apply map_lookup_filter_Some.
      eapply lookup_weaken in Hs; [|exact Hrev]. apply map_lookup_filter_Some in Hs as [Hs Hst]. simpl in Hs.
      rewrite lookup_fmap, Hl in Hs. simpl in Hs. rewrite bool_decide_true in Hs by (unfold ids; left). 
      apply (f_equal (fmap or_Status)) in Hs. simpl in Hs, Hst. congruence.
  - rewrite length_fmap, length_take. intros Hshort i r Hl. simpl in Hl. rewrite lookup_fmap in Hl.
    destruct (db_outbox db !! i) as [r0|] eqn:Hr0; [|done]. simpl in Hl.
    case_bool_decide as Hid; injection Hl as <-; [done|].
    destruct (unconfirmed clock timeout skip r0) eqn:Hu; [|done]. exfalso. apply Hid.
    apply list_elem_of_fmap_2. rewrite take_ge by lia. unfold due. rewrite merge_sort_Permutation.
    apply list_elem_of_fmap. exists (i, r0). split; [done|]. by apply elem_of_scan.
Qed.

Section theorems.
Context `{Hpg : Postgres, Hpgok : !PostgresOk}.
Context (cfg : ODispatcherConfig) (rand : Z → Z) (publish : Message → option OPublishError).

(** The unconfirmed sweep ends: with one query allowed per outbox row it
    always stops by itself, without an error, and when it stops no credit
    command that other transactions had not locked is still SENT and past the
    confirmation timeout at the time of its last query. *)
Theorem sweep_ends timeout queries db seen :
  reachable db seen → 1000 ≤ timeout → 1 ≤ od_SweepLimit cfg ≤ maxBatch →
  (size (db_outbox db) < length queries)%nat →
  ∃ db' clock skip, osweep cfg timeout queries db = (None, db', true) ∧ (clock, skip) ∈ queries ∧
    ∀ i r, db_outbox db' !! i = Some r → unconfirmed clock timeout skip r = false.
Proof.
  intros Hr Ht Hlim Hlen. pose proof (reachable_ids _ _ Hr) as Hids. clear Hr.
  assert (size (sent_rows db) < length queries)%nat as Hm.
  { eapply Nat.le_lt_trans; [|exact Hlen]. apply map_subseteq_size, map_filter_subseteq. }
  clear Hlen. revert db Hids Hm. induction queries as [|[clock skip] queries IH]; intros db Hids Hm; simpl in *; [lia|].
  unfold inTx. destruct (ResendUnconfirmed clock skip timeout (od_SweepLimit cfg) db) as [[resent db1]|e] eqn:Hres; last first.
  { unfold ResendUnconfirmed in Hres. destruct (_ || _) eqn:Hp; [|done]. exfalso.
    repeat (apply orb_true_iff in Hp as [Hp|Hp]); bool_props; lia. }
  destruct (resend_result _ _ _ _ _ _ _ Hids Hres) as (Hids1 & Hdec & Hclear).
  destruct (Z.of_nat (length resent) <? od_SweepLimit cfg) eqn:Hshort; bool_props.
  - exists db1, clock, skip. split_and!; [done|left|by apply Hclear].
  - destruct (IH db1) as (db' & clock' & skip' & Hrun & Hin & Hc); [done| |].
    { assert (resent ≠ []) as Hne by (intros ->; simpl in *; lia). specialize (Hdec Hne). lia. }
    exists db', clock', skip'. split_and!; [done|by right|done].
Qed.

(** A dispatcher batch settles every row it claims and no other: as long
    as the updates run before the lease expires, each claimed row ends up SENT
    if the broker confirmed it, FAILED if it cannot be published or its
    attempts are used up, or due again after the backoff, with its lease
    cleared; every other row is as it was. *)
Theorem batch_settles_claimed clock skip order credit clocks db seen :
  reachable db seen → (∀ l, order l ≡ₚ l) → od_WorkerID cfg ≠ "" → 1 ≤ od_BatchSize cfg ≤ maxBatch →
  1000 ≤ od_Lease cfg → (∀ n, 0 ≤ policy_Backoff rand (od_Backoff cfg) n) →
  (∀ r, clocks r < clock + micros (od_Lease cfg)) →
  Forall (λ r, or_Attempts r < max_int32) (claimed_rows clock credit skip (od_BatchSize cfg) db) →
  let claimed := claimed_rows clock credit skip (od_BatchSize cfg) db in
  ∃ db', odispatch cfg rand publish clock skip order credit clocks (λ _, false) db
         = ((Z.of_nat (length claimed) =? od_BatchSize cfg, None), db') ∧
    (∀ r, r ∈ claimed →
       let row := claim_leased clock (od_Lease cfg) (od_WorkerID cfg) r in
       db_outbox db' !! or_ID r = Some (settled_row cfg rand publish (clocks row) row)) ∧
    ∀ i, i ∉ or_ID <$> claimed → db_outbox db' !! i = db_outbox db !! i.
Proof.
  intros Hr Hord Hw Hbs Hls Hb Hck Hat claimed. pose proof (reachable_ids _ _ Hr) as Hids.
  unfold odispatch, inTx. destruct (msg_Claim _ _ _ _ _ _ _ db) as [[rows db1]|e] eqn:Hcl; last first.
  { unfold msg_Claim in Hcl. rewrite bool_decide_false in Hcl by done. simpl in Hcl.
    destruct (_ || _) eqn:Hp; [repeat (apply orb_true_iff in Hp as [Hp|Hp]); bool_props; lia|].
    unfold ClaimOutbox in Hcl. destruct (existsb _ _) eqn:Hex; [|done].
    apply existsb_exists in Hex as (r & Hin%list_elem_of_In & Ho). bool_props.
    rewrite Forall_forall in Hat. specialize (Hat _ Hin). lia. }
  assert (ids_ok db1) as Hids1.
  { eapply (rows_rel_ids row_counted); [|exact Hids]. by eapply delivery_op_counted; [constructor|..]. }
  pose proof (λ row, claim_lookup _ _ _ _ _ _ _ _ _ _ row Hids Hord Hcl) as Hlook.
  assert (rows ≡ₚ claim_leased clock (od_Lease cfg) (od_WorkerID cfg) <$> claimed ∧
          ∀ i, i ∉ or_ID <$> claimed → db_outbox db1 !! i = db_outbox db !! i) as [Hrows Hsame].
  { unfold msg_Claim in Hcl. destruct (_ || _); [done|]. unfold ClaimOutbox in Hcl.
    destruct (existsb _ _); [done|]. injection Hcl as <- <-. split; [apply Hord|].
    intros i Hi. simpl. rewrite lookup_fmap. destruct (db_outbox db !! i) as [r|] eqn:Hri; [|done]. simpl.
    rewrite bool_decide_false; [done|]. by rewrite (Hids _ _ Hri). }
  assert (NoDup (or_ID <$> claimed)) as Hnd.
  { unfold claimed, claimed_rows. rewrite fmap_take. eapply sublist_NoDup; [|apply sublist_take].
    rewrite merge_sort_Permutation. by apply NoDup_scan_ids. }
  assert (or_ID <$> rows ≡ₚ or_ID <$> claimed) as Hridx.
  { rewrite Hrows, <- list_fmap_compose. done. }
  destruct (ohandle_all_settles cfg rand publish Hb rows db1 clocks) as (db' & Hall & Hin & Hout); [done|by rewrite Hridx| |].
  { intros row Hrow. destruct (Hlook row Hrow) as (r & Hl & Hc & -> & Hl'). split; [done|].
    unfold claimable, outbox_due in Hc. bool_props. split_and!; [done|done|]. eexists. split; [done|apply Hck]. }
  rewrite Hall. exists db'. split_and!.
  - simpl. rewrite Hrows, length_fmap. done.
  - intros r Hr1. assert (claim_leased clock (od_Lease cfg) (od_WorkerID cfg) r ∈ rows) as Hrow.
    { rewrite Hrows. by apply list_elem_of_fmap_2. }
    exact (Hin _ Hrow).
  - intros i Hi. rewrite Hout by by rewrite Hridx. by apply Hsame.
Qed.

End theorems.

(** ** Witnesses *)

Import StoreScenario.

Definition worker_cfg : ODispatcherConfig :=
  mkODispatcherConfig "w1" nsec 10 (120 * nsec) (10 * nsec) 10 (60 * nsec) 100 DefaultBackoffPolicy.

Lemma batch_settles_claimed_witness :
  ∃ db', odispatch worker_cfg (λ _, 0) (λ _, None) 1000 (λ _, false) (λ l, l) true (λ _, 2000) (λ _, false) db2
         = ((false, None), db').
Proof.
  destruct (batch_settles_claimed worker_cfg (λ _, 0) (λ _, None) 1000 (λ _, false) (λ l, l) true (λ _, 2000) db2 seen2)
    as (db' & Hrun & _); [apply reach_db2|done|done|vm_compute; by split|vm_compute; done| | | |].
  - intros n. unfold policy_Backoff. by destruct (_ <=? 0).
  - intros r. vm_compute. done.
  - apply (bool_decide_unpack _). vm_compute. exact I.
  - exists db'. rewrite Hrun. vm_compute. reflexivity.
Defined.

Lemma sweep_ends_witness :
  ∃ db', osweep worker_cfg (60 * nsec) (replicate 9 (200 * nsec, λ _, false)) db2 = (None, db', true).
Proof.
  destruct (sweep_ends worker_cfg (60 * nsec) (replicate 9 (200 * nsec, λ _, false)) db2 seen2)
    as (db' & _ & _ & Hrun & _); [apply reach_db2|vm_compute; done|vm_compute; by split|vm_compute; lia|].
  exists db'. exact Hrun.
Defined.
