(* ===== verification/Saga.v ===== *)
(** * Order and credit services: the messages between them

    What an errand asks of credit-service survives the way there: the outbox
    row of every credit command is published, and credit-service's handler
    decodes the published body to exactly the command the errand meant. *)

From S2P Require Import Prelude GoText Json GoTime WalletRepo Wallet CreditOutbox CreditMsg CreditMsgProps Errand ErrandState ErrandJson ErrandInv ErrandProps ErrandStore Resilience OrderOutbox.

(** ** Numbers in keys *)

Lemma pretty_N_go_length k x acc :
  (x < 10 ^ N.of_nat k)%N → (String.length (pretty_N_go x acc) ≤ k + String.length acc)%nat.
Proof.
  revert x acc. induction k as [|k IH]; intros x acc Hx.
  { simpl in Hx. assert (x = 0%N) as -> by lia. by rewrite pretty_N_go_0. }
  destruct (decide (x = 0%N)) as [->|Hne]; [rewrite pretty_N_go_0; lia|].
  rewrite pretty_N_go_step by lia. etransitivity; [apply IH|simpl; lia].
  rewrite Nat2N.inj_succ, N.pow_succ_r' in Hx. apply N.Div0.div_lt_upper_bound. lia.
Qed.

Lemma itoa_length z : 0 < z ≤ ErrandStore.max_int32 → (String.length (itoa z) ≤ 10)%nat.
Proof.
  intros Hz. unfold itoa. destruct z as [|p|p]; [lia| |lia].
  change (pretty (Z.pos p)) with (pretty (N.pos p)).
  unfold pretty, pretty_N. rewrite decide_False by done.
  etransitivity; [apply (pretty_N_go_length 10)|simpl; lia].
  change (10 ^ N.of_nat 10)%N with 10000000000%N. unfold ErrandStore.max_int32 in Hz. lia.
Qed.

(** ** Commands of a transition *)

Lemma erun_requester e0 ts e : erun e0 ts e → e_Status e ≠ StatusNone → e_RequesterID e ≠ "".
Proof.
  induction 1 as [Hfr|ts e ev actor input now t Hrun IH Hnext]; intros Hs.
  { by destruct Hfr as (? & _). }
  change (e_RequesterID (ApplyTo t e)) with (e_RequesterID e).
  destruct (decide (e_Status e = StatusNone)) as [Hn|Hn]; [|by apply IH].
  apply Next_inv in Hnext as (rule & [Hin Hf <- Ha _ _ _]). rewrite Hn in Hf. apply checkActor_Ok in Ha.
  each_rule Hin; simpl in *; try done. destruct Ha as (_ & <- & ?). done.
Qed.

Lemma command_row_key e ev actor input now t row c :
  Next e ev actor input now = Ok t → row ∈ t_Outbox t → o_Payload row = PCommand c →
  o_ErrandID row = e_ID e ∧ ∃ op v, o_IdempotencyKey row = IdempotencyKey (e_ID e) op v ∧
    (String.length op ≤ 13)%nat ∧ (v = 0 ∨ v = t_ExpectedVersion t ∨ v = t_NewVersion t).
Proof.
  intros (rule & [_ _ _ _ _ _ (t0 & _ & ->)])%Next_inv Hin Hp.
  cbn [t_Outbox t_ExpectedVersion t_NewVersion with_outbox] in *. unfold outboxRows in Hin.
  apply elem_of_app in Hin as [Hin|(n & -> & _)%list_elem_of_fmap]; [|done].
  unfold credit_rows in Hin. repeat (apply elem_of_app in Hin as [Hin|Hin]);
    repeat case_match; rewrite ?list_elem_of_singleton, ?elem_of_nil in Hin; try done; subst row;
    simpl; (split; [done|]); eexists _, _; (split; [reflexivity|]); split; auto; simpl; lia.
Qed.

Lemma row_command rows row c :
  row ∈ rows → o_Payload row = PCommand c → (o_Kind row, c) ∈ commands rows.
Proof. intros Hin Hp. apply list_elem_of_omap. exists row. by rewrite Hp. Qed.

(** What credit-service requires of a command, by its kind. *)
Definition command_valid (kind : string) (c : CreditCommand) : Prop :=
  (kind = KindCreditReserve ∧ 0 < cc_Amount c) ∨ kind = KindCreditRelease ∨
  (kind = KindCreditTransfer ∧ 0 < cc_Amount c ∧ cc_CourierID c ≠ "") ∨
  (kind = KindCreditAdjust ∧ 0 < cc_NewAmount c ∧ 0 < cc_Seq c).

(** The numbers of a command fit their Go types. *)
Definition command_fits (c : CreditCommand) : Prop :=
  in_int64 (cc_ErrandVersion c) ∧ in_int64 (cc_Amount c) ∧ in_int64 (cc_NewAmount c) ∧ in_int64 (cc_Seq c).

Lemma Next_command_valid e ev actor input now t row c :
  errand_ok e → Next e ev actor input now = Ok t → row ∈ t_Outbox t → o_Payload row = PCommand c →
  command_valid (o_Kind row) c ∧ cc_ErrandID c = e_ID e ∧ cc_ErrandVersion c = t_NewVersion t ∧
  cc_RequesterID c = e_RequesterID e ∧ 1 ≤ t_NewVersion t.
Proof.
  intros Hok Hnext Hin Hp. pose proof (row_command _ _ _ Hin Hp) as Hc.
  pose proof (Next_errand_ok _ _ _ _ _ _ Hok Hnext) as Hok'.
  destruct (Next_from _ _ _ _ _ _ Hnext) as (_ & _ & _ & Hto & _).
  pose proof (eo_reward _ Hok' Hto) as Hrw. pose proof (eo_placed _ Hok') as Hv.
  change (e_Status (ApplyTo t e)) with (t_To t) in Hv. rewrite bool_decide_false in Hv by done.
  pose proof (eo_placed _ Hok) as Hv0.
  pose proof (Next_sent _ _ _ _ _ _ Hok Hnext) as Hs. set (e' := ApplyTo t e) in *.
  change (t_NewVersion t) with (e_Version e'). change (e_ID e) with (e_ID e').
  change (e_RequesterID e) with (e_RequesterID e'). unfold command_valid.
  destruct Hs; rewrite ?list_elem_of_singleton, ?elem_of_nil in Hc; simplify_eq/=; try done; split_and!; eauto; try lia.
  - pose proof (eo_courier _ Hok') as Hcr. assert (e_Status e' = StatusCompleted) as Hst by done.
    rewrite Hst in Hcr. simpl in Hcr. right. right. left. split_and!; try done; tauto.
  - pose proof (eo_pending _ Hok' _ H2) as (_ & _ & (Hpr & _) & _). right. right. right. split_and!; [done|done|lia].
  - right. right. right. rewrite H in Hv0. simpl in Hv0. split_and!; [done|done|lia].
Qed.

(** ** From the outbox to the wire *)

Lemma dec_enc_command c : command_fits c → dec_command (enc_command c) = Some c.
Proof.
  intros (Hv & Ha & Hn & Hs). unfold dec_command, enc_command. cbn [members obind app].
  autorewrite with json. cbn [obind]. by destruct c.
Qed.

Lemma command_ok_valid kind e c :
  command_fits c → command_valid kind c → cc_ErrandID c = oe_ErrandID e →
  cc_ErrandVersion c = oe_ErrandVersion e → cc_RequesterID c ≠ "" → command_ok kind e (enc_command c) = true.
Proof.
  intros Hf Hv Hid Hver Hreq. unfold command_ok. rewrite dec_enc_command by done.
  rewrite Hid, Hver, !bool_decide_true, Z.eqb_refl, (bool_decide_false (cc_RequesterID c = "")) by done. simpl.
  destruct Hv as [[-> Ha]|[->|[(-> & Ha & Hc)|(-> & Ha & Hs)]]]; simpl.
  - by rewrite (proj2 (Z.ltb_lt _ _) Ha).
  - done.
  - by rewrite (proj2 (Z.ltb_lt _ _) Ha), (bool_decide_false (cc_CourierID c = "")).
  - by rewrite (proj2 (Z.ltb_lt _ _) Ha), (proj2 (Z.ltb_lt _ _) Hs).
Qed.

Lemma command_kind kind c : command_valid kind c → kind ∈ CreditCommands ∧ kind ≠ "".
Proof.
  unfold command_valid, CreditCommands. rewrite !elem_of_cons. intros Hv.
  destruct Hv as [[-> _]|[->|[(-> & _)|(-> & _)]]]; split; auto; done.
Qed.

Section publish.
Variables (kind key id : string) (c : CreditCommand) (clock i : Z) (stamp : string).
Hypothesis Hfits : command_fits c.
Hypothesis Hvalid : command_valid kind c.
Hypothesis Hid : cc_ErrandID c = id ∧ id ≠ "".
Hypothesis Hver : 1 ≤ cc_ErrandVersion c.
Hypothesis Hreq : cc_RequesterID c ≠ "".
Hypothesis Hkey : key ≠ "" ∧ len key ≤ 255.
Hypothesis Hclock : format_rfc3339 clock = Some stamp ∧ IsZero clock = false.

Definition wire_message : Message :=
  mkMessage ExchangeCommands kind
    (mkOEnvelope key "" kind clock id (cc_ErrandVersion c) (Some (enc_command c))).
Definition wire_body : json :=
  JObj [("messageId", JStr key); ("type", JStr kind); ("occurredAt", JStr stamp); ("errandId", JStr id);
        ("errandVersion", JInt (cc_ErrandVersion c)); ("data", enc_command c)].

Lemma encode_wire : encode_message wire_message = Some wire_body.
Proof.
  destruct (command_kind _ _ Hvalid) as [Hk _]. unfold encode_message, wire_message.
  cbn [m_Exchange m_RoutingKey m_Envelope oe_Data oe_Type oe_MessageID oe_CorrelationID oe_ErrandID
       oe_ErrandVersion oe_OccurredAt].
  rewrite (bool_decide_true (kind ∈ CreditCommands)), (bool_decide_true (ExchangeCommands = ExchangeCommands)) by done.
  cbn [andb orb negb].
  rewrite (bool_decide_true (kind = kind)), (bool_decide_false (key = "")), (bool_decide_false (id = "")) by tauto.
  assert ((255 <? len key) = false) as -> by (apply Z.ltb_ge; tauto).
  assert ((cc_ErrandVersion c <? 1) = false) as -> by (apply Z.ltb_ge; lia).
  destruct Hclock as [Hfmt ->]. simpl.
  rewrite command_ok_valid; [|done|done|by destruct Hid|done|done]. simpl.
  unfold enc_envelope. simpl. by rewrite Hfmt.
Qed.

Lemma publishable : MessageFromOutbox (new_orow clock i kind key id (enc_command c)) = Some wire_message.
Proof.
  unfold MessageFromOutbox, dec_identity, enc_command. cbn [or_Payload or_ErrandID or_Kind new_orow members obind app].
  assert (in_int64 (cc_ErrandVersion c)) as Hv64 by apply Hfits.
  autorewrite with json. cbn [obind]. destruct Hid as [Hce _]. rewrite (bool_decide_true (cc_ErrandID c = id)) by done.
  assert ((cc_ErrandVersion c <? 1) = false) as -> by (apply Z.ltb_ge; lia). simpl.
  destruct (command_kind _ _ Hvalid) as [Hk _]. rewrite bool_decide_true by done.
  fold wire_message. pose proof encode_wire as He. unfold wire_message, enc_command in He. simpl in He. rewrite He. done.
Qed.

(** The call credit-service makes for a command. *)
Definition credit_call {S} (commands : Commands S) (st : S) : res GoError Result * S :=
  if bool_decide (kind = KindCreditReserve) then
    do_Reserve commands key (mkReserve id (cc_ErrandVersion c) (cc_RequesterID c) (cc_Amount c)) st
  else if bool_decide (kind = KindCreditAdjust) then
    do_Adjust commands key (mkAdjust id (cc_ErrandVersion c) (cc_RequesterID c) (cc_NewAmount c) (cc_Seq c)) st
  else if bool_decide (kind = KindCreditRelease) then
    do_Release commands key (mkRelease id (cc_ErrandVersion c) (cc_RequesterID c)) st
  else do_Transfer commands key
         (mkTransfer id (cc_ErrandVersion c) (cc_RequesterID c) (cc_CourierID c) (cc_Amount c)) st.

Lemma handle_wire {S} (commands : Commands S) st :
  Handle commands kind (Some wire_body) st = credit_call commands st.
Proof.
  assert (decodeEnvelope kind (Some wire_body)
    = Ok (mkEnvelope key "" kind clock id (cc_ErrandVersion c) (Some (enc_command c)))) as Hdec.
  { unfold decodeEnvelope. rewrite (unmarshal_marshal (mkEnvelope key "" kind clock id (cc_ErrandVersion c) (Some (enc_command c))));
      [|apply Hfits|unfold marshal_envelope; simpl; destruct Hclock as [-> _]; done].
    simpl. rewrite (bool_decide_false (key = "")), (bool_decide_true (kind = kind)), (bool_decide_false (id = "")) by tauto.
    assert ((cc_ErrandVersion c <? 1) = false) as -> by (apply Z.ltb_ge; lia). done. }
  unfold Handle. rewrite Hdec. simpl. destruct Hfits as (Hv & Ha & Hn & Hs). destruct Hid as [Hce _].
  assert (∀ {A} (d : A) dec ids, dec (default [] (members (enc_command c))) = Some d → ids d = (id, cc_ErrandVersion c) →
    decodeData dec ids (mkEnvelope key "" kind clock id (cc_ErrandVersion c) (Some (enc_command c))) = Ok d) as Hdd.
  { intros A d dec ids Hd Hi. unfold decodeData. simpl in *. rewrite Hd, Hi. simpl. unfold equal_fold.
    by rewrite bool_decide_true, Z.eqb_refl. }
  unfold credit_call. destruct Hvalid as [[-> _]|[->|[(-> & _)|(-> & _)]]]; simpl.
  - rewrite (Hdd _ (mkReserveData id (cc_ErrandVersion c) (cc_RequesterID c) (cc_Amount c))); [done| |done].
    unfold dec_reserveData, dec_ids. cbn [enc_command members from_option Datatypes.id app]. autorewrite with json. cbn [obind].
    autorewrite with json. by rewrite Hce.
  - rewrite (Hdd _ (mkReleaseData id (cc_ErrandVersion c) (cc_RequesterID c))); [done| |done].
    unfold dec_releaseData, dec_ids. cbn [enc_command members from_option Datatypes.id app]. autorewrite with json. cbn [obind].
    autorewrite with json. by rewrite Hce.
  - rewrite (Hdd _ (mkTransferData id (cc_ErrandVersion c) (cc_RequesterID c) (cc_CourierID c) (cc_Amount c))); [done| |done].
    unfold dec_transferData, dec_ids. cbn [enc_command members from_option Datatypes.id app]. autorewrite with json. cbn [obind].
    autorewrite with json. by rewrite Hce.
  - rewrite (Hdd _ (mkAdjustData id (cc_ErrandVersion c) (cc_RequesterID c) (cc_NewAmount c) (cc_Seq c))); [done| |done].
    unfold dec_adjustData, dec_ids. cbn [enc_command members from_option Datatypes.id app]. autorewrite with json. cbn [obind].
    autorewrite with json. by rewrite Hce.
Qed.

End publish.

(** ** Every command arrives *)

Lemma key_fits id op v :
  String.length id = 36%nat → (String.length op ≤ 13)%nat → 0 ≤ v ≤ ErrandStore.max_int32 →
  len (IdempotencyKey id op v) ≤ 255 ∧ IdempotencyKey id op v ≠ "".
Proof.
  intros Hid Hop Hv. unfold len, IdempotencyKey.
  assert (∀ s, String.length (id +:+ s) ≠ 0%nat) as Hne by (intros s; rewrite length_sapp; lia).
  destruct (0 <? v) eqn:Hp; bool_props; rewrite ?sapp_assoc.
  - pose proof (itoa_length v ltac:(lia)). rewrite !length_sapp. simpl. split; [lia|].
    intros Heq%(f_equal String.length). by apply Hne in Heq.
  - rewrite !length_sapp. simpl. split; [lia|]. intros Heq%(f_equal String.length). by apply Hne in Heq.
Qed.

(** C37: Every credit command an errand emits is published and understood.
    Whatever happened to the errand, the outbox row of each command of its next
    transition is turned into a message for the command exchange under its own
    kind and idempotency key, and credit-service's handler, given the published
    body, makes exactly the call the errand meant: the same errand, version,
    requester, courier, amount and sequence number, whatever implements the
    commands. *)
Theorem commands_reach_credit e0 ts e ev actor input now t row c clock i stamp :
  erun e0 ts e → Next e ev actor input now = Ok t → row ∈ t_Outbox t → o_Payload row = PCommand c →
  uuid_pattern (e_ID e) = true → t_NewVersion t ≤ ErrandStore.max_int32 → command_fits c →
  format_rfc3339 clock = Some stamp → IsZero clock = false →
  ∃ m body,
    MessageFromOutbox (new_orow clock i (o_Kind row) (o_IdempotencyKey row) (e_ID e) (enc_command c)) = Some m ∧
    m_Exchange m = ExchangeCommands ∧ m_RoutingKey m = o_Kind row ∧
    oe_MessageID (m_Envelope m) = o_IdempotencyKey row ∧ encode_message m = Some body ∧
    ∀ S (commands : Commands S) st,
      Handle commands (m_RoutingKey m) (Some body) st
      = credit_call (o_Kind row) (o_IdempotencyKey row) (e_ID e) c commands st.
Proof.
  intros Hrun Hnext Hin Hp Hu Hmax Hfits Hfmt Hz. pose proof (erun_ok _ _ _ Hrun) as Hok.
  destruct (Next_command_valid _ _ _ _ _ _ _ _ Hok Hnext Hin Hp) as (Hval & Hid & Hver & Hrq & Hge).
  destruct (command_row_key _ _ _ _ _ _ _ _ Hnext Hin Hp) as (_ & op & v & Hkey & Hop & Hv).
  assert (e_RequesterID e ≠ "") as Hreq.
  { pose proof (erun_next _ _ _ _ _ _ _ _ Hrun Hnext) as Hrun'. apply (erun_requester _ _ _ Hrun').
    by destruct (Next_from _ _ _ _ _ _ Hnext) as (_ & _ & _ & Hto & _). }
  destruct (Next_version _ _ _ _ _ _ Hok Hnext) as (He & Hnv).
  assert (0 ≤ e_Version e) as Hev.
  { pose proof (eo_placed _ Hok) as Hx. case_bool_decide; lia. }
  assert (e_Version e ≤ t_NewVersion t) as Hle by (destruct Hnv as [->|(_ & -> & _)]; lia).
  destruct (key_fits (e_ID e) op v) as [Hlen Hne]; [by apply uuid_length|done|lia|]. rewrite <- Hkey in Hlen, Hne.
  assert (e_ID e ≠ "") as Hidne by (intros Heq; rewrite Heq in Hu; done).
  rewrite <- Hver in Hge. rewrite <- Hrq in Hreq.
  exists (wire_message (o_Kind row) (o_IdempotencyKey row) (e_ID e) c clock),
    (wire_body (o_Kind row) (o_IdempotencyKey row) (e_ID e) c stamp).
  split_and!; [by eapply publishable|done|done|done|by apply encode_wire|].
  intros S commands st. by apply handle_wire with (clock := clock).
Qed.

(** ** Witness *)

Module SagaScenario.
Definition id1 := "00000000-0000-4000-8000-000000000001".
Definition details : Details :=
  mkDetails "s" "v" "b" None "lobby" (Some (JArr [JStr "coffee"])) "" "Alice" "91234567" 40 (60 * Errand.minute).
Definition draft : Errand :=
  mkErrand id1 StatusNone 0 "auth0|alice" "" details None None None None ReviewNone "create" None 0 0.
Definition requester : Actor := mkActor ActorRequester "auth0|alice".
Definition nothing : EventInput := mkEventInput None "" false false DefaultDeadlineSettings "" false.
Definition reserve : CreditCommand := mkCreditCommand id1 1 "auth0|alice" "" 40 0 0.
Definition reserve_row : Errand.OutboxRow :=
  mkRow KindCreditReserve (IdempotencyKey id1 "reserve" 0) id1 (PCommand reserve).
End SagaScenario.
Import SagaScenario.

Lemma commands_reach_credit_witness :
  ∃ m body, MessageFromOutbox (new_orow 0 1 KindCreditReserve (IdempotencyKey id1 "reserve" 0) id1 (enc_command reserve))
            = Some m ∧ encode_message m = Some body ∧
    ∀ S (commands : Commands S) st, Handle commands "credit.reserve" (Some body) st
      = do_Reserve commands (IdempotencyKey id1 "reserve" 0) (mkReserve id1 1 "auth0|alice" 40) st.
Proof.
  destruct (Next draft EventSubmit requester nothing 0) as [t|] eqn:Hn; [|vm_compute in Hn; discriminate Hn].
  assert (reserve_row ∈ t_Outbox t ∧ t_NewVersion t = 1) as [Hin Hv].
  { vm_compute in Hn. injection Hn as <-. split; [left|reflexivity]. }
  destruct (commands_reach_credit draft [] draft EventSubmit requester nothing 0 t reserve_row reserve 0 1 "1970-01-01T00:00:00Z")
    as (m & body & Hm & _ & Hk & _ & Hb & Hh);
    [apply erun_start; by repeat split|exact Hn|exact Hin|reflexivity|reflexivity|rewrite Hv; done
    |vm_compute; repeat split; discriminate|vm_compute; reflexivity|reflexivity|].
  exists m, body. split; [exact Hm|]. split; [exact Hb|]. intros S commands st.
  specialize (Hh S commands st). rewrite Hk in Hh. exact Hh.
Defined.
