(* ===== verification/OrderCredit.v ===== *)
(** * order-service: credit results and the reconciler

    [internal/creditmsg/handler.go] (a credit result applied to its errand and
    to the outbox row of the command it answers) and [internal/reconciler]
    (what is done about reservations and edits whose result does not come).

    The handler reads the errand, decides and writes in separate transactions.
    A [Moment] says what happens around one attempt: the two clocks, whether
    the database can be reached, and what others commit before the read and
    between the read and the write.  A message body is its JSON value, or
    [None] when the bytes are not one JSON value.  Logs and counters are left
    out. *)

From S2P Require Import Prelude GoText Json GoTime Errand ErrandState ErrandJson ErrandStore Resilience OrderOutbox.

(** ** Results *)

Definition ResultCreditReserved := "credit.reserved".
Definition ResultCreditReservationRefused := "credit.reservation_refused".
Definition ResultCreditAdjusted := "credit.adjusted".
Definition ResultCreditAdjustRefused := "credit.adjust_refused".
Definition ResultCreditReleased := "credit.released".
Definition ResultCreditTransferred := "credit.transferred".
Definition ResultCreditOperationFailed := "credit.operation_failed".

Definition CreditResults : list string :=
  [ResultCreditReserved; ResultCreditReservationRefused; ResultCreditAdjusted; ResultCreditAdjustRefused;
   ResultCreditReleased; ResultCreditTransferred; ResultCreditOperationFailed].

Record CreditResult := mkCreditResult { cr_Amount : Z; cr_Seq : Z; cr_Code : string }.

(** [json.Unmarshal(body, &r.env)] and [json.Unmarshal(e.Data, &r.data)] *)
Definition dec_envelope (body : option json) : option OEnvelope :=
  obind body (λ v, obind (members v) (λ ms,
  obind (dec_field dec_string "messageId" ms "") (λ mid,
  obind (dec_field dec_string "correlationId" ms "") (λ cid,
  obind (dec_field dec_string "type" ms "") (λ ty,
  obind (dec_field dec_time "occurredAt" ms zero_time) (λ at_,
  obind (dec_field dec_string "errandId" ms "") (λ eid,
  obind (dec_field dec_int64 "errandVersion" ms 0) (λ ver,
  obind (dec_field dec_raw "data" ms None) (λ data,
    Some (mkOEnvelope mid cid ty at_ eid ver data)))))))))).

Definition dec_CreditResult (v : json) : option CreditResult :=
  obind (members v) (λ ms,
  obind (dec_field dec_int64 "amount" ms 0) (λ amount,
  obind (dec_field dec_int64 "seq" ms 0) (λ seq,
  obind (dec_field dec_string "code" ms "") (λ code, Some (mkCreditResult amount seq code))))).

(** The struct [result]. *)
Record ResultMsg := mkResultMsg { rm_routingKey : string; rm_env : OEnvelope; rm_data : CreditResult }.

(** What [correlationId] has to be for each result. *)
Definition answers_command (routingKey errandID key : string) : bool :=
  let is_key op := bool_decide (key = IdempotencyKey errandID op 0) in
  if bool_decide (routingKey = ResultCreditReserved) || bool_decide (routingKey = ResultCreditReservationRefused)
  then is_key "reserve"
  else if bool_decide (routingKey = ResultCreditAdjusted) || bool_decide (routingKey = ResultCreditAdjustRefused)
  then has_prefix key (errandID +:+ ":adjust:") || has_prefix key (errandID +:+ ":adjust-revert:")
  else if bool_decide (routingKey = ResultCreditReleased) then is_key "release"
  else if bool_decide (routingKey = ResultCreditTransferred) then is_key "transfer"
  else true.

Definition needs_code (routingKey : string) : bool :=
  bool_decide (routingKey ∈ [ResultCreditReservationRefused; ResultCreditAdjustRefused; ResultCreditOperationFailed]).

(** [decode]; every error is final. *)
Definition decode_result (routingKey : string) (body : option json) : option ResultMsg :=
  if negb (bool_decide (routingKey ∈ CreditResults)) then None
  else match dec_envelope body with
  | None => None
  | Some e =>
      if negb (bool_decide (oe_Type e = routingKey)) then None
      else if bool_decide (oe_ErrandID e = "") || bool_decide (oe_CorrelationID e = "") then None
      else if negb (has_prefix (oe_CorrelationID e) (oe_ErrandID e +:+ ":")) then None
      else
        match (match oe_Data e with
               | None | Some JNull => Some (mkCreditResult 0 0 "")
               | Some data => dec_CreditResult data
               end) with
        | None => None
        | Some data =>
            if negb (answers_command routingKey (oe_ErrandID e) (oe_CorrelationID e)) then None
            else if needs_code routingKey && bool_decide (cr_Code data = "") then None
            else Some (mkResultMsg routingKey e data)
        end
  end.

(** ** The handler *)

Inductive ODisposition := OAck | ORequeue | OReject.
#[export] Instance ODisposition_eq_dec : EqDecision ODisposition.
Proof. solve_decision. Defined.

Inductive Outcome := OutcomeApplied | OutcomeResolved.

(** [errPoison], or an error worth another delivery. *)
Inductive ApplyFailure := Poison | Transient.

Definition maxConflicts : nat := 3.

Definition codeOf (f : Failure) : option Code :=
  match f with FApp e => Some (ae_Code e) | FPlain _ => None end.

Definition resolved (f : Failure) : bool :=
  bool_decide (codeOf f = Some ErrandUnavailable) || bool_decide (codeOf f = Some ErrandChanged).

Record Moment := mkMoment {
  mo_now : Z;                       (* the service's clock *)
  mo_clock : Z;                     (* the server's clock *)
  mo_get_down : bool;               (* the read fails *)
  mo_apply_down : bool;             (* the write fails, changing nothing *)
  mo_before_get : ODB → ODB;        (* committed by others before the read *)
  mo_before_apply : ODB → ODB;      (* committed by others before the write *)
}.

Section handler.
Context `{Postgres}.

(** The end of the loop body, for the error of [Next] or [Apply]. *)
Definition give_verdict (f : Failure) : res ApplyFailure Outcome :=
  if resolved f then Ok OutcomeResolved
  else match codeOf f with Some _ => Err Poison | None => Err Transient end.

(** How one pass of [applyEvent]'s loop ends: it returns, or [Apply] lost its
    compare-and-swap. *)
Inductive PassEnd := Returned (r : res ApplyFailure Outcome) | LostSwap (f : Failure).

Definition result_pass (m : Moment) (errandID : string) (ev : Event) (input : EventInput) (db : ODB) :
    PassEnd * ODB :=
  let db := mo_before_get m db in
  if mo_get_down m then (Returned (Err Transient), db)
  else match Get errandID db with
  | Err f => (Returned (Err (if bool_decide (codeOf f = Some ErrandNotFound) then Poison else Transient)), db)
  | Ok (e, _) =>
      if negb (bool_decide (i_EditKey input = ""))
         && match e_PendingEdit e with
            | None => true
            | Some p => negb (bool_decide (pe_Key p = i_EditKey input))
            end
      then (Returned (Ok OutcomeResolved), db)
      else match Next e ev SystemActor input (mo_now m) with
      | Err err => (Returned (give_verdict (FApp err)), db)
      | Ok t =>
          let db := mo_before_apply m db in
          match (if mo_apply_down m then (Err (FPlain "database unavailable"), db)
                 else inTx (Apply (mo_clock m) t) db) with
          | (Ok _, db) => (Returned (Ok OutcomeApplied), db)
          | (Err f, db) => (if resolved f then LostSwap f else Returned (give_verdict f), db)
          end
      end
  end.

(** [applyEvent]; [retries] is [maxConflicts - 1 - conflict]. *)
Fixpoint result_event (retries : nat) (moments : nat → Moment) (errandID : string) (ev : Event)
    (input : EventInput) (db : ODB) : res ApplyFailure Outcome * ODB :=
  match result_pass (moments retries) errandID ev input db with
  | (Returned r, db) => (r, db)
  | (LostSwap f, db) =>
      match retries with
      | O => (give_verdict f, db)
      | S retries' => result_event retries' moments errandID ev input db
      end
  end.

(** What happens around the update of the command's row. *)
Record RowMoment := mkRowMoment { rw_clock : Z; rw_down : bool; rw_before : ODB → ODB }.

(** An update of the outbox, as the handler sees it: its error is transient. *)
Definition row_update (at_ : RowMoment) (m : Z → MsgOp bool) (db : ODB) : res ApplyFailure bool * ODB :=
  let db := rw_before at_ db in
  if rw_down at_ then (Err Transient, db)
  else match inTx (m (rw_clock at_)) db with
       | (Ok changed, db) => (Ok changed, db)
       | (Err _, db) => (Err Transient, db)
       end.

(** [transition] *)
Definition result_transition (moments : nat → Moment) (at_ : RowMoment) (r : ResultMsg) (ev : Event)
    (input : EventInput) (db : ODB) : res ApplyFailure Outcome * ODB :=
  match result_event (pred maxConflicts) moments (oe_ErrandID (rm_env r)) ev input db with
  | (Err f, db) => (Err f, db)
  | (Ok outcome, db) =>
      match row_update at_ (λ clock, ConfirmByKey clock (oe_CorrelationID (rm_env r))) db with
      | (Err f, db) => (Err f, db)
      | (Ok _, db) => (Ok outcome, db)
      end
  end.

Definition result_input (reason editKey : string) : EventInput :=
  mkEventInput None reason false false (mkDeadlineSettings 0 0 0 0) editKey false.

Definition row_outcome (o : res ApplyFailure bool * ODB) : res ApplyFailure Outcome * ODB :=
  match o with
  | (Err f, db) => (Err f, db)
  | (Ok changed, db) => (Ok (if changed then OutcomeApplied else OutcomeResolved), db)
  end.

(** [apply] *)
Definition apply_result (moments : nat → Moment) (at_ : RowMoment) (r : ResultMsg) (db : ODB) :
    res ApplyFailure Outcome * ODB :=
  let key := oe_CorrelationID (rm_env r) in
  let code := cr_Code (rm_data r) in
  let is_ k := bool_decide (rm_routingKey r = k) in
  if is_ ResultCreditReserved then
    result_transition moments at_ r EventReservationConfirmed (result_input "" "") db
  else if is_ ResultCreditReservationRefused then
    result_transition moments at_ r EventReservationRefused (result_input code "") db
  else if is_ ResultCreditAdjusted then
    result_transition moments at_ r EventEditConfirmed (result_input "" key) db
  else if is_ ResultCreditAdjustRefused then
    result_transition moments at_ r EventEditRefused (result_input code key) db
  else if is_ ResultCreditReleased || is_ ResultCreditTransferred then
    row_outcome (row_update at_ (λ clock, ConfirmByKey clock key) db)
  else row_outcome (row_update at_ (λ _, MarkFailedByKey key code) db).

(** [Handle] *)
Definition HandleResult (moments : nat → Moment) (at_ : RowMoment) (routingKey : string)
    (body : option json) (db : ODB) : ODisposition * ODB :=
  match decode_result routingKey body with
  | None => (OReject, db)
  | Some r =>
      match apply_result moments at_ r db with
      | (Err Poison, db) => (OReject, db)
      | (Err Transient, db) => (ORequeue, db)
      | (Ok _, db) => (OAck, db)
      end
  end.

(** ** The reconciler *)

Record ReconcilerConfig := mkReconcilerConfig { rc_Interval : Z; rc_BatchSize : Z }.

(** [New], the configuration. *)
Definition reconciler_config (c : ReconcilerConfig) : option ReconcilerConfig :=
  let c := mkReconcilerConfig (if rc_Interval c =? 0 then 30 * nsec else rc_Interval c)
             (if rc_BatchSize c =? 0 then 100 else rc_BatchSize c) in
  if (rc_Interval c <? 1) || (rc_BatchSize c <? 1) then None else Some c.

Record ReconcilerTimeouts := mkTimeouts { to_Reservation : Z; to_Edit : Z }.

(** The closure [RunOnce] passes to [ClaimDue]; [outbox e] is the database as
    committed when the command row of [e] is looked up. *)
Definition reconcile_decide (kind : DueKind) (now cutoff : Z) (outbox : Errand → ODB) (e : Errand) :
    res Failure (option Transition) :=
  if negb (Due kind e cutoff) then Ok None
  else
    let next ev input :=
      match Next e ev SystemActor input now with
      | Ok t => Ok (Some t)
      | Err err => Err (FApp err)
      end in
    match kind with
    | StuckReservation =>
        match GetByKey (IdempotencyKey (e_ID e) "reserve" 0) (outbox e) with
        | Err _ => Err (FPlain "outbox")
        | Ok (row, _) =>
            if negb (bool_decide (or_Status row = OSent)) && negb (bool_decide (or_Status row = OFailed))
            then Ok None
            else next EventReservationFailed (result_input ReasonReservationFailed "")
        end
    | _ =>
        let key := match e_PendingEdit e with Some p => pe_Key p | None => "" end in
        next EventEditRefused
          (mkEventInput None "ADJUST_TIMEOUT" false false (mkDeadlineSettings 0 0 0 0) key true)
    end.

(** [RunOnce]; [settings] is what the settings store answers. *)
Definition reconcile (batch : Z) (kind : DueKind) (settings : option ReconcilerTimeouts) (now clock : Z)
    (locked : string → bool) (outbox : Errand → ODB) (db : ODB) : res Failure Z * ODB :=
  if negb (bool_decide (kind = StuckReservation)) && negb (bool_decide (kind = StuckEdit))
  then (Err (FPlain "reconciler: unknown job"), db)
  else match settings with
  | None => (Err (FPlain "settings"), db)
  | Some s =>
      let timeout := if bool_decide (kind = StuckEdit) then to_Edit s else to_Reservation s in
      if timeout <=? 0 then (Err (FPlain "reconciler: timeout must be positive"), db)
      else
        let cutoff := now - timeout in
        inTx (ClaimDue clock kind locked cutoff batch (reconcile_decide kind now cutoff outbox)) db
  end.

End handler.
