(* ===== verification/ResultProps.v ===== *)
(** * order-service: what an acknowledged credit result means

    A result that was acknowledged has left its mark: the errand no longer
    waits for it and the command it answers is settled, whatever other writers
    did meanwhile.  Delivered again it changes nothing.  The number of
    attempts the handler makes is always enough. *)

From S2P Require Import Prelude GoText Json GoTime Errand ErrandState ErrandJson ErrandInv ErrandProps ErrandStore Fence StoreInv StoreSafe StoreSystem StoreErrors StoreProps Resilience OrderOutbox DeliveryProps OrderCredit.

(** ** Waiting for a result *)

(** The errand is still in the state the result answers. *)
Definition awaits (r : ResultMsg) (e : Errand) : Prop :=
  (rm_routingKey r ∈ [ResultCreditReserved; ResultCreditReservationRefused] ∧
   e_Status e = StatusPendingReservation) ∨
  (rm_routingKey r ∈ [ResultCreditAdjusted; ResultCreditAdjustRefused] ∧
   pending_key e = oe_CorrelationID (rm_env r)).

(** The event and input of each result that moves an errand. *)
Inductive handles (r : ResultMsg) : Event → EventInput → Prop :=
| handles_reserved : rm_routingKey r = ResultCreditReserved →
    handles r EventReservationConfirmed (result_input "" "")
| handles_refused : rm_routingKey r = ResultCreditReservationRefused →
    handles r EventReservationRefused (result_input (cr_Code (rm_data r)) "")
| handles_adjusted : rm_routingKey r = ResultCreditAdjusted →
    handles r EventEditConfirmed (result_input "" (oe_CorrelationID (rm_env r)))
| handles_adjust_refused : rm_routingKey r = ResultCreditAdjustRefused →
    handles r EventEditRefused (result_input (cr_Code (rm_data r)) (oe_CorrelationID (rm_env r))).

Lemma decode_key rk body r :
  decode_result rk body = Some r →
  rm_routingKey r = rk ∧ rk ∈ CreditResults ∧ oe_CorrelationID (rm_env r) ≠ "" ∧
  (needs_code rk = true → cr_Code (rm_data r) ≠ "").
Proof.
  unfold decode_result. intros H. repeat case_match; try done; simplify_eq; bool_props.
  all: split_and!; try done; intros Hn Hc; simpl in Hc.
  all: match goal with H : needs_code _ && _ = false |- _ => rewrite Hn, bool_decide_true in H end; done.
Qed.

Lemma two_kinds rk :
  rk ∈ [ResultCreditReserved; ResultCreditReservationRefused] →
  rk ∈ [ResultCreditAdjusted; ResultCreditAdjustRefused] → False.
Proof. rewrite !elem_of_cons, !elem_of_nil. by intros [->|[->|[]]] [?|[?|[]]]. Qed.

Section results.
Context `{Hpg : Postgres, Hpgok : !PostgresOk}.
Context (r : ResultMsg).
Hypothesis Hkey : oe_CorrelationID (rm_env r) ≠ "".
Let key := oe_CorrelationID (rm_env r).

Lemma handles_ok ev input : handles r ev input → input_ok input ∧ edit_complete input.
Proof. by destruct 1. Qed.

(** An errand that waits for the result takes it, and then waits no more. *)
Lemma awaits_next ev input e now :
  errand_ok e → handles r ev input → awaits r e →
  ∃ t, Next e ev SystemActor input now = Ok t ∧ ¬ awaits r (canon (ApplyTo t e)).
Proof.
  intros Hok Hh Haw. unfold awaits in *.
  assert (∀ e', e_Status e' = StatusOpen ∨ e_Status e' = StatusRejected → e_PendingEdit e' = None →
    ¬ awaits r (canon e')) as Hpast.
  { intros e' Hs Hp [[_ H]|[_ H]]; [simpl in H; by destruct Hs; congruence|].
    unfold pending_key in H. simpl in H. rewrite Hp in H. simpl in H. congruence. }
  assert (e_Status e = StatusPendingReservation → e_PendingEdit e = None) as Hnp.
  { intros Hs. destruct (e_PendingEdit e) as [p|] eqn:Hp; [|done]. by destruct (eo_pending _ Hok _ Hp); congruence. }
  assert (∀ p, e_PendingEdit e = Some p → e_Status e = StatusOpen) as Hopen by apply (eo_pending _ Hok).
  destruct Hh as [Hr|Hr|Hr|Hr]; rewrite Hr in Haw; (destruct Haw as [[Hin Hs]|[Hin Hs]];
    [try (exfalso; clear -Hin; set_solver)|try (exfalso; clear -Hin; set_solver)]).
  1,2: specialize (Hnp Hs); eexists; (split;
    [eapply Next_intro; [by rewrite Hs; right|by rewrite Hs|rewrite Hs; rules_for|done|done|done|reflexivity]|]);
    apply Hpast; unfold drop_edit; rewrite Hnp; simpl; auto.
  all: unfold pending_key in Hs; destruct (e_PendingEdit e) as [p|] eqn:Hp; [|by rewrite <- Hs in Hkey].
  - destruct (edit_confirmed e p (Hopen _ eq_refl) (result_input "" key) now Hp (eq_sym Hs)) as (t & Hn & _ & Hpe & _ & Hst & _).
    exists t. split; [done|]. apply Hpast; auto.
  - destruct (edit_refused e p (Hopen _ eq_refl) (result_input (cr_Code (rm_data r)) key) now Hp (eq_sym Hs)) as (t & Hn & _ & Hpe & _ & Hst & _).
    exists t. split; [done|]. apply Hpast; auto.
Qed.

(** An errand waits for a result in one position of its life only. *)
Lemma awaits_position e e' :
  errand_ok e → errand_ok e' → e_ID e = e_ID e' → has_colon (e_ID e) = false →
  awaits r e → awaits r e' → last_seq e = last_seq e'.
Proof.
  intros Hok Hok' Hid Hc. unfold awaits.
  assert (∀ e, errand_ok e → e_Status e = StatusPendingReservation → last_seq e = 1) as Hfirst.
  { intros e1 Hok1 Hs. unfold last_seq. rewrite (proj1 (eo_reserving e1 Hok1 ltac:(by rewrite Hs)) Hs).
    destruct (e_PendingEdit e1) as [p|] eqn:Hp; [|done]. by destruct (eo_pending _ Hok1 _ Hp); congruence. }
  assert (∀ e, errand_ok e → pending_key e = key → ∃ v, last_seq e = 2 * v ∧ 0 ≤ v ∧ key = IdempotencyKey (e_ID e) "adjust" v) as Hedit.
  { intros e1 Hok1 Hp. unfold pending_key in Hp. destruct (e_PendingEdit e1) as [p|] eqn:Hpe; [|by specialize (Hkey (eq_sym Hp))].
    destruct (eo_pending _ Hok1 _ Hpe) as (Hs & Hk & _). exists (e_Version e1). unfold last_seq. rewrite Hpe.
    pose proof (eo_placed _ Hok1) as Hv. rewrite Hs in Hv. split_and!; [lia|case_bool_decide; lia|congruence]. }
  intros [[Hin Hs]|[Hin Hs]] [[Hin' Hs']|[Hin' Hs']]; try (by exfalso; eapply two_kinds).
  - by rewrite !Hfirst.
  - destruct (Hedit _ Hok Hs) as (v & -> & Hv & Hk), (Hedit _ Hok' Hs') as (v' & -> & Hv' & Hk').
    rewrite Hk, Hid in Hk'. apply IdempotencyKey_inj in Hk' as [_ ->]; done.
Qed.

(** The errand has got as far as waiting for the result, or further. *)
Definition asked (e : Errand) : Prop :=
  ∀ e', errand_ok e' → e_ID e' = e_ID e → awaits r e' → last_seq e' ≤ last_seq e.

Lemma asked_later e e' : e_ID e' = e_ID e → last_seq e ≤ last_seq e' → asked e → asked e'.
Proof. intros Hid Hle Ha e2 Hok Hid2 Haw. specialize (Ha e2 Hok ltac:(congruence) Haw). lia. Qed.

(** ... and once it does not wait any more it never will again. *)
Lemma past_later e e' :
  errand_ok e' → e_ID e' = e_ID e → asked e → ¬ awaits r e → e' = e ∨ last_seq e < last_seq e' → ¬ awaits r e'.
Proof. intros Hok Hid Ha Hn [->|Hlt]; [done|]. intros Haw. specialize (Ha e' Hok Hid Haw). lia. Qed.

(** The result answers a command in the outbox. *)
Definition command_sent (db : ODB) : Prop :=
  ∃ i row, db_outbox db !! i = Some row ∧ or_IdempotencyKey row = key ∧ or_ErrandID row = oe_ErrandID (rm_env r).

Lemma command_asked db :
  store_ok db → command_sent db → ∃ e, stored_as db (oe_ErrandID (rm_env r)) e ∧ asked e.
Proof.
  intros Hok (i & row & Hl & Hk & Hid). destruct (oi_errand _ (so_outbox _ Hok) _ _ Hl) as (e & Hst & Hg).
  rewrite Hid in Hst. exists e. split; [done|]. destruct (stored_as_id _ _ _ Hst) as (Hei & Hu & Hc).
  pose proof Hst as (erow & _ & Hro). pose proof (ro_ok _ _ _ Hro) as Heok. pose proof (eo_placed _ Heok) as Hv.
  rewrite bool_decide_false in Hv by apply (ro_status _ _ _ Hro).
  intros e' Hok' Hid' [[_ Hs]|[_ Hp]].
  - pose proof (eo_reserving e' Hok' ltac:(by rewrite Hs)) as [Hv1 _]. specialize (Hv1 Hs). unfold last_seq. rewrite Hv1.
    destruct (e_PendingEdit e') as [p|] eqn:Hpe; [by destruct (eo_pending _ Hok' _ Hpe); congruence|].
    destruct (e_PendingEdit e); lia.
  - unfold pending_key in Hp. destruct (e_PendingEdit e') as [p|] eqn:Hpe; [|by specialize (Hkey (eq_sym Hp))].
    destruct (eo_pending _ Hok' _ Hpe) as (Hs & Hpk & _). pose proof (eo_placed _ Hok') as Hv'. rewrite Hs in Hv'. case_bool_decide; [done|].
    assert (key = key_of_tag (e_ID e) ("adjust", e_Version e')) as Hkt by (unfold key_of_tag; simpl; unfold key; congruence).
    unfold last_seq at 1. rewrite Hpe. destruct Hg as [(g & Hgk & [Hop Hg] & Hg0)|Hf].
    + rewrite Hk, Hkt in Hgk. apply tag_key_inj in Hgk as [_ <-]; [|congruence|congruence|done|done|simpl; lia|done].
      simpl in Hg. unfold last_seq. destruct Hg as (_ & [Hlt|[-> [q ->]]]); [|lia]. destruct (e_PendingEdit e); lia.
    + rewrite Hk, Hkt in Hf. apply tag_key_not_foreign in Hf; [done|congruence|done].
Qed.

(** ** The handler among other writers *)

(** What others commit between two steps is a history of the system. *)
Definition others_ok (f : ODB → ODB) : Prop :=
  ∀ db seen, reachable db seen → ∃ seen', history (λ _, True) db seen (f db) seen'.

Definition moments_ok (moments : nat → Moment) : Prop :=
  ∀ n, others_ok (mo_before_get (moments n)) ∧ others_ok (mo_before_apply (moments n)).

Lemma history_trans P db1 seen1 db2 seen2 db3 seen3 :
  history P db1 seen1 db2 seen2 → history P db2 seen2 db3 seen3 → history P db1 seen1 db3 seen3.
Proof. intros H12. induction 1; [done|]. by eapply hist_step. Qed.

Lemma history_later db seen db' seen' :
  reachable db seen → history (λ _, True) db seen db' seen' → grows db db' ∧ seen ⊆ seen'.
Proof.
  intros Hr. induction 1 as [|db1 seen1 db2 Hh [Hg Hsub] _ Hstep]; [split; [apply grows_refl|done]|].
  destruct (store_reachable_ok _ _ (history_reachable _ _ _ _ _ Hr Hh)) as (Hok & Hs & _).
  destruct (store_step_sound _ _ _ Hok Hs Hstep) as (_ & Hg2 & _).
  split; [by eapply grows_trans|]. intros e He. apply elem_of_app. right. by apply Hsub.
Qed.

Lemma history_asked db seen db' seen' id e :
  reachable db seen → history (λ _, True) db seen db' seen' → stored_as db id e → asked e →
  ∃ e', stored_as db' id e' ∧ asked e' ∧ (e' = e ∨ last_seq e < last_seq e') ∧ (¬ awaits r e → ¬ awaits r e').
Proof.
  intros Hr Hh Hst Ha. destruct (history_later _ _ _ _ Hr Hh) as [Hg _].
  destruct (Hg _ _ Hst) as (e' & Hst' & Hl). pose proof Hst' as (row & _ & Hro).
  destruct (stored_as_id _ _ _ Hst) as (Hid & _), (stored_as_id _ _ _ Hst') as (Hid' & _).
  exists e'. split_and!; [done| |done|].
  - eapply asked_later; [|  |done]; [congruence|]. destruct Hl as [->|]; lia.
  - intros Hn. apply (past_later e); [apply Hro|congruence|done..].
Qed.

Lemma stored_Get db id e : stored_as db id e → Get id db = Ok (e, db).
Proof.
  intros (row & Hl & Hro). unfold Get. rewrite (ro_id _ _ _ Hro). unfold GetErrand, bind.
  by rewrite Hl, (ro_read _ _ _ Hro).
Qed.

Lemma stale_resolved f : stale f → resolved f = true.
Proof. by intros [->| ->]. Qed.
Lemma expected_unresolved f : expected_failure f → resolved f = false.
Proof. by intros [->|[->|[->| ->]]]. Qed.

Lemma stored_seen db seen id e : reachable db seen → stored_as db id e → e ∈ seen.
Proof.
  intros Hr Hst. destruct (store_reachable_ok _ _ Hr) as (Hok & _ & Hsub).
  destruct (stored_as_id _ _ _ Hst) as (<- & _). by apply Hsub, elem_of_current.
Qed.

(** A transition lost to another writer leaves nothing to wait for. *)
Lemma lost_past db e e1 :
  stored_as db (e_ID e) e1 → errand_ok e → has_colon (e_ID e) = false → awaits r e →
  e1 = e ∨ last_seq e < last_seq e1 → ¬ stored_as db (e_ID e) e → ¬ awaits r e1.
Proof.
  intros Hst Hok Hc Haw [->|Hlt] Hno; [done|]. intros Haw'. pose proof Hst as (row & _ & Hro).
  destruct (stored_as_id _ _ _ Hst) as (Hid & _).
  pose proof (awaits_position e e1 Hok (ro_ok _ _ _ Hro) ltac:(congruence) Hc Haw Haw'). lia.
Qed.

Lemma skips_past ev input e :
  handles r ev input →
  negb (bool_decide (i_EditKey input = "")) &&
    match e_PendingEdit e with None => true | Some p => negb (bool_decide (pe_Key p = i_EditKey input)) end = true →
  ¬ awaits r e.
Proof.
  intros Hh Hskip. destruct Hh as [Hr|Hr|Hr|Hr]; simpl in Hskip; try done.
  all: unfold awaits; rewrite Hr; intros [[Hin _]|[_ Hp]]; [clear -Hin; set_solver|].
  all: unfold pending_key in Hp; destruct (e_PendingEdit e); bool_props; congruence.
Qed.

Lemma kept_waits ev input e :
  handles r ev input → e_Status e ≠ StatusNone →
  negb (bool_decide (i_EditKey input = "")) &&
    match e_PendingEdit e with None => true | Some p => negb (bool_decide (pe_Key p = i_EditKey input)) end = false →
  awaits r e ∨ (i_EditKey input = "" ∧ e_Status e ≠ StatusPendingReservation).
Proof.
  intros Hh Hs Hkeep. destruct Hh as [Hr|Hr|Hr|Hr]; simpl in *; unfold awaits; rewrite Hr.
  1,2: destruct (decide (e_Status e = StatusPendingReservation)); [left; left|right]; split; auto; set_solver.
  all: left; right; split; [set_solver|]; unfold pending_key; rewrite bool_decide_false in Hkeep by done.
  all: destruct (e_PendingEdit e); [|done]; by apply negb_false_iff, bool_decide_eq_true in Hkeep.
Qed.

(** A reservation result comes too late for an errand that has moved on. *)
Lemma late_resolved ev input e now :
  handles r ev input → i_EditKey input = "" → Valid (e_Status e) = true → e_Status e ≠ StatusPendingReservation →
  Next e ev SystemActor input now = newError ErrandUnavailable.
Proof.
  intros Hh Hk Hv Hs. unfold Next. rewrite Hv, andb_false_r.
  destruct Hh; simpl in Hk; try done; destruct (e_Status e); try done; reflexivity.
Qed.

Lemma stored_valid db id e : stored_as db id e → errand_ok e ∧ Valid (e_Status e) = true.
Proof.
  intros (row & _ & Hro). pose proof (ro_ok _ _ _ Hro) as Hok. split; [done|].
  destruct (eo_status _ Hok) as [Hn|?]; [by destruct (ro_status _ _ _ Hro)|done].
Qed.

(** One pass is a history of the system; if it applies the result, finds it
    resolved or loses to another writer, the errand does not wait any more. *)
Lemma result_pass_sound m ev input db seen e out db' :
  let id := oe_ErrandID (rm_env r) in
  reachable db seen → others_ok (mo_before_get m) → others_ok (mo_before_apply m) → handles r ev input →
  stored_as db id e → asked e → result_pass m id ev input db = (out, db') →
  ∃ seen' e', history (λ _, True) db seen db' seen' ∧ stored_as db' id e' ∧ asked e' ∧
    match out with Returned (Err _) => True | _ => ¬ awaits r e' end.
Proof.
  intros id Hr Hget Happly Hh Hst Ha. unfold result_pass.
  destruct (Hget db seen Hr) as (seen1 & Hh1). pose proof (history_reachable _ _ _ _ _ Hr Hh1) as Hr1.
  destruct (history_asked _ _ _ _ _ _ Hr Hh1 Hst Ha) as (e1 & Hst1 & Ha1 & _). set (db1 := mo_before_get m db) in *.
  destruct (mo_get_down m); [intros [= <- <-]; by eauto 10|]. rewrite (stored_Get _ _ _ Hst1).
  destruct (stored_valid _ _ _ Hst1) as [Hok1 Hval]. destruct (stored_as_id _ _ _ Hst1) as (Hid1 & _ & Hc1).
  destruct (negb _ && _) eqn:Hskip; [intros [= <- <-]; exists seen1, e1; split_and!; [done..|exact (skips_past _ _ _ Hh Hskip)]|].
  assert (e_Status e1 ≠ StatusNone) as Hns by (intros Hn; by rewrite Hn in Hval).
  destruct (kept_waits _ _ _ Hh Hns Hskip) as [Haw|[Hk Hs]]; last first.
  { rewrite (late_resolved _ _ _ _ Hh Hk Hval Hs). intros [= <- <-]. exists seen1, e1. split_and!; [done..|].
    destruct Hh as [Hr'|Hr'|Hr'|Hr']; simpl in Hk; try done.
    all: intros [[_ ?]|[Hin _]]; [done|]; rewrite Hr' in Hin; clear -Hin; set_solver. }
  destruct (awaits_next _ _ _ (mo_now m) Hok1 Hh Haw) as (t & Hnext & Hpast). rewrite Hnext.
  destruct (Happly db1 seen1 Hr1) as (seen2 & Hh2). pose proof (history_reachable _ _ _ _ _ Hr1 Hh2) as Hr2.
  destruct (history_asked _ _ _ _ _ _ Hr1 Hh2 Hst1 Ha1) as (e2 & Hst2 & Ha2 & Hl2 & _).
  pose proof (history_trans _ _ _ _ _ _ _ Hh1 Hh2) as Hh12. set (db2 := mo_before_apply m db1) in *.
  destruct (mo_apply_down m); [intros [= <- <-]; by exists seen2, e2|].
  destruct (handles_ok _ _ Hh) as [Hin Hed].
  assert (e1 ∈ seen2) as Hseen by (eapply (history_later _ _ _ _ Hr1 Hh2), stored_seen; eauto).
  unfold inTx. destruct (Apply (mo_clock m) t db2) as [[stored db3]|f] eqn:Hap.
  - intros [= <- <-]. destruct (store_reachable_ok _ _ Hr2) as (Hok2 & Hs2 & _).
    destruct (Apply_step _ _ _ _ _ _ _ _ _ _ _ Hok2 Hs2 Hseen Hin Hnext Hap) as (_ & -> & _ & _ & Hm & _).
    assert (history (λ _, True) db2 seen2 db3 (current db3 ++ seen2)) as Hh3.
    { eapply hist_step; [apply hist_refl|done|]. by eapply step_apply. }
    destruct (history_asked _ _ _ _ _ _ Hr2 Hh3 Hst2 Ha2) as (e3 & Hst3 & Ha3 & _).
    pose proof (mv_at _ _ _ _ _ _ _ Hm) as Hat. rewrite Hid1 in Hat.
    rewrite (stored_as_fun _ _ _ _ Hst3 Hat) in *. do 2 eexists. split_and!; [by eapply history_trans|done..].
  - intros [= <- <-]. destruct (Apply_refused _ _ _ _ _ _ _ _ _ _ Hr2 Hseen Hin Hed Hnext Hap) as [[Hno Hf]|[_ Hf]].
    + rewrite (stale_resolved _ Hf). exists seen2, e2. split_and!; [done..|].
      rewrite <- Hid1 in Hst2, Hc1. by eapply (lost_past db2 e1).
    + rewrite (expected_unresolved _ Hf). exists seen2, e2. split_and!; [done..|].
      unfold give_verdict. rewrite (expected_unresolved _ Hf). by destruct (codeOf f).
Qed.

Lemma result_event_sound retries moments ev input db seen e out db' :
  let id := oe_ErrandID (rm_env r) in
  reachable db seen → moments_ok moments → handles r ev input → stored_as db id e → asked e →
  result_event retries moments id ev input db = (out, db') →
  ∃ seen' e', history (λ _, True) db seen db' seen' ∧ stored_as db' id e' ∧ asked e' ∧
    match out with Err _ => True | Ok _ => ¬ awaits r e' end.
Proof.
  intros id Hr Hm Hh. revert db seen e Hr. induction retries as [|retries IH]; intros db seen e Hr Hst Ha.
  all: cbn [result_event]; destruct (result_pass _ _ _ _ _) as [o db1] eqn:Hpass;
    destruct (result_pass_sound _ _ _ _ _ _ _ _ Hr (proj1 (Hm _)) (proj2 (Hm _)) Hh Hst Ha Hpass) as (seen1 & e1 & Hh1 & Hst1 & Ha1 & Hp1).
  all: destruct o as [o|f]; [intros [= <- <-]; exists seen1, e1; split_and!; [done..|]; by destruct o|].
  - intros [= <- <-]. exists seen1, e1. split_and!; [done..|]. by destruct (give_verdict f).
  - intros Hrun. pose proof (history_reachable _ _ _ _ _ Hr Hh1) as Hr1.
    destruct (IH _ _ _ Hr1 Hst1 Ha1 Hrun) as (seen2 & e2 & Hh2 & ?). exists seen2, e2.
    split; [by eapply history_trans|done].
Qed.

End results.

(** ** The row of the command *)

Definition command_settled (key : string) (db : ODB) : Prop :=
  ∀ i row, db_outbox db !! i = Some row → or_IdempotencyKey row = key → is_credit (or_Kind row) = true →
    or_Status row = OConfirmed ∨ or_Status row = OFailed.

Lemma command_settled_spec key db :
  command_settled key db ↔ ∀ i row, db_outbox db !! i = Some row → unsettled_credit key row = false.
Proof.
  unfold command_settled, unsettled_credit, has_key. split.
  - intros Hs i row Hl. destruct (bool_decide (or_IdempotencyKey row = key)) eqn:Hk; [|done].
    destruct (is_credit (or_Kind row)) eqn:Hc; [|done]. simpl. bool_props.
    by destruct (Hs _ _ Hl Hk Hc) as [->| ->].
  - intros Hs i row Hl Hk Hc. specialize (Hs _ _ Hl). rewrite bool_decide_true, Hc in Hs by done. simpl in Hs.
    destruct (or_Status row); auto; done.
Qed.

(** The two updates the handler makes to the row of a command. *)
Definition settles (key : string) (m : MsgOp bool) : Prop :=
  (∃ clock, m = ConfirmByKey clock key) ∨ (∃ code, code ≠ "" ∧ m = MarkFailedByKey key code).

Lemma settles_run key m db :
  key ≠ "" → settles key m →
  ∃ b f, m db = Ok (b, set_outbox ((λ r, if unsettled_credit key r then f r else r) <$> db_outbox db)
                          (db_next_outbox db) db) ∧ ∀ r, unsettled_credit key (f r) = false.
Proof.
  intros Hk [(clock & ->)|(code & Hc & ->)]; unfold ConfirmByKey, MarkFailedByKey.
  all: rewrite !bool_decide_false by done; simpl; do 2 eexists; (split; [reflexivity|]); intros r;
    unfold unsettled_credit; simpl; by rewrite andb_false_r.
Qed.

Lemma settles_idle key m db b db' :
  key ≠ "" → settles key m → command_settled key db → m db = Ok (b, db') → b = false ∧ db' = db.
Proof.
  intros Hk Hm Hs Hrun.
  assert (∀ f, sql_update (unsettled_credit key) f db = Ok (0, db)) as Hidle.
  { intros f. unfold sql_update. pose proof (proj1 (command_settled_spec _ _) Hs) as Hno. rewrite scan_none by done. f_equal. f_equal.
    rewrite (map_fmap_ext _ id); [by rewrite map_fmap_id; destruct db|]. intros i r Hl. by rewrite (Hno _ _ Hl). }
  destruct Hm as [(clock & ->)|(code & Hc & ->)]; unfold ConfirmByKey, MarkFailedByKey, ConfirmOutboxByKey, FailOutboxByKey, bind in Hrun.
  all: rewrite !bool_decide_false in Hrun by done; cbv beta iota delta [orb] in Hrun; rewrite Hidle in Hrun; by injection Hrun as <- <-.
Qed.

Section rows.
Context `{Hpg : Postgres, Hpgok : !PostgresOk}.

Lemma settles_history key m db seen b db' :
  reachable db seen → settles key m → m db = Ok (b, db') →
  history (λ _, True) db seen db' (current db' ++ seen).
Proof.
  intros Hr Hm Hrun. eapply hist_step; [apply hist_refl|done|]. eapply step_deliver, (rows_rel_delivery row_kept).
  assert (delivery_op false m) as Hop by (destruct Hm as [(clock & ->)|(code & _ & ->)]; constructor).
  exact (delivery_op_kept _ _ Hop _ _ _ (reachable_ids _ _ Hr) Hrun).
Qed.

Lemma row_update_sound key at_ m db seen out db' :
  key ≠ "" → reachable db seen → others_ok (rw_before at_) → settles key (m (rw_clock at_)) →
  row_update at_ m db = (out, db') →
  ∃ seen', history (λ _, True) db seen db' seen' ∧
    match out with Ok _ => command_settled key db' | Err e => e = Transient end.
Proof.
  intros Hk Hr Hoth Hm. unfold row_update. destruct (Hoth db seen Hr) as (seen1 & Hh1).
  pose proof (history_reachable _ _ _ _ _ Hr Hh1) as Hr1.
  destruct (rw_down at_); [intros [= <- <-]; by eauto|]. unfold inTx.
  destruct (settles_run key (m (rw_clock at_)) (rw_before at_ db) Hk Hm) as (b & f & Hrun & Hf). rewrite Hrun.
  intros [= <- <-]. eexists. split; [by eapply history_trans, settles_history|].
  apply command_settled_spec. intros i row. simpl. rewrite lookup_fmap. intros (r0 & Hl & ->)%fmap_Some.
  destruct (unsettled_credit key r0) eqn:Hu; auto.
Qed.

(** ** Acknowledged results *)

(** What the handler does with a result, in one form for the results that move
    an errand and one for those that only settle the command. *)
Inductive result_run (moments : nat → Moment) (at_ : RowMoment) (r : ResultMsg) (db : ODB) :
    res ApplyFailure Outcome * ODB → Prop :=
| run_transition ev input : handles r ev input →
    result_run moments at_ r db (result_transition moments at_ r ev input db)
| run_settle m : (∀ e, ¬ awaits r e) → settles (oe_CorrelationID (rm_env r)) (m (rw_clock at_)) →
    result_run moments at_ r db (row_outcome (row_update at_ m db)).

Lemma apply_result_run moments at_ rk body r db :
  decode_result rk body = Some r → result_run moments at_ r db (apply_result moments at_ r db).
Proof.
  intros Hd. destruct (decode_key _ _ _ Hd) as (Hrk & Hin & Hk & Hcode). rewrite <- Hrk in Hin, Hcode.
  assert (rm_routingKey r ∉ [ResultCreditReserved; ResultCreditReservationRefused; ResultCreditAdjusted; ResultCreditAdjustRefused] →
    ∀ e, ¬ awaits r e) as Hno by (intros Hn e [[? _]|[? _]]; apply Hn; set_solver).
  unfold apply_result. unfold CreditResults in Hin.
  repeat (apply elem_of_cons in Hin as [Hrk'|Hin]); [..|by apply elem_of_nil in Hin]; rewrite Hrk' in Hno |- *.
  1-4: constructor; by constructor.
  all: constructor; [by apply Hno, (bool_decide_unpack _); vm_compute|]; try (left; by eauto). right.
  exists (cr_Code (rm_data r)). split; [|done]. apply Hcode. by rewrite Hrk'.
Qed.

(** Whatever happens, the handler's writes are part of a history; an
    acknowledged result has been dealt with. *)
Lemma apply_result_sound moments at_ rk body r db seen out db' :
  reachable db seen → moments_ok moments → others_ok (rw_before at_) →
  decode_result rk body = Some r → command_sent r db → apply_result moments at_ r db = (out, db') →
  ∃ seen' e, history (λ _, True) db seen db' seen' ∧ stored_as db' (oe_ErrandID (rm_env r)) e ∧ asked r e ∧
    match out with Ok _ => ¬ awaits r e ∧ command_settled (oe_CorrelationID (rm_env r)) db' | Err _ => True end.
Proof.
  intros Hr Hm Hat Hd Hsent Hrun. destruct (decode_key _ _ _ Hd) as (_ & _ & Hk & _).
  destruct (command_asked r Hk db) as (e & Hst & Ha); [apply (store_reachable_ok _ _ Hr)|done|].
  pose proof (apply_result_run moments at_ _ _ _ db Hd) as Hrr. rewrite Hrun in Hrr.
  inversion Hrr as [ev input Hh Heq|m Hn Hs Heq].
  - unfold result_transition in Heq. destruct (result_event _ _ _ _ _ _) as [o db1] eqn:Hev.
    destruct (result_event_sound r Hk _ _ _ _ _ _ _ _ _ Hr Hm Hh Hst Ha Hev) as (seen1 & e1 & Hh1 & Hst1 & Ha1 & Hp).
    destruct o as [o|f]; [|simplify_eq; by exists seen1, e1].
    pose proof (history_reachable _ _ _ _ _ Hr Hh1) as Hr1.
    destruct (row_update _ _ _) as [o2 db2] eqn:Hru.
    destruct (row_update_sound (oe_CorrelationID (rm_env r)) _ _ _ _ _ _ Hk Hr1 Hat (or_introl (ex_intro _ (rw_clock at_) eq_refl)) Hru) as (seen2 & Hh2 & Hset).
    destruct (history_asked r _ _ _ _ _ _ Hr1 Hh2 Hst1 Ha1) as (e2 & Hst2 & Ha2 & _ & Hn2).
    exists seen2, e2. destruct o2 as [b|f]; simplify_eq; split_and!; eauto using history_trans.
  - destruct (row_update at_ m db) as [o db2] eqn:Hru.
    destruct (row_update_sound (oe_CorrelationID (rm_env r)) _ _ _ _ _ _ Hk Hr Hat Hs Hru) as (seen2 & Hh2 & Hset).
    destruct (history_asked r _ _ _ _ _ _ Hr Hh2 Hst Ha) as (e2 & Hst2 & Ha2 & _).
    exists seen2, e2. unfold row_outcome in Heq. destruct o as [b|f]; simplify_eq; split_and!; eauto.
Qed.

(** C38: An acknowledged result has been dealt with.  Whatever other writers
    commit while a credit result is handled, and whichever of the handler's own
    reads and writes fail, an acknowledgement means that the errand no longer
    waits for that result and that the command it answers is CONFIRMED or
    FAILED; the handler's three attempts are always enough, because losing the
    compare-and-swap once already means the result is resolved. *)
Theorem acknowledged_result_settled moments at_ rk body r db seen db' :
  reachable db seen → moments_ok moments → others_ok (rw_before at_) →
  decode_result rk body = Some r → command_sent r db →
  HandleResult moments at_ rk body db = (OAck, db') →
  (∃ seen', history (λ _, True) db seen db' seen') ∧
  (∃ e, stored_as db' (oe_ErrandID (rm_env r)) e ∧ ¬ awaits r e) ∧
  command_settled (oe_CorrelationID (rm_env r)) db'.
Proof.
  intros Hr Hm Hat Hd Hsent. unfold HandleResult. rewrite Hd.
  destruct (apply_result moments at_ r db) as [[o|[]] db1] eqn:Hrun; intros [= <-].
  destruct (apply_result_sound _ _ _ _ _ _ _ _ _ Hr Hm Hat Hd Hsent Hrun) as (seen' & e & Hh & Hst & _ & Hn & Hset).
  eauto 10.
Qed.

(** ** Redelivery *)

(** Nothing else happens while the result is handled. *)
Definition quiet (moments : nat → Moment) (at_ : RowMoment) : Prop :=
  (∀ n db, mo_before_get (moments n) db = db ∧ mo_before_apply (moments n) db = db) ∧ ∀ db, rw_before at_ db = db.

Lemma result_event_past r retries moments ev input db e :
  oe_CorrelationID (rm_env r) ≠ "" → (∀ n db, mo_before_get (moments n) db = db) → handles r ev input →
  stored_as db (oe_ErrandID (rm_env r)) e → ¬ awaits r e →
  ∃ out, result_event retries moments (oe_ErrandID (rm_env r)) ev input db = (out, db) ∧ out ≠ Err Poison.
Proof.
  intros Hk Hq Hh Hst Hn.
  enough (∃ out, result_pass (moments retries) (oe_ErrandID (rm_env r)) ev input db = (Returned out, db) ∧ out ≠ Err Poison)
    as (out & Hp & ?) by (exists out; destruct retries; cbn [result_event]; by rewrite Hp).
  unfold result_pass. rewrite Hq. destruct (mo_get_down _); [by eauto|]. rewrite (stored_Get _ _ _ Hst).
  destruct (stored_valid _ _ _ Hst) as [Hok Hval].
  destruct (negb _ && _) eqn:Hskip; [by eauto|].
  assert (e_Status e ≠ StatusNone) as Hns by (intros He; by rewrite He in Hval).
  destruct (kept_waits r Hk _ _ _ Hh Hns Hskip) as [?|[Hek Hs]]; [done|].
  rewrite (late_resolved r Hk _ _ _ _ Hh Hek Hval Hs). simpl. by eauto.
Qed.

(** An update of the command's row leaves everything but its delivery state. *)
Lemma row_update_quiet key at_ m db :
  key ≠ "" → (∀ db, rw_before at_ db = db) → settles key (m (rw_clock at_)) → ids_ok db →
  ∃ out db', row_update at_ m db = (out, db') ∧ out ≠ Err Poison ∧ delivery_only db db' ∧
    (command_settled key db → db' = db).
Proof.
  intros Hk Hq Hm Hids. unfold row_update. rewrite Hq.
  assert (delivery_only db db) as Hrefl by (exists (db_outbox db); by destruct db).
  destruct (rw_down at_); [by eauto 10|]. unfold inTx.
  destruct (m (rw_clock at_) db) as [[b db']|f] eqn:Hrun; [|by eauto 10].
  exists (Ok b), db'. split_and!; [done|done| |intros Hs; by eapply settles_idle].
  assert (delivery_op false (m (rw_clock at_))) as Hop by (destruct Hm as [(clock & ->)|(code & _ & ->)]; constructor).
  by eapply (rows_rel_delivery row_kept), (delivery_op_kept _ _ Hop).
Qed.

(** A result delivered again changes nothing.  After a credit result was
    acknowledged, and whatever the system did since, handling the same message
    again is never dead-lettered and leaves every errand, the history, the
    reviews, the fences and every message as they are; unless an administrator
    has put the command back in the queue meanwhile, the whole database stays
    as it is. *)
Theorem redelivered_result_inert moments at_ rk body r db seen db1 seen1 db2 seen2 moments2 at2 :
  reachable db seen → moments_ok moments → others_ok (rw_before at_) →
  decode_result rk body = Some r → command_sent r db →
  HandleResult moments at_ rk body db = (OAck, db1) → reachable db1 seen1 →
  history (λ _, True) db1 seen1 db2 seen2 → quiet moments2 at2 →
  ∃ d db3, HandleResult moments2 at2 rk body db2 = (d, db3) ∧ d ≠ OReject ∧ delivery_only db2 db3 ∧
    (command_settled (oe_CorrelationID (rm_env r)) db2 → db3 = db2).
Proof.
  intros Hr Hm Hat Hd Hsent Hrun Hr1 Hh [Hq1 Hq2]. destruct (decode_key _ _ _ Hd) as (_ & _ & Hk & _).
  unfold HandleResult in *. rewrite Hd in *.
  destruct (apply_result moments at_ r db) as [[o|[]] db1'] eqn:Hap; simplify_eq.
  destruct (apply_result_sound _ _ _ _ _ _ _ _ _ Hr Hm Hat Hd Hsent Hap) as (_ & e & _ & Hst & Ha & Hn & _).
  destruct (history_asked r _ _ _ _ _ _ Hr1 Hh Hst Ha) as (e2 & Hst2 & _ & _ & Hn2). specialize (Hn2 Hn).
  pose proof (reachable_ids _ _ (history_reachable _ _ _ _ _ Hr1 Hh)) as Hids.
  enough (∃ out db3, apply_result moments2 at2 r db2 = (out, db3) ∧ out ≠ Err Poison ∧ delivery_only db2 db3 ∧
    (command_settled (oe_CorrelationID (rm_env r)) db2 → db3 = db2)) as (out & db3 & -> & Hp & ?).
  { destruct out as [a|[]]; [| |]; eauto 10; done. }
  assert (delivery_only db2 db2) as Hrefl by (exists (db_outbox db2); by destruct db2).
  destruct (apply_result_run moments2 at2 _ _ _ db2 Hd) as [ev input Hh2|m Hno Hs].
  - unfold result_transition.
    destruct (result_event_past r (pred maxConflicts) moments2 ev input db2 e2 Hk (λ n d, proj1 (Hq1 n d)) Hh2 Hst2 Hn2) as (out & -> & Hp).
    destruct out as [o'|f]; [|by eauto 10].
    destruct (row_update_quiet (oe_CorrelationID (rm_env r)) at2 (λ clock, ConfirmByKey clock (oe_CorrelationID (rm_env r))) db2)
      as (out2 & db3 & -> & Hp2 & Hdo & Hid); [done|done|left; eauto|done|].
    destruct out2 as [b|f]; do 2 eexists; (split; [reflexivity|]); split_and!; eauto; congruence.
  - destruct (row_update_quiet (oe_CorrelationID (rm_env r)) at2 m db2) as (out2 & db3 & -> & Hp2 & Hdo & Hid); [done..|].
    unfold row_outcome. destruct out2 as [b|f]; do 2 eexists; (split; [reflexivity|]); split_and!; eauto; congruence.
Qed.

End rows.

(** ** Witnesses *)

Module ResultScenario.
Import StoreScenario.

(** The reservation of the errand submitted in [db1] is confirmed. *)
Definition reserved_body : option json := Some (JObj
  [("messageId", JStr "m1"); ("correlationId", JStr (IdempotencyKey id1 "reserve" 0));
   ("type", JStr "credit.reserved"); ("occurredAt", JStr "2026-01-01T00:00:00Z");
   ("errandId", JStr id1); ("errandVersion", JInt 1); ("data", JObj [("amount", JInt 40)])]).
Definition reserved_msg : ResultMsg := Eval vm_compute in
  default (mkResultMsg "" (mkOEnvelope "" "" "" 0 "" 0 None) (mkCreditResult 0 0 ""))
    (decode_result ResultCreditReserved reserved_body).

Definition calm (now : Z) : nat → Moment := λ _, mkMoment now (now + 1) false false (λ db, db) (λ db, db).
Definition row_calm (clock : Z) : RowMoment := mkRowMoment clock false (λ db, db).

Lemma calm_ok now : moments_ok (calm now).
Proof. intros n. split; intros db seen _; exists seen; apply hist_refl. Qed.
Lemma row_calm_ok clock : others_ok (rw_before (row_calm clock)).
Proof. intros db seen _. exists seen. apply hist_refl. Qed.

Definition handled : ODisposition * ODB := Eval vm_compute in
  HandleResult (calm 2000) (row_calm 2002) ResultCreditReserved reserved_body db1.

Lemma handled_run :
  HandleResult (calm 2000) (row_calm 2002) ResultCreditReserved reserved_body db1 = (OAck, handled.2).
Proof. vm_compute. reflexivity. Qed.
Lemma reserved_decodes : decode_result ResultCreditReserved reserved_body = Some reserved_msg.
Proof. vm_compute. reflexivity. Qed.
Lemma reserve_sent : command_sent reserved_msg db1.
Proof. eexists 1, _. split_and!; [vm_compute; reflexivity|reflexivity|reflexivity]. Qed.
Lemma handled_sound :
  ∃ seen', reachable handled.2 seen' ∧ command_settled (IdempotencyKey id1 "reserve" 0) handled.2.
Proof.
  destruct (apply_result_sound (calm 2000) (row_calm 2002) _ _ _ db1 seen1 (Ok OutcomeApplied) handled.2 reach_db1
    (calm_ok 2000) (row_calm_ok 2002) reserved_decodes reserve_sent) as (seen' & e & Hh & _ & _ & _ & Hs);
    [vm_compute; reflexivity|].
  exists seen'. split; [exact (history_reachable _ _ _ _ _ reach_db1 Hh)|exact Hs].
Qed.
End ResultScenario.
Import StoreScenario ResultScenario.

Lemma acknowledged_result_settled_witness :
  (∃ e, stored_as handled.2 id1 e ∧ ¬ awaits reserved_msg e) ∧ command_settled (IdempotencyKey id1 "reserve" 0) handled.2.
Proof.
  destruct (acknowledged_result_settled (calm 2000) (row_calm 2002) ResultCreditReserved reserved_body reserved_msg
    db1 seen1 handled.2 reach_db1 (calm_ok 2000) (row_calm_ok 2002) reserved_decodes reserve_sent handled_run) as (_ & He & Hs).
  split; [exact He|exact Hs].
Defined.

Lemma redelivered_result_inert_witness :
  ∃ d, HandleResult (calm 3000) (row_calm 3002) ResultCreditReserved reserved_body handled.2 = (d, handled.2).
Proof.
  destruct handled_sound as (seen' & Hr & Hs).
  destruct (redelivered_result_inert (calm 2000) (row_calm 2002) ResultCreditReserved reserved_body reserved_msg
    db1 seen1 handled.2 seen' handled.2 seen' (calm 3000) (row_calm 3002) reach_db1 (calm_ok 2000) (row_calm_ok 2002)
    reserved_decodes reserve_sent handled_run Hr (hist_refl _ _ _))
    as (d & db3 & Hrun & _ & _ & Hsame); [by repeat split|].
  exists d. rewrite <- (Hsame Hs) at 2. exact Hrun.
Defined.
