(* ===== verification/ReconcilerProps.v ===== *)
(** * order-service: the reconciler recovers stuck errands

    An errand whose reservation or edit got no answer in time is taken out of
    its waiting state, and credit-service is told to undo what it may have
    done. *)

From S2P Require Import Prelude GoText Json GoTime Errand ErrandState ErrandJson ErrandInv ErrandProps ErrandStore StoreInv StoreSafe StoreSystem StoreErrors StoreProps Resilience OrderOutbox OrderCredit.

Section reconciler.
Context `{Hpg : Postgres, Hpgok : !PostgresOk}.

(** A credit command of the errand [id], waiting to be sent. *)
Definition queued (clock : Z) (id kind : string) (c : CreditCommand) (db : ODB) : Prop :=
  ∃ i key, db_outbox db !! i = Some (new_orow clock i kind key id (enc_command c)).

Lemma carried_out_queued clock e t db' kind c :
  carried_out clock e t db' → (kind, c) ∈ commands (t_Outbox t) → queued clock (e_ID e) kind c db'.
Proof.
  intros [_ Hsent] (row & Hrow & Hp)%list_elem_of_omap.
  destruct (Hsent row Hrow) as (i & payload & Hpay & Hl). destruct (o_Payload row) eqn:Hop; [|done].
  injection Hp as <- <-. injection Hpay as <-. by exists i, (o_IdempotencyKey row).
Qed.

(** What becomes of an errand the reconciler has claimed, given the outbox row
    of its reserve command. *)
Definition recovered (clock : Z) (kind : DueKind) (e : Errand) (db db' : ODB) : Prop :=
  match kind with
  | StuckReservation =>
      ∃ row, GetOutboxByKey (IdempotencyKey (e_ID e) "reserve" 0) db = Some row ∧
      if bool_decide (or_Status row = OSent) || bool_decide (or_Status row = OFailed) then
        ∃ e', stored_as db' (e_ID e) e' ∧ e_Status e' = StatusRejected ∧
          queued clock (e_ID e) KindCreditRelease (command e' "" 0 0 0) db'
      else db_errands db' !! e_ID e = db_errands db !! e_ID e
  | _ =>
      ∃ e', stored_as db' (e_ID e) e' ∧ e_Status e' = StatusOpen ∧ e_PendingEdit e' = None ∧
        d_Reward (e_Details e') = d_Reward (e_Details e) ∧ e_Version e' = e_Version e + 1 ∧
        queued clock (e_ID e) KindCreditAdjust
          (command e' "" 0 (d_Reward (e_Details e)) (2 * e_Version e + 1)) db'
  end.

(** The transition for a claimed errand. *)
Definition reconcile_choice (kind : DueKind) (now cutoff : Z) (db : ODB) (e : Errand) : option Transition :=
  match reconcile_decide kind now cutoff (λ _, db) e with Ok c => c | Err _ => None end.

Lemma reservation_failed e now :
  e_Status e = StatusPendingReservation →
  ∃ t, Next e EventReservationFailed SystemActor (result_input ReasonReservationFailed "") now = Ok t ∧
    e_Status (ApplyTo t e) = StatusRejected ∧
    (KindCreditRelease, command (ApplyTo t e) "" 0 0 0) ∈ commands (t_Outbox t).
Proof.
  intros Hs. eexists. split.
  - eapply Next_intro; [by rewrite Hs; right|by rewrite Hs|rewrite Hs; rules_for|done|done|done|reflexivity].
  - unfold drop_edit. destruct (e_PendingEdit e); simpl; (split; [done|by left]).
Qed.

Lemma reserve_row db seen id e :
  reachable db seen → stored_as db id e → is_Some (GetOutboxByKey (IdempotencyKey id "reserve" 0) db).
Proof.
  intros Hr (row & Hl & _). destruct (reachable_reserves _ _ Hr id) as (i & r & Ho & Hk & _).
  { apply elem_of_dom. eauto. }
  unfold GetOutboxByKey. rewrite fmap_is_Some. destruct (scan1 _ _) as [kv|] eqn:Hs; [eauto|].
  assert (has_key (IdempotencyKey id "reserve" 0) r = true) as Hhk by (unfold has_key; by rewrite bool_decide_true).
  by rewrite (proj1 (scan1_None _ _) Hs _ _ Ho) in Hhk.
Qed.

(** What is decided on an errand that is due, and what that achieves. *)
Lemma reconcile_decided kind now cutoff db seen e :
  reachable db seen → kind = StuckReservation ∨ kind = StuckEdit → stored_as db (e_ID e) e →
  Due kind e cutoff = true →
  reconcile_decide kind now cutoff (λ _, db) e = Ok (reconcile_choice kind now cutoff db e) ∧
  (∀ t, reconcile_choice kind now cutoff db e = Some t → decision e t) ∧
  ∀ clock db',
    match reconcile_choice kind now cutoff db e with
    | Some t => carried_out clock e t db'
    | None => db_errands db' !! e_ID e = db_errands db !! e_ID e
    end → recovered clock kind e db db'.
Proof.
  intros Hr Hkind Hst Hdue. pose proof Hst as (erow & _ & Hro). pose proof (ro_ok _ _ _ Hro) as Heok.
  unfold reconcile_choice, reconcile_decide. rewrite Hdue. cbn [negb].
  destruct Hkind as [-> | ->].
  - destruct (reserve_row _ _ _ _ Hr Hst) as (row & Hrow). unfold GetByKey, recovered. rewrite Hrow.
    unfold Due, DueAt in Hdue. case_bool_decide as Hs; [|done].
    destruct (reservation_failed e now Hs) as (t & Hnext & Hto & Hcmd).
    rewrite <- negb_orb. destruct (_ || _) eqn:Hsf; cbn [negb];
      [|split_and!; [done|done|]; intros clock db' H; exists row; by rewrite Hsf].
    rewrite Hnext. split_and!; [done|intros ? [= <-]; (eapply decision_plain; [|done]; done)|]. intros clock db' Hco. exists row. rewrite Hsf.
    split; [done|]. pose proof (carried_out_queued _ _ _ _ _ _ Hco Hcmd) as Hq. destruct Hco as [Hst' _].
    exists (canon (ApplyTo t e)). destruct (stored_as_id _ _ _ Hst') as (Hid' & _). split_and!; [done|done|].
    unfold command in *. by rewrite Hid'.
  - unfold Due, DueAt in Hdue. destruct (e_PendingEdit e) as [p|] eqn:Hp; [|done].
    destruct (eo_pending _ Heok _ Hp) as (Hopen & _).
    destruct (edit_refused e p Hopen (mkEventInput None "ADJUST_TIMEOUT" false false (mkDeadlineSettings 0 0 0 0) (pe_Key p) true) now Hp eq_refl)
      as (t & Hnext & Hd & Hpe & Hv & Hs & Hcmd).
    rewrite Hnext. split_and!; [done|intros ? [= <-]; (eapply decision_plain; [|done]; done)|]. intros clock db' Hco.
    pose proof (carried_out_queued clock e t db' KindCreditAdjust _ Hco ltac:(rewrite Hcmd; by left)) as Hq.
    destruct Hco as [Hst' _].
    exists (canon (ApplyTo t e)). destruct (stored_as_id _ _ _ Hst') as (Hid' & _).
    split_and!; [done|done|simpl in Hpe; simpl; by rewrite Hpe|simpl in Hd; simpl; by rewrite Hd|done|].
    unfold command in *. by rewrite Hid'.
Qed.

Definition timeout_of (kind : DueKind) (s : ReconcilerTimeouts) : Z :=
  if bool_decide (kind = StuckEdit) then to_Edit s else to_Reservation s.

(** C39: The reconciler recovers stuck errands.  A run never fails but for a
    document that cannot be encoded or a column that cannot hold a value, and
    then changes nothing; otherwise every errand it claimed whose reserve
    command was sent or failed is rejected, every claimed edit is dropped and
    the reward kept, each with the command that undoes the reservation or the
    adjustment in the queue, while an errand whose reserve command is still
    pending keeps waiting; no other errand changes, and a run that was not full
    has claimed every overdue errand that nobody else had locked. *)
Theorem reconciler_recovers batch kind s now clock locked db seen :
  reachable db seen → kind = StuckReservation ∨ kind = StuckEdit → 0 < timeout_of kind s → 1 ≤ batch ≤ max_int32 →
  let cutoff := now - timeout_of kind s in
  let claimed := er_ID <$> claim_query kind locked cutoff (rowLimit batch) db in
  match reconcile batch kind (Some s) now clock locked (λ _, db) db with
  | (Ok n, db') =>
      store_ok db' ∧
      (∀ id e, stored_as db id e → id ∈ claimed → Due kind e cutoff = true ∧ recovered clock kind e db db') ∧
      (∀ id, id ∉ claimed → db_errands db' !! id = db_errands db !! id) ∧
      (Z.of_nat (length claimed) < batch →
       ∀ id e, stored_as db id e → Due kind e cutoff = true → locked id = false → id ∈ claimed)
  | (Err f, db') => db' = db ∧ expected_failure f
  end.
Proof.
  intros Hr Hkind Hto Hbatch cutoff claimed. destruct (store_reachable_ok _ _ Hr) as (Hok & _).
  unfold reconcile. fold (timeout_of kind s). fold cutoff.
  replace (negb (bool_decide (kind = StuckReservation)) && negb (bool_decide (kind = StuckEdit))) with false
    by (by destruct Hkind as [-> | ->]).
  destruct (timeout_of kind s <=? 0) eqn:Hneg; [apply Z.leb_le in Hneg; lia|].
  pose proof (ClaimDue_spec clock kind locked cutoff batch (reconcile_decide kind now cutoff (λ _, db))
    (reconcile_choice kind now cutoff db) db Hok ltac:(lia)) as Hspec. unfold inTx.
  assert (∀ e, stored_as db (e_ID e) e → Due kind e cutoff = true →
     reconcile_decide kind now cutoff (λ _, db) e = Ok (reconcile_choice kind now cutoff db e) ∧
     ∀ t, reconcile_choice kind now cutoff db e = Some t → decision e t) as Hdec.
  { intros e Hst Hdue. by destruct (reconcile_decided kind now cutoff db seen e Hr Hkind Hst Hdue) as (? & ? & _). }
  specialize (Hspec Hdec). destruct (ClaimDue _ _ _ _ _ _ db) as [[n db']|f]; [|done].
  destruct Hspec as (es & Hids & _ & Hok' & _ & Hmoved & Hother). fold claimed in Hids.
  split_and!; [done| |by rewrite Hids|].
  - intros id e Hst Hin. rewrite Hids in Hin. apply list_elem_of_fmap in Hin as (e' & -> & He').
    destruct (Hmoved e' He') as (Hst' & Hdue & Hm). rewrite (stored_as_fun _ _ _ _ Hst Hst') in *. split; [done|].
    by apply (reconcile_decided kind now cutoff db seen e' Hr Hkind Hst' Hdue).
  - unfold claimed. rewrite length_fmap. intros Hshort id e. by apply short_claim_all.
Qed.

End reconciler.

(** ** Witness *)

Module ReconcilerScenario.
Import StoreScenario.

(** The reserve command of [db1] was sent and never answered. *)
Definition db_sent : ODB := Eval vm_compute in
  match (let! rows := msg_Claim 5 (λ _, false) (λ l, l) "w" true 10 (60 * nsec) in
         match rows with r :: _ => msg_MarkSent 6 r | [] => ret tt end) db1 with
  | Ok (_, db) => db | Err _ => db1 end.
Definition timeouts : ReconcilerTimeouts := mkTimeouts (60 * nsec) (60 * nsec).
Definition hours : Z := 120 * Errand.minute.
Definition after : res Failure Z * ODB := Eval vm_compute in
  reconcile 10 StuckReservation (Some timeouts) hours 7 (λ _, false) (λ _, db_sent) db_sent.

Lemma reach_sent : reachable db_sent (current db_sent ++ seen1).
Proof.
  eapply reach_step; [apply reach_db1|]. apply step_deliver. exists (db_outbox db_sent). split; [reflexivity|].
  intros i. by rewrite <- !lookup_fmap.
Qed.
End ReconcilerScenario.
Import StoreScenario ReconcilerScenario.

Lemma reconciler_recovers_witness :
  after.1 = Ok 1 ∧ recovered 7 StuckReservation reserved db_sent after.2.
Proof.
  pose proof (reconciler_recovers 10 StuckReservation timeouts hours 7 (λ _, false) db_sent (current db_sent ++ seen1)
    reach_sent (or_introl eq_refl) eq_refl ltac:(vm_compute; by split)) as H.
  assert (reconcile 10 StuckReservation (Some timeouts) hours 7 (λ _, false) (λ _, db_sent) db_sent = (Ok 1, after.2)) as Hrun
    by (vm_compute; reflexivity).
  cbv zeta in H. rewrite Hrun in H. destruct H as (_ & Hrec & _). split; [vm_compute; reflexivity|].
  apply (Hrec id1 reserved).
  - apply (elem_of_current db_sent reserved); [apply (store_reachable_ok _ _ reach_sent)|]. vm_compute. by left.
  - vm_compute. by left.
Defined.
