(* ===== verification/ResultWire.v ===== *)
(** * Credit and order services: the results on their way back

    Every result credit-service computes for a command of an errand is a
    message order-service accepts, under the key of that command and with the
    same amount, sequence number and code. *)

From S2P Require Import Prelude GoText Json GoTime WalletRepo Wallet WalletInv WalletSafe WalletSystem WalletProps CreditOutbox CreditMsg CreditMsgProps Errand ErrandState ErrandJson ErrandInv ErrandStore StoreInv Resilience OrderOutbox OrderCredit.

(** ** The envelope *)

Definition as_oenvelope (e : Envelope) : OEnvelope :=
  mkOEnvelope (e_MessageID e) (e_CorrelationID e) (e_Type e) (e_OccurredAt e) (e_ErrandID e) (e_ErrandVersion e) (e_Data e).

Lemma dec_envelope_same body : dec_envelope body = as_oenvelope <$> unmarshal_envelope body.
Proof.
  unfold dec_envelope, unmarshal_envelope, obind. repeat case_match; simplify_eq; done.
Qed.

Lemma has_prefix_app s t : has_prefix (s +:+ t) s = true.
Proof.
  unfold has_prefix. induction s as [|a s IH]; [by destruct t|]. cbn [String.append String.prefix].
  change (String a s +:+ t) with (String a (s +:+ t)). simpl. by destruct (Ascii.ascii_dec a a).
Qed.

Lemma dec_resultData r :
  in_int64 (r_Amount r) → in_int64 (r_Seq r) →
  dec_CreditResult (enc_resultData r) = Some (mkCreditResult (r_Amount r) (r_Seq r) (r_Code r)).
Proof.
  intros Ha Hs. unfold dec_CreditResult, enc_resultData. cbn [members obind].
  autorewrite with json. cbn [obind]. done.
Qed.

(** ** Keys and results *)

(** The key under which order-service sends a command of the errand [id]. *)
Definition sent_under (c : Command) (id key : string) : Prop :=
  match c with
  | CReserve _ => key = IdempotencyKey id "reserve" 0
  | CAdjust _ => ∃ op v, (op = "adjust" ∨ op = "adjust-revert") ∧ 0 < v ∧ key = IdempotencyKey id op v
  | CRelease _ => key = IdempotencyKey id "release" 0
  | CTransfer _ => key = IdempotencyKey id "transfer" 0
  end.

Lemma sent_under_prefix c id key :
  sent_under c id key → has_prefix key (id +:+ ":") = true ∧ key ≠ "".
Proof.
  assert (∀ op v, has_prefix (IdempotencyKey id op v) (id +:+ ":") = true ∧ IdempotencyKey id op v ≠ "") as Hk.
  { intros op v. unfold IdempotencyKey. split.
    - destruct (0 <? v); rewrite ?sapp_assoc; rewrite <- (sapp_assoc id); apply has_prefix_app.
    - intros Heq%(f_equal String.length). destruct (0 <? v); rewrite !length_sapp in Heq; simpl in Heq; lia. }
  destruct c; simpl; [intros ->|intros (op & v & _ & _ & ->)|intros ->|intros ->]; apply Hk.
Qed.

(** What order-service requires of a result, beyond its envelope. *)
Record result_fits (id key : string) (r : Result) : Prop := {
  rf_type : r_Type r ∈ CreditResults;
  rf_key : answers_command (r_Type r) id key = true;
  rf_code : needs_code (r_Type r) && bool_decide (r_Code r = "") = false;
  rf_amount : in_int64 (r_Amount r);
  rf_seq : in_int64 (r_Seq r);
}.

Lemma is_key_hit id op : bool_decide (IdempotencyKey id op 0 = IdempotencyKey id op 0) = true.
Proof. by apply bool_decide_eq_true. Qed.

Lemma answers_types id key :
  (key = IdempotencyKey id "reserve" 0 →
     answers_command ResultReserved id key = true ∧ answers_command ResultReservationRefused id key = true) ∧
  (key = IdempotencyKey id "release" 0 → answers_command ResultReleased id key = true) ∧
  (key = IdempotencyKey id "transfer" 0 → answers_command ResultTransferred id key = true) ∧
  (∀ op v, op = "adjust" ∨ op = "adjust-revert" → 0 < v → key = IdempotencyKey id op v →
     answers_command ResultAdjusted id key = true ∧ answers_command ResultAdjustRefused id key = true) ∧
  answers_command ResultOperationFailed id key = true.
Proof.
  assert (∀ op v, 0 < v → has_prefix (IdempotencyKey id op v) (id +:+ String ":" (op +:+ ":")) = true) as Hp.
  { intros op v Hv. unfold IdempotencyKey. rewrite (proj2 (Z.ltb_lt _ _) Hv).
    replace ((id +:+ ":" +:+ op) +:+ ":" +:+ itoa v) with ((id +:+ String ":" (op +:+ ":")) +:+ itoa v).
    - apply has_prefix_app.
    - rewrite !sapp_assoc. apply (f_equal (λ s, id +:+ s)).
      change (String ":" (op +:+ ":") +:+ itoa v) with (String ":" ((op +:+ ":") +:+ itoa v)).
      by rewrite sapp_assoc. }
  split_and!; [intros ->; split|intros ->|intros ->|intros op v Hop Hv ->|done].
  1-4: apply bool_decide_eq_true; reflexivity.
  assert (answers_command ResultAdjusted id (IdempotencyKey id op v) = true) as H;
    [|split; [exact H|exact H]].
  change (has_prefix (IdempotencyKey id op v) (id +:+ ":adjust:") || has_prefix (IdempotencyKey id op v) (id +:+ ":adjust-revert:") = true).
  specialize (Hp op v Hv). destruct Hop as [-> | ->]; simpl in Hp.
  - change (String ":" ("adjust" +:+ ":")) with ":adjust:" in Hp. by rewrite Hp.
  - change (String ":" ("adjust-revert" +:+ ":")) with ":adjust-revert:" in Hp. rewrite Hp. apply orb_true_r.
Qed.

(** A result of a literal type and code fits. *)
Ltac fits H :=
  eapply H; [reflexivity|by apply (bool_decide_unpack _); vm_compute|assumption|reflexivity|..]; simpl; eauto.

(** Every answer to a command fits. *)
Lemma command_result_fits env c db r db' id key :
  db_ok db → command_valid c = true → command_in_range c → sent_under c id key →
  command_op env id c db = Ok (r, db') → result_fits id key r.
Proof.
  intros Hok Hv Hr Hk Hrun. destruct (answers_types id key) as (Hres & Hrel & Htra & Hadj & Hfail).
  unfold command_valid in Hv. apply andb_true_iff in Hv as [_ Hv].
  assert (∀ i rv, db_reservations db !! i = Some rv → in_int64 (rv_Amount rv)) as Hrv.
  { intros i rv Hl. destruct (rk_row _ (ok_reservations _ Hok) _ _ Hl) as (_ & Ha & _).
    unfold in_int64, min_int64. lia. }
  assert (in_int64 0) as H0 by done.
  assert (∀ t, r_Type r = t → t ∈ CreditResults → answers_command t id key = true →
    needs_code t && bool_decide (r_Code r = "") = false → in_int64 (r_Amount r) → in_int64 (r_Seq r) → result_fits id key r) as Hfits.
  { intros t <- ?????. by split. }
  destruct c as [c|c|c|c]; simpl in Hv, Hr, Hk, Hrun; bool_props.
  - destruct (Hres Hk) as [Ha1 Ha2]. unfold in_int64 in Hr.
    destruct (reserve_op_effect env id c db r db' Hok ltac:(lia) Hrun); fits Hfits.
  - destruct Hk as (op & v & Hop & Hv0 & Hk). destruct (Hadj op v Hop Hv0 Hk) as [Ha1 Ha2]. destruct Hr as [Hr1 Hr2]. unfold in_int64 in Hr1.
    destruct (adjust_op_effect env id c db r db' Hok ltac:(lia) Hrun); fits Hfits.
  - specialize (Hrel Hk). destruct (release_op_effect env id c db r db' Hok Hrun); fits Hfits.
  - specialize (Htra Hk). unfold in_int64 in Hr.
    destruct (transfer_op_effect env id c db r db' Hok ltac:(lia) ltac:(congruence) Hrun); fits Hfits.
Qed.

(** C40: Every answer of credit-service is understood.  Whatever state the wallets
    are in, the message built from the result of a command of an errand passes
    order-service's checks: it is decoded under the key of that command, for
    that errand, with the amount, sequence number and code credit-service
    computed, also for the codes the asynchronous contract does not list. *)
Theorem results_reach_errand credit db env c result db' key now payload :
  money credit → WalletSystem.reachable credit db → command_valid c = true → command_in_range c →
  to_lower (command_order c) = command_order c → in_int64 (command_version c) →
  sent_under c (command_order c) key →
  command_op env (to_lower (command_order c)) c db = Ok (result, db') →
  marshal_envelope (BuildResult (mkReply key (to_lower (command_order c)) (command_version c)) result now) = Some payload →
  ∃ r, decode_result (r_Type result) (Some payload) = Some r ∧ rm_routingKey r = r_Type result ∧
    oe_ErrandID (rm_env r) = command_order c ∧ oe_CorrelationID (rm_env r) = key ∧
    rm_data r = mkCreditResult (r_Amount result) (r_Seq result) (r_Code result).
Proof.
  intros Hm Hre Hv Hr Hlow Hver Hk Hrun Hj. rewrite Hlow in Hrun, Hj. pose proof (reachable_ok _ _ Hm Hre) as Hok.
  destruct (command_result_fits _ _ _ _ _ _ _ Hok Hv Hr Hk Hrun) as [Hty Hans Hcode Ham Hseq].
  destruct (sent_under_prefix _ _ _ Hk) as [Hpre Hkne].
  assert (command_order c ≠ "") as Hid.
  { intros Heq. unfold command_valid in Hv. rewrite Heq in Hv. done. }
  set (e := BuildResult _ _ _) in Hj.
  exists (mkResultMsg (r_Type result) (as_oenvelope e) (mkCreditResult (r_Amount result) (r_Seq result) (r_Code result))).
  split; [|done]. unfold decode_result. rewrite bool_decide_true by done. cbn [negb].
  rewrite dec_envelope_same, (unmarshal_marshal e payload Hver Hj).
  match goal with |- context [as_oenvelope <$> Some ?x] => change (as_oenvelope <$> Some x) with (Some (as_oenvelope e)) end. cbv iota beta.
  change (oe_Type (as_oenvelope e)) with (r_Type result). change (oe_ErrandID (as_oenvelope e)) with (command_order c).
  change (oe_CorrelationID (as_oenvelope e)) with key. change (oe_Data (as_oenvelope e)) with (Some (enc_resultData result)).
  rewrite (bool_decide_true (r_Type result = _)), (bool_decide_false (command_order c = "")), (bool_decide_false (key = "")), Hpre by done.
  cbn [negb orb].
  rewrite dec_resultData by done. cbv beta iota. rewrite Hans. unfold enc_resultData. cbn [negb cr_Code]. by rewrite Hcode.
Qed.

(** ** Witness *)

Module WireScenario.
Import Scenario.
Definition key := IdempotencyKey order "reserve" 0.
Definition answer := mkResult ResultReserved 40 0 "".
Definition after_reserve : DB := Eval vm_compute in
  match command_op env3 order (CReserve reserve40) db2 with Ok (_, db) => db | Err _ => db2 end.
Definition wire : json := Eval vm_compute in
  default JNull (marshal_envelope (BuildResult (mkReply key order 1) answer 0)).
End WireScenario.

Lemma results_reach_errand_witness :
  ∃ r, decode_result ResultReserved (Some WireScenario.wire) = Some r ∧
    oe_CorrelationID (rm_env r) = IdempotencyKey Scenario.order "reserve" 0 ∧ rm_data r = mkCreditResult 40 0 "".
Proof.
  destruct (results_reach_errand 100 Scenario.db2 Scenario.env3 (CReserve Scenario.reserve40) WireScenario.answer
    WireScenario.after_reserve WireScenario.key 0 WireScenario.wire) as (r & Hd & _ & _ & Hc & Hr);
    [exact Scenario.credit_ok|exact Scenario.reach2|vm_compute; reflexivity|vm_compute; by split|vm_compute; reflexivity
    |vm_compute; by split|reflexivity|vm_compute; reflexivity|vm_compute; reflexivity|].
  exists r. split_and!; [exact Hd|exact Hc|exact Hr].
Defined.
