(* ===== verification/Deletion.v ===== *)
(** * supplier-service: the deletion store

    [internal/database/supplierrepo/deletions.go] with its queries
    ([queries/deletions.sql]) and the constraints of the table
    [supplier_deletion_operations]: the operation records, their claims with
    leases, and the soft delete of a supplier.  A store call is a statement or
    a transaction; it returns its Go result and the database it left. *)

From S2P Require Import Prelude GoText Errand ErrandStore.

Local Open Scope string_scope.
Open Scope Z_scope.

(** ** repository.go, types.go, validation.go *)

Inductive DeletionState :=
| DeletionRequested | DeletionReleasePending | DeletionCommitPending
| DeletionRejectedActiveErrands | DeletionCompleted.
#[export] Instance DeletionState_eq_dec : EqDecision DeletionState.
Proof. solve_decision. Defined.

Definition DeletionFailureAcquireUnavailable : string := "acquire_unavailable".
Definition DeletionFailureAcquireAmbiguous : string := "acquire_ambiguous".
Definition DeletionFailureInspectUnavailable : string := "inspect_unavailable".
Definition DeletionFailureReleaseUnavailable : string := "release_unavailable".
Definition DeletionFailureCommitUnavailable : string := "commit_unavailable".

Record DeletionRecord := mkDeletionRecord {
  dl_OperationID : string; dl_SupplierID : string; dl_State : DeletionState;
  dl_AttemptCount : Z; dl_MaxAttempts : Z; dl_NextAttemptAt : option Z; dl_FailureCode : string;
  dl_ClaimID : string; dl_LeaseExpiresAt : option Z; dl_RequestedAt : Z; dl_UpdatedAt : Z;
  dl_DeletedAt : option Z; dl_CompletedAt : option Z }.

(** The errors of the store; [SupOther] is any other database error. *)
Inductive SupError :=
| SupNotFound                      (* apperror SUPPLIER_NOT_FOUND *)
| SupInvalidArgument               (* apperror INVALID_ARGUMENT *)
| SupOperationMismatch             (* ErrDeletionOperationMismatch *)
| SupClaimLost                     (* ErrDeletionClaimLost *)
| SupInvalidTransition             (* ErrInvalidDeletionTransition *)
| SupOther (what : string).

Definition isSupplierNotFound (e : SupError) : bool :=
  match e with SupNotFound => true | _ => false end.

(** [[1-8]] and [[89ab]], ignoring case. *)
Definition is_version (a : ascii) : bool := between 49 (byte_of a) 56.
Definition is_variant (a : ascii) : bool :=
  let b := byte_of (lower_ascii a) in (b =? 56) || (b =? 57) || (b =? 97) || (b =? 98).

Definition sup_uuid_classes : list (ascii → bool) :=
  replicate 8 is_hex ++ [is_dash] ++ replicate 4 is_hex ++ [is_dash] ++ (is_version :: replicate 3 is_hex)
  ++ [is_dash] ++ (is_variant :: replicate 3 is_hex) ++ [is_dash] ++ replicate 12 is_hex.

Definition sup_uuidPattern (s : string) : bool := match_classes sup_uuid_classes s.
Definition ValidSupplierID (id : string) : bool := sup_uuidPattern id.
Definition ValidDeletionOperationID (id : string) : bool := sup_uuidPattern id.

(** ** Tables *)

(** The columns of [suppliers] that deletion reads or writes. *)
Record SupplierRow := mkSupplierRow { su_CreatedAt : Z; su_UpdatedAt : Z; su_DeletedAt : option Z }.

Record DeletionRow := mkDeletionRow {
  dr_OperationID : string; dr_SupplierID : string; dr_State : DeletionState;
  dr_AttemptCount : Z; dr_MaxAttempts : Z; dr_NextAttemptAt : option Z; dr_FailureCode : option string;
  dr_ClaimID : option string; dr_LeaseExpiresAt : option Z; dr_RequestedAt : Z; dr_UpdatedAt : Z;
  dr_DeletedAt : option Z; dr_CompletedAt : option Z }.

Record SDB := mkSDB { db_suppliers : gmap string SupplierRow; db_deletions : gmap string DeletionRow }.

Definition set_suppliers (m : gmap string SupplierRow) (db : SDB) : SDB := mkSDB m (db_deletions db).
Definition set_deletions (m : gmap string DeletionRow) (db : SDB) : SDB := mkSDB (db_suppliers db) m.

(** States a worker may still advance. *)
Definition open_state (s : DeletionState) : bool :=
  match s with
  | DeletionRequested | DeletionReleasePending | DeletionCommitPending => true
  | _ => false
  end.

(** The supplier has been soft-deleted. *)
Definition deleted_state (s : DeletionState) : bool :=
  match s with DeletionCommitPending | DeletionCompleted => true | _ => false end.

(** Being rejected or rejected. *)
Definition rejecting (s : DeletionState) : bool :=
  match s with DeletionReleasePending | DeletionRejectedActiveErrands => true | _ => false end.

Definition validFailureCode (code : string) : bool :=
  bool_decide (code ∈ [DeletionFailureAcquireUnavailable; DeletionFailureAcquireAmbiguous;
    DeletionFailureInspectUnavailable; DeletionFailureReleaseUnavailable; DeletionFailureCommitUnavailable]).

Definition ole (x y : option Z) : bool :=
  match x, y with Some a, Some b => a <=? b | _, _ => true end.

(** The CHECK constraints of [supplier_deletion_operations]. *)
Definition deletion_check (r : DeletionRow) : bool :=
  (0 <? dr_MaxAttempts r) && (0 <=? dr_AttemptCount r) && (dr_AttemptCount r <=? dr_MaxAttempts r)
  && match dr_FailureCode r with None => true | Some c => validFailureCode c end
  && Bool.eqb (bool_decide (dr_ClaimID r = None)) (bool_decide (dr_LeaseExpiresAt r = None))
  && match dr_LeaseExpiresAt r with None => true | Some l => dr_UpdatedAt r <? l end
  && Bool.eqb (deleted_state (dr_State r)) (bool_decide (dr_DeletedAt r ≠ None))
  && Bool.eqb (bool_decide (dr_State r = DeletionCompleted)) (bool_decide (dr_CompletedAt r ≠ None))
  && (open_state (dr_State r) || (bool_decide (dr_ClaimID r = None) && bool_decide (dr_NextAttemptAt r = None)))
  && (dr_RequestedAt r <=? dr_UpdatedAt r)
  && ole (Some (dr_RequestedAt r)) (dr_DeletedAt r)
  && ole (dr_DeletedAt r) (dr_CompletedAt r).

(** The CHECK constraints of [suppliers] on these columns. *)
Definition supplier_check (r : SupplierRow) : bool :=
  (su_CreatedAt r <=? su_UpdatedAt r) && ole (Some (su_CreatedAt r)) (su_DeletedAt r).

Section store.
Context `{Postgres}.

Abbreviation SupOp := (M SDB SupError).

(** ** queries/deletions.sql *)

(** [sqlc.arg(...)::text::uuid] *)
Definition cast_uuid (s : string) : SupOp string :=
  match uuid_cast s with Some u => ret u | None => fail (SupOther "22P02") end.

Definition deletionRecord (r : DeletionRow) : DeletionRecord :=
  mkDeletionRecord (dr_OperationID r) (dr_SupplierID r) (dr_State r) (dr_AttemptCount r) (dr_MaxAttempts r)
    (dr_NextAttemptAt r) (default "" (dr_FailureCode r)) (default "" (dr_ClaimID r)) (dr_LeaseExpiresAt r)
    (dr_RequestedAt r) (dr_UpdatedAt r) (dr_DeletedAt r) (dr_CompletedAt r).

Definition put_deletion (op : string) (r : DeletionRow) : SupOp unit :=
  λ db, if deletion_check r then Ok (tt, set_deletions (<[op := r]> (db_deletions db)) db)
        else Err (SupOther "23514").

(** [INSERT ... ON CONFLICT (operation_id) DO UPDATE SET operation_id = ...
    RETURNING]: the row there is, or the new one. *)
Definition CreateOrGetDeletionOperation (op supplier : string) (maxAttempts now : Z) : SupOp DeletionRow :=
  let! o := cast_uuid op in
  let! s := cast_uuid supplier in
  λ db, match db_deletions db !! o with
        | Some r => Ok (r, db)
        | None =>
            let at_ := stored_time now in
            let r := mkDeletionRow o s DeletionRequested 0 maxAttempts (Some at_) None None None at_ at_ None None in
            match db_suppliers db !! s with
            | None => Err SupNotFound      (* 23503, mapped by the repository *)
            | Some _ => bind (put_deletion o r) (λ _, ret r) db
            end
        end.

Definition GetDeletionOperation (op : string) : SupOp (option DeletionRow) :=
  let! o := cast_uuid op in λ db, Ok (db_deletions db !! o, db).

(** Due, not terminal, not exhausted and not leased. *)
Definition deletion_claimable (now : Z) (r : DeletionRow) : bool :=
  open_state (dr_State r) && (dr_AttemptCount r <? dr_MaxAttempts r)
  && match dr_NextAttemptAt r with None => false | Some t => t <=? now end
  && (bool_decide (dr_ClaimID r = None)
      || match dr_LeaseExpiresAt r with None => false | Some l => l <=? now end).

Definition operation_le (x y : DeletionRow) : Prop := String.leb (dr_OperationID x) (dr_OperationID y) = true.
#[export] Instance operation_le_dec : RelDecision operation_le.
Proof. intros x y. unfold operation_le. apply _. Defined.

Definition ListClaimableDeletionOperations (now : Z) (limit : Z) : SupOp (list DeletionRow) :=
  λ db, Ok (take (Z.to_nat limit)
              (merge_sort operation_le (snd <$> scan (deletion_claimable (stored_time now)) (db_deletions db))), db).

Definition claimed_row (c : string) (lease now : Z) (r : DeletionRow) : DeletionRow :=
  mkDeletionRow (dr_OperationID r) (dr_SupplierID r) (dr_State r) (dr_AttemptCount r + 1) (dr_MaxAttempts r)
    (dr_NextAttemptAt r) (dr_FailureCode r) (Some c) (Some lease) (dr_RequestedAt r) now
    (dr_DeletedAt r) (dr_CompletedAt r).

Definition ClaimDeletionOperation (op claim : string) (now lease : Z) : SupOp (option DeletionRow) :=
  let! o := cast_uuid op in
  let! c := cast_uuid claim in
  λ db, match db_deletions db !! o with
        | Some r =>
            if deletion_claimable (stored_time now) r then
              let r' := claimed_row c (stored_time lease) (stored_time now) r in
              bind (put_deletion o r') (λ _, ret (Some r')) db
            else Ok (None, db)
        | None => Ok (None, db)
        end.

(** [AND claim_id = $ AND lease_expires_at > $]. *)
Definition holds_claim (c : string) (now : Z) (r : DeletionRow) : bool :=
  bool_decide (dr_ClaimID r = Some c)
  && match dr_LeaseExpiresAt r with None => false | Some l => now <? l end.

(** An [UPDATE ... WHERE operation_id = $ AND <guard>]: the rows changed. *)
Definition update_deletion (op claim : string) (now : Z) (guard : DeletionRow → bool)
    (change : DeletionRow → DeletionRow) : SupOp Z :=
  let! o := cast_uuid op in
  let! c := cast_uuid claim in
  λ db, match db_deletions db !! o with
        | Some r => if guard r && holds_claim c (stored_time now) r
                    then bind (put_deletion o (change r)) (λ _, ret 1) db
                    else Ok (0, db)
        | None => Ok (0, db)
        end.

Definition in_state (s : DeletionState) (r : DeletionRow) : bool := bool_decide (dr_State r = s).

(** The columns a state change sets; [deleted] and [completed] keep a column
    when they are [None]. *)
Definition move_row (s : DeletionState) (next : option Z) (keep_claim : bool) (deleted completed : option Z)
    (now : Z) (r : DeletionRow) : DeletionRow :=
  mkDeletionRow (dr_OperationID r) (dr_SupplierID r) s (dr_AttemptCount r) (dr_MaxAttempts r) next None
    (if keep_claim then dr_ClaimID r else None) (if keep_claim then dr_LeaseExpiresAt r else None)
    (dr_RequestedAt r) now
    (match deleted with Some t => Some t | None => dr_DeletedAt r end)
    (match completed with Some t => Some t | None => dr_CompletedAt r end).

Definition sql_MarkReleasePending (op claim : string) (now : Z) : SupOp Z :=
  update_deletion op claim now (in_state DeletionRequested)
    (move_row DeletionReleasePending (Some (stored_time now)) true None None (stored_time now)).

Definition sql_MarkRejected (op claim : string) (now : Z) : SupOp Z :=
  update_deletion op claim now (in_state DeletionReleasePending)
    (move_row DeletionRejectedActiveErrands None false None None (stored_time now)).

Definition SoftDeleteSupplier (now : Z) (supplier : string) : SupOp Z :=
  let! s := cast_uuid supplier in
  λ db, match db_suppliers db !! s with
        | Some (mkSupplierRow created _ None) =>
            let r := mkSupplierRow created (stored_time now) (Some (stored_time now)) in
            if supplier_check r then Ok (1, set_suppliers (<[s := r]> (db_suppliers db)) db)
            else Err (SupOther "23514")
        | _ => Ok (0, db)
        end.

Definition MarkDeletionCommitPending (op supplier claim : string) (now : Z) : SupOp Z :=
  let! s := cast_uuid supplier in
  update_deletion op claim now (λ r, in_state DeletionRequested r && bool_decide (dr_SupplierID r = s))
    (move_row DeletionCommitPending (Some (stored_time now)) true (Some (stored_time now)) None (stored_time now)).

Definition CompleteDeletionOperation (op claim : string) (now : Z) : SupOp Z :=
  update_deletion op claim now (in_state DeletionCommitPending)
    (move_row DeletionCompleted None false None (Some (stored_time now)) (stored_time now)).

Definition retry_row (next : option Z) (code : string) (now : Z) (r : DeletionRow) : DeletionRow :=
  mkDeletionRow (dr_OperationID r) (dr_SupplierID r) (dr_State r) (dr_AttemptCount r) (dr_MaxAttempts r)
    next (Some code) None None (dr_RequestedAt r) now (dr_DeletedAt r) (dr_CompletedAt r).

Definition ScheduleDeletionOperationRetry (op claim code : string) (next : option Z) (now : Z) : SupOp Z :=
  update_deletion op claim now (λ r, open_state (dr_State r))
    (retry_row (stored_time <$> next) code (stored_time now)).

(** ** deletions.go *)

Definition maximumPendingDeletionPage : Z := 100.

Definition boundedInt32 (value : Z) : bool := (0 <? value) && (value <=? 2147483647).

(** The statement commits before the supplier is compared. *)
Definition CreateOrGetDeletion (op supplier : string) (maxAttempts now : Z) (db : SDB) :
    res SupError DeletionRecord * SDB :=
  if negb (boundedInt32 maxAttempts) then (Err SupInvalidArgument, db)
  else match inTx (CreateOrGetDeletionOperation op supplier maxAttempts now) db with
       | (Err e, db') => (Err e, db')
       | (Ok row, db') =>
           if negb (bool_decide (dr_SupplierID row = supplier)) then (Err SupOperationMismatch, db')
           else (Ok (deletionRecord row), db')
       end.

Definition GetDeletion (op : string) : SupOp DeletionRecord :=
  let! row := GetDeletionOperation op in
  match row with Some r => ret (deletionRecord r) | None => fail SupInvalidArgument end.

Definition ListClaimableDeletions (now limit : Z) : SupOp (list DeletionRecord) :=
  if (limit <=? 0) || (maximumPendingDeletionPage <? limit) then fail SupInvalidArgument
  else let! rows := ListClaimableDeletionOperations now limit in ret (deletionRecord <$> rows).

(** [None]: not claimed. *)
Definition ClaimDeletion (op claim : string) (now leaseExpiresAt : Z) : SupOp (option DeletionRecord) :=
  if leaseExpiresAt <=? now then fail SupInvalidArgument
  else let! row := ClaimDeletionOperation op claim now leaseExpiresAt in ret (deletionRecord <$> row).

Definition diagnoseTransition {A} (op claim : string) (now : Z) : SupOp A :=
  let! row := GetDeletionOperation op in
  match row with
  | None => fail SupInvalidTransition
  | Some r =>
      if negb (bool_decide (default "" (dr_ClaimID r) = claim))
         || match dr_LeaseExpiresAt r with None => true | Some l => l <=? now end
      then fail SupClaimLost
      else fail SupInvalidTransition
  end.

Definition transitionResult (op claim : string) (now : Z) (rows : Z) : SupOp unit :=
  if rows =? 1 then ret tt else diagnoseTransition op claim now.

Definition MarkDeletionReleasePending (op claim : string) (now : Z) : SupOp unit :=
  bind (sql_MarkReleasePending op claim now) (transitionResult op claim now).

Definition MarkDeletionRejectedActiveErrands (op claim : string) (now : Z) : SupOp unit :=
  bind (sql_MarkRejected op claim now) (transitionResult op claim now).

Definition DeleteCurrentAndMarkCommitPending (supplier op claim : string) (now : Z) : SupOp unit :=
  let! rows := SoftDeleteSupplier now supplier in
  if negb (rows =? 1) then fail SupNotFound
  else let! rows2 := MarkDeletionCommitPending op supplier claim now in
       if negb (rows2 =? 1) then diagnoseTransition op claim now else ret tt.

Definition CompleteDeletion (op claim : string) (now : Z) : SupOp unit :=
  bind (CompleteDeletionOperation op claim now) (transitionResult op claim now).

Definition ScheduleDeletionRetry (op claim code : string) (next : option Z) (now : Z) : SupOp unit :=
  if negb (validFailureCode code) then fail SupInvalidArgument
  else bind (ScheduleDeletionOperationRetry op claim code next now) (transitionResult op claim now).

(** ** The calls of [supplier.DeletionStore] *)

Inductive StoreCall : Type → Type :=
| CCreateOrGet (op supplier : string) (maxAttempts now : Z) : StoreCall DeletionRecord
| CGet (op : string) : StoreCall DeletionRecord
| CList (now limit : Z) : StoreCall (list DeletionRecord)
| CClaim (op claim : string) (now lease : Z) : StoreCall (option DeletionRecord)
| CMarkReleasePending (op claim : string) (now : Z) : StoreCall unit
| CMarkRejected (op claim : string) (now : Z) : StoreCall unit
| CDelete (supplier op claim : string) (now : Z) : StoreCall unit
| CComplete (op claim : string) (now : Z) : StoreCall unit
| CRetry (op claim code : string) (next : option Z) (now : Z) : StoreCall unit.

Definition run_call {A} (c : StoreCall A) : SDB → res SupError A * SDB :=
  match c with
  | CCreateOrGet op s m now => CreateOrGetDeletion op s m now
  | CGet op => inTx (GetDeletion op)
  | CList now limit => inTx (ListClaimableDeletions now limit)
  | CClaim op c now lease => inTx (ClaimDeletion op c now lease)
  | CMarkReleasePending op c now => inTx (MarkDeletionReleasePending op c now)
  | CMarkRejected op c now => inTx (MarkDeletionRejectedActiveErrands op c now)
  | CDelete s op c now => inTx (DeleteCurrentAndMarkCommitPending s op c now)
  | CComplete op c now => inTx (CompleteDeletion op c now)
  | CRetry op c code next now => inTx (ScheduleDeletionRetry op c code next now)
  end.

End store.
