(* ===== verification/FenceWire.v ===== *)
(** * The fence routes: order-service's handler and supplier-service's client

    order-service [internal/fence/handler.go] answers the four routes;
    supplier-service [internal/orderclient/client.go] reads one response.  A
    request is its route, the operation ID of its path and its JSON body; a
    body that is absent or no JSON is [None].  The text of error messages is
    not represented. *)

From S2P Require Import Prelude GoText Json Errand ErrandJson ErrandStore Fence Deletion.

Local Open Scope string_scope.
Open Scope Z_scope.

Inductive Route := RAcquire | RInspect | RCommit | RRelease.

Record FenceRequest := mkFenceRequest { rq_Route : Route; rq_OperationID : string; rq_Body : option json }.

Record HttpResponse := mkHttpResponse { rs_Status : Z; rs_Body : option json }.

(** ** order-service: handler.go *)

Definition wireState (s : FenceState) : string :=
  match s with FenceOpen => "open" | FenceCommitted => "committed" | FenceReleased => "released" end.

Definition error_response (code : Code) : HttpResponse :=
  mkHttpResponse (HTTPStatus code) (Some (JObj [("code", JStr (Code_string code))])).

(** [target]: the caller's subject and the lower-case operation ID. *)
Definition target (principal : option string) (operationID : string) : res Code (string * string) :=
  match principal with
  | None => Err Unauthenticated
  | Some subject =>
      if bool_decide (subject = "") then Err Unauthenticated
      else if negb (uuid_pattern operationID) then Err InvalidArgument
      else Ok (subject, to_lower operationID)
  end.

(** The members of the body in order: the supplier ID so far ([None] is the
    nil pointer) and whether a member was refused. *)
Fixpoint acquire_members (ms : list (string * json)) (acc : option string) (bad : bool) : option string * bool :=
  match ms with
  | [] => (acc, bad)
  | (key, v) :: ms' =>
      if key_matches "supplierId" key then
        match v with
        | JStr s => acquire_members ms' (Some s) bad
        | JNull => acquire_members ms' None bad
        | _ => acquire_members ms' acc true
        end
      else acquire_members ms' acc true
  end.

Definition decodeAcquire (body : option json) : res Code string :=
  match body ≫= members with
  | None => Err InvalidArgument
  | Some ms =>
      match acquire_members ms None false with
      | (_, true) | (None, _) => Err ValidationFailed
      | (Some s, false) => if uuid_pattern s then Ok (to_lower s) else Err ValidationFailed
      end
  end.

Definition enc_fence (f : Fence) : json :=
  JObj [("operationId", JStr (fc_OperationID f)); ("supplierId", JStr (fc_SupplierID f));
        ("state", JStr (wireState (fc_State f))); ("hasActiveErrands", JBool (fc_HasActiveErrands f))].

Definition respond (r : res Failure Fence) : HttpResponse :=
  match r with
  | Ok f => mkHttpResponse 200 (Some (enc_fence f))
  | Err (FApp e) => error_response (ae_Code e)
  | Err (FPlain _) => error_response Internal
  end.

Section server.
Context `{Postgres}.

Definition serve_fence (principal : option string) (rq : FenceRequest) (db : ODB) : HttpResponse * ODB :=
  match target principal (rq_OperationID rq) with
  | Err code => (error_response code, db)
  | Ok (actor, op) =>
      match rq_Route rq with
      | RAcquire =>
          match decodeAcquire (rq_Body rq) with
          | Err code => (error_response code, db)
          | Ok s => let '(r, db') := Acquire actor op s db in (respond r, db')
          end
      | RInspect => (respond (Inspect op db), db)
      | RCommit => let '(r, db') := Commit actor op db in (respond r, db')
      | RRelease => let '(r, db') := ReleaseFence actor op db in (respond r, db')
      end
  end.

End server.

(** ** supplier-service: fence.go and client.go *)

(** [deletefeature.Fence]; its state is the text of the response. *)
Record DFence := mkDFence {
  df_OperationID : string; df_SupplierID : string; df_State : string; df_HasActiveErrands : bool }.

Definition DFenceOpen : string := "open".
Definition DFenceCommitted : string := "committed".
Definition DFenceReleased : string := "released".

Inductive ClientError :=
| ErrUnavailable | ErrClientFenceNotFound | ErrClientInvalidTransition | ErrClientRejected | ErrInvalidResponse
| ErrNotConfigured.

Definition dec_bool (acc : bool) (v : json) : option bool :=
  match v with JBool b => Some b | JNull => Some acc | _ => None end.

(** [fenceResponse] *)
Definition dec_fence (v : json) : option DFence :=
  ms ← members v;
  op ← dec_field dec_string "operationId" ms "";
  s ← dec_field dec_string "supplierId" ms "";
  st ← dec_field dec_string "state" ms "";
  a ← dec_field dec_bool "hasActiveErrands" ms false;
  Some (mkDFence op s st a).

Definition fence_state_known (st : string) : bool :=
  bool_decide (st = DFenceOpen) || bool_decide (st = DFenceCommitted) || bool_decide (st = DFenceReleased).

(** [attempt], from what [http.Client.Do] returned ([None] is an error): the
    fence, or the error and whether it is retried. *)
Definition attempt_result (r : option HttpResponse) : res (ClientError * bool) DFence :=
  match r with
  | None => Err (ErrUnavailable, true)
  | Some resp =>
      let st := rs_Status resp in
      if negb (st =? 200) then
        if (st =? 429) || (500 <=? st) then Err (ErrUnavailable, true)
        else if st =? 404 then Err (ErrClientFenceNotFound, false)
        else if st =? 409 then Err (ErrClientInvalidTransition, false)
        else if (400 <=? st) && (st <? 500) then Err (ErrClientRejected, false)
        else Err (ErrInvalidResponse, false)
      else match rs_Body resp ≫= dec_fence with
           | None => Err (ErrInvalidResponse, false)
           | Some f =>
               if negb (fence_state_known (df_State f)) then Err (ErrInvalidResponse, false)
               else if negb (ValidSupplierID (df_SupplierID f)) then Err (ErrInvalidResponse, false)
               else Ok f
           end
  end.

(** ** What crosses the wire *)

(** The client reads back the fence order-service wrote. *)
Lemma dec_enc_fence f :
  dec_fence (enc_fence f) =
  Some (mkDFence (fc_OperationID f) (fc_SupplierID f) (wireState (fc_State f)) (fc_HasActiveErrands f)).
Proof. by destruct f as [op s [] []]. Qed.
Arguments dec_fence : simpl never.
Arguments enc_fence : simpl never.

Lemma fence_state_wire s : fence_state_known (wireState s) = true.
Proof. by destruct s. Qed.

#[export] Instance wireState_inj : Inj (=) (=) wireState.
Proof. by intros [] []. Qed.

(** A response is a fence only if order-service answered with one. *)
Lemma respond_fence r f :
  attempt_result (Some (respond r)) = Ok f →
  ∃ g, r = Ok g ∧ f = mkDFence (fc_OperationID g) (fc_SupplierID g) (wireState (fc_State g)) (fc_HasActiveErrands g).
Proof.
  destruct r as [g|[e|w]]; unfold respond.
  - unfold attempt_result, rs_Status, rs_Body. change (Some (enc_fence g) ≫= dec_fence) with (dec_fence (enc_fence g)).
    rewrite dec_enc_fence. simpl. rewrite fence_state_wire. simpl. destruct (ValidSupplierID _); [|done].
    intros [= <-]. by exists g.
  - by destruct (ae_Code e).
  - done.
Qed.

Lemma error_no_fence code f : attempt_result (Some (error_response code)) = Ok f → False.
Proof. by destruct code. Qed.

Lemma decodeAcquire_own s :
  uuid_pattern s = true → decodeAcquire (Some (JObj [("supplierId", JStr s)])) = Ok (to_lower s).
Proof. intros Hs. unfold decodeAcquire. simpl. by rewrite Hs. Qed.

(** Another status is never a fence. *)
Lemma attempt_not_200 resp f : attempt_result (Some resp) = Ok f → rs_Status resp = 200.
Proof.
  unfold attempt_result. destruct (Z.eqb_spec (rs_Status resp) 200); [done|]. simpl.
  repeat (match goal with |- (if ?b then _ else _) = _ → _ => destruct b end; [done|]). done.
Qed.
