(* ===== verification/DeleteWork.v ===== *)
(** * supplier-service: guarded deletion

    [internal/orderclient/client.go] (the retry loop), and
    [internal/supplier/delete]: [workflow.go], [handler.go] and
    [reconciler.go].  The code is a program over its calls to the outside:
    the clock, randomness, the request context, one HTTP exchange with
    order-service, one call of the deletion store.  Between two calls of one
    worker any other worker may run. *)

From S2P Require Import Prelude Proc GoText Json GoTime Errand ErrandStore Fence Deletion FenceWire.

Local Open Scope string_scope.
Open Scope Z_scope.

(** ** Programs *)

Inductive eff : Type → Type :=
| ENow : eff Z                                        (* time.Now().UTC() *)
| ERandom : eff (list Z)                              (* rand.Read of 16 bytes *)
| EContext : eff bool                                 (* has the context ended? *)
| EHttp (rq : FenceRequest) : eff (option HttpResponse)
| EStore {A} (c : StoreCall A) : eff (res SupError A).

Abbreviation prog := (proc eff).

Definition store {A} (c : StoreCall A) : prog (res SupError A) := perform (EStore c).

(** ** client.go *)

(** [call]: the first attempt of the loop does not wait. *)
Fixpoint call_loop (attempts : nat) (first : bool) (lastErr : option ClientError) (rq : FenceRequest) :
    prog (res ClientError DFence) :=
  match attempts with
  | O => PRet (match lastErr with Some e => Err e | None => Ok (mkDFence "" "" "" false) end)
  | S n =>
      await ended := (if first then PRet false else perform EContext) in
      if (ended : bool) then PRet (Err ErrUnavailable)
      else
        await r := perform (EHttp rq) in
        match attempt_result r with
        | Ok f => if EqualFold (df_OperationID f) (rq_OperationID rq) then PRet (Ok f)
                  else PRet (Err ErrInvalidResponse)
        | Err (e, retryable) =>
            if negb retryable then PRet (Err e)
            else await stop := perform EContext in
                 if (stop : bool) then PRet (Err e) else call_loop n false (Some e) rq
        end
  end.

Definition client_call (maxAttempts : Z) (rq : FenceRequest) : prog (res ClientError DFence) :=
  if negb (ValidDeletionOperationID (rq_OperationID rq)) then PRet (Err ErrClientRejected)
  else call_loop (Z.to_nat maxAttempts) true None rq.

Definition client_Acquire (maxAttempts : Z) (op supplier : string) : prog (res ClientError DFence) :=
  await r := client_call maxAttempts (mkFenceRequest RAcquire op (Some (JObj [("supplierId", JStr supplier)]))) in
  match r with
  | Err e => PRet (Err e)
  | Ok f => if negb (EqualFold (df_SupplierID f) supplier) then PRet (Err ErrInvalidResponse) else PRet (Ok f)
  end.

Definition client_Inspect (maxAttempts : Z) (op : string) : prog (res ClientError DFence) :=
  client_call maxAttempts (mkFenceRequest RInspect op None).

Definition client_transition (maxAttempts : Z) (route : Route) (op want : string) : prog (res ClientError unit) :=
  await r := client_call maxAttempts (mkFenceRequest route op None) in
  match r with
  | Err e => PRet (Err e)
  | Ok f => if bool_decide (df_State f = want) then PRet (Ok tt) else PRet (Err ErrInvalidResponse)
  end.

Definition client_Commit (maxAttempts : Z) (op : string) : prog (res ClientError unit) :=
  client_transition maxAttempts RCommit op DFenceCommitted.

Definition client_Release (maxAttempts : Z) (op : string) : prog (res ClientError unit) :=
  client_transition maxAttempts RRelease op DFenceReleased.

(** ** fence.go: the boundary with order-service *)

Class OrderDeletionFence := {
  fence_Acquire : string → string → prog (res ClientError DFence);
  fence_Inspect : string → prog (res ClientError DFence);
  fence_Commit : string → prog (res ClientError unit);
  fence_Release : string → prog (res ClientError unit) }.

Definition Client (maxAttempts : Z) : OrderDeletionFence := {|
  fence_Acquire := client_Acquire maxAttempts; fence_Inspect := client_Inspect maxAttempts;
  fence_Commit := client_Commit maxAttempts; fence_Release := client_Release maxAttempts |}.

(** [UnavailableDeletionFence] of app/fence.go: order-service is not
    configured. *)
Definition UnavailableDeletionFence : OrderDeletionFence := {|
  fence_Acquire _ _ := PRet (Err ErrNotConfigured); fence_Inspect _ := PRet (Err ErrNotConfigured);
  fence_Commit _ := PRet (Err ErrNotConfigured); fence_Release _ := PRet (Err ErrNotConfigured) |}.

(** ** workflow.go *)

Inductive Outcome :=
| OutcomeCompleted | OutcomeRejectedActiveErrands | OutcomeCommitPending | OutcomeFenceUnavailable
| OutcomeReleaseUnavailable | OutcomeFenceReleased | OutcomeSupplierNotFound | OutcomeInternal.

Section workflow.
Context `{OrderDeletionFence} (retryBackoff : Z).

Definition scheduleRetry (r : DeletionRecord) (claim code : string) (now : Z) : prog unit :=
  let next := if dl_AttemptCount r <? dl_MaxAttempts r then Some (now + retryBackoff) else None in
  await_ store (CRetry (dl_OperationID r) claim code next now);
  PRet tt.

Definition stopRetrying (r : DeletionRecord) (claim : string) (now : Z) : prog unit :=
  await_ store (CRetry (dl_OperationID r) claim DeletionFailureAcquireAmbiguous None now);
  PRet tt.

Definition wf_release (r : DeletionRecord) (claim : string) (now : Z) : prog Outcome :=
  await released := fence_Release (dl_OperationID r) in
  match released with
  | Err _ => await_ scheduleRetry r claim DeletionFailureReleaseUnavailable now; PRet OutcomeReleaseUnavailable
  | Ok _ =>
      await marked := store (CMarkRejected (dl_OperationID r) claim now) in
      match marked with Err _ => PRet OutcomeInternal | Ok _ => PRet OutcomeRejectedActiveErrands end
  end.

Definition wf_commit (r : DeletionRecord) (claim : string) (now : Z) : prog Outcome :=
  await committed := fence_Commit (dl_OperationID r) in
  await confirmed := match committed with
    | Ok _ => PRet true
    | Err _ =>
        await f := fence_Inspect (dl_OperationID r) in
        PRet (match f with Ok f => bool_decide (df_State f = DFenceCommitted) | Err _ => false end)
    end in
  if negb confirmed then
    await_ scheduleRetry r claim DeletionFailureCommitUnavailable now; PRet OutcomeCommitPending
  else
    await done := store (CComplete (dl_OperationID r) claim now) in
    match done with Err _ => PRet OutcomeInternal | Ok _ => PRet OutcomeCompleted end.

(** The supplier write of [acquire] and what follows a failure of it. *)
Definition wf_delete (r : DeletionRecord) (claim : string) (now : Z) : prog Outcome :=
  await deleted := store (CDelete (dl_SupplierID r) (dl_OperationID r) claim now) in
  match deleted with
  | Ok _ => wf_commit r claim now
  | Err e =>
      await current := store (CGet (dl_OperationID r)) in
      await_ match current with
            | Ok cur =>
                if bool_decide (dl_State cur = DeletionRequested) && bool_decide (dl_ClaimID cur = claim)
                then await_ fence_Release (dl_OperationID r); PRet tt
                else PRet tt
            | Err _ => PRet tt
            end;
      PRet (if isSupplierNotFound e then OutcomeSupplierNotFound else OutcomeInternal)
  end.

Definition wf_acquire (r : DeletionRecord) (claim : string) (now : Z) : prog Outcome :=
  await acquired := fence_Acquire (dl_OperationID r) (dl_SupplierID r) in
  await found := match acquired with Ok f => PRet (Ok f) | Err _ => fence_Inspect (dl_OperationID r) end in
  match found with
  | Err _ => await_ scheduleRetry r claim DeletionFailureAcquireUnavailable now; PRet OutcomeFenceUnavailable
  | Ok f =>
      if negb (EqualFold (df_SupplierID f) (dl_SupplierID r)) then
        await_ scheduleRetry r claim DeletionFailureAcquireAmbiguous now; PRet OutcomeFenceUnavailable
      else if bool_decide (df_State f = DFenceOpen) then
        if df_HasActiveErrands f then
          await marked := store (CMarkReleasePending (dl_OperationID r) claim now) in
          match marked with Err _ => PRet OutcomeInternal | Ok _ => wf_release r claim now end
        else wf_delete r claim now
      else if bool_decide (df_State f = DFenceCommitted) then wf_delete r claim now
      else if bool_decide (df_State f = DFenceReleased) then
        await_ stopRetrying r claim now; PRet OutcomeFenceReleased
      else await_ scheduleRetry r claim DeletionFailureAcquireAmbiguous now; PRet OutcomeFenceUnavailable
  end.

Definition advance (r : DeletionRecord) (claim : string) (now : Z) : prog Outcome :=
  match dl_State r with
  | DeletionRequested => wf_acquire r claim now
  | DeletionReleasePending => wf_release r claim now
  | DeletionCommitPending => wf_commit r claim now
  | _ => PRet OutcomeInternal
  end.

End workflow.

(** ** handler.go *)

Definition defaultMaxAttempts : Z := 5.
Definition defaultLeaseDuration : Z := 60 * nsec.
Definition defaultRetryBackoff : Z := 30 * nsec.

(** [defaultClaimID]: a version 4 UUID of 16 random bytes. *)
Definition defaultClaimID (b : list Z) : string :=
  let b := alter (λ x, Z.lor (Z.land x 0x0f) 0x40) 6%nat b in
  let b := alter (λ x, Z.lor (Z.land x 0x3f) 0x80) 8%nat b in
  hex_bytes (take 4 b) +:+ "-" +:+ hex_bytes (take 2 (drop 4 b)) +:+ "-" +:+ hex_bytes (take 2 (drop 6 b))
  +:+ "-" +:+ hex_bytes (take 2 (drop 8 b)) +:+ "-" +:+ hex_bytes (take 6 (drop 10 b)).

Inductive Reply :=
| ReplyNoContent                                    (* 204 *)
| ReplyPending (operationID : string)               (* 202, state commit_pending *)
| ReplyError (status : Z) (code : string).

(** The administrator's request: the principal with its permission to manage
    suppliers, the path value and the Idempotency-Key header. *)
Record DeleteRequest := mkDeleteRequest {
  dq_Principal : option bool; dq_SupplierID : string; dq_IdempotencyKey : string }.

Definition outcome_reply (op : string) (o : Outcome) : Reply :=
  match o with
  | OutcomeCompleted => ReplyNoContent
  | OutcomeRejectedActiveErrands => ReplyError 409 "SUPPLIER_HAS_ACTIVE_ERRANDS"
  | OutcomeCommitPending => ReplyPending op
  | OutcomeFenceUnavailable | OutcomeReleaseUnavailable | OutcomeFenceReleased =>
      ReplyError 503 "DELETION_FENCE_UNAVAILABLE"
  | OutcomeSupplierNotFound => ReplyError 404 "SUPPLIER_NOT_FOUND"
  | OutcomeInternal => ReplyError 500 "INTERNAL"
  end.

Section handler.
Context `{OrderDeletionFence}.

(** Claim and advance an operation that is not terminal. *)
Definition delete_claimed (op : string) (r : DeletionRecord) (now : Z) : prog Reply :=
  await bytes := perform ERandom in
  let claim := defaultClaimID bytes in
  await claimed := store (CClaim op claim now (now + defaultLeaseDuration)) in
  match claimed with
  | Err _ => PRet (ReplyError 500 "INTERNAL")
  | Ok None =>
      PRet (match dl_State r with
            | DeletionCommitPending => ReplyPending op
            | _ => ReplyError 503 "DELETION_FENCE_UNAVAILABLE"
            end)
  | Ok (Some current) =>
      await o := advance defaultRetryBackoff current claim now in PRet (outcome_reply op o)
  end.

Definition delete_handler (q : DeleteRequest) : prog Reply :=
  match dq_Principal q with
  | None => PRet (ReplyError 401 "UNAUTHENTICATED")
  | Some may =>
      if negb may then PRet (ReplyError 403 "FORBIDDEN")
      else if negb (ValidSupplierID (dq_SupplierID q)) then PRet (ReplyError 400 "INVALID_ARGUMENT")
      else
        let op := trim_space (dq_IdempotencyKey q) in
        if bool_decide (op = "") then PRet (ReplyError 400 "INVALID_ARGUMENT")
        else if negb (ValidDeletionOperationID op) then PRet (ReplyError 400 "INVALID_ARGUMENT")
        else
          await now := perform ENow in
          await created := store (CCreateOrGet op (dq_SupplierID q) defaultMaxAttempts now) in
          match created with
          | Err SupOperationMismatch => PRet (ReplyError 400 "INVALID_ARGUMENT")
          | Err SupNotFound => PRet (ReplyError 404 "SUPPLIER_NOT_FOUND")
          | Err _ => PRet (ReplyError 500 "INTERNAL")
          | Ok r =>
              match dl_State r with
              | DeletionCompleted => PRet ReplyNoContent
              | DeletionRejectedActiveErrands => PRet (ReplyError 409 "SUPPLIER_HAS_ACTIVE_ERRANDS")
              | _ => delete_claimed op r now
              end
          end
  end.

(** ** reconciler.go *)

Definition reconcileBatchSize : Z := 100.

Fixpoint reconcile_all (records : list DeletionRecord) (claimed : Z) : prog Z :=
  match records with
  | [] => PRet claimed
  | r :: rs =>
      await ended := perform EContext in
      if (ended : bool) then PRet claimed
      else
        await now := perform ENow in
        await bytes := perform ERandom in
        let claim := defaultClaimID bytes in
        await got := store (CClaim (dl_OperationID r) claim now (now + defaultLeaseDuration)) in
        match got with
        | Err _ | Ok None => reconcile_all rs claimed
        | Ok (Some current) =>
            await_ advance defaultRetryBackoff current claim now;
            reconcile_all rs (claimed + 1)
        end
  end.

Definition ReconcileOnce : prog Z :=
  await now := perform ENow in
  await listed := store (CList now reconcileBatchSize) in
  match listed with
  | Err _ => PRet 0
  | Ok records => reconcile_all records 0
  end.

End handler.
