(* ===== verification/DeletionLogic.v ===== *)
(** * supplier-service: what a deletion worker knows

    A weakest precondition for the programs of [DeleteWork].  The ghost state
    of a worker is the claim it holds and what it may rely on however the
    others interleave; [allowed] says which call that knowledge permits, and
    [learn] what its answer adds.  The workflow is proved against the laws of
    the fence boundary, which the client of order-service satisfies. *)

From S2P Require Import Prelude Proc GoText Json GoTime Errand ErrandStore Fence Deletion FenceWire DeleteWork.

Local Open Scope string_scope.
Open Scope Z_scope.

(** ** Ghost state *)

Inductive fact :=
| KClaimed      (* the operation was claimed *)
| KFenced       (* while the claim holds and nothing was decided, the fence stands *)
| KReleasing    (* the deletion is being rejected *)
| KReleased     (* and its fence is released *)
| KDeleted      (* the supplier is soft-deleted *)
| KCommitted    (* and its fence is committed *)
| KSpent.       (* the claim is given up; its fence may be released *)
#[export] Instance fact_eq_dec : EqDecision fact.
Proof. solve_decision. Defined.

Record job := mkJob { j_op : string; j_sup : string; j_claim : string; j_lease : Z; j_fact : fact }.

Record ghost := mkGhost { g_time : Z; g_new : option string; g_job : option job }.

Definition with_fact (k : fact) (j : job) : job := mkJob (j_op j) (j_sup j) (j_claim j) (j_lease j) k.
Definition know (k : fact) (g : ghost) : ghost := mkGhost (g_time g) (g_new g) (with_fact k <$> g_job g).

(** The fact a claimed record carries. *)
Definition claimed_fact (s : DeletionState) : fact :=
  match s with
  | DeletionReleasePending => KReleasing
  | DeletionCommitPending => KDeleted
  | _ => KClaimed
  end.

Definition job_of (claim : string) (r : DeletionRecord) : job :=
  mkJob (dl_OperationID r) (dl_SupplierID r) claim (default 0 (dl_LeaseExpiresAt r)) (claimed_fact (dl_State r)).

(** ** Calls *)

Definition works_on (g : ghost) (op claim : string) (ks : fact → Prop) : Prop :=
  ∃ j, g_job g = Some j ∧ j_op j = op ∧ j_claim j = claim ∧ ks (j_fact j).

Definition allowed_store {A} (g : ghost) (c : StoreCall A) : Prop :=
  match c with
  | CCreateOrGet _ _ _ _ | CGet _ | CList _ _ => True
  | CClaim op c now _ => g_new g = Some c ∧ now ≤ g_time g
  | CMarkReleasePending op c _ => works_on g op c (λ k, k ≠ KSpent)
  | CMarkRejected op c _ => works_on g op c (λ k, k = KReleased)
  | CDelete s op c _ => works_on g op c (λ k, k = KFenced) ∧ (∀ j, g_job g = Some j → j_sup j = s)
  | CComplete op c _ => works_on g op c (λ k, k = KCommitted)
  | CRetry op c _ _ _ => works_on g op c (λ k, k ≠ KSpent)
  end.

Definition allowed_http (g : ghost) (rq : FenceRequest) : Prop :=
  match rq_Route rq with
  | RAcquire | RInspect => True
  | RCommit => ∃ j, g_job g = Some j ∧ j_op j = rq_OperationID rq ∧ (j_fact j = KDeleted ∨ j_fact j = KCommitted)
  | RRelease => ∃ j, g_job g = Some j ∧ j_op j = rq_OperationID rq ∧
      (j_fact j = KReleasing ∨ j_fact j = KReleased ∨ j_fact j = KSpent)
  end.

Definition allowed {X} (g : ghost) (e : eff X) : Prop :=
  match e with
  | EHttp rq => allowed_http g rq
  | EStore c => allowed_store g c
  | _ => True
  end.

(** The new fact of a fence that was read. *)
Definition fence_fact (f : DFence) (j : job) : fact :=
  if bool_decide (df_State f = DFenceReleased) && bool_decide (j_fact j = KReleasing) then KReleased
  else if bool_decide (df_State f = DFenceCommitted) && bool_decide (j_fact j = KDeleted) then KCommitted
  else if EqualFold (df_SupplierID f) (j_sup j) && bool_decide (j_fact j = KClaimed)
          && ((bool_decide (df_State f = DFenceOpen) && negb (df_HasActiveErrands f))
              || bool_decide (df_State f = DFenceCommitted)) then KFenced
  else j_fact j.

Definition learn_fence (rq : FenceRequest) (r : option HttpResponse) (j : job) : job :=
  match attempt_result r with
  | Ok f => if bool_decide (rq_OperationID rq = j_op j) && EqualFold (df_OperationID f) (rq_OperationID rq)
            then with_fact (fence_fact f j) j else j
  | Err _ => j
  end.

Definition map_job (f : job → job) (g : ghost) : ghost := mkGhost (g_time g) (g_new g) (f <$> g_job g).

(** The claim was given up: the record still waits under it. *)
Definition gives_up (op : string) (cur : DeletionRecord) (j : job) : bool :=
  bool_decide (op = j_op j) && bool_decide (dl_State cur = DeletionRequested)
  && bool_decide (dl_ClaimID cur = j_claim j).

Definition learn_store {A} (g : ghost) (c : StoreCall A) : res SupError A → ghost :=
  match c with
  | CGet op => λ r, match r with
      | Ok cur => map_job (λ j, if gives_up op cur j then with_fact KSpent j else j) g
      | Err _ => g end
  | CClaim op c _ _ => λ r, match r with
      | Ok (Some rec) => mkGhost (g_time g) None (Some (job_of c rec))
      | _ => mkGhost (g_time g) None (g_job g) end
  | CMarkReleasePending _ _ _ => λ r, match r with Ok _ => know KReleasing g | Err _ => g end
  | CDelete _ _ _ _ => λ r, match r with Ok _ => know KDeleted g | Err _ => g end
  | _ => λ _, g
  end.

Definition learn {X} (g : ghost) (e : eff X) : X → ghost :=
  match e with
  | ENow => λ t, mkGhost t (g_new g) (g_job g)
  | ERandom => λ b, mkGhost (g_time g) (Some (defaultClaimID b)) (g_job g)
  | EContext => λ _, g
  | EHttp rq => λ r, map_job (learn_fence rq r) g
  | EStore c => learn_store g c
  end.

Fixpoint wp {A} (p : prog A) (g : ghost) (Q : A → ghost → Prop) : Prop :=
  match p with
  | PRet a => Q a g
  | PVis e k => allowed g e ∧ ∀ r, wp (k r) (learn g e r) Q
  end.

Lemma wp_mono {A} (p : prog A) g (Q R : A → ghost → Prop) :
  (∀ a g', Q a g' → R a g') → wp p g Q → wp p g R.
Proof.
  intros HQR. revert g. induction p as [a|X e k IH]; intros g; simpl; [auto|].
  intros [Ha Hk]. split; [done|]. intros r. by apply IH.
Qed.

Lemma wp_bind {A B} (p : prog A) (f : A → prog B) g Q :
  wp p g (λ a g', wp (f a) g' Q) → wp (pbind p f) g Q.
Proof.
  revert g. induction p as [a|X e k IH]; intros g; simpl; [done|].
  intros [Ha Hk]. split; [done|]. intros r. by apply IH.
Qed.

(** Run [p] with a lemma about it, then go on. *)
Lemma wp_then {A B} (p : prog A) (f : A → prog B) g (R : A → ghost → Prop) Q :
  wp p g R → (∀ a g', R a g' → wp (f a) g' Q) → wp (pbind p f) g Q.
Proof. intros Hp Hf. apply wp_bind. by eapply wp_mono. Qed.

(** ** The laws of the boundary *)

Class FenceLaws `{OrderDeletionFence} : Prop := {
  law_acquire g j : g_job g = Some j → j_fact j = KClaimed →
    wp (fence_Acquire (j_op j) (j_sup j)) g
      (λ r g', g' = match r with Ok f => know (fence_fact f j) g | Err _ => g end);
  law_inspect g j : g_job g = Some j →
    wp (fence_Inspect (j_op j)) g
      (λ r g', g' = match r with Ok f => know (fence_fact f j) g | Err _ => g end);
  law_commit g j : g_job g = Some j → j_fact j = KDeleted →
    wp (fence_Commit (j_op j)) g (λ r g', g' = match r with Ok _ => know KCommitted g | Err _ => g end);
  law_release g j : g_job g = Some j → j_fact j = KReleasing →
    wp (fence_Release (j_op j)) g (λ r g', g' = match r with Ok _ => know KReleased g | Err _ => g end);
  law_give_up g j : g_job g = Some j → j_fact j = KSpent → wp (fence_Release (j_op j)) g (λ _ g', g' = g) }.

Lemma know_same g j : g_job g = Some j → know (j_fact j) g = g.
Proof. destruct g as [t n [j'|]]; [|done]. intros [= ->]. by destruct j. Qed.

(** ** The client of order-service *)

Section client.
Context (maxAttempts : Z) (Hmax : 1 ≤ maxAttempts).

Lemma learn_fence_same g j rq r :
  g_job g = Some j → (∀ f, attempt_result r = Ok f → EqualFold (df_OperationID f) (rq_OperationID rq) = false) →
  map_job (learn_fence rq r) g = g.
Proof.
  destruct g as [t n [j'|]]; [|done]. intros [= ->] Hno. unfold map_job, learn_fence. simpl.
  destruct (attempt_result r) as [f|]; [|done]. by rewrite (Hno f), andb_false_r.
Qed.

Lemma wp_call_loop n first last g j rq :
  g_job g = Some j → rq_OperationID rq = j_op j → allowed_http g rq → (n ≠ 0%nat ∨ last ≠ None) →
  wp (call_loop n first last rq) g
    (λ r g', g' = match r with Ok f => know (fence_fact f j) g | Err _ => g end).
Proof.
  intros Hj Hop Ha. revert first last. induction n as [|n IH]; intros first last Hn; simpl.
  { destruct last; [done|]. by destruct Hn. }
  apply (wp_then _ _ _ (λ _ g', g' = g)); [by destruct first|]. intros ended ? ->.
  destruct ended; [done|]. simpl. split; [done|]. intros r.
  destruct (attempt_result r) as [f|[e retry]] eqn:Hr.
  - destruct (EqualFold _ _) eqn:Hf.
    + simpl. unfold know, map_job. rewrite Hj. simpl. unfold learn_fence. rewrite Hr, Hf, bool_decide_true by done. done.
    + apply (learn_fence_same g j); [done|]. intros f'. rewrite Hr. by intros [= <-].
  - rewrite (learn_fence_same g j); [|done|by rewrite Hr]. destruct retry; [|done].
    simpl. split; [done|]. intros [|]; [done|]. apply IH. by right.
Qed.

Lemma wp_client_call g j rq :
  g_job g = Some j → rq_OperationID rq = j_op j → allowed_http g rq →
  wp (client_call maxAttempts rq) g
    (λ r g', g' = match r with Ok f => know (fence_fact f j) g | Err _ => g end).
Proof.
  intros Hj Hop Ha. unfold client_call. destruct (ValidDeletionOperationID _); [|done].
  apply wp_call_loop; auto. left. lia.
Qed.

(** A transition confirmed by the state it asked for, and the others. *)
Lemma wp_client_transition route want k g j :
  g_job g = Some j → allowed_http g (mkFenceRequest route (j_op j) None) →
  (∀ f, fence_fact f j = if bool_decide (df_State f = want) then k else j_fact j) →
  wp (client_transition maxAttempts route (j_op j) want) g
    (λ r g', g' = match r with Ok _ => know k g | Err _ => g end).
Proof.
  intros Hj Ha Hk. eapply wp_then; [by eapply wp_client_call|]. intros [f|e] g' ->; [|done].
  rewrite Hk. case_bool_decide; [done|]. simpl. by apply know_same.
Qed.

#[export] Instance client_laws : @FenceLaws (Client maxAttempts).
Proof.
  split.
  - intros g j Hj Hk. eapply wp_then; [by eapply wp_client_call|]. intros [f|e] g' ->; [|done].
    destruct (EqualFold _ _) eqn:Hf; [done|]. simpl. unfold fence_fact. rewrite Hf, Hk.
    rewrite !andb_false_r. simpl. rewrite <- Hk. by apply know_same.
  - intros g j Hj. by eapply wp_client_call.
  - intros g j Hj Hk. eapply wp_client_transition; [done|exists j; auto|]. intros f. unfold fence_fact.
    rewrite Hk. simpl. by rewrite !andb_false_r, andb_true_r.
  - intros g j Hj Hk. eapply wp_client_transition; [done|exists j; auto|]. intros f. unfold fence_fact.
    rewrite Hk. simpl. by rewrite !andb_false_r, andb_true_r.
  - intros g j Hj Hk. apply (wp_mono _ _ (λ r g', g' = match r with Ok _ => know KSpent g | Err _ => g end)).
    { intros [|] g' ->; [|done]. rewrite <- Hk. by apply know_same. }
    eapply wp_client_transition; [done|exists j; auto|]. intros f. unfold fence_fact. rewrite Hk. simpl.
    rewrite !andb_false_r. simpl. by case_bool_decide.
Qed.

End client.

#[export] Instance unavailable_laws : @FenceLaws UnavailableDeletionFence.
Proof. by split. Qed.

(** ** The workflow *)

Section workflow.
Context `{HF : OrderDeletionFence, Hlaws : !FenceLaws} (backoff : Z).

(** The worker advances [r] under its claim, knowing [k]. *)
Definition advances (g : ghost) (r : DeletionRecord) (claim : string) (k : fact) : Prop :=
  ∃ lease, g_job g = Some (mkJob (dl_OperationID r) (dl_SupplierID r) claim lease k).

Lemma advances_know g r claim k k' : advances g r claim k → advances (know k' g) r claim k'.
Proof. intros [l Hj]. exists l. unfold know. simpl. by rewrite Hj. Qed.

Lemma advances_works g r claim k (ks : fact → Prop) :
  advances g r claim k → ks k → works_on g (dl_OperationID r) claim ks.
Proof. intros [l Hj] Hk. by eexists. Qed.

(** What a program needs to know of nothing afterwards. *)
Abbreviation safe p g := (wp p g (λ _ _, True)).

Lemma wp_retry g r claim k code now {B} (b : B) :
  advances g r claim k → k ≠ KSpent →
  safe (pbind (scheduleRetry backoff r claim code now) (λ _, PRet b)) g.
Proof. intros Ha Hk. simpl. split; [by eapply advances_works|done]. Qed.

Lemma wp_wf_release g r claim now :
  advances g r claim KReleasing → safe (wf_release backoff r claim now) g.
Proof.
  intros Ha. pose proof Ha as [l Hj]. eapply wp_then; [exact (law_release g _ Hj eq_refl)|].
  intros [|e] g' ->; [|by eapply wp_retry].
  simpl. split; [by eapply advances_works; [apply (advances_know _ _ _ _ KReleased Ha)|]|]. by intros [|].
Qed.

Lemma wp_complete g r claim now :
  advances g r claim KCommitted →
  safe (await done := store (CComplete (dl_OperationID r) claim now) in
        match done with Err _ => PRet OutcomeInternal | Ok _ => PRet OutcomeCompleted end) g.
Proof. intros Ha. simpl. split; [by eapply advances_works|]. by intros [|]. Qed.

Lemma wp_wf_commit g r claim now :
  advances g r claim KDeleted → safe (wf_commit backoff r claim now) g.
Proof.
  intros Ha. pose proof Ha as [l Hj]. eapply wp_then; [exact (law_commit g _ Hj eq_refl)|].
  intros [|e] g' ->.
  - apply wp_complete. by eapply advances_know.
  - apply wp_bind. eapply wp_then; [exact (law_inspect g _ Hj)|]. intros [f|e'] g' ->; simpl.
    + case_bool_decide as Hst; simpl.
      * split; [|by intros [|]]. eapply advances_works; [by eapply advances_know|].
        unfold fence_fact. by rewrite Hst.
      * split; [|done]. eapply advances_works; [by eapply advances_know|].
        unfold fence_fact. simpl. rewrite !andb_false_r. simpl. by rewrite bool_decide_false by done.
    + split; [by eapply advances_works|done].
Qed.

Lemma wp_wf_delete g r claim now :
  advances g r claim KFenced → safe (wf_delete backoff r claim now) g.
Proof.
  intros Ha. pose proof Ha as [l Hj]. unfold wf_delete. simpl. split.
  { split; [by eapply advances_works|]. intros j. rewrite Hj. by intros [= <-]. }
  intros [[]|e]; [apply wp_wf_commit; by eapply advances_know|]. simpl. split; [done|].
  intros [cur|e2]; [|done]. simpl. apply (wp_then _ _ _ (λ _ _, True)); [|done].
  destruct (bool_decide _ && bool_decide _)%bool eqn:Hc; [|done].
  eapply wp_then; [|done]. unfold map_job. rewrite Hj. simpl. unfold gives_up. simpl.
  rewrite bool_decide_true by done. simpl. rewrite Hc.
  exact (law_give_up (mkGhost _ _ (Some (with_fact KSpent (mkJob (dl_OperationID r) _ _ _ _)))) _ eq_refl eq_refl).
Qed.

Lemma wp_wf_acquire g r claim now :
  advances g r claim KClaimed → safe (wf_acquire backoff r claim now) g.
Proof.
  intros Ha. pose proof Ha as [l Hj]. unfold wf_acquire.
  eapply wp_then; [exact (law_acquire g _ Hj eq_refl)|]. intros acquired g1 Hg1.
  apply (wp_then _ _ _ (λ found g', g' = match found with
    | Ok f => know (fence_fact f (mkJob (dl_OperationID r) (dl_SupplierID r) claim l KClaimed)) g
    | Err _ => g end)).
  { destruct acquired as [f|e]; [done|]. subst g1. exact (law_inspect g _ Hj). }
  intros [f|e] g' ->; [|by eapply wp_retry].
  set (k := fence_fact f _). assert (advances (know k g) r claim k) as Hk by by eapply advances_know.
  assert (k = if EqualFold (df_SupplierID f) (dl_SupplierID r)
      && ((bool_decide (df_State f = DFenceOpen) && negb (df_HasActiveErrands f))
          || bool_decide (df_State f = DFenceCommitted)) then KFenced else KClaimed) as Hdef.
  { unfold k, fence_fact. simpl. by rewrite !andb_false_r, andb_true_r. }
  clearbody k. destruct (EqualFold _ _); simpl in Hdef |- *; last (subst k; split; [by apply (advances_works _ _ _ KClaimed)|done]).
  case_bool_decide as Ho; [|case_bool_decide as Hc; [|case_bool_decide as Hr]]; simpl in Hdef.
  - destruct (df_HasActiveErrands f); subst k; [|by apply wp_wf_delete].
    rewrite Ho. simpl. rewrite Ho in Hk. split; [by apply (advances_works _ _ _ KClaimed)|].
    intros [|]; [|done]. apply wp_wf_release. by eapply advances_know.
  - subst k. by apply wp_wf_delete.
  - subst k. split; [by apply (advances_works _ _ _ KClaimed)|done].
  - subst k. split; [by apply (advances_works _ _ _ KClaimed)|done].
Qed.

Lemma wp_advance g r claim now :
  g_job g = Some (job_of claim r) → safe (advance backoff r claim now) g.
Proof.
  intros Hj. unfold job_of in Hj. unfold advance. destruct (dl_State r); simpl in Hj; [| | |done|done].
  - apply wp_wf_acquire. by eexists.
  - apply wp_wf_release. by eexists.
  - apply wp_wf_commit. by eexists.
Qed.

End workflow.

Section handlers.
Context `{HF : OrderDeletionFence, Hlaws : !FenceLaws}.

Abbreviation safe p g := (wp p g (λ _ _, True)).

Lemma wp_delete_claimed g op r now : now ≤ g_time g → safe (delete_claimed op r now) g.
Proof.
  intros Ht. unfold delete_claimed. simpl. split; [done|]. intros bytes. split; [done|].
  intros [[cur|]|e]; [|done|done]. eapply wp_then; [by eapply wp_advance|done].
Qed.

(** Neither a request nor the reconciler makes a call it may not make. *)
Lemma wp_delete_handler g q : safe (delete_handler q) g.
Proof.
  unfold delete_handler. destruct (dq_Principal q) as [[]|]; [|done|done]. simpl.
  destruct (ValidSupplierID _); [|done]. simpl. case_bool_decide; [done|].
  destruct (ValidDeletionOperationID _); [|done]. simpl. split; [done|]. intros t. split; [done|].
  intros [r|e]; [|by destruct e]. by destruct (dl_State r); try done; apply wp_delete_claimed.
Qed.

Lemma wp_reconcile_all g rs n : safe (reconcile_all rs n) g.
Proof.
  revert g n. induction rs as [|r rs IH]; intros g n; [done|]. simpl. split; [done|].
  intros [|]; [done|]. simpl. split; [done|]. intros now. split; [done|]. intros bytes. split; [done|].
  intros [[cur|]|e]; [|apply IH|apply IH]. eapply wp_then; [by eapply wp_advance|]. intros. apply IH.
Qed.

Lemma wp_ReconcileOnce g : safe ReconcileOnce g.
Proof.
  unfold ReconcileOnce. simpl. split; [done|]. intros now. split; [done|].
  intros [rs|e]; [|done]. apply wp_reconcile_all.
Qed.

End handlers.
