(* ===== verification/DeletionSystem.v ===== *)
(** * Guarded deletion: supplier-service and order-service together

    The world: order-service's database with its other writers, the deletion
    store, a clock, any number of workers (requests and reconciler passes, of
    any number of replicas) that run one call at a time, and the requests that
    are still on their way although their sender has given up on them.  A
    store call may fail before or after its effect, an HTTP exchange may be
    lost or answered by something else than order-service, a worker may
    stop anywhere. *)

From S2P Require Import Prelude Proc GoText Json GoTime Errand ErrandState ErrandJson ErrandInv ErrandStore Fence StoreInv StoreSafe StoreSystem Deletion FenceWire DeleteWork DeletionLogic.

Local Open Scope string_scope.
Open Scope Z_scope.

(** What PostgreSQL documents of [uuid]: a 36-character UUID of either case is
    read, and written in lower case. *)
Class UuidText `{Postgres} : Prop := {
  uuid_cast_text s u : uuid_cast s = Some u → uuid_pattern u = true ∧ to_lower u = u;
  uuid_cast_pattern s : uuid_pattern s = true → uuid_cast s = Some (to_lower s);
  toUUID_pattern s : uuid_pattern s = true → toUUID s = Some (to_lower s) }.

(** ** The world *)

Record Worker := mkWorker { wk_prog : prog unit; wk_lease : option Z }.

Record World := mkWorld {
  w_ord : ODB;
  w_seen : list Errand;
  w_sup : SDB;
  w_clock : Z;
  w_used : gset string;                            (* claim IDs that were generated *)
  w_flying : list (FenceRequest * option Z);       (* requests given up, with the sender's lease *)
  w_workers : gmap nat Worker }.

Definition set_worker (i : nat) (w : Worker) (σ : World) : World :=
  mkWorld (w_ord σ) (w_seen σ) (w_sup σ) (w_clock σ) (w_used σ) (w_flying σ) (<[i := w]> (w_workers σ)).
Definition set_ord (db : ODB) (σ : World) : World :=
  mkWorld db (current db ++ w_seen σ) (w_sup σ) (w_clock σ) (w_used σ) (w_flying σ) (w_workers σ).
Definition set_sup (db : SDB) (σ : World) : World :=
  mkWorld (w_ord σ) (w_seen σ) db (w_clock σ) (w_used σ) (w_flying σ) (w_workers σ).

(** The lease a successful claim grants. *)
Definition granted {A} (c : StoreCall A) : res SupError A → option Z → option Z :=
  match c with
  | CClaim _ _ _ _ => λ r old, match r with Ok (Some rec) => dl_LeaseExpiresAt rec | _ => old end
  | _ => λ _ old, old
  end.

(** The other writers of the supplier tables neither delete a supplier nor
    touch an operation. *)
Definition catalogue (db db' : SDB) : Prop :=
  db_deletions db' = db_deletions db ∧
  (∀ s r, db_suppliers db !! s = Some r → ∃ r', db_suppliers db' !! s = Some r' ∧ su_DeletedAt r' = su_DeletedAt r) ∧
  (∀ s r', db_suppliers db !! s = None → db_suppliers db' !! s = Some r' → su_DeletedAt r' = None).

Definition is_byte (b : Z) : Prop := 0 ≤ b < 256.

Section world.
Context `{Hpg : Postgres}.
(** The subject of supplier-service's token, and the attempts of its client. *)
Context (subject : string) (maxAttempts : Z).
(** When a request may still reach order-service. *)
Context (admits : World → FenceRequest → option Z → Prop).

(** What a replica of supplier-service runs. *)
Inductive starts : prog unit → Prop :=
| start_request q : starts (pbind (@delete_handler (Client maxAttempts) q) (λ _, PRet tt))
| start_reconciler : starts (pbind (@ReconcileOnce (Client maxAttempts)) (λ _, PRet tt)).

Inductive wstep (σ : World) : World → Prop :=
| ws_order db' :
    store_step (w_seen σ) (w_ord σ) db' → db_fences db' = db_fences (w_ord σ) → wstep σ (set_ord db' σ)
| ws_catalogue db' : catalogue (w_sup σ) db' → wstep σ (set_sup db' σ)
| ws_tick t : w_clock σ ≤ t →
    wstep σ (mkWorld (w_ord σ) (w_seen σ) (w_sup σ) t (w_used σ) (w_flying σ) (w_workers σ))
| ws_start i p : w_workers σ !! i = None → starts p → wstep σ (set_worker i (mkWorker p None) σ)
| ws_stop i :
    wstep σ (mkWorld (w_ord σ) (w_seen σ) (w_sup σ) (w_clock σ) (w_used σ) (w_flying σ) (delete i (w_workers σ)))
| ws_now i k l : w_workers σ !! i = Some (mkWorker (PVis ENow k) l) →
    wstep σ (set_worker i (mkWorker (k (w_clock σ)) l) σ)
| ws_random i k l bs : w_workers σ !! i = Some (mkWorker (PVis ERandom k) l) →
    length bs = 16%nat → Forall is_byte bs → defaultClaimID bs ∉ w_used σ →
    wstep σ (mkWorld (w_ord σ) (w_seen σ) (w_sup σ) (w_clock σ) ({[defaultClaimID bs]} ∪ w_used σ) (w_flying σ)
               (<[i := mkWorker (k bs) l]> (w_workers σ)))
| ws_context i k l b : w_workers σ !! i = Some (mkWorker (PVis EContext k) l) →
    wstep σ (set_worker i (mkWorker (k b) l) σ)
| ws_http i rq k l resp db' : w_workers σ !! i = Some (mkWorker (PVis (EHttp rq) k) l) →
    admits σ rq l → serve_fence (Some subject) rq (w_ord σ) = (resp, db') →
    wstep σ (set_worker i (mkWorker (k (Some resp)) l) (set_ord db' σ))
| ws_http_lost i rq k l r : w_workers σ !! i = Some (mkWorker (PVis (EHttp rq) k) l) →
    (∀ resp, r = Some resp → rs_Status resp ≠ 200) →
    wstep σ (mkWorld (w_ord σ) (w_seen σ) (w_sup σ) (w_clock σ) (w_used σ) ((rq, l) :: w_flying σ)
               (<[i := mkWorker (k r) l]> (w_workers σ)))
| ws_flight rq l resp db' : (rq, l) ∈ w_flying σ → admits σ rq l →
    serve_fence (Some subject) rq (w_ord σ) = (resp, db') → wstep σ (set_ord db' σ)
| ws_store A i (c : StoreCall A) k l r db' : w_workers σ !! i = Some (mkWorker (PVis (EStore c) k) l) →
    run_call c (w_sup σ) = (r, db') →
    wstep σ (set_worker i (mkWorker (k r) (granted c r l)) (set_sup db' σ))
| ws_store_lost A i (c : StoreCall A) k l what db' : w_workers σ !! i = Some (mkWorker (PVis (EStore c) k) l) →
    (db' = w_sup σ ∨ db' = (run_call c (w_sup σ)).2) →
    wstep σ (set_worker i (mkWorker (k (Err (SupOther what))) l) (set_sup db' σ)).

(** Both services start with empty tables. *)
Definition world0 : World := mkWorld empty_odb [] (mkSDB ∅ ∅) 0 ∅ [] ∅.

Inductive wreachable : World → Prop :=
| wr_init : wreachable world0
| wr_step σ σ' : wreachable σ → wstep σ σ' → wreachable σ'.

End world.

(** A release of an operation that is not being rejected arrives while the
    lease under which it was sent still runs. *)
Definition in_time (σ : World) (rq : FenceRequest) (lease : option Z) : Prop :=
  rq_Route rq = RRelease → ∀ row, db_deletions (w_sup σ) !! rq_OperationID rq = Some row →
    rejecting (dr_State row) = false → ∃ l, lease = Some l ∧ w_clock σ < l.

(** ** Claim IDs *)

Lemma hex_digit_hex n : 0 ≤ n < 16 → is_hex (hex_digit n) = true ∧ lower_ascii (hex_digit n) = hex_digit n.
Proof.
  intros Hn.
  assert (n = 0 ∨ n = 1 ∨ n = 2 ∨ n = 3 ∨ n = 4 ∨ n = 5 ∨ n = 6 ∨ n = 7 ∨ n = 8 ∨ n = 9 ∨ n = 10 ∨ n = 11
    ∨ n = 12 ∨ n = 13 ∨ n = 14 ∨ n = 15) as Hc by lia.
  destruct_or! Hc; subst n; split; reflexivity.
Qed.

Lemma nibbles b : is_byte b → 0 ≤ Z.land (Z.shiftr b 4) 15 < 16 ∧ 0 ≤ Z.land b 15 < 16.
Proof.
  intros _. change 15 with (Z.ones 4). rewrite !Z.land_ones by lia.
  split; apply Z.mod_pos_bound; lia.
Qed.

Lemma to_lower_app s t : to_lower (s +:+ t) = to_lower s +:+ to_lower t.
Proof. induction s as [|a s IH]; [done|]. cbn. exact (f_equal (String (lower_ascii a)) IH). Qed.

Lemma match_classes_app cs ds s t :
  match_classes cs s = true → match_classes ds t = true → match_classes (cs ++ ds) (s +:+ t) = true.
Proof.
  revert s. induction cs as [|c cs IH]; intros [|a s]; simpl; try done.
  intros [Ha Hs]%andb_true_iff Ht. cbn. by rewrite Ha, IH.
Qed.

Lemma hex_bytes_text bs :
  Forall is_byte bs → match_classes (replicate (2 * length bs) is_hex) (hex_bytes bs) = true ∧
  to_lower (hex_bytes bs) = hex_bytes bs.
Proof.
  induction 1 as [|b bs Hb _ [IH1 IH2]]; [done|]. destruct (nibbles b Hb) as [Hh Hl].
  apply hex_digit_hex in Hh as [Hh1 Hh2], Hl as [Hl1 Hl2].
  change (hex_bytes (b :: bs)) with (hex_byte b +:+ hex_bytes bs). split.
  - replace (2 * length (b :: bs))%nat with (2 + 2 * length bs)%nat by (simpl; lia).
    rewrite replicate_add. apply match_classes_app; [|done]. unfold hex_byte.
    cbn [match_classes replicate]. by rewrite Hh1, Hl1.
  - rewrite to_lower_app, IH2. f_equal. unfold hex_byte. cbn [to_lower]. by rewrite Hh2, Hl2.
Qed.

(** The version and variant bits keep a byte a byte. *)
Lemma uuid_bits x m v : is_byte x → 0 ≤ m < 256 → 0 ≤ v < 256 → is_byte (Z.lor (Z.land x m) v).
Proof.
  unfold is_byte. intros Hx Hm Hv.
  assert (∀ y, 0 ≤ y → (y < 256 ↔ ∀ n, 8 ≤ n → Z.testbit y n = false)) as Hbits.
  { intros y Hy. change 256 with (2 ^ 8). split.
    - intros Hlt n Hn. apply Z.bits_above_log2; [done|]. destruct (decide (y = 0)) as [->|]; [simpl; lia|].
      apply Z.log2_lt_pow2 in Hlt; lia.
    - intros Hn. destruct (decide (y = 0)) as [->|]; [lia|]. apply Z.log2_lt_pow2; [lia|].
      apply Z.nle_gt. intros Hle. specialize (Hn _ Hle). rewrite Z.bit_log2 in Hn by lia. done. }
  assert (0 ≤ Z.land x m) by (apply Z.land_nonneg; lia).
  assert (0 ≤ Z.lor (Z.land x m) v) by (apply Z.lor_nonneg; lia). split; [done|].
  apply Hbits; [done|]. intros n Hn. rewrite Z.lor_spec, Z.land_spec.
  rewrite (proj1 (Hbits x ltac:(lia)) ltac:(lia) n Hn), (proj1 (Hbits v ltac:(lia)) ltac:(lia) n Hn). done.
Qed.

Lemma Forall_alter_byte (f : Z → Z) i bs :
  (∀ x, is_byte x → is_byte (f x)) → Forall is_byte bs → Forall is_byte (alter f i bs).
Proof. intros Hf Hbs. apply Forall_alter; [done|]. intros x _. apply Hf. Qed.

(** A generated claim ID is a UUID in its canonical text. *)
Lemma claim_id_text bs :
  length bs = 16%nat → Forall is_byte bs →
  uuid_pattern (defaultClaimID bs) = true ∧ to_lower (defaultClaimID bs) = defaultClaimID bs.
Proof.
  intros Hlen Hbs. unfold defaultClaimID.
  set (b := alter _ 8%nat (alter _ 6%nat bs)).
  assert (length b = 16%nat) as Hb by (unfold b; by rewrite !length_alter).
  assert (Forall is_byte b) as Hall.
  { unfold b. apply Forall_alter_byte; [intros; apply uuid_bits; [done|lia|lia]|].
    apply Forall_alter_byte; [intros; apply uuid_bits; [done|lia|lia]|done]. }
  clearbody b.
  assert (∀ n m, (m + n ≤ 16)%nat →
    match_classes (replicate (2 * n) is_hex) (hex_bytes (take n (drop m b))) = true ∧
    to_lower (hex_bytes (take n (drop m b))) = hex_bytes (take n (drop m b))) as Hpart.
  { intros n m Hnm. replace n with (length (take n (drop m b))) at 1 by (rewrite length_take, length_drop; lia).
    by apply hex_bytes_text, Forall_take, Forall_drop. }
  change (take 4 b) with (take 4 (drop 0 b)).
  destruct (Hpart 4%nat 0%nat) as [H1 L1]; [lia|]. destruct (Hpart 2%nat 4%nat) as [H2 L2]; [lia|].
  destruct (Hpart 2%nat 6%nat) as [H3 L3]; [lia|]. destruct (Hpart 2%nat 8%nat) as [H4 L4]; [lia|].
  destruct (Hpart 6%nat 10%nat) as [H5 L5]; [lia|]. split.
  - unfold uuid_pattern, uuid_classes.
    repeat (apply match_classes_app; [first [exact H1|exact H2|exact H3|exact H4|reflexivity]|]). exact H5.
  - by rewrite !to_lower_app, L1, L2, L3, L4, L5.
Qed.

Lemma claim_id_cast `{UuidText} bs :
  length bs = 16%nat → Forall is_byte bs → uuid_cast (defaultClaimID bs) = Some (defaultClaimID bs).
Proof.
  intros Hl Hb. destruct (claim_id_text bs Hl Hb) as [Hp Heq]. by rewrite (uuid_cast_pattern _ Hp), Heq.
Qed.
