(* ===== verification/DeletionEffect.v ===== *)
(** * Guarded deletion: what the calls do

    The effect of each store call on the deletion tables, the invariant of
    those tables ([sdb_ok]) and the effect of each fence request on
    order-service, with what its answer says about the fence. *)

From S2P Require Import Prelude Proc GoText Json GoTime Errand ErrandState ErrandJson ErrandInv ErrandStore Fence StoreInv StoreSafe StoreSystem Deletion FenceWire DeleteWork DeletionLogic DeletionSystem.

Local Open Scope string_scope.
Open Scope Z_scope.

Section effect.
Context `{Hpg : Postgres, Huu : !UuidText}.

Definition canonical (u : string) : Prop := uuid_cast u = Some u.

Lemma cast_canonical s u : uuid_cast s = Some u → canonical u.
Proof.
  intros Hs. destruct (uuid_cast_text _ _ Hs) as [Hp Hl]. unfold canonical.
  by rewrite (uuid_cast_pattern _ Hp), Hl.
Qed.

Lemma canonical_text u : canonical u → uuid_pattern u = true ∧ to_lower u = u ∧ toUUID u = Some u.
Proof.
  intros Hu. destruct (uuid_cast_text _ _ Hu) as [Hp Hl]. split_and!; [done|done|].
  by rewrite (toUUID_pattern _ Hp), Hl.
Qed.

(** ** The state machine *)

(** [requested -> release_pending -> rejected_active_errands] and
    [requested -> commit_pending -> completed]. *)
Definition moves_to (s s' : DeletionState) : Prop :=
  s' = s ∨
  match s, s' with
  | DeletionRequested, (DeletionReleasePending | DeletionCommitPending)
  | DeletionReleasePending, DeletionRejectedActiveErrands
  | DeletionCommitPending, DeletionCompleted => True
  | _, _ => False
  end.

Lemma moves_deleted s s' : moves_to s s' → deleted_state s = true → deleted_state s' = true.
Proof. intros [->|Hm]; [done|]. by destruct s, s'. Qed.
Lemma moves_rejecting s s' : moves_to s s' → rejecting s = true → rejecting s' = true.
Proof. intros [->|Hm]; [done|]. by destruct s, s'. Qed.

(** ** Store calls *)

(** How a call changes one operation: the holder of the claim moves it on or
    gives the claim up, or a new claim is granted once none is held. *)
Inductive row_change (clock : Z) (c : string) (row row' : DeletionRow) : Prop :=
| rc_held :
    dr_ClaimID row = Some c → moves_to (dr_State row) (dr_State row') →
    (dr_ClaimID row' = None ∨ dr_ClaimID row' = Some c ∧ dr_LeaseExpiresAt row' = dr_LeaseExpiresAt row ∧
                              dr_State row' ≠ DeletionRequested) →
    row_change clock c row row'
| rc_claimed l :
    dr_ClaimID row ≠ Some c → (dr_ClaimID row = None ∨ ∃ l0, dr_LeaseExpiresAt row = Some l0 ∧ l0 ≤ clock) →
    dr_State row' = dr_State row → dr_ClaimID row' = Some c → dr_LeaseExpiresAt row' = Some l →
    row_change clock c row row'.

(** The operation [o] changed, and nothing else. *)
Definition changed (clock : Z) (c o : string) (row row' : DeletionRow) (db db' : SDB) : Prop :=
  db_deletions db !! o = Some row ∧ row_change clock c row row' ∧ dr_SupplierID row' = dr_SupplierID row ∧
  dr_OperationID row' = dr_OperationID row ∧ deletion_check row' = true ∧
  db_deletions db' = <[o := row']> (db_deletions db).

Lemma put_deletion_inv o r db u db' :
  put_deletion o r db = Ok (u, db') → deletion_check r = true ∧ db' = set_deletions (<[o := r]> (db_deletions db)) db.
Proof. unfold put_deletion. destruct (deletion_check r); [|done]. by intros [= _ <-]. Qed.

Lemma cast_uuid_inv s db u db' : cast_uuid s db = Ok (u, db') → uuid_cast s = Some u ∧ db' = db.
Proof. unfold cast_uuid. destruct (uuid_cast s); [|done]. by intros [= -> ->]. Qed.

Lemma update_deletion_inv op claim now guard change db n db' :
  update_deletion op claim now guard change db = Ok (n, db') →
  (n = 0 ∧ db' = db) ∨
  (n = 1 ∧ ∃ o c row, uuid_cast op = Some o ∧ uuid_cast claim = Some c ∧ db_deletions db !! o = Some row ∧
     guard row = true ∧ dr_ClaimID row = Some c ∧ deletion_check (change row) = true ∧
     db' = set_deletions (<[o := change row]> (db_deletions db)) db).
Proof.
  intros Hr. unfold update_deletion in Hr.
  apply bind_Ok in Hr as (o & d1 & Ho & Hr). apply cast_uuid_inv in Ho as [Ho ->].
  apply bind_Ok in Hr as (c & d2 & Hc & Hr). apply cast_uuid_inv in Hc as [Hc ->].
  destruct (db_deletions db !! o) as [row|] eqn:Hl; [|by injection Hr as <- <-; left].
  destruct (guard row && _)%bool eqn:Hg; [|by injection Hr as <- <-; left].
  apply bind_Ok in Hr as (u & d3 & Hput & [= <- <-]). apply put_deletion_inv in Hput as [Hck ->].
  right. split; [done|]. apply andb_true_iff in Hg as [Hg Hh]. unfold holds_claim in Hh.
  apply andb_true_iff in Hh as [Hh _]. bool_props. exists o, c, row. by split_and!.
Qed.

Lemma diagnose_fails {A} op claim now db (a : A) db' : diagnoseTransition op claim now db ≠ Ok (a, db').
Proof.
  unfold diagnoseTransition, GetDeletionOperation. intros (row & d & _ & Hr)%bind_Ok.
  destruct row as [r|]; [|done]. by destruct (_ || _)%bool.
Qed.

Lemma transitionResult_inv op claim now n db u db' :
  transitionResult op claim now n db = Ok (u, db') → n = 1 ∧ db' = db.
Proof.
  unfold transitionResult. destruct (Z.eqb_spec n 1) as [->|]; [by intros [= _ <-]|].
  by intros Hr%diagnose_fails.
Qed.

(** A guarded transition that succeeded. *)
Lemma transition_inv op claim now guard change db u db' :
  bind (update_deletion op claim now guard change) (transitionResult op claim now) db = Ok (u, db') →
  ∃ o c row, uuid_cast op = Some o ∧ uuid_cast claim = Some c ∧ db_deletions db !! o = Some row ∧
     guard row = true ∧ dr_ClaimID row = Some c ∧ deletion_check (change row) = true ∧
     db' = set_deletions (<[o := change row]> (db_deletions db)) db.
Proof.
  intros (n & d & Hu & Ht)%bind_Ok. apply transitionResult_inv in Ht as [-> ->].
  apply update_deletion_inv in Hu as [[? _]|[_ Hu]]; [done|exact Hu].
Qed.

Definition changed_quietly clock c o row row' db db' : Prop :=
  changed clock c o row row' db db' ∧ db_suppliers db' = db_suppliers db.

Lemma transition_changed op claim now guard change db u db' clock :
  canonical op → canonical claim →
  bind (update_deletion op claim now guard change) (transitionResult op claim now) db = Ok (u, db') →
  (∀ row, guard row = true → dr_ClaimID row = Some claim → row_change clock claim row (change row) ∧
     dr_SupplierID (change row) = dr_SupplierID row ∧ dr_OperationID (change row) = dr_OperationID row) →
  ∃ row, changed_quietly clock claim op row (change row) db db' ∧ dr_ClaimID row = Some claim ∧ guard row = true.
Proof.
  intros Ho Hc Hr Hch. apply transition_inv in Hr as (o & c & row & Ho' & Hc' & Hl & Hg & Hcl & Hck & ->).
  unfold canonical in *. simplify_eq. destruct (Hch row Hg Hcl) as (? & ? & ?).
  exists row. by repeat split.
Qed.

Lemma MarkReleasePending_inv op claim now db u db' clock :
  canonical op → canonical claim → MarkDeletionReleasePending op claim now db = Ok (u, db') →
  ∃ row row', changed_quietly clock claim op row row' db db' ∧ dr_ClaimID row = Some claim ∧
    dr_State row' = DeletionReleasePending.
Proof.
  intros Ho Hc Hr. eapply (transition_changed _ _ _ _ _ _ _ _ clock Ho Hc) in Hr as (row & Hch & ? & _);
    [by eexists row, _|].
  intros row Hg Hcl. unfold in_state in Hg. bool_props. repeat split. apply rc_held; [done|rewrite Hg; by right|].
  right. simpl. by rewrite Hcl.
Qed.

Lemma MarkRejected_inv op claim now db u db' clock :
  canonical op → canonical claim → MarkDeletionRejectedActiveErrands op claim now db = Ok (u, db') →
  ∃ row row', changed_quietly clock claim op row row' db db' ∧ dr_ClaimID row = Some claim ∧
    dr_State row' = DeletionRejectedActiveErrands.
Proof.
  intros Ho Hc Hr. eapply (transition_changed _ _ _ _ _ _ _ _ clock Ho Hc) in Hr as (row & Hch & ? & _);
    [by eexists row, _|].
  intros row Hg Hcl. unfold in_state in Hg. bool_props. repeat split. apply rc_held; [done|rewrite Hg; by right|by left].
Qed.

Lemma CompleteDeletion_inv op claim now db u db' clock :
  canonical op → canonical claim → CompleteDeletion op claim now db = Ok (u, db') →
  ∃ row row', changed_quietly clock claim op row row' db db' ∧ dr_ClaimID row = Some claim ∧
    dr_State row' = DeletionCompleted.
Proof.
  intros Ho Hc Hr. eapply (transition_changed _ _ _ _ _ _ _ _ clock Ho Hc) in Hr as (row & Hch & ? & _);
    [by eexists row, _|].
  intros row Hg Hcl. unfold in_state in Hg. bool_props. repeat split. apply rc_held; [done|rewrite Hg; by right|by left].
Qed.

Lemma Retry_inv op claim code next now db u db' clock :
  canonical op → canonical claim → ScheduleDeletionRetry op claim code next now db = Ok (u, db') →
  ∃ row row', changed_quietly clock claim op row row' db db' ∧ dr_ClaimID row = Some claim ∧
    dr_State row' = dr_State row.
Proof.
  intros Ho Hc Hr. unfold ScheduleDeletionRetry in Hr. destruct (negb _); [done|].
  eapply (transition_changed _ _ _ _ _ _ _ _ clock Ho Hc) in Hr as (row & Hch & ? & _); [by eexists row, _|].
  intros row Hg Hcl. repeat split. apply rc_held; [done|by left|by left].
Qed.

(** The soft delete and the state change happen together. *)
Lemma Delete_inv s op claim now db u db' clock :
  canonical s → canonical op → canonical claim →
  DeleteCurrentAndMarkCommitPending s op claim now db = Ok (u, db') →
  ∃ row row' sr, changed clock claim op row row' db db' ∧ dr_ClaimID row = Some claim ∧
    dr_State row = DeletionRequested ∧ dr_SupplierID row = s ∧ dr_State row' = DeletionCommitPending ∧
    su_DeletedAt sr ≠ None ∧ is_Some (db_suppliers db !! s) ∧
    db_suppliers db' = <[s := sr]> (db_suppliers db).
Proof.
  intros Hs Ho Hc Hr. unfold DeleteCurrentAndMarkCommitPending in Hr.
  apply bind_Ok in Hr as (n & d1 & Hsoft & Hr). destruct (Z.eqb_spec n 1) as [->|]; [|done]. simpl in Hr.
  apply bind_Ok in Hr as (n2 & d2 & Hm & Hr). destruct (Z.eqb_spec n2 1) as [->|]; last first.
  { by apply diagnose_fails in Hr. }
  injection Hr as _ <-. unfold MarkDeletionCommitPending in Hm.
  apply bind_Ok in Hm as (s2 & d3 & Hs2 & Hm). apply cast_uuid_inv in Hs2 as [Hs2 ->].
  apply update_deletion_inv in Hm as [[? _]|(_ & o & c & row & Ho' & Hc' & Hl & Hg & Hcl & Hck & ->)]; [done|].
  unfold canonical in *. simplify_eq. apply andb_true_iff in Hg as [Hg Hsup]. unfold in_state in Hg. bool_props.
  unfold SoftDeleteSupplier in Hsoft. apply bind_Ok in Hsoft as (s3 & d4 & Hs3 & Hsoft).
  apply cast_uuid_inv in Hs3 as [Hs3 ->]. simplify_eq.
  destruct (db_suppliers db !! _) as [[cr up [dl|]]|] eqn:Hrow; [done| |done].
  destruct (supplier_check _); [|done]. injection Hsoft as <-.
  eexists row, _, _. split; [split; [exact Hl|split; [|split; [|split; [|split; [exact Hck|done]]]]]|]; [|done|done|].
  { apply rc_held; [done|rewrite Hg; by right|]. right. simpl. by rewrite Hcl. }
  do 4 (split; [done|]). split; [|split; [by eexists|reflexivity]]. done.
Qed.

(** A claim is granted on an operation nobody holds any more. *)
Lemma Claim_inv op claim now lease db r db' clock :
  canonical claim → now ≤ clock → (∀ t, stored_time t ≤ t) →
  (∀ o row, db_deletions db !! o = Some row → dr_ClaimID row ≠ Some claim) →
  ClaimDeletion op claim now lease db = Ok (r, db') →
  (r = None ∧ db' = db) ∨
  ∃ o row row', uuid_cast op = Some o ∧ changed_quietly clock claim o row row' db db' ∧ r = Some (deletionRecord row') ∧
    dr_State row' = dr_State row ∧ dr_ClaimID row' = Some claim ∧
    dr_LeaseExpiresAt row' = Some (stored_time lease) ∧ open_state (dr_State row) = true.
Proof.
  intros Hc Hclock Hst Hun Hr. unfold ClaimDeletion in Hr. destruct (lease <=? now); [done|].
  apply bind_Ok in Hr as (row2 & d & Hq & [= <- <-]). unfold ClaimDeletionOperation in Hq.
  apply bind_Ok in Hq as (o & d1 & Ho & Hq). apply cast_uuid_inv in Ho as [Ho ->].
  apply bind_Ok in Hq as (c & d2 & Hc2 & Hq). apply cast_uuid_inv in Hc2 as [Hc2 ->].
  unfold canonical in Hc. rewrite Hc in Hc2. injection Hc2 as <-.
  destruct (db_deletions db !! o) as [row|] eqn:Hl; [|by injection Hq as <- <-; left].
  destruct (deletion_claimable _ row) eqn:Hcl; [|by injection Hq as <- <-; left].
  apply bind_Ok in Hq as (u & d3 & Hput & [= <- <-]). apply put_deletion_inv in Hput as [Hck ->].
  right. eexists o, row, _. split; [done|].
  unfold deletion_claimable in Hcl. apply andb_true_iff in Hcl as [Hcl Hfree].
  apply andb_true_iff in Hcl as [Hcl _]. apply andb_true_iff in Hcl as [Hopen _].
  split; [split; [split; [exact Hl|split; [|split; [|split; [|split; [exact Hck|done]]]]]|done]|by split_and!]; [|done|done].
  eapply rc_claimed; [by eapply Hun| |done|done|done]. apply orb_true_iff in Hfree as [Hn|Hl0].
  - left. by bool_props.
  - right. destruct (dr_LeaseExpiresAt row) as [l0|]; [|done]. exists l0. split; [done|]. bool_props.
    specialize (Hst now). lia.
Qed.

(** A new operation is recorded, or nothing changes. *)
Lemma CreateOrGet_inv op s m now db r db' :
  CreateOrGetDeletion op s m now db = (r, db') →
  db' = db ∨
  ∃ o s' row, uuid_cast op = Some o ∧ uuid_cast s = Some s' ∧ db_deletions db !! o = None ∧ is_Some (db_suppliers db !! s') ∧
    dr_State row = DeletionRequested ∧ dr_ClaimID row = None ∧ dr_SupplierID row = s' ∧ dr_OperationID row = o ∧
    deletion_check row = true ∧ db' = set_deletions (<[o := row]> (db_deletions db)) db.
Proof.
  unfold CreateOrGetDeletion. destruct (negb (boundedInt32 m)); [intros [= _ <-]; by left|].
  destruct (inTx _ db) as [q d] eqn:Htx. intros Hr.
  assert (db' = d) as -> by (destruct q; [destruct (negb _)|]; by injection Hr as _ <-). clear Hr.
  apply inTx_inv in Htx as [(row & -> & Hq)|(e & _ & -> & _)]; [|by left].
  unfold CreateOrGetDeletionOperation in Hq.
  apply bind_Ok in Hq as (o & d1 & Ho & Hq). apply cast_uuid_inv in Ho as [Ho ->].
  apply bind_Ok in Hq as (s' & d2 & Hs & Hq). apply cast_uuid_inv in Hs as [Hs ->].
  destruct (db_deletions db !! o) as [row0|] eqn:Hl; [injection Hq as _ <-; by left|].
  destruct (db_suppliers db !! s') as [sr|] eqn:Hsr; [|done].
  apply bind_Ok in Hq as (u & d3 & Hput & [= <- <-]). apply put_deletion_inv in Hput as [Hck ->].
  right. match type of Hck with deletion_check ?r = _ => exists o, s', r end. do 3 (split; [done|]). split; [by eexists|]. do 4 (split; [done|]). split; [exact Hck|done].
Qed.

Lemma GetDeletion_inv op db r db' :
  canonical op → GetDeletion op db = Ok (r, db') →
  db' = db ∧ ∃ row, db_deletions db !! op = Some row ∧ r = deletionRecord row.
Proof.
  intros Ho (row & d & Hq & Hr)%bind_Ok. unfold GetDeletionOperation in Hq.
  apply bind_Ok in Hq as (o & d1 & Ho' & [= <- <-]). apply cast_uuid_inv in Ho' as [Ho' ->].
  unfold canonical in Ho. simplify_eq. destruct (db_deletions db !! op) as [row|]; [|done].
  injection Hr as <- <-. eauto.
Qed.

(** ** Fence requests *)

(** The fence of [o] blocks [s], which has no active errand. *)
Definition good (o s : string) (db : ODB) : Prop :=
  ∃ f, db_fences db !! o = Some f ∧ fr_SupplierID f = s ∧ fr_State f ≠ FenceReleased ∧ no_active s db.

Definition fences_canon (db : ODB) : Prop :=
  ∀ o f, db_fences db !! o = Some f → canonical (fr_SupplierID f).

Lemma no_active_ext s db db' : db_errands db' = db_errands db → no_active s db → no_active s db'.
Proof. intros Heq Hna id e Hst. apply (Hna id e). by eapply stored_as_ext; [|exact Hst]. Qed.

(** How a request changes the fences. *)
Inductive fence_change (rq : FenceRequest) (m m' : gmap string FenceRow) : Prop :=
| fc_same : m' = m → fence_change rq m m'
| fc_acquired o f : rq_Route rq = RAcquire → m !! o = None → fr_State f = FenceOpen →
    canonical (fr_SupplierID f) → m' = <[o := f]> m → fence_change rq m m'
| fc_closed f : m !! to_lower (rq_OperationID rq) = Some f → fr_State f = FenceOpen →
    (rq_Route rq = RCommit ∧ m' = <[to_lower (rq_OperationID rq) := mkFenceRow (fr_OperationID f) (fr_SupplierID f) FenceCommitted]> m ∨
     rq_Route rq = RRelease ∧ m' = <[to_lower (rq_OperationID rq) := mkFenceRow (fr_OperationID f) (fr_SupplierID f) FenceReleased]> m) →
    fence_change rq m m'.

Lemma close_change actor action op state db r db' :
  uuid_pattern op = true → close actor action (to_lower op) state db = (r, db') →
  db_fences db' = db_fences db ∨
  ∃ f, db_fences db !! to_lower op = Some f ∧ fr_State f = FenceOpen ∧
    db_fences db' = <[to_lower op := mkFenceRow (fr_OperationID f) (fr_SupplierID f) state]> (db_fences db).
Proof.
  intros Hop Hr. apply close_inv in Hr. destruct r as [f|e]; [|by left].
  destruct Hr as (row & d & a & Hc & _ & ->). apply CloseFence_inv in Hc as (o & Ho & _ & _ & Hd).
  rewrite toUUID_pattern, to_lower_idem in Ho by by rewrite uuid_lower. injection Ho as <-.
  destruct Hd as [->|(f0 & Hl & Hst & -> & ->)]; [by left|]. right. by exists f0.
Qed.

Lemma serve_change sub rq db resp db' :
  serve_fence (Some sub) rq db = (resp, db') →
  fences_only db db' ∧ fence_change rq (db_fences db) (db_fences db').
Proof.
  unfold serve_fence, target. case_bool_decide; [intros [= _ <-]; split; [apply fences_only_refl|by apply fc_same]|].
  destruct (uuid_pattern (rq_OperationID rq)) eqn:Hp; simpl;
    [|intros [= _ <-]; split; [apply fences_only_refl|by apply fc_same]].
  destruct (rq_Route rq) eqn:Hroute.
  - destruct (decodeAcquire _) as [s|code] eqn:Hdec;
      [|intros [= _ <-]; split; [apply fences_only_refl|by apply fc_same]].
    destruct (Acquire _ _ _ _) as [r d] eqn:Ha. intros [= _ <-].
    pose proof (Acquire_fences sub (to_lower (rq_OperationID rq)) s db) as Hf. rewrite Ha in Hf. split; [done|].
    apply Acquire_inv in Ha. destruct r as [f|e]; [|by apply fc_same].
    destruct Ha as (created & d1 & a & Hc & _ & ->).
    apply CreateFence_inv in Hc as (o & s' & Ho & Hs & _ & _ & [->|(Hn & Hcr & ->)]); [by apply fc_same|].
    assert (uuid_pattern s = true ∧ to_lower s = s) as [Hps Hls].
    { unfold decodeAcquire in Hdec. destruct (_ ≫= _) as [ms|]; [|done].
      destruct (acquire_members _ _ _) as [[s0|] []]; try done. destruct (uuid_pattern s0) eqn:Hp0; [|done].
      injection Hdec as <-. by rewrite uuid_lower, to_lower_idem. }
    rewrite toUUID_pattern, Hls in Hs by done. injection Hs as <-.
    apply (fc_acquired _ _ _ o created.1); [done|done|by rewrite Hcr| |done].
    rewrite Hcr. simpl. unfold canonical. by rewrite uuid_cast_pattern, Hls.
  - intros [= _ <-]. split; [apply fences_only_refl|by apply fc_same].
  - destruct (Commit _ _ _) as [r d] eqn:Hc. intros [= _ <-]. split.
    { pose proof (close_fences sub "supplier_fence.commit" (to_lower (rq_OperationID rq)) FenceCommitted db) as Hf.
      unfold Commit in Hc. by rewrite Hc in Hf. }
    apply close_change in Hc as [?|(f & Hl & Hst & ->)]; [by apply fc_same| |done].
    eapply fc_closed; eauto.
  - destruct (ReleaseFence _ _ _) as [r d] eqn:Hc. intros [= _ <-]. split.
    { pose proof (close_fences sub "supplier_fence.release" (to_lower (rq_OperationID rq)) FenceReleased db) as Hf.
      unfold ReleaseFence in Hc. by rewrite Hc in Hf. }
    apply close_change in Hc as [?|(f & Hl & Hst & ->)]; [by apply fc_same| |done].
    eapply fc_closed; eauto.
Qed.

(** ** Answers *)

(** A fence that was reported is the one of the operation. *)
Definition reports (op : string) (f : DFence) (db : ODB) : Prop :=
  ∃ row, db_fences db !! op = Some row ∧ df_SupplierID f = fr_SupplierID row ∧
    df_State f = wireState (fr_State row) ∧
    (df_HasActiveErrands f = false → no_active (fr_SupplierID row) db).

Context `{Hok : !PostgresOk}.

Lemma active_reports op row db f d :
  store_ok db → canonical (fr_SupplierID row) → db_fences db !! op = Some row → withActiveErrands row db = Ok (f, d) →
  reports op (mkDFence (fc_OperationID f) (fc_SupplierID f) (wireState (fc_State f)) (fc_HasActiveErrands f)) db.
Proof.
  intros Hs Hcan Hl Ha. destruct (withActiveErrands_spec _ _ _ _ Hs Ha) as (_ & _ & Hsup & Hst & s & Hu & Hna).
  destruct (canonical_text _ Hcan) as (_ & _ & Hcu). rewrite Hcu in Hu. injection Hu as <-.
  exists row. simpl. rewrite Hsup, Hst. by rewrite <- Hna.
Qed.

Lemma reports_audit op f a db : reports op f db → reports op f (set_audit a db).
Proof. intros (row & Hl & ? & ? & Hna). by exists row. Qed.

Lemma store_ok_audit a db : store_ok (set_audit a db) → store_ok db.
Proof. intros Hs. by apply (store_ok_ext (set_audit a db)), Hs; try done; apply (outbox_inv_ext (set_audit a db)), Hs. Qed.

Lemma serve_answer sub rq db resp db' f :
  store_ok db → fences_canon db → canonical (rq_OperationID rq) →
  serve_fence (Some sub) rq db = (resp, db') → attempt_result (Some resp) = Ok f → reports (rq_OperationID rq) f db'.
Proof.
  intros Hs Hcan Hop Hserve Hf. destruct (canonical_text _ Hop) as (Hp & Hl & Hu).
  destruct (serve_change _ _ _ _ _ Hserve) as [Hfo Hchange].
  assert (fences_canon db') as Hcan'.
  { intros o f0 Hl0. destruct Hchange as [Heq|o1 f1 _ _ _ Hc1 Heq|f1 Hl1 _ [[_ Heq]|[_ Heq]]]; rewrite Heq in Hl0;
      [by eapply Hcan|apply lookup_insert_Some in Hl0 as [[_ <-]|[_ ?]]; [|by eapply Hcan]..];
      [done|by apply (Hcan _ _ Hl1)..]. }
  assert (store_ok db') as Hs' by by eapply fences_step.
  unfold serve_fence, target in Hserve. case_bool_decide.
  { injection Hserve as <- _. by apply error_no_fence in Hf. }
  rewrite Hp, Hl in Hserve. simpl in Hserve. destruct (rq_Route rq).
  - destruct (decodeAcquire _) as [s|code]; [|injection Hserve as <- _; by apply error_no_fence in Hf].
    destruct (Acquire _ _ _ _) as [r d] eqn:Ha. injection Hserve as <- <-.
    apply respond_fence in Hf as (g & -> & ->). apply Acquire_inv in Ha as (created & d1 & a & Hc & Hact & ->).
    apply reports_audit. apply CreateFence_inv in Hc as (o & s' & Ho & _ & Hlk & _ & _). simplify_eq.
    eapply active_reports; [by eapply store_ok_audit|by eapply Hcan'|done|done].
  - injection Hserve as <- <-. apply respond_fence in Hf as (g & Hi & ->). unfold Inspect in Hi.
    destruct (bind _ _ db) as [[g' d]|] eqn:Hb; [|done]. injection Hi as <-.
    apply bind_Ok in Hb as (row & d1 & Hget & Hact). unfold GetFence, ops_parseUUID in Hget. rewrite Hu in Hget.
    apply bind_Ok in Hget as (? & ? & [= <- <-] & Hget). unfold sql_GetFence in Hget.
    destruct (db_fences db !! _) eqn:Hlk; [|done]. injection Hget as <- <-. by eapply active_reports; eauto.
  - destruct (Commit _ _ _) as [r d] eqn:Hc. injection Hserve as <- <-.
    apply respond_fence in Hf as (g & -> & ->). apply close_inv in Hc as (row & d1 & a & Hc & Hact & ->).
    apply reports_audit. apply CloseFence_inv in Hc as (o & Ho & Hlk & _ & _). simplify_eq.
    eapply active_reports; [by eapply store_ok_audit|by eapply Hcan'|done|done].
  - destruct (ReleaseFence _ _ _) as [r d] eqn:Hc. injection Hserve as <- <-.
    apply respond_fence in Hf as (g & -> & ->). apply close_inv in Hc as (row & d1 & a & Hc & Hact & ->).
    apply reports_audit. apply CloseFence_inv in Hc as (o & Ho & Hlk & _ & _). simplify_eq.
    eapply active_reports; [by eapply store_ok_audit|by eapply Hcan'|done|done].
Qed.

End effect.
