(* ===== verification/DeletionSafe.v ===== *)
(** * Guarded deletion: the invariant

    Both databases agree ([world_ok]); what every worker knows is true
    ([ghost_ok]); claim IDs belong to one worker, and a claim that was given
    up is used by none ([claims_ok]); a request on its way can do no harm
    ([flight_ok]).  Every step of the world keeps this, as long as a release
    arrives [in_time]. *)

From S2P Require Import Prelude Proc GoText Json GoTime Errand ErrandState ErrandJson ErrandInv ErrandStore Fence StoreInv StoreSafe StoreSystem Deletion FenceWire DeleteWork DeletionLogic DeletionSystem DeletionEffect.

Local Open Scope string_scope.
Open Scope Z_scope.

Section safe.
Context `{Hpg : Postgres, Hpgok : !PostgresOk, Huu : !UuidText}.

(** ** The two databases *)

Record sdb_ok (db : SDB) : Prop := {
  sd_row o row : db_deletions db !! o = Some row →
    canonical o ∧ canonical (dr_SupplierID row) ∧ dr_OperationID row = o ∧ deletion_check row = true ∧
    is_Some (db_suppliers db !! dr_SupplierID row);
  sd_deleted o row : db_deletions db !! o = Some row → deleted_state (dr_State row) = true →
    ∃ r, db_suppliers db !! dr_SupplierID row = Some r ∧ su_DeletedAt r ≠ None;
  sd_cause s r : db_suppliers db !! s = Some r → su_DeletedAt r ≠ None →
    ∃ o row, db_deletions db !! o = Some row ∧ dr_SupplierID row = s ∧ deleted_state (dr_State row) = true }.

Definition fence_in (st : FenceState) (o : string) (db : ODB) : Prop :=
  ∃ f, db_fences db !! o = Some f ∧ fr_State f = st.

Record world_ok (ord : ODB) (sup : SDB) : Prop := {
  wo_ord : store_ok ord;
  wo_sup : sdb_ok sup;
  wo_canon : fences_canon ord;
  wo_deleted o row : db_deletions sup !! o = Some row → deleted_state (dr_State row) = true →
    good o (dr_SupplierID row) ord;
  wo_committed o : fence_in FenceCommitted o ord →
    ∃ row, db_deletions sup !! o = Some row ∧ deleted_state (dr_State row) = true;
  wo_completed o row : db_deletions sup !! o = Some row → dr_State row = DeletionCompleted →
    fence_in FenceCommitted o ord;
  wo_rejected o row : db_deletions sup !! o = Some row → dr_State row = DeletionRejectedActiveErrands →
    fence_in FenceReleased o ord }.

(** ** What workers know *)

(** Nothing under this claim can delete the supplier any more, or the claim
    is still the last one. *)
Definition given_up (clock : Z) (c : string) (l : Z) (row : DeletionRow) : Prop :=
  rejecting (dr_State row) = true ∨ l ≤ clock ∨
  dr_State row = DeletionRequested ∧ dr_ClaimID row = Some c ∧ dr_LeaseExpiresAt row = Some l.

Definition fact_ok (ord : ODB) (clock : Z) (j : job) (row : DeletionRow) : Prop :=
  match j_fact j with
  | KClaimed => True
  | KFenced => dr_State row = DeletionRequested → dr_ClaimID row = Some (j_claim j) → good (j_op j) (j_sup j) ord
  | KReleasing => rejecting (dr_State row) = true
  | KReleased => rejecting (dr_State row) = true ∧ fence_in FenceReleased (j_op j) ord
  | KDeleted => deleted_state (dr_State row) = true
  | KCommitted => deleted_state (dr_State row) = true ∧ fence_in FenceCommitted (j_op j) ord
  | KSpent => given_up clock (j_claim j) (j_lease j) row
  end.

Definition job_ok (ord : ODB) (sup : SDB) (clock : Z) (used : gset string) (j : job) : Prop :=
  j_claim j ∈ used ∧ canonical (j_claim j) ∧
  ∃ row, db_deletions sup !! j_op j = Some row ∧ dr_SupplierID row = j_sup j ∧
    (dr_ClaimID row = Some (j_claim j) → dr_LeaseExpiresAt row = Some (j_lease j)) ∧ fact_ok ord clock j row.

Definition unclaimed (c : string) (sup : SDB) : Prop :=
  ∀ o row, db_deletions sup !! o = Some row → dr_ClaimID row ≠ Some c.

Record ghost_ok (ord : ODB) (sup : SDB) (clock : Z) (used : gset string) (g : ghost) : Prop := {
  go_time : g_time g ≤ clock;
  go_new c : g_new g = Some c → c ∈ used ∧ canonical c ∧ unclaimed c sup ∧ ∀ j, g_job g = Some j → j_claim j ≠ c;
  go_job j : g_job g = Some j → job_ok ord sup clock used j }.

(** The claims a worker may still use. *)
Definition owns (g : ghost) (c : string) : Prop :=
  g_new g = Some c ∨ ∃ j, g_job g = Some j ∧ j_claim j = c ∧ j_fact j ≠ KSpent.

Record claims_ok (sup : SDB) (used : gset string) (gs : gmap nat ghost) (sp : gset string) : Prop := {
  cl_used o row c : db_deletions sup !! o = Some row → dr_ClaimID row = Some c → c ∈ used;
  cl_spent c : c ∈ sp → c ∈ used;
  cl_owned i g c : gs !! i = Some g → owns g c → c ∉ sp;
  cl_apart i i' g g' c : gs !! i = Some g → gs !! i' = Some g' → owns g c → owns g' c → i = i';
  cl_give_up i g j : gs !! i = Some g → g_job g = Some j → j_fact j = KSpent → j_claim j ∈ sp }.

Record sound (ord : ODB) (sup : SDB) (clock : Z) (used : gset string) (gs : gmap nat ghost) (sp : gset string) : Prop := {
  sn_world : world_ok ord sup;
  sn_claims : claims_ok sup used gs sp;
  sn_ghost i g : gs !! i = Some g → ghost_ok ord sup clock used g }.

(** ** Requests on their way *)

Definition flight_ok (sup : SDB) (clock : Z) (sp : gset string) (rq : FenceRequest) (lease : option Z) : Prop :=
  match rq_Route rq with
  | RAcquire | RInspect => True
  | RCommit => ∃ row, db_deletions sup !! rq_OperationID rq = Some row ∧ deleted_state (dr_State row) = true
  | RRelease => ∃ row, db_deletions sup !! rq_OperationID rq = Some row ∧
      (rejecting (dr_State row) = true ∨ ∃ c l, c ∈ sp ∧ lease = Some l ∧ given_up clock c l row)
  end.

(** ** A change of one operation *)

Section change.
Context (ord : ODB) (sup sup' : SDB) (clock : Z) (used : gset string) (gs : gmap nat ghost) (sp : gset string).
Context (c o : string) (row row' : DeletionRow).
Context (Hs : sound ord sup clock used gs sp).
Context (Hch : changed clock c o row row' sup sup').
(** The acting claim was not given up, and a new one is nobody's yet. *)
Context (Hfresh : c ∉ sp) (Hused : c ∈ used).
Context (Hnew : dr_ClaimID row ≠ Some c →
  ∀ i g, gs !! i = Some g → g_new g ≠ Some c ∧ ∀ j, g_job g = Some j → j_claim j ≠ c).

Lemma changed_lookup o2 row2 :
  db_deletions sup' !! o2 = Some row2 → o2 = o ∧ row2 = row' ∨ o2 ≠ o ∧ db_deletions sup !! o2 = Some row2.
Proof.
  destruct Hch as (_ & _ & _ & _ & _ & ->). intros [[-> ->]|[? ?]]%lookup_insert_Some; auto.
Qed.

Lemma changed_other o2 row2 : o2 ≠ o → db_deletions sup !! o2 = Some row2 → db_deletions sup' !! o2 = Some row2.
Proof. destruct Hch as (_ & _ & _ & _ & _ & ->). intros. by rewrite lookup_insert_ne. Qed.

Lemma changed_self : db_deletions sup' !! o = Some row'.
Proof. destruct Hch as (_ & _ & _ & _ & _ & ->). apply lookup_insert_eq. Qed.

(** States only move on. *)
Lemma changed_moves : moves_to (dr_State row) (dr_State row').
Proof. destruct Hch as (_ & [? Hm _|? _ _ Hst _ _] & _); [done|]. rewrite Hst. by left. Qed.

(** A claim held before is the acting one, or it expired. *)
Lemma changed_claim c2 :
  c2 ≠ c → dr_ClaimID row' ≠ Some c2 ∧
  (∀ l, dr_ClaimID row = Some c2 → dr_LeaseExpiresAt row = Some l → l ≤ clock).
Proof.
  intros Hne. destruct Hch as (_ & [Hcl _ Hcl'|l0 _ Hfree _ Hcl' _] & _).
  - split; [destruct Hcl' as [->|[-> _]]; congruence|congruence].
  - split; [congruence|]. intros l Hc2 Hl. destruct Hfree as [?|(l1 & Hl1 & ?)]; [congruence|].
    rewrite Hl in Hl1. by injection Hl1 as ->.
Qed.

(** Whoever still holds the claim afterwards held it before and has decided. *)
Lemma changed_keeps i g j :
  gs !! i = Some g → g_job g = Some j → dr_ClaimID row' = Some (j_claim j) →
  dr_ClaimID row = Some (j_claim j) ∧ dr_LeaseExpiresAt row' = dr_LeaseExpiresAt row ∧
  dr_State row' ≠ DeletionRequested.
Proof.
  intros Hg Hj Hcl. destruct (decide (j_claim j = c)) as [Heq|Hne]; [|by apply changed_claim in Hne as [? _]].
  destruct Hch as (_ & [Hc1 _ [Hn|(_ & Hl & Hst)]|l Hne _ _ _ _] & _); [congruence|by rewrite Heq|].
  by destruct (proj2 (Hnew Hne i g Hg) j Hj).
Qed.

Lemma changed_given_up c2 l :
  c2 ∈ sp → given_up clock c2 l row → given_up clock c2 l row'.
Proof.
  intros Hsp [Hr|[Hl|(_ & Hcl & Hl)]].
  - left. by eapply moves_rejecting, Hr; apply changed_moves.
  - right. by left.
  - right. left. by eapply (changed_claim c2); [set_solver|..].
Qed.

Lemma changed_job i g j : gs !! i = Some g → g_job g = Some j → job_ok ord sup' clock used j.
Proof.
  intros Hg Hj. destruct (go_job _ _ _ _ _ (sn_ghost _ _ _ _ _ _ Hs i g Hg) j Hj) as (Hu & Hcan & r & Hr & Hsup & Hle & Hf).
  split_and!; [done|done|]. destruct (decide (j_op j = o)) as [Hop|Hop]; last first.
  { exists r. split_and!; [by apply changed_other|done|done|done]. }
  pose proof Hch as (Hrow & _ & Hsup' & _). rewrite Hop, Hrow in Hr. injection Hr as <-.
  pose proof (changed_keeps i g j Hg Hj) as Hk. pose proof changed_moves as Hm.
  exists row'. rewrite Hop. split_and!; [apply changed_self|congruence| |].
  { intros Hcl. destruct (Hk Hcl) as (Hcl0 & -> & _). auto. }
  unfold fact_ok in *. destruct (j_fact j) eqn:Hfact.
  - done.
  - intros Hst Hcl. by destruct (Hk Hcl) as (_ & _ & ?).
  - by eapply moves_rejecting.
  - destruct Hf. split; [by eapply moves_rejecting|congruence].
  - by eapply moves_deleted.
  - destruct Hf. split; [by eapply moves_deleted|congruence].
  - apply changed_given_up; [|done]. by eapply (cl_give_up _ _ _ _ (sn_claims _ _ _ _ _ _ Hs)).
Qed.

Lemma changed_ghosts i g : gs !! i = Some g → ghost_ok ord sup' clock used g.
Proof.
  intros Hg. destruct (sn_ghost _ _ _ _ _ _ Hs i g Hg) as [Ht Hn Hj]. split; [done| |intros j Hjob; by eapply changed_job].
  intros c2 Hc2. destruct (Hn c2 Hc2) as (? & ? & Hun & ?). split_and!; try done.
  intros o2 row2 [[-> ->]|[_ Hl]]%changed_lookup; [|by eapply Hun].
  pose proof Hch as (Hrow & _). destruct (decide (dr_ClaimID row = Some c)) as [Hcl|Hcl].
  - apply changed_claim. intros ->. by apply (Hun o row).
  - apply changed_claim. intros ->. by destruct (Hnew Hcl i g Hg).
Qed.

Lemma changed_claims : claims_ok sup' used gs sp.
Proof.
  destruct (sn_claims _ _ _ _ _ _ Hs) as [H1 H2 H3 H4 H5]. split; try done.
  intros o2 row2 c2 [[-> ->]|[_ Hl]]%changed_lookup Hcl; [|by eapply H1].
  destruct (decide (c2 = c)) as [->|Hne]; [done|]. by apply changed_claim in Hne as [? _].
Qed.

Lemma changed_flights rq l : flight_ok sup clock sp rq l → flight_ok sup' clock sp rq l.
Proof.
  unfold flight_ok. destruct (rq_Route rq); [done|done| |]; intros (r & Hr & Hcase);
    (destruct (decide (rq_OperationID rq = o)) as [Ho|Ho];
      [|exists r; split; [by apply changed_other|done]]); pose proof Hch as (Hrow & _);
    rewrite Ho, Hrow in Hr; injection Hr as <-; exists row'; rewrite Ho; (split; [apply changed_self|]).
  - eapply moves_deleted; [apply changed_moves|done].
  - destruct Hcase as [Hrej|(c2 & l2 & ? & ? & ?)].
    + left. eapply moves_rejecting; [apply changed_moves|done].
    + right. exists c2, l2. split_and!; [done|done|by apply changed_given_up].
Qed.

(** The tables stay consistent, if the new state was earned. *)
Lemma changed_world :
  (deleted_state (dr_State row') = true → deleted_state (dr_State row) = false →
     good o (dr_SupplierID row) ord) →
  (∀ s r', db_suppliers sup' !! s = Some r' → su_DeletedAt r' ≠ None →
     s = dr_SupplierID row ∧ deleted_state (dr_State row') = true ∨
     ∃ r, db_suppliers sup !! s = Some r ∧ su_DeletedAt r ≠ None) →
  (∀ s r, db_suppliers sup !! s = Some r → ∃ r', db_suppliers sup' !! s = Some r' ∧
     (su_DeletedAt r ≠ None → su_DeletedAt r' ≠ None)) →
  (deleted_state (dr_State row') = true → ∃ r', db_suppliers sup' !! dr_SupplierID row = Some r' ∧ su_DeletedAt r' ≠ None) →
  (dr_State row' = DeletionCompleted → fence_in FenceCommitted o ord) →
  (dr_State row' = DeletionRejectedActiveErrands → fence_in FenceReleased o ord) →
  world_ok ord sup'.
Proof.
  intros Hgood Hcause Hkeep Hdel Hcom Hrel. destruct (sn_world _ _ _ _ _ _ Hs) as [W1 [S1 S2 S3] W3 W4 W5 W6 W7].
  pose proof Hch as (Hrow & _ & Hsup & Hop & Hck & _). pose proof changed_moves as Hm.
  split; [done| |done| | | |].
  - split.
    + intros o2 row2 [[-> ->]|[_ Hl]]%changed_lookup.
      * destruct (S1 _ _ Hrow) as (? & ? & ? & _ & r & Hr). destruct (Hkeep _ _ Hr) as (r' & Hr' & _).
        rewrite Hsup, Hop. split_and!; try done; by exists r'.
      * destruct (S1 _ _ Hl) as (? & ? & ? & ? & r & Hr). destruct (Hkeep _ _ Hr) as (r' & Hr' & _).
        split_and!; try done; by exists r'.
    + intros o2 row2 [[-> ->]|[_ Hl]]%changed_lookup Hst; [rewrite Hsup; by apply Hdel|].
      destruct (S2 _ _ Hl Hst) as (r & Hr & Hd). destruct (Hkeep _ _ Hr) as (r' & Hr' & ?). eauto.
    + intros s r' Hr' Hd. destruct (Hcause _ _ Hr' Hd) as [[-> Hst]|(r & Hr & Hd0)].
      * exists o, row'. split_and!; [apply changed_self|done|done].
      * destruct (S3 _ _ Hr Hd0) as (o2 & row2 & Hl & <- & Hst). destruct (decide (o2 = o)) as [->|Hne].
        { rewrite Hrow in Hl. injection Hl as <-. exists o, row'.
          split_and!; [apply changed_self|done|by eapply moves_deleted]. }
        exists o2, row2. split_and!; [by apply changed_other|done|done].
  - intros o2 row2 [[-> ->]|[_ Hl]]%changed_lookup Hst; [|by eapply W4]. rewrite Hsup.
    destruct (deleted_state (dr_State row)) eqn:Hd0; [by apply W4|by apply Hgood].
  - intros o2 Hf. destruct (W5 _ Hf) as (row2 & Hl & Hst). destruct (decide (o2 = o)) as [->|Hne].
    + rewrite Hrow in Hl. injection Hl as <-. exists row'. split; [apply changed_self|by eapply moves_deleted].
    + exists row2. split; [by apply changed_other|done].
  - intros o2 row2 [[-> ->]|[_ Hl]]%changed_lookup Hst; [by apply Hcom|by eapply W6].
  - intros o2 row2 [[-> ->]|[_ Hl]]%changed_lookup Hst; [by apply Hrel|by eapply W7].
Qed.

End change.

(** ** A worker learns *)

Lemma sound_ghost ord sup clock used gs sp i g g' sp' :
  sound ord sup clock used gs sp → gs !! i = Some g → ghost_ok ord sup clock used g' →
  (∀ c, owns g' c → (c ∉ sp') ∧ (owns g c ∨ ∀ i' g2, i' ≠ i → gs !! i' = Some g2 → ¬ owns g2 c)) →
  (∀ c, c ∈ sp' → c ∈ used ∧ (c ∈ sp ∨ owns g c)) → (∀ c, c ∈ sp → c ∈ sp') →
  (∀ j, g_job g' = Some j → j_fact j = KSpent → j_claim j ∈ sp') →
  sound ord sup clock used (<[i := g']> gs) sp'.
Proof.
  intros [W [C1 C2 C3 C4 C5] G] Hg Hok Hown Hsp Hmono Hgive. split; [done| |].
  - split; [done|by intros c [? _]%Hsp| | |].
    + intros i2 g2 c [[-> <-]|[Hne Hl]]%lookup_insert_Some Ho; [by apply Hown|].
      intros [_ [Hc|Hc]]%Hsp; [by eapply C3|]. by destruct (C4 _ _ _ _ _ Hl Hg Ho Hc).
    + intros i1 i2 g1 g2 c [[-> <-]|[Hne1 Hl1]]%lookup_insert_Some [[<- <-]|[Hne2 Hl2]]%lookup_insert_Some Ho1 Ho2;
        [done| | |by eapply C4].
      * destruct (Hown _ Ho1) as [_ [Ho|Hno]]; [by eapply C4|by destruct (Hno _ _ (not_eq_sym Hne2) Hl2)].
      * destruct (Hown _ Ho2) as [_ [Ho|Hno]]; [by eapply C4|by destruct (Hno _ _ (not_eq_sym Hne1) Hl1)].
    + intros i2 g2 j [[-> <-]|[Hne Hl]]%lookup_insert_Some Hj Hk; [by eapply Hgive|]. eapply Hmono, C5; eauto.
  - intros i2 g2 [[-> <-]|[Hne Hl]]%lookup_insert_Some; [done|by eapply G].
Qed.

Lemma flight_mono sup clock clock' sp sp' rq l :
  clock ≤ clock' → (∀ c, c ∈ sp → c ∈ sp') → flight_ok sup clock sp rq l → flight_ok sup clock' sp' rq l.
Proof.
  intros Hle Hsp. unfold flight_ok. destruct (rq_Route rq); try done.
  intros (row & Hrow & [Hr|(c & l2 & Hc & Hl & Hg)]); exists row; (split; [done|]); [by left|].
  right. exists c, l2. split_and!; [by apply Hsp|done|]. unfold given_up in *. intuition lia.
Qed.

(** The knowledge of the job changes, under the same claim. *)
Lemma sound_know ord sup clock used gs sp i g j k :
  sound ord sup clock used gs sp → gs !! i = Some g → g_job g = Some j → j_fact j ≠ KSpent → k ≠ KSpent →
  (∀ row, db_deletions sup !! j_op j = Some row → dr_SupplierID row = j_sup j → fact_ok ord clock (with_fact k j) row) →
  sound ord sup clock used (<[i := know k g]> gs) sp.
Proof.
  intros Hs Hg Hj Hjk Hk Hf. pose proof (sn_ghost _ _ _ _ _ _ Hs _ _ Hg) as [Ht Hn Hjob].
  assert (g_job (know k g) = Some (with_fact k j)) as Hj' by (simpl; by rewrite Hj).
  eapply sound_ghost; [done|done| | | |done|].
  - split; [done| |].
    + intros c Hc. destruct (Hn c Hc) as (? & ? & ? & Hne). split_and!; try done.
      intros j2. rewrite Hj'. intros [= <-]. by apply (Hne j).
    + intros j2. rewrite Hj'. intros [= <-]. destruct (Hjob j Hj) as (? & ? & row & Hl & Hsup & ? & _).
      split_and!; [done|done|]. exists row. split_and!; try done. by apply Hf.
  - intros c Ho. assert (owns g c) as Ho'.
    { destruct Ho as [?|(j2 & Hj2 & <- & _)]; [by left|]. right. rewrite Hj' in Hj2. injection Hj2 as <-. by exists j. }
    split; [|by left]. by eapply (cl_owned _ _ _ _ (sn_claims _ _ _ _ _ _ Hs)).
  - intros c Hc. split; [by apply (cl_spent _ _ _ _ (sn_claims _ _ _ _ _ _ Hs))|by left].
  - intros j2. rewrite Hj'. by intros [= <-].
Qed.

(** A generated claim ID that is not used any more. *)
Lemma sound_drop ord sup clock used gs sp i g :
  sound ord sup clock used gs sp → gs !! i = Some g →
  sound ord sup clock used (<[i := mkGhost (g_time g) None (g_job g)]> gs) sp.
Proof.
  intros Hs Hg. pose proof (sn_ghost _ _ _ _ _ _ Hs _ _ Hg) as [Ht Hn Hjob].
  eapply sound_ghost; [done|done|by split| | |done|].
  - intros c [?|Ho]; [done|]. assert (owns g c) as Ho' by (right; exact Ho). split; [|by left].
    by eapply (cl_owned _ _ _ _ (sn_claims _ _ _ _ _ _ Hs)).
  - intros c Hc. split; [by apply (cl_spent _ _ _ _ (sn_claims _ _ _ _ _ _ Hs))|by left].
  - intros j Hj. by eapply (cl_give_up _ _ _ _ (sn_claims _ _ _ _ _ _ Hs)).
Qed.

(** The claim is given up while the operation waits under it. *)
Lemma sound_give_up ord sup clock used gs sp i g j row :
  sound ord sup clock used gs sp → gs !! i = Some g → g_job g = Some j →
  db_deletions sup !! j_op j = Some row → dr_State row = DeletionRequested → dr_ClaimID row = Some (j_claim j) →
  sound ord sup clock used (<[i := know KSpent g]> gs) ({[j_claim j]} ∪ sp).
Proof.
  intros Hs Hg Hj Hrow Hst Hcl. pose proof (sn_ghost _ _ _ _ _ _ Hs _ _ Hg) as [Ht Hn Hjob].
  assert (g_job (know KSpent g) = Some (with_fact KSpent j)) as Hj' by (simpl; by rewrite Hj).
  destruct (Hjob j Hj) as (Hu & Hcan & row2 & Hl & Hsup & Hle & _). rewrite Hrow in Hl. injection Hl as <-.
  eapply sound_ghost; [done|done| | | |set_solver|].
  - split; [done| |].
    + intros c Hc. destruct (Hn c Hc) as (? & ? & ? & Hne). split_and!; try done.
      intros j2. rewrite Hj'. intros [= <-]. by apply (Hne j).
    + intros j2. rewrite Hj'. intros [= <-]. split_and!; [done|done|]. exists row. split_and!; try done.
      right. right. split_and!; [done|done|by apply Hle].
  - intros c [Hc|(j2 & Hj2 & _ & Hk)]; last first. { rewrite Hj' in Hj2. by injection Hj2 as <-. }
    assert (owns g c) as Ho by by left. split; [|by left].
    rewrite elem_of_union, elem_of_singleton. intros [->|Hsp].
    + destruct (Hn _ Hc) as (_ & _ & _ & Hne). by apply (Hne j).
    + by apply (cl_owned _ _ _ _ (sn_claims _ _ _ _ _ _ Hs) i g c).
  - intros c [->%elem_of_singleton|Hc]%elem_of_union.
    + split; [done|]. destruct (decide (j_fact j = KSpent)) as [Hk|Hk].
      * left. by eapply (cl_give_up _ _ _ _ (sn_claims _ _ _ _ _ _ Hs)).
      * right. right. by exists j.
    + split; [by apply (cl_spent _ _ _ _ (sn_claims _ _ _ _ _ _ Hs))|by left].
  - intros j2. rewrite Hj'. intros [= <-] _. set_solver.
Qed.

(** ** Store calls *)

(** The world after a call, with the ghost state [g'] of its worker. *)
Definition call_ok (ord : ODB) (sup sup' : SDB) clock used (gs : gmap nat ghost) sp (i : nat) (g' : ghost) : Prop :=
  ∃ sp', sound ord sup' clock used (<[i := g']> gs) sp' ∧
    ∀ rq l, flight_ok sup clock sp rq l → flight_ok sup' clock sp' rq l.

Lemma call_ok_intro ord sup sup' clock used gs sp i g :
  sound ord sup' clock used gs sp → gs !! i = Some g →
  (∀ rq l, flight_ok sup clock sp rq l → flight_ok sup' clock sp rq l) →
  call_ok ord sup sup' clock used gs sp i g.
Proof. intros Hs Hg Hfl. exists sp. by rewrite (insert_id gs i g). Qed.

Lemma call_ok_same ord sup clock used gs sp i g :
  sound ord sup clock used gs sp → gs !! i = Some g → call_ok ord sup sup clock used gs sp i g.
Proof. intros Hs Hg. by apply call_ok_intro. Qed.

Lemma deletion_created_sound ord sup clock used gs sp o row :
  sound ord sup clock used gs sp → db_deletions sup !! o = None → canonical o → canonical (dr_SupplierID row) →
  dr_OperationID row = o → deletion_check row = true → is_Some (db_suppliers sup !! dr_SupplierID row) →
  dr_State row = DeletionRequested → dr_ClaimID row = None →
  sound ord (set_deletions (<[o := row]> (db_deletions sup)) sup) clock used gs sp ∧
  ∀ rq l, flight_ok sup clock sp rq l → flight_ok (set_deletions (<[o := row]> (db_deletions sup)) sup) clock sp rq l.
Proof.
  intros [[W1 [S1 S2 S3] W3 W4 W5 W6 W7] [C1 C2 C3 C4 C5] G] Hn Ho Hsc Hop Hck Hsr Hst Hcl.
  set (sup' := set_deletions _ sup).
  assert (∀ o2 r, db_deletions sup !! o2 = Some r → db_deletions sup' !! o2 = Some r) as Hkeep.
  { intros o2 r Hl. simpl. by rewrite lookup_insert_ne by congruence. }
  assert (∀ o2 r, db_deletions sup' !! o2 = Some r → r = row ∧ o2 = o ∨ db_deletions sup !! o2 = Some r) as Hold.
  { intros o2 r Hl. simpl in Hl. apply lookup_insert_Some in Hl as [[-> ->]|[_ ?]]; auto. }
  split; [split|].
  - split; [done| |done| | | |].
    + split.
      * intros o2 r [[-> ->]|Hl]%Hold; [done|by apply S1].
      * intros o2 r [[-> ->]|Hl]%Hold Hd; [by rewrite Hst in Hd|by eapply S2].
      * intros s r Hr Hd. destruct (S3 s r Hr Hd) as (o2 & r2 & Hl & ? & ?). exists o2, r2. eauto.
    + intros o2 r [[-> ->]|Hl]%Hold Hd; [by rewrite Hst in Hd|by apply W4].
    + intros o2 Hf. destruct (W5 _ Hf) as (r & Hl & ?). eauto.
    + intros o2 r [[-> ->]|Hl]%Hold Hd; [by rewrite Hst in Hd|by eapply W6].
    + intros o2 r [[-> ->]|Hl]%Hold Hd; [by rewrite Hst in Hd|by eapply W7].
  - split; try done. intros o2 r c [[-> ->]|Hl]%Hold Hc; [congruence|by eapply C1].
  - intros i g Hg. destruct (G i g Hg) as [Ht Hnew Hj]. split; [done| |].
    + intros c Hc. destruct (Hnew c Hc) as (? & ? & Hun & ?). split_and!; try done.
      intros o2 r [[-> ->]|Hl]%Hold; [congruence|by eapply Hun].
    + intros j Hjob. destruct (Hj j Hjob) as (? & ? & r & Hl & ?). split_and!; try done. exists r. eauto.
  - intros rq l. unfold flight_ok. destruct (rq_Route rq); try done; intros (r & Hl & ?); exists r; eauto.
Qed.

(** A transition under the worker's own claim. *)
Lemma held_sound ord sup sup' clock used gs sp i g op c row row' :
  sound ord sup clock used gs sp → gs !! i = Some g → works_on g op c (λ k, k ≠ KSpent) →
  changed_quietly clock c op row row' sup sup' → dr_ClaimID row = Some c →
  (deleted_state (dr_State row') = true → deleted_state (dr_State row) = true) →
  (dr_State row' = DeletionCompleted → fence_in FenceCommitted op ord) →
  (dr_State row' = DeletionRejectedActiveErrands → fence_in FenceReleased op ord) →
  sound ord sup' clock used gs sp ∧ ∀ rq l, flight_ok sup clock sp rq l → flight_ok sup' clock sp rq l.
Proof.
  intros Hs Hg (j & Hj & Hop & Hcj & Hk) [Hch Hq] Hcl Hdel Hcom Hrel.
  assert (c ∉ sp) as Hsp.
  { apply (cl_owned _ _ _ _ (sn_claims _ _ _ _ _ _ Hs) i g); [done|]. right. by exists j. }
  assert (c ∈ used) as Hu by by eapply (cl_used _ _ _ _ (sn_claims _ _ _ _ _ _ Hs)); [apply Hch|].
  pose proof (sd_deleted _ (wo_sup _ _ (sn_world _ _ _ _ _ _ Hs))) as Hsd.
  split.
  - split.
    + eapply changed_world; try done; rewrite ?Hq; try by eauto.
      * intros H1 H2. by rewrite Hdel in H2.
      * intros Hd. eapply Hsd; [apply Hch|by apply Hdel].
    + by eapply changed_claims.
    + intros i2 g2 Hg2. by eapply changed_ghosts.
  - intros rq l. by eapply changed_flights.
Qed.

Lemma works_canonical ord sup clock used gs sp i g op c ks :
  sound ord sup clock used gs sp → gs !! i = Some g → works_on g op c ks → canonical op ∧ canonical c.
Proof.
  intros Hs Hg (j & Hj & <- & <- & _).
  destruct (go_job _ _ _ _ _ (sn_ghost _ _ _ _ _ _ Hs _ _ Hg) j Hj) as (_ & Hc & row & Hl & _).
  split; [|done]. by apply (sd_row _ (wo_sup _ _ (sn_world _ _ _ _ _ _ Hs)) _ _ Hl).
Qed.

Lemma works_weaken g op c (ks ks' : fact → Prop) : (∀ k, ks k → ks' k) → works_on g op c ks → works_on g op c ks'.
Proof. intros Hk (j & ? & ? & ? & ?). exists j. auto. Qed.

(** The soft delete, under a fence that stands. *)
Lemma deleted_sound ord sup sup' clock used gs sp i g s op c now u :
  sound ord sup clock used gs sp → gs !! i = Some g → works_on g op c (λ k, k = KFenced) →
  (∀ j, g_job g = Some j → j_sup j = s) →
  DeleteCurrentAndMarkCommitPending s op c now sup = Ok (u, sup') →
  sound ord sup' clock used gs sp ∧ (∀ rq l, flight_ok sup clock sp rq l → flight_ok sup' clock sp rq l) ∧
  ∃ row', db_deletions sup' !! op = Some row' ∧ deleted_state (dr_State row') = true.
Proof.
  intros Hs Hg Hw Hsup Hrun. destruct (works_canonical _ _ _ _ _ _ _ _ _ _ _ Hs Hg Hw) as [Hop Hc].
  destruct Hw as (j & Hj & Hoj & Hcj & Hk). specialize (Hsup j Hj).
  destruct (go_job _ _ _ _ _ (sn_ghost _ _ _ _ _ _ Hs _ _ Hg) j Hj) as (Hu & _ & row0 & Hl0 & Hs0 & _ & Hf).
  assert (canonical s) as Hcs.
  { rewrite <- Hsup, <- Hs0. by apply (sd_row _ (wo_sup _ _ (sn_world _ _ _ _ _ _ Hs)) _ _ Hl0). }
  destruct (Delete_inv _ _ _ _ _ _ _ clock Hcs Hop Hc Hrun)
    as (row & row' & sr & Hch & Hcl & Hst & Hsr & Hst' & Hdel & Hex & Hq).
  pose proof Hch as (Hl & _). rewrite Hoj, Hl in Hl0. injection Hl0 as <-.
  unfold fact_ok in Hf. rewrite Hk, Hcj, Hoj, Hsup in Hf. specialize (Hf Hst Hcl).
  assert (c ∉ sp) as Hsp.
  { apply (cl_owned _ _ _ _ (sn_claims _ _ _ _ _ _ Hs) i g); [done|]. right. exists j. by rewrite Hk. }
  rewrite Hcj in Hu. split_and!.
  - split.
    + eapply changed_world; try done; rewrite ?Hq, ?Hsr.
      * done.
      * intros s2 r' [[-> ->]|[Hne Hr]]%lookup_insert_Some Hd; [left; by rewrite Hst'|right; eauto].
      * intros s2 r Hr. destruct (decide (s2 = s)) as [->|Hne].
        { exists sr. by rewrite lookup_insert_eq. }
        exists r. by rewrite lookup_insert_ne.
      * intros _. exists sr. by rewrite lookup_insert_eq.
      * by rewrite Hst'.
      * by rewrite Hst'.
    + by eapply changed_claims.
    + intros i2 g2 Hg2. by eapply changed_ghosts.
  - intros rq l. by eapply changed_flights.
  - exists row'. split; [by eapply changed_self|by rewrite Hst'].
Qed.

(** A claim: the worker has a new job, or lost the claim ID. *)
Lemma claim_sound ord sup sup' clock used gs sp i g op c now lease r :
  sound ord sup clock used gs sp → gs !! i = Some g → g_new g = Some c → now ≤ g_time g →
  ClaimDeletion op c now lease sup = Ok (r, sup') →
  call_ok ord sup sup' clock used gs sp i (mkGhost (g_time g) None (g_job g)) ∧
  ∀ rec, r = Some rec → call_ok ord sup sup' clock used gs sp i (mkGhost (g_time g) None (Some (job_of c rec))) ∧
    is_Some (dl_LeaseExpiresAt rec).
Proof.
  intros Hs Hg Hn Hnow Hrun. pose proof (sn_ghost _ _ _ _ _ _ Hs _ _ Hg) as [Ht Hnew Hjob].
  destruct (Hnew c Hn) as (Hu & Hcan & Hun & Hne). pose proof (sn_claims _ _ _ _ _ _ Hs) as Hcl.
  assert (c ∉ sp) as Hsp by (apply (cl_owned _ _ _ _ Hcl i g); [done|by left]).
  pose proof (sound_drop _ _ _ _ _ _ _ _ Hs Hg) as Hs0. set (gs0 := <[i:=mkGhost (g_time g) None (g_job g)]> gs) in *.
  assert (∀ i2 g2, gs0 !! i2 = Some g2 → g_new g2 ≠ Some c ∧ ∀ j, g_job g2 = Some j → j_claim j ≠ c) as Hno.
  { intros i2 g2 [[-> <-]|[Hi2 Hg2]]%lookup_insert_Some; [done|]. split.
    - intros Hn2. apply Hi2. by apply (cl_apart _ _ _ _ Hcl i i2 g g2 c); [..|left|left].
    - intros j Hj <-. destruct (decide (j_fact j = KSpent)) as [Hk|Hk].
      + apply Hsp. by eapply (cl_give_up _ _ _ _ Hcl).
      + apply Hi2. apply (cl_apart _ _ _ _ Hcl i i2 g g2 (j_claim j)); [done|done|by left|right; by exists j]. }
  assert (now ≤ clock) as Hclk by lia.
  destruct (Claim_inv _ _ _ _ _ _ _ clock Hcan Hclk stored_time_le Hun Hrun)
    as [[-> ->]|(o & row & row' & Ho & [Hch Hq] & -> & Hst & Hcl' & Hle & Hopen)].
  { split; [|done]. exists sp. by split. }
  pose proof (sd_deleted _ (wo_sup _ _ (sn_world _ _ _ _ _ _ Hs))) as Hsd. pose proof Hch as (Hrow & _).
  assert (sound ord sup' clock used gs0 sp) as Hs1.
  { split.
    - eapply changed_world; try done; rewrite ?Hq, ?Hst; try by eauto.
      + intros H1 H2. congruence.
      + intros Hd. by apply (wo_completed _ _ (sn_world _ _ _ _ _ _ Hs) o row).
      + intros Hd. by apply (wo_rejected _ _ (sn_world _ _ _ _ _ _ Hs) o row).
    - by eapply changed_claims.
    - intros i2 g2 Hg2. by eapply changed_ghosts. }
  assert (∀ rq l, flight_ok sup clock sp rq l → flight_ok sup' clock sp rq l) as Hfl.
  { intros rq l. by eapply changed_flights. }
  split; [by exists sp|]. intros rec [= <-]. split; [|simpl; rewrite Hle; by eexists]. exists sp. split; [|done].
  match goal with |- sound _ _ _ _ (<[i := ?g']> gs) _ =>
    replace (<[i := g']> gs) with (<[i := g']> gs0) by apply insert_insert_eq end.
  eapply sound_ghost; [exact Hs1|apply lookup_insert_eq| | | |done|].
  - split; [done|done|]. intros j [= <-].
    destruct (sd_row _ (wo_sup _ _ (sn_world _ _ _ _ _ _ Hs1)) o row' ltac:(by eapply changed_self)) as (_ & _ & Hop & _).
    split_and!; [done|done|]. exists row'. simpl. rewrite Hop. split_and!; [by eapply changed_self|done|by rewrite Hle|].
    unfold fact_ok, job_of. simpl. rewrite Hst. by destruct (dr_State row).
  - intros c2 [?|(j & [= <-] & <- & _)]; [done|]. split; [done|]. right. intros i2 g2 Hi2 Hg2 [Hn2|(j & Hj & Hc2 & _)].
    + by apply (Hno i2 g2 Hg2).
    + by apply (proj2 (Hno i2 g2 Hg2) j Hj).
  - intros c2 Hc2. split; [by apply (cl_spent _ _ _ _ Hcl)|by left].
  - intros j [= <-]. simpl. by destruct (dr_State row').
Qed.

(** The job after a call is the one its lease belongs to. *)
Definition lease_ok (g : ghost) (l : option Z) : Prop := ∀ j, g_job g = Some j → l = Some (j_lease j).

Lemma lease_know k g l : lease_ok g l → lease_ok (know k g) l.
Proof. intros Hl j Hj. simpl in Hj. apply fmap_Some in Hj as (j0 & Hj0 & ->). exact (Hl j0 Hj0). Qed.

Definition store_ok_at {A} (c : StoreCall A) : Prop :=
  ∀ ord sup sup' clock used gs sp i g l r,
    sound ord sup clock used gs sp → gs !! i = Some g → lease_ok g l → allowed_store g c →
    run_call c sup = (r, sup') →
    (∀ e, call_ok ord sup sup' clock used gs sp i (learn_store g c (Err e))) ∧
    call_ok ord sup sup' clock used gs sp i (learn_store g c r) ∧ lease_ok (learn_store g c r) (granted c r l).

(** Calls whose answer teaches nothing. *)
Lemma quiet_call_ok {A} (c : StoreCall A) :
  (∀ g r, learn_store g c r = g) → (∀ r l, granted c r l = l) →
  (∀ ord sup sup' clock used gs sp i g r,
    sound ord sup clock used gs sp → gs !! i = Some g → allowed_store g c → run_call c sup = (r, sup') →
    call_ok ord sup sup' clock used gs sp i g) → store_ok_at c.
Proof.
  intros Hl Hg Hc ord sup sup' clock used gs sp i g l r Hs Hi Hle Ha Hr. rewrite Hg.
  split; [intros e; rewrite Hl; by eapply Hc|]. rewrite Hl. split; [by eapply Hc|done].
Qed.

Lemma held_call_ok ord sup sup' clock used gs sp i g (op c : string) (m : M SDB SupError unit) r :
  sound ord sup clock used gs sp → gs !! i = Some g → works_on g op c (λ k, k ≠ KSpent) → inTx m sup = (r, sup') →
  (∀ u, m sup = Ok (u, sup') → ∃ row row', changed_quietly clock c op row row' sup sup' ∧ dr_ClaimID row = Some c ∧
     (deleted_state (dr_State row') = true → deleted_state (dr_State row) = true) ∧
     (dr_State row' = DeletionCompleted → fence_in FenceCommitted op ord) ∧
     (dr_State row' = DeletionRejectedActiveErrands → fence_in FenceReleased op ord)) →
  call_ok ord sup sup' clock used gs sp i g.
Proof.
  intros Hs Hg Hw Htx Hm. apply inTx_inv in Htx as [(u & -> & Hrun)|(e & -> & -> & _)]; [|by apply call_ok_same].
  destruct (Hm u Hrun) as (row & row' & Hch & Hcl & Hd & Hcom & Hrel).
  destruct (held_sound _ _ _ _ _ _ _ _ _ _ _ _ _ Hs Hg Hw Hch Hcl Hd Hcom Hrel) as [Hs' Hfl].
  by apply call_ok_intro.
Qed.

(** A fact of the job, for the operation a call names. *)
Lemma works_fact ord sup clock used gs sp i g op c ks :
  sound ord sup clock used gs sp → gs !! i = Some g → works_on g op c ks →
  ∃ j row, g_job g = Some j ∧ j_op j = op ∧ j_claim j = c ∧ ks (j_fact j) ∧ db_deletions sup !! op = Some row ∧
    fact_ok ord clock j row.
Proof.
  intros Hs Hg (j & Hj & <- & <- & Hk).
  destruct (go_job _ _ _ _ _ (sn_ghost _ _ _ _ _ _ Hs _ _ Hg) j Hj) as (_ & _ & row & Hl & _ & _ & Hf).
  exists j, row. by split_and!.
Qed.

Lemma create_call_ok op s m now : store_ok_at (CCreateOrGet op s m now).
Proof.
  apply quiet_call_ok; [done|done|]. intros ord sup sup' clock used gs sp i g r Hs Hg _ Hr. simpl in Hr.
  apply CreateOrGet_inv in Hr as [->|(o & s' & row & Ho & Hs' & Hn & Hex & Hst & Hcl & Hsup & Hop & Hck & ->)];
    [by apply call_ok_same|].
  destruct (deletion_created_sound _ _ _ _ _ _ o row Hs) as [Hs1 Hfl]; rewrite ?Hsup; try done; try by eapply cast_canonical.
  by apply call_ok_intro.
Qed.

Lemma list_call_ok now limit : store_ok_at (CList now limit).
Proof.
  apply quiet_call_ok; [done|done|]. intros ord sup sup' clock used gs sp i g r Hs Hg _ Hr. simpl in Hr.
  apply inTx_inv in Hr as [(rs & -> & Hrun)|(e & -> & -> & _)]; [|by apply call_ok_same].
  unfold ListClaimableDeletions in Hrun. destruct (_ || _)%bool; [done|].
  apply bind_Ok in Hrun as (rows & d & [= _ <-] & [= _ <-]). by apply call_ok_same.
Qed.

Lemma retry_call_ok op c code next now : store_ok_at (CRetry op c code next now).
Proof.
  apply quiet_call_ok; [done|done|]. intros ord sup sup' clock used gs sp i g r Hs Hg Ha Hr. simpl in Ha, Hr.
  destruct (works_canonical _ _ _ _ _ _ _ _ _ _ _ Hs Hg Ha) as [Hop Hc].
  eapply held_call_ok; [done|done|exact Ha|exact Hr|]. intros u Hrun.
  destruct (Retry_inv _ _ _ _ _ _ _ _ clock Hop Hc Hrun) as (row & row' & [Hch Hq] & Hcl & Hst).
  exists row, row'. pose proof Hch as (Hl & _). pose proof (sn_world _ _ _ _ _ _ Hs) as W. rewrite Hst.
  split_and!; try done; intros ?; [by apply (wo_completed _ _ W op row)|by apply (wo_rejected _ _ W op row)].
Qed.

Lemma reject_call_ok op c now : store_ok_at (CMarkRejected op c now).
Proof.
  apply quiet_call_ok; [done|done|]. intros ord sup sup' clock used gs sp i g r Hs Hg Ha Hr. simpl in Ha, Hr.
  destruct (works_canonical _ _ _ _ _ _ _ _ _ _ _ Hs Hg Ha) as [Hop Hc].
  destruct (works_fact _ _ _ _ _ _ _ _ _ _ _ Hs Hg Ha) as (j & row0 & _ & Hoj & _ & Hk & _ & Hf).
  eapply held_call_ok; [done|done|by eapply works_weaken, Ha; intros ? ->|exact Hr|]. intros u Hrun.
  destruct (MarkRejected_inv _ _ _ _ _ _ clock Hop Hc Hrun) as (row & row' & Hch & Hcl & Hst).
  exists row, row'. rewrite Hst. split_and!; try done. intros _. unfold fact_ok in Hf. rewrite Hk, Hoj in Hf. apply Hf.
Qed.

Lemma complete_call_ok op c now : store_ok_at (CComplete op c now).
Proof.
  apply quiet_call_ok; [done|done|]. intros ord sup sup' clock used gs sp i g r Hs Hg Ha Hr. simpl in Ha, Hr.
  destruct (works_canonical _ _ _ _ _ _ _ _ _ _ _ Hs Hg Ha) as [Hop Hc].
  destruct (works_fact _ _ _ _ _ _ _ _ _ _ _ Hs Hg Ha) as (j & row0 & _ & Hoj & _ & Hk & Hl0 & Hf).
  unfold fact_ok in Hf. rewrite Hk, Hoj in Hf. destruct Hf as [Hd Hcom].
  eapply held_call_ok; [done|done|by eapply works_weaken, Ha; intros ? ->|exact Hr|]. intros u Hrun.
  destruct (CompleteDeletion_inv _ _ _ _ _ _ clock Hop Hc Hrun) as (row & row' & Hch & Hcl & Hst).
  exists row, row'. rewrite Hst. split_and!; try done. intros _. destruct Hch as [(Hl & _) _].
  rewrite Hl in Hl0. by injection Hl0 as ->.
Qed.

Lemma call_ok_know ord sup sup' clock used gs sp i g j k :
  sound ord sup' clock used gs sp → (∀ rq l, flight_ok sup clock sp rq l → flight_ok sup' clock sp rq l) →
  gs !! i = Some g → g_job g = Some j → j_fact j ≠ KSpent → k ≠ KSpent →
  (∀ row, db_deletions sup' !! j_op j = Some row → fact_ok ord clock (with_fact k j) row) →
  call_ok ord sup sup' clock used gs sp i (know k g).
Proof. intros Hs Hfl Hg Hj Hjk Hk Hf. exists sp. split; [|done]. eapply sound_know; eauto. Qed.

Lemma mark_call_ok op c now : store_ok_at (CMarkReleasePending op c now).
Proof.
  intros ord sup sup' clock used gs sp i g l r Hs Hg Hle Ha Hr. simpl in Ha, Hr.
  destruct (works_canonical _ _ _ _ _ _ _ _ _ _ _ Hs Hg Ha) as [Hop Hc].
  assert (call_ok ord sup sup' clock used gs sp i g) as Hsame.
  { eapply held_call_ok; [done|done|exact Ha|exact Hr|]. intros u Hrun.
    destruct (MarkReleasePending_inv _ _ _ _ _ _ clock Hop Hc Hrun) as (row & row' & Hch & Hcl & Hst).
    exists row, row'. by rewrite Hst. }
  split; [done|]. split; [|by destruct r; [apply lease_know|]].
  apply inTx_inv in Hr as [(u & -> & Hrun)|(e & -> & -> & _)]; [|done]. simpl.
  destruct (MarkReleasePending_inv _ _ _ _ _ _ clock Hop Hc Hrun) as (row & row' & Hch & Hcl & Hst).
  destruct (held_sound _ _ _ _ _ _ _ _ _ _ _ _ _ Hs Hg Ha Hch Hcl) as [Hs' Hfl]; try by rewrite Hst.
  destruct Ha as (j & Hj & Hoj & _ & Hk). eapply call_ok_know; try done.
  intros row2. rewrite Hoj, (changed_self _ _ _ _ _ _ _ (proj1 Hch)). intros [= <-]. unfold fact_ok. simpl. by rewrite Hst.
Qed.

Lemma delete_call_ok s op c now : store_ok_at (CDelete s op c now).
Proof.
  intros ord sup sup' clock used gs sp i g l r Hs Hg Hle [Ha Hsup] Hr. simpl in Hr.
  assert (lease_ok (learn_store g (CDelete s op c now) r) (granted (CDelete s op c now) r l)) as Hl.
  { by destruct r; [apply lease_know|]. }
  apply inTx_inv in Hr as [(u & -> & Hrun)|(e & -> & -> & _)]; simpl.
  - destruct (deleted_sound _ _ _ _ _ _ _ _ _ _ _ _ _ _ Hs Hg Ha Hsup Hrun) as (Hs' & Hfl & row' & Hl' & Hd).
    split; [intros _; by apply call_ok_intro|]. split; [|done].
    destruct Ha as (j & Hj & Hoj & _ & Hk). eapply call_ok_know; try done; [by rewrite Hk|].
    intros row2. rewrite Hoj, Hl'. by intros [= <-].
  - split; [|split]; try done; intros; by apply call_ok_same.
Qed.

Lemma get_call_ok op : store_ok_at (CGet op).
Proof.
  intros ord sup sup' clock used gs sp i g l r Hs Hg Hle _ Hr. simpl in Hr.
  assert (sup' = sup) as ->.
  { apply inTx_inv in Hr as [(u & _ & Hrun)|(e & _ & -> & _)]; [|done].
    apply bind_Ok in Hrun as (row & d & Hq & Hrun). unfold GetDeletionOperation in Hq.
    apply bind_Ok in Hq as (o & d1 & Ho & [= _ <-]). apply cast_uuid_inv in Ho as [_ ->].
    destruct row; [|done]. by injection Hrun as _ <-. }
  pose proof (call_ok_same _ _ _ _ _ _ _ _ Hs Hg) as Hsame. split; [done|].
  destruct r as [cur|e]; [|done]. simpl. destruct (g_job g) as [j|] eqn:Hj; last first.
  { unfold map_job. rewrite Hj. simpl. destruct g; simpl in *; subst. split; [done|]. intros j. simpl. done. }
  destruct (gives_up op cur j) eqn:Hgu; last first.
  { replace (map_job _ g) with g; [done|]. destruct g as [t n jo]. simpl in Hj. subst jo. unfold map_job. simpl. by rewrite Hgu. }
  replace (map_job _ g) with (know KSpent g).
  2: { unfold know, map_job. rewrite Hj. simpl. by rewrite Hgu. }
  split; [|by apply lease_know]. unfold gives_up in Hgu. bool_props. subst op.
  destruct (go_job _ _ _ _ _ (sn_ghost _ _ _ _ _ _ Hs _ _ Hg) j Hj) as (_ & Hcan & row & Hl & _).
  assert (canonical (j_op j)) as Hop by by apply (sd_row _ (wo_sup _ _ (sn_world _ _ _ _ _ _ Hs)) _ _ Hl).
  apply inTx_inv in Hr as [(u & [= <-] & Hrun)|(e & [=] & _)].
  destruct (GetDeletion_inv _ _ _ _ Hop Hrun) as (_ & row2 & Hl2 & ->). rewrite Hl in Hl2. injection Hl2 as <-.
  simpl in *. assert (dr_ClaimID row = Some (j_claim j)) as Hcl.
  { destruct (dr_ClaimID row) as [c|]; simpl in *; [by subst|]. unfold canonical in Hcan.
    match goal with H : "" = j_claim j |- _ => rewrite <- H in Hcan end. by rewrite uuid_cast_empty in Hcan. }
  exists ({[j_claim j]} ∪ sp). split; [by eapply sound_give_up|].
  intros rq l2. apply flight_mono; [lia|set_solver].
Qed.

Lemma claim_call_ok op c now lease : store_ok_at (CClaim op c now lease).
Proof.
  intros ord sup sup' clock used gs sp i g l r Hs Hg Hle [Hn Hnow] Hr. simpl in Hr.
  apply inTx_inv in Hr as [(u & -> & Hrun)|(e & -> & -> & _)]; simpl.
  - destruct (claim_sound _ _ _ _ _ _ _ _ _ _ _ _ _ _ Hs Hg Hn Hnow Hrun) as [Hd Hrec].
    split; [done|]. destruct u as [rec|]; [|by split]. destruct (Hrec rec eq_refl) as [Hc [l2 Hl2]].
    split; [done|]. intros j [= <-]. simpl. by rewrite Hl2.
  - assert (call_ok ord sup sup clock used gs sp i (mkGhost (g_time g) None (g_job g))) as Hd.
    { exists sp. split; [by eapply sound_drop|done]. }
    by split.
Qed.

Lemma store_call_ok {A} (c : StoreCall A) : store_ok_at c.
Proof.
  destruct c; auto using create_call_ok, get_call_ok, list_call_ok, claim_call_ok, mark_call_ok, reject_call_ok,
    delete_call_ok, complete_call_ok, retry_call_ok.
Qed.

(** A call that failed before it reached the database. *)
Lemma store_lost_ok {A} (c : StoreCall A) ord sup clock used gs sp i g e :
  sound ord sup clock used gs sp → gs !! i = Some g → call_ok ord sup sup clock used gs sp i (learn_store g c (Err e)).
Proof.
  intros Hs Hg. destruct c; simpl; try by apply call_ok_same. exists sp. split; [by eapply sound_drop|done].
Qed.

End safe.
