(* ===== verification/DeletionInv.v ===== *)
(** * Guarded deletion: every step keeps the invariant *)

From S2P Require Import Prelude Proc GoText Json GoTime Errand ErrandState ErrandJson ErrandInv ErrandStore Fence StoreInv StoreSafe StoreSystem Deletion FenceWire DeleteWork DeletionLogic DeletionSystem DeletionEffect DeletionSafe.

Local Open Scope string_scope.
Open Scope Z_scope.

Section inv.
Context `{Hpg : Postgres, Hpgok : !PostgresOk, Huu : !UuidText}.

(** ** Order-service moves *)

(** An operation that relies on its fence: the supplier is deleted, or a
    worker may be about to delete it. *)
Definition relies (sp : gset string) (row : DeletionRow) : Prop :=
  deleted_state (dr_State row) = true ∨
  dr_State row = DeletionRequested ∧ ∃ c, dr_ClaimID row = Some c ∧ (c ∉ sp).

Lemma fence_in_kept st o m m' db db' :
  m = db_fences db → m' = db_fences db' → fence_kept m m' → st ≠ FenceOpen → fence_in st o db → fence_in st o db'.
Proof.
  intros -> -> Hk Hst (f & Hl & Hf). destruct (Hk _ _ Hl) as (f' & Hl' & _ & Heq). exists f'.
  rewrite Heq by congruence. split; [|done]. by rewrite <- Heq by congruence.
Qed.

Lemma order_sound ord ord' sup clock used gs sp :
  sound ord sup clock used gs sp → store_ok ord' → fences_canon ord' →
  fence_kept (db_fences ord) (db_fences ord') →
  (∀ o row, db_deletions sup !! o = Some row → relies sp row → good o (dr_SupplierID row) ord →
     good o (dr_SupplierID row) ord') →
  (∀ o, fence_in FenceCommitted o ord' → fence_in FenceCommitted o ord ∨
     ∃ row, db_deletions sup !! o = Some row ∧ deleted_state (dr_State row) = true) →
  sound ord' sup clock used gs sp.
Proof.
  intros [[W1 W2 W3 W4 W5 W6 W7] C G] Hok Hcan Hk Hgood Hcom.
  assert (∀ st o, st ≠ FenceOpen → fence_in st o ord → fence_in st o ord') as Hin.
  { intros st o Hst. by eapply fence_in_kept. }
  split; [|done|].
  - split; try done.
    + intros o row Hl Hd. apply Hgood; [done|by left|by apply W4].
    + intros o Hf. by destruct (Hcom o Hf) as [?%W5|?].
    + intros o row Hl Hst. apply Hin; [done|by eapply W6].
    + intros o row Hl Hst. apply Hin; [done|by eapply W7].
  - intros i g Hg. destruct (G i g Hg) as [Ht Hn Hj]. split; [done|done|].
    intros j Hjob. destruct (Hj j Hjob) as (? & ? & row & Hl & Hsup & Hle & Hf). split_and!; [done|done|].
    exists row. split_and!; try done. unfold fact_ok in *. destruct (j_fact j) eqn:Hfact; try done.
    + intros Hst Hcl. rewrite <- Hsup. apply Hgood; [done| |rewrite Hsup; by apply Hf].
      right. split; [done|]. exists (j_claim j). split; [done|].
      apply (cl_owned _ _ _ _ C i g); [done|]. right. exists j. by rewrite Hfact.
    + destruct Hf. split; [done|by apply Hin].
    + destruct Hf. split; [done|by apply Hin].
Qed.

(** A request that is served, late or not. *)
Lemma served_sound sub ord ord' sup clock used gs sp rq l resp :
  sound ord sup clock used gs sp → flight_ok sup clock sp rq l →
  (rq_Route rq = RRelease → ∀ row, db_deletions sup !! rq_OperationID rq = Some row →
     rejecting (dr_State row) = false → ∃ l0, l = Some l0 ∧ clock < l0) →
  serve_fence (Some sub) rq ord = (resp, ord') → sound ord' sup clock used gs sp ∧ grows ord ord'.
Proof.
  intros Hs Hfl Htime Hserve. destruct (serve_change _ _ _ _ _ Hserve) as [Hfo Hch].
  pose proof (sn_world _ _ _ _ _ _ Hs) as W.
  destruct (fences_step _ _ (wo_ord _ _ W) Hfo) as [Hok' Hgr]. split; [|done].
  assert (∀ o, canonical o → to_lower o = o) as Hlow by (intros o Ho; by apply canonical_text).
  assert (∀ s, no_active s ord → no_active s ord') as Hna by (intros s; by apply fences_quiet).
  assert (fences_canon ord') as Hcan'.
  { intros o f0 Hl0. pose proof (wo_canon _ _ W) as Hcan.
    destruct Hch as [Heq|o1 f1 _ _ _ Hc1 Heq|f1 Hl1 _ [[_ Heq]|[_ Heq]]]; rewrite Heq in Hl0;
      [by eapply Hcan|apply lookup_insert_Some in Hl0 as [[_ <-]|[_ ?]]; [|by eapply Hcan]..];
      [done|by apply (Hcan _ _ Hl1)..]. }
  apply (order_sound ord); try done; [by apply fences_only_kept| |].
  - intros o row Hl Hrel (f & Hf & Hsup & Hst & Hidle).
    assert (∀ f', db_fences ord' !! o = Some f' → fr_SupplierID f' = fr_SupplierID f → fr_State f' ≠ FenceReleased →
      good o (dr_SupplierID row) ord') as Hgood by (intros f' ? ? ?; exists f'; split_and!; auto; congruence).
    destruct Hch as [Heq|o1 f1 _ Hn1 _ _ Heq|f1 Hl1 Ho1 Hcase].
    + eapply Hgood; [by rewrite Heq|done|done].
    + eapply Hgood; [rewrite Heq; rewrite lookup_insert_ne; [done|congruence]|done|done].
    + destruct (decide (o = to_lower (rq_OperationID rq))) as [->|Hne].
      2: { eapply Hgood; [|done|done]. destruct Hcase as [[_ ->]|[_ ->]]; by rewrite lookup_insert_ne. }
      rewrite Hl1 in Hf. injection Hf as <-. destruct Hcase as [[_ Heq]|[Hroute Heq]].
      * eapply Hgood; [rewrite Heq; apply lookup_insert_eq|done|done].
      * exfalso. unfold flight_ok in Hfl. rewrite Hroute in Hfl. destruct Hfl as (row2 & Hl2 & Hcase2).
        rewrite Hlow in Hl by by apply (sd_row _ (wo_sup _ _ W) _ _ Hl2).
        rewrite Hl in Hl2. injection Hl2 as <-.
        assert (rejecting (dr_State row) = true → False) as Hnr.
        { intros Hr. destruct Hrel as [Hd|[Hd _]]; by destruct (dr_State row). }
        destruct Hcase2 as [?|(c & l0 & Hc & -> & [?|[Hle|(Hreq & Hcl & _)]])]; [auto|auto| |].
        -- destruct (rejecting (dr_State row)) eqn:Hr; [auto|].
           destruct (Htime Hroute row Hl Hr) as (l1 & [= <-] & ?). lia.
        -- destruct Hrel as [Hd|[_ (c2 & Hc2 & Hsp)]]; [by rewrite Hreq in Hd|]. congruence.
  - intros o (f & Hl & Hst). destruct Hch as [Heq|o1 f1 _ _ Ho1 _ Heq|f1 Hl1 _ Hcase].
    + left. exists f. by rewrite <- Heq.
    + rewrite Heq in Hl. apply lookup_insert_Some in Hl as [[_ <-]|[_ Hl]]; [congruence|]. left. by exists f.
    + destruct Hcase as [[Hroute Heq]|[Hroute Heq]]; rewrite Heq in Hl;
        (apply lookup_insert_Some in Hl as [[<- <-]|[_ Hl]]; [|left; by exists f]); [|done].
      right. unfold flight_ok in Hfl. rewrite Hroute in Hfl. destruct Hfl as (row & Hl & Hd). exists row.
      rewrite Hlow by by apply (sd_row _ (wo_sup _ _ W) _ _ Hl). done.
Qed.

(** The request of a worker is one that may arrive late. *)
Lemma request_flight ord sup clock used gs sp i g rq l :
  sound ord sup clock used gs sp → gs !! i = Some g → allowed_http g rq → lease_ok g l → flight_ok sup clock sp rq l.
Proof.
  intros Hs Hg Ha Hle. unfold allowed_http in Ha. unfold flight_ok. destruct (rq_Route rq); try done;
    destruct Ha as (j & Hj & <- & Hk);
    destruct (go_job _ _ _ _ _ (sn_ghost _ _ _ _ _ _ Hs _ _ Hg) j Hj) as (_ & _ & row & Hl & _ & _ & Hf);
    exists row; (split; [done|]); unfold fact_ok in Hf.
  - destruct Hk as [Hk|Hk]; rewrite Hk in Hf; [done|by destruct Hf].
  - destruct Hk as [Hk|[Hk|Hk]]; rewrite Hk in Hf; [by left|left; by destruct Hf|].
    right. exists (j_claim j), (j_lease j). split_and!; [|by apply Hle|done].
    by apply (cl_give_up _ _ _ _ (sn_claims _ _ _ _ _ _ Hs) i g j).
Qed.

Lemma EqualFold_canonical s t : canonical s → canonical t → EqualFold s t = true → s = t.
Proof.
  intros Hs Ht Heq. unfold EqualFold in Heq. bool_props.
  destruct (canonical_text _ Hs) as (_ & Hls & _), (canonical_text _ Ht) as (_ & Hlt & _). congruence.
Qed.

(** What an answer teaches is true. *)
Lemma answer_sound ord sup clock used gs sp i g rq r :
  sound ord sup clock used gs sp → gs !! i = Some g →
  (∀ f, attempt_result r = Ok f → canonical (rq_OperationID rq) → reports (rq_OperationID rq) f ord) →
  sound ord sup clock used (<[i := map_job (learn_fence rq r) g]> gs) sp.
Proof.
  intros Hs Hg Hrep. assert (sound ord sup clock used (<[i:=g]> gs) sp) as Hsame by by rewrite insert_id.
  destruct (g_job g) as [j|] eqn:Hj; last first.
  { replace (map_job _ g) with g; [done|]. destruct g as [t n jo]. simpl in Hj. by subst jo. }
  assert (map_job (learn_fence rq r) g = know (j_fact (learn_fence rq r j)) g) as ->.
  { unfold know, map_job. rewrite Hj. simpl. unfold learn_fence. destruct (attempt_result r) as [f|]; [|by destruct j].
    by destruct (_ && _)%bool; destruct j. }
  destruct (decide (j_fact (learn_fence rq r j) = j_fact j)) as [->|Hnew].
  { by rewrite (know_same g j Hj). }
  unfold learn_fence in *. destruct (attempt_result r) as [f|] eqn:Hr; [|done].
  destruct (bool_decide (rq_OperationID rq = j_op j) && _)%bool eqn:Hop; [|done].
  apply andb_true_iff in Hop as [Hop _]. bool_props. simpl in *. unfold fence_fact in *.
  pose proof (sn_world _ _ _ _ _ _ Hs) as W.
  destruct (go_job _ _ _ _ _ (sn_ghost _ _ _ _ _ _ Hs _ _ Hg) j Hj) as (_ & _ & row0 & Hl0 & Hsup0 & _ & Hf0).
  destruct (sd_row _ (wo_sup _ _ W) _ _ Hl0) as (Hcop & Hcsup & _). rewrite Hsup0 in Hcsup. rewrite Hop in Hrep.
  destruct (Hrep f eq_refl Hcop) as (fr & Hlf & Hsf & Hst & Hidle).
  assert (∀ st, df_State f = wireState st → fence_in st (j_op j) ord) as Hin.
  { intros st Hst'. exists fr. split; [done|]. apply (inj wireState). congruence. }
  unfold fact_ok in Hf0.
  destruct (bool_decide (df_State f = DFenceReleased) && _)%bool eqn:E1;
    [|destruct (bool_decide (df_State f = DFenceCommitted) && _)%bool eqn:E2;
      [|destruct (EqualFold _ _ && _ && _)%bool eqn:E3; [|done]]]; bool_props; eapply sound_know; eauto; try congruence;
    intros row Hl _; rewrite Hl0 in Hl; injection Hl as <-; unfold fact_ok; simpl.
  - match goal with H : j_fact j = KReleasing |- _ => rewrite H in Hf0 end. split; [done|by apply (Hin FenceReleased)].
  - match goal with H : j_fact j = KDeleted |- _ => rewrite H in Hf0 end. split; [done|by apply (Hin FenceCommitted)].
  - intros Hreq _. assert (fr_SupplierID fr = j_sup j) as Hsf'.
    { rewrite <- Hsf. apply EqualFold_canonical; [rewrite Hsf; by apply (wo_canon _ _ W _ _ Hlf)|done|done]. }
    match goal with H : (_ || _)%bool = true |- _ => apply orb_true_iff in H as [Hopen|Hcom] end.
    + apply andb_true_iff in Hopen as [Ho Hna]. bool_props. exists fr. rewrite <- Hsf'. split_and!; [done|done| |auto].
      destruct (Hin FenceOpen Ho) as (fr2 & Hl2 & Hst2). rewrite Hlf in Hl2. injection Hl2 as <-. by rewrite Hst2.
    + bool_props. destruct (wo_committed _ _ W _ (Hin FenceCommitted Hcom)) as (row & Hl & Hd).
      rewrite Hl0 in Hl. injection Hl as <-. by rewrite Hreq in Hd.
Qed.

(** ** Time, claim IDs and the catalogue *)

Lemma sound_clock ord sup clock clock' used gs sp :
  clock ≤ clock' → sound ord sup clock used gs sp → sound ord sup clock' used gs sp.
Proof.
  intros Hle [W C G]. split; [done|done|]. intros i g Hg. destruct (G i g Hg) as [Ht Hn Hj].
  split; [lia|done|]. intros j Hjob. destruct (Hj j Hjob) as (? & ? & row & ? & ? & ? & Hf).
  split_and!; [done|done|]. exists row. split_and!; try done. unfold fact_ok in *. destruct (j_fact j); try done.
  unfold given_up in *. intuition lia.
Qed.

Lemma sound_owns_used ord sup clock used gs sp i g c :
  sound ord sup clock used gs sp → gs !! i = Some g → owns g c → c ∈ used.
Proof.
  intros Hs Hg [Hn|(j & Hj & <- & _)]; destruct (sn_ghost _ _ _ _ _ _ Hs _ _ Hg) as [_ Hnew Hjob].
  - by apply Hnew.
  - by apply Hjob.
Qed.

Lemma sound_random ord sup clock used gs sp i g c :
  sound ord sup clock used gs sp → gs !! i = Some g → c ∉ used → canonical c →
  sound ord sup clock ({[c]} ∪ used) (<[i := mkGhost (g_time g) (Some c) (g_job g)]> gs) sp.
Proof.
  intros Hs Hg Hc Hcan. pose proof (sn_claims _ _ _ _ _ _ Hs) as Cl.
  pose proof (sn_ghost _ _ _ _ _ _ Hs _ _ Hg) as [Ht Hn Hj].
  assert (sound ord sup clock ({[c]} ∪ used) gs sp) as Hs1.
  { destruct Hs as [W [C1 C2 C3 C4 C5] G]. split; [done| |].
    - split; try done; [intros o row c2 ? ?; apply elem_of_union; right; by eapply C1|].
      intros c2 ?. apply elem_of_union. right. by apply C2.
    - intros i2 g2 Hg2. destruct (G i2 g2 Hg2) as [? Hn2 Hj2]. split; [done| |].
      + intros c2 Hc2. destruct (Hn2 c2 Hc2) as (? & ? & ? & ?). split_and!; try done. set_solver.
      + intros j Hjob. destruct (Hj2 j Hjob) as (? & ?). split; [set_solver|done]. }
  eapply sound_ghost; [exact Hs1|done| | | |done|].
  - split; [done| |by apply (sn_ghost _ _ _ _ _ _ Hs1 _ _ Hg)]. intros c2 [= <-].
    split_and!; [set_solver|done| |].
    + intros o row Hl Hcl. by apply Hc, (cl_used _ _ _ _ Cl o row).
    + intros j Hjob Heq. simpl in Hjob. apply Hc. rewrite <- Heq. by apply Hj.
  - intros c2 [[= <-]|(j & Hjob & <- & Hk)].
    + split; [intros ?; by apply Hc, (cl_spent _ _ _ _ Cl)|]. right. intros i2 g2 _ Hg2 Ho.
      by apply Hc, (sound_owns_used _ _ _ _ _ _ _ _ _ Hs Hg2 Ho).
    + assert (owns g (j_claim j)) as Ho by (right; by exists j). split; [|by left].
      by apply (cl_owned _ _ _ _ Cl i g).
  - intros c2 Hc2. split; [apply elem_of_union; right; by apply (cl_spent _ _ _ _ Cl)|by left].
  - intros j Hjob. by apply (cl_give_up _ _ _ _ Cl i g).
Qed.

Lemma sound_start ord sup clock used gs sp i :
  sound ord sup clock used gs sp → sound ord sup clock used (<[i := mkGhost clock None None]> gs) sp.
Proof.
  intros [W [C1 C2 C3 C4 C5] G].
  assert (∀ c, ¬ owns (mkGhost clock None None) c) as Hno by (intros c [?|(? & ? & _)]; done).
  split; [done| |].
  - split; [done|done| | |].
    + intros i2 g2 c [[-> <-]|[_ Hl]]%lookup_insert_Some Ho; [by apply Hno in Ho|by eapply C3].
    + intros i1 i2 g1 g2 c [[_ <-]|[_ Hl1]]%lookup_insert_Some [[_ <-]|[_ Hl2]]%lookup_insert_Some Ho1 Ho2;
        [by apply Hno in Ho1|by apply Hno in Ho1|by apply Hno in Ho2|by eapply C4].
    + intros i2 g2 j [[-> <-]|[_ Hl]]%lookup_insert_Some; [done|by eapply C5].
  - intros i2 g2 [[-> <-]|[_ Hl]]%lookup_insert_Some; [by split|by eapply G].
Qed.

Lemma sound_catalogue ord sup sup' clock used gs sp :
  sound ord sup clock used gs sp → catalogue sup sup' → sound ord sup' clock used gs sp.
Proof.
  intros [[W1 [S1 S2 S3] W3 W4 W5 W6 W7] [C1 C2 C3 C4 C5] G] (Hd & Hold & Hnew).
  split; [split; rewrite ?Hd; try done| |].
  - split; rewrite ?Hd.
    + intros o row Hl. destruct (S1 _ _ Hl) as (? & ? & ? & ? & r & Hr). destruct (Hold _ _ Hr) as (r' & ? & _).
      split_and!; try done; by exists r'.
    + intros o row Hl Hst. destruct (S2 _ _ Hl Hst) as (r & Hr & Hdel). destruct (Hold _ _ Hr) as (r' & ? & Heq).
      exists r'. by rewrite Heq.
    + intros s r' Hr' Hdel. destruct (db_suppliers sup !! s) as [r|] eqn:Hr.
      * destruct (Hold _ _ Hr) as (r2 & Hr2 & Heq). rewrite Hr' in Hr2. injection Hr2 as <-.
        apply (S3 s r Hr). by rewrite <- Heq.
      * by apply Hnew in Hr'.
  - split; rewrite ?Hd; done.
  - intros i g Hg. destruct (G i g Hg) as [? Hn Hj]. split; [done| |].
    + intros c Hc. unfold unclaimed. rewrite Hd. by apply Hn.
    + intros j Hjob. unfold job_ok. rewrite Hd. by apply Hj.
Qed.

(** ** The invariant of the world *)

Record inv (σ : World) (gs : gmap nat ghost) (sp : gset string) : Prop := {
  iv_sound : sound (w_ord σ) (w_sup σ) (w_clock σ) (w_used σ) gs sp;
  iv_seen : seen_inv (w_ord σ) (w_seen σ);
  iv_worker i w : w_workers σ !! i = Some w →
    ∃ g, gs !! i = Some g ∧ wp (wk_prog w) g (λ _ _, True) ∧ lease_ok g (wk_lease w);
  iv_flying rq l : (rq, l) ∈ w_flying σ → flight_ok (w_sup σ) (w_clock σ) sp rq l }.

(** One worker took a step and knows [g'] now. *)
Lemma inv_worker ord seen sup clock used fl ws gs sp i p l g' :
  sound ord sup clock used (<[i := g']> gs) sp → seen_inv ord seen →
  (∀ i w, ws !! i = Some w → ∃ g, gs !! i = Some g ∧ wp (wk_prog w) g (λ _ _, True) ∧ lease_ok g (wk_lease w)) →
  (∀ rq l, (rq, l) ∈ fl → flight_ok sup clock sp rq l) →
  wp p g' (λ _ _, True) → lease_ok g' l →
  inv (mkWorld ord seen sup clock used fl (<[i := mkWorker p l]> ws)) (<[i := g']> gs) sp.
Proof.
  intros Hs Hseen Hw Hfl Hp Hl. split; try done. simpl.
  intros i2 w [[<- <-]|[Hne Hw2]]%lookup_insert_Some.
  - exists g'. rewrite lookup_insert_eq. by split_and!.
  - destruct (Hw _ _ Hw2) as (g & Hg & ?). exists g. by rewrite lookup_insert_ne.
Qed.

Lemma seen_after db db' seen : store_ok db' → grows db db' → seen_inv db seen → seen_inv db' (current db' ++ seen).
Proof. intros Hok Hg Hs e [He|He]%elem_of_app; [by eapply seen_current|by eapply seen_grows]. Qed.

Context (subject : string) (maxAttempts : Z) (Hmax : 1 ≤ maxAttempts).

Lemma wp_starts p g : starts maxAttempts p → wp p g (λ _ _, True).
Proof.
  pose proof (client_laws maxAttempts Hmax) as Hlaws.
  destruct 1; (eapply wp_then; [|done]); [apply wp_delete_handler|apply wp_ReconcileOnce].
Qed.

Lemma lease_learn_fence g l rq r : lease_ok g l → lease_ok (map_job (learn_fence rq r) g) l.
Proof.
  intros Hl j Hj. simpl in Hj. apply fmap_Some in Hj as (j0 & Hj0 & ->). rewrite (Hl j0 Hj0). f_equal.
  unfold learn_fence. destruct (attempt_result r); [|done]. by destruct (_ && _)%bool.
Qed.

(** What the invariant says of the worker whose next call is [e]. *)
Lemma inv_next σ gs sp i X (e : eff X) k l :
  inv σ gs sp → w_workers σ !! i = Some (mkWorker (PVis e k) l) →
  ∃ g, gs !! i = Some g ∧ allowed g e ∧ lease_ok g l ∧ ∀ r, wp (k r) (learn g e r) (λ _ _, True).
Proof. intros Hinv Hi. destruct (iv_worker _ _ _ Hinv _ _ Hi) as (g & Hg & [Ha Hp] & Hle). by exists g. Qed.

Lemma order_inv σ gs sp db' :
  inv σ gs sp → store_step (w_seen σ) (w_ord σ) db' → db_fences db' = db_fences (w_ord σ) → inv (set_ord db' σ) gs sp.
Proof.
  intros [Hs Hseen Hw Hfl] Hst Hfe. pose proof (sn_world _ _ _ _ _ _ Hs) as W.
  destruct (store_step_sound _ _ _ (wo_ord _ _ W) Hseen Hst) as (Hok & Hgr & Hidle & Hk).
  split; [|by eapply seen_after|done|done]. eapply order_sound; try done.
  - intros o f Hl. simpl in Hl. rewrite Hfe in Hl. by apply (wo_canon _ _ W o).
  - intros o row _ _ (f & Hl & Hsup & Hrel & Hna). exists f. simpl. rewrite Hfe. split_and!; try done.
    apply Hidle; [|done]. eapply fenced_insert; [done|]. unfold fence_blocks. rewrite bool_decide_true by done.
    by destruct (fr_State f).
  - intros o (f & Hl & Hf). left. exists f. simpl in Hl. by rewrite Hfe in Hl.
Qed.

Lemma now_inv σ gs sp i k l :
  inv σ gs sp → w_workers σ !! i = Some (mkWorker (PVis ENow k) l) →
  ∃ gs', inv (set_worker i (mkWorker (k (w_clock σ)) l) σ) gs' sp.
Proof.
  intros Hinv Hi. destruct (inv_next _ _ _ _ _ _ _ _ Hinv Hi) as (g & Hg & _ & Hle & Hp).
  destruct Hinv as [Hs Hseen Hw Hfl]. eexists.
  eapply inv_worker; [|done|done|done|exact (Hp (w_clock σ))|exact Hle].
  eapply sound_ghost; [exact Hs|done| | | |done|].
  - destruct (sn_ghost _ _ _ _ _ _ Hs _ _ Hg). split; [simpl; lia|done|done].
  - intros c Ho. split; [by apply (cl_owned _ _ _ _ (sn_claims _ _ _ _ _ _ Hs) i g)|by left].
  - intros c Hc. split; [by apply (cl_spent _ _ _ _ (sn_claims _ _ _ _ _ _ Hs))|by left].
  - intros j Hj. by apply (cl_give_up _ _ _ _ (sn_claims _ _ _ _ _ _ Hs) i g).
Qed.

Lemma http_inv σ gs sp i rq k l resp db' :
  inv σ gs sp → w_workers σ !! i = Some (mkWorker (PVis (EHttp rq) k) l) → in_time σ rq l →
  serve_fence (Some subject) rq (w_ord σ) = (resp, db') →
  ∃ gs', inv (set_worker i (mkWorker (k (Some resp)) l) (set_ord db' σ)) gs' sp.
Proof.
  intros Hinv Hi Hadm Hserve. destruct (inv_next _ _ _ _ _ _ _ _ Hinv Hi) as (g & Hg & Ha & Hle & Hp).
  destruct Hinv as [Hs Hseen Hw Hfl]. pose proof (sn_world _ _ _ _ _ _ Hs) as W.
  pose proof (request_flight _ _ _ _ _ _ _ _ _ _ Hs Hg Ha Hle) as Hfl0.
  destruct (served_sound _ _ _ _ _ _ _ _ _ _ _ Hs Hfl0 Hadm Hserve) as [Hs' Hgr].
  eexists. eapply inv_worker; [|eapply seen_after; [apply (sn_world _ _ _ _ _ _ Hs')|done|done]|done|done
    |exact (Hp (Some resp))|by apply lease_learn_fence].
  apply answer_sound; [done|done|]. intros f Hf Hcan. eapply serve_answer; [apply W|apply W|done|done|done].
Qed.

Lemma http_lost_inv σ gs sp i rq k l r :
  inv σ gs sp → w_workers σ !! i = Some (mkWorker (PVis (EHttp rq) k) l) →
  (∀ resp, r = Some resp → rs_Status resp ≠ 200) →
  ∃ gs', inv (mkWorld (w_ord σ) (w_seen σ) (w_sup σ) (w_clock σ) (w_used σ) ((rq, l) :: w_flying σ)
               (<[i := mkWorker (k r) l]> (w_workers σ))) gs' sp.
Proof.
  intros Hinv Hi Hr. destruct (inv_next _ _ _ _ _ _ _ _ Hinv Hi) as (g & Hg & Ha & Hle & Hp).
  destruct Hinv as [Hs Hseen Hw Hfl].
  pose proof (request_flight _ _ _ _ _ _ _ _ _ _ Hs Hg Ha Hle) as Hfl0.
  eexists. eapply inv_worker; [|done|done| |exact (Hp r)|by apply lease_learn_fence].
  - apply answer_sound; [done|done|]. intros f Hf. exfalso. destruct r as [resp|]; [|done].
    by apply (Hr resp eq_refl), (attempt_not_200 _ f).
  - intros rq2 l2 [[= -> ->]|Hin]%elem_of_cons; [done|by apply Hfl].
Qed.

Lemma store_inv σ gs sp A i (c : StoreCall A) k l r db' :
  inv σ gs sp → w_workers σ !! i = Some (mkWorker (PVis (EStore c) k) l) → run_call c (w_sup σ) = (r, db') →
  ∃ gs' sp', inv (set_worker i (mkWorker (k r) (granted c r l)) (set_sup db' σ)) gs' sp'.
Proof.
  intros Hinv Hi Hrun. destruct (inv_next _ _ _ _ _ _ _ _ Hinv Hi) as (g & Hg & Ha & Hle & Hp).
  destruct Hinv as [Hs Hseen Hw Hfl].
  destruct (store_call_ok c _ _ _ _ _ _ _ _ _ _ _ Hs Hg Hle Ha Hrun) as (_ & (sp' & Hs' & Hfl') & Hle').
  eexists _, sp'. eapply inv_worker; [exact Hs'|done|done| |exact (Hp r)|done].
  intros rq2 l2 Hin. by apply Hfl', Hfl.
Qed.

Lemma store_lost_inv σ gs sp A i (c : StoreCall A) k l what db' :
  inv σ gs sp → w_workers σ !! i = Some (mkWorker (PVis (EStore c) k) l) →
  (db' = w_sup σ ∨ db' = (run_call c (w_sup σ)).2) →
  ∃ gs' sp', inv (set_worker i (mkWorker (k (Err (SupOther what))) l) (set_sup db' σ)) gs' sp'.
Proof.
  intros Hinv Hi Hrun. destruct (inv_next _ _ _ _ _ _ _ _ Hinv Hi) as (g & Hg & Ha & Hle & Hp).
  destruct Hinv as [Hs Hseen Hw Hfl].
  assert (call_ok (w_ord σ) (w_sup σ) db' (w_clock σ) (w_used σ) gs sp i (learn_store g c (Err (SupOther what)))) as Hok.
  { destruct Hrun as [->| ->]; [by apply store_lost_ok|]. destruct (run_call c (w_sup σ)) as [r d] eqn:Hr.
    by destruct (store_call_ok c _ _ _ _ _ _ _ _ _ _ _ Hs Hg Hle Ha Hr) as (Hl & _). }
  destruct Hok as (sp' & Hs' & Hfl'). eexists _, sp'.
  eapply inv_worker; [exact Hs'|done|done| |exact (Hp (Err (SupOther what)))|by destruct c].
  intros rq2 l2 Hin. by apply Hfl', Hfl.
Qed.

Lemma wstep_inv σ σ' gs sp :
  inv σ gs sp → wstep subject maxAttempts in_time σ σ' → ∃ gs' sp', inv σ' gs' sp'.
Proof.
  intros Hinv Hstep. pose proof Hinv as [Hs Hseen Hw Hfl].
  destruct Hstep as [db' Hst Hfe|db' Hc|t Ht|i p Hn Hp|i|i k l Hi|i k l bs Hi Hlen Hb Hu|i k l b Hi
    |i rq k l resp db' Hi Hadm Hserve|i rq k l r Hi Hr|rq l resp db' Hin Hadm Hserve
    |A i c k l r db' Hi Hrun|A i c k l what db' Hi Hrun].
  - exists gs, sp. by apply order_inv.
  - exists gs, sp. split; [by eapply sound_catalogue|done|done|]. intros rq l Hin. specialize (Hfl _ _ Hin).
    unfold flight_ok in *. simpl. destruct Hc as (Hd & _). by rewrite Hd.
  - exists gs, sp. split; [by eapply sound_clock|done|done|]. intros rq l Hin. by eapply flight_mono; eauto.
  - eexists _, sp. eapply inv_worker; [by apply sound_start|done|done|done|by apply wp_starts|done].
  - exists gs, sp. split; try done. simpl. intros i2 w [_ Hl]%lookup_delete_Some. by apply Hw.
  - destruct (now_inv _ _ _ _ _ _ Hinv Hi) as [gs' ?]. eauto.
  - destruct (inv_next _ _ _ _ _ _ _ _ Hinv Hi) as (g & Hg & _ & Hle & Hp). eexists _, sp.
    eapply inv_worker; [|done|done|done|exact (Hp bs)|exact Hle].
    apply sound_random; [done|done|done|by apply claim_id_cast].
  - destruct (inv_next _ _ _ _ _ _ _ _ Hinv Hi) as (g & Hg & _ & Hle & Hp). exists (<[i := g]> gs), sp.
    eapply inv_worker; [by rewrite insert_id|done|done|done|exact (Hp b)|exact Hle].
  - destruct (http_inv _ _ _ _ _ _ _ _ _ Hinv Hi Hadm Hserve) as [gs' ?]. eauto.
  - destruct (http_lost_inv _ _ _ _ _ _ _ _ Hinv Hi Hr) as [gs' ?]. eauto.
  - destruct (served_sound _ _ _ _ _ _ _ _ _ _ _ Hs (Hfl _ _ Hin) Hadm Hserve) as [Hs' Hgr].
    exists gs, sp. split; [done|eapply seen_after; [apply (sn_world _ _ _ _ _ _ Hs')|done|done]|done|done].
  - by eapply store_inv.
  - by eapply store_lost_inv.
Qed.

Lemma world0_inv : inv world0 ∅ ∅.
Proof.
  split; simpl; [|by intros e ?%elem_of_nil|done|by intros ? ? ?%elem_of_nil].
  split; [|split; try done; set_solver|done].
  split; try done; [apply store_ok_empty|by intros o (f & ? & _)].
Qed.

Lemma wreachable_inv σ : wreachable subject maxAttempts in_time σ → ∃ gs sp, inv σ gs sp.
Proof.
  induction 1 as [|σ σ' _ (gs & sp & Hinv) Hstep]; [exists ∅, ∅; apply world0_inv|by eapply wstep_inv].
Qed.

End inv.
