(* ===== verification/DeletionProps.v ===== *)
(** * Guarded deletion: the properties

    [exec] performs one chosen step of the world, so that concrete schedules
    can be run; [calm] runs one program to its end while nothing fails and
    nobody else acts.  Safety under every interleaving and every fault, the
    outcome of a calm request, and the two schedules in which the code does
    not keep its word. *)

From S2P Require Import Prelude Proc GoText Json GoTime Errand ErrandState ErrandJson ErrandInv ErrandStore Fence StoreInv StoreSafe StoreSystem StoreProps Deletion FenceWire DeleteWork DeletionLogic DeletionSystem DeletionEffect DeletionSafe DeletionInv.

Local Open Scope string_scope.
Open Scope Z_scope.

(** ** Schedules *)

Inductive action :=
| ASupplier (s : string) (at_ : Z)       (* the catalogue creates a supplier *)
| ATick (t : Z)
| ARequest (i : nat) (q : DeleteRequest)
| AReconciler (i : nat)
| ANext (i : nat) (bytes : list Z)       (* worker [i] makes its next call, which succeeds *)
| AFail (i : nat).                       (* its next call fails without an effect *)

Section exec.
Context `{Hpg : Postgres}.
Context (subject : string) (maxAttempts : Z) (admits : World → FenceRequest → option Z → Prop).
Context (admitsb : World → FenceRequest → option Z → bool).
Context (Hadmits : ∀ σ rq l, admitsb σ rq l = true → admits σ rq l).

Definition start (i : nat) (p : prog unit) (σ : World) : option World :=
  match w_workers σ !! i with None => Some (set_worker i (mkWorker p None) σ) | Some _ => None end.

Definition is_byteb (b : Z) : bool := (0 <=? b) && (b <? 256).

(** The next call succeeds. *)
Definition next_call (i : nat) (bytes : list Z) (l : option Z) (σ : World) {X} (e : eff X) :
    (X → prog unit) → option World :=
  match e with
  | ENow => λ k, Some (set_worker i (mkWorker (k (w_clock σ)) l) σ)
  | ERandom => λ k,
      if bool_decide (length bytes = 16%nat) && forallb is_byteb bytes
         && bool_decide (defaultClaimID bytes ∉ w_used σ)
      then Some (mkWorld (w_ord σ) (w_seen σ) (w_sup σ) (w_clock σ) ({[defaultClaimID bytes]} ∪ w_used σ) (w_flying σ)
                   (<[i := mkWorker (k bytes) l]> (w_workers σ)))
      else None
  | EContext => λ k, Some (set_worker i (mkWorker (k false) l) σ)
  | EHttp rq => λ k,
      if admitsb σ rq l then
        let '(resp, db') := serve_fence (Some subject) rq (w_ord σ) in
        Some (set_worker i (mkWorker (k (Some resp)) l) (set_ord db' σ))
      else None
  | EStore c => λ k,
      let '(r, db') := run_call c (w_sup σ) in
      Some (set_worker i (mkWorker (k r) (granted c r l)) (set_sup db' σ))
  end.

(** The next call fails: the database refuses, or the request stays on its
    way. *)
Definition fail_call (i : nat) (l : option Z) (σ : World) {X} (e : eff X) : (X → prog unit) → option World :=
  match e with
  | EHttp rq => λ k,
      Some (mkWorld (w_ord σ) (w_seen σ) (w_sup σ) (w_clock σ) (w_used σ) ((rq, l) :: w_flying σ)
              (<[i := mkWorker (k None) l]> (w_workers σ)))
  | EStore c => λ k, Some (set_worker i (mkWorker (k (Err (SupOther "connection"))) l) (set_sup (w_sup σ) σ))
  | _ => λ _, None
  end.

Definition exec (a : action) (σ : World) : option World :=
  match a with
  | ASupplier s at_ =>
      match db_suppliers (w_sup σ) !! s with
      | None => Some (set_sup (set_suppliers (<[s := mkSupplierRow at_ at_ None]> (db_suppliers (w_sup σ))) (w_sup σ)) σ)
      | Some _ => None
      end
  | ATick t =>
      if w_clock σ <=? t
      then Some (mkWorld (w_ord σ) (w_seen σ) (w_sup σ) t (w_used σ) (w_flying σ) (w_workers σ)) else None
  | ARequest i q => start i (pbind (@delete_handler (Client maxAttempts) q) (λ _, PRet tt)) σ
  | AReconciler i => start i (pbind (@ReconcileOnce (Client maxAttempts)) (λ _, PRet tt)) σ
  | ANext i bytes =>
      match w_workers σ !! i with
      | Some (mkWorker (PVis e k) l) => next_call i bytes l σ e k
      | _ => None
      end
  | AFail i =>
      match w_workers σ !! i with
      | Some (mkWorker (PVis e k) l) => fail_call i l σ e k
      | _ => None
      end
  end.

Fixpoint exec_all (acts : list action) (σ : World) : option World :=
  match acts with
  | [] => Some σ
  | a :: acts' => match exec a σ with Some σ' => exec_all acts' σ' | None => None end
  end.

Lemma start_sound i p σ σ' :
  starts maxAttempts p → start i p σ = Some σ' → wstep subject maxAttempts admits σ σ'.
Proof. unfold start. destruct (w_workers σ !! i) eqn:Hi; [done|]. intros Hp [= <-]. by apply ws_start. Qed.

Lemma forallb_bytes bs : forallb is_byteb bs = true → Forall is_byte bs.
Proof.
  intros Hb. apply Forall_forall. intros b Hin. apply list_elem_of_In in Hin.
  apply (proj1 (forallb_forall _ _) Hb) in Hin. unfold is_byteb in Hin. unfold is_byte. bool_props. lia.
Qed.

Lemma next_call_sound i bytes l σ X (e : eff X) k σ' :
  w_workers σ !! i = Some (mkWorker (PVis e k) l) → next_call i bytes l σ e k = Some σ' →
  wstep subject maxAttempts admits σ σ'.
Proof.
  destruct e; simpl; intros Hi Hr.
  - injection Hr as <-. by apply ws_now.
  - destruct (_ && _ && _)%bool eqn:Hb; [|done]. injection Hr as <-. bool_props.
    eapply ws_random; eauto using forallb_bytes.
  - injection Hr as <-. by apply ws_context.
  - destruct (admitsb σ rq l) eqn:Ha; [|done]. destruct (serve_fence _ _ _) as [resp db'] eqn:Hs.
    injection Hr as <-. eapply ws_http; eauto.
  - destruct (run_call c _) as [r db'] eqn:Hs. injection Hr as <-. by eapply ws_store.
Qed.

Lemma fail_call_sound i l σ X (e : eff X) k σ' :
  w_workers σ !! i = Some (mkWorker (PVis e k) l) → fail_call i l σ e k = Some σ' →
  wstep subject maxAttempts admits σ σ'.
Proof.
  destruct e; simpl; intros Hi Hr; try done; injection Hr as <-.
  - by eapply ws_http_lost.
  - eapply ws_store_lost; eauto.
Qed.

Lemma exec_sound a σ σ' : exec a σ = Some σ' → wstep subject maxAttempts admits σ σ'.
Proof.
  destruct a as [s at_|t|i q|i|i bytes|i]; simpl; intros Hr.
  - destruct (db_suppliers (w_sup σ) !! s) eqn:Hl; [done|]. injection Hr as <-. apply ws_catalogue.
    split_and!; simpl; [done| |].
    + intros s2 r Hs2. exists r. by rewrite lookup_insert_ne by congruence.
    + intros s2 r' Hn [[_ <-]|[_ ?]]%lookup_insert_Some; [done|congruence].
  - destruct (Z.leb_spec (w_clock σ) t); [|done]. injection Hr as <-. by apply ws_tick.
  - eapply start_sound; [apply start_request|done].
  - eapply start_sound; [apply start_reconciler|done].
  - destruct (w_workers σ !! i) as [[[|X e k] l]|] eqn:Hi; try done. by eapply next_call_sound.
  - destruct (w_workers σ !! i) as [[[|X e k] l]|] eqn:Hi; try done. by eapply fail_call_sound.
Qed.

(** A schedule that runs leads to a reachable world. *)
Lemma exec_all_sound acts σ σ' :
  wreachable subject maxAttempts admits σ → exec_all acts σ = Some σ' → wreachable subject maxAttempts admits σ'.
Proof.
  revert σ. induction acts as [|a acts IH]; intros σ Hr; simpl; [by intros [= <-]|].
  destruct (exec a σ) as [σ1|] eqn:Ha; [|done]. apply IH. eapply wr_step; [done|by eapply exec_sound].
Qed.

End exec.

(** ** Calm runs *)

Section calm.
Context `{Hpg : Postgres} (subject : string).

Record Calm := mkCalm { c_ord : ODB; c_sup : SDB }.

(** The program runs to its end: every call succeeds, the clock stands at
    [now] and the context never ends. *)
Fixpoint calm {A} (now : Z) (bytes : list Z) (p : prog A) (st : Calm) : A * Calm :=
  match p with
  | PRet a => (a, st)
  | PVis e k =>
      match e in eff X return (X → Calm → A * Calm) → A * Calm with
      | ENow => λ run, run now st
      | ERandom => λ run, run bytes st
      | EContext => λ run, run false st
      | EHttp rq => λ run,
          let '(resp, db') := serve_fence (Some subject) rq (c_ord st) in run (Some resp) (mkCalm db' (c_sup st))
      | EStore c => λ run,
          let '(r, db') := run_call c (c_sup st) in run r (mkCalm (c_ord st) db')
      end (λ x st', calm now bytes (k x) st')
  end.

Lemma calm_bind {A B} now bytes (p : prog A) (f : A → prog B) st :
  calm now bytes (pbind p f) st = let '(a, st') := calm now bytes p st in calm now bytes (f a) st'.
Proof.
  revert st. induction p as [a|X e k IH]; intros st; simpl; [done|]. destruct e; simpl; try apply IH.
  - destruct (serve_fence _ _ _). apply IH.
  - destruct (run_call _ _). apply IH.
Qed.

End calm.

Local Open Scope string_scope.
Local Open Scope list_scope.
Open Scope Z_scope.

(** ** A calm request *)

Section calm_request.
Context `{Hpg : Postgres, Hpgok : !PostgresOk, Huu : !UuidText}.
(** [timestamptz] keeps microseconds. *)
Context (Hmicro : ∀ t, t < stored_time t + 1000).
Context (subject : string) (maxAttempts : Z) (Hsub : subject ≠ "") (Hmax : 1 ≤ maxAttempts).
Context (now : Z) (bytes : list Z) (Hlen : length bytes = 16%nat) (Hbytes : Forall is_byte bytes).

Lemma match_classes_weaken cs ds s :
  Forall2 (λ c d : ascii → bool, ∀ a, c a = true → d a = true) cs ds →
  match_classes cs s = true → match_classes ds s = true.
Proof.
  intros Hcd. revert s. induction Hcd as [|c d cs ds Hc _ IH]; intros [|a s]; simpl; try done.
  intros [Ha Hs]%andb_true_iff. by rewrite (Hc _ Ha), IH.
Qed.

(** supplier-service accepts only UUIDs order-service accepts. *)
Lemma sup_uuid_order s : sup_uuidPattern s = true → uuid_pattern s = true.
Proof.
  apply match_classes_weaken. unfold sup_uuid_classes, uuid_classes. simpl.
  assert (∀ a, is_version a = true → is_hex a = true) as Hv.
  { intros [[] [] [] [] [] [] [] []]; vm_compute; done. }
  assert (∀ a, is_variant a = true → is_hex a = true) as Hw.
  { intros [[] [] [] [] [] [] [] []]; vm_compute; done. }
  repeat constructor; auto.
Qed.

Lemma own_canonical s : sup_uuidPattern s = true → to_lower s = s → canonical s.
Proof. intros Hs Hl. unfold canonical. by rewrite (uuid_cast_pattern _ (sup_uuid_order _ Hs)), Hl. Qed.

Lemma sup_uuid_lower s : sup_uuidPattern s = true → sup_uuidPattern (to_lower s) = true.
Proof.
  intros Hs. unfold sup_uuidPattern in *. rewrite match_classes_lower; [done|].
  unfold sup_uuid_classes. simpl.
  assert (∀ a, is_version (lower_ascii a) = is_version a) as Hv.
  { intros [[] [] [] [] [] [] [] []]; vm_compute; done. }
  assert (∀ a, is_variant (lower_ascii a) = is_variant a) as Hw.
  { intros [[] [] [] [] [] [] [] []]; vm_compute; done. }
  repeat constructor; auto using is_hex_lower, is_dash_lower.
Qed.

(** Postgres reads a UUID of any case as its lower-case text. *)
Lemma cast_lower k u db : sup_uuidPattern k = true → to_lower k = u → cast_uuid k db = Ok (u, db).
Proof. intros Hk <-. unfold cast_uuid. by rewrite (uuid_cast_pattern _ (sup_uuid_order _ Hk)). Qed.

(** *** Calls that succeed *)

Abbreviation run p st := (calm subject now bytes p st).

Lemma calm_client_call rq st f ord' :
  serve_fence (Some subject) rq (c_ord st) = (respond (Ok f), ord') → ValidDeletionOperationID (rq_OperationID rq) = true →
  ValidSupplierID (fc_SupplierID f) = true → fc_OperationID f = rq_OperationID rq →
  run (client_call maxAttempts rq) st =
    (Ok (mkDFence (fc_OperationID f) (fc_SupplierID f) (wireState (fc_State f)) (fc_HasActiveErrands f)),
     mkCalm ord' (c_sup st)).
Proof.
  intros Hserve Hop Hsup Hid. unfold client_call. rewrite Hop. cbn [negb].
  destruct (Z.to_nat maxAttempts) eqn:Hn; [lia|]. cbn [call_loop pbind perform calm]. rewrite Hserve.
  assert (attempt_result (Some (respond (Ok f))) =
    Ok (mkDFence (fc_OperationID f) (fc_SupplierID f) (wireState (fc_State f)) (fc_HasActiveErrands f))) as ->.
  { unfold respond, attempt_result, rs_Status, rs_Body.
    change (Some (enc_fence f) ≫= dec_fence) with (dec_fence (enc_fence f)). rewrite dec_enc_fence. simpl.
    rewrite fence_state_wire. simpl. by rewrite Hsup. }
  simpl. unfold EqualFold. by rewrite Hid, bool_decide_true by done.
Qed.

Lemma cast_run u db : canonical u → cast_uuid u db = Ok (u, db).
Proof. intros Hu. unfold cast_uuid. by rewrite Hu. Qed.

Lemma update_rows_run op claim guard change db row :
  canonical op → canonical claim → db_deletions db !! op = Some row → guard row = true →
  holds_claim claim (stored_time now) row = true → deletion_check (change row) = true →
  update_deletion op claim now guard change db = Ok (1, set_deletions (<[op := change row]> (db_deletions db)) db).
Proof.
  intros Ho Hc Hl Hg Hh Hck. unfold update_deletion. rewrite (bind_run _ _ _ _ _ (cast_run _ _ Ho)).
  rewrite (bind_run _ _ _ _ _ (cast_run _ _ Hc)), Hl, Hg, Hh. simpl. unfold bind, put_deletion. by rewrite Hck.
Qed.

Lemma update_run op claim guard change db row :
  canonical op → canonical claim → db_deletions db !! op = Some row → guard row = true →
  holds_claim claim (stored_time now) row = true → deletion_check (change row) = true →
  bind (update_deletion op claim now guard change) (transitionResult op claim now) db =
    Ok (tt, set_deletions (<[op := change row]> (db_deletions db)) db).
Proof. intros. by erewrite bind_run by by apply update_rows_run. Qed.

(** *** Fence requests that succeed *)

Section fence_run.
Context (o s : string) (n : Z).
Context (Ho : sup_uuidPattern o = true) (Hol : to_lower o = o).
Context (Hs : sup_uuidPattern s = true) (Hsl : to_lower s = s).

Lemma own_toUUID : toUUID o = Some o ∧ toUUID s = Some s.
Proof. split; rewrite toUUID_pattern by (by apply sup_uuid_order); by rewrite ?Hol, ?Hsl. Qed.

Lemma own_nonempty : o ≠ "".
Proof. intros ->. done. Qed.

Lemma active_run f db :
  fr_SupplierID f = s → sql_CountActive s db = Ok n →
  withActiveErrands f db = Ok (mkFence (fr_OperationID f) s (fr_State f) (0 <? n), db).
Proof.
  intros Hf Hn. destruct own_toUUID as [_ Hsu].
  unfold withActiveErrands, CountActiveErrandsForSupplier, ops_parseUUID. rewrite Hf, Hsu.
  unfold bind, ret. by rewrite Hn.
Qed.

Lemma audit_run action db :
  action ≠ "" → audit subject action o AuditSucceeded "" db =
    Ok (tt, set_audit (db_audit db ++ [mkAuditRow subject action "supplier_fence" o None AuditSucceeded]) db).
Proof.
  intros Ha. unfold audit, InsertAudit. simpl. by rewrite !bool_decide_false by (done || apply own_nonempty).
Qed.

Lemma serve_acquire_run ord :
  db_fences ord !! o = None → sql_CountActive s ord = Ok n →
  ∃ a, serve_fence (Some subject) (mkFenceRequest RAcquire o (Some (JObj [("supplierId", JStr s)]))) ord =
    (respond (Ok (mkFence o s FenceOpen (0 <? n))),
     set_audit a (set_fences (<[o := mkFenceRow o s FenceOpen]> (db_fences ord)) ord)).
Proof.
  intros Hn Hc. eexists. destruct own_toUUID as [Hou Hsu]. unfold serve_fence, target.
  rewrite bool_decide_false by done. cbn [rq_OperationID rq_Route rq_Body]. rewrite (sup_uuid_order _ Ho), Hol. cbn [negb].
  rewrite (decodeAcquire_own _ (sup_uuid_order _ Hs)), Hsl. unfold Acquire.
  assert (acquire_tx subject o s ord = Ok (mkFence o s FenceOpen (0 <? n),
    set_audit (db_audit ord ++ [mkAuditRow subject "supplier_fence.acquire" "supplier_fence" o None AuditSucceeded])
      (set_fences (<[o := mkFenceRow o s FenceOpen]> (db_fences ord)) ord))) as Hrun.
  { unfold acquire_tx, LockSupplier, CreateFence, ops_parseUUID. rewrite Hou, Hsu. unfold bind at 1 2, ret at 1 2.
    unfold InsertFence, sql_GetFence. unfold bind, ret. rewrite Hn. cbn [db_fences set_fences].
    rewrite lookup_insert_eq. cbn [fr_SupplierID]. rewrite bool_decide_true by done. cbn [negb fst].
    rewrite (active_run (mkFenceRow o s FenceOpen) (set_fences _ ord) eq_refl Hc). rewrite audit_run by done. reflexivity. }
  unfold inTx. rewrite Hrun. reflexivity.
Qed.

Lemma serve_close_run route st ord :
  route = RCommit ∧ st = FenceCommitted ∨ route = RRelease ∧ st = FenceReleased →
  db_fences ord !! o = Some (mkFenceRow o s FenceOpen) → sql_CountActive s ord = Ok n →
  ∃ a, serve_fence (Some subject) (mkFenceRequest route o None) ord =
    (respond (Ok (mkFence o s st (0 <? n))),
     set_audit a (set_fences (<[o := mkFenceRow o s st]> (db_fences ord)) ord)).
Proof.
  intros Hst Hl Hc. destruct own_toUUID as [Hou Hsu]. unfold serve_fence, target.
  rewrite bool_decide_false by done. cbn [rq_OperationID rq_Route rq_Body]. rewrite (sup_uuid_order _ Ho), Hol. cbn [negb].
  assert (∀ action, action ≠ "" → close_tx subject action o st ord = Ok (mkFence o s st (0 <? n),
    set_audit (db_audit ord ++ [mkAuditRow subject action "supplier_fence" o None AuditSucceeded])
      (set_fences (<[o := mkFenceRow o s st]> (db_fences ord)) ord))) as Hrun.
  { intros action Ha. unfold close_tx, CloseFence, ops_parseUUID. rewrite Hou.
    assert (negb (bool_decide (st = FenceCommitted)) && negb (bool_decide (st = FenceReleased)) = false)%bool as ->
      by (destruct Hst as [[_ ->]|[_ ->]]; done).
    unfold bind, ret, sql_CloseFence. rewrite Hl. cbn [fr_State fr_OperationID fr_SupplierID].
    rewrite bool_decide_true by done. rewrite (active_run (mkFenceRow o s st) (set_fences _ ord) eq_refl Hc).
    rewrite audit_run by done. reflexivity. }
  destruct Hst as [[-> ->]|[-> ->]]; eexists; unfold Commit, ReleaseFence, close, inTx; rewrite Hrun by done; reflexivity.
Qed.

(** *** The handler *)

Lemma calm_store {A B} (c : StoreCall A) (f : res SupError A → prog B) st r db' :
  run_call c (c_sup st) = (r, db') → run (pbind (store c) f) st = run (f r) (mkCalm (c_ord st) db').
Proof. intros Hr. simpl. by rewrite Hr. Qed.

Lemma calm_then {A B} (p : prog A) (f : A → prog B) st a st' :
  run p st = (a, st') → run (pbind p f) st = run (f a) st'.
Proof. intros Hr. by rewrite calm_bind, Hr. Qed.

Let t := stored_time now.
Let lease := stored_time (now + defaultLeaseDuration).
Let c := defaultClaimID bytes.

Lemma lease_later : t < lease.
Proof.
  unfold t, lease. pose proof (Hmicro (now + defaultLeaseDuration)). pose proof (stored_time_le now).
  unfold defaultLeaseDuration, nsec in *. lia.
Qed.

Definition row_requested : DeletionRow :=
  mkDeletionRow o s DeletionRequested 0 defaultMaxAttempts (Some t) None None None t t None None.
Definition row_claimed : DeletionRow := claimed_row c lease t row_requested.
Definition row_rejecting : DeletionRow := move_row DeletionReleasePending (Some t) true None None t row_claimed.
Definition row_rejected : DeletionRow := move_row DeletionRejectedActiveErrands None false None None t row_rejecting.
Definition row_deleted : DeletionRow := move_row DeletionCommitPending (Some t) true (Some t) None t row_claimed.
Definition row_completed : DeletionRow := move_row DeletionCompleted None false None (Some t) t row_deleted.

(** The rows the request writes satisfy the constraints of the table. *)
Lemma rows_check r :
  r ∈ [row_requested; row_claimed; row_rejecting; row_rejected; row_deleted; row_completed] → deletion_check r = true.
Proof.
  pose proof lease_later as Hl. rewrite !elem_of_cons, elem_of_nil.
  intros [->|[->|[->|[->|[->|[->|[]]]]]]]; unfold deletion_check; simpl;
    rewrite ?Z.leb_refl, ?(proj2 (Z.ltb_lt _ _) Hl); reflexivity.
Qed.

Lemma rows_held r : r ∈ [row_claimed; row_rejecting; row_deleted] → holds_claim c t r = true.
Proof.
  pose proof lease_later as Hl. rewrite !elem_of_cons, elem_of_nil.
  intros [->|[->|[->|[]]]]; unfold holds_claim; simpl; rewrite bool_decide_true by done; simpl; by apply Z.ltb_lt.
Qed.

(** The operation is recorded whatever the case of the supplier ID, but only its
    canonical spelling is taken for the supplier of the operation. *)
Lemma create_run k q sup sr :
  sup_uuidPattern k = true → to_lower k = o → sup_uuidPattern q = true → to_lower q = s →
  db_deletions sup !! o = None → db_suppliers sup !! s = Some sr →
  run_call (CCreateOrGet k q defaultMaxAttempts now) sup =
    (if bool_decide (s = q) then Ok (deletionRecord row_requested) else Err SupOperationMismatch,
     set_deletions (<[o := row_requested]> (db_deletions sup)) sup).
Proof.
  intros Hk Hko Hq Hqs Hn Hsr. unfold run_call, CreateOrGetDeletion. cbn [boundedInt32 defaultMaxAttempts negb].
  assert (CreateOrGetDeletionOperation k q defaultMaxAttempts now sup =
    Ok (row_requested, set_deletions (<[o := row_requested]> (db_deletions sup)) sup)) as Hrun.
  { unfold CreateOrGetDeletionOperation. rewrite (bind_run _ _ _ _ _ (cast_lower k o _ Hk Hko)).
    rewrite (bind_run _ _ _ _ _ (cast_lower q s _ Hq Hqs)), Hn, Hsr. unfold bind, put_deletion.
    fold t. fold row_requested. by rewrite (rows_check row_requested) by set_solver. }
  unfold inTx. change 5 with defaultMaxAttempts. rewrite Hrun. simpl. by case_bool_decide.
Qed.

Lemma claim_run k sup :
  sup_uuidPattern k = true → to_lower k = o → db_deletions sup !! o = Some row_requested →
  run_call (CClaim k c now (now + defaultLeaseDuration)) sup =
    (Ok (Some (deletionRecord row_claimed)), set_deletions (<[o := row_claimed]> (db_deletions sup)) sup).
Proof.
  intros Hk Hko Hl. unfold run_call, inTx, ClaimDeletion.
  rewrite (proj2 (Z.leb_gt _ _)) by (unfold defaultLeaseDuration, nsec; lia).
  unfold ClaimDeletionOperation, cast_uuid. rewrite (uuid_cast_pattern _ (sup_uuid_order _ Hk)), Hko.
  pose proof (claim_id_cast bytes Hlen Hbytes) as Hcc. unfold canonical in Hcc. fold c in Hcc. rewrite Hcc.
  unfold bind, ret. rewrite Hl. fold t lease.
  assert (deletion_claimable t row_requested = true) as ->.
  { unfold deletion_claimable. simpl. by rewrite Z.leb_refl. }
  unfold put_deletion. fold row_claimed. by rewrite (rows_check row_claimed) by set_solver.
Qed.

(** A transition of the operation under the claim. *)
Lemma moved_run sup guard row change :
  db_deletions sup !! o = Some row → guard row = true →
  row ∈ [row_claimed; row_rejecting; row_deleted] →
  change row ∈ [row_requested; row_claimed; row_rejecting; row_rejected; row_deleted; row_completed] →
  inTx (bind (update_deletion o c now guard change) (transitionResult o c now)) sup =
    (Ok tt, set_deletions (<[o := change row]> (db_deletions sup)) sup).
Proof.
  intros Hl Hg Hr Hc. unfold inTx. rewrite (update_run _ _ _ _ _ row); [done|by apply own_canonical| |done|done| |].
  - exact (claim_id_cast bytes Hlen Hbytes).
  - by apply rows_held.
  - by apply rows_check.
Qed.

Lemma soft_delete_run sup cr up :
  db_deletions sup !! o = Some row_claimed → db_suppliers sup !! s = Some (mkSupplierRow cr up None) → cr ≤ t →
  run_call (CDelete s o c now) sup =
    (Ok tt, mkSDB (<[s := mkSupplierRow cr t (Some t)]> (db_suppliers sup)) (<[o := row_deleted]> (db_deletions sup))).
Proof.
  intros Hl Hsr Hcr. pose proof (own_canonical _ Hs Hsl) as Hcs.
  assert (SoftDeleteSupplier now s sup =
    Ok (1, set_suppliers (<[s := mkSupplierRow cr t (Some t)]> (db_suppliers sup)) sup)) as H1.
  { unfold SoftDeleteSupplier. rewrite (bind_run _ _ _ _ _ (cast_run _ _ Hcs)), Hsr. fold t.
    unfold supplier_check. simpl. by rewrite (proj2 (Z.leb_le _ _) Hcr). }
  assert (MarkDeletionCommitPending o s c now (set_suppliers (<[s := mkSupplierRow cr t (Some t)]> (db_suppliers sup)) sup) =
    Ok (1, mkSDB (<[s := mkSupplierRow cr t (Some t)]> (db_suppliers sup)) (<[o := row_deleted]> (db_deletions sup)))) as H2.
  { unfold MarkDeletionCommitPending. rewrite (bind_run _ _ _ _ _ (cast_run _ _ Hcs)).
    erewrite update_rows_run; [reflexivity|by apply own_canonical| |exact Hl| | |].
    - exact (claim_id_cast bytes Hlen Hbytes).
    - unfold in_state. simpl. by rewrite !bool_decide_true.
    - apply (rows_held row_claimed). set_solver.
    - apply (rows_check row_deleted). set_solver. }
  unfold run_call, inTx, DeleteCurrentAndMarkCommitPending. rewrite (bind_run _ _ _ _ _ H1). simpl.
  by rewrite (bind_run _ _ _ _ _ H2).
Qed.

Lemma acquire_run st :
  db_fences (c_ord st) !! o = None → sql_CountActive s (c_ord st) = Ok n →
  ∃ a, run (client_Acquire maxAttempts o s) st =
    (Ok (mkDFence o s DFenceOpen (0 <? n)),
     mkCalm (set_audit a (set_fences (<[o := mkFenceRow o s FenceOpen]> (db_fences (c_ord st))) (c_ord st))) (c_sup st)).
Proof.
  intros Hl Hn. destruct (serve_acquire_run _ Hl Hn) as [a Hserve]. exists a. unfold client_Acquire.
  erewrite calm_then by (eapply calm_client_call; [exact Hserve|done|done|done]). simpl.
  unfold EqualFold. by rewrite bool_decide_true by done.
Qed.

Lemma close_run route st state want ordst :
  route = RCommit ∧ state = FenceCommitted ∧ want = DFenceCommitted ∨
  route = RRelease ∧ state = FenceReleased ∧ want = DFenceReleased →
  c_ord st = ordst → db_fences ordst !! o = Some (mkFenceRow o s FenceOpen) → sql_CountActive s ordst = Ok n →
  ∃ a, run (client_transition maxAttempts route o want) st =
    (Ok tt, mkCalm (set_audit a (set_fences (<[o := mkFenceRow o s state]> (db_fences ordst)) ordst)) (c_sup st)).
Proof.
  intros Hc <- Hl Hn. destruct (serve_close_run route state (c_ord st)) as [a Hserve]; [naive_solver|done|done|].
  exists a. unfold client_transition. erewrite calm_then by (eapply calm_client_call; [exact Hserve|done|done|done]).
  simpl. destruct Hc as [(_ & -> & ->)|(_ & -> & ->)]; done.
Qed.

(** What the request leaves of the operation, its fence and the supplier. *)
Definition settled (st : Calm) (state : DeletionState) (fence : FenceState) (sr : SupplierRow) : Prop :=
  (∃ row, db_deletions (c_sup st) !! o = Some row ∧ dr_State row = state ∧ dr_ClaimID row = None) ∧
  db_fences (c_ord st) !! o = Some (mkFenceRow o s fence) ∧
  db_suppliers (c_sup st) !! s = Some sr.

Lemma reject_outcome st sr :
  db_deletions (c_sup st) !! o = Some row_claimed →
  db_suppliers (c_sup st) !! s = Some sr →
  db_fences (c_ord st) !! o = Some (mkFenceRow o s FenceOpen) → sql_CountActive s (c_ord st) = Ok n →
  ∃ st', run (await marked := store (CMarkReleasePending o c now) in
      match marked with
      | Err _ => PRet OutcomeInternal
      | Ok _ => @wf_release (Client maxAttempts) defaultRetryBackoff (deletionRecord row_claimed) c now
      end) st = (OutcomeRejectedActiveErrands, st') ∧ settled st' DeletionRejectedActiveErrands FenceReleased sr.
Proof.
  intros Hl Hsr Hf Hn.
  rewrite (calm_store _ _ _ (Ok tt) (set_deletions (<[o := row_rejecting]> (db_deletions (c_sup st))) (c_sup st))); last first.
  { eapply moved_run; [exact Hl|done|set_solver|set_solver]. }
  unfold wf_release. set (st1 := mkCalm _ _).
  destruct (close_run RRelease st1 FenceReleased DFenceReleased (c_ord st)) as [a Hrun]; [naive_solver|done|done|done|].
  change (dl_OperationID (deletionRecord row_claimed)) with o. cbn [fence_Release Client]. unfold client_Release.
  rewrite (calm_then _ _ _ _ _ Hrun).
  rewrite (calm_store _ _ _ (Ok tt) (set_deletions (<[o := row_rejected]> (db_deletions (c_sup st1))) (c_sup st1))); last first.
  { eapply moved_run; [simpl; apply lookup_insert_eq|done|set_solver|set_solver]. }
  eexists. split; [reflexivity|]. split_and!; [|simpl; apply lookup_insert_eq|done].
  exists row_rejected. split_and!; [simpl; apply lookup_insert_eq|done|done].
Qed.

Lemma delete_outcome st cr up :
  db_deletions (c_sup st) !! o = Some row_claimed →
  db_suppliers (c_sup st) !! s = Some (mkSupplierRow cr up None) → cr ≤ t →
  db_fences (c_ord st) !! o = Some (mkFenceRow o s FenceOpen) → sql_CountActive s (c_ord st) = Ok n →
  ∃ st', run (@wf_delete (Client maxAttempts) defaultRetryBackoff (deletionRecord row_claimed) c now) st =
    (OutcomeCompleted, st') ∧ settled st' DeletionCompleted FenceCommitted (mkSupplierRow cr t (Some t)).
Proof.
  intros Hl Hsr Hcr Hf Hn. unfold wf_delete. change (dl_SupplierID (deletionRecord row_claimed)) with s.
  change (dl_OperationID (deletionRecord row_claimed)) with o.
  rewrite (calm_store _ _ _ _ _ (soft_delete_run _ _ _ Hl Hsr Hcr)). unfold wf_commit. set (st1 := mkCalm _ _).
  destruct (close_run RCommit st1 FenceCommitted DFenceCommitted (c_ord st)) as [a Hrun]; [naive_solver|done|done|done|].
  change (dl_OperationID (deletionRecord row_claimed)) with o. cbn [fence_Commit Client]. unfold client_Commit.
  rewrite (calm_then _ _ _ _ _ Hrun). cbn [pbind negb].
  rewrite (calm_store _ _ _ (Ok tt) (set_deletions (<[o := row_completed]> (db_deletions (c_sup st1))) (c_sup st1))); last first.
  { eapply moved_run; [simpl; apply lookup_insert_eq|done|set_solver|set_solver]. }
  eexists. split; [reflexivity|]. split_and!; simpl; [|apply lookup_insert_eq|apply lookup_insert_eq].
  exists row_completed. split_and!; [apply lookup_insert_eq|done|done].
Qed.

Lemma advance_outcome st cr up :
  db_deletions (c_sup st) !! o = Some row_claimed →
  db_suppliers (c_sup st) !! s = Some (mkSupplierRow cr up None) → cr ≤ t →
  db_fences (c_ord st) !! o = None → sql_CountActive s (c_ord st) = Ok n →
  ∃ st', if 0 <? n
    then run (@advance (Client maxAttempts) defaultRetryBackoff (deletionRecord row_claimed) c now) st =
           (OutcomeRejectedActiveErrands, st') ∧
         settled st' DeletionRejectedActiveErrands FenceReleased (mkSupplierRow cr up None)
    else run (@advance (Client maxAttempts) defaultRetryBackoff (deletionRecord row_claimed) c now) st =
           (OutcomeCompleted, st') ∧ settled st' DeletionCompleted FenceCommitted (mkSupplierRow cr t (Some t)).
Proof.
  intros Hl Hsr Hcr Hf Hn. destruct (acquire_run st Hf Hn) as [a Hacq].
  unfold advance. change (dl_State (deletionRecord row_claimed)) with DeletionRequested. unfold wf_acquire.
  change (dl_OperationID (deletionRecord row_claimed)) with o. change (dl_SupplierID (deletionRecord row_claimed)) with s.
  change (@fence_Acquire (Client maxAttempts) o s) with (client_Acquire maxAttempts o s).
  rewrite (calm_then _ _ _ _ _ Hacq). cbn [pbind df_SupplierID df_State df_HasActiveErrands].
  assert (EqualFold s s = true) as -> by (unfold EqualFold; by rewrite bool_decide_true).
  cbn [negb]. rewrite (bool_decide_true (DFenceOpen = DFenceOpen)) by done.
  set (st1 := mkCalm _ (c_sup st)).
  assert (db_fences (c_ord st1) !! o = Some (mkFenceRow o s FenceOpen)) as Hf1 by (simpl; apply lookup_insert_eq).
  destruct (0 <? n); [by apply reject_outcome|by eapply delete_outcome].
Qed.

(** A new operation is recorded; with the supplier ID in lower case it is
    claimed and advanced, otherwise the request ends there. *)
Lemma handler_run key q ord sup sr :
  let k := trim_space key in
  sup_uuidPattern k = true → to_lower k = o → sup_uuidPattern q = true → to_lower q = s →
  db_deletions sup !! o = None → db_suppliers sup !! s = Some sr →
  run (@delete_handler (Client maxAttempts) (mkDeleteRequest (Some true) q key)) (mkCalm ord sup) =
  if bool_decide (s = q)
  then run (pbind (@advance (Client maxAttempts) defaultRetryBackoff (deletionRecord row_claimed) c now)
              (λ x, PRet (outcome_reply k x))) (mkCalm ord (set_deletions (<[o := row_claimed]> (db_deletions sup)) sup))
  else (ReplyError 400 "INVALID_ARGUMENT", mkCalm ord (set_deletions (<[o := row_requested]> (db_deletions sup)) sup)).
Proof.
  intros k Hk Hko Hq Hqs Hn Hsr. set (sup1 := set_deletions (<[o := row_requested]> (db_deletions sup)) sup).
  unfold delete_handler. cbn [dq_Principal dq_SupplierID dq_IdempotencyKey negb]. unfold ValidSupplierID. rewrite Hq.
  cbn [negb]. fold k. rewrite bool_decide_false by (intros He; by rewrite He in Hk).
  unfold ValidDeletionOperationID. rewrite Hk. cbn [negb].
  rewrite (calm_then _ _ _ now (mkCalm ord sup)) by done.
  rewrite (calm_store _ _ (mkCalm ord sup) _ _ (create_run k q sup _ Hk Hko Hq Hqs Hn Hsr)).
  fold sup1. case_bool_decide; [|done].
  change (dl_State (deletionRecord row_requested)) with DeletionRequested. cbn iota. unfold delete_claimed.
  rewrite (calm_then _ _ _ bytes (mkCalm ord sup1)) by done.
  rewrite (calm_store _ _ (mkCalm ord sup1) _ _ (claim_run k sup1 Hk Hko ltac:(simpl; apply lookup_insert_eq))).
  simpl. unfold sup1, set_deletions. simpl. by rewrite insert_insert_eq.
Qed.

End fence_run.

(** C34: A deletion request that meets no failure is decided on the spot when it
    names its supplier by the canonical, lower-case ID (the key may be in any
    case).  For a new operation on a live supplier, the handler talks to
    order-service through its client and answers 204 exactly when order-service
    counts no active errand of the supplier: then the supplier is soft-deleted,
    the operation completed and its fence committed.  Otherwise it answers 409,
    the supplier is as before, the operation rejected and its fence released.
    No claim is left behind.  A request that spells the supplier ID with a
    capital is answered 400, without a call to order-service and with the
    supplier as it was, but the operation is on record, unclaimed and due at
    once, as a reconciler pass will find it. *)
Theorem deletion_request_decides key q n cr up ord sup :
  let k := trim_space key in let o := to_lower k in let s := to_lower q in
  sup_uuidPattern k = true → sup_uuidPattern q = true →
  db_deletions sup !! o = None → db_suppliers sup !! s = Some (mkSupplierRow cr up None) → cr ≤ stored_time now →
  db_fences ord !! o = None → sql_CountActive s ord = Ok n →
  ∃ reply st', run (@delete_handler (Client maxAttempts) (mkDeleteRequest (Some true) q key)) (mkCalm ord sup) = (reply, st') ∧
  if bool_decide (s = q) then
    if 0 <? n
    then reply = ReplyError 409 "SUPPLIER_HAS_ACTIVE_ERRANDS" ∧
         settled o s st' DeletionRejectedActiveErrands FenceReleased (mkSupplierRow cr up None)
    else reply = ReplyNoContent ∧
         settled o s st' DeletionCompleted FenceCommitted (mkSupplierRow cr (stored_time now) (Some (stored_time now)))
  else
    reply = ReplyError 400 "INVALID_ARGUMENT" ∧ c_ord st' = ord ∧ db_suppliers (c_sup st') = db_suppliers sup ∧
    ∃ row, db_deletions (c_sup st') !! o = Some row ∧ dr_SupplierID row = s ∧ dr_State row = DeletionRequested ∧
      deletion_claimable (stored_time now) row = true.
Proof.
  intros k o s Hk Hq Hn Hsr Hcr Hf Hc.
  assert (sup_uuidPattern o = true ∧ to_lower o = o) as [Ho Hol] by (split; [by apply sup_uuid_lower|apply to_lower_idem]).
  assert (sup_uuidPattern s = true ∧ to_lower s = s) as [Hs Hsl] by (split; [by apply sup_uuid_lower|apply to_lower_idem]).
  pose proof (handler_run o s Ho Hol Hs Hsl key q ord sup _ Hk eq_refl Hq eq_refl Hn Hsr) as Hrun.
  destruct (bool_decide (s = q)) eqn:Hcase.
  - destruct (advance_outcome o s n Ho Hol Hs Hsl
      (mkCalm ord (set_deletions (<[o := row_claimed o s]> (db_deletions sup)) sup)) cr up) as [st' Hadv]; simpl; try done.
    { apply lookup_insert_eq. }
    destruct (0 <? n); destruct Hadv as [Hadv Hst]; eexists _, st'; rewrite Hrun, (calm_then _ _ _ _ _ Hadv);
      (split; [reflexivity|]); by split.
  - eexists _, _. split; [exact Hrun|]. split_and!; [done..|].
    exists (row_requested o s). split_and!; [simpl; apply lookup_insert_eq|done|done|].
    unfold deletion_claimable. simpl. by rewrite Z.leb_refl.
Qed.

End calm_request.

(** ** Safety *)

(** C33: However the requests and reconciler passes of any number of replicas
    interleave with each other and with order-service's own writers, and
    whichever calls fail, are lost, arrive late or lose their answer, a
    soft-deleted supplier is blocked in order-service and no active errand
    goes to it; a committed fence belongs to a deleted supplier; a completed
    operation has its fence committed and a rejected one has it released.
    The one proviso is that a release of an undecided operation arrives before
    the lease of its sender expired. *)
Theorem deleted_supplier_fenced `{Hpg : Postgres, Hpgok : !PostgresOk, Huu : !UuidText} subject maxAttempts σ :
  1 ≤ maxAttempts → wreachable subject maxAttempts in_time σ →
  (∀ s r, db_suppliers (w_sup σ) !! s = Some r → su_DeletedAt r ≠ None →
     fenced s (w_ord σ) = true ∧ no_active s (w_ord σ)) ∧
  (∀ o f, db_fences (w_ord σ) !! o = Some f → fr_State f = FenceCommitted →
     ∃ r, db_suppliers (w_sup σ) !! fr_SupplierID f = Some r ∧ su_DeletedAt r ≠ None) ∧
  (∀ o row, db_deletions (w_sup σ) !! o = Some row → dr_State row = DeletionCompleted →
     fence_in FenceCommitted o (w_ord σ)) ∧
  (∀ o row, db_deletions (w_sup σ) !! o = Some row → dr_State row = DeletionRejectedActiveErrands →
     fence_in FenceReleased o (w_ord σ)).
Proof.
  intros Hmax Hr. destruct (wreachable_inv _ _ Hmax _ Hr) as (gs & sp & Hinv).
  pose proof (sn_world _ _ _ _ _ _ (iv_sound _ _ _ Hinv)) as W. split_and!.
  - intros s r Hl Hd. destruct (sd_cause _ (wo_sup _ _ W) _ _ Hl Hd) as (o & row & Ho & <- & Hst).
    destruct (wo_deleted _ _ W _ _ Ho Hst) as (f & Hf & Hsup & Hrel & Hna). split; [|done].
    eapply fenced_insert; [exact Hf|]. unfold fence_blocks. rewrite bool_decide_true by done. by destruct (fr_State f).
  - intros o f Hf Hst. destruct (wo_committed _ _ W o) as (row & Ho & Hd); [by exists f|].
    destruct (wo_deleted _ _ W _ _ Ho Hd) as (f2 & Hf2 & Hsup & _). simplify_eq. rewrite Hsup.
    by apply (sd_deleted _ (wo_sup _ _ W) o).
  - by apply (wo_completed _ _ W).
  - by apply (wo_rejected _ _ W).
Qed.

(** ** Scenarios *)

Module DeletionScenario.
Import StoreScenario.

#[export] Instance pg_uuid : UuidText.
Proof.
  assert (∀ s u, read_uuid s = Some u → uuid_pattern u = true ∧ to_lower u = u) as Hread.
  { intros s u. unfold read_uuid. destruct (uuid_pattern s) eqn:Hp; [|done]. intros [= <-].
    by rewrite uuid_lower, to_lower_idem. }
  split; simpl; [exact Hread|..]; intros s Hp; unfold read_uuid; by rewrite Hp.
Qed.

Lemma pg_micro t : t < stored_time t + 1000.
Proof. change (stored_time t) with (t / 1000 * 1000). pose proof (Z.mod_pos_bound t 1000). pose proof (Z.div_mod t 1000). lia. Qed.

Definition shop := "00000000-0000-4000-8000-0000000000bb".
Definition SHOP := "00000000-0000-4000-8000-0000000000BB".
Definition key := "00000000-0000-4000-8000-0000000000f1".
Definition service := "supplier-service@clients".
Definition sec : Z := 1000000000.
Definition bytes (n : Z) : list Z := replicate 15 0 ++ [n].

Definition in_timeb (σ : World) (rq : FenceRequest) (lease : option Z) : bool :=
  match rq_Route rq with
  | RRelease =>
      match db_deletions (w_sup σ) !! rq_OperationID rq with
      | Some row => rejecting (dr_State row) || match lease with Some l => w_clock σ <? l | None => false end
      | None => true
      end
  | _ => true
  end.

Lemma in_timeb_sound σ rq l : in_timeb σ rq l = true → in_time σ rq l.
Proof.
  unfold in_timeb, in_time. intros Hb Hr row Hl Hrej. rewrite Hr, Hl, Hrej in Hb. simpl in Hb.
  destruct l as [l|]; [|done]. exists l. by bool_props.
Qed.

Definition next (i : nat) : action := ANext i (bytes (1 + Z.of_nat i)).

(** A request deletes the shop. *)
Definition calm_schedule : list action :=
  [ASupplier shop sec; ATick (10 * sec); ARequest 0 (mkDeleteRequest (Some true) shop key)] ++ replicate 8 (next 0).

Definition deleted_world : World := default world0 (exec_all service 3 in_timeb calm_schedule world0).

Lemma reach_schedule admits admitsb acts :
  (∀ σ rq l, admitsb σ rq l = true → admits σ rq l) →
  wreachable service 3 admits (default world0 (exec_all service 3 admitsb acts world0)).
Proof.
  intros Ha. destruct (exec_all service 3 admitsb acts world0) as [σ|] eqn:Hrun; [|apply wr_init].
  eapply exec_all_sound; [exact Ha|apply wr_init|exact Hrun].
Qed.

(** The worker's soft delete fails once; it checks that it still owns the
    operation and then hangs until its lease is over.  The reconciler takes the
    operation and deletes the shop, and only then does the release arrive. *)
Definition race_schedule : list action :=
  [ASupplier shop sec; ATick (10 * sec); ARequest 0 (mkDeleteRequest (Some true) shop key)] ++ replicate 5 (next 0)
  ++ [AFail 0; next 0; ATick (71 * sec); AReconciler 1] ++ replicate 8 (next 1) ++ [next 0].

Definition raced_world : World := default world0 (exec_all service 3 (λ _ _ _, true) race_schedule world0).

(** The handler is asked for the shop by its upper-case ID. *)
Definition one_shop : Calm := mkCalm empty_odb (mkSDB {[shop := mkSupplierRow sec sec None]} ∅).
Definition upper_request :=
  calm service (10 * sec) (bytes 1) (@delete_handler (Client 3) (mkDeleteRequest (Some true) SHOP key)) one_shop.
Definition reconciled := calm service (11 * sec) (bytes 2) (@ReconcileOnce (Client 3)) upper_request.2.

End DeletionScenario.

Import StoreScenario DeletionScenario.

Lemma deleted_supplier_fenced_witness :
  fenced shop (w_ord deleted_world) = true ∧ no_active shop (w_ord deleted_world).
Proof.
  assert (1 ≤ 3) as Hmax by lia.
  apply (proj1 (deleted_supplier_fenced service 3 deleted_world Hmax (reach_schedule _ _ _ in_timeb_sound))
           shop (mkSupplierRow sec (10 * sec) (Some (10 * sec)))); [vm_compute; reflexivity|discriminate].
Defined.

Lemma deletion_request_decides_witness :
  ∃ st', calm service (10 * sec) (bytes 1) (@delete_handler (Client 3) (mkDeleteRequest (Some true) shop key)) one_shop =
    (ReplyNoContent, st') ∧
  settled key shop st' DeletionCompleted FenceCommitted (mkSupplierRow sec (10 * sec) (Some (10 * sec))).
Proof.
  destruct (deletion_request_decides pg_micro
    service 3 ltac:(discriminate) ltac:(lia) (10 * sec) (bytes 1) eq_refl
    (forallb_bytes (bytes 1) eq_refl) key shop 0 sec sec empty_odb (mkSDB {[shop := mkSupplierRow sec sec None]} ∅))
    as (reply & st' & Hrun & H); [try (vm_compute; reflexivity); vm_compute; discriminate..|].
  change (to_lower shop) with shop in H. change (to_lower (trim_space key)) with key in H.
  rewrite bool_decide_true in H by reflexivity. destruct H as [-> Hst]. exists st'. split; [exact Hrun|exact Hst].
Defined.

(** A release that outlives the lease of its sender lifts the block of a
    supplier that was deleted meanwhile. *)
Lemma late_release_unblocks :
  wreachable service 3 (λ _ _ _, True) raced_world ∧
  (∃ r, db_suppliers (w_sup raced_world) !! shop = Some r ∧ su_DeletedAt r ≠ None) ∧
  fenced shop (w_ord raced_world) = false.
Proof.
  split; [by apply reach_schedule|]. split; [|vm_compute; reflexivity].
  exists (mkSupplierRow sec (71 * sec) (Some (71 * sec))). split; [vm_compute; reflexivity|discriminate].
Qed.

(** A request refused with 400, because its supplier ID was written in upper
    case, is carried out by the next reconciler pass. *)
Lemma refused_request_deletes :
  upper_request.1 = ReplyError 400 "INVALID_ARGUMENT" ∧ reconciled.1 = 1 ∧
  db_suppliers (c_sup reconciled.2) !! shop = Some (mkSupplierRow sec (11 * sec) (Some (11 * sec))).
Proof. split_and!; vm_compute; reflexivity. Qed.
