(* ===== verification/SupplierTypes.v ===== *)
(** * supplier-service: suppliers and their validation

    [internal/supplier]: types.go, validation.go and the types of lookup.go.
    Unicode case and letter tables and [url.ParseRequestURI] are the class
    [GoTables]. *)

From Stdlib Require Import SpecFloat.
From S2P Require Import Prelude GoText Json GoTime Errand ErrandHttp ErrandReads Deletion.

(** ** Go strings *)

Class GoTables := {
  unicode_ToLower : Z → Z;                               (* unicode.ToLower *)
  unicode_alphabetic : Z → bool;                         (* unicode.In(_, Letter, Nl, Other_Alphabetic) *)
  ParseRequestURI : string → option (string * string);   (* the scheme and the host *)
}.

(** What Unicode says of ASCII; the empty string is no URL. *)
Class GoTablesOk `{GoTables} : Prop := {
  ParseRequestURI_empty : ParseRequestURI "" = None;
  ToLower_ascii r : 0 ≤ r < 128 → unicode_ToLower r = if between 65 r 90 then r + 32 else r;
  alphabetic_ascii r : 0 ≤ r < 128 → unicode_alphabetic r = between 65 r 90 || between 97 r 122;
}.

(** Unicode restricted to ASCII. *)
Definition ascii_tables (parse : string → option (string * string)) : GoTables := {|
  unicode_ToLower r := if between 65 r 90 then r + 32 else r;
  unicode_alphabetic r := between 65 r 90 || between 97 r 122;
  ParseRequestURI := parse |}.

(** [utf8.AppendRune] *)
Definition utf8_encode (r : Z) : string :=
  let byte z := ascii_of_N (Z.to_N z) in
  let cont z := byte (Z.lor 0x80 (Z.land z 0x3F)) in
  let r := if (r <? 0) || (0x10FFFF <? r) || between 0xD800 r 0xDFFF then rune_error else r in
  if r <? 0x80 then String (byte r) ""
  else if r <? 0x800 then String (byte (Z.lor 0xC0 (Z.shiftr r 6))) (String (cont r) "")
  else if r <? 0x10000 then
    String (byte (Z.lor 0xE0 (Z.shiftr r 12))) (String (cont (Z.shiftr r 6)) (String (cont r) ""))
  else
    String (byte (Z.lor 0xF0 (Z.shiftr r 18)))
      (String (cont (Z.shiftr r 12)) (String (cont (Z.shiftr r 6)) (String (cont r) ""))).

Definition encode_runes (rs : list Z) : string := foldr (λ r acc, utf8_encode r +:+ acc) "" rs.

(** [strings.Fields]: [word] is the field read so far. *)
Fixpoint fields_loop (l : list (Z * string)) (word : string) : list string :=
  match l with
  | [] => if bool_decide (word = "") then [] else [word]
  | (r, t) :: l' =>
      if is_space r
      then if bool_decide (word = "") then fields_loop l' "" else word :: fields_loop l' ""
      else fields_loop l' (word +:+ t)
  end.

Definition strings_Fields (s : string) : list string := fields_loop (decode_utf8 s) "".

(** [strings.Join] *)
Fixpoint strings_Join (l : list string) (sep : string) : string :=
  match l with
  | [] => ""
  | [s] => s
  | s :: l' => s +:+ sep +:+ strings_Join l' sep
  end.

(** ** types.go *)

Definition DefaultSupplierPage : Z := 25.
Definition MaximumPageSize : Z := 100.

Record SDetails := mkSDetails {
  dt_Name : string; dt_Type : string; dt_TypeID : string; dt_Building : string; dt_BuildingID : string;
  dt_Floor : string; dt_LocationDescription : string; dt_Latitude : spec_float; dt_Longitude : spec_float;
  dt_OpeningTime : string; dt_ClosingTime : string; dt_ImageURL : option string }.

Record SVersion := mkSVersion {
  ve_SupplierID : string; ve_VersionID : string; ve_Details : SDetails; ve_Available : bool; ve_CreatedAt : Z }.

Record Supplier := mkSupplier {
  sp_SupplierID : string; sp_VersionID : string; sp_Details : SDetails; sp_Available : bool;
  sp_CreatedAt : Z; sp_UpdatedAt : Z }.

(** [Create]; the coordinates are pointers. *)
Record SCreate := mkSCreate {
  ct_Name : string; ct_Type : string; ct_Building : string; ct_Floor : string; ct_LocationDescription : string;
  ct_Latitude : option spec_float; ct_Longitude : option spec_float;
  ct_OpeningTime : string; ct_ClosingTime : string; ct_ImageURL : option string }.

Record Patch := mkPatch {
  pa_Name : option string; pa_Type : option string; pa_Building : option string; pa_Floor : option string;
  pa_LocationDescription : option string; pa_Latitude : option spec_float; pa_Longitude : option spec_float;
  pa_OpeningTime : option string; pa_ClosingTime : option string; pa_ImageURLSet : bool; pa_ImageURL : option string }.

Definition is_nil {A} (x : option A) : bool := match x with None => true | Some _ => false end.

Definition patch_Empty (p : Patch) : bool :=
  is_nil (pa_Name p) && is_nil (pa_Type p) && is_nil (pa_Building p) && is_nil (pa_Floor p)
  && is_nil (pa_LocationDescription p) && is_nil (pa_Latitude p) && is_nil (pa_Longitude p)
  && is_nil (pa_OpeningTime p) && is_nil (pa_ClosingTime p) && negb (pa_ImageURLSet p).

(** [Patch.Apply]: a patched building or type is not resolved yet. *)
Definition patch_Apply (p : Patch) (d : SDetails) : SDetails :=
  mkSDetails (default (dt_Name d) (pa_Name p))
    (default (dt_Type d) (pa_Type p)) (if is_nil (pa_Type p) then dt_TypeID d else "")
    (default (dt_Building d) (pa_Building p)) (if is_nil (pa_Building p) then dt_BuildingID d else "")
    (default (dt_Floor d) (pa_Floor p)) (default (dt_LocationDescription d) (pa_LocationDescription p))
    (default (dt_Latitude d) (pa_Latitude p)) (default (dt_Longitude d) (pa_Longitude p))
    (default (dt_OpeningTime d) (pa_OpeningTime p)) (default (dt_ClosingTime d) (pa_ClosingTime p))
    (if pa_ImageURLSet p then pa_ImageURL p else dt_ImageURL d).

Definition SortName : string := "name".
Definition SortNameDesc : string := "-name".
Definition SortType : string := "type".
Definition SortTypeDesc : string := "-type".
Definition SortBuilding : string := "building".
Definition SortBuildingDesc : string := "-building".
Definition ListSorts : list string := [SortName; SortNameDesc; SortType; SortTypeDesc; SortBuilding; SortBuildingDesc].

Definition sort_Valid (s : string) : bool := bool_decide (s ∈ ListSorts).

Record ListFilter := mkListFilter {
  lf_Query : string; lf_Type : string; lf_Building : string; lf_Sort : string; lf_Limit : Z; lf_Cursor : string }.

Definition PageSize (f : ListFilter) : Z := if lf_Limit f =? 0 then DefaultSupplierPage else lf_Limit f.
Definition SortOrder (f : ListFilter) : string := if bool_decide (lf_Sort f = "") then SortName else lf_Sort f.

Record SPage := mkSPage { sg_Items : list Supplier; sg_NextCursor : string }.

(** ** lookup.go *)

Inductive LookupKind := BuildingLookup | SupplierTypeLookup.
#[export] Instance LookupKind_eq_dec : EqDecision LookupKind.
Proof. solve_decision. Defined.

Definition MaximumLookupListSize : Z := 500.

Record Lookup := mkLookup { lk_ID : string; lk_Name : string; lk_Retired : bool }.

(** ** validation.go *)

Record FieldViolation := mkViolation { fv_Field : string; fv_Message : string }.
#[export] Instance FieldViolation_eq_dec : EqDecision FieldViolation.
Proof. solve_decision. Defined.

(** [^(?:[01][0-9]|2[0-3]):[0-5][0-9]$] *)
Definition is_digit (a : ascii) : bool := between 48 (byte_of a) 57.

Definition clockTimePattern (s : string) : bool :=
  match s with
  | String a (String b (String c (String d (String e EmptyString)))) =>
      ((between 48 (byte_of a) 49 && is_digit b) || ((byte_of a =? 50) && between 48 (byte_of b) 51))
      && (byte_of c =? 58) && between 48 (byte_of d) 53 && is_digit e
  | _ => false
  end.

Definition ValidVersionID (id : string) : bool := sup_uuidPattern id.
Definition ValidLookupID (id : string) : bool := sup_uuidPattern id.

Definition f_finite (x : spec_float) : bool :=
  match x with S754_nan | S754_infinity _ => false | _ => true end.

(** Not NaN, not infinite and within [limit] of zero. *)
Definition in_degrees (x : spec_float) (limit : Z) : bool :=
  f_finite x && negb (SFltb x (f_of (- limit))) && negb (SFltb (f_of limit) x).

Section validation.
Context `{GoTables}.

(** [strings.ToLower] *)
Definition strings_ToLower (s : string) : string := encode_runes (unicode_ToLower <$> runes s).

Definition NormalizeName (name : string) : string := strings_ToLower (strings_Join (strings_Fields name) " ").

Definition LookupKey (name : string) : string :=
  encode_runes (unicode_ToLower <$> List.filter (λ r, between 48 r 57 || unicode_alphabetic r) (runes name)).

Definition checkRequired (field value : string) (maximum : Z) : list FieldViolation :=
  if bool_decide (trim_space value = "") then [mkViolation field "is required"]
  else if maximum <? rune_count value then [mkViolation field "is too long"] else [].

(** A blank value is already reported as required. *)
Definition checkLookupKey (field value : string) : list FieldViolation :=
  if negb (bool_decide (trim_space value = "")) && bool_decide (LookupKey value = "")
  then [mkViolation field "must contain a letter or digit"] else [].

Definition checkClock (field value : string) : list FieldViolation :=
  if bool_decide (value = "") then [mkViolation field "is required"]
  else if clockTimePattern value then [] else [mkViolation field "must use HH:MM in 24-hour time"].

Definition validateImageURL (value : string) : list FieldViolation :=
  if 2048 <? rune_count value then [mkViolation "imageUrl" "is too long"]
  else match ParseRequestURI value with
       | Some (scheme, host) =>
           if (bool_decide (scheme = "http") || bool_decide (scheme = "https")) && negb (bool_decide (host = ""))
           then [] else [mkViolation "imageUrl" "must be an absolute HTTP or HTTPS URL"]
       | None => [mkViolation "imageUrl" "must be an absolute HTTP or HTTPS URL"]
       end.

(** The violations; none is the answer [nil]. *)
Definition ValidateDetails (d : SDetails) : list FieldViolation :=
  checkRequired "name" (dt_Name d) 120 ++ checkRequired "type" (dt_Type d) 64
  ++ checkRequired "building" (dt_Building d) 120
  ++ checkLookupKey "type" (dt_Type d) ++ checkLookupKey "building" (dt_Building d)
  ++ checkRequired "floor" (dt_Floor d) 32 ++ checkRequired "locationDescription" (dt_LocationDescription d) 500
  ++ (if in_degrees (dt_Latitude d) 90 then [] else [mkViolation "latitude" "must be between -90 and 90"])
  ++ (if in_degrees (dt_Longitude d) 180 then [] else [mkViolation "longitude" "must be between -180 and 180"])
  ++ checkClock "openingTime" (dt_OpeningTime d) ++ checkClock "closingTime" (dt_ClosingTime d)
  ++ (if negb (bool_decide (dt_OpeningTime d = "")) && bool_decide (dt_OpeningTime d = dt_ClosingTime d)
      then [mkViolation "closingTime" "must differ from openingTime"] else [])
  ++ match dt_ImageURL d with Some url => validateImageURL url | None => [] end.

Definition required_coordinate (field : string) (v : option spec_float) : list FieldViolation :=
  match v with None => [mkViolation field "is required"] | Some _ => [] end.

Definition ValidateCreate (input : SCreate) : res (list FieldViolation) SDetails :=
  let details := mkSDetails (ct_Name input) (ct_Type input) "" (ct_Building input) "" (ct_Floor input)
    (ct_LocationDescription input) (default f_zero (ct_Latitude input)) (default f_zero (ct_Longitude input))
    (ct_OpeningTime input) (ct_ClosingTime input) (ct_ImageURL input) in
  match required_coordinate "latitude" (ct_Latitude input) ++ required_coordinate "longitude" (ct_Longitude input)
        ++ ValidateDetails details with
  | [] => Ok details
  | violations => Err violations
  end.

Definition InvalidSortViolation : FieldViolation :=
  mkViolation "sort" ("must be one of " +:+ strings_Join ListSorts ", ").

Definition too_long (field : string) (value : string) (maximum : Z) : list FieldViolation :=
  if maximum <? rune_count value then [mkViolation field "is too long"] else [].

Definition ValidateListFilter (f : ListFilter) : list FieldViolation :=
  (if (lf_Limit f <? 0) || (MaximumPageSize <? lf_Limit f)
   then [mkViolation "limit" "must be between 1 and 100 when provided"] else [])
  ++ too_long "q" (trim_space (lf_Query f)) 120 ++ too_long "type" (trim_space (lf_Type f)) 64
  ++ too_long "building" (trim_space (lf_Building f)) 120
  ++ (if negb (bool_decide (lf_Sort f = "")) && negb (sort_Valid (lf_Sort f)) then [InvalidSortViolation] else [])
  ++ too_long "cursor" (lf_Cursor f) 512.

End validation.
