(* ===== verification/Catalogue.v ===== *)
(** * supplier-service: the catalogue in the database

    [internal/database/supplierrepo] apart from deletions: repository.go,
    lookups.go, lookup_store.go and cursor.go with their queries
    (suppliers.sql, lookups.sql), the tables and constraints of the migrations
    and their SQL functions.  A call is one transaction over [CDB]; generated
    UUIDs and the nonce of a cursor are arguments.  PostgreSQL's text
    functions are the class [PgText], AES-GCM and base64 the class [Cipher].
    Metrics and logs are left out. *)

From Stdlib Require Import SpecFloat.
From S2P Require Import Prelude Keyset GoText Json GoTime Errand ErrandStore OpsRepo ErrandHttp ErrandReads Deletion SupplierTypes.

(** ** SQL functions *)

Class PgText := {
  pg_squeeze : string → string;      (* regexp_replace(_, '[[:space:]]+', ' ', 'g') *)
  pg_lower : string → string;        (* lower(_) *)
  pg_alnum : string → string;        (* regexp_replace(_ COLLATE pg_c_utf8, '[^[:alnum:]]', '', 'g') *)
  pg_lower_c : string → string;      (* lower(_ COLLATE pg_c_utf8) *)
}.

Definition is_blank (a : ascii) : bool := byte_of a =? 32.

Fixpoint ltrim (s : string) : string :=
  match s with String a s' => if is_blank a then ltrim s' else s | EmptyString => "" end.

Fixpoint rtrim (s : string) : string :=
  match s with
  | EmptyString => ""
  | String a s' => let t := rtrim s' in if is_blank a && bool_decide (t = "") then "" else String a t
  end.

Definition btrim (s : string) : string := rtrim (ltrim s).

(** The server refuses text that is not UTF-8 or contains a zero. *)
Definition text_ok (s : string) : bool :=
  forallb (λ rt, negb (rt.1 =? 0) && negb ((rt.1 =? rune_error) && (String.length rt.2 =? 1)%nat)) (decode_utf8 s).

(** [strpos(s, t) > 0] *)
Fixpoint contains (t s : string) : bool :=
  String.prefix t s || match s with String _ s' => contains t s' | EmptyString => false end.

(** ** Tables *)

(** [suppliers] *)
Record CatRow := mkCatRow {
  cs_VersionID : string; cs_Name : string; cs_CreatedAt : Z; cs_UpdatedAt : Z; cs_DeletedAt : option Z }.

(** [supplier_versions]; the times of day are in the form HH:MM. *)
Record VersionRow := mkVersionRow {
  vr_SupplierID : string; vr_Name : string; vr_TypeID : string; vr_BuildingID : string; vr_Floor : string;
  vr_Location : string; vr_Latitude : spec_float; vr_Longitude : spec_float; vr_Opening : string; vr_Closing : string;
  vr_Image : option string; vr_CreatedAt : Z }.

(** [buildings] and [supplier_types] *)
Record LookupRow := mkLookupRow { lr_Name : string; lr_CreatedAt : Z; lr_RetiredAt : option Z }.

(** [supplier_seed_provenance] *)
Record SeedRow := mkSeedRow { se_SupplierID : string; se_SeededAt : Z }.

Record CDB := mkCDB {
  cd_suppliers : gmap string CatRow; cd_versions : gmap string VersionRow;
  cd_buildings : gmap string LookupRow; cd_types : gmap string LookupRow; cd_seeds : gmap (string * string) SeedRow }.

Definition set_cats m db := mkCDB m (cd_versions db) (cd_buildings db) (cd_types db) (cd_seeds db).
Definition set_versions m db := mkCDB (cd_suppliers db) m (cd_buildings db) (cd_types db) (cd_seeds db).
Definition set_seeds m db := mkCDB (cd_suppliers db) (cd_versions db) (cd_buildings db) (cd_types db) m.

Definition lookups (kind : LookupKind) (db : CDB) : gmap string LookupRow :=
  match kind with BuildingLookup => cd_buildings db | SupplierTypeLookup => cd_types db end.
Definition set_lookups (kind : LookupKind) (m : gmap string LookupRow) (db : CDB) : CDB :=
  match kind with
  | BuildingLookup => mkCDB (cd_suppliers db) (cd_versions db) m (cd_types db) (cd_seeds db)
  | SupplierTypeLookup => mkCDB (cd_suppliers db) (cd_versions db) (cd_buildings db) m (cd_seeds db)
  end.

Definition empty_cdb : CDB := mkCDB ∅ ∅ ∅ ∅ ∅.

Definition lookup_live (r : LookupRow) : bool := is_nil (lr_RetiredAt r).
Definition supplier_live (s : CatRow) : bool := is_nil (cs_DeletedAt s).

(** ** Errors *)

Inductive SCode :=
| CInvalidArgument | CUnauthenticated | CForbidden | CSupplierNotFound | CSupplierVersionNotFound
| CSupplierNameConflict | CBuildingNotFound | CBuildingConflict | CBuildingInUse | CSupplierTypeNotFound
| CSupplierTypeConflict | CSupplierTypeInUse | CDependencyUnavailable | CInternal.
#[export] Instance SCode_eq_dec : EqDecision SCode.
Proof. solve_decision. Defined.

(** [CatPg] is a PostgreSQL error with its SQLSTATE and constraint, [CatOther]
    any other error of the driver. *)
Inductive CatError :=
| CatValidation (violations : list FieldViolation)
| CatApp (code : SCode) (fields : list FieldViolation)
| CatLookupNotFound
| CatLookupConflict (existing : Lookup)
| CatLookupInUse (lookup : Lookup) (suppliers : Z)
| CatPg (state constraint : string)
| CatOther (what : string).

Abbreviation CatOp := (M CDB CatError).

Definition supplierNotFound : CatError := CatApp CSupplierNotFound [].
Definition supplierVersionNotFound : CatError := CatApp CSupplierVersionNotFound [].
Definition cat_invalidArgument : CatError := CatApp CInvalidArgument [].

Definition normalizedNameConstraint : string := "suppliers_live_normalized_name_uidx".

Definition unknownBuilding : FieldViolation := mkViolation "building" "must be an existing building".
Definition unknownSupplierType : FieldViolation := mkViolation "type" "must be an existing supplier type".

Definition lookupConstraintViolations : list (string * FieldViolation) :=
  [("supplier_versions_building_fkey", unknownBuilding);
   ("supplier_versions_supplier_type_fkey", unknownSupplierType);
   ("buildings_name_not_blank", mkViolation "building" "is required");
   ("buildings_lookup_key_not_blank", mkViolation "building" "must contain a letter or digit");
   ("supplier_types_name_not_blank", mkViolation "type" "is required");
   ("supplier_types_lookup_key_not_blank", mkViolation "type" "must contain a letter or digit")].

Definition mapWriteError (e : CatError) : CatError :=
  match e with
  | CatPg state constraint =>
      if bool_decide (state = "23505") && bool_decide (constraint = normalizedNameConstraint)
      then CatApp CSupplierNameConflict []
      else if bool_decide (state = "23503") || bool_decide (state = "23514") then
        match list_find (λ cv, cv.1 = constraint) lookupConstraintViolations with
        | Some (_, (_, violation)) => CatValidation [violation]
        | None => e
        end
      else e
  | _ => e
  end.

Definition mapped {A} (m : CatOp A) : CatOp A :=
  λ db, match m db with Ok r => Ok r | Err e => Err (mapWriteError e) end.

(** ** Statements *)

Section catalogue.
Context `{Hpg : Postgres, Hcol : Collation, Hgo : GoTables, Htext : PgText}.

Definition normalize_supplier_name (s : string) : string := pg_lower (btrim (pg_squeeze s)).
Definition normalize_lookup_key (s : string) : string := pg_lower_c (pg_alnum s).

Definition lookup_key (r : LookupRow) : string := normalize_lookup_key (lr_Name r).

Definition cat_uuid (s : string) : CatOp string :=
  match uuid_cast s with Some u => ret u | None => fail (CatPg "22P02" "") end.

(** What a statement may be refused for, in order. *)
Fixpoint demand (checks : list (bool * string * string)) : CatOp unit :=
  match checks with
  | [] => ret tt
  | (ok, state, constraint) :: checks' => if ok then demand checks' else fail (CatPg state constraint)
  end.

Definition name_taken (name : string) (except : string) (db : CDB) : bool :=
  existsb (λ kv, supplier_live kv.2 && bool_decide (cs_Name kv.2 = name) && negb (bool_decide (kv.1 = except)))
    (map_to_list (cd_suppliers db)).

Definition canonical_name (name : string) : bool :=
  negb (bool_decide (name = "")) && bool_decide (name = normalize_supplier_name name).

(** [InsertSupplierIdentity]; it returns the two times. *)
Definition InsertSupplierIdentity (sid vid name : string) (now : Z) : CatOp (Z * Z) :=
  λ db,
    match demand [(text_ok name, "22021", ""); (rune_count name <=? 120, "22001", "");
                  (canonical_name name, "23514", "suppliers_normalized_name_is_canonical");
                  (bool_decide (cd_suppliers db !! sid = None), "23505", "suppliers_pkey");
                  (negb (name_taken name sid db), "23505", normalizedNameConstraint)] db with
    | Err e => Err e
    | Ok _ =>
        let at_ := stored_time now in
        Ok ((at_, at_), set_cats (<[sid := mkCatRow vid name at_ at_ None]> (cd_suppliers db)) db)
    end.

Definition version_row (sid type building : string) (d : SDetails) (now : Z) : VersionRow :=
  mkVersionRow sid (dt_Name d) type building (dt_Floor d) (dt_LocationDescription d) (dt_Latitude d) (dt_Longitude d)
    (dt_OpeningTime d) (dt_ClosingTime d)
    (match dt_ImageURL d with Some url => text url | None => None end) (stored_time now).

(** [InsertSupplierVersion] with [versionParams]; every caller has validated
    the times of day. *)
Definition InsertSupplierVersion (vid sid : string) (d : SDetails) (now : Z) : CatOp unit :=
  let! v := cat_uuid vid in
  let! s := cat_uuid sid in
  let! type := cat_uuid (dt_TypeID d) in
  let! building := cat_uuid (dt_BuildingID d) in
  λ db,
    let row := version_row s type building d now in
    match demand [(text_ok (vr_Name row) && text_ok (vr_Floor row) && text_ok (vr_Location row)
                     && text_ok (default "" (vr_Image row)), "22021", "");
                  (clockTimePattern (vr_Opening row) && clockTimePattern (vr_Closing row), "22007", "");
                  ((rune_count (vr_Name row) <=? 120) && (rune_count (normalize_supplier_name (vr_Name row)) <=? 120)
                     && (rune_count (vr_Floor row) <=? 32) && (rune_count (vr_Location row) <=? 500)
                     && (rune_count (default "" (vr_Image row)) <=? 2048), "22001", "");
                  (negb (bool_decide (normalize_supplier_name (vr_Name row) = "")), "23514", "supplier_versions_name_not_blank");
                  (negb (bool_decide (btrim (vr_Floor row) = "")), "23514", "supplier_versions_floor_not_blank");
                  (negb (bool_decide (btrim (vr_Location row) = "")), "23514", "supplier_versions_location_not_blank");
                  (in_degrees (vr_Latitude row) 90, "23514", "supplier_versions_latitude_range");
                  (in_degrees (vr_Longitude row) 180, "23514", "supplier_versions_longitude_range");
                  (negb (bool_decide (vr_Opening row = vr_Closing row)), "23514", "supplier_versions_hours_differ");
                  (bool_decide (cd_versions db !! v = None), "23505", "supplier_versions_pkey");
                  (bool_decide (is_Some (cd_suppliers db !! s)), "23503", "supplier_versions_supplier_fkey");
                  (bool_decide (is_Some (cd_buildings db !! building)), "23503", "supplier_versions_building_fkey");
                  (bool_decide (is_Some (cd_types db !! type)), "23503", "supplier_versions_supplier_type_fkey")] db with
    | Err e => Err e
    | Ok _ => Ok (tt, set_versions (<[v := row]> (cd_versions db)) db)
    end.

(** The deferred constraints of a row of [suppliers], checked at the commit:
    the composite foreign key and the constraint trigger. *)
Definition commit_supplier (sid : string) : CatOp unit :=
  λ db,
    match cd_suppliers db !! sid with
    | None => Ok (tt, db)
    | Some s =>
        match cd_versions db !! cs_VersionID s with
        | Some v =>
            if negb (bool_decide (vr_SupplierID v = sid)) then Err (CatPg "23503" "suppliers_current_version_fkey")
            else if bool_decide (normalize_supplier_name (vr_Name v) = cs_Name s) then Ok (tt, db)
            else Err (CatPg "23514" "suppliers_current_version_name_matches")
        | None => Err (CatPg "23503" "suppliers_current_version_fkey")
        end
    end.

(** [ResolveBuildingByKey], [ResolveSupplierTypeByKey] and the [FindLive]
    queries *)
Definition live_by_key (name : string) (r : LookupRow) : bool :=
  bool_decide (lookup_key r = normalize_lookup_key name) && lookup_live r.

Definition ResolveByKey (kind : LookupKind) (name : string) : CatOp (option (string * string)) :=
  do! demand [(text_ok name, "22021", "")];
  λ db, Ok ((λ kr, (kr.1, lr_Name kr.2)) <$> scan1 (live_by_key name) (lookups kind db), db).

(** ** lookups.go *)

Definition hasViolation (violations : list FieldViolation) (field : string) : bool :=
  existsb (λ v, bool_decide (fv_Field v = field)) violations.

Definition set_building (id name : string) (d : SDetails) : SDetails :=
  mkSDetails (dt_Name d) (dt_Type d) (dt_TypeID d) name id (dt_Floor d) (dt_LocationDescription d) (dt_Latitude d)
    (dt_Longitude d) (dt_OpeningTime d) (dt_ClosingTime d) (dt_ImageURL d).
Definition set_type (id name : string) (d : SDetails) : SDetails :=
  mkSDetails (dt_Name d) name id (dt_Building d) (dt_BuildingID d) (dt_Floor d) (dt_LocationDescription d) (dt_Latitude d)
    (dt_Longitude d) (dt_OpeningTime d) (dt_ClosingTime d) (dt_ImageURL d).

(** One field of [resolveLookups]. *)
Definition resolve_field (kind : LookupKind) (id name : string) (unknown : FieldViolation)
    (set : string → string → SDetails → SDetails) (d : SDetails) (invalid : list FieldViolation) :
    CatOp (SDetails * list FieldViolation) :=
  if bool_decide (id = "") && negb (hasViolation invalid (fv_Field unknown)) then
    let! row := ResolveByKey kind name in
    ret match row with
        | Some (id, name) => (set id name d, [])
        | None => (d, [unknown])
        end
  else ret (d, []).

Definition resolveLookups (d : SDetails) (invalid : list FieldViolation) : CatOp (SDetails * list FieldViolation) :=
  let! b := resolve_field BuildingLookup (dt_BuildingID d) (dt_Building d) unknownBuilding set_building d invalid in
  let! t := resolve_field SupplierTypeLookup (dt_TypeID b.1) (dt_Type b.1) unknownSupplierType set_type b.1 invalid in
  ret (t.1, b.2 ++ t.2).

Definition validateAndResolve (d : SDetails) : CatOp SDetails :=
  let violations := ValidateDetails d in
  let! r := resolveLookups d violations in
  match violations ++ r.2 with
  | [] => ret r.1
  | all => fail (CatValidation all)
  end.

(** ** repository.go *)

Definition catalogue_Create (sid vid : string) (d : SDetails) (now : Z) : CatOp Supplier :=
  let! d := validateAndResolve (set_type "" (dt_Type d) (set_building "" (dt_Building d) d)) in
  let! times := mapped (InsertSupplierIdentity sid vid (NormalizeName (dt_Name d)) now) in
  do! mapped (InsertSupplierVersion vid sid d now);
  do! mapped (commit_supplier sid);
  ret (mkSupplier sid vid d true times.1 times.2).

(** [LockCurrentSupplier] *)
Definition LockCurrentSupplier (supplierID : string) : CatOp (option CatRow) :=
  let! sid := cat_uuid supplierID in
  λ db, Ok (match cd_suppliers db !! sid with
            | Some s => if supplier_live s then Some s else None
            | None => None
            end, db).

(** A version joined with its supplier and lookups. *)
Record VersionView := mkVersionView {
  vv_VersionID : string; vv_Row : VersionRow; vv_Supplier : CatRow; vv_Building : LookupRow; vv_Type : LookupRow }.

Definition version_view (db : CDB) (vid : string) : option VersionView :=
  v ← cd_versions db !! vid;
  s ← cd_suppliers db !! vr_SupplierID v;
  b ← cd_buildings db !! vr_BuildingID v;
  t ← cd_types db !! vr_TypeID v;
  Some (mkVersionView vid v s b t).

Definition GetSupplierVersion (versionID : string) : CatOp (option VersionView) :=
  let! vid := cat_uuid versionID in λ db, Ok (version_view db vid, db).

(** [detailsFromValues] *)
Definition details_of (v : VersionView) : SDetails :=
  let r := vv_Row v in
  mkSDetails (vr_Name r) (lr_Name (vv_Type v)) (vr_TypeID r) (lr_Name (vv_Building v)) (vr_BuildingID r) (vr_Floor r)
    (vr_Location r) (vr_Latitude r) (vr_Longitude r) (vr_Opening r) (vr_Closing r) (vr_Image r).

(** [ReplaceCurrentSupplierVersion] *)
Definition ReplaceCurrentSupplierVersion (vid name : string) (now : Z) (supplierID : string) : CatOp (option (Z * Z)) :=
  let! v := cat_uuid vid in
  let! sid := cat_uuid supplierID in
  λ db,
    match cd_suppliers db !! sid with
    | Some s =>
        if supplier_live s then
          let at_ := stored_time now in
          match demand [(text_ok name, "22021", ""); (rune_count name <=? 120, "22001", "");
                        (canonical_name name, "23514", "suppliers_normalized_name_is_canonical");
                        (cs_CreatedAt s <=? at_, "23514", "suppliers_updated_after_creation");
                        (negb (name_taken name sid db), "23505", normalizedNameConstraint)] db with
          | Err e => Err e
          | Ok _ => Ok (Some (cs_CreatedAt s, at_),
                        set_cats (<[sid := mkCatRow v name (cs_CreatedAt s) at_ None]> (cd_suppliers db)) db)
          end
        else Ok (None, db)
    | None => Ok (None, db)
    end.

(** [vid] is what [GenerateSupplierVersionID] returns. *)
Definition catalogue_Update (vid supplierID : string) (patch : Patch) (now : Z) : CatOp Supplier :=
  let! current := LockCurrentSupplier supplierID in
  match current with
  | None => fail supplierNotFound
  | Some s =>
      let! version := GetSupplierVersion (cs_VersionID s) in
      match version with
      | None => fail (CatOther "no rows in result set")
      | Some v =>
          let! d := validateAndResolve (patch_Apply patch (details_of v)) in
          do! mapped (InsertSupplierVersion vid supplierID d now);
          let! identity := mapped (ReplaceCurrentSupplierVersion vid (NormalizeName (dt_Name d)) now supplierID) in
          match identity with
          | None => fail supplierNotFound
          | Some times =>
              let! sid := cat_uuid supplierID in
              do! mapped (commit_supplier sid);
              ret (mkSupplier supplierID vid d true times.1 times.2)
          end
      end
  end.

(** The current version of a supplier that is not deleted. *)
Definition current_view (db : CDB) (sid : string) : option VersionView :=
  s ← cd_suppliers db !! sid;
  v ← version_view db (cs_VersionID s);
  if supplier_live s && bool_decide (vr_SupplierID (vv_Row v) = sid) then Some v else None.

(** A row of the current catalogue. *)
Definition supplier_of (sid : string) (v : VersionView) : Supplier :=
  mkSupplier sid (vv_VersionID v) (details_of v) true (cs_CreatedAt (vv_Supplier v)) (cs_UpdatedAt (vv_Supplier v)).

Definition GetCurrentAvailable (supplierID : string) : CatOp Supplier :=
  let! sid := cat_uuid supplierID in
  λ db, match current_view db sid with
        | Some v => Ok (supplier_of sid v, db)
        | None => Err supplierNotFound
        end.

Definition GetVersion (versionID : string) : CatOp SVersion :=
  let! v := GetSupplierVersion versionID in
  match v with
  | None => fail supplierVersionNotFound
  | Some v =>
      ret (mkSVersion (vr_SupplierID (vv_Row v)) (vv_VersionID v) (details_of v)
             (supplier_live (vv_Supplier v) && bool_decide (cs_VersionID (vv_Supplier v) = vv_VersionID v))
             (vr_CreatedAt (vv_Row v)))
  end.

Definition NormalizedNameExists (name : string) (excluded : option string) : CatOp bool :=
  let! except := match excluded with Some id => if bool_decide (id = "") then ret "" else cat_uuid id | None => ret "" end in
  do! demand [(text_ok (NormalizeName name), "22021", "")];
  λ db, Ok (name_taken (NormalizeName name) except db, db).

(** ** Lists *)

Record ListParams := mkListParams {
  lp_QueryText : string; lp_SupplierType : string; lp_Building : string; lp_PageLimit : Z }.

Definition matches (p : ListParams) (v : VersionView) : bool :=
  let q := normalize_supplier_name (lp_QueryText p) in
  (bool_decide (lp_QueryText p = "") || contains q (cs_Name (vv_Supplier v))
     || contains q (normalize_supplier_name (lr_Name (vv_Building v)))
     || contains q (normalize_supplier_name (vr_Floor (vv_Row v)))
     || contains q (normalize_supplier_name (vr_Location (vv_Row v))))
  && (bool_decide (lp_SupplierType p = "") || bool_decide (lookup_key (vv_Type v) = normalize_lookup_key (lp_SupplierType p)))
  && (bool_decide (lp_Building p = "") || bool_decide (lookup_key (vv_Building v) = normalize_lookup_key (lp_Building p))).

Definition available (db : CDB) : list VersionView :=
  omap (λ kv, current_view db kv.1) (map_to_list (cd_suppliers db)).

(** The key of each order and how it compares. *)
Definition name_key (v : VersionView) : string * string := (cs_Name (vv_Supplier v), vr_SupplierID (vv_Row v)).
Definition type_key (v : VersionView) : string * (string * string) := (lookup_key (vv_Type v), name_key v).
Definition building_key (v : VersionView) : string * (string * string) := (lookup_key (vv_Building v), name_key v).

Abbreviation name_le := (pair_le text_le String.le).
Abbreviation place_le := (pair_le text_le (pair_le text_le String.le)).

(** The anchor of a later page: its details, normalized name and supplier. *)
Record Anchor := mkAnchor { an_Details : SDetails; an_Name : string; an_SupplierID : string }.

Definition anchor_name (a : Anchor) : string * string := (an_Name a, an_SupplierID a).
Definition anchor_type (a : Anchor) : string * (string * string) := (normalize_lookup_key (dt_Type (an_Details a)), anchor_name a).
Definition anchor_building (a : Anchor) : string * (string * string) :=
  (normalize_lookup_key (dt_Building (an_Details a)), anchor_name a).

(** The six list queries, by the sort. *)
Definition listAvailableRows (sort : string) (p : ListParams) (after : option Anchor) (db : CDB) : res CatError (list VersionView) :=
  let rows := List.filter (matches p) (available db) in
  let n := Z.to_nat (lp_PageLimit p) in
  if bool_decide (sort = SortName) then Ok (keyset name_le name_key (anchor_name <$> after) n rows)
  else if bool_decide (sort = SortNameDesc) then Ok (keyset (rev_le name_le) name_key (anchor_name <$> after) n rows)
  else if bool_decide (sort = SortType) then Ok (keyset place_le type_key (anchor_type <$> after) n rows)
  else if bool_decide (sort = SortTypeDesc) then Ok (keyset (rev_le place_le) type_key (anchor_type <$> after) n rows)
  else if bool_decide (sort = SortBuilding) then Ok (keyset place_le building_key (anchor_building <$> after) n rows)
  else if bool_decide (sort = SortBuildingDesc) then Ok (keyset (rev_le place_le) building_key (anchor_building <$> after) n rows)
  else Err cat_invalidArgument.

(** ** lookup_store.go *)

Definition lookup_row (kr : string * LookupRow) : Lookup := mkLookup kr.1 (lr_Name kr.2) (negb (lookup_live kr.2)).

Definition lookup_order (kr : string * LookupRow) : string * string := (lookup_key kr.2, kr.1).

Definition sql_ListLookups (kind : LookupKind) (includeRetired : bool) (limit : Z) (db : CDB) : list Lookup :=
  lookup_row <$> keyset name_le lookup_order None (Z.to_nat limit)
    (scan (λ r, includeRetired || lookup_live r) (lookups kind db)).

Definition cat_boundedInt32 (value : Z) : CatOp Z :=
  if (value <=? 0) || (2147483647 <? value) then fail cat_invalidArgument else ret value.

Definition ListLookups (kind : LookupKind) (includeRetired : bool) (limit : Z) : CatOp (list Lookup) :=
  let! n := cat_boundedInt32 limit in λ db, Ok (sql_ListLookups kind includeRetired n db, db).

Definition lookup_table (kind : LookupKind) : string :=
  match kind with BuildingLookup => "buildings" | SupplierTypeLookup => "supplier_types" end.
Definition liveKeyIndex (kind : LookupKind) : string := lookup_table kind +:+ "_live_lookup_key_uidx".
Definition lookup_width (kind : LookupKind) : Z := match kind with BuildingLookup => 120 | SupplierTypeLookup => 64 end.

(** [INSERT INTO buildings (name, created_at)], up to the unique index. *)
Definition insert_lookup_checks (kind : LookupKind) (id name : string) (db : CDB) : list (bool * string * string) :=
  [(text_ok name, "22021", ""); (rune_count name <=? lookup_width kind, "22001", "");
   (negb (bool_decide (btrim name = "")), "23514", lookup_table kind +:+ "_name_not_blank");
   (negb (bool_decide (normalize_lookup_key name = "")), "23514", lookup_table kind +:+ "_lookup_key_not_blank");
   (bool_decide (lookups kind db !! id = None), "23505", lookup_table kind +:+ "_pkey")].

Definition new_lookup (name : string) (now : Z) : LookupRow := mkLookupRow name (stored_time now) None.

Definition add_lookup (kind : LookupKind) (id name : string) (now : Z) (db : CDB) : CDB :=
  set_lookups kind (<[id := new_lookup name now]> (lookups kind db)) db.

(** [CreateBuilding], [CreateSupplierType] *)
Definition sql_CreateLookup (kind : LookupKind) (id name : string) (now : Z) : CatOp Lookup :=
  λ db,
    match demand (insert_lookup_checks kind id name db) db with
    | Err e => Err e
    | Ok _ =>
        match scan1 (live_by_key name) (lookups kind db) with
        | Some _ => Err (CatPg "23505" (liveKeyIndex kind))
        | None => Ok (mkLookup id name false, add_lookup kind id name now db)
        end
    end.

(** The insert runs outside a transaction; [later] is the database when the
    winning row is read after a conflict. *)
Definition CreateLookup (kind : LookupKind) (id name : string) (now : Z) (later : CDB) (db : CDB) : res CatError Lookup * CDB :=
  match inTx (sql_CreateLookup kind id name now) db with
  | (Err (CatPg state constraint), db') =>
      if bool_decide (state = "23505") && bool_decide (constraint = liveKeyIndex kind) then
        let existing := match scan1 (live_by_key name) (lookups kind later) with
                        | Some (id, r) => mkLookup id (lr_Name r) false
                        | None => mkLookup "" "" false
                        end in
        (Err (CatLookupConflict existing), db')
      else if bool_decide (state = "23514") then
        (Err (CatValidation [mkViolation "name" "must contain a letter or digit"]), db')
      else (Err (CatPg state constraint), db')
  | r => r
  end.

(** [CountSuppliersUsingBuilding], [CountSuppliersUsingSupplierType] *)
Definition lookup_of (kind : LookupKind) (v : VersionRow) : string :=
  match kind with BuildingLookup => vr_BuildingID v | SupplierTypeLookup => vr_TypeID v end.

Definition uses (kind : LookupKind) (id : string) (db : CDB) (s : CatRow) : bool :=
  supplier_live s
  && match cd_versions db !! cs_VersionID s with
     | Some v => bool_decide (lookup_of kind v = id)
     | None => false
     end.

Definition countUsers (kind : LookupKind) (id : string) (db : CDB) : Z :=
  Z.of_nat (length (scan (uses kind id db) (cd_suppliers db))).

Definition RetireLookup (kind : LookupKind) (lookupID : string) (now : Z) : CatOp unit :=
  let! id := cat_uuid lookupID in
  λ db,
    match lookups kind db !! id with
    | None => Err CatLookupNotFound
    | Some r =>
        if negb (lookup_live r) then Ok (tt, db)
        else if 0 <? countUsers kind id db then Err (CatLookupInUse (lookup_row (id, r)) (countUsers kind id db))
        else Ok (tt, set_lookups kind (<[id := mkLookupRow (lr_Name r) (lr_CreatedAt r)
                                                 (Some (Z.max (stored_time now) (lr_CreatedAt r)))]> (lookups kind db)) db)
    end.

End catalogue.

(** ** cursor.go *)

Class Cipher := {
  b64_encode : string → string;                         (* base64.RawURLEncoding *)
  b64_decode : string → option string;                  (* .Strict().DecodeString *)
  aead_seal : Z → string → string → string;             (* nonce, plaintext, additional data *)
  aead_open : string → string → option string;
}.

(** What the code relies on: decoding inverts encoding, base64 is ASCII, a
    token opens with the additional data it was sealed with, and the token of a
    UUID is short. *)
Class CipherOk `{Cipher} : Prop := {
  b64_roundtrip s : b64_decode (b64_encode s) = Some s;
  b64_ascii s : rune_count (b64_encode s) = len (b64_encode s);
  aead_same n p a : aead_open (aead_seal n p a) a = Some p;
  token_short n p a : String.length p = 36%nat → len (b64_encode (aead_seal n p a)) ≤ 512;
  token_nonempty n p a : b64_encode (aead_seal n p a) ≠ "";
}.

Section cursor.
Context `{Hpg : Postgres, Hcol : Collation, Hgo : GoTables, Htext : PgText, Hc : Cipher}.

Definition cursorFilters (f : ListFilter) : string :=
  let zero := String "000"%char "" in
  NormalizeName (lf_Query f) +:+ zero +:+ LookupKey (lf_Type f) +:+ zero +:+ LookupKey (lf_Building f) +:+ zero
  +:+ SortOrder f.

Definition cat_encodeCursor (nonce : Z) (versionID : string) (f : ListFilter) : string :=
  b64_encode (aead_seal nonce versionID (cursorFilters f)).

Definition cat_decodeCursor (value : string) (f : ListFilter) : res CatError string :=
  match b64_decode value with
  | None => Err cat_invalidArgument
  | Some token =>
      if (512 <? len value) || negb (bool_decide (b64_encode token = value)) then Err cat_invalidArgument
      else match aead_open token (cursorFilters f) with
           | Some decoded => if ValidVersionID decoded then Ok decoded else Err cat_invalidArgument
           | None => Err cat_invalidArgument
           end
  end.

(** The anchor of a page, read before the page itself. *)
Definition read_anchor (f : ListFilter) (db : CDB) : res CatError (option Anchor) :=
  if bool_decide (lf_Cursor f = "") then Ok None
  else match cat_decodeCursor (lf_Cursor f) f with
       | Err e => Err e
       | Ok versionID =>
           match fst (inTx (GetVersion versionID) db) with
           | Ok a => Ok (Some (mkAnchor (ve_Details a) (NormalizeName (dt_Name (ve_Details a))) (ve_SupplierID a)))
           | Err (CatApp CSupplierVersionNotFound _) => Err cat_invalidArgument
           | Err e => Err e
           end
       end.

Definition list_params (f : ListFilter) : ListParams :=
  mkListParams (NormalizeName (lf_Query f)) (trim_space (lf_Type f)) (trim_space (lf_Building f)) (PageSize f + 1).

(** [anchored] is the database when the anchor is read. *)
Definition ListAvailable (nonce : Z) (f : ListFilter) (anchored db : CDB) : res CatError SPage :=
  match ValidateListFilter f with
  | _ :: _ as violations => Err (CatValidation violations)
  | [] =>
      match read_anchor f anchored with
      | Err e => Err e
      | Ok after =>
          let p := list_params f in
          if negb (text_ok (lp_QueryText p) && text_ok (lp_SupplierType p) && text_ok (lp_Building p))
          then Err (CatPg "22021" "")
          else match listAvailableRows (SortOrder f) p after db with
               | Err e => Err e
               | Ok rows =>
                   let n := Z.to_nat (PageSize f) in
                   let items := (λ v, supplier_of (vr_SupplierID (vv_Row v)) v) <$> take n rows in
                   Ok (mkSPage items
                         (if (n <? length rows)%nat
                          then match rows !! (n - 1)%nat with
                               | Some last => cat_encodeCursor nonce (vv_VersionID last) f
                               | None => ""
                               end
                          else ""))
               end
      end
  end.

End cursor.
