(* ===== verification/CatalogueHttp.v ===== *)
(** * supplier-service: the catalogue routes

    [internal/auth] (middleware.go, port.go), [internal/supplier/create],
    [update], [query], [versioning] and [lookup].  A request's JSON body is
    what the decoder reads from it, [None] when it reads no value; query
    parameters, the cursor among them, are in [qy_Values].  What the writers
    generate (UUIDs, the nonce of a cursor) is an argument.  The texts of
    error messages are left out. *)

From Stdlib Require Import SpecFloat.
From S2P Require Import Prelude Keyset GoText Json GoTime Errand ErrandStore OpsRepo ErrandHttp ErrandReads Deletion SupplierTypes Catalogue.

(** ** auth *)

Definition ReadSuppliers : string := "suppliers:read".
Definition ManageSuppliers : string := "suppliers:manage".

Record SPrincipal := mkSPrincipal { pr_Subject : string; pr_Permissions : list string }.

(** [Principal.Has] *)
Definition principal_Has (p : SPrincipal) (permission : string) : bool :=
  if bool_decide (pr_Subject p = "")
     || (negb (bool_decide (permission = ReadSuppliers)) && negb (bool_decide (permission = ManageSuppliers)))
  then false
  else existsb (λ granted, bool_decide (granted = permission)) (pr_Permissions p).

Inductive FailureKind := InvalidCredential | AccountDisabled | VerifierUnavailable | UnclassifiedFailure.

Inductive CBody :=
| CSupplier (s : Supplier)
| CPage (page : SPage)
| CVersion (v : SVersion)
| CLookups (items : list Lookup)
| CLookup (item : Lookup)
| CFailure (code : SCode) (fields : list FieldViolation)
| CNone.

Record CReply := mkCReply { crp_Status : Z; crp_Location : string; crp_Body : CBody }.

Definition c_error (status : Z) (code : SCode) (fields : list FieldViolation) : CReply :=
  mkCReply status "" (CFailure code fields).

Definition internal_error : CReply := c_error 500 CInternal [].

(** [extractBearerToken]: the scheme ends at the first space. *)
Fixpoint split_space (s : string) : option (string * string) :=
  match s with
  | EmptyString => None
  | String a s' => if is_blank a then Some ("", s')
                   else match split_space s' with Some (x, y) => Some (String a x, y) | None => None end
  end.

Definition extractBearerToken (header : string) : option string :=
  match split_space header with
  | Some (scheme, rest) =>
      if negb (bool_decide (to_lower scheme = "bearer")) then None
      else let token := trim_space rest in if bool_decide (token = "") then None else Some token
  | None => None
  end.

(** [RequirePermission] around the handler [next]. *)
Definition RequirePermission (authenticate : string → res FailureKind SPrincipal) (permission : string) (header : string)
    {DB} (next : SPrincipal → DB → CReply * DB) (db : DB) : CReply * DB :=
  match extractBearerToken header with
  | None => (c_error 401 CUnauthenticated [], db)
  | Some token =>
      match authenticate token with
      | Err InvalidCredential => (c_error 401 CUnauthenticated [], db)
      | Err AccountDisabled => (c_error 403 CForbidden [], db)
      | Err VerifierUnavailable => (c_error 503 CDependencyUnavailable [], db)
      | Err UnclassifiedFailure => (internal_error, db)
      | Ok principal =>
          if principal_Has principal permission then next principal db else (c_error 403 CForbidden [], db)
      end
  end.

(** ** Decoding *)

(** A pointer field: [null] makes it nil. *)
Definition dec_ptr {A} (dec : json → option A) (_ : option A) (v : json) : option (option A) :=
  match v with JNull => Some None | _ => Some <$> dec v end.

Definition json_string (v : json) : option string := match v with JStr s => Some s | _ => None end.

(** [DisallowUnknownFields] *)
Definition known_only (fields : list string) (ms : list (string * json)) : bool :=
  forallb (λ kv, existsb (λ f, key_matches f kv.1) fields) ms.

Definition request_members (fields : list string) (body : option json) : option (list (string * json)) :=
  match body ≫= members with
  | Some ms => if known_only fields ms then Some ms else None
  | None => None
  end.

Definition supplier_fields : list string :=
  ["supplierId"; "versionId"; "name"; "type"; "building"; "floor"; "locationDescription"; "latitude"; "longitude";
   "openingTime"; "closingTime"; "imageUrl"].

(** The two IDs a client may not send. *)
Definition forbidden_ids (sid vid : option string) : list FieldViolation :=
  (if is_nil sid then [] else [mkViolation "supplierId" "must not be provided"])
  ++ (if is_nil vid then [] else [mkViolation "versionId" "must not be provided"]).

Section http.
Context `{Hpg : Postgres, Hcol : Collation, Hgo : GoTables, Htext : PgText, Hfl : GoFloat, Hc : Cipher}.

(** ** create *)

Record createRequest := mkCreateRequest { cq_SupplierID : option string; cq_VersionID : option string; cq_Create : SCreate }.

Definition decode_create (body : option json) : option createRequest :=
  ms ← request_members supplier_fields body;
  sid ← dec_field (dec_ptr json_string) "supplierId" ms None;
  vid ← dec_field (dec_ptr json_string) "versionId" ms None;
  name ← dec_field dec_string "name" ms "";
  type ← dec_field dec_string "type" ms "";
  building ← dec_field dec_string "building" ms "";
  floor ← dec_field dec_string "floor" ms "";
  location ← dec_field dec_string "locationDescription" ms "";
  latitude ← dec_field (dec_ptr dec_float) "latitude" ms None;
  longitude ← dec_field (dec_ptr dec_float) "longitude" ms None;
  opening ← dec_field dec_string "openingTime" ms "";
  closing ← dec_field dec_string "closingTime" ms "";
  image ← dec_field (dec_ptr json_string) "imageUrl" ms None;
  Some (mkCreateRequest sid vid (mkSCreate name type building floor location latitude longitude opening closing image)).

(** What the decoder and the validation make of a body. *)
Definition create_input (body : option json) : res CReply SDetails :=
  match decode_create body with
  | None => Err (c_error 400 CInvalidArgument [])
  | Some req =>
      let ids := forbidden_ids (cq_SupplierID req) (cq_VersionID req) in
      match ValidateCreate (cq_Create req) with
      | Err violations => Err (c_error 400 CInvalidArgument (ids ++ violations))
      | Ok details => match ids with [] => Ok details | _ => Err (c_error 400 CInvalidArgument ids) end
      end
  end.

Definition created_reply (r : res CatError Supplier) : CReply :=
  match r with
  | Ok created => mkCReply 201 ("/suppliers/" +:+ sp_SupplierID created) (CSupplier created)
  | Err (CatApp CSupplierNameConflict _) => c_error 409 CSupplierNameConflict []
  | Err (CatApp CInvalidArgument fields) => c_error 400 CInvalidArgument fields
  | Err (CatValidation violations) => c_error 400 CInvalidArgument violations
  | Err _ => internal_error
  end.

Definition create_supplier (sid vid : string) (now : Z) (principal : option SPrincipal) (body : option json) (db : CDB) :
    CReply * CDB :=
  match principal with
  | None => (c_error 401 CUnauthenticated [], db)
  | Some p =>
      if negb (principal_Has p ManageSuppliers) then (c_error 403 CForbidden [], db)
      else match create_input body with
           | Err reply => (reply, db)
           | Ok details => let '(r, db') := inTx (catalogue_Create sid vid details now) db in (created_reply r, db')
           end
  end.

(** ** update *)

Record updateRequest := mkUpdateRequest {
  uq_SupplierID : option string; uq_VersionID : option string;
  uq_Name : option string; uq_Type : option string; uq_Building : option string; uq_Floor : option string;
  uq_LocationDescription : option string; uq_Latitude : option spec_float; uq_Longitude : option spec_float;
  uq_OpeningTime : option string; uq_ClosingTime : option string; uq_ImageURL : option json }.

Definition decode_update (body : option json) : option updateRequest :=
  ms ← request_members supplier_fields body;
  sid ← dec_field (dec_ptr json_string) "supplierId" ms None;
  vid ← dec_field (dec_ptr json_string) "versionId" ms None;
  name ← dec_field (dec_ptr json_string) "name" ms None;
  type ← dec_field (dec_ptr json_string) "type" ms None;
  building ← dec_field (dec_ptr json_string) "building" ms None;
  floor ← dec_field (dec_ptr json_string) "floor" ms None;
  location ← dec_field (dec_ptr json_string) "locationDescription" ms None;
  latitude ← dec_field (dec_ptr dec_float) "latitude" ms None;
  longitude ← dec_field (dec_ptr dec_float) "longitude" ms None;
  opening ← dec_field (dec_ptr json_string) "openingTime" ms None;
  closing ← dec_field (dec_ptr json_string) "closingTime" ms None;
  image ← dec_field dec_raw "imageUrl" ms None;
  Some (mkUpdateRequest sid vid name type building floor location latitude longitude opening closing image).

(** A field of the patch: [check] lists what is wrong with a value. *)
Definition patch_field {A} (check : A → list FieldViolation) (value : option A) : option A * list FieldViolation :=
  match value with
  | None => (None, [])
  | Some v => match check v with [] => (Some v, []) | violations => (None, violations) end
  end.

Definition patch_degrees (field message : string) (limit : Z) (x : spec_float) : list FieldViolation :=
  if in_degrees x limit then [] else [mkViolation field message].

(** Is the field set, the URL, and what is wrong with it. *)
Definition patch_image (raw : option json) : bool * option string * list FieldViolation :=
  match raw with
  | None => (false, None, [])
  | Some JNull => (true, None, [])
  | Some (JStr url) => match validateImageURL url with [] => (true, Some url, []) | violations => (true, None, violations) end
  | Some _ => (true, None, [mkViolation "imageUrl" "must be a string or null"])
  end.

Definition same_hours (req : updateRequest) : list FieldViolation :=
  match uq_OpeningTime req, uq_ClosingTime req with
  | Some o, Some c => if negb (bool_decide (o = "")) && bool_decide (o = c)
                      then [mkViolation "closingTime" "must differ from openingTime"] else []
  | _, _ => []
  end.

Definition read_patch (req : updateRequest) : Patch * list FieldViolation :=
  let name := patch_field (λ v, checkRequired "name" v 120) (uq_Name req) in
  let type := patch_field (λ v, checkRequired "type" v 64) (uq_Type req) in
  let building := patch_field (λ v, checkRequired "building" v 120) (uq_Building req) in
  let floor := patch_field (λ v, checkRequired "floor" v 32) (uq_Floor req) in
  let location := patch_field (λ v, checkRequired "locationDescription" v 500) (uq_LocationDescription req) in
  let latitude := patch_field (patch_degrees "latitude" "must be between -90 and 90" 90) (uq_Latitude req) in
  let longitude := patch_field (patch_degrees "longitude" "must be between -180 and 180" 180) (uq_Longitude req) in
  let opening := patch_field (checkClock "openingTime") (uq_OpeningTime req) in
  let closing := patch_field (checkClock "closingTime") (uq_ClosingTime req) in
  let image := patch_image (uq_ImageURL req) in
  (mkPatch name.1 type.1 building.1 floor.1 location.1 latitude.1 longitude.1 opening.1 closing.1 image.1.1 image.1.2,
   forbidden_ids (uq_SupplierID req) (uq_VersionID req) ++ name.2 ++ type.2 ++ building.2 ++ floor.2 ++ location.2
     ++ latitude.2 ++ longitude.2 ++ opening.2 ++ closing.2 ++ same_hours req ++ image.2).

Definition update_input (body : option json) : res CReply Patch :=
  match decode_update body with
  | None => Err (c_error 400 CInvalidArgument [])
  | Some req =>
      match (read_patch req).2 with
      | [] => if patch_Empty (read_patch req).1 then Err (c_error 400 CInvalidArgument []) else Ok (read_patch req).1
      | violations => Err (c_error 400 CInvalidArgument violations)
      end
  end.

Definition updated_reply (r : res CatError Supplier) : CReply :=
  match r with
  | Ok updated => mkCReply 200 "" (CSupplier updated)
  | Err (CatApp CSupplierNotFound _) => c_error 404 CSupplierNotFound []
  | Err (CatApp CSupplierNameConflict _) => c_error 409 CSupplierNameConflict []
  | Err (CatApp CInvalidArgument fields) => c_error 400 CInvalidArgument fields
  | Err (CatValidation violations) => c_error 400 CInvalidArgument violations
  | Err _ => internal_error
  end.

Definition update_supplier (vid : string) (now : Z) (principal : option SPrincipal) (supplierID : string)
    (body : option json) (db : CDB) : CReply * CDB :=
  match principal with
  | None => (c_error 401 CUnauthenticated [], db)
  | Some p =>
      if negb (principal_Has p ManageSuppliers) then (c_error 403 CForbidden [], db)
      else if negb (ValidSupplierID supplierID) then (c_error 400 CInvalidArgument [], db)
      else match update_input body with
           | Err reply => (reply, db)
           | Ok patch => let '(r, db') := inTx (catalogue_Update vid supplierID patch now) db in (updated_reply r, db')
           end
  end.

(** ** query *)

(** [requireRead] of a principal that may be missing. *)
Definition requireRead (principal : option SPrincipal) : res CatError unit :=
  match principal with
  | None => Err (CatApp CUnauthenticated [])
  | Some p => if bool_decide (pr_Subject p = "") then Err (CatApp CUnauthenticated [])
              else if principal_Has p ReadSuppliers then Ok tt else Err (CatApp CForbidden [])
  end.

Definition query_error (e : CatError) : CReply :=
  match e with
  | CatValidation violations => c_error 400 CInvalidArgument violations
  | CatApp CInvalidArgument fields => c_error 400 CInvalidArgument fields
  | CatApp CUnauthenticated fields => c_error 401 CUnauthenticated fields
  | CatApp CForbidden fields => c_error 403 CForbidden fields
  | CatApp CSupplierNotFound fields => c_error 404 CSupplierNotFound fields
  | CatApp CDependencyUnavailable _ => c_error 503 CDependencyUnavailable []
  | _ => internal_error
  end.

(** [Service.List]: the length bounds hold before whitespace is normalized. *)
Definition query_filter (f : ListFilter) : res CatError ListFilter :=
  match too_long "q" (lf_Query f) 120 ++ too_long "type" (lf_Type f) 64 ++ too_long "building" (lf_Building f) 120 with
  | [] =>
      match ValidateListFilter f with
      | [] => Ok (mkListFilter (NormalizeName (lf_Query f)) (strings_ToLower (trim_space (lf_Type f)))
                    (trim_space (lf_Building f)) (SortOrder f) (PageSize f) (lf_Cursor f))
      | violations => Err (CatValidation violations)
      end
  | violations => Err (CatValidation violations)
  end.

(** The filter a query string gives, as [list] reads it. *)
Definition list_filter (q : Query) : res CatError ListFilter :=
  let f limit := mkListFilter (qGet q "q") (qGet q "type") (qGet q "building") (qGet q "sort") limit (qGet q "cursor") in
  if qHas q "sort" && bool_decide (qGet q "sort" = "") then Err (CatValidation [InvalidSortViolation])
  else if qHas q "limit" then
    match Atoi (qGet q "limit") with
    | Some n => if (n <? 1) || (MaximumPageSize <? n)
                then Err (CatValidation [mkViolation "limit" "must be between 1 and 100"]) else Ok (f n)
    | None => Err (CatValidation [mkViolation "limit" "must be between 1 and 100"])
    end
  else Ok (f 0).

Definition list_suppliers (nonce : Z) (principal : option SPrincipal) (q : Query) (anchored db : CDB) : CReply :=
  match requireRead principal with
  | Err e => query_error e
  | Ok _ =>
      match list_filter q with
      | Err e => query_error e
      | Ok f =>
          match query_filter f with
          | Err e => query_error e
          | Ok f =>
              match ListAvailable nonce f anchored db with
              | Err e => query_error e
              | Ok page => mkCReply 200 "" (CPage page)
              end
          end
      end
  end.

Definition current_supplier (principal : option SPrincipal) (supplierID : string) (db : CDB) : CReply :=
  match requireRead principal with
  | Err e => query_error e
  | Ok _ =>
      if negb (ValidSupplierID supplierID) then query_error (CatApp CInvalidArgument [])
      else match fst (inTx (GetCurrentAvailable supplierID) db) with
           | Ok s => mkCReply 200 "" (CSupplier s)
           | Err e => query_error e
           end
  end.

(** ** versioning *)

Definition get_version (principal : option SPrincipal) (versionID : string) (db : CDB) : CReply :=
  match requireRead principal with
  | Err (CatApp CUnauthenticated _) => c_error 401 CUnauthenticated []
  | Err _ => c_error 403 CForbidden []
  | Ok _ =>
      if negb (ValidVersionID versionID) then c_error 400 CInvalidArgument []
      else match fst (inTx (GetVersion versionID) db) with
           | Ok v => mkCReply 200 "" (CVersion v)
           | Err (CatApp CSupplierVersionNotFound _) => c_error 404 CSupplierVersionNotFound []
           | Err (CatApp CDependencyUnavailable _) => c_error 503 CDependencyUnavailable []
           | Err _ => internal_error
           end
  end.

(** ** lookup *)

Definition notFound (kind : LookupKind) : SCode :=
  match kind with BuildingLookup => CBuildingNotFound | SupplierTypeLookup => CSupplierTypeNotFound end.
Definition conflict (kind : LookupKind) : SCode :=
  match kind with BuildingLookup => CBuildingConflict | SupplierTypeLookup => CSupplierTypeConflict end.
Definition inUse (kind : LookupKind) : SCode :=
  match kind with BuildingLookup => CBuildingInUse | SupplierTypeLookup => CSupplierTypeInUse end.
Definition maxNameLength (kind : LookupKind) : Z := match kind with BuildingLookup => 120 | SupplierTypeLookup => 64 end.

Definition requireManage (principal : option SPrincipal) : res CatError unit :=
  match requireRead principal with
  | Err e => Err e
  | Ok _ => match principal with
            | Some p => if principal_Has p ManageSuppliers then Ok tt else Err (CatApp CForbidden [])
            | None => Err (CatApp CUnauthenticated [])
            end
  end.

Definition validateName (kind : LookupKind) (name : string) : res CatError string :=
  let trimmed := trim_space name in
  let bad message := Err (CatValidation [mkViolation "name" message]) in
  if bool_decide (trimmed = "") then bad "is required"
  else if maxNameLength kind <? rune_count trimmed then bad "is too long"
  else if bool_decide (LookupKey trimmed = "") then bad "must contain a letter or digit"
  else Ok trimmed.

(** [mapError] *)
Definition lookup_mapError (kind : LookupKind) (e : CatError) : CatError :=
  match e with
  | CatLookupNotFound => CatApp (notFound kind) []
  | CatLookupConflict _ => CatApp (conflict kind) []
  | CatLookupInUse _ _ => CatApp (inUse kind) []
  | _ => e
  end.

(** [writeError] *)
Definition lookup_error (kind : LookupKind) (e : CatError) : CReply :=
  match e with
  | CatValidation violations => c_error 400 CInvalidArgument violations
  | CatApp code fields =>
      if bool_decide (code = CInvalidArgument) then c_error 400 code fields
      else if bool_decide (code = CUnauthenticated) then c_error 401 code fields
      else if bool_decide (code = CForbidden) then c_error 403 code fields
      else if bool_decide (code = notFound kind) then c_error 404 code fields
      else if bool_decide (code = conflict kind) || bool_decide (code = inUse kind) then c_error 409 code fields
      else if bool_decide (code = CDependencyUnavailable) then c_error 503 CDependencyUnavailable []
      else internal_error
  | _ => internal_error
  end.

Definition include_retired (q : Query) : res CatError bool :=
  if qHas q "includeRetired" then
    let v := qGet q "includeRetired" in
    if bool_decide (v = "true") then Ok true
    else if bool_decide (v = "false") then Ok false
    else Err (CatValidation [mkViolation "includeRetired" "must be true or false"])
  else Ok false.

Definition list_lookups (kind : LookupKind) (principal : option SPrincipal) (q : Query) (db : CDB) : CReply :=
  match requireRead principal with
  | Err e => lookup_error kind e
  | Ok _ =>
      match include_retired q with
      | Err e => lookup_error kind e
      | Ok retired =>
          match fst (inTx (ListLookups kind retired MaximumLookupListSize) db) with
          | Ok items => mkCReply 200 "" (CLookups items)
          | Err e => lookup_error kind (lookup_mapError kind e)
          end
      end
  end.

Definition decode_lookup (body : option json) : option string :=
  ms ← request_members ["name"] body; dec_field dec_string "name" ms "".

Definition create_lookup (kind : LookupKind) (id : string) (now : Z) (principal : option SPrincipal) (body : option json)
    (later db : CDB) : CReply * CDB :=
  match requireManage principal with
  | Err e => (lookup_error kind e, db)
  | Ok _ =>
      match decode_lookup body with
      | None => (c_error 400 CInvalidArgument [], db)
      | Some name =>
          match validateName kind name with
          | Err e => (lookup_error kind e, db)
          | Ok name =>
              match CreateLookup kind id name now later db with
              | (Ok created, db') => (mkCReply 201 "" (CLookup created), db')
              | (Err e, db') => (lookup_error kind (lookup_mapError kind e), db')
              end
          end
      end
  end.

Definition retire_lookup (kind : LookupKind) (now : Z) (principal : option SPrincipal) (id : string) (db : CDB) : CReply * CDB :=
  match requireManage principal with
  | Err e => (lookup_error kind e, db)
  | Ok _ =>
      if negb (ValidLookupID id) then (lookup_error kind (CatApp CInvalidArgument []), db)
      else match inTx (RetireLookup kind id now) db with
           | (Ok _, db') => (mkCReply 204 "" CNone, db')
           | (Err e, db') => (lookup_error kind (lookup_mapError kind e), db')
           end
  end.

(** ** Routes *)

(** The catalogue routes of [NewHandler], behind [RequireRead]. *)
Inductive CRoute :=
| RListSuppliers (q : Query) | RCurrentSupplier (supplierID : string) | RVersion (versionID : string)
| RCreateSupplier (body : option json) | RUpdateSupplier (supplierID : string) (body : option json)
| RListLookups (kind : LookupKind) (q : Query) | RCreateLookup (kind : LookupKind) (body : option json)
| RRetireLookup (kind : LookupKind) (id : string).

(** What a request draws: two UUIDs, a nonce, the clock and the states other
    statements of it see. *)
Record CDraw := mkCDraw { cw_ID : string; cw_Version : string; cw_Nonce : Z; cw_Now : Z; cw_Other : CDB }.

Definition cat_route (w : CDraw) (r : CRoute) (p : SPrincipal) (db : CDB) : CReply * CDB :=
  match r with
  | RListSuppliers q => (list_suppliers (cw_Nonce w) (Some p) q (cw_Other w) db, db)
  | RCurrentSupplier id => (current_supplier (Some p) id db, db)
  | RVersion id => (get_version (Some p) id db, db)
  | RCreateSupplier body => create_supplier (cw_ID w) (cw_Version w) (cw_Now w) (Some p) body db
  | RUpdateSupplier id body => update_supplier (cw_Version w) (cw_Now w) (Some p) id body db
  | RListLookups kind q => (list_lookups kind (Some p) q db, db)
  | RCreateLookup kind body => create_lookup kind (cw_ID w) (cw_Now w) (Some p) body (cw_Other w) db
  | RRetireLookup kind id => retire_lookup kind (cw_Now w) (Some p) id db
  end.

Definition cat_serve (authenticate : string → res FailureKind SPrincipal) (header : string) (w : CDraw) (r : CRoute)
    (db : CDB) : CReply * CDB :=
  RequirePermission authenticate ReadSuppliers header (cat_route w r) db.

End http.
