(* ===== verification/Seed.v ===== *)
(** * supplier-service: the seed import

    [internal/supplier/seed]: importer.go and postgres.go.  The rows of the
    CSV file are what [encoding/csv] reads from its text, each with its line.
    The generated UUIDs are arguments, a draw per record.  Safe errors are their messages; logs
    are left out. *)

From Stdlib Require Import SpecFloat.
From S2P Require Import Prelude Keyset GoText Json GoTime Errand ErrandStore OpsRepo ErrandHttp ErrandReads Deletion SupplierTypes Catalogue.

(** ** importer.go *)

Record SeedRecord := mkSeedRecord { sr_SourceKey : string; sr_Details : SDetails }.

Record ApplyResult := mkApplyResult { ap_Inserted : Z; ap_Existing : Z }.
Record SeedResult := mkSeedResult { sd_Rows : Z; sd_Inserted : Z; sd_Existing : Z }.

(** What [reader.Read] returns: a row, or an error. *)
Inductive CsvRow := CsvFields (line : Z) (fields : list string) | CsvError (line : Z).

Inductive SeedError :=
| SeedOpen | SeedEmpty | SeedStructure (line : Z) | SeedDuplicateColumn | SeedMissingColumn (name : string)
| SeedField (line : Z) (field message : string) | SeedDuplicateKey (first second : Z) | SeedNoRows
| SeedStore (e : CatError) | SeedInvalidResult.

Definition requiredColumns : list string :=
  ["Name"; "Type"; "Building"; "Floor"; "Location Description"; "Latitude"; "Longitude"; "StartingTime"; "ClosingTime"].

(** U+FEFF *)
Definition byte_order_mark : string := utf8_encode 0xFEFF.

Definition TrimPrefix (s prefix : string) : string :=
  if has_prefix s prefix then String.substring (String.length prefix) (String.length s) s else s.

(** The columns read so far are [columns]. *)
Fixpoint index_columns (header : list string) (index : nat) (columns : gmap string nat) : option (gmap string nat) :=
  match header with
  | [] => Some columns
  | raw :: header' =>
      let name := trim_space (TrimPrefix raw byte_order_mark) in
      if bool_decide (is_Some (columns !! name)) then None else index_columns header' (S index) (<[name := index]> columns)
  end.

Definition columnIndexes (header : list string) : res SeedError (gmap string nat) :=
  match index_columns header 0 ∅ with
  | None => Err SeedDuplicateColumn
  | Some columns =>
      match List.find (λ name, bool_decide (columns !! name = None)) requiredColumns with
      | Some name => Err (SeedMissingColumn name)
      | None => Ok columns
      end
  end.

Definition rowValue (row : list string) (columns : gmap string nat) (name : string) : string :=
  match columns !! name with Some index => default "" (row !! index) | None => "" end.

(** [^(?:[01][0-9]|2[0-3])[0-5][0-9]hrs$] *)
Definition canonicalTime (value : string) : option string :=
  match trim_space value with
  | String a (String b (String c (String d "hrs"))) =>
      let t := String a (String b (String ":" (String c (String d "")))) in
      if clockTimePattern t then Some t else None
  | _ => None
  end.

(** [strings.TrimRight(_, "/")] *)
Fixpoint trim_slashes (s : string) : string :=
  match s with
  | EmptyString => ""
  | String a s' => let t := trim_slashes s' in if (byte_of a =? 47) && bool_decide (t = "") then "" else String a t
  end.

(** The image of a row: none, a URL, or an error. *)
Definition image_of (value imageBaseURL : string) : option (option string) :=
  let value := trim_space value in
  if bool_decide (value = "") then Some None
  else if has_prefix value "/" then
    if bool_decide (imageBaseURL = "") || has_prefix value "//" then None
    else Some (Some (trim_slashes imageBaseURL +:+ value))
  else Some (Some value).

Section seed.
Context `{Hpg : Postgres, Hcol : Collation, Hgo : GoTables, Htext : PgText, Hfl : GoFloat}.

Definition seed_coordinate (value : string) : option spec_float := ParseFloat (trim_space value).

Definition parseRow (row : list string) (columns : gmap string nat) (line : Z) (imageBaseURL : string) :
    res SeedError SeedRecord :=
  let value name := rowValue row columns name in
  let bad field message := Err (SeedField line field message) in
  match seed_coordinate (value "Latitude") with
  | None => bad "Latitude" "must be a number"
  | Some latitude =>
      match seed_coordinate (value "Longitude") with
      | None => bad "Longitude" "must be a number"
      | Some longitude =>
          match canonicalTime (value "StartingTime") with
          | None => bad "StartingTime" "must use HHMMhrs in 24-hour time"
          | Some opening =>
              match canonicalTime (value "ClosingTime") with
              | None => bad "ClosingTime" "must use HHMMhrs in 24-hour time"
              | Some closing =>
                  match image_of (value "ImageURL") imageBaseURL with
                  | None => bad "ImageURL" "requires SUPPLIER_IMAGE_BASE_URL and a single-slash image path"
                  | Some image =>
                      let d := mkSDetails (trim_space (value "Name")) (trim_space (value "Type")) ""
                                 (trim_space (value "Building")) "" (trim_space (value "Floor"))
                                 (trim_space (value "Location Description")) latitude longitude opening closing image in
                      match ValidateDetails d with
                      | v :: _ => bad (fv_Field v) (fv_Message v)
                      | [] => Ok (mkSeedRecord (NormalizeName (dt_Name d)) d)
                      end
                  end
              end
          end
      end
  end.

(** The data rows; [first] is where each source key was seen first. *)
Fixpoint parse_rows (rows : list CsvRow) (columns : gmap string nat) (imageBaseURL : string) (first : gmap string Z) :
    res SeedError (list SeedRecord) :=
  match rows with
  | [] => Ok []
  | CsvError line :: _ => Err (SeedStructure line)
  | CsvFields line row :: rows' =>
      match parseRow row columns line imageBaseURL with
      | Err e => Err e
      | Ok record =>
          match first !! sr_SourceKey record with
          | Some line0 => Err (SeedDuplicateKey line0 line)
          | None =>
              match parse_rows rows' columns imageBaseURL (<[sr_SourceKey record := line]> first) with
              | Ok records => Ok (record :: records)
              | Err e => Err e
              end
          end
      end
  end.

Definition parseCSV (rows : list CsvRow) (imageBaseURL : string) : res SeedError (list SeedRecord) :=
  match rows with
  | [] => Err SeedEmpty
  | CsvError line :: _ => Err (SeedStructure line)
  | CsvFields _ header :: rows' =>
      match columnIndexes header with
      | Err e => Err e
      | Ok columns =>
          match parse_rows rows' columns imageBaseURL ∅ with
          | Err e => Err e
          | Ok [] => Err SeedNoRows
          | Ok records => Ok records
          end
      end
  end.

(** ** postgres.go *)

Definition lookupAttempts : nat := 3.

(** The UUIDs a record may need. *)
Record SeedDraw := mkSeedDraw { dw_Building : string; dw_Type : string; dw_Supplier : string; dw_Version : string }.

(** [InsertBuilding], [InsertSupplierType]: [ON CONFLICT DO NOTHING] *)
Definition InsertLookup (kind : LookupKind) (id name : string) (now : Z) : CatOp (option (string * string)) :=
  λ db,
    match demand (insert_lookup_checks kind id name db) db with
    | Err e => Err e
    | Ok _ =>
        match scan1 (live_by_key name) (lookups kind db) with
        | Some _ => Ok (None, db)
        | None => Ok (Some (id, name), add_lookup kind id name now db)
        end
    end.

Fixpoint findOrCreate_loop (attempts : nat) (kind : LookupKind) (id name : string) (now : Z) : CatOp (string * string) :=
  match attempts with
  | O => fail (CatOther "lookup row changed concurrently")
  | S n =>
      let! found := ResolveByKey kind name in
      match found with
      | Some row => ret row
      | None =>
          let! inserted := InsertLookup kind id name now in
          match inserted with
          | Some row => ret row
          | None => findOrCreate_loop n kind id name now
          end
      end
  end.

Definition findOrCreate (kind : LookupKind) (id name : string) (now : Z) : CatOp (string * string) :=
  findOrCreate_loop lookupAttempts kind id (trim_space name) now.

Definition findOrCreateLookups (w : SeedDraw) (d : SDetails) (now : Z) : CatOp SDetails :=
  let! b := findOrCreate BuildingLookup (dw_Building w) (dt_Building d) now in
  let! t := findOrCreate SupplierTypeLookup (dw_Type w) (dt_Type d) now in
  ret (set_type t.1 t.2 (set_building b.1 b.2 d)).

Definition InsertSeedProvenance (namespace key sid : string) (now : Z) : CatOp unit :=
  λ db,
    match demand [(text_ok namespace && text_ok key, "22021", "");
                  ((rune_count namespace <=? 120) && (rune_count key <=? 120), "22001", "");
                  (negb (bool_decide (btrim namespace = "")), "23514", "supplier_seed_provenance_namespace_not_blank");
                  (negb (bool_decide (btrim key = "")), "23514", "supplier_seed_provenance_source_key_not_blank");
                  (bool_decide (cd_seeds db !! (namespace, key) = None), "23505", "supplier_seed_provenance_pkey");
                  (negb (existsb (λ kv, bool_decide (se_SupplierID kv.2 = sid)) (map_to_list (cd_seeds db))),
                     "23505", "supplier_seed_provenance_supplier_key");
                  (bool_decide (is_Some (cd_suppliers db !! sid)), "23503", "supplier_seed_provenance_supplier_fkey")] db with
    | Err e => Err e
    | Ok _ => Ok (tt, set_seeds (<[(namespace, key) := mkSeedRow sid (stored_time now)]> (cd_seeds db)) db)
    end.

(** One record that was not seeded before. *)
Definition seed_record (namespace : string) (w : SeedDraw) (record : SeedRecord) (now : Z) : CatOp unit :=
  let d := sr_Details record in
  let! resolved := findOrCreateLookups w (set_type "" (dt_Type d) (set_building "" (dt_Building d) d)) now in
  do! InsertSupplierIdentity (dw_Supplier w) (dw_Version w) (NormalizeName (dt_Name d)) now;
  do! InsertSupplierVersion (dw_Version w) (dw_Supplier w) resolved now;
  InsertSeedProvenance namespace (sr_SourceKey record) (dw_Supplier w) now.

(** The records in order, each with its draw; [inserted] lists the suppliers
    whose deferred constraints the commit checks. *)
Fixpoint apply_records (namespace : string) (records : list (SeedRecord * SeedDraw)) (now : Z) (r : ApplyResult)
    (inserted : list string) : CatOp (ApplyResult * list string) :=
  match records with
  | [] => ret (r, inserted)
  | (record, w) :: records' =>
      λ db,
        match cd_seeds db !! (namespace, sr_SourceKey record) with
        | Some _ => apply_records namespace records' now (mkApplyResult (ap_Inserted r) (ap_Existing r + 1)) inserted db
        | None =>
            (do! seed_record namespace w record now;
             apply_records namespace records' now (mkApplyResult (ap_Inserted r + 1) (ap_Existing r))
               (dw_Supplier w :: inserted)) db
        end
  end.

Fixpoint commit_all (sids : list string) : CatOp unit :=
  match sids with [] => ret tt | sid :: sids' => do! commit_supplier sid; commit_all sids' end.

(** [validateBatch]: [seen] are the keys before. *)
Fixpoint validate_records (records : list SeedRecord) (seen : list string) : bool :=
  match records with
  | [] => true
  | record :: records' =>
      negb (bool_decide (sr_SourceKey record = "")) && bool_decide (sr_SourceKey record = NormalizeName (dt_Name (sr_Details record)))
      && negb (bool_decide (sr_SourceKey record ∈ seen))
      && bool_decide (ValidateDetails (sr_Details record) = []) && validate_records records' (sr_SourceKey record :: seen)
  end.

Definition validateBatch (namespace : string) (records : list SeedRecord) : bool :=
  negb (bool_decide (trim_space namespace = "")) && validate_records records [].

(** The advisory lock makes the imports of a dataset follow one another. *)
Definition seed_Apply (namespace : string) (records : list SeedRecord) (draws : nat → SeedDraw) (now : Z) : CatOp ApplyResult :=
  if negb (validateBatch namespace records) then fail (CatOther "invalid seed batch")
  else
    let! r := apply_records namespace (imap (λ i record, (record, draws i)) records) now (mkApplyResult 0 0) [] in
    do! commit_all r.2;
    ret r.1.

(** [Import]; [file] is [None] when it cannot be opened. *)
Definition Import (namespace imageBaseURL : string) (file : option (list CsvRow)) (draws : nat → SeedDraw) (now : Z) (db : CDB) :
    res SeedError SeedResult * CDB :=
  match file with
  | None => (Err SeedOpen, db)
  | Some rows =>
      match parseCSV rows imageBaseURL with
      | Err e => (Err e, db)
      | Ok records =>
          match inTx (seed_Apply (trim_space namespace) records draws now) db with
          | (Err e, db') => (Err (SeedStore e), db')
          | (Ok r, db') =>
              let n := Z.of_nat (length records) in
              if (ap_Inserted r <? 0) || (ap_Existing r <? 0) || negb (ap_Inserted r + ap_Existing r =? n)
              then (Err SeedInvalidResult, db') else (Ok (mkSeedResult n (ap_Inserted r) (ap_Existing r)), db')
          end
      end
  end.

End seed.
