(* ===== verification/CatalogueInv.v ===== *)
(** * supplier-service: the invariant of the catalogue

    What the operations of [Catalogue] and [Seed] do to the tables, the
    invariant every history of them keeps, and what a history never changes. *)

From Stdlib Require Import SpecFloat.
From S2P Require Import Prelude Keyset GoText Json GoTime Errand ErrandStore OpsRepo ErrandHttp ErrandReads Deletion SupplierTypes Catalogue CatalogueHttp Seed.

Section inv.
Context `{Hpg : Postgres, Hcol : Collation, Hgo : GoTables, Htext : PgText, Hfl : GoFloat}.

(** A generated UUID is in the canonical form and of a version the services
    accept. *)
Definition canonical (id : string) : Prop := uuid_cast id = Some id ∧ ValidVersionID id = true.

(** ** Inversions *)

Lemma demand_Ok checks db u db' :
  demand checks db = Ok (u, db') → db' = db ∧ Forall (λ c, c.1.1 = true) checks.
Proof.
  induction checks as [|[[ok state] constraint] checks IH]; simpl; [by intros [= _ <-]|].
  destruct ok; [|done]. intros [-> Hall]%IH. split; [done|]. by constructor.
Qed.

Lemma demand_run checks db : Forall (λ c, c.1.1 = true) checks → demand checks db = Ok (tt, db).
Proof. induction 1 as [|[[ok state] constraint] checks Hok _ IH]; simpl in *; [done|]. by rewrite Hok. Qed.

Lemma mapped_Ok {A} (m : CatOp A) db r : mapped m db = Ok r → m db = Ok r.
Proof. unfold mapped. by destruct (m db). Qed.

Lemma cat_uuid_Ok s db u db' : cat_uuid s db = Ok (u, db') → uuid_cast s = Some u ∧ db' = db.
Proof. unfold cat_uuid. destruct (uuid_cast s); [|done]. by intros [= <- <-]. Qed.

(** The lookup a field ends with: its own, or a live row with the key of its
    name. *)
Definition assigned (kind : LookupKind) (db : CDB) (id name id' name' : string) : Prop :=
  (id ≠ "" ∧ id' = id ∧ name' = name) ∨
  (id = "" ∧ ∃ r, lookups kind db !! id' = Some r ∧ lookup_live r = true ∧ lookup_key r = normalize_lookup_key name ∧ name' = lr_Name r).

Lemma ResolveByKey_Ok kind name db row db' :
  ResolveByKey kind name db = Ok (row, db') →
  db' = db ∧ text_ok name = true ∧ row = (λ kr, (kr.1, lr_Name kr.2)) <$> scan1 (live_by_key name) (lookups kind db).
Proof.
  intros ([] & db0 & [-> Hok]%demand_Ok & [= <- <-])%bind_Ok. apply Forall_cons in Hok as [Hok _]. done.
Qed.

Lemma resolve_field_Ok kind id name unknown set d invalid db r db' :
  resolve_field kind id name unknown set d invalid db = Ok (r, db') →
  db' = db ∧ (hasViolation invalid (fv_Field unknown) = false → r.2 = [] →
    (id ≠ "" ∧ r.1 = d) ∨ (id = "" ∧ ∃ id' x, lookups kind db !! id' = Some x ∧ lookup_live x = true ∧
       lookup_key x = normalize_lookup_key name ∧ r.1 = set id' (lr_Name x) d)).
Proof.
  unfold resolve_field. case_bool_decide as Hid; simpl.
  - destruct (hasViolation _ _); simpl; [by intros [= <- <-]|]. intros (row & db0 & (-> & _ & ->)%ResolveByKey_Ok & [= <- <-])%bind_Ok.
    split; [done|]. intros _. destruct (scan1 _ _) as [[id' x]|] eqn:Hs; simpl; [|done]. intros _. right. split; [done|].
    apply scan1_Some in Hs as [Hl Hlive]. unfold live_by_key in Hlive. bool_props. by exists id', x.
  - intros [= <- <-]. split; [done|]. intros _ _. by left.
Qed.

(** The fields apart from the lookups. *)
Definition same_fields (d d' : SDetails) : Prop :=
  dt_Name d' = dt_Name d ∧ dt_Floor d' = dt_Floor d ∧ dt_LocationDescription d' = dt_LocationDescription d ∧
  dt_Latitude d' = dt_Latitude d ∧ dt_Longitude d' = dt_Longitude d ∧ dt_OpeningTime d' = dt_OpeningTime d ∧
  dt_ClosingTime d' = dt_ClosingTime d ∧ dt_ImageURL d' = dt_ImageURL d.

Record resolved (db : CDB) (d d' : SDetails) : Prop := {
  rv_fields : same_fields d d';
  rv_building : assigned BuildingLookup db (dt_BuildingID d) (dt_Building d) (dt_BuildingID d') (dt_Building d');
  rv_type : assigned SupplierTypeLookup db (dt_TypeID d) (dt_Type d) (dt_TypeID d') (dt_Type d');
}.

Lemma hasViolation_nil field : hasViolation [] field = false.
Proof. done. Qed.

Lemma resolveLookups_Ok d db r db' :
  resolveLookups d [] db = Ok (r, db') → db' = db ∧ (r.2 = [] → resolved db d r.1).
Proof.
  intros (b & db1 & [-> Hb]%resolve_field_Ok & Hr)%bind_Ok.
  apply bind_Ok in Hr as (t & db2 & [-> Ht]%resolve_field_Ok & [= <- <-]). split; [done|]. simpl.
  intros [Hb2 Ht2]%app_eq_nil. specialize (Hb eq_refl Hb2). specialize (Ht eq_refl Ht2).
  destruct Hb as [[Hne Hb1]|(He & id & x & Hl & Hv & Hk & Hb1)];
    destruct Ht as [[Hne' ->]|(He' & id' & x' & Hl' & Hv' & Hk' & ->)]; rewrite Hb1 in *; destruct d; simpl in *;
    split; simpl; try done; unfold assigned; eauto 10.
Qed.

Lemma validateAndResolve_Ok d db d' db' :
  validateAndResolve d db = Ok (d', db') → db' = db ∧ ValidateDetails d = [] ∧ resolved db d d'.
Proof.
  unfold validateAndResolve. intros (r & db0 & Hr & Hret)%bind_Ok.
  destruct (ValidateDetails d ++ r.2) as [|] eqn:Hv; [|done]. injection Hret as <- <-.
  apply app_eq_nil in Hv as [Hv Hr2]. rewrite Hv in Hr. apply resolveLookups_Ok in Hr as [-> Hres]. auto.
Qed.

(** The table checks a version row passed. *)
Record version_ok (v : VersionRow) : Prop := {
  vo_text : text_ok (vr_Name v) = true;
  vo_name : normalize_supplier_name (vr_Name v) ≠ "";
  vo_width : rune_count (vr_Name v) ≤ 120;
  vo_floor : btrim (vr_Floor v) ≠ "" ∧ rune_count (vr_Floor v) ≤ 32;
  vo_location : btrim (vr_Location v) ≠ "" ∧ rune_count (vr_Location v) ≤ 500;
  vo_degrees : in_degrees (vr_Latitude v) 90 = true ∧ in_degrees (vr_Longitude v) 180 = true;
  vo_hours : clockTimePattern (vr_Opening v) = true ∧ clockTimePattern (vr_Closing v) = true ∧ vr_Opening v ≠ vr_Closing v;
}.

Lemma InsertSupplierVersion_Ok vid sid d now db u db' :
  InsertSupplierVersion vid sid d now db = Ok (u, db') →
  ∃ v s type building row, uuid_cast vid = Some v ∧ uuid_cast sid = Some s ∧ uuid_cast (dt_TypeID d) = Some type ∧
    uuid_cast (dt_BuildingID d) = Some building ∧ row = version_row s type building d now ∧ version_ok row ∧
    cd_versions db !! v = None ∧ is_Some (cd_suppliers db !! s) ∧ is_Some (cd_buildings db !! building) ∧
    is_Some (cd_types db !! type) ∧ db' = set_versions (<[v := row]> (cd_versions db)) db.
Proof.
  unfold InsertSupplierVersion. intros (v & db1 & [Hv ->]%cat_uuid_Ok & H)%bind_Ok.
  apply bind_Ok in H as (s & db2 & [Hs ->]%cat_uuid_Ok & H). apply bind_Ok in H as (type & db3 & [Ht ->]%cat_uuid_Ok & H).
  apply bind_Ok in H as (building & db4 & [Hb ->]%cat_uuid_Ok & H). cbv zeta in H.
  destruct (demand _ db) as [[[] db5]|] eqn:Hd; [|done]. injection H as <- <-. apply demand_Ok in Hd as [_ Hd].
  repeat (apply Forall_cons in Hd as [? Hd]). simpl in *. bool_props.
  exists v, s, type, building, (version_row s type building d now). by split_and!.
Qed.

Lemma InsertSupplierIdentity_Ok sid vid name now db r db' :
  InsertSupplierIdentity sid vid name now db = Ok (r, db') →
  r = (stored_time now, stored_time now) ∧ canonical_name name = true ∧ cd_suppliers db !! sid = None ∧
  name_taken name sid db = false ∧
  db' = set_cats (<[sid := mkCatRow vid name (stored_time now) (stored_time now) None]> (cd_suppliers db)) db.
Proof.
  unfold InsertSupplierIdentity. destruct (demand _ db) as [[[] db1]|] eqn:Hd; [|done]. intros [= <- <-].
  apply demand_Ok in Hd as [_ Hd]. repeat (apply Forall_cons in Hd as [? Hd]). simpl in *. bool_props. done.
Qed.

Lemma name_taken_false name except db :
  name_taken name except db = false →
  ∀ sid s, cd_suppliers db !! sid = Some s → supplier_live s = true → cs_Name s = name → sid = except.
Proof.
  intros Hn sid s Hs Hl He. destruct (decide (sid = except)) as [|Hne]; [done|]. exfalso.
  apply Bool.not_true_iff_false in Hn. apply Hn. unfold name_taken. apply existsb_exists. exists (sid, s).
  split; [by apply list_elem_of_In, elem_of_map_to_list|]. simpl. rewrite Hl, bool_decide_true by done.
  by rewrite bool_decide_false by done.
Qed.

Lemma commit_supplier_Ok sid db u db' s :
  commit_supplier sid db = Ok (u, db') → cd_suppliers db !! sid = Some s →
  db' = db ∧ ∃ v, cd_versions db !! cs_VersionID s = Some v ∧ vr_SupplierID v = sid ∧ normalize_supplier_name (vr_Name v) = cs_Name s.
Proof.
  unfold commit_supplier. intros H Hs. rewrite Hs in H. destruct (cd_versions db !! _) as [v|]; [|done].
  destruct (bool_decide (vr_SupplierID v = sid)) eqn:Hv; simpl in H; [|done].
  destruct (bool_decide (normalize_supplier_name _ = _)) eqn:Hn; [|done]. injection H as <- <-. bool_props.
  split; [done|]. by exists v.
Qed.

(** ** The invariant *)

(** The suppliers of [pending] still await the checks of the commit. *)
Record cat_but (pending : list string) (db : CDB) : Prop := {
  co_supplier sid s : cd_suppliers db !! sid = Some s → canonical sid ∧ canonical (cs_VersionID s) ∧
    ∃ v, cd_versions db !! cs_VersionID s = Some v ∧ vr_SupplierID v = sid ∧
      (sid ∉ pending → normalize_supplier_name (vr_Name v) = cs_Name s) ∧ NormalizeName (vr_Name v) = cs_Name s;
  co_version vid v : cd_versions db !! vid = Some v → canonical vid ∧ version_ok v ∧
    is_Some (cd_suppliers db !! vr_SupplierID v) ∧
    ∀ kind, canonical (lookup_of kind v) ∧ is_Some (lookups kind db !! lookup_of kind v);
  co_names sid sid' s s' : cd_suppliers db !! sid = Some s → cd_suppliers db !! sid' = Some s' →
    supplier_live s = true → supplier_live s' = true → cs_Name s = cs_Name s' → sid = sid';
  co_keys kind id id' r r' : lookups kind db !! id = Some r → lookups kind db !! id' = Some r' →
    lookup_live r = true → lookup_live r' = true → lookup_key r = lookup_key r' → id = id';
  co_lookup kind id r : lookups kind db !! id = Some r → canonical id ∧ btrim (lr_Name r) ≠ "" ∧
    rune_count (lr_Name r) ≤ lookup_width kind ∧ lookup_key r ≠ "";
  co_in_use sid s v kind : cd_suppliers db !! sid = Some s → supplier_live s = true →
    cd_versions db !! cs_VersionID s = Some v → ∃ r, lookups kind db !! lookup_of kind v = Some r ∧ lookup_live r = true;
}.

Definition cat_ok (db : CDB) : Prop := cat_but [] db.

(** What a history never changes. *)
Record cat_grows (db db' : CDB) : Prop := {
  cg_suppliers sid s : cd_suppliers db !! sid = Some s → ∃ s', cd_suppliers db' !! sid = Some s' ∧
    cs_CreatedAt s' = cs_CreatedAt s ∧ (supplier_live s' = true → supplier_live s = true) ∧
    (supplier_live s = false → s' = s) ∧
    (cs_VersionID s' ≠ cs_VersionID s → cd_versions db !! cs_VersionID s' = None);
  cg_versions : cd_versions db ⊆ cd_versions db';
  cg_lookups kind id r : lookups kind db !! id = Some r → ∃ r', lookups kind db' !! id = Some r' ∧
    lr_Name r' = lr_Name r ∧ lr_CreatedAt r' = lr_CreatedAt r ∧ (lookup_live r = false → r' = r);
  cg_seeds : cd_seeds db ⊆ cd_seeds db';
}.

Lemma cat_grows_refl db : cat_grows db db.
Proof. split; [intros sid s Hs; by exists s|done|intros; by eexists|done]. Qed.

Lemma cat_grows_trans db1 db2 db3 : cat_grows db1 db2 → cat_grows db2 db3 → cat_grows db1 db3.
Proof.
  intros [H1 H2 H3 H4] [K1 K2 K3 K4]. split; [|by etrans| |by etrans].
  - intros sid s Hs. destruct (H1 _ _ Hs) as (s2 & Hs2 & Hc & Hl & Hd & Hv). destruct (K1 _ _ Hs2) as (s3 & Hs3 & Hc3 & Hl3 & Hd3 & Hv3).
    exists s3. split_and!; [done|congruence|auto|..].
    + intros Hdead. specialize (Hd Hdead). subst s2. by apply Hd3.
    + intros Hne. destruct (decide (cs_VersionID s3 = cs_VersionID s2)) as [He|He]; [rewrite He in *; by apply Hv|].
      destruct (cd_versions db1 !! cs_VersionID s3) eqn:Hold; [|done].
      pose proof (lookup_weaken _ _ _ _ Hold H2). rewrite Hv3 in *; done.
  - intros kind id r Hr. destruct (H3 _ _ _ Hr) as (r2 & Hr2 & Hn & Hc & Hd). destruct (K3 _ _ _ Hr2) as (r3 & Hr3 & Hn3 & Hc3 & Hd3).
    exists r3. split_and!; [done|congruence|congruence|]. intros Hdead. specialize (Hd Hdead). subst r2. by apply Hd3.
Qed.

Lemma lookups_set_cats kind m db : lookups kind (set_cats m db) = lookups kind db.
Proof. by destruct kind. Qed.
Lemma lookups_set_versions kind m db : lookups kind (set_versions m db) = lookups kind db.
Proof. by destruct kind. Qed.
Lemma lookups_set_seeds kind m db : lookups kind (set_seeds m db) = lookups kind db.
Proof. by destruct kind. Qed.
Lemma lookups_set_lookups kind kind' m db :
  lookups kind (set_lookups kind' m db) = if bool_decide (kind = kind') then m else lookups kind db.
Proof. by destruct kind, kind'. Qed.

Lemma cat_ok_empty : cat_ok empty_cdb.
Proof.
  split; try (intros *; simpl; rewrite lookup_empty; done).
  - intros kind id id' r r'. by destruct kind.
  - intros kind id r. by destruct kind.
Qed.

(** ** A new current version *)

Definition put_version (sid : string) (s : CatRow) (vid : string) (row : VersionRow) (db : CDB) : CDB :=
  set_versions (<[vid := row]> (cd_versions db)) (set_cats (<[sid := s]> (cd_suppliers db)) db).

Lemma lookups_put kind sid s vid row db : lookups kind (put_version sid s vid row db) = lookups kind db.
Proof. by destruct kind. Qed.

(** The supplier is new, or live and given a later version. *)
Definition may_put (sid : string) (created : Z) (db : CDB) : Prop :=
  match cd_suppliers db !! sid with
  | None => True
  | Some s => supplier_live s = true ∧ cs_CreatedAt s = created
  end.

Lemma put_version_ok pending sid vid name created updated row db :
  cat_but pending db → canonical sid → canonical vid → cd_versions db !! vid = None → version_ok row →
  vr_SupplierID row = sid → NormalizeName (vr_Name row) = name → name_taken name sid db = false → may_put sid created db →
  (∀ kind, canonical (lookup_of kind row) ∧ ∃ r, lookups kind db !! lookup_of kind row = Some r ∧ lookup_live r = true) →
  cat_but (sid :: pending) (put_version sid (mkCatRow vid name created updated None) vid row db) ∧
  cat_grows db (put_version sid (mkCatRow vid name created updated None) vid row db).
Proof.
  intros [H1 H2 H3 H4 H5 H6] Hsid Hvid Hfresh Hrow Hrs Hname Hfree Hmay Hlk. set (s' := mkCatRow _ _ _ _ _).
  pose proof (name_taken_false _ _ _ Hfree) as Huniq.
  assert (∀ vid0 v, cd_versions db !! vid0 = Some v → <[vid:=row]> (cd_versions db) !! vid0 = Some v) as Hver.
  { intros vid0 v Hv. rewrite lookup_insert_ne; [done|]. intros ->. congruence. }
  split; split; simpl.
  - intros sid0 s [[<- <-]|[Hne Hs]]%lookup_insert_Some.
    + split; [done|]. split; [done|]. exists row. rewrite lookup_insert_eq. split_and!; try done. intros Hnin. destruct Hnin. by left.
    + destruct (H1 _ _ Hs) as (Hc & Hcv & v & Hv & Hvs & Hnn & Hn). split; [done|]. split; [done|]. exists v.
      split_and!; [by apply Hver|done| |done]. intros Hnin. apply Hnn. intros Hin. apply Hnin. by right.
  - intros vid0 v [[<- <-]|[Hne Hv]]%lookup_insert_Some.
    + split; [done|]. split; [done|]. rewrite Hrs, lookup_insert_eq. split; [by eexists|]. intros kind.
      destruct (Hlk kind) as (Hc & r & Hr & _). rewrite (lookups_put kind). split; [done|]. by exists r.
    + destruct (H2 _ _ Hv) as (Hc & Hvo & [s Hs] & Hl). split; [done|]. split; [done|]. split.
      * destruct (decide (sid = vr_SupplierID v)) as [<-|Hne']; [rewrite lookup_insert_eq|rewrite lookup_insert_ne by done]; by eexists.
      * intros kind. rewrite (lookups_put kind). apply Hl.
  - intros sid1 sid2 s1 s2 [[<- <-]|[Hne1 Hs1]]%lookup_insert_Some [[<- <-]|[Hne2 Hs2]]%lookup_insert_Some Hl1 Hl2 He; simpl in *; [done|..].
    + symmetry. by eapply (Huniq sid2 s2).
    + by eapply (Huniq sid1 s1).
    + by eapply H3.
  - intros kind. rewrite (lookups_put kind). apply H4.
  - intros kind id r. rewrite (lookups_put kind). apply H5.
  - intros sid0 s v kind [[<- <-]|[Hne Hs]]%lookup_insert_Some Hl Hv; rewrite (lookups_put kind).
    + simpl in Hv. rewrite lookup_insert_eq in Hv. injection Hv as <-. by destruct (Hlk kind) as (_ & r & Hr & Hlv); exists r.
    + destruct (H1 _ _ Hs) as (_ & _ & v0 & Hv0 & _). rewrite (Hver _ _ Hv0) in Hv. injection Hv as <-. by eapply H6.
  - intros sid0 s Hs. destruct (decide (sid = sid0)) as [<-|Hne].
    + unfold may_put in Hmay. rewrite Hs in Hmay. destruct Hmay as [Hlive Hcr]. exists s'. rewrite lookup_insert_eq.
      split_and!; try done. intros Hdead. congruence.
    + exists s. by rewrite lookup_insert_ne.
  - by apply insert_subseteq.
  - intros kind id r Hr. rewrite (lookups_put kind). by exists r.
  - done.
Qed.

(** The checks of the commit. *)
Lemma cat_but_commit pending sid db u db' :
  cat_but (sid :: pending) db → commit_supplier sid db = Ok (u, db') → is_Some (cd_suppliers db !! sid) →
  db' = db ∧ cat_but pending db.
Proof.
  intros [H1 H2 H3 H4 H5 H6] Hc [s Hs]. destruct (commit_supplier_Ok _ _ _ _ _ Hc Hs) as (-> & v & Hv & Hvs & Hn).
  split; [done|]. split; [|done..]. intros sid0 s0 Hs0. destruct (H1 _ _ Hs0) as (? & ? & v0 & Hv0 & ? & Hnn & ?).
  split; [done|]. split; [done|]. exists v0. split_and!; try done. intros Hnin.
  destruct (decide (sid0 = sid)) as [->|Hne]; [|apply Hnn; by intros [|]%elem_of_cons]. simplify_eq. done.
Qed.

(** ** Lookups *)

Lemma add_lookup_ok pending kind id name now db :
  cat_but pending db → canonical id → Forall (λ c, c.1.1 = true) (insert_lookup_checks kind id name db) →
  scan1 (live_by_key name) (lookups kind db) = None →
  cat_but pending (add_lookup kind id name now db) ∧ cat_grows db (add_lookup kind id name now db).
Proof.
  intros [H1 H2 H3 H4 H5 H6] Hid Hchk Hfree. unfold insert_lookup_checks in Hchk.
  repeat (apply Forall_cons in Hchk as [? Hchk]). simpl in *. bool_props.
  assert (cd_suppliers (add_lookup kind id name now db) = cd_suppliers db) as Es by by destruct kind.
  assert (cd_versions (add_lookup kind id name now db) = cd_versions db) as Ev by by destruct kind.
  assert (cd_seeds (add_lookup kind id name now db) = cd_seeds db) as Ed by by destruct kind.
  assert (∀ k i r, lookups k db !! i = Some r → lookups k (add_lookup kind id name now db) !! i = Some r) as Hold.
  { intros k i r Hr. unfold add_lookup. rewrite lookups_set_lookups. case_bool_decide as Hk; [subst k|done].
    rewrite lookup_insert_ne; [done|]. intros ->. congruence. }
  assert (∀ k i r, lookups k (add_lookup kind id name now db) !! i = Some r →
    (k = kind ∧ i = id ∧ r = new_lookup name now) ∨ lookups k db !! i = Some r) as Hnew.
  { intros k i r. unfold add_lookup. rewrite lookups_set_lookups. case_bool_decide as Hk; [subst k|by right].
    intros [[<- <-]|[_ Hr]]%lookup_insert_Some; [by left|by right]. }
  assert (∀ i r, lookups kind db !! i = Some r → lookup_live r = true → lookup_key r ≠ normalize_lookup_key name) as Hkey.
  { intros i r Hr Hl Heq. rewrite scan1_None in Hfree. specialize (Hfree _ _ Hr). unfold live_by_key in Hfree.
    rewrite Hl, andb_true_r in Hfree. by apply bool_decide_eq_false in Hfree. }
  split; split; rewrite ?Es, ?Ev, ?Ed; try done.
  - intros vid v Hv. destruct (H2 _ _ Hv) as (Hc & Hvo & Hs & Hl). split; [done|]. split; [done|]. split; [done|].
    intros k. destruct (Hl k) as (Hck & r & Hr). split; [done|]. exists r. by apply Hold.
  - intros k i i' r r' [(-> & -> & ->)|Hr]%Hnew [(Ek & -> & ->)|Hr']%Hnew Hl Hl' He; [done| | |by eapply H4].
    + by destruct (Hkey _ _ Hr' Hl').
    + subst k. by destruct (Hkey _ _ Hr Hl).
  - intros k i r [(-> & -> & ->)|Hr]%Hnew; [|by apply H5]. by split_and!.
  - intros sid s v k Hs Hl Hv. destruct (H6 _ _ _ k Hs Hl Hv) as (r & Hr & Hlv). exists r. split; [by apply Hold|done].
  - intros sid s Hs. by exists s.
  - intros k i r Hr. exists r. split; [by apply Hold|done].
Qed.

Lemma sql_CreateLookup_Ok kind id name now db l db' :
  sql_CreateLookup kind id name now db = Ok (l, db') →
  l = mkLookup id name false ∧ db' = add_lookup kind id name now db ∧
  Forall (λ c, c.1.1 = true) (insert_lookup_checks kind id name db) ∧ scan1 (live_by_key name) (lookups kind db) = None.
Proof.
  unfold sql_CreateLookup. destruct (demand _ db) as [[[] db1]|] eqn:Hd; [|done]. destruct (scan1 _ _) eqn:Hs; [done|].
  intros [= <- <-]. apply demand_Ok in Hd as [_ Hd]. done.
Qed.

Definition retired_row (now : Z) (r : LookupRow) : LookupRow :=
  mkLookupRow (lr_Name r) (lr_CreatedAt r) (Some (Z.max (stored_time now) (lr_CreatedAt r))).

Lemma RetireLookup_Ok kind lookupID now db u db' :
  RetireLookup kind lookupID now db = Ok (u, db') →
  ∃ id r, uuid_cast lookupID = Some id ∧ lookups kind db !! id = Some r ∧
    ((lookup_live r = false ∧ db' = db) ∨
     (lookup_live r = true ∧ countUsers kind id db = 0 ∧ db' = set_lookups kind (<[id := retired_row now r]> (lookups kind db)) db)).
Proof.
  intros (id & db1 & [Hid ->]%cat_uuid_Ok & H)%bind_Ok. destruct (lookups kind db !! id) as [r|] eqn:Hr; [|done].
  exists id, r. split; [done|]. split; [done|]. destruct (lookup_live r) eqn:Hl; simpl in H; [|by injection H as <- <-; left].
  destruct (0 <? countUsers kind id db) eqn:Hc; [done|]. injection H as <- <-. right. split_and!; [done| |done].
  apply Z.ltb_ge in Hc. unfold countUsers in *. lia.
Qed.

(** Nothing live refers to a lookup nobody uses. *)
Lemma countUsers_zero kind id db :
  countUsers kind id db = 0 → ∀ sid s, cd_suppliers db !! sid = Some s → uses kind id db s = false.
Proof.
  unfold countUsers. intros Hc sid s Hs. destruct (uses kind id db s) eqn:Hu; [|done]. exfalso.
  assert ((sid, s) ∈ scan (uses kind id db) (cd_suppliers db)) as Hin by by apply elem_of_scan.
  destruct (scan _ _); [by apply elem_of_nil in Hin|]. simpl in Hc. lia.
Qed.

Lemma retire_ok pending kind id r now db :
  cat_but pending db → lookups kind db !! id = Some r → lookup_live r = true → countUsers kind id db = 0 →
  cat_but pending (set_lookups kind (<[id := retired_row now r]> (lookups kind db)) db) ∧
  cat_grows db (set_lookups kind (<[id := retired_row now r]> (lookups kind db)) db).
Proof.
  intros [H1 H2 H3 H4 H5 H6] Hr Hlive Hc. pose proof (countUsers_zero _ _ _ Hc) as Hu. set (db' := set_lookups _ _ _).
  assert (cd_suppliers db' = cd_suppliers db) as Es by by destruct kind.
  assert (cd_versions db' = cd_versions db) as Ev by by destruct kind.
  assert (cd_seeds db' = cd_seeds db) as Ed by by destruct kind.
  assert (∀ k i x, lookups k db !! i = Some x → ∃ x', lookups k db' !! i = Some x' ∧ lr_Name x' = lr_Name x ∧
    lr_CreatedAt x' = lr_CreatedAt x ∧ (x' = x ∨ (k = kind ∧ i = id ∧ lookup_live x = true))) as Hold.
  { intros k i x Hx. unfold db'. rewrite lookups_set_lookups. case_bool_decide as Hk; [subst k|by exists x; auto].
    destruct (decide (id = i)) as [<-|Hne]; [|exists x; rewrite lookup_insert_ne by done; auto].
    rewrite Hr in Hx. injection Hx as <-. exists (retired_row now r). rewrite lookup_insert_eq. auto 10. }
  assert (∀ k i x', lookups k db' !! i = Some x' → ∃ x, lookups k db !! i = Some x ∧ lr_Name x' = lr_Name x ∧
    (lookup_live x' = true → x' = x)) as Hnew.
  { intros k i x'. unfold db'. rewrite lookups_set_lookups. case_bool_decide as Hk; [subst k|intros ?; by exists x'].
    intros [[<- <-]|[_ Hx]]%lookup_insert_Some; [|by exists x']. by exists r. }
  split; split; rewrite ?Es, ?Ev, ?Ed; try done.
  - intros vid v Hv. destruct (H2 _ _ Hv) as (Hcv & Hvo & Hs & Hl). split; [done|]. split; [done|]. split; [done|].
    intros k. destruct (Hl k) as (Hck & x & Hx). split; [done|]. by destruct (Hold _ _ _ Hx) as (x' & Hx' & _); exists x'.
  - intros k i i' x x' Hx Hx' Hl Hl' He. destruct (Hnew _ _ _ Hx) as (y & Hy & _ & Ey), (Hnew _ _ _ Hx') as (y' & Hy' & _ & Ey').
    specialize (Ey Hl). specialize (Ey' Hl'). subst y y'. by apply (H4 k i i' x x').
  - intros k i x Hx. destruct (Hnew _ _ _ Hx) as (y & Hy & En & _). unfold lookup_key. rewrite En. by apply H5.
  - intros sid s v k Hs Hl Hv. destruct (H6 _ _ _ k Hs Hl Hv) as (x & Hx & Hlx). destruct (Hold _ _ _ Hx) as (x' & Hx' & _ & _ & [->|(-> & Hi & _)]).
    + by exists x.
    + exfalso. specialize (Hu _ _ Hs). unfold uses in Hu. rewrite Hl, Hv, Hi, bool_decide_true in Hu by done. done.
  - intros sid s Hs. by exists s.
  - intros k i x Hx. destruct (Hold _ _ _ Hx) as (x' & Hx' & Hn & Hcr & Hor). exists x'. split_and!; [done..|].
    intros Hdead. destruct Hor as [->|(_ & _ & Hl)]; [done|congruence].
Qed.

(** ** Deletion *)

(** The statement of [Deletion.SoftDeleteSupplier] on the whole row. *)
Definition soft_delete (now : Z) (supplier : string) : CatOp Z :=
  let! sid := cat_uuid supplier in
  λ db, match cd_suppliers db !! sid with
        | Some s =>
            if supplier_live s then
              if cs_CreatedAt s <=? stored_time now
              then Ok (1, set_cats (<[sid := mkCatRow (cs_VersionID s) (cs_Name s) (cs_CreatedAt s) (stored_time now)
                                              (Some (stored_time now))]> (cd_suppliers db)) db)
              else Err (CatPg "23514" "suppliers_deleted_after_creation")
            else Ok (0, db)
        | None => Ok (0, db)
        end.

Lemma soft_delete_ok pending now supplier db n db' :
  cat_but pending db → soft_delete now supplier db = Ok (n, db') → cat_but pending db' ∧ cat_grows db db'.
Proof.
  intros Hok (sid & db1 & [Hsid ->]%cat_uuid_Ok & H)%bind_Ok.
  destruct (cd_suppliers db !! sid) as [s|] eqn:Hs; [|injection H as <- <-; split; [done|apply cat_grows_refl]].
  destruct (supplier_live s) eqn:Hl; [|injection H as <- <-; split; [done|apply cat_grows_refl]].
  destruct (_ <=? _); [|done]. injection H as <- <-. set (s' := mkCatRow _ _ _ _ _).
  destruct Hok as [H1 H2 H3 H4 H5 H6]. split; split; simpl.
  - intros sid0 s0 [[<- <-]|[_ Hs0]]%lookup_insert_Some; [exact (H1 _ _ Hs)|by apply H1].
  - intros vid v Hv. destruct (H2 _ _ Hv) as (? & ? & [x Hx] & Hk). split; [done|]. split; [done|]. split.
    + destruct (decide (sid = vr_SupplierID v)) as [<-|Hne]; [rewrite lookup_insert_eq|rewrite lookup_insert_ne by done]; by eexists.
    + intros k. rewrite (lookups_set_cats k). apply Hk.
  - intros sid1 sid2 s1 s2 [[<- <-]|[_ Hs1]]%lookup_insert_Some [[<- <-]|[_ Hs2]]%lookup_insert_Some Hl1 Hl2 He; [done..|by eapply H3].
  - intros k. rewrite (lookups_set_cats k). apply H4.
  - intros k i r. rewrite (lookups_set_cats k). apply H5.
  - intros sid0 s0 v k [[<- <-]|[_ Hs0]]%lookup_insert_Some Hl0 Hv; [done|]. rewrite (lookups_set_cats k). by eapply H6.
  - intros sid0 s0 Hs0. destruct (decide (sid = sid0)) as [<-|Hne].
    + exists s'. rewrite lookup_insert_eq. simplify_eq. split_and!; try done. congruence.
    + exists s0. by rewrite lookup_insert_ne.
  - done.
  - intros k i r Hr. rewrite (lookups_set_cats k). by exists r.
  - done.
Qed.

(** ** Writers *)

(** A live lookup of that name. *)
Definition live_lookup (kind : LookupKind) (db : CDB) (id name : string) : Prop :=
  canonical id ∧ ∃ r, lookups kind db !! id = Some r ∧ lookup_live r = true ∧ lr_Name r = name.

Lemma assigned_live pending kind db id name id' name' :
  cat_but pending db → assigned kind db id name id' name' → (id ≠ "" → live_lookup kind db id name) →
  live_lookup kind db id' name'.
Proof.
  intros Hok [(Hne & -> & ->)|(_ & r & Hr & Hl & _ & ->)] Hid; [by apply Hid|].
  split; [|by exists r]. by destruct (co_lookup _ _ Hok _ _ _ Hr).
Qed.

(** What a validated write stores. *)
Record written (db : CDB) (sid vid : string) (created now : Z) (d d' : SDetails) (s : Supplier) (db' : CDB) : Prop := {
  wr_valid : ValidateDetails d = [];
  wr_resolved : resolved db d d';
  wr_result : s = mkSupplier (sp_SupplierID s) vid d' true created (stored_time now);
  wr_building : live_lookup BuildingLookup db (dt_BuildingID d') (dt_Building d');
  wr_type : live_lookup SupplierTypeLookup db (dt_TypeID d') (dt_Type d');
  wr_fresh : cd_versions db !! vid = None;
  wr_name : canonical_name (NormalizeName (dt_Name d')) = true ∧ name_taken (NormalizeName (dt_Name d')) sid db = false;
  wr_stored : db' = put_version sid (mkCatRow vid (NormalizeName (dt_Name d')) created (stored_time now) None) vid
                      (version_row sid (dt_TypeID d') (dt_BuildingID d') d' now) db;
}.

Lemma put_written pending db sid vid created now d d' s db' :
  cat_but pending db → canonical sid → canonical vid → may_put sid created db →
  version_ok (version_row sid (dt_TypeID d') (dt_BuildingID d') d' now) → written db sid vid created now d d' s db' →
  cat_but (sid :: pending) db' ∧ cat_grows db db'.
Proof.
  intros Hok Hs Hv Hmay Hrow [_ _ _ (Hbc & b & Hb & Hbl & _) (Htc & t & Ht & Htl & _) Hf (_ & Hn) ->].
  apply put_version_ok; try done. intros [|]; simpl; (split; [done|]); by eexists.
Qed.

Lemma create_written db sid vid d now s db' :
  cat_ok db → canonical sid → canonical vid → catalogue_Create sid vid d now db = Ok (s, db') →
  ∃ d', let d0 := set_type "" (dt_Type d) (set_building "" (dt_Building d) d) in
    written db sid vid (stored_time now) now d0 d' s db' ∧ sp_SupplierID s = sid ∧ cd_suppliers db !! sid = None ∧
    cat_ok db' ∧ cat_grows db db'.
Proof.
  intros Hok [Hsid Hsne] [Hvid Hvne]. unfold catalogue_Create.
  intros (d' & db1 & (-> & Hval & Hres)%validateAndResolve_Ok & H)%bind_Ok. exists d'. cbv zeta.
  apply bind_Ok in H as (times & db2 & (-> & Hcn & Hnew & Hfree & ->)%mapped_Ok%InsertSupplierIdentity_Ok & H).
  apply bind_Ok in H as ([] & db3 & (v & s0 & type & building & row & Hv & Hs & Ht & Hb & -> & Hrow & Hfresh & _ & _ & _ & ->)%mapped_Ok%InsertSupplierVersion_Ok & H).
  apply bind_Ok in H as ([] & db4 & Hcommit%mapped_Ok & [= <- <-]). simplify_eq.
  destruct (assigned_live [] _ _ _ _ _ _ Hok (rv_building _ _ _ Hres)) as [[Hbc Hbne] Hbl]; [done|].
  destruct (assigned_live [] _ _ _ _ _ _ Hok (rv_type _ _ _ Hres)) as [[Htc Htne] Htl]; [done|].
  rewrite Hbc in Hb. rewrite Htc in Ht. simplify_eq.
  assert (written db sid vid (stored_time now) now (set_type "" (dt_Type d) (set_building "" (dt_Building d) d)) d'
    (mkSupplier sid vid d' true (stored_time now) (stored_time now)) (put_version sid
      (mkCatRow vid (NormalizeName (dt_Name d')) (stored_time now) (stored_time now) None) vid
      (version_row sid (dt_TypeID d') (dt_BuildingID d') d' now) db)) as Hw by by split.
  assert (may_put sid (stored_time now) db) as Hmay by (unfold may_put; by rewrite Hnew).
  destruct (put_written [] _ _ _ _ _ _ _ _ _ Hok (conj Hsid Hsne) (conj Hvid Hvne) Hmay Hrow Hw) as [Hbut Hg].
  destruct (cat_but_commit [] sid _ _ _ Hbut Hcommit) as [-> Hok']; [simpl; rewrite lookup_insert_eq; by eexists|].
  by split_and!.
Qed.

Lemma current_lookup db sid s v kind b :
  cat_ok db → cd_suppliers db !! sid = Some s → supplier_live s = true → cd_versions db !! cs_VersionID s = Some v →
  lookups kind db !! lookup_of kind v = Some b → live_lookup kind db (lookup_of kind v) (lr_Name b).
Proof.
  intros Hok Hs Hl Hv Hb. destruct (co_in_use _ _ Hok _ _ _ kind Hs Hl Hv) as (r & Hr & Hlr).
  destruct (co_version _ _ Hok _ _ Hv) as (_ & _ & _ & Hk). destruct (Hk kind) as [Hc _]. split; [done|].
  exists r. by simplify_eq.
Qed.

Lemma version_view_Some db vid x :
  version_view db vid = Some x → vv_VersionID x = vid ∧ cd_versions db !! vid = Some (vv_Row x) ∧
  cd_suppliers db !! vr_SupplierID (vv_Row x) = Some (vv_Supplier x) ∧
  cd_buildings db !! vr_BuildingID (vv_Row x) = Some (vv_Building x) ∧
  cd_types db !! vr_TypeID (vv_Row x) = Some (vv_Type x).
Proof.
  unfold version_view. intros (v & Hv & H)%bind_Some. apply bind_Some in H as (s & Hs & H).
  apply bind_Some in H as (b & Hb & H). apply bind_Some in H as (t & Ht & [= <-]). by split_and!.
Qed.

(** In a consistent catalogue every version can be read. *)
Lemma version_view_total db vid v : cat_ok db → cd_versions db !! vid = Some v → ∃ x, version_view db vid = Some x ∧ vv_Row x = v.
Proof.
  intros Hok Hv. destruct (co_version _ _ Hok _ _ Hv) as (_ & _ & [s Hs] & Hk).
  destruct (Hk BuildingLookup) as [_ [b Hb]], (Hk SupplierTypeLookup) as [_ [t Ht]]. simpl in *.
  exists (mkVersionView vid v s b t). split; [|done]. unfold version_view. rewrite Hv. simpl. rewrite Hs. simpl.
  rewrite Hb. simpl. by rewrite Ht.
Qed.

Lemma update_written db vid supplierID patch now s db' :
  cat_ok db → canonical vid → catalogue_Update vid supplierID patch now db = Ok (s, db') →
  ∃ sid old x d', uuid_cast supplierID = Some sid ∧ cd_suppliers db !! sid = Some old ∧ supplier_live old = true ∧
    version_view db (cs_VersionID old) = Some x ∧
    written db sid vid (cs_CreatedAt old) now (patch_Apply patch (details_of x)) d' s db' ∧ sp_SupplierID s = supplierID ∧
    cat_ok db' ∧ cat_grows db db'.
Proof.
  intros Hok [Hvid Hvne]. unfold catalogue_Update.
  intros (cur & db1 & Hlock & H)%bind_Ok. apply bind_Ok in Hlock as (sid & db0 & [Hsid ->]%cat_uuid_Ok & [= <- <-]).
  destruct (cd_suppliers db !! sid) as [old|] eqn:Hold; [|done]. destruct (supplier_live old) eqn:Hlive; [|done].
  apply bind_Ok in H as (view & db2 & Hview & H). apply bind_Ok in Hview as (v0 & db3 & [Hv0 ->]%cat_uuid_Ok & [= <- <-]).
  destruct (co_supplier _ _ Hok _ _ Hold) as (Hcs & [Hcv _] & v1 & Hv1 & Hvs & _). rewrite Hcv in Hv0. injection Hv0 as <-.
  destruct (version_view db (cs_VersionID old)) as [x|] eqn:Hx; [|done].
  destruct (version_view_Some _ _ _ Hx) as (_ & Hxv & _ & Hxb & Hxt). rewrite Hv1 in Hxv. injection Hxv as Hxv.
  apply bind_Ok in H as (d' & db4 & (-> & Hval & Hres)%validateAndResolve_Ok & H).
  apply bind_Ok in H as ([] & db5 & (v & s0 & type & building & row & Hv & Hs & Ht & Hb & -> & Hrow & Hfresh & _ & _ & _ & ->)%mapped_Ok%InsertSupplierVersion_Ok & H).
  apply bind_Ok in H as (identity & db6 & Hrep%mapped_Ok & H). simplify_eq.
  unfold ReplaceCurrentSupplierVersion in Hrep. apply bind_Ok in Hrep as (v2 & db7 & [Hv2 ->]%cat_uuid_Ok & Hrep).
  apply bind_Ok in Hrep as (sid2 & db8 & [Hsid2 ->]%cat_uuid_Ok & Hrep). simplify_eq. cbn [cd_suppliers set_versions] in Hrep.
  rewrite Hold, Hlive in Hrep. destruct (demand _ _) as [[[] db9]|] eqn:Hd; [|done]. injection Hrep as <- <-.
  apply demand_Ok in Hd as [_ Hd]. repeat (apply Forall_cons in Hd as [? Hd]). simpl in *. bool_props.
  apply bind_Ok in H as (sid3 & db10 & [Hsid3 ->]%cat_uuid_Ok & H). apply bind_Ok in H as ([] & db11 & Hcommit%mapped_Ok & [= <- <-]).
  simplify_eq. exists (vr_SupplierID (vv_Row x)), old, x, d'.
  assert (live_lookup BuildingLookup db (dt_BuildingID d') (dt_Building d')) as HB.
  { eapply assigned_live; [exact Hok|apply Hres|]. simpl. destruct (pa_Building patch); simpl; [done|]. intros _.
    by eapply (current_lookup _ _ _ _ BuildingLookup). }
  assert (live_lookup SupplierTypeLookup db (dt_TypeID d') (dt_Type d')) as HT.
  { eapply assigned_live; [exact Hok|apply Hres|]. simpl. destruct (pa_Type patch); simpl; [done|]. intros _.
    by eapply (current_lookup _ _ _ _ SupplierTypeLookup). }
  rewrite (proj1 (proj1 HB)) in Hb. rewrite (proj1 (proj1 HT)) in Ht. simplify_eq.
  set (s := mkSupplier _ _ _ _ _ _). set (sid := vr_SupplierID (vv_Row x)) in *.
  assert (written db sid vid (cs_CreatedAt old) now (patch_Apply patch (details_of x)) d' s (put_version sid
      (mkCatRow vid (NormalizeName (dt_Name d')) (cs_CreatedAt old) (stored_time now) None) vid
      (version_row sid (dt_TypeID d') (dt_BuildingID d') d' now) db)) as Hw by by split.
  assert (may_put sid (cs_CreatedAt old) db) as Hmay by (unfold may_put; by rewrite Hold).
  destruct (put_written [] _ _ _ _ _ _ _ _ _ Hok Hcs (conj Hvid Hvne) Hmay Hrow Hw) as [Hbut Hg].
  destruct (cat_but_commit [] sid _ _ _ Hbut Hcommit) as [-> Hok']; [simpl; rewrite lookup_insert_eq; by eexists|].
  by split_and!.
Qed.

End inv.
