(* ===== verification/CatalogueRun.v ===== *)
(** * supplier-service: histories of the catalogue

    The seed import keeps the invariant of [CatalogueInv]; the steps of the
    catalogue are the routes of [CatalogueHttp], imports and deletions; every
    state they reach satisfies the invariant and every later state extends an
    earlier one.  On the rows [Deletion] sees, a step is one its world allows. *)

From Stdlib Require Import SpecFloat.
From S2P Require Import Prelude Keyset GoText Json GoTime Errand ErrandStore OpsRepo ErrandHttp ErrandReads Deletion SupplierTypes Catalogue CatalogueHttp Seed CatalogueInv.

Section run.
Context `{Hpg : Postgres, Hcol : Collation, Hgo : GoTables, Htext : PgText, Hfl : GoFloat}.

(** ** Lookups found or created *)

Record adds_lookups (db db' : CDB) : Prop := {
  al_suppliers : cd_suppliers db' = cd_suppliers db;
  al_versions : cd_versions db' = cd_versions db;
  al_seeds : cd_seeds db' = cd_seeds db;
  al_rows kind id r : lookups kind db !! id = Some r → lookups kind db' !! id = Some r;
}.

Lemma adds_lookups_refl db : adds_lookups db db.
Proof. by split. Qed.

Lemma adds_lookups_trans db1 db2 db3 : adds_lookups db1 db2 → adds_lookups db2 db3 → adds_lookups db1 db3.
Proof. intros [? ? ? H] [? ? ? K]. split; try congruence. intros. by apply K, H. Qed.

Lemma live_lookup_adds kind id name db db' : adds_lookups db db' → live_lookup kind db id name → live_lookup kind db' id name.
Proof. intros Ha (Hc & r & Hr & Hl). split; [done|]. exists r. split; [by apply (al_rows _ _ Ha)|done]. Qed.

Lemma InsertLookup_ok pending kind id name now db r db' :
  cat_but pending db → canonical id → InsertLookup kind id name now db = Ok (r, db') →
  cat_but pending db' ∧ adds_lookups db db' ∧ ∀ row, r = Some row → live_lookup kind db' row.1 row.2.
Proof.
  intros Hok Hid. unfold InsertLookup. destruct (demand _ db) as [[[] db1]|] eqn:Hd; [|done].
  destruct (scan1 _ _) eqn:Hs; intros [= <- <-]; [by split_and!|]. apply demand_Ok in Hd as [_ Hd].
  destruct (add_lookup_ok pending kind id name now db Hok Hid Hd Hs) as [Hok' _]. split; [done|]. split.
  - unfold insert_lookup_checks in Hd. repeat (apply Forall_cons in Hd as [? Hd]). simpl in *. bool_props.
    split; [by destruct kind..|]. intros k i r Hr. unfold add_lookup. rewrite lookups_set_lookups.
    case_bool_decide; [subst k|done]. rewrite lookup_insert_ne; [done|]. intros ->. congruence.
  - intros row [= <-]. split; [done|]. exists (new_lookup name now). split; [|done]. unfold add_lookup.
    rewrite lookups_set_lookups, bool_decide_true by done. by rewrite lookup_insert_eq.
Qed.

Lemma findOrCreate_loop_ok attempts pending kind id name now db row db' :
  cat_but pending db → canonical id → findOrCreate_loop attempts kind id name now db = Ok (row, db') →
  cat_but pending db' ∧ adds_lookups db db' ∧ live_lookup kind db' row.1 row.2.
Proof.
  revert db. induction attempts as [|n IH]; intros db Hok Hid; simpl; [done|].
  intros (found & db1 & (-> & _ & ->)%ResolveByKey_Ok & H)%bind_Ok. destruct (scan1 _ _) as [[i r]|] eqn:Hs; simpl in H.
  - injection H as <- <-. split; [done|]. split; [done|]. apply scan1_Some in Hs as [Hr Hl]. unfold live_by_key in Hl.
    bool_props. split; [by destruct (co_lookup _ _ Hok _ _ _ Hr)|]. by exists r.
  - apply bind_Ok in H as (inserted & db2 & Hins & H). destruct (InsertLookup_ok _ _ _ _ _ _ _ _ Hok Hid Hins) as (Hok2 & Ha & Hl).
    destruct inserted as [row2|].
    + injection H as <- <-. auto.
    + destruct (IH _ Hok2 Hid H) as (Hok3 & Ha3 & Hl3). split; [done|]. split; [by eapply adds_lookups_trans|done].
Qed.

Definition draw_ok (w : SeedDraw) : Prop :=
  canonical (dw_Building w) ∧ canonical (dw_Type w) ∧ canonical (dw_Supplier w) ∧ canonical (dw_Version w).

Lemma findOrCreateLookups_ok pending w d now db d' db' :
  cat_but pending db → draw_ok w → findOrCreateLookups w d now db = Ok (d', db') →
  cat_but pending db' ∧ adds_lookups db db' ∧ same_fields d d' ∧
  live_lookup BuildingLookup db' (dt_BuildingID d') (dt_Building d') ∧
  live_lookup SupplierTypeLookup db' (dt_TypeID d') (dt_Type d').
Proof.
  intros Hok (Hwb & Hwt & _). intros (b & db1 & Hb & H)%bind_Ok. apply bind_Ok in H as (t & db2 & Ht & [= <- <-]).
  destruct (findOrCreate_loop_ok _ _ _ _ _ _ _ _ _ Hok Hwb Hb) as (Hok1 & Ha1 & Hl1).
  destruct (findOrCreate_loop_ok _ _ _ _ _ _ _ _ _ Hok1 Hwt Ht) as (Hok2 & Ha2 & Hl2).
  split; [done|]. split; [by eapply adds_lookups_trans|]. split; [by destruct d|]. split; [|done].
  by eapply live_lookup_adds.
Qed.

Lemma adds_lookups_grows db db' : adds_lookups db db' → cat_grows db db'.
Proof.
  intros [Es Ev Ed H]. split; rewrite ?Es, ?Ev, ?Ed; try done.
  - intros sid s Hs. by exists s.
  - intros kind id r Hr. exists r. by split; [apply H|].
Qed.

(** ** The import *)

Lemma cat_but_seeds pending m db : cat_but pending db → cat_but pending (set_seeds m db).
Proof. intros [H1 H2 H3 H4 H5 H6]. split; try done; by intros [|]. Qed.

Lemma cat_grows_seeds m db : cd_seeds db ⊆ m → cat_grows db (set_seeds m db).
Proof. intros Hm. split; try done; [intros sid s Hs; by exists s|intros [|] id r Hr; by exists r]. Qed.

Lemma InsertSeedProvenance_Ok namespace key sid now db u db' :
  InsertSeedProvenance namespace key sid now db = Ok (u, db') →
  cd_seeds db !! (namespace, key) = None ∧ (∀ k r, cd_seeds db !! k = Some r → se_SupplierID r ≠ sid) ∧
  db' = set_seeds (<[(namespace, key) := mkSeedRow sid (stored_time now)]> (cd_seeds db)) db.
Proof.
  unfold InsertSeedProvenance. destruct (demand _ db) as [[[] db1]|] eqn:Hd; [|done]. intros [= <- <-].
  apply demand_Ok in Hd as [_ Hd]. repeat (apply Forall_cons in Hd as [? Hd]). simpl in *. bool_props.
  split_and!; [done| |done]. intros k r Hr Heq. match goal with H : existsb _ _ = false |- _ => rename H into He end.
  apply Bool.not_true_iff_false in He. apply He. apply existsb_exists. exists (k, r).
  split; [by apply list_elem_of_In, elem_of_map_to_list|]. simpl. by apply bool_decide_eq_true.
Qed.

(** What one imported record adds. *)
Record seeded (namespace : string) (w : SeedDraw) (record : SeedRecord) (now : Z) (db db' : CDB) : Prop := {
  sn_new : cd_suppliers db !! dw_Supplier w = None;
  sn_supplier : cd_suppliers db' = <[dw_Supplier w := mkCatRow (dw_Version w) (NormalizeName (dt_Name (sr_Details record)))
                                       (stored_time now) (stored_time now) None]> (cd_suppliers db);
  sn_unseen : cd_seeds db !! (namespace, sr_SourceKey record) = None;
  sn_seed : cd_seeds db' = <[(namespace, sr_SourceKey record) := mkSeedRow (dw_Supplier w) (stored_time now)]> (cd_seeds db);
  sn_version : ∃ row, cd_versions db' = <[dw_Version w := row]> (cd_versions db) ∧
    vr_Name row = dt_Name (sr_Details record) ∧ vr_SupplierID row = dw_Supplier w;
}.

Lemma seed_record_ok pending namespace w record now db u db' :
  cat_but pending db → draw_ok w → seed_record namespace w record now db = Ok (u, db') →
  cat_but (dw_Supplier w :: pending) db' ∧ cat_grows db db' ∧ seeded namespace w record now db db'.
Proof.
  intros Hok Hw. pose proof Hw as (_ & _ & Hsid & Hvid). unfold seed_record.
  intros (d & db1 & Hf & H)%bind_Ok. destruct (findOrCreateLookups_ok _ _ _ _ _ _ _ Hok Hw Hf) as (Hok1 & Ha & Hsame & HB & HT).
  apply bind_Ok in H as (times & db2 & (_ & Hcn & Hnew & Hfree & ->)%InsertSupplierIdentity_Ok & H).
  apply bind_Ok in H as ([] & db3 & (v & s0 & type & building & row & Hv & Hs & Ht & Hb & -> & Hrow & Hfresh & _ & _ & _ & ->)%InsertSupplierVersion_Ok & H).
  apply InsertSeedProvenance_Ok in H as (Hunseen & _ & ->). cbn [set_versions set_cats cd_versions cd_seeds] in *.
  rewrite (proj1 Hvid) in Hv. rewrite (proj1 Hsid) in Hs. injection Hv as <-. injection Hs as <-.
  rewrite (proj1 (proj1 HB)) in Hb. rewrite (proj1 (proj1 HT)) in Ht. injection Hb as <-. injection Ht as <-.
  assert (dt_Name d = dt_Name (sr_Details record)) as Hname by apply Hsame.
  set (row := version_row (dw_Supplier w) (dt_TypeID d) (dt_BuildingID d) d now) in *.
  destruct (put_version_ok pending (dw_Supplier w) (dw_Version w) (NormalizeName (dt_Name (sr_Details record)))
    (stored_time now) (stored_time now) row db1) as [Hbut Hg]; try done.
  { simpl. by rewrite Hname. }
  { unfold may_put. by rewrite Hnew. }
  { destruct HB as (? & b & ? & ? & _), HT as (? & t & ? & ? & _). intros [|]; simpl; (split; [done|]); by eexists. }
  split; [by apply cat_but_seeds|]. split.
  - eapply cat_grows_trans; [by apply adds_lookups_grows|]. eapply cat_grows_trans; [exact Hg|].
    apply cat_grows_seeds. by apply insert_subseteq.
  - destruct Ha as [Es Ev Ed _]. split; simpl; rewrite <-?Es, <-?Ed, <-?Ev; try done. by exists row.
Qed.

(** What a list of records does. *)
Record imported (namespace : string) (records : list (SeedRecord * SeedDraw)) (now : Z) (r r' : ApplyResult) (db db' : CDB) :
    Prop := {
  im_count : ap_Inserted r' + ap_Existing r' = ap_Inserted r + ap_Existing r + Z.of_nat (length records);
  im_counts : ap_Inserted r ≤ ap_Inserted r' ∧ ap_Existing r ≤ ap_Existing r';
  im_suppliers : Z.of_nat (size (cd_suppliers db')) - Z.of_nat (size (cd_suppliers db)) = ap_Inserted r' - ap_Inserted r;
  im_seeds : Z.of_nat (size (cd_seeds db')) - Z.of_nat (size (cd_seeds db)) = ap_Inserted r' - ap_Inserted r;
  im_kept : cd_suppliers db ⊆ cd_suppliers db';
  im_live sid s : cd_suppliers db !! sid = None → cd_suppliers db' !! sid = Some s → supplier_live s = true;
  im_known : cd_seeds db ⊆ cd_seeds db';
  im_keys record w : (record, w) ∈ records → is_Some (cd_seeds db' !! (namespace, sr_SourceKey record));
  im_new record w : (record, w) ∈ records → cd_seeds db !! (namespace, sr_SourceKey record) = None →
    ∃ sid s, cd_seeds db' !! (namespace, sr_SourceKey record) = Some (mkSeedRow sid (stored_time now)) ∧
      cd_suppliers db !! sid = None ∧ cd_suppliers db' !! sid = Some s ∧ supplier_live s = true;
}.

Lemma apply_records_ok namespace records now r inserted db r' inserted' db' :
  cat_but inserted db → Forall (λ rw, draw_ok rw.2) records → Forall (λ sid, is_Some (cd_suppliers db !! sid)) inserted →
  apply_records namespace records now r inserted db = Ok ((r', inserted'), db') →
  cat_but inserted' db' ∧ cat_grows db db' ∧ Forall (λ sid, is_Some (cd_suppliers db' !! sid)) inserted'.
Proof.
  intros Hok Hrw. revert r inserted db Hok. induction Hrw as [|[record w] records Hw Hrw IH]; intros r inserted db Hok Hin; simpl.
  { intros [= <- <- <-]. by split; [|split; [apply cat_grows_refl|]]. }
  destruct (cd_seeds db !! _) as [x|] eqn:Hx; [by apply IH|].
  intros ([] & db1 & Hone & H)%bind_Ok. destruct (seed_record_ok _ _ _ _ _ _ _ _ Hok Hw Hone) as (Hok1 & Hg1 & Hs1).
  edestruct (IH (mkApplyResult (ap_Inserted r + 1) (ap_Existing r)) (dw_Supplier w :: inserted) db1 Hok1) as (Hok2 & Hg2 & Hin2); [|exact H|].
  { constructor; [rewrite (sn_supplier _ _ _ _ _ _ Hs1), lookup_insert_eq; by eexists|].
    eapply Forall_impl; [exact Hin|]. intros sid [s Hs]. destruct (cg_suppliers _ _ Hg1 _ _ Hs) as (s' & Hs' & _). by eexists. }
  split; [done|]. split; [by eapply cat_grows_trans|done].
Qed.

Lemma apply_records_imported namespace records now r inserted db r' inserted' db' :
  cat_but inserted db → Forall (λ rw, draw_ok rw.2) records →
  apply_records namespace records now r inserted db = Ok ((r', inserted'), db') →
  imported namespace records now r r' db db'.
Proof.
  intros Hok Hrw. revert r inserted db Hok. induction Hrw as [|[record w] records Hw Hrw IH]; intros r inserted db Hok; simpl.
  { intros [= <- <- <-]. split; simpl; try done; try lia; [congruence|..]; intros ? ? []%elem_of_nil. }
  destruct (cd_seeds db !! _) as [x|] eqn:Hx.
  - intros H. destruct (IH _ _ _ Hok H) as [I1 I2 I3 I4 I5 Il I6 I7 I8]. simpl in *. split; cbn [length]; try done; try lia.
    + intros record' w' [[= -> ->]|Hin]%elem_of_cons; [exists x; by eapply lookup_weaken|by eapply I7].
    + intros record' w' [[= -> ->]|Hin]%elem_of_cons; [congruence|by eapply I8].
  - intros ([] & db1 & Hone & H)%bind_Ok. destruct (seed_record_ok _ _ _ _ _ _ _ _ Hok Hw Hone) as (Hok1 & Hg1 & [S1 S2 S3 S4 _]).
    destruct (IH _ _ _ Hok1 H) as [I1 I2 I3 I4 I5 Il I6 I7 I8]. simpl in *.
    rewrite S2, map_size_insert_None in I3 by done. rewrite S4, map_size_insert_None in I4 by done.
    assert (cd_suppliers db ⊆ cd_suppliers db1) as Hs1 by (rewrite S2; by apply insert_subseteq).
    assert (cd_seeds db ⊆ cd_seeds db1) as Hs2 by (rewrite S4; by apply insert_subseteq).
    assert (cd_seeds db1 !! (namespace, sr_SourceKey record) = Some (mkSeedRow (dw_Supplier w) (stored_time now))) as Hk1
      by (rewrite S4; apply lookup_insert_eq).
    assert (∃ s, cd_suppliers db1 !! dw_Supplier w = Some s ∧ supplier_live s = true) as (s1 & Hs3 & Hl3)
      by (rewrite S2, lookup_insert_eq; by eexists).
    split; cbn [length]; try lia; [by etrans| |by etrans|..].
    + intros sid s Hnone Hs. destruct (decide (sid = dw_Supplier w)) as [->|Hne]; [|by apply (Il sid); [rewrite S2, lookup_insert_ne|]].
      rewrite (lookup_weaken _ _ _ _ Hs3 I5) in Hs. by injection Hs as <-.
    + intros record' w' [[= -> ->]|Hin]%elem_of_cons; [eexists; by eapply lookup_weaken|by eapply I7].
    + intros record' w' Hin Hnone. destruct (decide (sr_SourceKey record' = sr_SourceKey record)) as [Heq|Hne].
      * rewrite Heq. exists (dw_Supplier w), s1. split_and!; [by eapply lookup_weaken|done|by eapply lookup_weaken|done].
      * apply elem_of_cons in Hin as [[= -> ->]|Hin]; [done|].
        destruct (I8 _ _ Hin) as (sid & s & H1 & H2 & H3 & H4); [rewrite S4, lookup_insert_ne; [done|congruence]|].
        exists sid, s. split_and!; try done. destruct (cd_suppliers db !! sid) eqn:Hold; [|done].
        rewrite (lookup_weaken _ _ _ _ Hold Hs1) in H2. done.
Qed.

Lemma commit_all_ok sids db u db' :
  cat_but sids db → Forall (λ sid, is_Some (cd_suppliers db !! sid)) sids → commit_all sids db = Ok (u, db') →
  db' = db ∧ cat_ok db.
Proof.
  revert db. induction sids as [|sid sids IH]; intros db Hok Hin; simpl; [by intros [= _ <-]|].
  apply Forall_cons in Hin as [Hs Hin]. intros ([] & db1 & Hc & H)%bind_Ok.
  destruct (cat_but_commit _ _ _ _ _ Hok Hc Hs) as [-> Hok']. by apply IH.
Qed.

Lemma seed_Apply_Ok namespace records draws now db r db' :
  cat_ok db → (∀ i, draw_ok (draws i)) → seed_Apply namespace records draws now db = Ok (r, db') →
  validateBatch namespace records = true ∧ cat_ok db' ∧ cat_grows db db' ∧
  imported namespace (imap (λ i record, (record, draws i)) records) now (mkApplyResult 0 0) r db db'.
Proof.
  intros Hok Hdraw. unfold seed_Apply. destruct (validateBatch _ _); simpl; [|done].
  intros ([r1 sids] & db1 & Ha & H)%bind_Ok. apply bind_Ok in H as ([] & db2 & Hc & [= <- <-]).
  assert (Forall (λ rw, draw_ok rw.2) (imap (λ i record, (record, draws i)) records)) as Hall.
  { apply Forall_lookup. intros i rw (x & Hx & ->)%list_lookup_imap_Some. apply Hdraw. }
  edestruct (apply_records_ok namespace) as (Hok1 & Hg & Hin); [exact Hok|exact Hall|constructor|exact Ha|].
  pose proof (apply_records_imported _ _ _ _ _ _ _ _ _ Hok Hall Ha) as Him.
  destruct (commit_all_ok _ _ _ _ Hok1 Hin Hc) as [-> Hok2]. auto.
Qed.

(** Records that are all known change nothing. *)
Lemma apply_records_known namespace records now r inserted db :
  (∀ record w, (record, w) ∈ records → is_Some (cd_seeds db !! (namespace, sr_SourceKey record))) →
  apply_records namespace records now r inserted db =
    Ok ((mkApplyResult (ap_Inserted r) (ap_Existing r + Z.of_nat (length records)), inserted), db).
Proof.
  revert r. induction records as [|[record w] records IH]; intros r Hall; simpl; [by destruct r as [? ?]; rewrite Z.add_0_r|].
  destruct (Hall record w) as [x ->]; [by left|]. rewrite IH; [|intros; eapply Hall; by right]. simpl. do 4 f_equal. lia.
Qed.

Lemma Import_inv namespace base file draws now db r db' :
  cat_ok db → (∀ i, draw_ok (draws i)) → Import namespace base file draws now db = (r, db') →
  (db' = db ∧ ∃ e, r = Err e) ∨
  (∃ rows records, file = Some rows ∧ parseCSV rows base = Ok records ∧
     validateBatch (trim_space namespace) records = true ∧ cat_ok db' ∧ cat_grows db db' ∧
     ∃ a, imported (trim_space namespace) (imap (λ i record, (record, draws i)) records) now (mkApplyResult 0 0) a db db' ∧
       r = Ok (mkSeedResult (Z.of_nat (length records)) (ap_Inserted a) (ap_Existing a))).
Proof.
  intros Hok Hdraw. unfold Import. destruct file as [rows|]; [|intros [= <- <-]; left; eauto].
  destruct (parseCSV rows base) as [records|e] eqn:Hp; [|intros [= <- <-]; left; eauto].
  destruct (inTx _ db) as [[a|e] db1] eqn:Htx; apply inTx_inv in Htx as [(a' & [=] & Hm)|(e' & [=] & -> & Hm)]; subst.
  2: { intros [= <- <-]. left. eauto. }
  destruct (seed_Apply_Ok _ _ _ _ _ _ _ Hok Hdraw Hm) as (Hb & Hok' & Hg & Him).
  pose proof (im_count _ _ _ _ _ _ _ Him) as Hc. pose proof (im_counts _ _ _ _ _ _ _ Him) as Hle.
  rewrite length_imap in Hc. simpl in Hc, Hle.
  rewrite !(proj2 (Z.ltb_ge _ 0)) by lia. rewrite (proj2 (Z.eqb_eq _ _)) by lia. intros [= <- <-]. right. eauto 10.
Qed.

Lemma Import_again namespace base rows records draws now db :
  parseCSV rows base = Ok records → validateBatch (trim_space namespace) records = true →
  (∀ i record, records !! i = Some record → is_Some (cd_seeds db !! (trim_space namespace, sr_SourceKey record))) →
  Import namespace base (Some rows) draws now db =
    (Ok (mkSeedResult (Z.of_nat (length records)) 0 (Z.of_nat (length records))), db).
Proof.
  intros Hp Hb Hall. unfold Import. rewrite Hp. unfold seed_Apply, inTx. rewrite Hb. simpl. unfold bind at 1, mbind.
  rewrite apply_records_known.
  - rewrite length_imap. simpl. rewrite (proj2 (Z.ltb_ge _ 0)), Z.eqb_refl by lia. done.
  - intros record w Hin. apply list_elem_of_lookup in Hin as (i & Hi). apply list_lookup_imap_Some in Hi as (x & Hx & [= -> _]).
    by eapply Hall.
Qed.

End run.

(** ** Steps *)

Section steps.
Context `{Hpg : Postgres, Hcol : Collation, Hgo : GoTables, Htext : PgText, Hfl : GoFloat, Hc : Cipher}.

(** What a request or an import does apart from a deletion: the deletion of a
    supplier is that of [Deletion], on the whole row. *)
Inductive cat_write (db : CDB) : CDB → Prop :=
| cst_route w r p reply db' :
    canonical (cw_ID w) → canonical (cw_Version w) → cat_route w r p db = (reply, db') → cat_write db db'
| cst_import namespace base file draws now r db' :
    (∀ i, draw_ok (draws i)) → Import namespace base file draws now db = (r, db') → cat_write db db'.

Inductive cat_step (db : CDB) : CDB → Prop :=
| cst_write db' : cat_write db db' → cat_step db db'
| cst_delete now supplier n db' : soft_delete now supplier db = Ok (n, db') → cat_step db db'.

Definition cat_later : CDB → CDB → Prop := rtc cat_step.
Definition cat_reachable (db : CDB) : Prop := cat_later empty_cdb db.

(** No supplier is deleted, and none appears deleted. *)
Record no_deletion (db db' : CDB) : Prop := {
  nd_kept sid s : cd_suppliers db !! sid = Some s → ∃ s', cd_suppliers db' !! sid = Some s' ∧ cs_DeletedAt s' = cs_DeletedAt s;
  nd_new sid s : cd_suppliers db !! sid = None → cd_suppliers db' !! sid = Some s → cs_DeletedAt s = None;
}.

Lemma no_deletion_refl db : no_deletion db db.
Proof. split; [intros sid s Hs; by exists s|congruence]. Qed.

Lemma no_deletion_same db db' : cd_suppliers db' = cd_suppliers db → no_deletion db db'.
Proof. intros E. split; rewrite E; [intros sid s Hs; by exists s|congruence]. Qed.

Lemma no_deletion_put sid vid name created updated row db :
  may_put sid created db → no_deletion db (put_version sid (mkCatRow vid name created updated None) vid row db).
Proof.
  unfold may_put. intros Hmay. split; simpl.
  - intros sid0 s Hs. destruct (decide (sid = sid0)) as [<-|Hne]; [|exists s; by rewrite lookup_insert_ne].
    rewrite Hs in Hmay. destruct Hmay as [Hl _]. rewrite lookup_insert_eq. eexists. split; [done|]. simpl.
    unfold supplier_live in Hl. by destruct (cs_DeletedAt s).
  - intros sid0 s Hnone [[<- <-]|[Hne Hs]]%lookup_insert_Some; [done|congruence].
Qed.

(** What each operation of a route does to the tables. *)
Definition ok_write (db db' : CDB) : Prop := cat_ok db' ∧ cat_grows db db' ∧ no_deletion db db'.

Lemma ok_write_refl db : cat_ok db → ok_write db db.
Proof. split; [done|]. split; [apply cat_grows_refl|apply no_deletion_refl]. Qed.

Lemma create_supplier_write sid vid now p body db reply db' :
  cat_ok db → canonical sid → canonical vid → create_supplier sid vid now p body db = (reply, db') → ok_write db db'.
Proof.
  intros Hok Hs Hv. unfold create_supplier. destruct p as [p|]; [|intros [= _ <-]; by apply ok_write_refl].
  destruct (negb _); [intros [= _ <-]; by apply ok_write_refl|].
  destruct (create_input body) as [d|]; [|intros [= _ <-]; by apply ok_write_refl].
  destruct (inTx _ db) as [r db1] eqn:Htx. intros [= _ <-].
  apply inTx_inv in Htx as [(s & -> & H)|(e & -> & -> & _)]; [|by apply ok_write_refl].
  destruct (create_written _ _ _ _ _ _ _ Hok Hs Hv H) as (d' & Hw & _ & Hnew & Hok' & Hg). split; [done|]. split; [done|].
  rewrite (wr_stored _ _ _ _ _ _ _ _ _ Hw). apply no_deletion_put. unfold may_put. by rewrite Hnew.
Qed.

Lemma update_supplier_write vid now p id body db reply db' :
  cat_ok db → canonical vid → update_supplier vid now p id body db = (reply, db') → ok_write db db'.
Proof.
  intros Hok Hv. unfold update_supplier. destruct p as [p|]; [|intros [= _ <-]; by apply ok_write_refl].
  destruct (negb _); [intros [= _ <-]; by apply ok_write_refl|].
  destruct (negb _); [intros [= _ <-]; by apply ok_write_refl|].
  destruct (update_input body) as [patch|]; [|intros [= _ <-]; by apply ok_write_refl].
  destruct (inTx _ db) as [r db1] eqn:Htx. intros [= _ <-].
  apply inTx_inv in Htx as [(s & -> & H)|(e & -> & -> & _)]; [|by apply ok_write_refl].
  destruct (update_written _ _ _ _ _ _ _ Hok Hv H) as (sid & old & x & d' & _ & Hold & Hl & _ & Hw & _ & Hok' & Hg).
  split; [done|]. split; [done|]. rewrite (wr_stored _ _ _ _ _ _ _ _ _ Hw). apply no_deletion_put. unfold may_put. by rewrite Hold.
Qed.

Lemma CreateLookup_inv kind id name now later db r db' :
  CreateLookup kind id name now later db = (r, db') →
  (∃ x, r = Ok x ∧ sql_CreateLookup kind id name now db = Ok (x, db')) ∨ (db' = db ∧ ∃ e, r = Err e).
Proof.
  unfold CreateLookup. destruct (inTx _ db) as [[x|e] db1] eqn:Htx; apply inTx_inv in Htx as [(a & [=] & Hm)|(e' & [=] & -> & Hm)]; subst.
  - intros [= <- <-]. left. eauto.
  - intros Hr. right. destruct e'; repeat case_match; simplify_eq; eauto.
Qed.

Lemma create_lookup_write kind id now p body later db reply db' :
  cat_ok db → canonical id → create_lookup kind id now p body later db = (reply, db') → ok_write db db'.
Proof.
  intros Hok Hid. unfold create_lookup. destruct (requireManage p) as [_|]; [|intros [= _ <-]; by apply ok_write_refl].
  destruct (decode_lookup body) as [raw|]; [|intros [= _ <-]; by apply ok_write_refl].
  destruct (validateName kind raw) as [name|]; [|intros [= _ <-]; by apply ok_write_refl].
  destruct (CreateLookup _ _ _ _ _ db) as [r db1] eqn:Hr. destruct (CreateLookup_inv _ _ _ _ _ _ _ _ Hr) as [(x & -> & H)|(-> & e & ->)].
  - intros [= _ <-]. apply sql_CreateLookup_Ok in H as (_ & -> & Hchk & Hs).
    destruct (add_lookup_ok [] kind id name now db Hok Hid Hchk Hs) as [Hok' Hg]. split; [done|]. split; [done|].
    apply no_deletion_same. by destruct kind.
  - intros [= _ <-]. by apply ok_write_refl.
Qed.

Lemma retire_lookup_write kind now p id db reply db' :
  cat_ok db → retire_lookup kind now p id db = (reply, db') → ok_write db db'.
Proof.
  intros Hok. unfold retire_lookup. destruct (requireManage p) as [_|]; [|intros [= _ <-]; by apply ok_write_refl].
  destruct (negb _); [intros [= _ <-]; by apply ok_write_refl|].
  destruct (inTx _ db) as [r db1] eqn:Htx.
  apply inTx_inv in Htx as [(u & -> & H)|(e & -> & -> & _)]; intros [= _ <-]; [|by apply ok_write_refl].
  apply RetireLookup_Ok in H as (k & x & _ & Hx & [(_ & ->)|(Hl & Hc0 & ->)]); [by apply ok_write_refl|].
  destruct (retire_ok [] kind k x now db Hok Hx Hl Hc0) as [Hok' Hg]. split; [done|]. split; [done|].
  apply no_deletion_same. by destruct kind.
Qed.

Lemma cat_write_ok db db' : cat_ok db → cat_write db db' → ok_write db db'.
Proof.
  intros Hok [w r p reply db1 Hid Hv Hr|namespace base file draws now r db1 Hd Hi].
  - destruct r; cbn [cat_route] in Hr; try (injection Hr as _ <-; by apply ok_write_refl).
    + exact (create_supplier_write _ _ _ _ _ _ _ _ Hok Hid Hv Hr).
    + exact (update_supplier_write _ _ _ _ _ _ _ _ Hok Hv Hr).
    + exact (create_lookup_write _ _ _ _ _ _ _ _ _ Hok Hid Hr).
    + exact (retire_lookup_write _ _ _ _ _ _ _ Hok Hr).
  - destruct (Import_inv _ _ _ _ _ _ _ _ Hok Hd Hi) as [[-> _]|(rows & records & _ & _ & _ & Hok' & Hg & a & Him & _)];
      [by apply ok_write_refl|]. split; [done|]. split; [done|]. split.
    + intros sid s Hs. exists s. split; [|done]. eapply lookup_weaken; [done|apply Him].
    + intros sid s Hnone Hs. pose proof (im_live _ _ _ _ _ _ _ Him _ _ Hnone Hs) as Hl. unfold supplier_live in Hl.
      by destruct (cs_DeletedAt s).
Qed.

Lemma cat_step_ok db db' : cat_ok db → cat_step db db' → cat_ok db' ∧ cat_grows db db'.
Proof.
  intros Hok [db1 Hw|now supplier n db1 Hd]; [|by eapply soft_delete_ok]. by destruct (cat_write_ok _ _ Hok Hw) as (? & ? & _).
Qed.

Lemma cat_later_ok db db' : cat_ok db → cat_later db db' → cat_ok db' ∧ cat_grows db db'.
Proof.
  intros Hok Hl. induction Hl as [db|db db1 db2 Hs Hl IH]; [split; [done|apply cat_grows_refl]|].
  destruct (cat_step_ok _ _ Hok Hs) as [Hok1 Hg1]. destruct (IH Hok1) as [Hok2 Hg2]. split; [done|]. by eapply cat_grows_trans.
Qed.

Lemma cat_reachable_ok db : cat_reachable db → cat_ok db.
Proof. intros Hr. by destruct (cat_later_ok _ _ cat_ok_empty Hr). Qed.

(** ** The rows [Deletion] sees *)

Definition sup_rows (db : CDB) : gmap string SupplierRow :=
  (λ s, mkSupplierRow (cs_CreatedAt s) (cs_UpdatedAt s) (cs_DeletedAt s)) <$> cd_suppliers db.

Definition sup_db (dels : gmap string DeletionRow) (db : CDB) : SDB := mkSDB (sup_rows db) dels.

Lemma soft_delete_refines now supplier db dels :
  match soft_delete now supplier db with
  | Ok (n, db') => SoftDeleteSupplier now supplier (sup_db dels db) = Ok (n, sup_db dels db')
  | Err _ => ∃ e, SoftDeleteSupplier now supplier (sup_db dels db) = Err e
  end.
Proof.
  unfold soft_delete, SoftDeleteSupplier, cat_uuid, cast_uuid. destruct (uuid_cast supplier) as [sid|]; simpl; [|by eexists].
  unfold mbind, bind. cbn [ret]. simpl. unfold sup_rows. rewrite lookup_fmap.
  destruct (cd_suppliers db !! sid) as [s|] eqn:Hs; simpl; [|done]. unfold supplier_live.
  destruct (cs_DeletedAt s); simpl; [done|]. unfold supplier_check. simpl. rewrite Bool.andb_diag.
  destruct (cs_CreatedAt s <=? stored_time now); [|by eexists]. unfold sup_db, set_suppliers. simpl. unfold sup_rows. simpl.
  by rewrite fmap_insert.
Qed.

End steps.
