(* ===== verification/CatalogueProps.v ===== *)
(** * supplier-service: the properties of the catalogue

    The claims on the histories of [CatalogueRun]: consistency, immutable
    versions, what a write stores and a later read returns, pages, imports,
    permissions, and how the catalogue fits the world of [DeletionSystem]. *)

From Stdlib Require Import SpecFloat.
From S2P Require Import Prelude Keyset GoText Json GoTime Errand ErrandStore OpsRepo ErrandHttp ErrandReads StoreProps HttpProps Deletion DeletionSystem SupplierTypes Catalogue CatalogueHttp Seed CatalogueInv CatalogueRun.

Open Scope Z_scope.

(** ** Consistency *)

Section consistency.
Context `{Hpg : Postgres, Hcol : Collation, Hgo : GoTables, Htext : PgText, Hfl : GoFloat, Hc : Cipher}.

Lemma cat_uuid_canonical id db : canonical id → cat_uuid id db = Ok (id, db).
Proof. intros [Hid _]. unfold cat_uuid. by rewrite Hid. Qed.

Lemma GetVersion_view vid v db :
  canonical vid → version_view db vid = Some v →
  GetVersion vid db = Ok (mkSVersion (vr_SupplierID (vv_Row v)) (vv_VersionID v) (details_of v)
    (supplier_live (vv_Supplier v) && bool_decide (cs_VersionID (vv_Supplier v) = vv_VersionID v)) (vr_CreatedAt (vv_Row v)), db).
Proof.
  intros Hid Hv. unfold GetVersion, GetSupplierVersion, bind. rewrite (cat_uuid_canonical _ _ Hid). by rewrite Hv.
Qed.

Lemma current_view_live db sid s :
  cat_ok db → cd_suppliers db !! sid = Some s → supplier_live s = true →
  ∃ v, current_view db sid = Some v ∧ version_view db (cs_VersionID s) = Some v ∧ vv_Supplier v = s ∧
    vr_SupplierID (vv_Row v) = sid ∧ NormalizeName (vr_Name (vv_Row v)) = cs_Name s ∧
    lookup_live (vv_Building v) = true ∧ lookup_live (vv_Type v) = true.
Proof.
  intros Hok Hs Hl. destruct (co_supplier _ _ Hok _ _ Hs) as (_ & _ & r & Hr & Hrs & _ & Hn).
  destruct (version_view_total _ _ _ Hok Hr) as (v & Hv & <-). exists v.
  destruct (version_view_Some _ _ _ Hv) as (_ & _ & Hvs & Hvb & Hvt). rewrite Hrs in Hvs.
  assert (vv_Supplier v = s) as Es by congruence. split; [|split; [done|]].
  - unfold current_view. rewrite Hs. simpl. rewrite Hv. simpl. by rewrite Hl, Hrs, bool_decide_true.
  - destruct (co_in_use _ _ Hok _ _ _ BuildingLookup Hs Hl Hr) as (b & Hb & Hbl).
    destruct (co_in_use _ _ Hok _ _ _ SupplierTypeLookup Hs Hl Hr) as (t & Ht & Htl). simpl in *. split_and!; try done; congruence.
Qed.

(** C24: Whatever requests, imports and deletions the catalogue went through,
    every supplier that is not deleted can be read, with a current version of
    its own whose name normalizes to the stored key and whose building and type
    are not retired; no two of them share a normalized name, no two live
    buildings or types share a lookup key, and every version ever written can
    be read. *)
Theorem catalogue_always_consistent db :
  cat_reachable db →
  (∀ sid s, cd_suppliers db !! sid = Some s → supplier_live s = true →
     ∃ v, current_view db sid = Some v ∧ GetCurrentAvailable sid db = Ok (supplier_of sid v, db) ∧
       NormalizeName (dt_Name (details_of v)) = cs_Name s ∧ normalize_supplier_name (dt_Name (details_of v)) = cs_Name s ∧
       lookup_live (vv_Building v) = true ∧ lookup_live (vv_Type v) = true) ∧
  (∀ sid sid' s s', cd_suppliers db !! sid = Some s → cd_suppliers db !! sid' = Some s' →
     supplier_live s = true → supplier_live s' = true → cs_Name s = cs_Name s' → sid = sid') ∧
  (∀ kind id id' r r', lookups kind db !! id = Some r → lookups kind db !! id' = Some r' →
     lookup_live r = true → lookup_live r' = true → lookup_key r = lookup_key r' → id = id') ∧
  (∀ vid r, cd_versions db !! vid = Some r → ∃ v, GetVersion vid db = Ok (v, db)).
Proof.
  intros Hok%cat_reachable_ok. split_and!.
  - intros sid s Hs Hl. destruct (current_view_live _ _ _ Hok Hs Hl) as (v & Hv & Hx & _ & Hrs & Hn & Hb & Ht).
    destruct (co_supplier _ _ Hok _ _ Hs) as (Hc1 & _ & r & Hr & _ & Hsql & _).
    destruct (version_view_Some _ _ _ Hx) as (_ & Hr' & _). exists v. split; [done|]. split.
    { unfold GetCurrentAvailable, bind. by rewrite (cat_uuid_canonical _ _ Hc1), Hv. }
    split; [done|]. split; [|done]. simplify_eq. apply Hsql, not_elem_of_nil.
  - apply Hok.
  - apply Hok.
  - intros vid r Hr. destruct (version_view_total _ _ _ Hok Hr) as (v & Hv & _).
    destruct (co_version _ _ Hok _ _ Hr) as (Hc1 & _). eexists. by apply GetVersion_view.
Qed.

Lemma GetVersion_Ok versionID db v db' :
  GetVersion versionID db = Ok (v, db') → db' = db ∧
  ∃ vid x, uuid_cast versionID = Some vid ∧ version_view db vid = Some x ∧
    v = mkSVersion (vr_SupplierID (vv_Row x)) vid (details_of x)
          (supplier_live (vv_Supplier x) && bool_decide (cs_VersionID (vv_Supplier x) = vid)) (vr_CreatedAt (vv_Row x)).
Proof.
  intros (x & db1 & Hx & H)%bind_Ok. apply bind_Ok in Hx as (vid & db2 & [Hid ->]%cat_uuid_Ok & [= <- <-]).
  destruct (version_view db vid) as [x|] eqn:Hx; [|done]. injection H as <- <-. split; [done|]. exists vid, x.
  by destruct (version_view_Some _ _ _ Hx) as (-> & _).
Qed.

(** C25: A version that was once read never changes.  Whatever happens to the
    catalogue later (updates, retirements, imports, deletions), reading it again
    returns the same supplier, details and time, and a version that is no longer
    the current one of an available supplier never becomes it again. *)
Theorem versions_are_immutable db later versionID v :
  cat_reachable db → cat_later db later → GetVersion versionID db = Ok (v, db) →
  ∃ available, GetVersion versionID later =
    Ok (mkSVersion (ve_SupplierID v) (ve_VersionID v) (ve_Details v) available (ve_CreatedAt v), later) ∧
    (available = true → ve_Available v = true).
Proof.
  intros Hok%cat_reachable_ok Hl (_ & vid & x & Hid & Hx & ->)%GetVersion_Ok.
  destruct (cat_later_ok _ _ Hok Hl) as [Hok' Hg]. destruct (version_view_Some _ _ _ Hx) as (_ & Hr & Hs & Hb & Ht).
  pose proof (lookup_weaken _ _ _ _ Hr (cg_versions _ _ Hg)) as Hr'.
  destruct (version_view_total _ _ _ Hok' Hr') as (x' & Hx' & Er).
  destruct (version_view_Some _ _ _ Hx') as (_ & _ & Hs' & Hb' & Ht'). rewrite Er in *.
  destruct (cg_suppliers _ _ Hg _ _ Hs) as (s' & Hs2 & _ & Hlive & _ & Hnew).
  destruct (cg_lookups _ _ Hg BuildingLookup _ _ Hb) as (b' & Hb2 & Nb & _).
  destruct (cg_lookups _ _ Hg SupplierTypeLookup _ _ Ht) as (t' & Ht2 & Nt & _). simpl in *. simplify_eq.
  eexists. split.
  - unfold GetVersion, GetSupplierVersion, bind, cat_uuid. rewrite Hid. cbn [ret]. rewrite Hx'. simpl.
    destruct (version_view_Some _ _ _ Hx') as (-> & _). unfold details_of, ret. rewrite Er, <- Nb, <- Nt. reflexivity.
  - simpl. intros [Hl' He]%andb_true_iff. rewrite (Hlive Hl'). apply bool_decide_eq_true. bool_props.
    destruct (decide (cs_VersionID (vv_Supplier x') = cs_VersionID (vv_Supplier x))) as [<-|Hne]; [done|].
    specialize (Hnew Hne). rewrite He in Hnew. congruence.
Qed.

(** C30: The catalogue and the world of guarded deletion agree on the rows they
    share.  Whatever a request or an import does is a step [DeletionSystem]
    allows the other writers of the supplier tables (no supplier is deleted,
    none appears deleted), whatever the deletion operations are; and the
    deletion of a supplier is on those rows the statement of [Deletion]. *)
Theorem catalogue_refines_deletion_world db dels :
  cat_reachable db →
  (∀ db', cat_write db db' → catalogue (sup_db dels db) (sup_db dels db')) ∧
  (∀ now supplier, match soft_delete now supplier db with
    | Ok (n, db') => SoftDeleteSupplier now supplier (sup_db dels db) = Ok (n, sup_db dels db') ∧ cat_step db db'
    | Err _ => ∃ e, SoftDeleteSupplier now supplier (sup_db dels db) = Err e
    end).
Proof.
  intros Hok%cat_reachable_ok. split.
  - intros db' Hw. destruct (cat_write_ok _ _ Hok Hw) as (_ & _ & Hd). split; [done|]. simpl. unfold sup_rows. split.
    + intros s r. rewrite !lookup_fmap. intros (row & Hrow & ->)%fmap_Some. destruct (nd_kept _ _ Hd _ _ Hrow) as (s' & Hs' & He).
      eexists. by rewrite Hs'.
    + intros s r. rewrite !lookup_fmap, fmap_None. intros Hnone (row & Hrow & ->)%fmap_Some. by apply (nd_new _ _ Hd s).
  - intros now supplier. pose proof (soft_delete_refines now supplier db dels) as H.
    destruct (soft_delete now supplier db) as [[n db']|] eqn:Hd; [|done]. split; [done|]. by eapply cst_delete.
Qed.

End consistency.

(** ** Writes *)

Section writes.
Context `{Hpg : Postgres, Hcol : Collation, Hgo : GoTables, Hgook : !GoTablesOk, Htext : PgText, Hfl : GoFloat, Hc : Cipher}.

Lemma valid_image d url : ValidateDetails d = [] → dt_ImageURL d = Some url → text url = Some url.
Proof.
  unfold ValidateDetails. intros Hv Himg. repeat (apply app_eq_nil in Hv as [_ Hv]). rewrite Himg in Hv.
  unfold text. case_bool_decide as He; [|done]. subst url. unfold validateImageURL in Hv.
  rewrite ParseRequestURI_empty in Hv. by destruct (_ <? _).
Qed.

Lemma view_put sid s vid row db b t :
  vr_SupplierID row = sid → supplier_live s = true → cs_VersionID s = vid →
  cd_buildings db !! vr_BuildingID row = Some b → cd_types db !! vr_TypeID row = Some t →
  current_view (put_version sid s vid row db) sid = Some (mkVersionView vid row s b t).
Proof.
  intros Hs Hl Hv Hb Ht. assert (version_view (put_version sid s vid row db) vid = Some (mkVersionView vid row s b t)) as Hx.
  { unfold version_view, put_version. cbn [cd_versions cd_suppliers cd_buildings cd_types set_versions set_cats].
    rewrite lookup_insert_eq. simpl. rewrite Hs, lookup_insert_eq. simpl. rewrite Hb. simpl. by rewrite Ht. }
  unfold current_view. cbn [put_version cd_suppliers set_versions set_cats]. rewrite lookup_insert_eq. simpl.
  rewrite Hv, Hx. simpl. by rewrite Hl, Hs, bool_decide_true.
Qed.

(** What a write stored is what a read returns. *)
Lemma written_read db id sid vid created now d d' s db' :
  uuid_cast id = Some sid → written db sid vid created now d d' s db' →
  GetCurrentAvailable id db' = Ok (mkSupplier sid vid d' true created (stored_time now), db').
Proof.
  intros Hs [Hval Hres _ (_ & b & Hb & _ & Nb) (_ & t & Ht & _ & Nt) _ _ ->].
  unfold GetCurrentAvailable, bind, cat_uuid. rewrite Hs. cbn [ret]. erewrite view_put; [|done..|exact Hb|exact Ht].
  unfold supplier_of, details_of. simpl. rewrite Nb, Nt.
  replace (match dt_ImageURL d' with Some url => text url | None => None end) with (dt_ImageURL d'); [by destruct d'|].
  destruct (rv_fields _ _ _ Hres) as (_ & _ & _ & _ & _ & _ & _ & ->). destruct (dt_ImageURL d) as [url|] eqn:Hi; [|done].
  symmetry. by eapply valid_image.
Qed.

Lemma Has_reads p permission : principal_Has p permission = true → pr_Subject p ≠ "".
Proof. unfold principal_Has. destruct (bool_decide (pr_Subject p = "")) eqn:He; [done|]. by bool_props. Qed.

Lemma reader_passes p : principal_Has p ReadSuppliers = true → requireRead (Some p) = Ok tt.
Proof. intros Hp. unfold requireRead. rewrite bool_decide_false by (by eapply Has_reads). by rewrite Hp. Qed.

Lemma current_supplier_read p id db s :
  principal_Has p ReadSuppliers = true → ValidSupplierID id = true → GetCurrentAvailable id db = Ok (s, db) →
  current_supplier (Some p) id db = mkCReply 200 "" (CSupplier s).
Proof. intros Hp Hid Hs. unfold current_supplier. rewrite (reader_passes _ Hp), Hid. simpl. unfold inTx. by rewrite Hs. Qed.

(** The same lookup name, up to case and punctuation. *)
Definition same_place (d d' : SDetails) : Prop :=
  normalize_lookup_key (dt_Building d') = normalize_lookup_key (dt_Building d) ∧
  normalize_lookup_key (dt_Type d') = normalize_lookup_key (dt_Type d).

Lemma resolved_place db d d' : resolved db d d' → same_place d d'.
Proof.
  intros [_ Hb Ht]. split.
  - by destruct Hb as [(_ & _ & ->)|(_ & r & _ & _ & Hk & ->)].
  - by destruct Ht as [(_ & _ & ->)|(_ & r & _ & _ & Hk & ->)].
Qed.

Definition place_id (kind : LookupKind) (d : SDetails) : string :=
  match kind with BuildingLookup => dt_BuildingID d | SupplierTypeLookup => dt_TypeID d end.
Definition place_name (kind : LookupKind) (d : SDetails) : string :=
  match kind with BuildingLookup => dt_Building d | SupplierTypeLookup => dt_Type d end.

(** [d'] has the ID and the name of lookups that are stored and not retired,
    whose keys are those of the names in [d]. *)
Definition live_place (db : CDB) (d d' : SDetails) : Prop :=
  ∀ kind, ∃ r, lookups kind db !! place_id kind d' = Some r ∧ lookup_live r = true ∧
    lookup_key r = normalize_lookup_key (place_name kind d) ∧ place_name kind d' = lr_Name r.

Lemma written_place db sid vid created now d d' s db' :
  written db sid vid created now d d' s db' → live_place db d d'.
Proof.
  intros Hw. destruct (resolved_place _ _ _ (wr_resolved _ _ _ _ _ _ _ _ _ Hw)) as [Kb Kt].
  destruct (wr_building _ _ _ _ _ _ _ _ _ Hw) as (_ & b & Hb & Hbl & Nb).
  destruct (wr_type _ _ _ _ _ _ _ _ _ Hw) as (_ & t & Ht & Htl & Nt).
  intros [|]; [exists b|exists t]; (split_and!; [done|done| |done]); unfold lookup_key; simpl; congruence.
Qed.

Lemma created_reply_error r : (∀ s, r ≠ Ok s) → (∀ s, crp_Body (created_reply r) ≠ CSupplier s) ∧ 400 ≤ crp_Status (created_reply r).
Proof. intros Hr. destruct r as [s|e]; [by destruct (Hr s)|]. split; [intros s|]; destruct e; simpl; try done; destruct code; done. Qed.

Lemma updated_reply_error r : (∀ s, r ≠ Ok s) → (∀ s, crp_Body (updated_reply r) ≠ CSupplier s) ∧ 400 ≤ crp_Status (updated_reply r).
Proof. intros Hr. destruct r as [s|e]; [by destruct (Hr s)|]. split; [intros s|]; destruct e; simpl; try done; destruct code; done. Qed.

(** A reply that is an error and left the catalogue alone. *)
Definition refused (reply : CReply) (db db' : CDB) : Prop :=
  db' = db ∧ 400 ≤ crp_Status reply ∧ ∀ s, crp_Body reply ≠ CSupplier s.

(** C26: POST /suppliers either refuses, and then nothing changed, or creates
    the supplier it was asked for: it answers 201 with the location of a
    supplier that did not exist, whose fields are those of the body, its building
    and type with the IDs and under the names of stored lookups that are not
    retired and have the keys of the names given; GET /suppliers/{id} then
    answers exactly the representation returned. *)
Theorem created_supplier_reads_back db sid vid now p body reply db' :
  cat_reachable db → canonical sid → canonical vid → create_supplier sid vid now p body db = (reply, db') →
  refused reply db db' ∨
  ∃ d s, create_input body = Ok d ∧ reply = mkCReply 201 ("/suppliers/" +:+ sid) (CSupplier s) ∧
    sp_SupplierID s = sid ∧ sp_VersionID s = vid ∧ cd_suppliers db !! sid = None ∧
    same_fields d (sp_Details s) ∧ live_place db d (sp_Details s) ∧
    ∀ reader, principal_Has reader ReadSuppliers = true →
      current_supplier (Some reader) sid db' = mkCReply 200 "" (CSupplier s).
Proof.
  intros Hok%cat_reachable_ok Hs Hv. unfold create_supplier.
  destruct p as [p|]; [|by intros [= <- <-]; left]. destruct (negb _); [by intros [= <- <-]; left|].
  destruct (create_input body) as [d|r] eqn:Hd.
  2: { intros [= <- <-]. left. split; [done|]. unfold create_input in Hd. destruct (decode_create body); [|by injection Hd as <-].
       destruct (ValidateCreate _); [|by injection Hd as <-]. destruct (forbidden_ids _ _); [done|]. by injection Hd as <-. }
  destruct (inTx _ db) as [r db1] eqn:Htx. intros [= <- <-].
  apply inTx_inv in Htx as [(s & -> & H)|(e & -> & -> & _)]; [right|by left; split; [done|]; apply and_comm, created_reply_error].
  destruct (create_written _ _ _ _ _ _ _ Hok Hs Hv H) as (d' & Hw & Hid & Hnew & _). exists d, s.
  pose proof (wr_result _ _ _ _ _ _ _ _ _ Hw) as Hres. rewrite Hid in Hres. simpl. rewrite Hid.
  split; [done|]. split; [done|]. split; [done|]. split; [by rewrite Hres|]. split; [done|]. split; [|split].
  - rewrite Hres. pose proof (rv_fields _ _ _ (wr_resolved _ _ _ _ _ _ _ _ _ Hw)) as Hf. by destruct d.
  - rewrite Hres. exact (written_place _ _ _ _ _ _ _ _ _ Hw).
  - intros reader Hr. apply current_supplier_read; [done|apply Hs|]. rewrite Hres. eapply written_read; [apply Hs|done].
Qed.

(** The version that was current before. *)
Lemma view_replaced sid s vid row db x old :
  cd_suppliers db !! sid = Some old → version_view db (cs_VersionID old) = Some x → vr_SupplierID (vv_Row x) = sid →
  cd_versions db !! vid = None →
  version_view (put_version sid s vid row db) (cs_VersionID old)
    = Some (mkVersionView (cs_VersionID old) (vv_Row x) s (vv_Building x) (vv_Type x)).
Proof.
  intros Hs Hx Hrs Hf. destruct (version_view_Some _ _ _ Hx) as (_ & Hr & _ & Hb & Ht). unfold version_view, put_version.
  cbn [cd_versions cd_suppliers cd_buildings cd_types set_versions set_cats].
  rewrite lookup_insert_ne by (intros ->; congruence). rewrite Hr. simpl. rewrite Hrs, lookup_insert_eq. simpl.
  rewrite Hb. simpl. by rewrite Ht.
Qed.

Lemma get_version_read p vid db v :
  principal_Has p ReadSuppliers = true → ValidVersionID vid = true → GetVersion vid db = Ok (v, db) →
  get_version (Some p) vid db = mkCReply 200 "" (CVersion v).
Proof. intros Hp Hid Hv. unfold get_version. rewrite (reader_passes _ Hp), Hid. simpl. unfold inTx. by rewrite Hv. Qed.

Definition with_id (id : string) (s : Supplier) : Supplier :=
  mkSupplier id (sp_VersionID s) (sp_Details s) (sp_Available s) (sp_CreatedAt s) (sp_UpdatedAt s).

(** C27: PATCH /suppliers/{id} either refuses, and then nothing changed, or
    applies the patch to the current supplier: it answers 200 with a new
    version, the creation time as it was, the fields of the patch and the others
    unchanged (a building or type the patch leaves out is kept even by its ID),
    the building and type being stored lookups that are not retired; GET
    /suppliers/{id} then answers that representation under the canonical ID, and
    the version it replaced is still read with the details it had, no longer
    available. *)
Theorem updated_supplier_reads_back db vid now p id body reply db' :
  cat_reachable db → canonical vid → update_supplier vid now p id body db = (reply, db') →
  refused reply db db' ∨
  ∃ sid old patch s, uuid_cast id = Some sid ∧ GetCurrentAvailable id db = Ok (old, db) ∧ update_input body = Ok patch ∧
    reply = mkCReply 200 "" (CSupplier s) ∧ sp_SupplierID s = id ∧ sp_VersionID s = vid ∧ sp_VersionID old ≠ vid ∧
    sp_CreatedAt s = sp_CreatedAt old ∧
    same_fields (patch_Apply patch (sp_Details old)) (sp_Details s) ∧
    same_place (patch_Apply patch (sp_Details old)) (sp_Details s) ∧
    live_place db (patch_Apply patch (sp_Details old)) (sp_Details s) ∧
    (pa_Building patch = None → dt_BuildingID (sp_Details s) = dt_BuildingID (sp_Details old)) ∧
    (pa_Type patch = None → dt_TypeID (sp_Details s) = dt_TypeID (sp_Details old)) ∧
    ∀ reader, principal_Has reader ReadSuppliers = true →
      current_supplier (Some reader) id db' = mkCReply 200 "" (CSupplier (with_id sid s)) ∧
      ∃ created, get_version (Some reader) (sp_VersionID old) db' =
        mkCReply 200 "" (CVersion (mkSVersion sid (sp_VersionID old) (sp_Details old) false created)).
Proof.
  intros Hok%cat_reachable_ok Hv. unfold update_supplier.
  destruct p as [p|]; [|by intros [= <- <-]; left]. destruct (negb _); [by intros [= <- <-]; left|].
  destruct (ValidSupplierID id) eqn:Hvalid; [|by intros [= <- <-]; left]. simpl.
  destruct (update_input body) as [patch|r] eqn:Hp.
  2: { intros [= <- <-]. left. split; [done|]. unfold update_input in Hp. destruct (decode_update body); [|by injection Hp as <-].
       destruct ((read_patch _).2); [|by injection Hp as <-]. destruct (patch_Empty _); [|done]. by injection Hp as <-. }
  destruct (inTx _ db) as [r db1] eqn:Htx. intros [= <- <-].
  apply inTx_inv in Htx as [(s & -> & H)|(e & -> & -> & _)]; [right|by left; split; [done|]; apply and_comm, updated_reply_error].
  destruct (update_written _ _ _ _ _ _ _ Hok Hv H) as (sid & old & x & d' & Hsid & Hold & Hl & Hx & Hw & Hid & _ & _).
  destruct (current_view_live _ _ _ Hok Hold Hl) as (x' & Hcur & Hx' & Hxs & Hrs & _). rewrite Hx in Hx'. injection Hx' as <-.
  destruct (version_view_Some _ _ _ Hx) as (Hvid & Hr & _). destruct (co_supplier _ _ Hok _ _ Hold) as (_ & Hcv & _).
  pose proof (wr_result _ _ _ _ _ _ _ _ _ Hw) as Hres. rewrite Hid in Hres. pose proof (wr_resolved _ _ _ _ _ _ _ _ _ Hw) as Hrv.
  pose proof (wr_fresh _ _ _ _ _ _ _ _ _ Hw) as Hfresh. pose proof (wr_stored _ _ _ _ _ _ _ _ _ Hw) as Hdb.
  exists sid, (supplier_of sid x), patch, s. subst s. simpl. rewrite Hxs.
  split; [done|]. split; [by unfold GetCurrentAvailable, bind, cat_uuid; rewrite Hsid; cbn [ret]; rewrite Hcur|].
  do 4 (split; [done|]). split; [rewrite Hvid; congruence|]. split; [done|]. split; [apply Hrv|].
  split; [by eapply resolved_place|]. split; [exact (written_place _ _ _ _ _ _ _ _ _ Hw)|]. split; [|split].
  - intros Hn. destruct (rv_building _ _ _ Hrv) as [(_ & -> & _)|(He & _)]; simpl; [by rewrite Hn|].
    simpl in He. rewrite Hn in He. simpl in He. destruct (co_version _ _ Hok _ _ Hr) as (_ & _ & _ & Hk).
    destruct (Hk BuildingLookup) as [[_ Hbad] _]. simpl in Hbad. by rewrite He in Hbad.
  - intros Hn. destruct (rv_type _ _ _ Hrv) as [(_ & -> & _)|(He & _)]; simpl; [by rewrite Hn|].
    simpl in He. rewrite Hn in He. simpl in He. destruct (co_version _ _ Hok _ _ Hr) as (_ & _ & _ & Hk).
    destruct (Hk SupplierTypeLookup) as [[_ Hbad] _]. simpl in Hbad. by rewrite He in Hbad.
  - intros reader Hread. split.
    + apply current_supplier_read; [done..|]. by eapply written_read.
    + eexists. rewrite Hvid. apply get_version_read; [done|apply Hcv|]. rewrite Hdb.
      erewrite GetVersion_view; [|done|by apply view_replaced]. simpl. unfold details_of. simpl. rewrite Hrs.
      rewrite (bool_decide_false (vid = _)) by (intros ->; congruence). reflexivity.
Qed.

End writes.

(** ** Imports and permissions *)

Section imports.
Context `{Hpg : Postgres, Hcol : Collation, Hgo : GoTables, Htext : PgText, Hfl : GoFloat, Hc : Cipher}.

(** C29: Importing a file once is importing it any number of times.  An import
    that fails leaves the catalogue as it was.  One that succeeds accounts for
    every row of the file, as inserted or as existing, and adds exactly the
    suppliers it counts as inserted, none deleted; after it, whatever else happens
    to the catalogue (updates, deletions and other imports among it), the same
    file under the same namespace inserts nothing and changes nothing. *)
Theorem seed_import_is_idempotent db namespace base rows draws now r db' :
  cat_reachable db → (∀ i, draw_ok (draws i)) → Import namespace base (Some rows) draws now db = (r, db') →
  match r with
  | Err _ => db' = db
  | Ok result =>
      sd_Rows result = sd_Inserted result + sd_Existing result ∧ 0 ≤ sd_Inserted result ∧ 0 ≤ sd_Existing result ∧
      Z.of_nat (size (cd_suppliers db')) = Z.of_nat (size (cd_suppliers db)) + sd_Inserted result ∧
      (∀ sid s, cd_suppliers db !! sid = None → cd_suppliers db' !! sid = Some s → supplier_live s = true) ∧
      ∀ later draws' now', cat_later db' later →
        Import namespace base (Some rows) draws' now' later =
          (Ok (mkSeedResult (sd_Rows result) 0 (sd_Rows result)), later)
  end.
Proof.
  intros Hok%cat_reachable_ok Hd Hi.
  destruct (Import_inv _ _ _ _ _ _ _ _ Hok Hd Hi) as [(-> & e & ->)|(rows' & records & [= <-] & Hp & Hb & Hok' & _ & a & Him & ->)]; [done|].
  pose proof (im_count _ _ _ _ _ _ _ Him) as Hc1. pose proof (im_counts _ _ _ _ _ _ _ Him) as Hc2.
  pose proof (im_suppliers _ _ _ _ _ _ _ Him) as Hc3. rewrite length_imap in Hc1. simpl in *.
  do 4 (split; [lia|]). split; [intros sid s; apply (im_live _ _ _ _ _ _ _ Him)|].
  intros later draws' now' Hl. destruct (cat_later_ok _ _ Hok' Hl) as [_ Hg].
  apply Import_again; [done..|]. intros i record Hrec.
  destruct (im_keys _ _ _ _ _ _ _ Him record (draws i)) as [x Hx].
  { apply list_elem_of_lookup. exists i. by rewrite list_lookup_imap, Hrec. }
  exists x. eapply lookup_weaken; [done|apply Hg].
Qed.

Lemma requireManage_Ok p : requireManage p = Ok tt → ∃ q, p = Some q ∧ principal_Has q ManageSuppliers = true.
Proof.
  unfold requireManage. destruct (requireRead p); [|done]. destruct p as [q|]; [|done].
  destruct (principal_Has q ManageSuppliers) eqn:Hm; [|done]. intros _. by exists q.
Qed.

Lemma route_needs_manage w r p db reply db' :
  cat_route w r p db = (reply, db') → db' ≠ db → principal_Has p ManageSuppliers = true.
Proof.
  intros Hr Hne. destruct r; cbn [cat_route] in Hr; try (injection Hr as _ <-; done).
  - unfold create_supplier in Hr. destruct (principal_Has p ManageSuppliers); [done|]. by injection Hr as _ <-.
  - unfold update_supplier in Hr. destruct (principal_Has p ManageSuppliers); [done|]. by injection Hr as _ <-.
  - unfold create_lookup in Hr. destruct (requireManage (Some p)) as [[]|] eqn:Hm; [|by injection Hr as _ <-].
    by destruct (requireManage_Ok _ Hm) as (q & [= <-] & Hq).
  - unfold retire_lookup in Hr. destruct (requireManage (Some p)) as [[]|] eqn:Hm; [|by injection Hr as _ <-].
    by destruct (requireManage_Ok _ Hm) as (q & [= <-] & Hq).
Qed.

(** C31: The catalogue fails closed.  A request that is answered with
    anything of the catalogue carries a bearer token the identity provider
    verified for a named subject with permission to read suppliers, and one
    that changes the catalogue carries one with permission to manage them as
    well; without a verified token the answer is an error, whatever the route. *)
Theorem catalogue_fails_closed authenticate header w r db reply db' :
  cat_serve authenticate header w r db = (reply, db') →
  (db' = db ∧ ∃ status code, reply = c_error status code [] ∧ 400 ≤ status) ∨
  ∃ token p, extractBearerToken header = Some token ∧ authenticate token = Ok p ∧ pr_Subject p ≠ "" ∧
    principal_Has p ReadSuppliers = true ∧ (db' ≠ db → principal_Has p ManageSuppliers = true) ∧
    cat_route w r p db = (reply, db').
Proof.
  unfold cat_serve, RequirePermission. destruct (extractBearerToken header) as [token|]; [|intros [= <- <-]; left; eauto 10 with lia].
  destruct (authenticate token) as [p|e] eqn:Ha.
  2: { intros H. left. destruct e; injection H as <- <-; (split; [done|]); do 2 eexists; (split; [reflexivity|lia]). }
  destruct (principal_Has p ReadSuppliers) eqn:Hp.
  2: { intros [= <- <-]. left. split; [done|]. do 2 eexists. split; [reflexivity|lia]. }
  intros Hr. right. exists token, p. split; [done|]. split; [done|]. split; [by eapply Has_reads|]. split; [done|]. split; [|done].
  by eapply route_needs_manage.
Qed.

End imports.

(** ** Pages *)

(** PostgreSQL's text order is total, and equal only for equal text. *)
Class CollationOk `{Collation} : Prop := {
  text_le_trans :: Transitive text_le;
  text_le_anti :: AntiSymm (=) text_le;
  text_le_total :: Total text_le;
}.

Section pages.
Context `{Hpg : Postgres, Hcol : Collation, Hcolok : !CollationOk, Hgo : GoTables, Htext : PgText, Hfl : GoFloat, Hc : Cipher,
          Hcok : !CipherOk}.

Abbreviation name_le := (pair_le text_le String.le).
Abbreviation place_le := (pair_le text_le (pair_le text_le String.le)).

Definition view_id (v : VersionView) : string := vr_SupplierID (vv_Row v).

(** The position a cursor of this version stands for. *)
Definition anchor_at (v : VersionView) : Anchor :=
  mkAnchor (details_of v) (NormalizeName (vr_Name (vv_Row v))) (view_id v).

(** One of the six orders of the list. *)
Record Ordering := mkOrdering {
  or_K : Type;
  or_le : relation or_K;
  or_dec : RelDecision or_le;
  or_trans : Transitive or_le;
  or_anti : AntiSymm (=) or_le;
  or_total : Total or_le;
  or_key : VersionView → or_K;
  or_anchor : Anchor → or_K;
  or_inj v v' : or_key v = or_key v' → view_id v = view_id v';
  or_anchored v : cs_Name (vv_Supplier v) = NormalizeName (vr_Name (vv_Row v)) → or_anchor (anchor_at v) = or_key v;
}.
#[local] Existing Instances or_dec or_trans or_anti or_total.

Lemma name_key_inj v v' : name_key v = name_key v' → view_id v = view_id v'.
Proof. by intros [= _ ?]. Qed.
Lemma type_key_inj v v' : type_key v = type_key v' → view_id v = view_id v'.
Proof. by intros [= _ _ ?]. Qed.
Lemma building_key_inj v v' : building_key v = building_key v' → view_id v = view_id v'.
Proof. by intros [= _ _ ?]. Qed.

Lemma anchor_name_at v : cs_Name (vv_Supplier v) = NormalizeName (vr_Name (vv_Row v)) → anchor_name (anchor_at v) = name_key v.
Proof. unfold anchor_name, name_key. simpl. by intros ->. Qed.
Lemma anchor_type_at v : cs_Name (vv_Supplier v) = NormalizeName (vr_Name (vv_Row v)) → anchor_type (anchor_at v) = type_key v.
Proof. intros Hn. unfold anchor_type, type_key. by rewrite anchor_name_at. Qed.
Lemma anchor_building_at v : cs_Name (vv_Supplier v) = NormalizeName (vr_Name (vv_Row v)) → anchor_building (anchor_at v) = building_key v.
Proof. intros Hn. unfold anchor_building, building_key. by rewrite anchor_name_at. Qed.

Definition ordering (sort : string) : option Ordering :=
  if bool_decide (sort = SortName) then Some (mkOrdering _ name_le _ _ _ _ name_key anchor_name name_key_inj anchor_name_at)
  else if bool_decide (sort = SortNameDesc)
  then Some (mkOrdering _ (rev_le name_le) _ _ _ _ name_key anchor_name name_key_inj anchor_name_at)
  else if bool_decide (sort = SortType) then Some (mkOrdering _ place_le _ _ _ _ type_key anchor_type type_key_inj anchor_type_at)
  else if bool_decide (sort = SortTypeDesc)
  then Some (mkOrdering _ (rev_le place_le) _ _ _ _ type_key anchor_type type_key_inj anchor_type_at)
  else if bool_decide (sort = SortBuilding)
  then Some (mkOrdering _ place_le _ _ _ _ building_key anchor_building building_key_inj anchor_building_at)
  else if bool_decide (sort = SortBuildingDesc)
  then Some (mkOrdering _ (rev_le place_le) _ _ _ _ building_key anchor_building building_key_inj anchor_building_at)
  else None.

Definition matching (f : ListFilter) (db : CDB) : list VersionView := List.filter (matches (list_params f)) (available db).

Lemma listAvailableRows_ordering sort f after db :
  listAvailableRows sort (list_params f) after db =
    match ordering sort with
    | Some o => Ok (keyset (or_le o) (or_key o) (or_anchor o <$> after) (Z.to_nat (PageSize f + 1)) (matching f db))
    | None => Err cat_invalidArgument
    end.
Proof.
  unfold listAvailableRows, ordering. by repeat case_bool_decide.
Qed.

(** ** Following the cursors *)

Definition supplier_query (params : list (string * string)) (cursor : string) : Query :=
  mkQuery (if bool_decide (cursor = "") then params else ("cursor", cursor) :: params) None.

(** What the client follows: [NextCursor] until it is empty. *)
Fixpoint walk_suppliers (nonce : nat → Z) (reader : SPrincipal) (db : CDB) (params : list (string * string)) (fuel : nat)
    (cursor : string) : option (list Supplier) :=
  match fuel with
  | O => None
  | S fuel =>
      match list_suppliers (nonce fuel) (Some reader) (supplier_query params cursor) db db with
      | mkCReply 200 _ (CPage page) =>
          if bool_decide (sg_NextCursor page = "") then Some (sg_Items page)
          else app (sg_Items page) <$> walk_suppliers nonce reader db params fuel (sg_NextCursor page)
      | _ => None
      end
  end.

Definition with_cursor (c : string) (f : ListFilter) : ListFilter :=
  mkListFilter (lf_Query f) (lf_Type f) (lf_Building f) (lf_Sort f) (lf_Limit f) c.

(** The filter the service works with. *)
Definition listing (q : Query) : option ListFilter :=
  match list_filter q with
  | Ok f => match query_filter f with Ok f => Some f | Err _ => None end
  | Err _ => None
  end.

Lemma first_value_absent name kvs : existsb (λ kv, bool_decide (kv.1 = name)) kvs = false → first_value name kvs = "".
Proof.
  induction kvs as [|[k v] kvs IH]; simpl; [done|]. intros [Hk Hr]%orb_false_iff. rewrite Hk. by apply IH.
Qed.

Lemma query_filter_cursor f g c :
  lf_Cursor f = "" → rune_count c ≤ 512 → query_filter f = Ok g → query_filter (with_cursor c f) = Ok (with_cursor c g) ∧ lf_Cursor g = "".
Proof.
  destruct f as [q t b sort lim cur]. cbn [lf_Cursor]. intros -> Hc0. unfold query_filter, with_cursor. cbn [lf_Query lf_Type lf_Building lf_Sort lf_Limit lf_Cursor].
  destruct (_ ++ _); [|done]. unfold ValidateListFilter. cbn [lf_Query lf_Type lf_Building lf_Sort lf_Limit lf_Cursor].
  replace (too_long "cursor" c 512) with (@nil FieldViolation) by (unfold too_long; by rewrite (proj2 (Z.ltb_ge 512 _))).
  replace (too_long "cursor" "" 512) with (@nil FieldViolation) by done.
  destruct (_ ++ _); [|done]. by intros [= <-].
Qed.

Lemma listing_cursor params c f :
  qHas (mkQuery params None) "cursor" = false → rune_count c ≤ 512 →
  listing (mkQuery params None) = Some f → listing (supplier_query params c) = Some (with_cursor c f).
Proof.
  intros Hno Hlen. unfold listing.
  assert (∀ g, list_filter (mkQuery params None) = Ok g → lf_Cursor g = "" ∧ list_filter (supplier_query params c) = Ok (with_cursor c g)) as Hlf.
  { intros g. unfold qHas in Hno. pose proof (first_value_absent _ _ Hno) as Hcur.
    unfold list_filter, supplier_query. destruct (decide (c = "")) as [->|He];
      [rewrite !(bool_decide_true ("" = "")) by done|rewrite !(bool_decide_false (c = "")) by done].
    - unfold qGet in *. cbn [qy_Values] in *. rewrite Hcur. destruct (_ && _); [done|]. destruct (qHas _ "limit"); [|by intros [= <-]].
      destruct (Atoi _); [|done]. destruct (_ || _); [done|]. by intros [= <-].
    - unfold qGet, qHas in *. cbn [qy_Values existsb first_value fst snd] in *. rewrite Hcur.
      rewrite !(bool_decide_false ("cursor" = "sort")), !(bool_decide_false ("cursor" = "limit")), !(bool_decide_false ("cursor" = "q")),
        !(bool_decide_false ("cursor" = "type")), !(bool_decide_false ("cursor" = "building")), !(bool_decide_true ("cursor" = "cursor")) by done.
      cbn [orb]. destruct (_ && _); [done|]. destruct (existsb (λ kv, bool_decide (kv.1 = "limit")) params); [|by intros [= <-]].
      destruct (Atoi _); [|done]. destruct (_ || _); [done|]. by intros [= <-]. }
  destruct (list_filter (mkQuery params None)) as [g|]; [|done]. destruct (Hlf g eq_refl) as [Hg ->].
  destruct (query_filter g) as [h|] eqn:Hq; [|done]. intros [= <-].
  by destruct (query_filter_cursor _ _ c Hg Hlen Hq) as [-> _].
Qed.

Lemma listing_no_cursor params f :
  qHas (mkQuery params None) "cursor" = false → listing (mkQuery params None) = Some f → with_cursor "" f = f.
Proof.
  intros Hno Hl. pose proof (listing_cursor params "" f Hno ltac:(done) Hl) as H. unfold supplier_query in H.
  rewrite bool_decide_true in H by done. rewrite Hl in H. by injection H as ->.
Qed.

Lemma list_suppliers_page n reader q anchored db page :
  crp_Body (list_suppliers n (Some reader) q anchored db) = CPage page →
  requireRead (Some reader) = Ok tt ∧ ∃ f, listing q = Some f ∧ ListAvailable n f anchored db = Ok page.
Proof.
  assert (∀ e, crp_Body (query_error e) ≠ CPage page) as Herr by (intros e; destruct e as [|[]| | | | |]; done).
  unfold list_suppliers, listing. destruct (requireRead _) as [[]|]; [|by intros ?%Herr].
  destruct (list_filter q) as [g|]; [|by intros ?%Herr]. destruct (query_filter g) as [f|]; [|by intros ?%Herr].
  destruct (ListAvailable _ _ _ _) as [page'|] eqn:Hl; [|by intros ?%Herr]. simpl. intros [= ->]. split; [done|]. by exists f.
Qed.

Lemma list_suppliers_run n reader q anchored db f page :
  requireRead (Some reader) = Ok tt → listing q = Some f → ListAvailable n f anchored db = Ok page →
  list_suppliers n (Some reader) q anchored db = mkCReply 200 "" (CPage page).
Proof.
  unfold list_suppliers, listing. intros -> Hl. destruct (list_filter q) as [g|]; [|done]. destruct (query_filter g) as [h|]; [|done].
  injection Hl as ->. by intros ->.
Qed.

(** The parameters the database accepts. *)
Definition texts_ok (f : ListFilter) : bool :=
  text_ok (lp_QueryText (list_params f)) && text_ok (lp_SupplierType (list_params f)) && text_ok (lp_Building (list_params f)).

Lemma ListAvailable_valid n f db page :
  ListAvailable n f db db = Ok page → ValidateListFilter f = [] ∧ texts_ok f = true ∧ is_Some (ordering (SortOrder f)).
Proof.
  unfold ListAvailable, texts_ok. destruct (ValidateListFilter f) as [|]; [|done]. destruct (read_anchor f db) as [after|]; [|done].
  destruct (_ && _); [|done]. cbn [negb]. rewrite listAvailableRows_ordering. destruct (ordering _); [|done]. by intros _; split; [|split].
Qed.

Definition list_item (v : VersionView) : Supplier := supplier_of (view_id v) v.

Lemma PageSize_positive f : ValidateListFilter f = [] → 0 < PageSize f.
Proof.
  unfold PageSize, ValidateListFilter. destruct (lf_Limit f =? 0) eqn:H0; [done|]. apply Z.eqb_neq in H0.
  intros [Hv _]%app_eq_nil. destruct (lf_Limit f <? 0) eqn:Hneg; [done|]. apply Z.ltb_ge in Hneg. lia.
Qed.

Lemma ListAvailable_run n f c o after db :
  lf_Cursor f = "" → ValidateListFilter f = [] → texts_ok f = true → ordering (SortOrder f) = Some o → rune_count c ≤ 512 →
  read_anchor (with_cursor c f) db = Ok after →
  ListAvailable n (with_cursor c f) db db =
    let limit := Z.to_nat (PageSize f) in
    let rows := keyset (or_le o) (or_key o) (or_anchor o <$> after) (limit + 1) (matching f db) in
    Ok (mkSPage (list_item <$> take limit rows)
          (if (limit <? length rows)%nat
           then match rows !! (limit - 1)%nat with Some last => cat_encodeCursor n (vv_VersionID last) f | None => "" end
           else "")).
Proof.
  intros Hcur Hv Ht Ho Hlen Ha. unfold ListAvailable. rewrite Ha.
  assert (ValidateListFilter (with_cursor c f) = []) as ->.
  { unfold ValidateListFilter in *. destruct f as [q t b sort lim cur]. cbn in Hcur. subst cur. cbn [with_cursor lf_Query lf_Type lf_Building lf_Sort lf_Limit lf_Cursor] in *.
    replace (too_long "cursor" c 512) with (@nil FieldViolation) by (unfold too_long; by rewrite (proj2 (Z.ltb_ge 512 _))). done. }
  change (list_params (with_cursor c f)) with (list_params f). unfold texts_ok in Ht. rewrite Ht. cbn [negb].
  change (SortOrder (with_cursor c f)) with (SortOrder f). rewrite listAvailableRows_ordering, Ho.
  change (PageSize (with_cursor c f)) with (PageSize f). cbv zeta.
  pose proof (PageSize_positive _ Hv) as Hp.
  by replace (Z.to_nat (PageSize f + 1)) with (Z.to_nat (PageSize f) + 1)%nat by lia.
Qed.

(** ** Cursors *)

Lemma available_view db v :
  cat_ok db → v ∈ available db →
  canonical (vv_VersionID v) ∧ version_view db (vv_VersionID v) = Some v ∧
  cs_Name (vv_Supplier v) = NormalizeName (vr_Name (vv_Row v)).
Proof.
  intros Hok. unfold available. rewrite list_elem_of_omap. intros ([sid s0] & Hin%elem_of_map_to_list & Hv). simpl in Hv.
  unfold current_view in Hv. rewrite Hin in Hv. simpl in Hv. apply bind_Some in Hv as (v' & Hx & Hl).
  destruct (supplier_live s0 && _); [|done]. injection Hl as ->.
  destruct (co_supplier _ _ Hok _ _ Hin) as (_ & Hc1 & r & Hr & Hrs & _ & Hn).
  destruct (version_view_Some _ _ _ Hx) as (Hvid & Hr' & Hs' & _). rewrite Hvid. split; [done|]. split; [done|]. by simplify_eq.
Qed.

Lemma available_ids db : NoDup (view_id <$> available db).
Proof.
  unfold available.
  assert (∀ l : list (string * CatRow), NoDup (l.*1) → NoDup (view_id <$> omap (λ kv, current_view db kv.1) l) ∧
    ∀ sid, sid ∈ view_id <$> omap (λ kv, current_view db kv.1) l → sid ∈ l.*1) as H.
  2: { apply H, NoDup_fst_map_to_list. }
  induction l as [|[sid s] l IH]; [by split; [constructor|]|]. rewrite fmap_cons. intros [Hn Hnd]%NoDup_cons. destruct (IH Hnd) as [IH1 IH2].
  simpl. destruct (current_view db sid) as [v|] eqn:Hv.
  - assert (view_id v = sid) as <-.
    { unfold current_view in Hv. apply bind_Some in Hv as (s' & _ & Hv). apply bind_Some in Hv as (v' & _ & Hl).
      destruct (_ && _) eqn:Hb; [|done]. injection Hl as ->. by bool_props. }
    rewrite fmap_cons. split; [constructor; [by intros Hin%IH2|done]|]. intros i [->|Hin]%elem_of_cons; [by left|right; by apply IH2].
  - split; [done|]. intros i Hin. right. by apply IH2.
Qed.

Lemma matching_ids f db : NoDup (view_id <$> matching f db).
Proof.
  unfold matching. pose proof (available_ids db) as Hnd. induction (available db) as [|v l IH]; [constructor|].
  rewrite fmap_cons in Hnd. apply NoDup_cons in Hnd as [Hn Hnd]. cbn [List.filter]. destruct (matches _ v); [|by apply IH].
  rewrite fmap_cons. constructor; [|by apply IH]. intros (v' & Heq & Hin)%list_elem_of_fmap. apply Hn. apply list_elem_of_fmap.
  exists v'. split; [done|]. by apply list_elem_of_In, filter_In in Hin as [Hin%list_elem_of_In _].
Qed.

Lemma matching_elem f db v : v ∈ matching f db ↔ matches (list_params f) v = true ∧ current_view db (view_id v) = Some v.
Proof.
  unfold matching. rewrite (list_elem_of_In (List.filter _ _)), filter_In, <- list_elem_of_In.
  assert (v ∈ available db ↔ current_view db (view_id v) = Some v) as ->; [|by split; intros [??]].
  unfold available. rewrite list_elem_of_omap. split.
  - intros ([sid s] & _ & Hv). simpl in Hv. pose proof Hv as Hc0. unfold current_view in Hc0. apply bind_Some in Hc0 as (s' & _ & Hc0).
    apply bind_Some in Hc0 as (v' & _ & Hl). destruct (_ && _) eqn:Hb; [|done]. injection Hl as ->. bool_props. unfold view_id. by subst sid.
  - intros Hv. pose proof Hv as Hc0. unfold current_view in Hc0. apply bind_Some in Hc0 as (s & Hs & _).
    exists (view_id v, s). by rewrite elem_of_map_to_list.
Qed.

Lemma matching_length f db : (length (matching f db) ≤ size (cd_suppliers db))%nat.
Proof.
  unfold matching. etrans; [apply List.filter_length_le|]. unfold available. rewrite <- length_map_to_list.
  induction (map_to_list _) as [|kv l IH]; [done|]. csimpl. destruct (current_view db kv.1); csimpl; lia.
Qed.

Lemma matching_keys o f db : NoDup (or_key o <$> matching f db).
Proof.
  pose proof (matching_ids f db) as Hnd. induction (matching f db) as [|v l IH]; [constructor|]. rewrite fmap_cons in *. apply NoDup_cons in Hnd as [Hn Hnd].
  constructor; [|by apply IH]. intros (v' & Heq & Hin)%list_elem_of_fmap. apply Hn, list_elem_of_fmap. exists v'.
  split; [by apply (or_inj o)|done].
Qed.

Lemma ValidVersionID_length id : ValidVersionID id = true → String.length id = 36%nat.
Proof. intros H. by rewrite (match_classes_length _ _ H). Qed.

(** A cursor leads back to its version, under the filter it was issued for. *)
Lemma read_anchor_at n f v db :
  cat_ok db → v ∈ available db →
  let c := cat_encodeCursor n (vv_VersionID v) f in
  c ≠ "" ∧ rune_count c ≤ 512 ∧ read_anchor (with_cursor c f) db = Ok (Some (anchor_at v)).
Proof.
  intros Hok Hv. destruct (available_view _ _ Hok Hv) as (Hid & Hx & Hname). cbv zeta.
  pose proof (ValidVersionID_length _ (proj2 Hid)) as H36. unfold cat_encodeCursor. set (token := aead_seal n _ _).
  split; [apply token_nonempty|]. split; [unfold token; rewrite b64_ascii; by apply token_short|].
  unfold read_anchor. cbn [with_cursor lf_Cursor]. rewrite bool_decide_false by apply token_nonempty.
  unfold cat_decodeCursor. rewrite b64_roundtrip. rewrite (proj2 (Z.ltb_ge 512 _)) by (by apply token_short).
  rewrite bool_decide_true by done. cbn [orb negb]. change (cursorFilters (with_cursor _ f)) with (cursorFilters f).
  unfold token at 1. rewrite aead_same, (proj2 Hid). unfold inTx. rewrite (GetVersion_view _ _ _ Hid Hx). simpl. done.
Qed.

Lemma walk_suppliers_from nonce reader db params f o fuel cursor after l :
  cat_ok db → requireRead (Some reader) = Ok tt → qHas (mkQuery params None) "cursor" = false →
  listing (mkQuery params None) = Some f → ValidateListFilter f = [] → texts_ok f = true → ordering (SortOrder f) = Some o →
  rune_count cursor ≤ 512 → (∀ v, after = Some v → cs_Name (vv_Supplier v) = NormalizeName (vr_Name (vv_Row v))) →
  read_anchor (with_cursor cursor f) db = Ok (anchor_at <$> after) →
  pages (or_le o) (or_key o) fuel (Z.to_nat (PageSize f)) (or_key o <$> after) (matching f db) = Some l →
  walk_suppliers nonce reader db params fuel cursor = Some (list_item <$> l).
Proof.
  intros Hok Hread Hno Hl Hv Ht Ho. pose proof (PageSize_positive _ Hv) as Hsize. assert (lf_Cursor f = "") as Hcur by (by rewrite <- (listing_no_cursor _ _ Hno Hl)).
  revert cursor after l. induction fuel as [|fuel IH]; intros cursor after l Hlen Hname Ha Hp; [done|].
  cbn [pages walk_suppliers] in *.
  assert (or_anchor o <$> (anchor_at <$> after) = or_key o <$> after) as Hkey.
  { destruct after as [v|]; [|done]. simpl. f_equal. by apply or_anchored, Hname. }
  rewrite (list_suppliers_run _ _ _ _ _ _ _ Hread (listing_cursor _ _ _ Hno Hlen Hl) (ListAvailable_run _ _ _ _ _ _ Hcur Hv Ht Ho Hlen Ha)).
  cbv zeta. cbn [sg_NextCursor sg_Items]. rewrite Hkey. set (rows := keyset _ _ _ _ _) in *.
  destruct (_ <? _)%nat eqn:Hlt; [|by injection Hp as <-].
  apply Nat.ltb_lt in Hlt. rewrite last_lookup, length_take, lookup_take_lt in Hp by lia.
  replace (pred (Z.to_nat (PageSize f) `min` length rows)) with (Z.to_nat (PageSize f) - 1)%nat in Hp by lia.
  destruct (rows !! (Z.to_nat (PageSize f) - 1)%nat) as [v|] eqn:Hlr; [|done].
  assert (v ∈ available db) as Hin.
  { apply list_elem_of_lookup_2 in Hlr. unfold rows, keyset in Hlr. apply elem_of_take in Hlr as (k & Hlr & _).
    apply list_elem_of_lookup_2 in Hlr. rewrite merge_sort_Permutation in Hlr.
    apply list_elem_of_In, filter_In in Hlr as [Hlr _]. by apply filter_In in Hlr as [Hlr%list_elem_of_In _]. }
  destruct (read_anchor_at (nonce fuel) f v db Hok Hin) as (Hne & Hshort & Hanchor). rewrite bool_decide_false by done.
  destruct (pages _ _ fuel _ _ _) as [rest|] eqn:Hrest; [|done]. injection Hp as <-.
  rewrite (IH _ (Some v) rest Hshort); [simpl; by rewrite fmap_app| |done|done].
  intros v' [= <-]. by apply (available_view _ _ Hok Hin).
Qed.

(** C28: A client that asks for a list of suppliers and follows each
    [nextCursor] reads, on a catalogue that does not change, every available
    supplier that satisfies the query exactly once, in the order asked for,
    whatever the query, the sort (one of six), the page size and the nonces; every
    cursor is accepted. *)
Theorem supplier_pages_list_everything n nonce reader db params page fuel :
  cat_reachable db → qHas (mkQuery params None) "cursor" = false →
  crp_Body (list_suppliers n (Some reader) (mkQuery params None) db db) = CPage page →
  (size (cd_suppliers db) < fuel)%nat →
  ∃ f o l, listing (mkQuery params None) = Some f ∧ ordering (SortOrder f) = Some o ∧
    walk_suppliers nonce reader db params fuel "" = Some (list_item <$> l) ∧
    StronglySorted (λ v v', or_le o (or_key o v) (or_key o v')) l ∧
    NoDup (view_id <$> l) ∧
    ∀ v, v ∈ l ↔ matches (list_params f) v = true ∧ current_view db (view_id v) = Some v.
Proof.
  intros Hok%cat_reachable_ok Hno Hpage Hfuel.
  destruct (list_suppliers_page _ _ _ _ _ _ Hpage) as (Hread & f & Hl & Hrun).
  destruct (ListAvailable_valid _ _ _ _ Hrun) as (Hv & Ht & o & Ho).
  pose proof (listing_no_cursor _ _ Hno Hl) as Hcur. exists f, o, (merge_sort (row_le (or_le o) (or_key o)) (matching f db)).
  split; [done|]. split; [done|].
  pose proof (PageSize_positive _ Hv) as Hsize.
  pose proof (matching_length f db) as Hlen. split; [|split; [|split]].
  - eapply (walk_suppliers_from nonce reader db params f o fuel "" None); try done.
    apply (pages_all (or_le o) (or_key o)); [apply matching_keys|lia|lia].
  - apply (rows_sorted (or_le o) (or_key o)).
  - rewrite merge_sort_Permutation. apply matching_ids.
  - intros v. rewrite merge_sort_Permutation. apply matching_elem.
Qed.

End pages.

(** ** Witnesses *)

(** An administrator sets up a building and a type, two stalls open, and one
    changes its name. *)
Module CatalogueScenario.
Export StoreScenario.

(** Whole degrees; squeezing blanks, ASCII case and alphanumerics. *)
#[export] Instance degrees : GoFloat := {|
  ParseFloat s := f_of <$> Atoi s; FormatFloat _ := ""; enc_float _ := JNull;
  dec_float j := match j with JInt z => Some (f_of z) | _ => None end;
  math_Sin x := x; math_Cos x := x; math_Asin x := x |}.

#[export] Instance by_bytes : Collation := bytewise.
#[export] Instance by_bytes_ok : CollationOk.
Proof. split; simpl; apply _. Qed.

Definition parse_url (s : string) : option (string * string) :=
  if bool_decide (s = "") then None else Some ("https", "example.com").
#[export] Instance ascii_only : GoTables := ascii_tables parse_url.
#[export] Instance ascii_only_ok : GoTablesOk.
Proof. split; [done| |]; simpl; done. Qed.

Fixpoint squeeze (s : string) : string :=
  match s with
  | String a s' => if is_blank a then match s' with
                                      | String b _ => if is_blank b then squeeze s' else String a (squeeze s')
                                      | EmptyString => String a ""
                                      end
                   else String a (squeeze s')
  | EmptyString => ""
  end.

Fixpoint keep (p : ascii → bool) (s : string) : string :=
  match s with String a s' => if p a then String a (keep p s') else keep p s' | EmptyString => "" end.

Definition is_alnum (a : ascii) : bool :=
  is_digit a || between 65 (byte_of a) 90 || between 97 (byte_of a) 122.

#[export] Instance ascii_text : PgText := {|
  pg_squeeze := squeeze; pg_lower := to_lower; pg_alnum := keep is_alnum; pg_lower_c := to_lower |}.

(** A cipher that hides nothing, in hexadecimal. *)
Fixpoint hex_text (s : string) : string :=
  match s with
  | String a s' => String (hex_digit (byte_of a / 16)) (String (hex_digit (byte_of a mod 16)) (hex_text s'))
  | EmptyString => ""
  end.

Definition hex_val (a : ascii) : Z := if byte_of a <? 58 then byte_of a - 48 else byte_of a - 87.

Fixpoint text_hex (s : string) : option string :=
  match s with
  | EmptyString => Some ""
  | String a (String b s') => String (ascii_of_N (Z.to_N (hex_val a * 16 + hex_val b))) <$> text_hex s'
  | _ => None
  end.

#[export] Instance hex_cipher : Cipher := {|
  b64_encode := hex_text; b64_decode := text_hex;
  aead_seal _ p _ := String "s" p;
  aead_open t _ := match t with String _ p => Some p | EmptyString => None end |}.

Lemma hex_text_back s : text_hex (hex_text s) = Some s.
Proof.
  induction s as [|a s IH]; [done|]. cbn [hex_text text_hex]. rewrite IH. simpl. do 2 f_equal.
  destruct a as [[] [] [] [] [] [] [] []]; reflexivity.
Qed.

Lemma hex_text_length s : String.length (hex_text s) = (2 * String.length s)%nat.
Proof. induction s as [|a s IH]; [done|]. cbn [hex_text String.length]. lia. Qed.

Lemma ascii_runes a s : byte_of a < 128 → rune_count (String a s) = rune_count s + 1.
Proof.
  intros Ha. unfold rune_count, runes. cbn [decode_utf8]. change 0x80 with 128. rewrite (proj2 (Z.ltb_lt _ _) Ha).
  cbn [fmap list_fmap length]. lia.
Qed.

Lemma hex_text_ascii s : rune_count (hex_text s) = len (hex_text s).
Proof.
  induction s as [|a s IH]; [done|]. cbn [hex_text].
  rewrite !ascii_runes by (destruct a as [[] [] [] [] [] [] [] []]; reflexivity).
  rewrite IH. unfold len. cbn [String.length]. lia.
Qed.

#[export] Instance hex_cipher_ok : CipherOk.
Proof.
  split; simpl.
  - apply hex_text_back.
  - apply hex_text_ascii.
  - done.
  - intros _ p _ Hp. unfold len. cbn [String.length]. rewrite hex_text_length, Hp. done.
  - done.
Qed.

(** [uid n]: generated identifiers. *)
Definition u_building := "00000000-0000-4000-8000-000000000001".
Definition u_type := "00000000-0000-4000-8000-000000000002".
Definition u_kopi := "00000000-0000-4000-8000-000000000003".
Definition u_kopi1 := "00000000-0000-4000-8000-000000000004".
Definition u_teh := "00000000-0000-4000-8000-000000000005".
Definition u_teh1 := "00000000-0000-4000-8000-000000000006".
Definition u_kopi2 := "00000000-0000-4000-8000-000000000007".

Definition admin : SPrincipal := mkSPrincipal "admin" [ReadSuppliers; ManageSuppliers].
Definition student : SPrincipal := mkSPrincipal "alice" [ReadSuppliers].

Definition stall (name building : string) : option json :=
  Some (JObj [("name", JStr name); ("type", JStr "Cafe"); ("building", JStr building); ("floor", JStr "1");
              ("locationDescription", JStr "by the lift"); ("latitude", JInt 1); ("longitude", JInt 103);
              ("openingTime", JStr "08:00"); ("closingTime", JStr "20:00"); ("imageUrl", JStr "https://example.com/kopi.png")]).

Definition drawn (id version : string) (now : Z) : CDraw := mkCDraw id version 7 now empty_cdb.
Definition ask (r : CRoute) (id version : string) (now : Z) (db : CDB) : CReply * CDB := cat_route (drawn id version now) r admin db.

Definition db1 := Eval vm_compute in (ask (RCreateLookup BuildingLookup (Some (JObj [("name", JStr "COM 1")]))) u_building u_building 1000 empty_cdb).2.
Definition db2 := Eval vm_compute in (ask (RCreateLookup SupplierTypeLookup (Some (JObj [("name", JStr "Cafe")]))) u_type u_type 1000 db1).2.
Definition creating := Eval vm_compute in ask (RCreateSupplier (stall "Kopi" "com1")) u_kopi u_kopi1 2000 db2.
Definition db3 := Eval vm_compute in creating.2.
Definition db4 := Eval vm_compute in (ask (RCreateSupplier (stall "Teh Tarik" "Com 1")) u_teh u_teh1 3000 db3).2.
Definition renaming : option json := Some (JObj [("name", JStr "Kopi  Corner")]).
Definition updating := Eval vm_compute in ask (RUpdateSupplier u_kopi renaming) u_kopi2 u_kopi2 4000 db4.
Definition db5 := Eval vm_compute in updating.2.

Lemma is_canonical id : bool_decide (uuid_cast id = Some id) && ValidVersionID id = true → canonical id.
Proof. intros [H1 H2]%andb_true_iff. by apply bool_decide_eq_true in H1. Qed.

Lemma asked_write r id version now db reply db' :
  canonical id → canonical version → ask r id version now db = (reply, db') → cat_write db db'.
Proof. intros Hi Hv Hr. by eapply (cst_route _ (drawn id version now)). Qed.

Lemma asked db db0 reply r id version now :
  cat_reachable db → canonical id → canonical version → ask r id version now db = (reply, db0) → cat_reachable db0.
Proof. intros Hdb Hi Hv Hr. eapply rtc_r; [exact Hdb|]. exact (cst_write _ _ (asked_write _ _ _ _ _ _ _ Hi Hv Hr)). Qed.

Ltac drawing := apply is_canonical; vm_compute; reflexivity.

Lemma seen_db2 : cat_reachable db2.
Proof.
  eapply (asked db1 _ _ (RCreateLookup SupplierTypeLookup (Some (JObj [("name", JStr "Cafe")]))) u_type u_type 1000);
    [|drawing|drawing|vm_compute; reflexivity].
  eapply (asked empty_cdb _ _ (RCreateLookup BuildingLookup (Some (JObj [("name", JStr "COM 1")]))) u_building u_building 1000);
    [apply rtc_refl|drawing|drawing|vm_compute; reflexivity].
Qed.

Lemma creating_run : ask (RCreateSupplier (stall "Kopi" "com1")) u_kopi u_kopi1 2000 db2 = creating.
Proof. vm_compute. reflexivity. Qed.

Lemma seen_db4 : cat_reachable db4.
Proof.
  eapply (asked db3 _ _ (RCreateSupplier (stall "Teh Tarik" "Com 1")) u_teh u_teh1 3000);
    [|drawing|drawing|vm_compute; reflexivity].
  eapply (asked db2 _ _ (RCreateSupplier (stall "Kopi" "com1")) u_kopi u_kopi1 2000);
    [apply seen_db2|drawing|drawing|apply creating_run].
Qed.

Lemma updating_run : ask (RUpdateSupplier u_kopi renaming) u_kopi2 u_kopi2 4000 db4 = updating.
Proof. vm_compute. reflexivity. Qed.

Lemma updated : cat_write db4 db5.
Proof. eapply asked_write; [| |apply updating_run]; drawing. Qed.

Lemma seen_db5 : cat_reachable db5.
Proof. eapply rtc_r; [apply seen_db4|apply cst_write, updated]. Qed.

(** The seed file: a header and a row. *)
Definition seed_file : list CsvRow :=
  [CsvFields 1 requiredColumns;
   CsvFields 2 ["Prata House"; "Cafe"; "COM 2"; "2"; "next to the gate"; "1"; "103"; "0900hrs"; "2100hrs"]].
Definition seeding : nat → SeedDraw := λ _,
  mkSeedDraw "00000000-0000-4000-8000-000000000011" "00000000-0000-4000-8000-000000000012"
    "00000000-0000-4000-8000-000000000013" "00000000-0000-4000-8000-000000000014".

Lemma seeding_ok i : draw_ok (seeding i).
Proof. split_and!; drawing. Qed.

Definition seeded := Eval vm_compute in Import "nus" "" (Some seed_file) seeding 5000 db5.

Lemma seeded_run : Import "nus" "" (Some seed_file) seeding 5000 db5 = seeded.
Proof. vm_compute. reflexivity. Qed.

Definition one_by_one : list (string * string) := [("sort", "-building"); ("limit", "1")].

End CatalogueScenario.
Import CatalogueScenario.

Lemma catalogue_always_consistent_witness :
  ∃ v, GetCurrentAvailable u_kopi db5 = Ok (supplier_of u_kopi v, db5) ∧
    normalize_supplier_name (dt_Name (details_of v)) = "kopi corner" ∧ lookup_live (vv_Building v) = true.
Proof.
  destruct (catalogue_always_consistent db5 seen_db5) as (H & _).
  destruct (H u_kopi (mkCatRow u_kopi2 "kopi corner" 2000 4000 None)) as (v & _ & Hg & _ & Hn & Hb & _);
    [vm_compute; reflexivity..|].
  exists v. split; [exact Hg|]. split; [exact Hn|exact Hb].
Defined.

Lemma versions_are_immutable_witness :
  ∃ v available, GetVersion u_kopi1 db4 = Ok (v, db4) ∧ dt_Name (ve_Details v) = "Kopi" ∧ ve_Available v = true ∧
    GetVersion u_kopi1 db5 = Ok (mkSVersion (ve_SupplierID v) (ve_VersionID v) (ve_Details v) available (ve_CreatedAt v), db5).
Proof.
  destruct (GetVersion u_kopi1 db4) as [[v db]|e] eqn:Hv; [|vm_compute in Hv; discriminate].
  assert (dt_Name (ve_Details v) = "Kopi" ∧ ve_Available v = true ∧ db = db4) as (Hn & Ha & ->).
  { enough (match GetVersion u_kopi1 db4 with
            | Ok (v, db) => dt_Name (ve_Details v) = "Kopi" ∧ ve_Available v = true ∧ db = db4 | Err _ => True end) as H by by rewrite Hv in H.
    clear. vm_compute. split; [|split]; reflexivity. }
  destruct (versions_are_immutable db4 db5 u_kopi1 v seen_db4) as (available & H & _);
    [apply rtc_once, cst_write, updated|exact Hv|].
  exists v, available. by split_and!.
Defined.

Lemma catalogue_refines_deletion_world_witness : catalogue (sup_db ∅ db4) (sup_db ∅ db5).
Proof. apply (catalogue_refines_deletion_world db4 ∅ seen_db4), updated. Defined.

Lemma created_supplier_reads_back_witness :
  crp_Status creating.1 = 201 ∧
  current_supplier (Some student) u_kopi db3 = mkCReply 200 "" (crp_Body creating.1).
Proof.
  split; [vm_compute; reflexivity|].
  destruct (created_supplier_reads_back db2 u_kopi u_kopi1 2000 (Some admin) (stall "Kopi" "com1") creating.1 db3 seen_db2)
    as [(_ & H & _)|(d & s & _ & -> & _ & _ & _ & _ & _ & H)]; [drawing|drawing|apply creating_run|exfalso|].
  - vm_compute in H. by apply H.
  - apply H. vm_compute. reflexivity.
Defined.

Lemma updated_supplier_reads_back_witness :
  crp_Status updating.1 = 200 ∧
  ∃ s, crp_Body updating.1 = CSupplier s ∧ dt_Name (sp_Details s) = "Kopi  Corner" ∧
    current_supplier (Some student) u_kopi db5 = mkCReply 200 "" (CSupplier (with_id u_kopi s)).
Proof.
  split; [vm_compute; reflexivity|].
  destruct (updated_supplier_reads_back db4 u_kopi2 4000 (Some admin) u_kopi renaming updating.1 db5 seen_db4)
    as [(_ & H & _)|(sid & old & patch & s & Hsid & _ & _ & Hr & _ & _ & _ & _ & _ & _ & _ & _ & _ & H)];
    [drawing|apply updating_run|exfalso|].
  - vm_compute in H. by apply H.
  - exists s. rewrite Hr. split; [done|]. split; [by vm_compute in Hr; injection Hr as <-|].
    vm_compute in Hsid. injection Hsid as <-. apply H. vm_compute. reflexivity.
Defined.

Lemma seed_import_is_idempotent_witness :
  seeded.1 = Ok (mkSeedResult 1 1 0) ∧
  Import "nus" "" (Some seed_file) seeding 9000 seeded.2 = (Ok (mkSeedResult 1 0 1), seeded.2).
Proof.
  split; [reflexivity|].
  destruct (seed_import_is_idempotent db5 "nus" "" seed_file seeding 5000 (Ok (mkSeedResult 1 1 0)) seeded.2 seen_db5 seeding_ok)
    as (_ & _ & _ & _ & _ & H); [apply seeded_run|]. apply (H seeded.2 seeding 9000), rtc_refl.
Defined.

Lemma catalogue_fails_closed_witness :
  let serve p := cat_serve (λ _, Ok p) "Bearer token" (drawn u_kopi2 u_kopi2 4000) (RUpdateSupplier u_kopi renaming) db4 in
  (serve student).1 = c_error 403 CForbidden [] ∧ serve admin = updating ∧ principal_Has admin ManageSuppliers = true.
Proof.
  cbv zeta. split; [vm_compute; reflexivity|]. split; [vm_compute; reflexivity|].
  destruct (catalogue_fails_closed (λ _, Ok admin) "Bearer token" (drawn u_kopi2 u_kopi2 4000) (RUpdateSupplier u_kopi renaming) db4
    updating.1 db5) as [(H & _)|(token & p & _ & [= <-] & _ & _ & H & _)]; [vm_compute; reflexivity|exfalso|].
  - apply (f_equal (λ db, cd_versions db !! u_kopi2)) in H. vm_compute in H. discriminate.
  - apply H. intros H'. apply (f_equal (λ db, cd_versions db !! u_kopi2)) in H'. vm_compute in H'. discriminate.
Defined.

Lemma supplier_pages_list_everything_witness :
  ∃ l, walk_suppliers (λ k, Z.of_nat k) student db5 one_by_one 9 "" = Some l ∧ sp_SupplierID <$> l = [u_teh; u_kopi].
Proof.
  destruct (supplier_pages_list_everything 7 (λ k, Z.of_nat k) student db5 one_by_one
    (match crp_Body (list_suppliers 7 (Some student) (mkQuery one_by_one None) db5 db5) with CPage p => p | _ => mkSPage [] "" end)
    9 seen_db5) as (f & o & l & _ & _ & H & _);
    [reflexivity|vm_compute; reflexivity|apply Nat.ltb_lt; vm_compute; reflexivity|].
  exists (list_item <$> l). split; [exact H|].
  enough (sp_SupplierID <$> default [] (walk_suppliers (λ k, Z.of_nat k) student db5 one_by_one 9 "") = [u_teh; u_kopi]) as He
    by by rewrite H in He.
  clear. vm_compute. reflexivity.
Defined.
